(* ===== verification/_CoqProject ===== *)
-Q . S2P
Prelude.v
CLib.v
CString.v
Misc.v
DlList.v
IpNetwork.v
Types.v
ClientMsgs.v
Checks.v
Stdio.v
ValidateRec.v
FilePath.v
IndexLine.v
BinSearch.v
Records.v
SearchPrim.v
Index.v
Metaphone.v
FileInfo.v
Regexp.v
RegexpSyntax.v
RegexpCompile.v
RegexpExec.v
RegexpFast.v
RegexpMatch.v
ConfigFile.v
Directives.v
FileNames.v
Attributes.v
Schema.v
AuthArea.v
RefLists.v
RootReferral.v
IndexSort.v
IndexFiles.v
DataFile.v
Delete.v
Search.v
Query.v
QueryText.v
Guardian.v
Referral.v
MainConfig.v
ReadConfig.v
RegUtils.v
Answers.v
Xfer.v
Register.v
RegisterFiles.v
Session.v
System.v
Soa.v
Slave.v
SlaveSchema.v
SlaveXfer.v
SlaveAreas.v
Tools.v
