(* ===== verification/Prelude.v ===== *)
(** * A verification of the RWhois reference server (ref/rwhoisd)

    The program.  RWhois serves a directory of records (networks, contacts,
    hosts) that is spread over authority areas.  Records live in text files,
    one "attribute: value" pair to a line.  A local database library, mkdb,
    indexes these files and answers queries from the indexes.  This
    development models the C server under ref/rwhoisd: its common library
    (common/), its regular expressions (regexp/), mkdb (mkdb/) and what the
    server does for a client (server/).

    How the parts interact.

    - Configuration.  read_rwhois_config_files reads the main file, the files
      of the directives, the file of the authority areas, the punt referrals
      and the access lists.  Every primary area has a zone (SOA) file and a
      schema file; the schema has classes, each class its attributes from an
      attribute file.  What is read is checked as a whole, and can be written
      to new files that are then moved to where the old ones are.
    - Indexing.  The indexer reads a data file record by record
      (mkdb_read_next_record), resolves each pair against the class, and
      writes one line offset:file:deleted:attribute:KEY for every key of every
      indexed attribute to an exact, a CIDR or a soundex index file
      (index_record).  The index files are sorted by their keys and entered,
      like the data files, in the master file list of the class, local.db
      (modify_file_list).  Keys of networks are in a canonical form of fixed
      width, so that the order of the texts is that of the addresses.
    - Searching.  A query is parsed into a disjunction of conjunctions
      (parse.l, parse.y), checked against the limits of the server
      (check_query_complexity) and run on every area and class (search): on
      each index file that can answer a term, bisection finds the first line
      (binary_search), a scan collects the hits and tests the other terms of
      the conjunction on the records (full_scan); a search for a network is
      repeated for all networks around it (search_cidr_index_file).
    - A session reads lines.  A line is a directive (looked up in the list of
      directives and dispatched), a line of a registration while one is being
      spooled, or a query.  A query is answered with the records that it finds,
      their private parts for guardians only, and with referrals.
    - A registration is parsed from its spool file, validated against the
      schema and checked against the guardians of the records that it changes;
      then records are deleted in their data files and added in new ones.
    - Replication.  For a secondary area the server sends -soa, -schema and
      -xfer to the master of the area and makes the zone file, the schema with
      its attribute files and the data files from the answers; then it reads
      and indexes them.  A child process does each of these, and the server
      waits for the children, polling for a new serial number later on.

    The files, each opening with what it holds; C files are under common/
    unless a directory is named:

    - Prelude: outcomes of C code, the error monad, its tactics, lemmas on
      lists and characters that several components need.  CLib: buffers with
      checked accesses and the functions of the C library.  Checks: the monad
      of functions that answer yes or no and print messages.  Stdio: streams,
      readline of misc.c, files as sequences of lines.
    - CString (strutil.c), Misc (misc.c), DlList (dl_list.c), IpNetwork
      (ip_network.c), FilePath, FileNames (fileutils.c), ClientMsgs
      (client_msgs.c): the common library.
    - Types (types.h, mkdb/mkdb_types.h and look-ups of several files):
      structs and enumerations.
    - Regexp (regexp/regexp.c), with RegexpSyntax (grammar and meaning),
      RegexpCompile, RegexpExec, RegexpFast and RegexpMatch (the theorems).
    - ConfigFile: lines of tags and values.  Directives (directive_conf.c,
      server/directive.c), Attributes (attributes.c), Schema (schema.c),
      AuthArea (auth_area.c), RefLists (dir_security.c, punt_ref.c),
      RootReferral (regexp/regsub.c, the root referrals of auth_area.c),
      MainConfig (main_config.c), ReadConfig (read_config.c and the working
      directory of fileutils.c): the configuration.
    - Records (mkdb/anon_record.c, mkdb/records.c), DataFile (data files as
      sequences of records), ValidateRec (validate_rec.c), Delete
      (mkdb/delete.c), FileInfo (mkdb/fileinfo.c): data files and their lists.
    - IndexLine, Index, IndexSort, IndexFiles (mkdb/index.c,
      mkdb/index_file.c), Metaphone (mkdb/metaphon.c): indexing.
    - BinSearch, SearchPrim (mkdb/search_prim.c), Search (mkdb/search.c),
      Query (the actions of mkdb/parse.y), QueryText (mkdb/parse.l and the
      grammar): searching.
    - Guardian, Referral, Xfer, Soa (server/guardian.c, referral.c, xfer.c,
      soa.c), RegUtils, Register, RegisterFiles (server/reg_utils.c, register.c,
      reg_ext.c), Answers (the directives that print, server/dump.c), Session
      (server/session.c, state.c and the directives that change the session).
    - Slave (server/sresponse.c, ssoa.c), SlaveSchema (sschema.c), SlaveXfer
      (sxfer.c), SlaveAreas (sslave.c, sstate.c): the copy of an area of
      another server.
    - System: indexing, sorting, searching and deleting together.  Tools
      (tools/rwhois_indexer, rwhois_deleter, rwhois_repack): the command line
      tools.

    The interfaces.  [SortProgram] (IndexSort) states what the indexer relies
    on of the sort program.  [Database] (Register) states what a registration
    and a session need of the database; RegisterFiles implements it on files,
    with the search of Search and the deletion of Delete.  [DL.dl_list_refines]
    lets all clients of dl_list.c use cursor lists.

    How C is modelled.

    - A C function is a Rocq function of the same name.  It returns an
      [outcome]: [Ret] with its results, [Fault] where the C code has
      undefined behaviour (an access outside of an object, a null or freed
      pointer, a second free, a message that lacks an argument), or [NoFuel].  What it writes through its
      pointers and the static variables it changes are among its arguments
      and results.
    - Where the safety of the code depends on the size of a buffer, the
      buffer is modelled as the list of its bytes (CString, the argument
      vectors of Misc, the index line, the path arrays, printing networks,
      the values of referrals), and a string is what stands before the first
      NUL.  Elsewhere a string is the list of its characters, and one that
      may be null an option.  Arrays that are not initialised are arguments
      (junk, fullpath, ni0).
    - dl_list.c is modelled on a heap.  Its clients use Rocq lists or the
      cursor lists that it implements, with the cursor wherever the client
      relies on where a deletion leaves it.
    - int, off_t and long are Z.  The conversions that wrap or saturate
      (atoi, atoll, bytes, the words of an address) are written out; sums
      that cannot exceed a file's size are not wrapped.
    - The files of the system are a function from names to contents.  Opening
      fails for a missing file; link and unlink fail as their documentation
      says; whether a file or a directory can be made, renamed or removed is
      an argument where the code goes on after a failure.  Where the working
      directory matters (ReadConfig) files are known by their full paths.
    - Pointers that the code leaves behind are ghost state: the list
      [dangling] of the terms of a query whose value is a dead buffer
      (Search), the areas in [stale], which were freed, and the flag [dangling]
      of a schema whose last class was freed (Schema, AuthArea), with the
      places of its areas, [dangling_areas].  Destroying and checking such an
      area is a [Fault]; writing and searching are modelled for areas without
      a freed class, as the check of the configuration leaves them.
    - Loops that are not structural take fuel, computed by the caller from
      the input: the length of the buffer or of the file for the loops that
      consume it, the length of the list for loops over lists,
      [BinSearch.scan_fuel] and twice the file for the bisection (each turn
      makes the interval shorter), one more than the prefix length for the
      loop over networks, the length of the program times that of the string
      for the matcher of regular expressions.  The theorems conclude [Ret], so
      they show that the fuel is enough and with it that the C loops end.  The
      loop of get_down_referral takes any fuel: it ends for some inputs only.

    Parameters, for what is outside of the program: malloc (which may fail),
    mktemp, fopen for writing, mkdir, rename and rmdir, access, what
    getaddrinfo finds, the clock, the process id, crypt, the sort program and the
    programs of directives and classes, the wrapper library.  The components
    below RegexpMatch take the matching of regular expressions as an argument
    [regexec] (pattern, string): in the server it is [RegexpMatch.re_match],
    whose meaning that file proves.  The indexer takes the phonetic code as an
    argument, Metaphone.metaphone in the server, and the readers of records
    the validation, ValidateRec.check_record; the session takes refer_query,
    that of Referral, and the remaining directives, among them that of Xfer.
    No theorem assumes anything of these unless it says so.

    What the theorems show.

    - Searching is correct: bisection finds the first match
      (BinSearch.binary_search_correct), the scan lists exactly the matching
      records without repetition and within the limit
      (SearchPrim.full_scan_correct), the indexed search gives the result of
      a scan of the whole file (Search.search_exact_index_file_correct), the
      network search that of a scan for each enclosing network
      (Search.search_cidr_index_file_correct); System composes indexing,
      sorting, searching and deleting.
    - Indexing is correct: Index.index_record_correct (the lines of a
      record), Index.build_index_list_correct (the index files),
      IndexFiles.index_files_lists (the entries in the master list).
    - Regular expressions: regcomp accepts the grammar and writes the program
      of the expression, regexec finds a match exactly if there is one
      (RegexpMatch).  The grammar and the meaning are those of the code, which
      regexp.3 and a comment describe otherwise in some points
      (RegexpMatch.manual_differs).
    - Data survives its text form: records, index lines, file lists, networks,
      queries, the files of directives, attributes, classes, areas, zones and
      of the main configuration (the theorems named roundtrip; what is lost or
      changed on the way is part of their statements).
    - The configuration: what is read is consistent
      (Schema.read_schema_consistent, AuthArea.read_auth_areas_ok, but for a
      class that repeats a name), what passes
      the check has its paths under the root directory and different from each
      other (MainConfig.verified_config, ReadConfig.path_names_verified), a
      configuration that cannot be written keeps the old files and one that
      can is in place afterwards (ReadConfig).
    - Sessions: every reachable state is consistent, and no client changes the
      database but by a complete registration that its guardians allow
      (Session, Guardian, Register).
    - What clients are shown: Answers.display_dump_correct for queries,
      Xfer.xfer_directive_correct for transfers, with the words of RFC 2167
      that the code passes over, Referral for referrals.
    - Replication: what a master prints makes files on the slave that its
      readers turn into the zone, the classes and the records of the master
      (Slave.soa_replicated, SlaveSchema.schema_replicated, which says what is
      lost, SlaveXfer.records_replicated); the exits of the children are
      recorded in any order (SlaveAreas.children_waited), and transfers follow
      the serial number (SlaveAreas.no_growth_no_transfer).
    - Limits: the exact sizes at which a buffer overflows, and inputs on which
      the code does not do what it means to (a loop that does not end, a
      dangling value, a class that is freed twice, paths outside of the root
      directory, address classes on a little endian machine).  The theorems
      without a claim number next to them show further such inputs.

    Not modelled.  The daemon (daemon.c, deadman.c, main.c): processes,
    sockets and signals; for the slave side fork, pause and what comes from
    the master are arguments.  connect_server and send_directive of
    sresponse.c.  The generated automata and tables of lex.yy.c and y.tab.c,
    whose sources parse.l and parse.y are modelled.  Logging (log.c, rw_log.c,
    strerror.c), process control (procutils.c), replacements for missing
    library functions (compat.c), lock files, functions that only print for
    debugging, and memory management where it only frees.  The options
    and messages of the command line tools, of which tcpd_wrapper is a
    vendored program, and the server in Rust (src/src), a program of its own. *)

From stdpp Require Export base tactics option list numbers strings.
From Stdlib Require Export ZArith Lia.
From Stdlib Require Export Ascii.

#[global] Unset Program Cases.
#[global] Set Default Goal Selector "!".

(** ** Outcomes of C code

    [Ret a] is a normal return.  [Fault] is undefined behaviour the C code
    would run into (an access outside of an object, a null dereference, a
    use after free).  [NoFuel] is a loop that was given too little fuel; a
    theorem that concludes [Ret] therefore also says that the loop ends. *)
Inductive outcome (A : Type) : Type :=
| Ret (a : A)
| Fault
| NoFuel.
Arguments Ret {A} a.
Arguments Fault {A}.
Arguments NoFuel {A}.

#[export] Instance outcome_ret : MRet outcome := @Ret.
#[export] Instance outcome_bind : MBind outcome := λ A B f m,
  match m with
  | Ret a => f a
  | Fault => Fault
  | NoFuel => NoFuel
  end.
#[export] Instance outcome_fmap : FMap outcome := λ A B f m,
  match m with
  | Ret a => Ret (f a)
  | Fault => Fault
  | NoFuel => NoFuel
  end.
#[export] Instance outcome_eq_dec {A} `{EqDecision A} : EqDecision (outcome A).
Proof. solve_decision. Defined.

Section Outcome.
Context {A B C : Type}.
Implicit Types (m : outcome A).

Lemma bind_Ret (a : A) (f : A → outcome B) : (Ret a ≫= f) = f a.
Proof. reflexivity. Qed.

Lemma bind_inv_Ret m (f : A → outcome B) b :
  m ≫= f = Ret b → ∃ a, m = Ret a ∧ f a = Ret b.
Proof. destruct m; simpl; intros; [eauto | done | done]. Qed.

(** unlike injection it leaves the sides as they are *)
Lemma Ret_inj (a b : A) : Ret a = Ret b → a = b.
Proof. congruence. Qed.

Lemma bind_assoc m (f : A → outcome B) (g : B → outcome C) :
  (m ≫= f) ≫= g = m ≫= (λ a, f a ≫= g).
Proof. by destruct m. Qed.

(** [of_option] turns a failed lookup into a fault. *)
Definition of_option (o : option A) : outcome A :=
  match o with Some a => Ret a | None => Fault end.

Lemma of_option_Ret o (a : A) : of_option o = Ret a ↔ o = Some a.
Proof. destruct o; simpl; split; congruence. Qed.
End Outcome.

(** [run_step] executes the first statement of a monadic goal whose result is
    known; [run] repeats it with the equations in the context. *)
Ltac run_step :=
  match goal with
  | |- context [Ret ?a ≫= ?f] => rewrite (bind_Ret a f); cbn beta iota
  | H : ?e = Ret _ |- context [?e ≫= _] => rewrite H
  | H : ?e = Ret _ |- context [?e] => rewrite H
  end.
Ltac run := repeat run_step.

(** [invert_run] takes a hypothesis [m ≫= f = Ret b] apart. *)
Ltac invert_run :=
  repeat match goal with
  | H : _ ≫= _ = Ret _ |- _ =>
      apply bind_inv_Ret in H; destruct H as (? & ? & H); cbn beta in H
  end.

(** [returns P m]: the computation ends without a fault in a result with [P].
    The lemmas of the database follow the structure of a computation. *)
Definition returns {A} (P : A → Prop) (m : outcome A) : Prop := ∃ a, m = Ret a ∧ P a.

Create HintDb returns.
Lemma returns_Ret {A} (P : A → Prop) a : P a → returns P (Ret a).
Proof. by exists a. Qed.
Lemma returns_bind {A B} (P : A → Prop) (Q : B → Prop) m (f : A → outcome B) :
  returns P m → (∀ a, P a → returns Q (f a)) → returns Q (m ≫= f).
Proof. intros (a & -> & Ha) H. by apply H. Qed.
Lemma returns_impl {A} (P Q : A → Prop) m : returns P m → (∀ a, P a → Q a) → returns Q m.
Proof. intros (a & -> & Ha) H. exists a. auto. Qed.

(** ** Bytes and the character classes of the C locale

    A [char] is an [ascii]; its code is the value of the unsigned char.  The
    classes are those of the C locale, where the bytes above 127 belong to no
    class. *)
Declare Scope cstr_scope.
Delimit Scope cstr_scope with cstr.
#[global] Open Scope cstr_scope.

Abbreviation cstr := (list ascii).

Definition lit (s : string) : cstr := String.list_ascii_of_string s.
Notation "$ s" := (lit s%string) (at level 1, format "$ s") : cstr_scope.

Definition code (c : ascii) : Z := Z.of_N (N_of_ascii c).
Definition chr (z : Z) : ascii := ascii_of_N (Z.to_N z).

Definition NUL : ascii := chr 0.
Definition NL : ascii := chr 10.
Definition TAB : ascii := chr 9.
Definition SP : ascii := chr 32.

Definition char_eqb (a b : ascii) : bool := bool_decide (a = b).
Infix "=c" := char_eqb (at level 70) : cstr_scope.

Definition isspace (c : ascii) : bool :=
  (code c =? 32)%Z || ((9 <=? code c)%Z && (code c <=? 13)%Z).
Definition iscntrl (c : ascii) : bool := (code c <? 32)%Z || (code c =? 127)%Z.
Definition isdigit (c : ascii) : bool := (48 <=? code c)%Z && (code c <=? 57)%Z.
Definition isupper (c : ascii) : bool := (65 <=? code c)%Z && (code c <=? 90)%Z.
Definition islower (c : ascii) : bool := (97 <=? code c)%Z && (code c <=? 122)%Z.
Definition isalpha (c : ascii) : bool := isupper c || islower c.
Definition isalnum (c : ascii) : bool := isalpha c || isdigit c.
Definition toupper (c : ascii) : ascii := if islower c then chr (code c - 32) else c.
Definition tolower (c : ascii) : ascii := if isupper c then chr (code c + 32) else c.

(** [by_ascii] settles a closed fact about every byte by enumeration. *)
Ltac by_ascii := intros [[][][][][][][][]]; vm_compute; try done; try lia.

Lemma code_range c : (0 ≤ code c < 256)%Z.
Proof. revert c. by_ascii. Qed.
Lemma chr_code c : chr (code c) = c.
Proof. unfold chr, code. by rewrite N2Z.id, ascii_N_embedding. Qed.
Lemma code_chr z : (0 ≤ z < 256)%Z → code (chr z) = z.
Proof.
  intros. unfold chr, code. rewrite N_ascii_embedding by lia. lia.
Qed.
#[export] Instance code_inj : Inj (=) (=) code.
Proof. intros a b H. by rewrite <-(chr_code a), <-(chr_code b), H. Qed.

Lemma char_eqb_eq a b : (a =c b) = true ↔ a = b.
Proof. apply bool_decide_eq_true. Qed.
Lemma char_eqb_neq a b : (a =c b) = false ↔ a ≠ b.
Proof. apply bool_decide_eq_false. Qed.
Lemma char_eqb_refl a : (a =c a) = true.
Proof. by apply char_eqb_eq. Qed.

Lemma toupper_idemp c : toupper (toupper c) = toupper c.
Proof. revert c. by_ascii. Qed.
Lemma toupper_tolower c : toupper (tolower c) = toupper c.
Proof. revert c. by_ascii. Qed.
Lemma tolower_toupper c : tolower (toupper c) = tolower c.
Proof. revert c. by_ascii. Qed.
Lemma isspace_toupper c : isspace (toupper c) = isspace c.
Proof. revert c. by_ascii. Qed.
Lemma iscntrl_toupper c : iscntrl (toupper c) = iscntrl c.
Proof. revert c. by_ascii. Qed.
Lemma isdigit_not_space c : isdigit c = true → isspace c = false.
Proof. revert c. by_ascii. Qed.
Lemma tolower_eq_toupper a b : tolower a = tolower b ↔ toupper a = toupper b.
Proof.
  split; intros H.
  - by rewrite <-(toupper_tolower a), H, toupper_tolower.
  - by rewrite <-(tolower_toupper a), H, tolower_toupper.
Qed.

(** ** Lists *)

Fixpoint dropwhile {A} (p : A → bool) (l : list A) : list A :=
  match l with
  | [] => []
  | x :: l' => if p x then dropwhile p l' else l
  end.
Fixpoint takewhile {A} (p : A → bool) (l : list A) : list A :=
  match l with
  | [] => []
  | x :: l' => if p x then x :: takewhile p l' else []
  end.
Definition rdropwhile {A} (p : A → bool) (l : list A) : list A :=
  reverse (dropwhile p (reverse l)).

Section Lists.
Context {A : Type} (p : A → bool).
Implicit Types (l k : list A).

Lemma drop_succ_app l x k : drop (length l + 1) (l ++ x :: k) = k.
Proof. induction l; simpl; [by rewrite drop_0|done]. Qed.

Lemma takewhile_dropwhile l : takewhile p l ++ dropwhile p l = l.
Proof. induction l as [|x l IH]; simpl; [done|]. destruct (p x); simpl; congruence. Qed.

Lemma dropwhile_skip x l : p x = false → dropwhile p (x :: l) = x :: l.
Proof. simpl. by intros ->. Qed.

Lemma dropwhile_all l k : Forall (λ x, p x = true) l → dropwhile p (l ++ k) = dropwhile p k.
Proof. induction 1 as [|x l Hx _ IH]; simpl; [done|]. by rewrite Hx. Qed.

Lemma takewhile_Forall l : Forall (λ x, p x = true) (takewhile p l).
Proof. induction l as [|x l IH]; simpl; [done|]. destruct (p x) eqn:E; auto. Qed.

Lemma dropwhile_head l x : head (dropwhile p l) = Some x → p x = false.
Proof. induction l as [|y l IH]; simpl; [done|]. destruct (p y) eqn:E; simpl; naive_solver. Qed.

Lemma dropwhile_length l : (length (dropwhile p l) ≤ length l)%nat.
Proof. induction l as [|x l IH]; simpl; [done|]. destruct (p x); simpl; lia. Qed.

Lemma dropwhile_nil l : dropwhile p l = [] ↔ Forall (λ x, p x = true) l.
Proof.
  induction l as [|x l IH]; simpl; [done|].
  rewrite Forall_cons. destruct (p x); [naive_solver|]. split; [done|naive_solver].
Qed.

Lemma dropwhile_sublist l : dropwhile p l `sublist_of` l.
Proof. induction l as [|x l IH]; simpl; [done|]. destruct (p x); [by constructor|done]. Qed.

Lemma elem_of_dropwhile x l : x ∈ dropwhile p l → x ∈ l.
Proof. intros H. eapply elem_of_sublist, dropwhile_sublist. exact H. Qed.

Lemma elem_of_rdropwhile x l : x ∈ rdropwhile p l → x ∈ l.
Proof.
  unfold rdropwhile. rewrite elem_of_reverse. intros H%elem_of_dropwhile.
  by rewrite elem_of_reverse in H.
Qed.

Lemma rdropwhile_snoc l x :
  rdropwhile p (l ++ [x]) = if p x then rdropwhile p l else l ++ [x].
Proof.
  unfold rdropwhile. rewrite reverse_snoc. simpl. destruct (p x); [done|].
  by rewrite reverse_cons, reverse_involutive.
Qed.

(** every list is a kept part and a dropped tail *)
Lemma rdropwhile_split l : ∃ t, l = rdropwhile p l ++ t ∧ Forall (λ x, p x = true) t.
Proof.
  induction l as [|x l (t & IH & Ht)] using rev_ind; [by exists []|].
  rewrite rdropwhile_snoc. destruct (p x) eqn:E.
  - exists (t ++ [x]). split; [by rewrite app_assoc, <-IH|].
    apply Forall_app; auto.
  - exists []. by rewrite app_nil_r.
Qed.
End Lists.

(** ** Machine integers *)
Local Open Scope Z_scope.

(** [wrap w z]: two's complement reduction to a signed [w]-bit integer *)
Definition wrap (w z : Z) : Z := (z + 2 ^ (w - 1)) mod 2 ^ w - 2 ^ (w - 1).
Definition in_int (w z : Z) : Prop := - 2 ^ (w - 1) ≤ z < 2 ^ (w - 1).
Abbreviation int32 := (in_int 32).
Abbreviation int64 := (in_int 64).

Lemma wrap_id w z : 0 < w → in_int w z → wrap w z = z.
Proof.
  intros Hw [Hlo Hhi]. unfold wrap. rewrite Z.mod_small; [lia|].
  replace (2 ^ w) with (2 * 2 ^ (w - 1)); [lia|].
  rewrite <-Z.pow_succ_r by lia. f_equal. lia.
Qed.
Lemma wrap_range w z : 0 < w → in_int w (wrap w z).
Proof.
  intros Hw. unfold in_int, wrap.
  assert (2 ^ w = 2 * 2 ^ (w - 1)) as Hp.
  { rewrite <-Z.pow_succ_r by lia. f_equal. lia. }
  pose proof (Z.mod_pos_bound (z + 2 ^ (w - 1)) (2 ^ w) ltac:(lia)). lia.
Qed.

Lemma Forall2_impl_in {A B} (P Q : A → B → Prop) l k :
  Forall2 P l k → (∀ x y, x ∈ l → P x y → Q x y) → Forall2 Q l k.
Proof.
  induction 1 as [|x y l k Hxy _ IH]; intros H; constructor.
  - apply H; [left|done].
  - apply IH. intros x' y' Hx. apply H. by right.
Qed.

Lemma filter_all {A} (P : A → Prop) `{∀ x, Decision (P x)} l : Forall P l → filter P l = l.
Proof. induction 1 as [|x l Hx _ IH]; [done|]. by rewrite filter_cons_True, IH. Qed.
