(* ===== verification/CLib.v ===== *)
(** * The C library as the server uses it

    Character buffers with bounds-checked accesses, and the functions of
    <string.h>, <stdlib.h> and <stdio.h> that the modelled code calls. *)

From S2P Require Import Prelude.

(** ** Buffers

    A buffer is the list of its bytes.  An access outside of it is a fault. *)
Abbreviation buf := (list ascii).

Definition rd (b : buf) (i : nat) : outcome ascii := of_option (b !! i).
Definition wr (b : buf) (i : nat) (c : ascii) : outcome buf :=
  if decide (i < length b)%nat then Ret (<[i := c]> b) else Fault.
(** an index of type [int], which may be negative *)
Definition rdz (b : buf) (i : Z) : outcome ascii :=
  if (i <? 0)%Z then Fault else rd b (Z.to_nat i).

(** [holds b s]: the buffer holds the C string [s], terminated. *)
Definition holds (b : buf) (s : cstr) : Prop :=
  (NUL ∉ s) ∧ (∃ rest, b = s ++ NUL :: rest).

Section Buffers.
Implicit Types (b pre post : buf).

Lemma rd_app pre x post i : i = length pre → rd (pre ++ x :: post) i = Ret x.
Proof. intros ->. unfold rd. by rewrite list_lookup_middle. Qed.

Lemma wr_app pre x post i c :
  i = length pre → wr (pre ++ x :: post) i c = Ret (pre ++ c :: post).
Proof.
  intros ->. unfold wr. rewrite decide_True by (rewrite length_app; simpl; lia).
  by rewrite insert_app_r_alt, Nat.sub_diag by lia.
Qed.

Lemma rd_out b i : (length b ≤ i)%nat → rd b i = Fault.
Proof. intros. unfold rd. by rewrite lookup_ge_None_2. Qed.

Lemma rdz_nat b (i : nat) : rdz b (Z.of_nat i) = rd b i.
Proof. unfold rdz. destruct (Z.ltb_spec (Z.of_nat i) 0); [lia|]. by rewrite Nat2Z.id. Qed.

Lemma holds_intro s rest : NUL ∉ s → holds (s ++ NUL :: rest) s.
Proof. split; eauto. Qed.

Lemma holds_length b s : holds b s → (length s < length b)%nat.
Proof. intros [_ [rest ->]]. rewrite length_app. simpl. lia. Qed.
End Buffers.

Create HintDb cbuf.
#[export] Hint Resolve holds_intro : cbuf.

(** ** <string.h> *)

Fixpoint strlen (b : buf) : outcome nat :=
  match b with
  | [] => Fault
  | c :: b => if (c =c NUL) then (Ret 0%nat) else (n ← strlen b; Ret (S n))
  end.

Lemma strlen_app s rest : NUL ∉ s → strlen (s ++ NUL :: rest) = Ret (length s).
Proof.
  induction s as [|c s IH]; intros H; simpl; [done|].
  apply not_elem_of_cons in H as [Hc Hs].
  rewrite (proj2 (char_eqb_neq c NUL)) by congruence. by rewrite IH.
Qed.

Lemma strlen_holds b s : holds b s → strlen b = Ret (length s).
Proof. intros [H [rest ->]]. by apply strlen_app. Qed.

(** The sign of strcmp: bytes compare as unsigned chars. *)
Fixpoint strcmp (a b : cstr) : Z :=
  match a, b with
  | [], [] => 0
  | [], _ :: _ => -1
  | _ :: _, [] => 1
  | x :: a, y :: b =>
      if (code x <? code y)%Z then -1
      else if (code y <? code x)%Z then 1 else strcmp a b
  end.

Definition strncmp (a b : cstr) (n : nat) : Z := strcmp (take n a) (take n b).

(** [STR_EQ] and [STRN_EQ] of defines.h: equality up to the case *)
Definition STR_EQ (a b : cstr) : bool := bool_decide (tolower <$> a = tolower <$> b).
Definition STRN_EQ (a b : cstr) (n : nat) : bool := STR_EQ (take n a) (take n b).

(** [STR_EXISTS] and [NOT_STR_EXISTS] of defines.h *)
Definition STR_EXISTS (s : option cstr) : bool :=
  match s with Some (_ :: _) => true | _ => false end.
Definition NOT_STR_EXISTS (s : option cstr) : bool := negb (STR_EXISTS s).

(** strchr and strrchr, as the position of the character *)
Fixpoint strchr (s : cstr) (ch : ascii) : option nat :=
  match s with
  | [] => None
  | c :: s => if c =c ch then Some 0%nat else S <$> strchr s ch
  end.
Fixpoint strrchr (s : cstr) (ch : ascii) : option nat :=
  match s with
  | [] => None
  | c :: s =>
      match strrchr s ch with
      | Some n => Some (S n)
      | None => if c =c ch then Some 0%nat else None
      end
  end.

Section Strings.
Implicit Types (a b c s : cstr).

Lemma strcmp_refl a : strcmp a a = 0%Z.
Proof. induction a as [|x a IH]; simpl; [done|]. by rewrite Z.ltb_irrefl. Qed.

Lemma strcmp_range a b : strcmp a b = (-1)%Z ∨ strcmp a b = 0%Z ∨ strcmp a b = 1%Z.
Proof.
  revert b. induction a as [|x a IH]; intros [|y b]; simpl; auto.
  destruct (code x <? code y)%Z; [auto|]. destruct (code y <? code x)%Z; auto.
Qed.

Lemma strcmp_eq a b : strcmp a b = 0%Z ↔ a = b.
Proof.
  split; [|intros ->; apply strcmp_refl].
  revert b. induction a as [|x a IH]; intros [|y b]; simpl; try done.
  destruct (Z.ltb_spec (code x) (code y)); [done|].
  destruct (Z.ltb_spec (code y) (code x)); [done|].
  intros ?%IH. f_equal; [|done]. apply (inj code). lia.
Qed.

Lemma strcmp_opp a b : strcmp b a = (- strcmp a b)%Z.
Proof.
  revert b. induction a as [|x a IH]; intros [|y b]; simpl; try done.
  destruct (Z.ltb_spec (code x) (code y)), (Z.ltb_spec (code y) (code x)); try done; lia.
Qed.

Lemma strcmp_app_same u a b : strcmp (u ++ a) (u ++ b) = strcmp a b.
Proof. induction u as [|x u IH]; simpl; [done|]. by rewrite Z.ltb_irrefl. Qed.

(** two strings that differ within a common width *)
Lemma strcmp_app_diff u v a b :
  length u = length v → u ≠ v → strcmp (u ++ a) (v ++ b) = strcmp u v.
Proof.
  revert v. induction u as [|x u IH]; intros [|y v] Hl Hne; simpl in *; try done.
  destruct (Z.ltb_spec (code x) (code y)); [done|].
  destruct (Z.ltb_spec (code y) (code x)); [done|].
  apply IH; [lia|]. intros ->. apply Hne. f_equal. apply (inj code). lia.
Qed.

Lemma strcmp_le_trans a b c :
  (strcmp a b ≤ 0)%Z → (strcmp b c ≤ 0)%Z → (strcmp a c ≤ 0)%Z.
Proof.
  revert b c. induction a as [|x a IH]; intros [|y b] [|z c]; simpl; try lia.
  repeat (case_match; simpl; try lia; repeat match goal with
    | H : (_ <? _)%Z = true |- _ => apply Z.ltb_lt in H
    | H : (_ <? _)%Z = false |- _ => apply Z.ltb_ge in H end; try lia).
  by apply IH.
Qed.

(** A prefix comparison is monotone in the string it is made against. *)
Lemma strcmp_take_mono n a b :
  (strcmp a b ≤ 0)%Z → (strcmp (take n a) (take n b) ≤ 0)%Z.
Proof.
  revert a b. induction n as [|n IH]; intros [|x a] [|y b]; simpl; try lia.
  repeat (case_match; simpl; try lia). by apply IH.
Qed.

Lemma STR_EQ_iff a b : STR_EQ a b = true ↔ tolower <$> a = tolower <$> b.
Proof. apply bool_decide_eq_true. Qed.
Lemma STR_EQ_refl a : STR_EQ a a = true.
Proof. by apply STR_EQ_iff. Qed.
Lemma STR_EQ_sym a b : STR_EQ a b = STR_EQ b a.
Proof. apply bool_decide_ext. naive_solver. Qed.
Lemma STR_EQ_trans a b c : STR_EQ a b = true → STR_EQ b c = STR_EQ a c.
Proof. intros H%STR_EQ_iff. unfold STR_EQ. by rewrite H. Qed.

Lemma strchr_Some s ch n :
  strchr s ch = Some n ↔ s !! n = Some ch ∧ ch ∉ take n s.
Proof.
  revert n. induction s as [|c s IH]; intros n; simpl.
  { by split; [|intros [? _]]. }
  destruct (c =c ch) eqn:E.
  - apply char_eqb_eq in E as ->. split.
    + intros [= <-]. simpl. split; [done|]. apply not_elem_of_nil.
    + intros [_ H]. destruct n; [done|]. exfalso. apply H. simpl. left.
  - apply char_eqb_neq in E. rewrite fmap_Some. split.
    + intros (m & [Hm Ht]%IH & ->). simpl. split; [done|].
      apply not_elem_of_cons. split; [congruence|done].
    + intros [H Ht]. destruct n as [|n]; simpl in *; [congruence|].
      apply not_elem_of_cons in Ht as [_ Ht]. exists n. split; [|done]. by apply IH.
Qed.

Lemma strchr_app s t ch : ch ∉ s → strchr (s ++ ch :: t) ch = Some (length s).
Proof.
  intros H. apply strchr_Some. split; [by apply list_lookup_middle|].
  by rewrite take_app_length.
Qed.

Lemma strchr_None s ch : strchr s ch = None ↔ ch ∉ s.
Proof.
  induction s as [|c s IH]; simpl; [split; [intros; apply not_elem_of_nil|done]|].
  destruct (c =c ch) eqn:E.
  - apply char_eqb_eq in E as ->. split; [done|]. intros []. left.
  - apply char_eqb_neq in E. rewrite fmap_None, IH, not_elem_of_cons. naive_solver.
Qed.

Lemma strrchr_None s ch : strrchr s ch = None ↔ ch ∉ s.
Proof.
  induction s as [|c s IH]; simpl; [split; [intros; apply not_elem_of_nil|done]|].
  rewrite not_elem_of_cons. destruct (strrchr s ch).
  { split; [done|]. intros [_ H%IH]. done. }
  destruct (c =c ch) eqn:E.
  - apply char_eqb_eq in E. split; [done|]. intros [? _]. congruence.
  - apply char_eqb_neq in E. naive_solver.
Qed.

Lemma strrchr_app s t ch : ch ∉ t → strrchr (s ++ ch :: t) ch = Some (length s).
Proof.
  intros H. induction s as [|c s IH]; simpl; [|by rewrite IH].
  by rewrite (proj2 (strrchr_None t ch) H), char_eqb_refl.
Qed.
End Strings.

(** ** <stdio.h> and <stdlib.h>: decimal numbers *)
Local Open Scope Z_scope.

Definition digit (z : Z) : ascii := chr (48 + z).

Fixpoint digits (fuel : nat) (z : Z) : cstr :=
  match fuel with
  | O => []
  | S fuel =>
      if z <? 10 then [digit z] else digits fuel (z / 10) ++ [digit (z mod 10)]
  end.
(** the conversions %d and %lld of printf *)
Definition print_nat (z : Z) : cstr := digits (S (Z.to_nat (Z.log2 z))) z.
Definition print_Z (z : Z) : cstr :=
  if z <? 0 then chr 45 :: print_nat (- z) else print_nat z.

Fixpoint digits_val (acc : Z) (s : cstr) : Z :=
  match s with
  | [] => acc
  | c :: s => if isdigit c then digits_val (acc * 10 + (code c - 48)) s else acc
  end.

Definition clamp64 (z : Z) : Z := Z.max (- 2 ^ 63) (Z.min z (2 ^ 63 - 1)).

(** strtol with base 10: leading white space, a sign, digits; the result
    saturates at the bounds of a 64-bit long *)
Definition strtol (s : cstr) : Z :=
  clamp64
    match dropwhile isspace s with
    | c :: s' =>
        if c =c chr 45 then - digits_val 0 s'
        else if c =c chr 43 then digits_val 0 s'
        else digits_val 0 (c :: s')
    | [] => 0
    end.
(** atoll and atol are strtol; glibc's atoi truncates it to an int *)
Definition atoll (s : cstr) : Z := strtol s.
Definition atoi (s : cstr) : Z := wrap 32 (strtol s).

Section Decimal.
Lemma code_digit z : 0 ≤ z < 10 → code (digit z) = 48 + z.
Proof. intros. apply code_chr. lia. Qed.
Lemma isdigit_digit z : 0 ≤ z < 10 → isdigit (digit z) = true.
Proof. intros. unfold isdigit. rewrite code_digit by done. lia. Qed.

Lemma digits_all fuel z : 0 ≤ z → Forall (λ c, isdigit c = true) (digits fuel z).
Proof.
  revert z. induction fuel as [|fuel IH]; intros z Hz; simpl; [done|].
  destruct (Z.ltb_spec z 10).
  - constructor; [|done]. apply isdigit_digit. lia.
  - apply Forall_app; split; [apply IH; apply Z.div_pos; lia|].
    constructor; [|done]. apply isdigit_digit, Z.mod_pos_bound. lia.
Qed.

Lemma digits_val_app acc s t :
  Forall (λ c, isdigit c = true) s → digits_val acc (s ++ t) = digits_val (digits_val acc s) t.
Proof.
  intros H. revert acc. induction H as [|c s Hc _ IH]; intros acc; simpl; [done|].
  by rewrite Hc, IH.
Qed.

Lemma digits_spec fuel z :
  0 ≤ z → z < 2 ^ Z.of_nat fuel → (0 < fuel)%nat → digits_val 0 (digits fuel z) = z.
Proof.
  revert z. induction fuel as [|fuel IH]; intros z Hz Hlt Hf; [lia|]. simpl digits.
  destruct (Z.ltb_spec z 10).
  - simpl. rewrite isdigit_digit, code_digit by lia. lia.
  - rewrite Nat2Z.inj_succ, Z.pow_succ_r in Hlt by lia.
    pose proof (Z.mod_pos_bound z 10 ltac:(lia)). pose proof (Z.div_mod z 10 ltac:(lia)).
    assert (0 < fuel)%nat. { destruct fuel; simpl in *; lia. }
    rewrite digits_val_app by (apply digits_all; lia).
    rewrite IH by lia. simpl. rewrite isdigit_digit, code_digit by lia. lia.
Qed.

Lemma print_nat_all z : 0 ≤ z → Forall (λ c, isdigit c = true) (print_nat z).
Proof. apply digits_all. Qed.

Lemma print_nat_val z : 0 ≤ z → digits_val 0 (print_nat z) = z.
Proof.
  intros Hz. apply digits_spec; [done| |lia].
  rewrite Nat2Z.inj_succ, Z2Nat.id by apply Z.log2_nonneg.
  destruct (decide (z = 0)) as [->|]; [done|]. apply Z.log2_spec. lia.
Qed.

Lemma print_nat_cons z : ∃ c s, print_nat z = c :: s.
Proof.
  unfold print_nat. simpl. destruct (z <? 10); [eauto|].
  destruct (digits _ _); simpl; eauto.
Qed.

(** Reading a number stops at the first byte that is not a digit. *)
Lemma digits_val_stop acc s t :
  Forall (λ c, isdigit c = true) s → (∀ c, head t = Some c → isdigit c = false) →
  digits_val acc (s ++ t) = digits_val acc s.
Proof.
  intros Hs Ht. rewrite digits_val_app by done. destruct t as [|c t]; simpl; [done|].
  by rewrite (Ht c).
Qed.

Lemma digit_head_signs c :
  isdigit c = true → isspace c = false ∧ (c =c chr 45) = false ∧ (c =c chr 43) = false.
Proof. revert c. by_ascii. Qed.

Lemma strtol_print z t :
  int64 z → (∀ c, head t = Some c → isdigit c = false) → strtol (print_Z z ++ t) = z.
Proof.
  intros Hz Ht. unfold strtol, print_Z.
  assert (∀ n, 0 ≤ n → digits_val 0 (print_nat n ++ t) = n) as Hv.
  { intros. rewrite digits_val_stop; auto using print_nat_all, print_nat_val. }
  unfold in_int in Hz. simpl in Hz. destruct (Z.ltb_spec z 0).
  - simpl. rewrite Hv by lia. unfold clamp64. lia.
  - destruct (print_nat_cons z) as (c & s & Hp).
    pose proof (print_nat_all z ltac:(lia)) as Hd. rewrite Hp in Hd.
    apply Forall_cons in Hd as [(H1 & H2 & H3)%digit_head_signs _].
    specialize (Hv z ltac:(lia)). rewrite Hp in Hv |- *. simpl.
    rewrite H1, H2, H3. simpl in Hv. rewrite Hv. unfold clamp64. lia.
Qed.

Lemma atoi_print z t :
  int32 z → (∀ c, head t = Some c → isdigit c = false) → atoi (print_Z z ++ t) = z.
Proof.
  intros Hz Ht. unfold atoi. rewrite strtol_print; [by apply wrap_id| |done].
  unfold in_int in *. simpl in *. lia.
Qed.

Definition numeral_char (c : ascii) : bool := isdigit c || (c =c chr 45).

Lemma print_Z_chars z : Forall (λ c, numeral_char c = true) (print_Z z).
Proof.
  unfold print_Z. destruct (Z.ltb_spec z 0).
  - constructor; [done|]. eapply Forall_impl; [apply print_nat_all; lia|].
    unfold numeral_char. simpl. by intros c ->.
  - eapply Forall_impl; [by apply print_nat_all|]. unfold numeral_char. simpl. by intros c ->.
Qed.

Lemma print_Z_cons z : ∃ c s, print_Z z = c :: s.
Proof. unfold print_Z. destruct (z <? 0); eauto using print_nat_cons. Qed.

Lemma print_Z_notin z c : numeral_char c = false → c ∉ print_Z z.
Proof.
  intros Hc Hin. pose proof (print_Z_chars z) as H. rewrite Forall_forall in H.
  rewrite (H c Hin) in Hc. done.
Qed.
End Decimal.
