(* ===== verification/CString.v ===== *)
(** * String utilities (common/strutil.c)

    The editing functions work in place: they are modelled on the bytes of a
    buffer with every access checked, a null pointer being [None].  Each of
    them implements a function on strings ([*_s]), which is what the other
    components of the model call.  Functions that only read their argument
    are modelled on the string itself. *)

From S2P Require Import Prelude CLib.

(** ** In-place loops *)

(** The loop [for (i = 0, j = 0; i < len; i++)] that reads [str[i]] and keeps
    at most one byte of it at [str[j++]]; [step] is the loop body, with the
    loop's local flag as its state. *)
Section Compact.
Context {S : Type} (step : S → ascii → S * option ascii).

Fixpoint compact (n : nat) (b : buf) (i j : nat) (st : S) : outcome (buf * nat) :=
  match n with
  | O => Ret (b, j)
  | Datatypes.S n =>
      c ← rd b i;
      match step st c with
      | (st, None) => compact n b (i + 1) j st
      | (st, Some c') => b ← wr b j c'; compact n b (i + 1) (j + 1) st
      end
  end.

(** the bytes it keeps *)
Fixpoint transduce (st : S) (s : cstr) : cstr :=
  match s with
  | [] => []
  | c :: s =>
      match step st c with
      | (st, None) => transduce st s
      | (st, Some c') => c' :: transduce st s
      end
  end.

Lemma compact_spec s st pre gap tl :
  ∃ gap',
    compact (length s) (pre ++ gap ++ s ++ tl) (length pre + length gap) (length pre) st
    = Ret (pre ++ transduce st s ++ gap' ++ tl,
           (length pre + length (transduce st s))%nat) ∧
    (length (transduce st s) + length gap' = length gap + length s)%nat.
Proof.
  revert st pre gap. induction s as [|c s IH]; intros st pre gap; simpl.
  { exists gap. split; [by rewrite Nat.add_0_r|lia]. }
  rewrite (app_assoc pre gap), rd_app by (rewrite length_app; lia). simpl.
  destruct (step st c) as [st' [c'|]].
  - destruct (gap ++ [c]) as [|g gs] eqn:E; [by destruct gap|].
    replace ((pre ++ gap) ++ c :: s ++ tl) with (pre ++ g :: gs ++ s ++ tl).
    2:{ rewrite <-app_assoc. f_equal.
        change (c :: s ++ tl) with ([c] ++ s ++ tl). by rewrite (app_assoc gap), E. }
    rewrite wr_app by done. simpl.
    destruct (IH st' (pre ++ [c']) gs) as (gap' & Heq & Hlen).
    assert (length gs = length gap) as Hg.
    { apply (f_equal length) in E. rewrite length_app in E. simpl in E. lia. }
    exists gap'. split; [|simpl; lia].
    rewrite length_app in Heq. simpl in Heq. rewrite <-!app_assoc in Heq. simpl in Heq.
    replace (length pre + length gap + 1)%nat with (length pre + 1 + length gs)%nat by lia.
    rewrite Heq. f_equal. f_equal. simpl. lia.
  - destruct (IH st' pre (gap ++ [c])) as (gap' & Heq & Hlen).
    rewrite length_app in Heq, Hlen. simpl in *.
    exists gap'. split; [|lia].
    replace (length pre + length gap + 1)%nat with (length pre + (length gap + 1))%nat by lia.
    rewrite <-Heq. f_equal. by rewrite <-!app_assoc.
Qed.

Definition compact_str (str : option buf) (st : S) : outcome (option buf) :=
  match str with
  | None => Ret None
  | Some b =>
      len ← strlen b;
      '(b, j) ← compact len b 0 0 st;
      b ← wr b j NUL;
      Ret (Some b)
  end.
End Compact.

(** [InPlace f g]: on a terminated buffer, [f] stays inside of it, ends, and
    leaves the string [g s] in it. *)
Class InPlace (f : option buf → outcome (option buf)) (g : cstr → cstr) : Prop :=
  in_place : ∀ b s, holds b s →
    ∃ b', f (Some b) = Ret (Some b') ∧ holds b' (g s) ∧ length b' = length b.
#[global] Hint Mode InPlace + - : typeclass_instances.

#[export] Instance InPlace_compose f1 g1 f2 g2 :
  InPlace f1 g1 → InPlace f2 g2 → InPlace (λ p, p ← f1 p; f2 p) (λ s, g2 (g1 s)).
Proof.
  intros H1 H2 b s H. destruct (H1 b s H) as (b1 & E1 & Hb1 & L1).
  destruct (H2 b1 _ Hb1) as (b2 & E2 & Hb2 & L2).
  exists b2. simpl. rewrite E1. simpl. rewrite E2. split; [done|]. split; [done|lia].
Qed.

Lemma compact_InPlace {S} (step : S → ascii → S * option ascii) st :
  (∀ s, NUL ∉ s → NUL ∉ transduce step st s) →
  InPlace (λ p, compact_str step p st) (transduce step st).
Proof.
  intros Hn b s [Hs [rest ->]]. simpl. rewrite strlen_app by done. simpl.
  destruct (compact_spec step s st [] [] (NUL :: rest)) as (gap' & Heq & Hlen).
  simpl in Heq, Hlen. rewrite Heq. simpl.
  assert (∃ y ys, gap' ++ NUL :: rest = y :: ys ∧ length ys = (length gap' + length rest)%nat)
    as (y & ys & E & Hys).
  { destruct gap' as [|g gs]; simpl; [eauto|]. eexists _, _. split; [done|].
    rewrite length_app. simpl. lia. }
  rewrite E, wr_app by done. simpl. eexists. split; [done|]. split.
  - apply holds_intro. auto.
  - rewrite !length_app. simpl. lia.
Qed.

Lemma transduce_filter (P : ascii → bool) s :
  transduce (λ _ c, (tt, if P c then Some c else None)) tt s = filter (λ c, P c = true) s.
Proof.
  induction s as [|c s IH]; simpl; [done|]. rewrite filter_cons, IH.
  destruct (P c) eqn:E; [by rewrite decide_True|by rewrite decide_False by congruence].
Qed.

Lemma filter_NUL (P : ascii → bool) (s : cstr) : NUL ∉ s → NUL ∉ filter (λ c, P c = true) s.
Proof. intros H [_ ?]%list_elem_of_filter. done. Qed.

(** ** The editing functions *)

Definition stripchar (str : option buf) (ch : ascii) : outcome (option buf) :=
  compact_str (λ _ c, (tt, if negb (c =c ch) then Some c else None)) str tt.

Definition strip_control (str : option buf) : outcome (option buf) :=
  compact_str (λ _ c, (tt, if negb (iscntrl c) || (c =c TAB) then Some c else None)) str tt.

(** the local [flag] is the state of the loop *)
Definition compact_step (flag : bool) (c : ascii) : bool * option ascii :=
  if isspace c then (true, if flag then None else Some SP) else (false, Some c).
Definition compact_whitespace (str : option buf) : outcome (option buf) :=
  compact_str compact_step str false.

(** [str[i]] is read before [i >= 0] is tested *)
Fixpoint strip_trailing_loop (fuel : nat) (b : buf) (i : Z) (ch : ascii) : outcome buf :=
  match fuel with
  | O => NoFuel
  | S fuel =>
      c ← rdz b i;
      if (c =c ch) && (0 <=? i)%Z
      then b ← wr b (Z.to_nat i) NUL; strip_trailing_loop fuel b (i - 1) ch
      else Ret b
  end.
Definition strip_trailing (str : option buf) (ch : ascii) : outcome (option buf) :=
  match str with
  | None => Ret None
  | Some b =>
      c ← rd b 0;
      if (c =c NUL) then Ret None
      else
        len ← strlen b;
        b ← strip_trailing_loop (S len) b (Z.of_nat len - 1) ch;
        Ret (Some b)
  end.

(** [while (p(b[i])) i++] *)
Fixpoint skip_while (p : ascii → bool) (fuel : nat) (b : buf) (i : nat) : outcome nat :=
  match fuel with
  | O => NoFuel
  | S fuel => c ← rd b i; if p c then skip_while p fuel b (i + 1) else Ret i
  end.

(** [while ( *p2 ) *p2++ = *p1++] *)
Fixpoint strip_leading_copy (fuel : nat) (b : buf) (p1 p2 : nat) : outcome buf :=
  match fuel with
  | O => NoFuel
  | S fuel =>
      c2 ← rd b p2;
      if (c2 =c NUL) then Ret b
      else
        c1 ← rd b p1;
        b ← wr b p2 c1;
        strip_leading_copy fuel b (p1 + 1) (p2 + 1)
  end.
Definition strip_leading (str : option buf) (ch : ascii) : outcome (option buf) :=
  match str with
  | None => Ret None
  | Some b =>
      p1 ← skip_while (λ c, c =c ch) (S (length b)) b 0;
      if decide (p1 = 0)%nat then Ret (Some b)
      else b ← strip_leading_copy (S (length b)) b p1 0; Ret (Some b)
  end.

(** the loop of rtrim, [n] being [i + 1] *)
Fixpoint rtrim_loop (n : nat) (b : buf) : outcome buf :=
  match n with
  | O => Ret b
  | S i => c ← rd b i; if isspace c then b ← wr b i NUL; rtrim_loop i b else Ret b
  end.
Definition rtrim (str : option buf) : outcome (option buf) :=
  match str with
  | None => Ret None
  | Some b => len ← strlen b; b ← rtrim_loop len b; Ret (Some b)
  end.

(** [while ( *p1 ) *p2++ = *p1++; *p2 = 0] *)
Fixpoint ltrim_copy (fuel : nat) (b : buf) (p1 p2 : nat) : outcome buf :=
  match fuel with
  | O => NoFuel
  | S fuel =>
      c ← rd b p1;
      if (c =c NUL) then wr b p2 NUL
      else b ← wr b p2 c; ltrim_copy fuel b (p1 + 1) (p2 + 1)
  end.
Definition ltrim (str : option buf) : outcome (option buf) :=
  match str with
  | None => Ret None
  | Some b =>
      p1 ← skip_while isspace (S (length b)) b 0;
      if decide (p1 = 0)%nat then Ret (Some b)
      else b ← ltrim_copy (S (length b)) b p1 0; Ret (Some b)
  end.

Definition trim (str : option buf) : outcome (option buf) :=
  str ← rtrim str; ltrim str.

(** [for (head, tail; head < tail; head++, tail--)]: swap *)
Fixpoint strrev_loop (fuel : nat) (b : buf) (head tail : Z) : outcome buf :=
  match fuel with
  | O => NoFuel
  | S fuel =>
      if (head <? tail)%Z then
        h ← rdz b head;
        t ← rdz b tail;
        b ← wr b (Z.to_nat head) t;
        b ← wr b (Z.to_nat tail) h;
        strrev_loop fuel b (head + 1) (tail - 1)
      else Ret b
  end.
Definition strrev (str : option buf) : outcome (option buf) :=
  match str with
  | None => Ret None
  | Some b =>
      len ← strlen b;
      b ← strrev_loop (S len) b 0 (Z.of_nat len - 1);
      Ret (Some b)
  end.

Fixpoint strupr_loop (fuel : nat) (b : buf) (a : nat) : outcome buf :=
  match fuel with
  | O => NoFuel
  | S fuel =>
      c ← rd b a;
      if (c =c NUL) then Ret b
      else b ← wr b a (toupper c); strupr_loop fuel b (a + 1)
  end.
Definition strupr (a : option buf) : outcome (option buf) :=
  match a with
  | None => Ret None
  | Some b => b ← strupr_loop (S (length b)) b 0; Ret (Some b)
  end.

(** ** The functions on strings that they implement *)

Definition stripchar_s (ch : ascii) (s : cstr) : cstr := filter (λ c, negb (c =c ch) = true) s.
Definition strip_control_s (s : cstr) : cstr :=
  filter (λ c, (negb (iscntrl c) || (c =c TAB)) = true) s.
Definition compact_whitespace_s (s : cstr) : cstr := transduce compact_step false s.
Definition strip_trailing_s (ch : ascii) (s : cstr) : cstr := rdropwhile (λ c, c =c ch) s.
Definition strip_leading_s (ch : ascii) (s : cstr) : cstr := dropwhile (λ c, c =c ch) s.
Definition rtrim_s (s : cstr) : cstr := rdropwhile isspace s.
Definition ltrim_s (s : cstr) : cstr := dropwhile isspace s.
Definition trim_s (s : cstr) : cstr := ltrim_s (rtrim_s s).
Definition strupr_s (s : cstr) : cstr := toupper <$> s.

(** ** The reading functions *)

Definition skip_whitespace (str : option cstr) : option cstr := dropwhile isspace <$> str.

Fixpoint count_if (p : ascii → bool) (s : cstr) (count : Z) : Z :=
  match s with
  | [] => count
  | c :: s => count_if p s (if p c then count + 1 else count)%Z
  end.
Definition count_char (str : option cstr) (c : ascii) : Z :=
  match str with None => -1 | Some s => count_if (λ x, x =c c) s 0 end.
Definition count_spaces (str : option cstr) : Z :=
  match str with None => -1 | Some s => count_if isspace s 0 end.

(** The inner loop of strSTR: what is left of [str2] after it. *)
Fixpoint strSTR_match (a b : cstr) : cstr :=
  match a, b with
  | x :: a', y :: b' => if toupper x =c toupper y then strSTR_match a' b' else b
  | _, _ => b
  end.
Fixpoint strSTR_from (x : nat) (str1 str2 : cstr) : option nat :=
  match str1 with
  | [] => None
  | c :: str1' =>
      if match str2 with y :: _ => toupper c =c toupper y | [] => false end then
        match strSTR_match str1 str2 with
        | [] => Some x
        | _ :: _ => strSTR_from (S x) str1' str2
        end
      else strSTR_from (S x) str1' str2
  end.
(** the result is the offset of the match in [str1] *)
Definition strSTR (str1 str2 : option cstr) : option nat :=
  match str1, str2 with
  | Some s1, Some s2 =>
      if NOT_STR_EXISTS str1 || NOT_STR_EXISTS str2 then None else strSTR_from 0 s1 s2
  | _, _ => None
  end.

Definition is_no_whitespace_str (str : option cstr) : bool :=
  match str with None => false | Some s => forallb (λ c, negb (isspace c)) s end.
Definition is_number_str (str : option cstr) : bool :=
  match str with None => false | Some s => forallb isdigit s end.
Definition is_id_char (value : ascii) : bool :=
  isalnum value || (value =c chr 45) || (value =c chr 95).
Definition is_id_str (value : option cstr) : bool :=
  match value with None => false | Some s => forallb is_id_char s end.

(** ** The editing functions implement their specifications *)

Lemma InPlace_ext f f' g g' :
  (∀ p, f' p = f p) → (∀ s, NUL ∉ s → g' s = g s) → InPlace f g → InPlace f' g'.
Proof.
  intros Hf Hg H b s Hs. destruct (H b s Hs) as (b' & E & Hb & L).
  exists b'. rewrite Hf, Hg by apply Hs. auto.
Qed.

Lemma filter_loop_InPlace (P : ascii → bool) :
  InPlace (λ p, compact_str (λ _ c, (tt, if P c then Some c else None)) p tt)
          (λ s, filter (λ c, P c = true) s).
Proof.
  eapply InPlace_ext; [done|intros; symmetry; apply transduce_filter|].
  apply compact_InPlace. intros s. rewrite transduce_filter. apply filter_NUL.
Qed.

#[export] Instance stripchar_InPlace ch : InPlace (λ p, stripchar p ch) (stripchar_s ch).
Proof. exact (filter_loop_InPlace (λ c, negb (c =c ch))). Qed.

#[export] Instance strip_control_InPlace : InPlace strip_control strip_control_s.
Proof. exact (filter_loop_InPlace (λ c, negb (iscntrl c) || (c =c TAB))). Qed.

Lemma compact_NUL flag s : NUL ∉ s → NUL ∉ transduce compact_step flag s.
Proof.
  revert flag. induction s as [|c s IH]; intros flag; simpl; [done|].
  intros [Hc Hs]%not_elem_of_cons. unfold compact_step at 1.
  destruct (isspace c); [destruct flag|]; auto;
    (apply not_elem_of_cons; split; [done|auto]).
Qed.

#[export] Instance compact_whitespace_InPlace :
  InPlace compact_whitespace compact_whitespace_s.
Proof. apply compact_InPlace, compact_NUL. Qed.

(** The backward loops write terminators over the bytes they drop. *)
Lemma rtrim_loop_spec s rest :
  ∃ rest', rtrim_loop (length s) (s ++ NUL :: rest) = Ret (rtrim_s s ++ NUL :: rest') ∧
    length (rtrim_s s ++ NUL :: rest') = length (s ++ NUL :: rest).
Proof.
  revert rest. induction s as [|c s IH] using rev_ind; intros rest; [by exists rest|].
  rewrite length_app, Nat.add_1_r. simpl. unfold rtrim_s. rewrite rdropwhile_snoc, <-app_assoc.
  simpl. rewrite rd_app by done. simpl. destruct (isspace c).
  - rewrite wr_app by done. simpl. destruct (IH (NUL :: rest)) as (rest' & -> & Hl).
    exists rest'. split; [done|]. unfold rtrim_s in Hl. rewrite Hl, !length_app. simpl. lia.
  - exists rest. by rewrite <-app_assoc.
Qed.

#[export] Instance rtrim_InPlace : InPlace rtrim rtrim_s.
Proof.
  intros b s [Hs [rest ->]]. simpl. rewrite strlen_app by done. simpl.
  destruct (rtrim_loop_spec s rest) as (rest' & -> & Hl). simpl.
  eexists. split; [done|]. split; [|done]. apply holds_intro.
  unfold rtrim_s. intros ?%elem_of_rdropwhile. done.
Qed.

Lemma skip_while_spec p s rest fuel pre :
  p NUL = false → (length s < fuel)%nat →
  skip_while p fuel (pre ++ s ++ NUL :: rest) (length pre)
  = Ret (length pre + (length s - length (dropwhile p s)))%nat.
Proof.
  intros Hn. revert pre s. induction fuel as [|fuel IH]; intros pre s Hf; [lia|].
  destruct s as [|c s]; simpl in *.
  - rewrite rd_app by done. simpl. rewrite Hn. f_equal. lia.
  - rewrite rd_app by done. simpl. destruct (p c) eqn:E.
    + specialize (IH (pre ++ [c]) s ltac:(lia)).
      rewrite length_app, <-app_assoc in IH. simpl in IH. rewrite IH. f_equal.
      pose proof (dropwhile_length p s). lia.
    + f_equal. simpl. lia.
Qed.

Lemma ltrim_copy_spec s fuel pre gap rest :
  NUL ∉ s → (length s < fuel)%nat →
  ∃ rest', ltrim_copy fuel (pre ++ gap ++ s ++ NUL :: rest)
             (length pre + length gap) (length pre)
           = Ret (pre ++ s ++ NUL :: rest') ∧
    length rest' = (length gap + length rest)%nat.
Proof.
  revert fuel pre gap. induction s as [|c s IH]; intros fuel pre gap Hs Hf;
    (destruct fuel as [|fuel]; [simpl in Hf; lia|]); simpl in Hf |- *.
  - rewrite app_assoc, rd_app by (rewrite length_app; lia). simpl.
    rewrite <-app_assoc. destruct gap as [|g gs]; simpl.
    + rewrite wr_app by done. eauto.
    + rewrite wr_app by done. eexists. split; [done|]. rewrite length_app. simpl. lia.
  - rewrite app_assoc, rd_app by (rewrite length_app; lia). simpl. rewrite <-app_assoc.
    apply not_elem_of_cons in Hs as [Hc Hs].
    rewrite (proj2 (char_eqb_neq c NUL)) by congruence.
    destruct (gap ++ [c]) as [|g gs] eqn:E; [by destruct gap|].
    assert (length gs = length gap) as Hg.
    { apply (f_equal length) in E. rewrite length_app in E. simpl in E. lia. }
    replace (gap ++ c :: s ++ NUL :: rest) with (g :: gs ++ s ++ NUL :: rest).
    2:{ change (c :: s ++ NUL :: rest) with ([c] ++ s ++ NUL :: rest).
        by rewrite (app_assoc gap), E. }
    rewrite wr_app by done. simpl.
    destruct (IH fuel (pre ++ [c]) gs Hs ltac:(lia)) as (rest' & Heq & Hl).
    exists rest'. rewrite length_app, <-!app_assoc in Heq. simpl in Heq.
    split; [|lia]. rewrite <-Heq. f_equal. lia.
Qed.

#[export] Instance ltrim_InPlace : InPlace ltrim ltrim_s.
Proof.
  intros b s [Hs [rest ->]]. unfold ltrim.
  pose proof (skip_while_spec isspace s rest (S (length (s ++ NUL :: rest))) [] eq_refl) as E.
  simpl app in E. simpl length in E. rewrite E by (rewrite length_app; simpl; lia). simpl.
  pose proof (dropwhile_length isspace s) as Hl. unfold ltrim_s.
  pose proof (takewhile_dropwhile isspace s) as Hsplit.
  assert (length s - length (dropwhile isspace s) = length (takewhile isspace s))%nat as ->.
  { rewrite <-Hsplit at 1. rewrite length_app. lia. }
  case_decide as Hz.
  - apply nil_length_inv in Hz. rewrite Hz in Hsplit. simpl in Hsplit. rewrite Hsplit.
    eexists. split; [done|]. split; [by apply holds_intro|done].
  - destruct (ltrim_copy_spec (dropwhile isspace s) (S (length (s ++ NUL :: rest))) []
                (takewhile isspace s) rest) as (rest' & Heq & Hr).
    { intros ?%elem_of_dropwhile. done. }
    { rewrite length_app. simpl. lia. }
    simpl in Heq. rewrite app_assoc, Hsplit in Heq. simpl. rewrite Heq.
    eexists. split; [done|]. split.
    + apply holds_intro. intros ?%elem_of_dropwhile. done.
    + rewrite <-Hsplit at 2. rewrite !length_app. simpl. lia.
Qed.

#[export] Instance trim_InPlace : InPlace trim trim_s.
Proof. exact (InPlace_compose _ _ _ _ rtrim_InPlace ltrim_InPlace). Qed.

Lemma toupper_NUL c : toupper c = NUL → c = NUL.
Proof. revert c. by_ascii. Qed.
Lemma strupr_NUL s : NUL ∉ s → NUL ∉ strupr_s s.
Proof.
  intros H (c & E & Hc)%list_elem_of_fmap. apply H.
  by rewrite <-(toupper_NUL c (eq_sym E)).
Qed.

Lemma strupr_loop_spec s fuel pre rest :
  NUL ∉ s → (length s < fuel)%nat →
  strupr_loop fuel (pre ++ s ++ NUL :: rest) (length pre)
  = Ret (pre ++ strupr_s s ++ NUL :: rest).
Proof.
  revert fuel pre. induction s as [|c s IH]; intros fuel pre Hs Hf;
    (destruct fuel as [|fuel]; [simpl in Hf; lia|]); simpl in *;
    rewrite rd_app by done; simpl; [done|].
  apply not_elem_of_cons in Hs as [Hc Hs].
  rewrite (proj2 (char_eqb_neq c NUL)) by congruence.
  rewrite wr_app by done. simpl.
  specialize (IH fuel (pre ++ [toupper c]) Hs ltac:(lia)).
  by rewrite length_app, <-!app_assoc in IH.
Qed.

#[export] Instance strupr_InPlace : InPlace strupr strupr_s.
Proof.
  intros b s [Hs [rest ->]]. simpl.
  pose proof (strupr_loop_spec s (S (length (s ++ NUL :: rest))) [] rest Hs) as E.
  simpl in E. rewrite E by (rewrite length_app; simpl; lia). simpl.
  eexists. split; [done|]. split; [apply holds_intro, strupr_NUL, Hs|].
  unfold strupr_s. by rewrite !length_app, length_fmap.
Qed.


Lemma strrev_swap pre h mid t post :
  let i := Z.of_nat (length pre) in
  let j := (Z.of_nat (length pre) + Z.of_nat (length mid) + 1)%Z in
  let b := pre ++ h :: mid ++ t :: post in
  rdz b i = Ret h ∧ rdz b j = Ret t ∧
  wr b (Z.to_nat i) t = Ret (pre ++ t :: mid ++ t :: post) ∧
  wr (pre ++ t :: mid ++ t :: post) (Z.to_nat j) h = Ret (pre ++ t :: mid ++ h :: post).
Proof.
  cbn zeta.
  replace (Z.of_nat (length pre) + Z.of_nat (length mid) + 1)%Z
    with (Z.of_nat (length pre + S (length mid)))%Z by lia.
  rewrite !rdz_nat, !Nat2Z.id. split; [by apply rd_app|].
  change (h :: mid ++ t :: post) with ((h :: mid) ++ t :: post).
  change (t :: mid ++ t :: post) with ((t :: mid) ++ t :: post).
  change (t :: mid ++ h :: post) with ((t :: mid) ++ h :: post).
  rewrite !(app_assoc pre). repeat split.
  - apply rd_app. by rewrite length_app.
  - rewrite <-!app_assoc. by apply wr_app.
  - apply wr_app. by rewrite length_app.
Qed.

Lemma strrev_loop_stop fuel b head tail :
  (tail ≤ head)%Z → strrev_loop (S fuel) b head tail = Ret b.
Proof. intros. simpl. destruct (Z.ltb_spec head tail); [lia|done]. Qed.

Lemma strrev_loop_spec fuel pre mid post :
  (length mid < fuel)%nat →
  strrev_loop fuel (pre ++ mid ++ post) (Z.of_nat (length pre))
    (Z.of_nat (length pre) + Z.of_nat (length mid) - 1)
  = Ret (pre ++ reverse mid ++ post).
Proof.
  revert pre mid post. induction fuel as [|fuel IH]; intros pre mid post Hf; [lia|].
  destruct mid as [|h mid].
  { apply strrev_loop_stop. simpl. lia. }
  destruct mid as [|t mid _] using rev_ind.
  { apply strrev_loop_stop. simpl. lia. }
  simpl in Hf. rewrite length_app in Hf. simpl in Hf.
  replace (pre ++ (h :: mid ++ [t]) ++ post) with (pre ++ h :: mid ++ t :: post)
    by (simpl; by rewrite <-!app_assoc).
  replace (Z.of_nat (length pre) + Z.of_nat (length (h :: mid ++ [t])) - 1)%Z
    with (Z.of_nat (length pre) + Z.of_nat (length mid) + 1)%Z
    by (simpl; rewrite length_app; simpl; lia).
  destruct (strrev_swap pre h mid t post) as (R1 & R2 & W1 & W2).
  cbn [strrev_loop].
  destruct (Z.ltb_spec (Z.of_nat (length pre))
    (Z.of_nat (length pre) + Z.of_nat (length mid) + 1)); [|lia].
  rewrite R1. cbn [mbind outcome_bind]. rewrite R2. cbn [mbind outcome_bind].
  rewrite W1. cbn [mbind outcome_bind]. rewrite W2. cbn [mbind outcome_bind].
  specialize (IH (pre ++ [t]) mid (h :: post) ltac:(lia)).
  rewrite length_app, <-!app_assoc in IH. simpl in IH.
  replace (Z.of_nat (length pre) + 1)%Z with (Z.of_nat (length pre + 1)) by lia.
  replace (Z.of_nat (length pre) + Z.of_nat (length mid) + 1 - 1)%Z
    with (Z.of_nat (length pre + 1) + Z.of_nat (length mid) - 1)%Z by lia.
  rewrite IH. f_equal. rewrite reverse_cons, reverse_snoc. simpl. by rewrite <-!app_assoc.
Qed.

#[export] Instance strrev_InPlace : InPlace strrev reverse.
Proof.
  intros b s [Hs [rest ->]]. unfold strrev. rewrite strlen_app by done. cbn [mbind outcome_bind].
  pose proof (strrev_loop_spec (S (length s)) [] s (NUL :: rest) ltac:(lia)) as E.
  cbn [length app] in E. rewrite Z.add_0_l in E. change (Z.of_nat 0) with 0%Z in E.
  rewrite E. simpl.
  eexists. split; [done|]. split.
  - apply holds_intro. by rewrite elem_of_reverse.
  - by rewrite !length_app, length_reverse.
Qed.

(** strip_trailing is in place as long as one byte of the string is kept;
    otherwise it looks at the byte before the string. *)
Lemma strip_trailing_loop_spec ch s rest fuel :
  (length s < fuel)%nat →
  strip_trailing_loop fuel (s ++ NUL :: rest) (Z.of_nat (length s) - 1) ch =
  match strip_trailing_s ch s with
  | [] => Fault
  | s' => Ret (s' ++ replicate (length s - length s') NUL ++ NUL :: rest)
  end.
Proof.
  revert fuel rest. induction s as [|c s IH] using rev_ind; intros fuel rest Hf;
    (destruct fuel as [|fuel]; [simpl in Hf; lia|]); [done|].
  rewrite length_app in *. simpl in Hf |- *.
  replace (Z.of_nat (length s + 1) - 1)%Z with (Z.of_nat (length s)) by lia.
  rewrite rdz_nat, <-app_assoc. simpl. rewrite rd_app by done. simpl.
  unfold strip_trailing_s in *. rewrite rdropwhile_snoc. destruct (c =c ch); simpl.
  - destruct (Z.leb_spec 0 (Z.of_nat (length s))); [|lia].
    rewrite Nat2Z.id, wr_app by done. simpl. rewrite IH by lia.
    destruct (rdropwhile_split (λ x, x =c ch) s) as (t & E & _).
    destruct (rdropwhile _ s) as [|x s'] eqn:E'; [done|].
    f_equal. simpl. f_equal. f_equal.
    apply (f_equal length) in E. rewrite length_app in E. simpl in E.
    replace (length s + 1 - S (length s'))%nat with (S (length s - S (length s'))) by lia.
    by rewrite replicate_S_end, <-app_assoc.
  - destruct (s ++ [c]) as [|x l] eqn:E; [by destruct s|].
    assert (S (length l) = length s + 1)%nat as Hl.
    { apply (f_equal length) in E. rewrite length_app in E. simpl in E. lia. }
    simpl. rewrite Hl, Nat.sub_diag. simpl. f_equal.
    change (x :: l ++ NUL :: rest) with ((x :: l) ++ NUL :: rest).
    by rewrite <-E, <-app_assoc.
Qed.

(** The copy of strip_leading runs over the whole of the old string, so that
    it reads past the terminator by the number of stripped bytes less one. *)
Lemma strip_leading_copy_spec (o : buf) k m n fuel :
  (n ≤ m)%nat → (m - n < fuel)%nat → o !! m = Some NUL → NUL ∉ take m o →
  (k + n ≤ length o)%nat →
  strip_leading_copy fuel (take n (drop k o) ++ drop n o) (k + n) n =
  if decide (k + m ≤ length o)%nat
  then Ret (take m (drop k o) ++ drop m o) else Fault.
Proof.
  revert n. induction fuel as [|fuel IH]; intros n Hn Hf Hm Hnul Hk; [lia|].
  assert (m < length o)%nat as Hmo by (by eapply lookup_lt_Some).
  destruct (lookup_lt_is_Some_2 o n ltac:(lia)) as [c Hc].
  assert (drop n o = c :: drop (S n) o) as Hd by (by apply drop_S).
  assert (length (take n (drop k o)) = n) as Hl
    by (rewrite length_take, length_drop; lia).
  simpl. rewrite Hd, (rd_app _ c _ n) by lia. simpl. destruct (decide (n = m)) as [->|Hne].
  { assert (c = NUL) as -> by congruence.
    rewrite char_eqb_refl, decide_True by lia. by rewrite Hd. }
  assert (c ≠ NUL) as Hcn.
  { intros ->. apply Hnul. eapply (list_elem_of_lookup_2 _ n).
    rewrite lookup_take_lt; [done|lia]. }
  rewrite (proj2 (char_eqb_neq c NUL)) by done.
  destruct (decide (k + n < length o)%nat) as [Hin|Hout].
  - destruct (lookup_lt_is_Some_2 o (k + n) Hin) as [c1 Hc1].
    assert (rd (take n (drop k o) ++ c :: drop (S n) o) (k + n) = Ret c1) as Hr.
    { unfold rd. rewrite <-Hd, lookup_app_r by lia. rewrite Hl, lookup_drop.
      replace (n + (k + n - n))%nat with (k + n)%nat by lia. by rewrite Hc1. }
    rewrite Hr. simpl. rewrite wr_app by lia. simpl.
    assert (take n (drop k o) ++ [c1] = take (S n) (drop k o)) as Ht.
    { symmetry. apply take_S_r. by rewrite lookup_drop. }
    specialize (IH (S n) ltac:(lia) ltac:(lia) Hm Hnul ltac:(lia)).
    rewrite <-Ht, <-app_assoc in IH. simpl in IH.
    replace (k + n + 1)%nat with (k + S n)%nat by lia.
    by replace (n + 1)%nat with (S n) by lia.
  - rewrite rd_out; [by rewrite decide_False by lia|].
    rewrite <-Hd, length_app, Hl, length_drop. lia.
Qed.

(** With [k] bytes to strip, [rest] must hold the [k - 1] bytes that are read
    in excess. *)
Lemma strip_leading_spec ch s rest :
  NUL ∉ s → ch ≠ NUL →
  let k := (length s - length (strip_leading_s ch s))%nat in
  if decide (k - 1 ≤ length rest)%nat
  then ∃ b', strip_leading (Some (s ++ NUL :: rest)) ch = Ret (Some b') ∧
             holds b' (strip_leading_s ch s) ∧ length b' = length (s ++ NUL :: rest)
  else strip_leading (Some (s ++ NUL :: rest)) ch = Fault.
Proof.
  intros Hs Hch k. unfold strip_leading.
  pose proof (skip_while_spec (λ c, c =c ch) s rest (S (length (s ++ NUL :: rest))) []) as E.
  cbn [length app] in E. rewrite Nat.add_0_l in E.
  pose proof (dropwhile_length (λ c, c =c ch) s) as Hl.
  rewrite E; [|by apply char_eqb_neq|rewrite length_app; simpl; lia].
  cbn [mbind outcome_bind]. fold (strip_leading_s ch s) k in Hl |- *.
  pose proof (takewhile_dropwhile (λ c, c =c ch) s) as Hsplit.
  assert (k = length (takewhile (λ c, c =c ch) s)) as Hk.
  { subst k. unfold strip_leading_s. rewrite <-Hsplit at 1. rewrite length_app. lia. }
  destruct (decide (k = 0)%nat) as [Hz|Hz].
  { rewrite decide_True by lia. assert (strip_leading_s ch s = s) as ->.
    { rewrite Hk in Hz. apply nil_length_inv in Hz. rewrite Hz in Hsplit. apply Hsplit. }
    eexists. split; [done|]. split; [by apply holds_intro|done]. }
  pose proof (strip_leading_copy_spec (s ++ NUL :: rest) k (length s) 0
    (S (length (s ++ NUL :: rest)))) as Hc.
  rewrite Nat.add_0_r in Hc. simpl in Hc. rewrite take_app_length in Hc.
  rewrite drop_0 in Hc. fold (app s) in Hc.
  rewrite length_app in Hc. simpl in Hc.
  rewrite length_app. simpl.
  rewrite Hc; [|lia|lia|by apply list_lookup_middle|done|lia].
  rewrite (decide_ext (k + length s ≤ length s + S (length rest))%nat
                      (k - 1 ≤ length rest)%nat) by lia.
  destruct (decide (k - 1 ≤ length rest)%nat) as [Hd|]; [|done]. simpl.
  assert (drop k (s ++ NUL :: rest) = strip_leading_s ch s ++ NUL :: rest) as ->.
  { rewrite <-Hsplit at 1. rewrite <-app_assoc, Hk. apply drop_app_length. }
  eexists. split; [done|]. rewrite take_app_ge by lia.
  split.
  - rewrite <-app_assoc. replace (length s - length (strip_leading_s ch s))%nat with (S (k - 1)) by lia.
    simpl. apply holds_intro. intros ?%elem_of_dropwhile. done.
  - rewrite drop_app_length, !length_app, length_take. simpl. lia.
Qed.

(** ** Substring search *)

Lemma strSTR_match_nil a b : strSTR_match a b = [] ↔ strupr_s b `prefix_of` strupr_s a.
Proof.
  revert b. induction a as [|x a IH]; intros [|y b]; simpl.
  - split; [intros _; apply prefix_nil|done].
  - split; [done|]. intros H%prefix_nil_inv. done.
  - split; [intros _; apply prefix_nil|done].
  - destruct (toupper x =c toupper y) eqn:E.
    + apply char_eqb_eq in E. rewrite IH, E. split.
      * intros. by apply prefix_cons.
      * intros. by eapply prefix_cons_inv_2.
    + apply char_eqb_neq in E. split; [done|].
      intros H%prefix_cons_inv_1. congruence.
Qed.

(** [occurs_at b a x]: [b] occurs in [a] at offset [x], up to the case *)
Definition occurs_at (b a : cstr) (x : nat) : Prop :=
  (x < length a)%nat ∧ strupr_s b `prefix_of` strupr_s (drop x a).

Lemma strSTR_from_spec n a b :
  b ≠ [] →
  match strSTR_from n a b with
  | Some x => ∃ k, x = (n + k)%nat ∧ occurs_at b a k ∧ ∀ k', (k' < k)%nat → ¬ occurs_at b a k'
  | None => ∀ k, ¬ occurs_at b a k
  end.
Proof.
  intros Hb. revert n. induction a as [|c a IH]; intros n; simpl.
  { intros k [Hk _]. simpl in Hk. lia. }
  assert (strupr_s b `prefix_of` strupr_s (c :: a) → occurs_at b (c :: a) 0) as H0.
  { intros. split; [simpl; lia|done]. }
  assert (∀ k, occurs_at b (c :: a) (S k) ↔ occurs_at b a k) as HS.
  { intros k. unfold occurs_at. simpl. by rewrite <-Nat.succ_lt_mono. }
  assert (¬ strupr_s b `prefix_of` strupr_s (c :: a) →
    match strSTR_from (S n) a b with
    | Some x => ∃ k, x = (n + k)%nat ∧ occurs_at b (c :: a) k ∧
                  ∀ k', (k' < k)%nat → ¬ occurs_at b (c :: a) k'
    | None => ∀ k, ¬ occurs_at b (c :: a) k
    end) as Hskip.
  { intros Hn. specialize (IH (S n)). destruct (strSTR_from (S n) a b) as [x|].
    - destruct IH as (k & -> & Hk & Hlt). exists (S k). rewrite HS.
      split; [lia|]. split; [done|]. intros [|k'] Hk'; [by intros [_ ?]|].
      rewrite HS. apply Hlt. lia.
    - intros [|k]; [by intros [_ ?]|]. by rewrite HS. }
  destruct b as [|y b]; [done|]. destruct (toupper c =c toupper y) eqn:E.
  - apply char_eqb_eq in E.
    destruct (strSTR_match a b) eqn:Em.
    + exists 0%nat. split; [lia|]. split; [|lia]. apply H0. simpl. rewrite E.
      apply prefix_cons. by apply strSTR_match_nil.
    + apply Hskip. intros Hp. simpl in Hp. rewrite E in Hp.
      apply prefix_cons_inv_2, strSTR_match_nil in Hp. congruence.
  - apply char_eqb_neq in E. apply Hskip. intros Hp%prefix_cons_inv_1. congruence.
Qed.

(** ** Trimming twice *)

Lemma rdropwhile_last {A} (p : A → bool) l c : last (rdropwhile p l) = Some c → p c = false.
Proof.
  induction l as [|x l IH] using rev_ind; [done|]. rewrite rdropwhile_snoc. destruct (p x) eqn:E; [done|].
  rewrite last_snoc. by intros [= <-].
Qed.
Lemma rdropwhile_fix {A} (p : A → bool) l : (∀ c, last l = Some c → p c = false) → rdropwhile p l = l.
Proof.
  induction l as [|x l _] using rev_ind; [done|]. rewrite rdropwhile_snoc, last_snoc. intros H. by rewrite H.
Qed.
Lemma dropwhile_twice {A} (p : A → bool) l : dropwhile p (dropwhile p l) = dropwhile p l.
Proof. induction l as [|x l IH]; [done|]. simpl. destruct (p x) eqn:E; [done|]. simpl. by rewrite E. Qed.
Lemma trim_s_twice s : trim_s (trim_s s) = trim_s s.
Proof.
  unfold trim_s. assert (rtrim_s (ltrim_s (rtrim_s s)) = ltrim_s (rtrim_s s)) as ->; [|apply dropwhile_twice].
  apply rdropwhile_fix. intros c Hc. apply (rdropwhile_last isspace s). unfold ltrim_s in Hc. fold (rtrim_s s).
  rewrite <-(takewhile_dropwhile isspace (rtrim_s s)), last_app, Hc. done.
Qed.

(** ** The properties of the module *)

(** The editing functions of strutil.c other than strip_leading and
    strip_trailing never leave the buffer of a terminated string, end, and
    compute the string functions they are meant to compute; the buffer keeps
    its size and stays terminated. *)
Theorem editing_functions_safe ch :
  InPlace (λ p, stripchar p ch) (stripchar_s ch) ∧
  InPlace strip_control strip_control_s ∧
  InPlace compact_whitespace compact_whitespace_s ∧
  InPlace rtrim rtrim_s ∧ InPlace ltrim ltrim_s ∧ InPlace trim trim_s ∧
  InPlace strrev reverse ∧ InPlace strupr strupr_s.
Proof. repeat split; apply _. Qed.

(** Strip_trailing removes the trailing [ch] of a non-empty string, and
    reads the byte in front of the string exactly when every byte is [ch]. *)
Theorem strip_trailing_correct ch s rest :
  s ≠ [] → NUL ∉ s →
  if decide (Forall (λ c, c = ch) s)
  then strip_trailing (Some (s ++ NUL :: rest)) ch = Fault
  else ∃ b', strip_trailing (Some (s ++ NUL :: rest)) ch = Ret (Some b') ∧
             holds b' (strip_trailing_s ch s).
Proof.
  intros Hne Hs. destruct s as [|c s]; [done|]. unfold strip_trailing.
  change (rd ((c :: s) ++ NUL :: rest) 0) with (Ret c).
  pose proof Hs as [Hc _]%not_elem_of_cons. cbn [mbind outcome_bind].
  rewrite (proj2 (char_eqb_neq c NUL)), strlen_app by (done || congruence).
  cbn [mbind outcome_bind]. rewrite strip_trailing_loop_spec by lia.
  assert (Forall (λ x, x = ch) (c :: s) ↔ strip_trailing_s ch (c :: s) = []) as Hiff.
  { unfold strip_trailing_s, rdropwhile.
    transitivity (Forall (λ x, (x =c ch) = true) (c :: s)).
    { apply Forall_iff. intros. by rewrite char_eqb_eq. }
    rewrite <-(reverse_involutive (c :: s)) at 1. rewrite Forall_reverse, <-dropwhile_nil.
    split; [by intros ->|]. intros H%(f_equal reverse). by rewrite reverse_involutive in H. }
  case_decide as Hd; [by rewrite (proj1 Hiff Hd)|].
  assert (NUL ∉ strip_trailing_s ch (c :: s)) as Hn by (by intros ?%elem_of_rdropwhile).
  destruct (strip_trailing_s ch (c :: s)) as [|x s'] eqn:Es; [by destruct Hd; apply Hiff|].
  simpl. eexists. split; [done|]. split; [done|].
  destruct (length s - length s')%nat; simpl; eauto.
Qed.
Lemma strip_trailing_correct_witness :
  strip_trailing (Some ($"***" ++ NUL :: [])) (chr 42) = Fault ∧
  ∃ b', strip_trailing (Some ($"ab*" ++ NUL :: [])) (chr 42) = Ret (Some b') ∧ holds b' ($"ab").
Proof.
  split.
  - exact (strip_trailing_correct (chr 42) ($"***") [] ltac:(done)
             ltac:(apply (bool_decide_unpack _); vm_compute; exact I)).
  - exact (strip_trailing_correct (chr 42) ($"ab*") [] ltac:(done)
             ltac:(apply (bool_decide_unpack _); vm_compute; exact I)).
Defined.

(** Strip_leading leaves the string without its [k] leading [ch] in the
    buffer provided that the buffer holds [k - 1] bytes after the terminator;
    otherwise it reads past the end of the buffer. *)
Theorem strip_leading_correct ch s rest :
  NUL ∉ s → ch ≠ NUL →
  let k := (length s - length (strip_leading_s ch s))%nat in
  if decide (k - 1 ≤ length rest)%nat
  then ∃ b', strip_leading (Some (s ++ NUL :: rest)) ch = Ret (Some b') ∧
             holds b' (strip_leading_s ch s) ∧ length b' = length (s ++ NUL :: rest)
  else strip_leading (Some (s ++ NUL :: rest)) ch = Fault.
Proof. apply strip_leading_spec. Qed.
Lemma strip_leading_correct_witness :
  strip_leading (Some ($"..com" ++ NUL :: [])) (chr 46) = Fault.
Proof.
  exact (strip_leading_correct (chr 46) ($"..com") []
           ltac:(apply (bool_decide_unpack _); vm_compute; exact I) ltac:(done)).
Defined.

(** StrSTR finds the first occurrence of its second argument in the first
    one, up to the case, and returns NULL when there is none. *)
Theorem strSTR_correct a b :
  b ≠ [] →
  match strSTR (Some a) (Some b) with
  | Some x => occurs_at b a x ∧ ∀ x', (x' < x)%nat → ¬ occurs_at b a x'
  | None => ∀ x, ¬ occurs_at b a x
  end.
Proof.
  intros Hb. destruct a as [|c a], b as [|y b]; try done.
  { intros x [Hx _]. simpl in Hx. lia. }
  pose proof (strSTR_from_spec 0 (c :: a) (y :: b) Hb) as H.
  change (strSTR (Some (c :: a)) (Some (y :: b))) with (strSTR_from 0 (c :: a) (y :: b)).
  destruct (strSTR_from 0 (c :: a) (y :: b)); [|done]. by destruct H as (k & -> & H).
Qed.
Lemma strSTR_correct_witness :
  strSTR (Some ($"xNetwork")) (Some ($"net")) = Some 1%nat ∧
  occurs_at ($"net") ($"xNetwork") 1.
Proof.
  split; [reflexivity|].
  exact (proj1 (strSTR_correct ($"xNetwork") ($"net") ltac:(done))).
Defined.
