(* ===== verification/Misc.v ===== *)
(** * Parsing helpers (common/misc.c)

    Record separators, [tag: datum] lines, tokens and words are modelled on
    strings.  The two functions that build argument vectors, split_list and
    split_arg_list, are modelled with the array they allocate and the copy of
    the string they cut up, since their safety depends on the size they
    estimate for the array. *)

From S2P Require Import Prelude CLib CString.

(** ** Lines, tokens and words *)

(** The second component is the line, which new_record edits. *)
Definition new_record (line : option cstr) : bool * option cstr :=
  match line with
  | None => (false, None)
  | Some [] => (false, Some [])
  | Some s =>
      let s := stripchar_s NL s in
      (STRN_EQ s ($"---") 3 || STR_EQ s ($"_NEW_"), Some s)
  end.

(** [tag] and [datum], when the function returns TRUE *)
Definition parse_line (line : option cstr) : option (cstr * cstr) :=
  match line with
  | None | Some [] => None
  | Some s =>
      if bool_decide (head (dropwhile isspace s) = Some (chr 35)) then None
      else
        match strchr s (chr 58) with
        | None => None
        | Some colon =>
            Some (rtrim_s (take colon s), dropwhile isspace (drop (colon + 1) s))
        end
  end.

(** strtok: the next token and what follows the delimiter that ends it *)
Definition strtok (delim : cstr) (s : cstr) : option (cstr * cstr) :=
  match dropwhile (λ c, bool_decide (c ∈ delim)) s with
  | [] => None
  | s => let tok := takewhile (λ c, bool_decide (c ∉ delim)) s in
         Some (tok, drop (S (length tok)) s)
  end.
Fixpoint delimstr_loop (cnt : nat) (delim s : cstr) : option cstr :=
  match strtok delim s, cnt with
  | None, _ => None
  | Some (tok, _), O => Some tok
  | Some (_, s), S cnt => delimstr_loop cnt delim s
  end.
Definition delimstr (mainbuf : option cstr) (delim : cstr) (cnt : nat) : option cstr :=
  match mainbuf with None => None | Some s => delimstr_loop cnt delim s end.

(** the word, and the text after the white space that follows it *)
Definition get_word (cp : cstr) : option (cstr * cstr) :=
  let cp := dropwhile isspace cp in
  match takewhile (λ c, negb (isspace c)) cp with
  | [] => None
  | w => Some (w, dropwhile isspace (dropwhile (λ c, negb (isspace c)) cp))
  end.

Definition on_off (b : bool) : cstr := if b then $"ON" else $"OFF".
Definition true_false (b : cstr) : bool :=
  let b := trim_s b in
  STR_EQ b ($"TRUE") || STR_EQ b ($"YES") || STR_EQ b ($"ON").
Definition true_false_str (b : bool) : cstr := if b then $"TRUE" else $"FALSE".

(** [tag1], [tag2] and [data] *)
Definition get_tuple (line : option cstr) : option (cstr * cstr * cstr) :=
  match parse_line line with
  | Some (tag1, str) =>
      match parse_line (Some str) with
      | Some (tag2, data) => Some (tag1, tag2, data)
      | None => None
      end
  | None => None
  end.

(** ** Argument vectors

    [argv] holds offsets into the copy of the list. *)
Record arglist := ArgList { argc : nat; argv : list (option nat); list_copy : buf }.

Definition store (argv : list (option nat)) (i : nat) (p : nat) : outcome (list (option nat)) :=
  if decide (i < length argv)%nat then Ret (<[i := Some p]> argv) else Fault.

(** the string that starts at offset [p] *)
Definition string_at (b : buf) (p : nat) : cstr := takewhile (λ c, negb (c =c NUL)) (drop p b).
Definition arg_strings (a : arglist) : list cstr :=
  omap (λ p, string_at (list_copy a) <$> p) (argv a).

(** argv[i] = NULL in the array reallocated to [i + 1] elements *)
Definition finish_args (b : buf) (argv : list (option nat)) (i : nat) : arglist :=
  ArgList i (take i argv ++ [None]) b.

Fixpoint split_list_loop (fuel : nat) (sep : ascii) (max_fields : Z)
    (b : buf) (argv : list (option nat)) (p i : nat) : outcome (buf * list (option nat) * nat) :=
  match fuel with
  | O => NoFuel
  | S fuel =>
      c ← rd b p;
      if (c =c NUL) then Ret (b, argv, i)
      else if (c =c sep) then
        b ← wr b p NUL;
        c' ← rd b (p + 1);
        if (c' =c NUL) then split_list_loop fuel sep max_fields b argv (p + 1) i
        else
          argv ← store argv i (p + 1);
          if negb (max_fields =? 0)%Z && (Z.of_nat (i + 1) =? max_fields)%Z
          then Ret (b, argv, (i + 1)%nat)
          else split_list_loop fuel sep max_fields b argv (p + 1) (i + 1)
      else split_list_loop fuel sep max_fields b argv (p + 1) i
  end.

Definition split_list_size (num_char max_fields : Z) : Z :=
  if (0 <? max_fields)%Z
  then (if (num_char <? max_fields)%Z then num_char else max_fields) + 2
  else num_char + 2.

Definition split_list (list : option cstr) (sep : ascii) (max_fields : Z) : outcome arglist :=
  match list with
  | None => Fault
  | Some s =>
      let size := split_list_size (count_char list sep) max_fields in
      let b := s ++ [NUL] in
      argv ← store (replicate (Z.to_nat size) None) 0 0;
      '(b, argv, i) ← split_list_loop (S (length b)) sep max_fields b argv 0 1;
      Ret (finish_args b argv i)
  end.

Definition is_preserve (c : ascii) : bool :=
  (c =c chr 34) || (c =c chr 39) || (c =c chr 123).

Fixpoint split_arg_loop (fuel : nat) (b : buf) (argv : list (option nat)) (q i : nat)
    (mode : bool) (preserve_char : ascii) : outcome (buf * list (option nat) * nat) :=
  match fuel with
  | O => NoFuel
  | S fuel =>
      c ← rd b q;
      if (c =c NUL) then Ret (b, argv, i)
      else
        q ← skip_while isspace (S (length b)) b q;
        c ← rd b q;
        let '(mode, preserve_char, q) :=
          if is_preserve c then (true, c, (q + 1)%nat) else (mode, preserve_char, q) in
        let p := q in
        q ← skip_while (λ c, negb (c =c NUL) &&
                             (if mode then negb (c =c preserve_char) else negb (isspace c)))
              (S (length b)) b q;
        c ← rd b q;
        '(b, q) ← (if (c =c NUL) then Ret (b, q) else b ← wr b q NUL; Ret (b, (q + 1)%nat));
        argv ← store argv i (if decide (i = 0)%nat then 0%nat else p);
        split_arg_loop fuel b argv q (i + 1) mode preserve_char
  end.

(** FALSE, with a null vector, is [None] *)
Definition split_arg_list (list : option cstr) : outcome (option arglist) :=
  match list with
  | None | Some [] => Ret None
  | Some s =>
      let size := (count_spaces list + 2)%Z in
      let b := s ++ [NUL] in
      '(b, argv, i) ← split_arg_loop (S (length b)) b (replicate (Z.to_nat size) None) 0 0
                        false NUL;
      Ret (Some (finish_args b argv i))
  end.

(** the strings of the argument vector *)
Definition split_args (list : option cstr) : outcome (option (Datatypes.list cstr)) :=
  a ← split_arg_list list; Ret (fmap (M:=option) arg_strings a).

Example split_list_ex :
  (arg_strings <$> split_list (Some ($"a:bc::d:")) (chr 58) 0) = Ret [$"a"; $"bc"; $""; $"d"].
Proof. reflexivity. Qed.
Example split_arg_ex :
  split_args (Some ($"soa  domain a.com")) = Ret (Some [$"soa"; $"domain"; $"a.com"]).
Proof. vm_compute. reflexivity. Qed.

(** ** Vectors under construction *)

(** [stored b p w]: the string [w] starts at offset [p] of the buffer *)
Definition stored (b : buf) (p : nat) (w : cstr) : Prop :=
  (NUL ∉ w) ∧ (∃ a z, b = a ++ w ++ NUL :: z ∧ p = length a).

Lemma takewhile_stop {A} (P : A → bool) l x k :
  Forall (λ y, P y = true) l → P x = false → takewhile P (l ++ x :: k) = l.
Proof. intros Hl Hx. induction Hl as [|y l Hy _ IH]; simpl; [by rewrite Hx|by rewrite Hy, IH]. Qed.

Lemma not_NUL_Forall s : NUL ∉ s → Forall (λ c, negb (c =c NUL) = true) s.
Proof.
  intros H. apply Forall_forall. intros c Hc. rewrite (proj2 (char_eqb_neq c NUL)); [done|].
  by intros ->.
Qed.

Lemma stored_string_at b p w : stored b p w → string_at b p = w.
Proof.
  intros (H & a & z & -> & ->). unfold string_at. rewrite drop_app_length.
  apply takewhile_stop; [by apply not_NUL_Forall|by rewrite char_eqb_refl].
Qed.

Lemma stored_prefix pre tl p w : stored pre p w → stored (pre ++ tl) p w.
Proof.
  intros (H & a & z & -> & ->). split; [done|]. exists a, (z ++ tl).
  split; [|done]. by rewrite <-!app_assoc.
Qed.

Lemma stored_intro pre w z p : NUL ∉ w → p = length pre → stored (pre ++ w ++ NUL :: z) p w.
Proof. intros H ->. split; [done|]. by exists pre, z. Qed.

Lemma arg_strings_finish b ptrs m strs :
  Forall2 (stored b) ptrs strs →
  arg_strings (finish_args b ((Some <$> ptrs) ++ replicate m None) (length ptrs)) = strs.
Proof.
  intros H. unfold arg_strings, finish_args. simpl.
  rewrite take_app_le by (rewrite length_fmap; lia).
  rewrite take_ge by (rewrite length_fmap; lia). rewrite omap_app.
  change (omap (λ p : option nat, string_at b <$> p) [None]) with (@nil cstr).
  rewrite app_nil_r.
  induction H as [|p w ptrs strs Hw _ IH]; csimpl; [done|].
  rewrite (stored_string_at _ _ _ Hw). f_equal. exact IH.
Qed.

Lemma store_next ptrs m p i :
  i = length ptrs →
  store ((Some <$> ptrs) ++ replicate (S m) None) i p
  = Ret ((Some <$> (ptrs ++ [p])) ++ replicate m None).
Proof.
  intros ->. unfold store. rewrite decide_True.
  - f_equal. rewrite fmap_app. simpl replicate.
    rewrite insert_app_r_alt by (rewrite length_fmap; lia).
    rewrite length_fmap, Nat.sub_diag. simpl. by rewrite <-app_assoc.
  - rewrite length_app, length_fmap, length_replicate. lia.
Qed.

(** ** split_list *)

(** The fields of the list: [cur] is the field being read, the [i]th one. *)
Fixpoint fields (sep : ascii) (max_fields : Z) (i : nat) (cur s : cstr) : list cstr :=
  match s with
  | [] => [cur]
  | c :: s' =>
      if c =c sep then
        match s' with
        | [] => [cur]
        | _ :: _ =>
            if negb (max_fields =? 0)%Z && (Z.of_nat (i + 1) =? max_fields)%Z
            then [cur; s'] else cur :: fields sep max_fields (i + 1) [] s'
        end
      else fields sep max_fields i (cur ++ [c]) s'
  end.
Definition split_list_s (sep : ascii) (max_fields : Z) (s : cstr) : list cstr :=
  fields sep max_fields 1 [] s.

Definition occurrences (c : ascii) (s : cstr) : nat := length (filter (λ x, x = c) s).

Lemma occurrences_cons c x s :
  occurrences c (x :: s) = ((if x =c c then 1 else 0) + occurrences c s)%nat.
Proof.
  unfold occurrences. rewrite filter_cons. unfold char_eqb.
  case_decide; case_bool_decide; simpl; congruence.
Qed.

Lemma count_char_occurrences s c : count_char (Some s) c = Z.of_nat (occurrences c s).
Proof.
  unfold count_char. assert (∀ n, count_if (λ x, x =c c) s n = n + Z.of_nat (occurrences c s))%Z as H.
  { induction s as [|x s IH]; intros n; simpl; [unfold occurrences; simpl; lia|].
    rewrite IH, occurrences_cons. destruct (x =c c); lia. }
  rewrite H. lia.
Qed.

(** the number of array elements that are still needed *)
Definition slots_left (max_fields : Z) (i n : nat) : Z :=
  if (0 <? max_fields)%Z then Z.min (Z.of_nat n) (max_fields - Z.of_nat i) else Z.of_nat n.

Lemma split_list_loop_spec sep max_fields s fuel pre cur ptrs m tl :
  sep ≠ NUL → NUL ∉ cur → NUL ∉ s → (length s < fuel)%nat →
  (0 < max_fields → Z.of_nat (length ptrs + 1) < max_fields)%Z →
  (slots_left max_fields (length ptrs + 1) (occurrences sep s) ≤ Z.of_nat m)%Z →
  ∃ tail ptrs' m',
    split_list_loop fuel sep max_fields (pre ++ cur ++ s ++ NUL :: tl)
      ((Some <$> (ptrs ++ [length pre])) ++ replicate m None)
      (length pre + length cur) (length ptrs + 1)
    = Ret (pre ++ tail, (Some <$> (ptrs ++ ptrs')) ++ replicate m' None,
           (length ptrs + length ptrs')%nat) ∧
    Forall2 (stored (pre ++ tail)) ptrs' (fields sep max_fields (length ptrs + 1) cur s).
Proof.
  intros Hsep. revert fuel pre cur ptrs m.
  induction s as [|c s IH]; intros fuel pre cur ptrs m Hcur Hs Hf Hmax Hm;
    (destruct fuel as [|fuel]; [simpl in Hf; lia|]).
  - exists (cur ++ NUL :: tl), [length pre], m. simpl.
    rewrite (app_assoc pre), rd_app by (rewrite length_app; lia). simpl.
    rewrite <-app_assoc. split; [done|].
    constructor; [by apply stored_intro|constructor].
  - apply not_elem_of_cons in Hs as [Hc Hs]. cbn [split_list_loop fields app].
    rewrite (app_assoc pre), rd_app by (rewrite length_app; lia).
    cbn [mbind outcome_bind]. rewrite (proj2 (char_eqb_neq c NUL)) by congruence.
    rewrite occurrences_cons in Hm. destruct (c =c sep) eqn:Ec.
    + rewrite wr_app by (rewrite length_app; lia). cbn [mbind outcome_bind].
      destruct s as [|c' s].
      { cbn [app]. change (NUL :: NUL :: tl) with ([NUL] ++ NUL :: tl).
        rewrite (app_assoc _ [NUL]), rd_app by (rewrite !length_app; simpl; lia). simpl.
        destruct fuel as [|fuel]; [simpl in Hf; lia|]. simpl.
        rewrite rd_app by (rewrite !length_app; simpl; lia). simpl.
        rewrite <-!app_assoc. simpl. exists (cur ++ NUL :: NUL :: tl), [length pre], m.
        split; [done|]. constructor; [by apply stored_intro|constructor]. }
      replace ((pre ++ cur) ++ NUL :: (c' :: s) ++ NUL :: tl)
        with (((pre ++ cur) ++ [NUL]) ++ c' :: s ++ NUL :: tl) by (by rewrite <-!app_assoc).
      pose proof Hs as [Hc' _]%not_elem_of_cons.
      rewrite (rd_app _ c') by (rewrite !length_app; simpl; lia).
      cbn [mbind outcome_bind]. rewrite (proj2 (char_eqb_neq c' NUL)) by congruence.
      assert (∃ m', m = S m') as [m' ->].
      { destruct m; [|eauto]. unfold slots_left in Hm.
        destruct (Z.ltb_spec 0 max_fields); lia. }
      rewrite store_next by (rewrite length_app; simpl; lia). cbn [mbind outcome_bind].
      assert (stored (((pre ++ cur) ++ [NUL])) (length pre) cur) as Hst.
      { rewrite <-app_assoc. by apply stored_intro. }
      replace (length pre + length cur + 1)%nat with (length ((pre ++ cur) ++ [NUL]))
        by (rewrite !length_app; simpl; lia).
      destruct (negb (max_fields =? 0)%Z && (Z.of_nat (length ptrs + 1 + 1) =? max_fields)%Z) eqn:Emax.
      * exists (cur ++ NUL :: (c' :: s) ++ NUL :: tl), [length pre; length ((pre ++ cur) ++ [NUL])], m'.
        split.
        { rewrite <-!app_assoc. simpl. f_equal. f_equal. lia. }
        replace (pre ++ cur ++ NUL :: (c' :: s) ++ NUL :: tl)
          with (((pre ++ cur) ++ [NUL]) ++ (c' :: s) ++ NUL :: tl) by (by rewrite <-!app_assoc).
        constructor; [by apply stored_prefix|].
        constructor; [by apply stored_intro|constructor].
      * destruct (IH fuel ((pre ++ cur) ++ [NUL]) [] (ptrs ++ [length pre]) m')
          as (tail & ptrs' & m'' & E & H); [apply not_elem_of_nil|done|simpl in *; lia| | |].
        { intros Hpos. rewrite length_app. simpl.
          destruct (Z.eqb_spec max_fields 0); [lia|].
          destruct (Z.eqb_spec (Z.of_nat (length ptrs + 1 + 1)) max_fields); [done|]. lia. }
        { rewrite length_app. simpl. unfold slots_left in *.
          destruct (Z.ltb_spec 0 max_fields); lia. }
        rewrite !length_app in E. rewrite length_app in H. simpl in E, H.
        rewrite Nat.add_0_r in E. rewrite !length_app. simpl.
        replace (length ptrs + 1 + 1)%nat with (length ptrs + 1 + 1)%nat by lia.
        rewrite E. exists (cur ++ NUL :: tail), (length pre :: ptrs'), m''.
        split.
        { rewrite <-!app_assoc. simpl. f_equal. f_equal. lia. }
        replace (pre ++ cur ++ NUL :: tail) with (((pre ++ cur) ++ [NUL]) ++ tail)
          by (by rewrite <-!app_assoc).
        constructor; [by apply stored_prefix|done].
    + destruct (IH fuel pre (cur ++ [c]) ptrs m) as (tail & ptrs' & m' & E & H);
        [|done|simpl in *; lia|done|exact Hm|].
      { rewrite elem_of_app, list_elem_of_singleton. intros [?|?]; done. }
      exists tail, ptrs', m'. split; [|done]. rewrite <-E.
      rewrite length_app. simpl. f_equal; [|lia]. by rewrite <-!app_assoc.
Qed.

Lemma split_list_spec sep max_fields s :
  NUL ∉ s → sep ≠ NUL → max_fields ≠ 1%Z →
  ∃ a, split_list (Some s) sep max_fields = Ret a ∧
       argc a = length (split_list_s sep max_fields s) ∧
       arg_strings a = split_list_s sep max_fields s.
Proof.
  intros Hs Hsep Hmax. unfold split_list. rewrite count_char_occurrences.
  set (n := occurrences sep s). set (size := split_list_size (Z.of_nat n) max_fields).
  assert (∃ m, Z.to_nat size = S m ∧ (slots_left max_fields 1 n ≤ Z.of_nat m)%Z) as (m & -> & Hm).
  { exists (Z.to_nat size - 1)%nat. subst size. unfold split_list_size, slots_left.
    destruct (Z.ltb_spec 0 max_fields); [|lia].
    destruct (Z.ltb_spec (Z.of_nat n) max_fields); lia. }
  assert (store (replicate (S m) None) 0 0 = Ret (Some 0%nat :: replicate m None)) as ->
    by exact (store_next [] m 0 0 eq_refl).
  cbn [mbind outcome_bind].
  destruct (split_list_loop_spec sep max_fields s (S (length (s ++ [NUL]))) [] [] [] m [])
    as (tail & ptrs & m' & E & H); [done|apply not_elem_of_nil|done| | |done|].
  { rewrite length_app. simpl. lia. }
  { simpl. lia. }
  simpl in E. simpl. rewrite E. simpl. eexists. split; [done|].
  split; [simpl; by erewrite Forall2_length|by apply arg_strings_finish].
Qed.

(** ** split_arg_list on lists without quotes and braces *)

Definition unquoted (s : cstr) : Prop := Forall (λ c, is_preserve c = false) s.
Definition nonspace (c : ascii) : bool := negb (c =c NUL) && negb (isspace c).

(** The arguments: the first one keeps the white space in front of it. *)
Fixpoint args_s (fuel : nat) (first : bool) (r : cstr) : list cstr :=
  match fuel, r with
  | S fuel, _ :: _ =>
      let r1 := dropwhile isspace r in
      let w := takewhile nonspace r1 in
      (if first then takewhile isspace r ++ w else w)
        :: args_s fuel false (drop 1 (dropwhile nonspace r1))
  | _, _ => []
  end.

Definition spaces (s : cstr) : nat := length (filter (λ c, isspace c = true) s).

Lemma spaces_cons c s : spaces (c :: s) = ((if isspace c then 1 else 0) + spaces s)%nat.
Proof. unfold spaces. rewrite filter_cons. destruct (isspace c); [by rewrite decide_True|by rewrite decide_False]. Qed.

Lemma spaces_app s t : spaces (s ++ t) = (spaces s + spaces t)%nat.
Proof. induction s as [|c s IH]; simpl; [done|]. rewrite !spaces_cons, IH. lia. Qed.

Lemma count_spaces_spaces s : count_spaces (Some s) = Z.of_nat (spaces s).
Proof.
  unfold count_spaces. assert (∀ n, count_if isspace s n = n + Z.of_nat (spaces s))%Z as H.
  { induction s as [|x s IH]; intros n; simpl; [unfold spaces; simpl; lia|].
    rewrite IH, spaces_cons. destruct (isspace x); lia. }
  rewrite H. lia.
Qed.

Lemma skip_while_app p pre s rest fuel :
  p NUL = false → (length s < fuel)%nat →
  skip_while p fuel (pre ++ s ++ NUL :: rest) (length pre)
  = Ret (length (pre ++ takewhile p s)).
Proof.
  intros Hp Hf. rewrite skip_while_spec by done. f_equal.
  rewrite <-(takewhile_dropwhile p s) at 1. rewrite !length_app. lia.
Qed.

(** One turn of the loop over an argument that is not quoted *)
Lemma split_arg_step pre L w tl rest (i : nat) ptrs m fuel :
  let r := L ++ w ++ tl in
  r ≠ [] → NUL ∉ r → unquoted r →
  L = takewhile isspace r → w ++ tl = dropwhile isspace r →
  w = takewhile nonspace (w ++ tl) → tl = dropwhile nonspace (w ++ tl) →
  i = length ptrs → (i = 0%nat → pre = []) →
  split_arg_loop (S fuel) (pre ++ r ++ NUL :: rest) ((Some <$> ptrs) ++ replicate (S m) None)
    (length pre) i false NUL
  = split_arg_loop fuel (pre ++ L ++ w ++ NUL :: drop 1 (tl ++ NUL :: rest))
      ((Some <$> (ptrs ++ [length (if decide (i = 0%nat) then [] else pre ++ L)]))
         ++ replicate m None)
      (match tl with [] => length (pre ++ L ++ w) | _ => length (pre ++ L ++ w ++ [NUL]) end)
      (i + 1) false NUL.
Proof.
  intros r Hne Hn Hq HL Hd Hw Htl Hi Hfirst.
  assert (∃ c0 r0, r = c0 :: r0 ∧ c0 ≠ NUL) as (c0 & r0 & Er & Hc0).
  { destruct r as [|c0 r0]; [done|]. exists c0, r0. split; [done|].
    by apply not_elem_of_cons in Hn as [? _]. }
  assert (rd (pre ++ r ++ NUL :: rest) (length pre) = Ret c0) as Hrd.
  { rewrite Er. by apply rd_app. }
  cbn [split_arg_loop]. rewrite Hrd. cbn [mbind outcome_bind].
  rewrite (proj2 (char_eqb_neq c0 NUL)) by done.
  set (B := length (pre ++ r ++ NUL :: rest)).
  assert (length r < S B)%nat as HB by (subst B; rewrite !length_app; simpl; lia).
  rewrite (skip_while_app isspace) by done. rewrite <-HL. cbn [mbind outcome_bind].
  (* the byte after the white space *)
  assert (∃ x y, (w ++ tl) ++ NUL :: rest = x :: y ∧ is_preserve x = false) as (x & y & Exy & Hx).
  { destruct (w ++ tl) as [|x y] eqn:E; [by eexists _, _|]. eexists _, _. split; [done|].
    unfold unquoted in Hq. rewrite Forall_forall in Hq. apply Hq. unfold r.
    apply elem_of_app. right. left. }
  assert (pre ++ r ++ NUL :: rest = (pre ++ L) ++ (w ++ tl) ++ NUL :: rest) as Eb.
  { unfold r. by rewrite <-!app_assoc. }
  assert (rd (pre ++ r ++ NUL :: rest) (length (pre ++ L)) = Ret x) as Hrd2.
  { rewrite Eb, Exy. by apply rd_app. }
  rewrite Hrd2, Eb. cbn [mbind outcome_bind].
  rewrite Hx. cbn [mbind outcome_bind].
  change (λ c : ascii, negb (c =c NUL) && negb (isspace c)) with nonspace.
  rewrite (skip_while_app nonspace) by
    (done || (eapply Nat.le_lt_trans; [|exact HB]; subst r; rewrite !length_app; lia)).
  rewrite <-Hw. cbn [mbind outcome_bind].
  replace ((pre ++ L) ++ (w ++ tl) ++ NUL :: rest)
    with (((pre ++ L) ++ w) ++ tl ++ NUL :: rest) by (by rewrite <-!app_assoc).
  destruct tl as [|t tl]; cbn [app].
  - rewrite rd_app by done. cbn [mbind outcome_bind]. rewrite char_eqb_refl.
    cbn [mbind outcome_bind]. rewrite store_next by done. cbn [mbind outcome_bind drop].
    rewrite <-!app_assoc. f_equal. f_equal. f_equal. f_equal. f_equal.
    by destruct (decide (i = 0)%nat).
  - rewrite rd_app by done. cbn [mbind outcome_bind].
    assert (t ≠ NUL) as Ht.
    { intros ->. apply Hn. unfold r. rewrite !elem_of_app. right. right. left. }
    rewrite (proj2 (char_eqb_neq t NUL)) by done. rewrite wr_app by done.
    cbn [mbind outcome_bind]. rewrite store_next by done. cbn [mbind outcome_bind drop].
    rewrite <-!app_assoc. f_equal; [|by rewrite !length_app; simpl; lia].
    f_equal. f_equal. f_equal. f_equal. by destruct (decide (i = 0)%nat).
Qed.

Lemma split_arg_loop_spec f r pre ptrs m rest :
  (length r ≤ f)%nat → NUL ∉ r → unquoted r → (ptrs = [] → pre = []) →
  (r ≠ [] → spaces r + 1 ≤ m)%nat →
  ∃ tail ptrs' m',
    split_arg_loop (S f) (pre ++ r ++ NUL :: rest) ((Some <$> ptrs) ++ replicate m None)
      (length pre) (length ptrs) false NUL
    = Ret (pre ++ tail, (Some <$> (ptrs ++ ptrs')) ++ replicate m' None,
           (length ptrs + length ptrs')%nat) ∧
    Forall2 (stored (pre ++ tail)) ptrs' (args_s f (bool_decide (ptrs = [])) r).
Proof.
  revert r pre ptrs m. induction f as [|f IH]; intros r pre ptrs m Hf Hn Hq Hfirst Hm;
    (destruct (decide (r = [])) as [->|Hne]; [exists (NUL :: rest), [], m; simpl;
      rewrite rd_app by done; simpl; rewrite app_nil_r, Nat.add_0_r; by split; [|constructor]|]).
  { destruct r; [done|simpl in Hf; lia]. }
  specialize (Hm Hne). destruct m as [|m]; [lia|].
  set (L := takewhile isspace r). set (w := takewhile nonspace (dropwhile isspace r)).
  set (tl := dropwhile nonspace (dropwhile isspace r)).
  assert (dropwhile isspace r = w ++ tl) as Ewt by (symmetry; apply takewhile_dropwhile).
  assert (r = L ++ w ++ tl) as Er by (rewrite <-Ewt; symmetry; apply takewhile_dropwhile).
  rewrite Er. rewrite split_arg_step; rewrite <-?Er;
    [|done..|by rewrite <-Ewt|by rewrite <-Ewt|done|].
  2:{ intros Hi. by apply Hfirst, nil_length_inv. }
  assert ((NUL ∉ L) ∧ (NUL ∉ w) ∧ NUL ∉ tl) as (HnL & Hnw & Hnt).
  { rewrite Er, !elem_of_app in Hn. naive_solver. }
  set (p := length (if decide (length ptrs = 0)%nat then [] else pre ++ L)).
  set (str := if bool_decide (ptrs = []) then L ++ w else w).
  assert (∀ z, stored (pre ++ L ++ w ++ NUL :: z) p str) as Hst.
  { intros z. subst p str. case_bool_decide as Hp.
    - rewrite decide_True by (by rewrite Hp). rewrite (Hfirst Hp). simpl. rewrite (app_assoc L).
      apply (stored_intro []); [|done]. by rewrite elem_of_app; intros [?|?].
    - rewrite decide_False by (by intros ?%nil_length_inv). rewrite (app_assoc pre).
      by apply stored_intro. }
  assert (args_s (S f) (bool_decide (ptrs = [])) r
          = str :: args_s f false (drop 1 tl)) as ->.
  { destruct r; [done|]. reflexivity. }
  assert (bool_decide (ptrs ++ [p] = []) = false) as Hb.
  { apply bool_decide_eq_false. by destruct ptrs. }
  assert (length (ptrs ++ [p]) = length ptrs + 1)%nat as Hl by (by rewrite length_app).
  destruct tl as [|t tl'] eqn:Etl.
  - cbn [app drop]. rewrite drop_0.
    destruct (IH [] (pre ++ L ++ w) (ptrs ++ [p]) m) as (tail & ptrs' & m' & E & H);
      [simpl; lia|apply not_elem_of_nil|constructor|by destruct ptrs|done|].
    rewrite Hb in H. rewrite Hl, <-!app_assoc in E. cbn [app] in E. rewrite E.
    destruct ptrs' as [|? ptrs']; [|destruct f; inversion H].
    assert (tail = NUL :: rest) as ->.
    { cbn [split_arg_loop] in E. rewrite !app_assoc, rd_app in E by (by rewrite <-app_assoc).
      cbn in E. injection E as E _ _. rewrite <-!app_assoc in E.
      by repeat apply app_inv_head in E. }
    exists (L ++ w ++ NUL :: rest), [p], m'.
    split; [simpl; do 2 f_equal; lia|]. destruct f; (constructor; [apply Hst|constructor]).
  - cbn [app drop]. rewrite drop_0.
    assert (isspace t = true) as Ht.
    { assert (nonspace t = false) as Hns.
      { apply (dropwhile_head nonspace (dropwhile isspace r)). change (head tl = Some t). by rewrite Etl. }
      unfold nonspace in Hns. rewrite (proj2 (char_eqb_neq t NUL)) in Hns.
      - by destruct (isspace t).
      - intros ->. apply Hnt. left. }
    destruct (IH tl' (pre ++ L ++ w ++ [NUL]) (ptrs ++ [p]) m) as (tail & ptrs' & m' & E & H).
    { rewrite Er, !length_app in Hf. simpl in Hf. lia. }
    { by apply not_elem_of_cons in Hnt as [_ ?]. }
    { unfold unquoted in *. rewrite Er, !Forall_app, Forall_cons in Hq. naive_solver. }
    { by destruct ptrs. }
    { intros _. rewrite Er, !spaces_app, spaces_cons, Ht in Hm. lia. }
    rewrite Hb in H. rewrite Hl, <-!app_assoc in E. cbn [app] in E. rewrite E.
    exists (L ++ w ++ NUL :: tail), (p :: ptrs'), m'. split.
    { cbn [app length]. do 2 f_equal. lia. }
    constructor; [apply Hst|].
    by replace (pre ++ L ++ w ++ NUL :: tail) with ((pre ++ L ++ w ++ [NUL]) ++ tail)
      by (by rewrite <-!app_assoc).
Qed.

Lemma split_arg_list_unquoted s :
  s ≠ [] → NUL ∉ s → unquoted s →
  split_args (Some s) = Ret (Some (args_s (S (length s)) true s)).
Proof.
  intros Hne Hn Hq. unfold split_args, split_arg_list. destruct s as [|c s]; [done|].
  rewrite count_spaces_spaces.
  destruct (split_arg_loop_spec (S (length (c :: s))) (c :: s) [] [] (spaces (c :: s) + 2) [])
    as (tail & ptrs & m & E & H); [lia|done|done|done|lia|].
  replace (Z.to_nat (Z.of_nat (spaces (c :: s)) + 2)) with (spaces (c :: s) + 2)%nat by lia.
  replace (length ((c :: s) ++ [NUL])) with (S (length (c :: s))) by (rewrite length_app; simpl; lia).
  cbn [app fmap list_fmap length] in E |- *. cbn [app length] in E. rewrite E.
  cbn [mbind outcome_bind fmap option_fmap option_map].
  do 2 f_equal. by apply arg_strings_finish.
Qed.

(** ** Words and lines *)

Definition word (w : cstr) : Prop := w ≠ [] ∧ Forall (λ c, nonspace c = true) w.

Fixpoint join (sep : ascii) (ws : list cstr) : cstr :=
  match ws with
  | [] => []
  | [w] => w
  | w :: ws => w ++ sep :: join sep ws
  end.

Lemma nonspace_not_space c : nonspace c = true → isspace c = false ∧ c ≠ NUL.
Proof.
  unfold nonspace. intros [H1 H2]%andb_true_iff. split; [by destruct (isspace c)|].
  intros ->. done.
Qed.

Lemma word_head w : word w → ∃ c w', w = c :: w' ∧ isspace c = false.
Proof.
  intros [Hne H]. destruct w as [|c w]; [done|]. exists c, w. split; [done|].
  apply Forall_cons in H as [Hc _]. by apply nonspace_not_space in Hc as [? _].
Qed.

Lemma args_s_cons f first w r :
  word w →
  args_s (S f) first (w ++ r) =
  match r with
  | [] => [w]
  | c :: r' => if isspace c then w :: args_s f false r' else args_s (S f) first (w ++ r)
  end.
Proof.
  intros Hw. destruct r as [|c r]; [|destruct (isspace c) eqn:Ec; [|done]];
    pose proof Hw as (x & w' & -> & Hx)%word_head; destruct Hw as [_ Hw];
    cbn [args_s app]; cbn [dropwhile takewhile]; rewrite Hx; cbn [app].
  - rewrite app_nil_r. assert (takewhile nonspace (x :: w') = x :: w') as ->.
    { clear -Hw. induction Hw as [|y l Hy _ IH]; simpl; [done|by rewrite Hy, IH]. }
    assert (dropwhile nonspace (x :: w') = []) as -> by (by apply dropwhile_nil).
    destruct first, f; done.
  - change (x :: w' ++ c :: r) with ((x :: w') ++ c :: r).
    assert (nonspace c = false) as Hc by (unfold nonspace; by rewrite Ec, andb_false_r).
    rewrite takewhile_stop by done. rewrite dropwhile_all, dropwhile_skip by done.
    destruct first; done.
Qed.

Lemma args_s_join ws f first :
  Forall word ws → (length ws ≤ f)%nat → args_s f first (join SP ws) = ws.
Proof.
  intros H. revert f first. induction H as [|w ws Hw Hws IH]; intros f first Hf;
    [by destruct f|]. destruct f as [|f]; [simpl in Hf; lia|].
  destruct ws as [|w' ws].
  - simpl join. rewrite <-(app_nil_r w) at 1. by rewrite args_s_cons.
  - change (join SP (w :: w' :: ws)) with (w ++ SP :: join SP (w' :: ws)).
    rewrite args_s_cons by done. change (isspace SP) with true. cbn iota.
    f_equal. apply IH. simpl in *. lia.
Qed.

Lemma join_forall (P : ascii → Prop) sep ws :
  Forall (Forall P) ws → P sep → Forall P (join sep ws).
Proof.
  intros H Hs. induction H as [|w ws Hw Hws IH]; [constructor|].
  destruct ws as [|w' ws]; [done|]. apply Forall_app. by split; [|constructor].
Qed.

Lemma join_length ws : Forall word ws → (length ws ≤ length (join SP ws))%nat.
Proof.
  induction 1 as [|w ws [Hw _] Hws IH]; [done|].
  destruct ws as [|w' ws]; [destruct w; [done|simpl; lia]|].
  change (join SP (w :: w' :: ws)) with (w ++ SP :: join SP (w' :: ws)).
  rewrite length_app. simpl in *. lia.
Qed.

(** ** The properties of the module *)

(** Split_list never leaves the array it allocates and returns the fields
    of the list: it cuts at each separator, ignores a trailing one and leaves
    the rest of the list uncut in the field number [max_fields]. *)
Theorem split_list_correct sep max_fields s :
  NUL ∉ s → sep ≠ NUL → max_fields ≠ 1%Z →
  ∃ a, split_list (Some s) sep max_fields = Ret a ∧
       argc a = length (split_list_s sep max_fields s) ∧
       arg_strings a = split_list_s sep max_fields s.
Proof. apply split_list_spec. Qed.
Lemma split_list_correct_witness :
  ∃ a, split_list (Some ($"10:2:0:7:A:B")) (chr 58) 5 = Ret a ∧ argc a = 5%nat ∧
       arg_strings a = [$"10"; $"2"; $"0"; $"7"; $"A:B"].
Proof.
  exact (split_list_correct (chr 58) 5 ($"10:2:0:7:A:B")
           ltac:(apply (bool_decide_unpack _); vm_compute; exact I) ltac:(done) ltac:(done)).
Defined.

(** Splitting the words of a list joined by blanks returns these words,
    without a write outside of the vector. *)
Theorem split_arg_list_words ws :
  ws ≠ [] → Forall word ws → Forall unquoted ws →
  split_args (Some (join SP ws)) = Ret (Some ws).
Proof.
  intros Hne Hw Hq. rewrite split_arg_list_unquoted.
  - rewrite args_s_join; [done|done|]. pose proof (join_length ws Hw). lia.
  - destruct Hw as [|w [|w' ws] [Hw _] _]; [done|done|]. simpl. by destruct w.
  - assert (Forall (λ c, c ≠ NUL) (join SP ws)) as H.
    { apply join_forall; [|done]. eapply Forall_impl; [exact Hw|]. intros w [_ H].
      eapply Forall_impl; [exact H|]. by intros c [_ ?]%nonspace_not_space. }
    intros Hin. rewrite Forall_forall in H. by apply (H NUL Hin).
  - by apply join_forall.
Qed.
Lemma split_arg_list_words_witness :
  split_args (Some ($"limit 20")) = Ret (Some [$"limit"; $"20"]).
Proof.
  exact (split_arg_list_words [$"limit"; $"20"] ltac:(done)
    ltac:(repeat first [done | constructor]) ltac:(repeat constructor)).
Defined.

(** Split_arg_list sizes its vector by the number of white space bytes, so
    that quoted arguments without white space between them overflow it: three
    of them are enough, whatever follows. *)
Theorem split_arg_list_overflow t :
  Forall (λ c, isspace c = false) t →
  split_arg_list (Some (replicate 6 (chr 34) ++ t)) = Fault.
Proof.
  intros Ht. assert (spaces (replicate 6 (chr 34) ++ t) = 0%nat) as E.
  { rewrite spaces_app. change (spaces (replicate 6 (chr 34))) with 0%nat. simpl.
    induction Ht as [|c t Hc _ IH]; [done|]. by rewrite spaces_cons, Hc. }
  unfold split_arg_list. rewrite count_spaces_spaces. rewrite E.
  change (Z.to_nat (Z.of_nat 0 + 2)) with 2%nat. reflexivity.
Qed.
Lemma split_arg_list_overflow_witness :
  split_arg_list (Some (replicate 6 (chr 34) ++ [])) = Fault.
Proof. exact (split_arg_list_overflow [] ltac:(constructor)). Defined.

Lemma rdropwhile_all {A} (p : A → bool) l k :
  Forall (λ x, p x = true) k → rdropwhile p (l ++ k) = rdropwhile p l.
Proof.
  intros H. unfold rdropwhile. rewrite reverse_app, dropwhile_all; [done|].
  by apply Forall_reverse.
Qed.

Lemma parse_line_spec tag sp1 sp2 datum :
  chr 58 ∉ tag → rtrim_s tag = tag → ltrim_s datum = datum →
  Forall (λ c, isspace c = true) sp1 → Forall (λ c, isspace c = true) sp2 →
  let line := tag ++ sp1 ++ chr 58 :: sp2 ++ datum in
  parse_line (Some line) =
    (if bool_decide (head (ltrim_s tag) = Some (chr 35)) then None else Some (tag, datum)) ∧
  (chr 58 ∉ sp1 ++ tag → parse_line (Some (sp1 ++ tag)) = None).
Proof.
  intros Hc Ht Hd H1 H2 line.
  assert (chr 58 ∉ tag ++ sp1) as Hc1.
  { rewrite elem_of_app. intros [?|Hin]; [done|]. rewrite Forall_forall in H1.
    by specialize (H1 _ Hin). }
  split.
  - assert (head (dropwhile isspace line) = Some (chr 35) ↔ head (ltrim_s tag) = Some (chr 35)) as Hh.
    { unfold line, ltrim_s. rewrite <-(takewhile_dropwhile isspace tag) at 1.
      rewrite <-app_assoc, dropwhile_all by apply takewhile_Forall.
      pose proof (dropwhile_head isspace tag) as Hdh.
      destruct (dropwhile isspace tag) as [|c s] eqn:E.
      - simpl. rewrite dropwhile_all by done. simpl. done.
      - simpl app. by rewrite dropwhile_skip by (apply Hdh; done). }
    unfold parse_line. destruct line as [|x l] eqn:El; [by destruct tag, sp1|].
    rewrite (bool_decide_ext _ _ Hh). case_bool_decide; [done|].
    rewrite <-El. unfold line. rewrite (app_assoc tag).
    rewrite strchr_app by done. rewrite take_app_length. f_equal. f_equal.
    + unfold rtrim_s in *. by rewrite rdropwhile_all.
    + by rewrite drop_succ_app, dropwhile_all.
  - intros Hn. unfold parse_line. destruct (sp1 ++ tag) as [|x l] eqn:E; [done|].
    rewrite <-E in *. case_bool_decide; [done|]. by rewrite (proj2 (strchr_None _ _) Hn).
Qed.
(** Parse_line returns the tag and the datum of a "tag: datum" line; the
    tag ends before the first colon and loses its trailing white space, the
    datum loses its leading white space.  Lines whose first visible byte is a
    pound sign and lines without a colon are refused. *)
Theorem parse_line_correct tag sp1 sp2 datum :
  chr 58 ∉ tag → rtrim_s tag = tag → ltrim_s datum = datum →
  Forall (λ c, isspace c = true) sp1 → Forall (λ c, isspace c = true) sp2 →
  let line := tag ++ sp1 ++ chr 58 :: sp2 ++ datum in
  parse_line (Some line) =
    (if bool_decide (head (ltrim_s tag) = Some (chr 35)) then None else Some (tag, datum)) ∧
  (chr 58 ∉ sp1 ++ tag → parse_line (Some (sp1 ++ tag)) = None).
Proof. apply parse_line_spec. Qed.
Lemma parse_line_correct_witness :
  parse_line (Some ($"Org-Name : Foo: Inc.")) = Some ($"Org-Name", $"Foo: Inc.").
Proof.
  exact (proj1 (parse_line_correct ($"Org-Name") ($" ") ($" ") ($"Foo: Inc.")
    ltac:(apply (bool_decide_unpack _); vm_compute; exact I) eq_refl eq_refl
    ltac:(repeat constructor) ltac:(repeat constructor))).
Defined.
