(* ===== verification/DlList.v ===== *)
(** * Doubly linked lists (common/dl_list.c)

    The nodes live in a heap and point to each other; the list is its control
    block.  The operations are those of the C code, with every pointer they
    follow checked: a null or freed pointer is a [Fault].  They are shown to
    implement operations on a cursor list, a sequence with a current element. *)

From S2P Require Import Prelude.
From stdpp Require Import gmap.

Abbreviation loc := positive.

Module DL.

(** a list with a current element: what precedes it, it, what follows it *)
Abbreviation cursor X := (option (list X * X * list X)).

Section DlList.
#[local] Set Default Proof Using "Type".
Context {V : Type}.

(** ** Data *)

(** dl_node_type; a null [data] is [None] *)
Record dl_node := DlNode { next : option loc; prev : option loc; data : option V }.

(** dl_list_type *)
Record dl_list := DlListCB {
  head : option loc;
  tail : option loc;
  current : option loc;
  destroy_head_flag : bool
}.

(** The nodes that are allocated, and the data given to [destroy_data] *)
Record store := Store { nodes : gmap loc dl_node; destroyed : list V }.

Implicit Types (σ : store) (h : gmap loc dl_node) (L : dl_list).

Definition get σ (p : loc) : outcome dl_node := of_option (nodes σ !! p).
Definition set_node σ (p : loc) (f : dl_node → dl_node) : outcome store :=
  n ← get σ p; Ret (Store (<[p := f n]> (nodes σ)) (destroyed σ)).
Definition with_next (q : option loc) (n : dl_node) := DlNode q (prev n) (data n).
Definition with_prev (q : option loc) (n : dl_node) := DlNode (next n) q (data n).
Definition free_node σ (p : loc) : outcome store :=
  _ ← get σ p; Ret (Store (delete p (nodes σ)) (destroyed σ)).
(** [p->next] through a pointer that may be null *)
Definition deref σ (p : option loc) : outcome dl_node :=
  match p with None => Fault | Some p => get σ p end.

Definition with_head (q : option loc) L := DlListCB q (tail L) (current L) (destroy_head_flag L).
Definition with_tail (q : option loc) L := DlListCB (head L) q (current L) (destroy_head_flag L).
Definition with_current (q : option loc) L := DlListCB (head L) (tail L) q (destroy_head_flag L).

(** malloc returns a pointer to a fresh node, or null *)
Context (malloc : gmap loc dl_node → option loc).

Definition create_new_node σ (v : option V) : option (loc * store) :=
  match malloc (nodes σ) with
  | None => None
  | Some p => Some (p, Store (<[p := DlNode None None v]> (nodes σ)) (destroyed σ))
  end.

(** ** Operations

    An operation returns its status, the store and the control block; [list]
    is null when it is [None]. *)

Definition dl_list_default (list : option dl_list) (destroy_head_flag : bool) :
    bool * option dl_list :=
  match list with
  | Some _ => (true, Some (DlListCB None None None destroy_head_flag))
  | None => (false, None)
  end.

Definition dl_list_value σ (list : option dl_list) : outcome (option V) :=
  match list with
  | None => Ret None
  | Some L =>
      match current L with
      | None => Ret None
      | Some c => n ← get σ c; Ret (data n)
      end
  end.

Fixpoint walk σ (step : dl_node → option loc) (p : loc) (n : nat) : outcome (option V) :=
  match n with
  | O => x ← get σ p; Ret (data x)
  | S n =>
      x ← get σ p;
      match step x with None => Ret None | Some p => walk σ step p n end
  end.
Definition dl_list_next_value σ (list : option dl_list) (n : nat) : outcome (option V) :=
  match list with
  | None => Ret None
  | Some L => match current L with None => Ret None | Some c => walk σ next c n end
  end.
Definition dl_list_prev_value σ (list : option dl_list) (n : nat) : outcome (option V) :=
  match list with
  | None => Ret None
  | Some L => match current L with None => Ret None | Some c => walk σ prev c n end
  end.

Definition dl_list_empty (list : option dl_list) : bool :=
  match list with
  | None => true
  | Some L => bool_decide (head L = None) || bool_decide (tail L = None)
              || bool_decide (current L = None)
  end.

Definition dl_list_first (list : option dl_list) : bool * option dl_list :=
  match list with
  | None => (false, None)
  | Some L => match head L with
              | None => (false, list)
              | Some _ => (true, Some (with_current (head L) L))
              end
  end.

Definition dl_list_last (list : option dl_list) : bool * option dl_list :=
  match list with
  | None => (false, None)
  | Some L => match tail L with
              | None => (false, list)
              | Some _ => (true, Some (with_current (tail L) L))
              end
  end.

Definition dl_list_next σ (list : option dl_list) : outcome (bool * option dl_list) :=
  match list with
  | None => Ret (false, None)
  | Some L =>
      match current L with
      | None => Ret (false, list)
      | Some c =>
          n ← get σ c;
          match next n with
          | None => Ret (false, list)
          | Some _ => Ret (true, Some (with_current (next n) L))
          end
      end
  end.

Definition dl_list_prev σ (list : option dl_list) : outcome (bool * option dl_list) :=
  match list with
  | None => Ret (false, None)
  | Some L =>
      match current L with
      | None => Ret (false, list)
      | Some c =>
          n ← get σ c;
          match prev n with
          | None => Ret (false, list)
          | Some _ => Ret (true, Some (with_current (prev n) L))
          end
      end
  end.

Definition dl_list_insert σ (list : option dl_list) (v : option V) :
    outcome (bool * store * option dl_list) :=
  match create_new_node σ v with
  | None => Ret (false, σ, list)
  | Some (node, σ) =>
      if dl_list_empty list then
        match list with
        | None => Fault
        | Some L => Ret (true, σ, Some (DlListCB (Some node) (Some node) (Some node)
                                                 (destroy_head_flag L)))
        end
      else
        match list with
        | None => Fault
        | Some L =>
            c ← deref σ (current L);
            σ ← set_node σ node (with_next (next c));
            σ ← set_node σ node (with_prev (current L));
            σ ← match current L with
                | None => Fault
                | Some c => set_node σ c (with_next (Some node))
                end;
            n ← get σ node;
            match next n with
            | Some q => σ ← set_node σ q (with_prev (Some node)); Ret (true, σ, Some L)
            | None => Ret (true, σ, Some (with_tail (Some node) L))
            end
        end
  end.

Definition dl_list_insert_before σ (list : option dl_list) (v : option V) :
    outcome (bool * store * option dl_list) :=
  match create_new_node σ v with
  | None => Ret (false, σ, list)
  | Some (node, σ) =>
      if dl_list_empty list then
        match list with
        | None => Fault
        | Some L => Ret (true, σ, Some (DlListCB (Some node) (Some node) (Some node)
                                                 (destroy_head_flag L)))
        end
      else
        match list with
        | None => Fault
        | Some L =>
            σ ← set_node σ node (with_next (current L));
            c ← deref σ (current L);
            σ ← set_node σ node (with_prev (prev c));
            σ ← match current L with
                | None => Fault
                | Some c => set_node σ c (with_prev (Some node))
                end;
            n ← get σ node;
            match prev n with
            | Some q => σ ← set_node σ q (with_next (Some node)); Ret (true, σ, Some L)
            | None => Ret (true, σ, Some (with_head (Some node) L))
            end
        end
  end.

(** append and prepend save and restore the position; they return TRUE even
    when the insertion failed *)
Definition dl_list_append σ (list : option dl_list) (v : option V) :
    outcome (bool * store * option dl_list) :=
  match list with
  | None => Ret (false, σ, None)
  | Some L =>
      if dl_list_empty list then
        '(_, σ, list) ← dl_list_insert σ list v; Ret (true, σ, list)
      else
        let old_pos := current L in
        let '(_, list) := dl_list_last list in
        '(_, σ, list) ← dl_list_insert σ list v;
        Ret (true, σ, option_map (with_current old_pos) list)
  end.

Definition dl_list_prepend σ (list : option dl_list) (v : option V) :
    outcome (bool * store * option dl_list) :=
  match list with
  | None => Ret (false, σ, None)
  | Some L =>
      if dl_list_empty list then
        '(_, σ, list) ← dl_list_insert σ list v; Ret (true, σ, list)
      else
        let old_pos := current L in
        let '(_, list) := dl_list_first list in
        '(_, σ, list) ← dl_list_insert_before σ list v;
        Ret (true, σ, option_map (with_current old_pos) list)
  end.

(** the control block of [list1] becomes a copy of the one of [list2] when
    [list1] is empty *)
Definition dl_list_append_list σ (list1 list2 : option dl_list) :
    outcome (bool * store * option dl_list) :=
  match list1, list2 with
  | Some L1, Some L2 =>
      if dl_list_empty list2 then Ret (true, σ, list1)
      else if dl_list_empty list1 then Ret (true, σ, list2)
      else
        match tail L1, head L2 with
        | Some pos1, Some pos2 =>
            σ ← set_node σ pos1 (with_next (Some pos2));
            σ ← set_node σ pos2 (with_prev (Some pos1));
            Ret (true, σ, Some (with_tail (tail L2) L1))
        | _, _ => Fault
        end
  | _, _ => Ret (false, σ, list1)
  end.

Definition dl_list_get_pos (list : option dl_list) : option loc := list ≫= current.

Definition dl_list_put_pos (list : option dl_list) (pos : option loc) :
    outcome (bool * option dl_list) :=
  match pos with
  | None => Ret (false, list)
  | Some _ => match list with
              | None => Fault
              | Some L => Ret (true, Some (with_current pos L))
              end
  end.

Definition dl_list_exchange_pos (list : option dl_list) (pos : option loc) :
    outcome (option loc * option dl_list) :=
  match pos with
  | None => Ret (None, list)
  | Some _ => match list with
              | None => Fault
              | Some L => Ret (current L, Some (with_current pos L))
              end
  end.

Definition call_destroy_data σ (v : option V) : store :=
  match v with None => σ | Some v => Store (nodes σ) (destroyed σ ++ [v]) end.

Definition dl_list_delete σ (list : option dl_list) : outcome (bool * store * option dl_list) :=
  match list with
  | None => Ret (false, σ, None)
  | Some L =>
      match current L with
      | None => Ret (false, σ, list)
      | Some c =>
          n ← get σ c;
          let σ := call_destroy_data σ (data n) in
          '(σ, L) ← match next n with
                    | Some q =>
                        σ ← set_node σ q (with_prev (prev n));
                        Ret (σ, with_current (next n) L)
                    | None => Ret (σ, with_current (prev n) (with_tail (prev n) L))
                    end;
          '(σ, L) ← match prev n with
                    | Some q => σ ← set_node σ q (with_next (next n)); Ret (σ, L)
                    | None => Ret (σ, with_head (next n) L)
                    end;
          σ ← free_node σ c;
          Ret (true, σ, Some L)
      end
  end.

(** [do status = dl_list_delete(list); while (status == TRUE)] *)
Fixpoint destroy_loop (fuel : nat) σ (list : option dl_list) : outcome (store * option dl_list) :=
  match fuel with
  | O => NoFuel
  | S fuel =>
      '(status, σ, list) ← dl_list_delete σ list;
      if status : bool then destroy_loop fuel σ list else Ret (σ, list)
  end.

(** The last component: the control block, [None] once it is freed.  The loop
    frees a node at each turn but the last. *)
Definition dl_list_destroy σ (list : option dl_list) : outcome (bool * store * option dl_list) :=
  match list with
  | None => Ret (true, σ, None)
  | Some L =>
      if dl_list_empty list
      then Ret (true, σ, if destroy_head_flag L then None else list)
      else
        let '(_, list) := dl_list_first list in
        '(σ, list) ← destroy_loop (S (size (nodes σ))) σ list;
        Ret (true, σ, if destroy_head_flag L then None else list)
  end.

(** ** Cursor lists *)

(** An element is a node with its datum; a list with a current element is
    what precedes it, the element and what follows it. *)
Abbreviation elem := (loc * option V)%type.
Abbreviation zipper := (cursor elem).

Definition elems {X} (z : cursor X) : list X :=
  match z with None => [] | Some (l, e, r) => l ++ e :: r end.
Definition values (z : zipper) : list (option V) := (elems z).*2.
Definition locs (ns : list elem) : list loc := ns.*1.

Definition z_first {X} (z : cursor X) : cursor X :=
  match elems z with [] => None | e :: r => Some ([], e, r) end.
Definition z_last {X} (z : cursor X) : cursor X :=
  match z with
  | None => None
  | Some (l, e, r) =>
      match reverse r with
      | [] => z
      | x :: r' => Some (l ++ e :: reverse r', x, [])
      end
  end.
Definition z_next {X} (z : cursor X) : cursor X :=
  match z with Some (l, e, x :: r) => Some (l ++ [e], x, r) | _ => z end.
Definition z_prev {X} (z : cursor X) : cursor X :=
  match z with
  | Some (l, e, r) =>
      match reverse l with [] => z | x :: l' => Some (reverse l', x, e :: r) end
  | None => None
  end.
Definition z_insert {X} (n : X) (z : cursor X) : cursor X :=
  match z with None => Some ([], n, []) | Some (l, e, r) => Some (l, e, n :: r) end.
Definition z_insert_before {X} (n : X) (z : cursor X) : cursor X :=
  match z with None => Some ([], n, []) | Some (l, e, r) => Some (l ++ [n], e, r) end.
Definition z_append {X} (n : X) (z : cursor X) : cursor X :=
  match z with None => Some ([], n, []) | Some (l, e, r) => Some (l, e, r ++ [n]) end.
Definition z_prepend {X} (n : X) (z : cursor X) : cursor X :=
  match z with None => Some ([], n, []) | Some (l, e, r) => Some (n :: l, e, r) end.
(** the cursor moves on, or back when the last element is deleted *)
Definition z_delete {X} (z : cursor X) : cursor X :=
  match z with
  | None => None
  | Some (l, _, x :: r) => Some (l, x, r)
  | Some (l, _, []) =>
      match reverse l with [] => None | x :: l' => Some (reverse l', x, []) end
  end.

(** the same cursor list with the nodes forgotten *)
Definition z_map {X Y} (f : X → Y) (z : cursor X) : cursor Y :=
  match z with None => None | Some (l, e, r) => Some (f <$> l, f e, f <$> r) end.

(** ** Representation *)

Definition first_of (ns : list elem) (qn : option loc) : option loc :=
  match ns with [] => qn | (p, _) :: _ => Some p end.
Definition last_of (pp : option loc) (ns : list elem) : option loc :=
  match last ns with None => pp | Some (p, _) => Some p end.

(** the nodes of [ns], between the nodes [pp] and [qn] *)
Fixpoint dseg h (pp : option loc) (ns : list elem) (qn : option loc) : Prop :=
  match ns with
  | [] => True
  | (p, v) :: ns =>
      h !! p = Some (DlNode (first_of ns qn) pp v) ∧ dseg h (Some p) ns qn
  end.

Definition rep h L (z : zipper) : Prop :=
  match z with
  | None => head L = None ∧ tail L = None ∧ current L = None
  | Some (l, e, r) =>
      NoDup (locs (l ++ e :: r)) ∧ dseg h None (l ++ e :: r) None ∧
      head L = first_of (l ++ e :: r) None ∧ tail L = last_of None (l ++ e :: r) ∧
      current L = Some e.1
  end.

#[local] Arguments rep : simpl never.

Lemma last_of_cons pp p v ns : last_of pp ((p, v) :: ns) = last_of (Some p) ns.
Proof. unfold last_of. rewrite last_cons. by destruct (last ns) as [[]|]. Qed.
Lemma last_of_snoc pp ns p v : last_of pp (ns ++ [(p, v)]) = Some p.
Proof. unfold last_of. by rewrite last_snoc. Qed.
Lemma last_of_app pp l r : last_of pp (l ++ r) = last_of (last_of pp l) r.
Proof. unfold last_of. rewrite last_app. by destruct (last r). Qed.
Lemma first_of_app l r qn : first_of (l ++ r) qn = first_of l (first_of r qn).
Proof. by destruct l as [|[]]. Qed.

Lemma dseg_app h pp l r qn :
  dseg h pp (l ++ r) qn ↔ dseg h pp l (first_of r qn) ∧ dseg h (last_of pp l) r qn.
Proof.
  clear malloc. revert pp. induction l as [|[p v] l IH]; intros pp; simpl; [by unfold last_of; naive_solver|].
  rewrite IH, last_of_cons, first_of_app. naive_solver.
Qed.

Lemma dseg_frame h h' pp ns qn :
  (∀ p, p ∈ locs ns → h' !! p = h !! p) → dseg h pp ns qn → dseg h' pp ns qn.
Proof.
  revert pp. induction ns as [|[p v] ns IH]; intros pp Hf; simpl; [done|].
  intros [Hp H]. rewrite Hf by left. split; [done|]. apply IH; [|done].
  intros q Hq. apply Hf. by right.
Qed.

Lemma dseg_dom h pp ns qn p : dseg h pp ns qn → p ∈ locs ns → is_Some (h !! p).
Proof.
  revert pp. induction ns as [|[q v] ns IH]; intros pp; simpl; [by intros _ []%elem_of_nil|].
  intros [Hq H] [->|Hin]%elem_of_cons; eauto.
Qed.

Lemma dseg_fresh h pp ns qn p : dseg h pp ns qn → h !! p = None → p ∉ locs ns.
Proof. intros H Hp Hin. destruct (dseg_dom _ _ _ _ _ H Hin) as [? ?]. congruence. Qed.

(** [out_of_list] splits what is known not to be in a list; [elem_absurd]
    finds the contradiction between the membership facts; [seg_frame] proves
    that a segment does not change under updates of nodes outside of it. *)
Ltac out_of_list :=
  repeat match goal with
  | H : _ ∉ _ ++ _ |- _ => apply not_elem_of_app in H; destruct H
  | H : _ ∉ _ :: _ |- _ => apply not_elem_of_cons in H; destruct H
  end.
Ltac elem_absurd :=
  out_of_list;
  first
    [ contradiction
    | match goal with
      | H : ∀ p, p ∈ ?a → p ∉ ?b, H1 : _ ∈ ?a |- _ =>
          specialize (H _ H1); out_of_list; (contradiction || congruence)
      | H : ∀ p, p ∈ ?a → p ∉ ?b, H1 : _ ∈ ?b |- _ =>
          exfalso; eapply H; [|exact H1]; apply elem_of_app; right; left
      end ].
Ltac seg_frame :=
  eapply dseg_frame; [|eassumption];
  let p := fresh "p" in let Hp := fresh "Hp" in
  intros p Hp; rewrite ?lookup_insert_ne, ?lookup_delete_ne by (intros ->; elem_absurd);
  reflexivity.

Lemma locs_app l r : locs (l ++ r) = locs l ++ locs r.
Proof. apply fmap_app. Qed.

Lemma rep_nonempty h L l e r : rep h L (Some (l, e, r)) → dl_list_empty (Some L) = false.
Proof.
  intros (_ & _ & Hh & Ht & Hc). unfold dl_list_empty. rewrite Hh, Ht, Hc.
  destruct e as [p v]. rewrite !bool_decide_eq_false_2; [done|done| |].
  - unfold last_of. rewrite last_app_cons. rewrite last_cons. by destruct (last r) as [[]|].
  - by destruct l as [|[]].
Qed.

Lemma rep_empty h L : rep h L None → dl_list_empty (Some L) = true.
Proof. intros (H & _ & _). unfold dl_list_empty. by rewrite H. Qed.

Lemma rep_current h L l p v r :
  rep h L (Some (l, (p, v), r)) →
  h !! p = Some (DlNode (first_of r None) (last_of None l) v) ∧
  dseg h None l (Some p) ∧ dseg h (Some p) r None.
Proof. intros (_ & (? & ? & ?)%dseg_app & _). auto. Qed.

(** ** Insertion *)

(** What an operation that goes from the cursor list [z] to [z'] leaves
    unchanged: the nodes that are in neither, the data destroyed so far and
    the flag of the control block. *)
Definition keeps σ L (z : zipper) σ' L' (z' : zipper) : Prop :=
  (∀ p, p ∉ locs (elems z) → p ∉ locs (elems z') → nodes σ' !! p = nodes σ !! p) ∧
  destroyed σ' = destroyed σ ∧ destroy_head_flag L' = destroy_head_flag L.

Lemma get_Some σ p n : nodes σ !! p = Some n → get σ p = Ret n.
Proof. unfold get. by intros ->. Qed.
Lemma set_node_Some σ p n f :
  nodes σ !! p = Some n → set_node σ p f = Ret (Store (<[p := f n]> (nodes σ)) (destroyed σ)).
Proof. intros H. unfold set_node. by rewrite (get_Some _ _ _ H). Qed.

(** [heap_step] runs one access to a node that the context or the last
    updates determine. *)
Ltac lookup_tac :=
  simpl; rewrite ?lookup_insert_eq, ?lookup_insert_ne, ?lookup_insert_eq by congruence;
  first [eassumption | reflexivity].
Ltac heap_step :=
  first
    [ erewrite set_node_Some by lookup_tac
    | erewrite get_Some by lookup_tac ];
  cbn [mbind outcome_bind nodes destroyed next prev data with_next with_prev].

Lemma locs_cons e ns : locs (e :: ns) = e.1 :: locs ns.
Proof. reflexivity. Qed.

Lemma NoDup_zipper (l : list elem) (e : elem) r :
  NoDup (locs (l ++ e :: r)) ↔
  NoDup (locs l) ∧ NoDup (locs r) ∧ (e.1 ∉ locs l) ∧ (e.1 ∉ locs r) ∧
  (∀ p, p ∈ locs l → p ∉ locs r).
Proof. rewrite locs_app, NoDup_app, locs_cons, NoDup_cons. set_solver. Qed.

Lemma rep_intro h L (l : list elem) p v r :
  NoDup (locs (l ++ (p, v) :: r)) →
  h !! p = Some (DlNode (first_of r None) (last_of None l) v) →
  dseg h None l (Some p) → dseg h (Some p) r None →
  head L = first_of l (Some p) → tail L = last_of (Some p) r → current L = Some p →
  rep h L (Some (l, (p, v), r)).
Proof.
  intros. split; [done|]. split; [by apply dseg_app|].
  by rewrite first_of_app, last_of_app, last_of_cons.
Qed.

Lemma rep_elim h L (l : list elem) p v r :
  rep h L (Some (l, (p, v), r)) →
  NoDup (locs (l ++ (p, v) :: r)) ∧
  h !! p = Some (DlNode (first_of r None) (last_of None l) v) ∧
  dseg h None l (Some p) ∧ dseg h (Some p) r None ∧
  head L = first_of l (Some p) ∧ tail L = last_of (Some p) r ∧ current L = Some p.
Proof.
  intros HR. pose proof (rep_current _ _ _ _ _ _ HR) as (? & ? & ?).
  destruct HR as (? & _ & Hh & Ht & Hc).
  rewrite first_of_app in Hh. rewrite last_of_app, last_of_cons in Ht. auto 10.
Qed.

Lemma rep_fresh h L z q : rep h L z → h !! q = None → q ∉ locs (elems z).
Proof.
  destruct z as [[[l e] r]|]; [|intros _ _; apply not_elem_of_nil].
  intros (_ & H & _) Hq. by eapply dseg_fresh.
Qed.

Lemma create_new_node_ok σ v q :
  malloc (nodes σ) = Some q →
  create_new_node σ v = Some (q, Store (<[q := DlNode None None v]> (nodes σ)) (destroyed σ)).
Proof. intros H. unfold create_new_node. by rewrite H. Qed.

Lemma insert_empty_rep σ L v q :
  rep (nodes σ) L None → nodes σ !! q = None →
  let σ' := Store (<[q := DlNode None None v]> (nodes σ)) (destroyed σ) in
  let L' := DlListCB (Some q) (Some q) (Some q) (destroy_head_flag L) in
  rep (nodes σ') L' (Some ([], (q, v), [])) ∧ keeps σ L None σ' L' (Some ([], (q, v), [])).
Proof.
  intros H Hq. simpl. split.
  - apply rep_intro; try done; [apply NoDup_singleton|]. by rewrite lookup_insert_eq.
  - split; [|done]. simpl. intros p _ Hp. apply lookup_insert_ne. set_solver.
Qed.

Ltac mem_step :=
  match goal with
  | H : _ ∈ [] |- _ => by apply not_elem_of_nil in H
  | H : _ ∈ _ ++ _ |- _ => apply elem_of_app in H; destruct H
  | H : _ ∈ _ :: _ |- _ => apply elem_of_cons in H; destruct H; [subst|]
  | |- _ ∉ _ ++ _ => apply not_elem_of_app; split
  | |- _ ∉ _ :: _ => apply not_elem_of_cons; split
  | |- _ ∉ [] => apply not_elem_of_nil
  end.
Ltac mem_close :=
  match goal with
  | H : ∀ p, p ∈ ?a → p ∉ ?b |- _ ∉ ?b =>
      apply H; rewrite ?elem_of_app, ?elem_of_cons; tauto
  | H : ∀ p, p ∈ ?a → _, H1 : _ ∈ ?a |- _ => specialize (H _ H1); out_of_list
  end.
Ltac solve_nodup :=
  rewrite ?NoDup_app, ?NoDup_cons; split_and?; try assumption; try apply NoDup_nil_2;
  intros; out_of_list; repeat mem_step; try assumption; try congruence;
  mem_close; (assumption || congruence).

(** The facts on the nodes of a cursor list that the operations need *)
Ltac zip_facts :=
  repeat match goal with
  | H : NoDup (locs (_ ++ _ :: _)) |- _ =>
      apply NoDup_zipper in H; destruct H as (? & ? & ? & ? & ?)
  end;
  rewrite ?locs_app, ?locs_cons in *;
  change (locs []) with (@nil loc) in *; cbn [fst] in *;
  repeat match goal with
  | H : NoDup (_ :: _) |- _ => apply NoDup_cons in H; destruct H
  | H : NoDup (_ ++ _) |- _ => apply NoDup_app in H; destruct H as (? & ? & ?)
  end.

Lemma insert_rep σ L z v q :
  rep (nodes σ) L z → malloc (nodes σ) = Some q → nodes σ !! q = None →
  ∃ σ' L', dl_list_insert σ (Some L) v = Ret (true, σ', Some L') ∧
    rep (nodes σ') L' (z_insert (q, v) z) ∧ keeps σ L z σ' L' (z_insert (q, v) z).
Proof.
  intros HR Hm Hq. unfold dl_list_insert. rewrite (create_new_node_ok _ _ _ Hm).
  destruct z as [[[l [p w]] r]|].
  2:{ rewrite (rep_empty _ _ HR). do 2 eexists. split; [done|]. by apply insert_empty_rep. }
  rewrite (rep_nonempty _ _ _ _ _ HR). pose proof (rep_fresh _ _ _ _ HR Hq) as Hfr.
  apply rep_elim in HR as (Hnd & Hp & Hl & Hr & Hh & Ht & Hc).
  assert (q ≠ p) as Hqp by congruence. cbn [elems] in Hfr.
  rewrite Hc. cbn [deref]. do 5 heap_step.
  destruct r as [|[p2 w2] r]; cbn [first_of].
  - do 2 eexists. split; [done|]. zip_facts. split; [|split; [|done]].
    + apply rep_intro; simpl; try done.
      * apply NoDup_zipper; zip_facts; solve_nodup.
      * lookup_tac.
      * seg_frame.
      * split; [lookup_tac|done].
    + simpl. intros p' Hi1 Hi2. zip_facts. out_of_list. by rewrite !lookup_insert_ne by congruence.
  - destruct Hr as [Hp2 Hr]. zip_facts.
    assert (p2 ≠ q ∧ p2 ≠ p) as [? ?] by (out_of_list; split; congruence).
    heap_step. do 2 eexists. split; [done|]. split; [|split; [|done]].
    + apply rep_intro; simpl; try done.
      * apply NoDup_zipper; zip_facts; solve_nodup.
      * lookup_tac.
      * seg_frame.
      * split; [lookup_tac|]. split; [lookup_tac|]. seg_frame.
    + simpl. intros p' Hi1 Hi2. zip_facts. out_of_list. by rewrite !lookup_insert_ne by congruence.
Qed.

Lemma insert_before_rep σ L z v q :
  rep (nodes σ) L z → malloc (nodes σ) = Some q → nodes σ !! q = None →
  ∃ σ' L', dl_list_insert_before σ (Some L) v = Ret (true, σ', Some L') ∧
    rep (nodes σ') L' (z_insert_before (q, v) z) ∧ keeps σ L z σ' L' (z_insert_before (q, v) z).
Proof.
  intros HR Hm Hq. unfold dl_list_insert_before. rewrite (create_new_node_ok _ _ _ Hm).
  destruct z as [[[l [p w]] r]|].
  2:{ rewrite (rep_empty _ _ HR). do 2 eexists. split; [done|]. by apply insert_empty_rep. }
  rewrite (rep_nonempty _ _ _ _ _ HR). pose proof (rep_fresh _ _ _ _ HR Hq) as Hfr.
  apply rep_elim in HR as (Hnd & Hp & Hl & Hr & Hh & Ht & Hc).
  assert (q ≠ p) as Hqp by congruence. cbn [elems] in Hfr.
  rewrite Hc. cbn [deref]. do 5 heap_step.
  destruct l as [|[p2 w2] l _] using rev_ind; cbn [last_of last].
  - do 2 eexists. split; [done|]. zip_facts. split; [|split; [|done]].
    + apply rep_intro; simpl; try done.
      * zip_facts; solve_nodup.
      * lookup_tac.
      * split; [lookup_tac|done].
      * seg_frame.
    + simpl. intros p' Hi1 Hi2. zip_facts. out_of_list. by rewrite !lookup_insert_ne by congruence.
  - rewrite last_of_snoc. apply dseg_app in Hl as [Hl [Hp2 _]]. zip_facts.
    assert (p2 ≠ q ∧ p2 ≠ p ∧ p2 ∉ locs l) as (? & ? & ?).
    { split_and!; [intros ->; elem_absurd..|intros Hin]. elem_absurd. }
    heap_step. do 2 eexists. split; [done|]. split; [|split; [|done]].
    + apply rep_intro; simpl; try done.
      * apply NoDup_zipper; zip_facts; solve_nodup.
      * rewrite last_of_snoc. lookup_tac.
      * apply dseg_app. split; [|by rewrite last_of_snoc; split; [lookup_tac|]].
        apply dseg_app. split; [seg_frame|]. split; [lookup_tac|done].
      * seg_frame.
      * rewrite Hh. by rewrite !first_of_app.
    + simpl. intros p' Hi1 Hi2. zip_facts. out_of_list. by rewrite !lookup_insert_ne by congruence.
Qed.

(** ** Navigation *)

Lemma rep_move h L l e r l' e' r' c :
  rep h L (Some (l, e, r)) → l' ++ e' :: r' = l ++ e :: r → c = Some e'.1 →
  rep h (with_current c L) (Some (l', e', r')).
Proof. intros (? & ? & ? & ? & ?) He ->. unfold rep. rewrite !He. auto. Qed.

Lemma elems_first (z : zipper) : elems (z_first z) = elems z.
Proof. unfold z_first. by destruct (elems z). Qed.

Lemma elems_last (z : zipper) : elems (z_last z) = elems z.
Proof.
  destruct z as [[[l e] r]|]; [|done]. simpl. destruct (reverse r) as [|x r'] eqn:E; [done|].
  simpl. rewrite <-(reverse_involutive r), E, reverse_cons, <-app_assoc. done.
Qed.

Lemma first_rep h L z :
  rep h L z → ∃ L', dl_list_first (Some L) = (bool_decide (z ≠ None), Some L') ∧
                    rep h L' (z_first z) ∧ destroy_head_flag L' = destroy_head_flag L.
Proof.
  intros HR. destruct z as [[[l [p v]] r]|].
  - pose proof HR as (_ & _ & Hh & _). unfold dl_list_first, z_first. simpl elems.
    rewrite Hh. destruct l as [|[p' v'] l]; simpl in *;
      (eexists; split; [done|]); (split; [|done]);
      by eapply rep_move.
  - pose proof HR as (Hh & _). unfold dl_list_first. rewrite Hh. by exists L.
Qed.

Lemma last_rep h L z :
  rep h L z → ∃ L', dl_list_last (Some L) = (bool_decide (z ≠ None), Some L') ∧
                    rep h L' (z_last z) ∧ destroy_head_flag L' = destroy_head_flag L.
Proof.
  intros HR. destruct z as [[[l e] r]|].
  - pose proof HR as (_ & _ & _ & Ht & Hc). unfold dl_list_last.
    pose proof (elems_last (Some (l, e, r))) as He. simpl in He |- *.
    destruct (reverse r) as [|x r'] eqn:E.
    + assert (r = []) as -> by (rewrite <-(reverse_involutive r), E; done).
      destruct e as [p v]. rewrite last_of_snoc in Ht. rewrite Ht.
      eexists. split; [done|]. split; [|done]. by eapply rep_move.
    + simpl in He. rewrite <-He in Ht. destruct x as [p v].
      rewrite last_of_snoc in Ht. rewrite Ht.
      eexists. split; [done|]. split; [|done]. by eapply rep_move.
  - pose proof HR as (_ & Ht & _). unfold dl_list_last. rewrite Ht. by exists L.
Qed.

Lemma next_rep σ L z :
  rep (nodes σ) L z →
  ∃ L', dl_list_next σ (Some L)
        = Ret (match z with Some (_, _, _ :: _) => true | _ => false end, Some L') ∧
        rep (nodes σ) L' (z_next z) ∧ destroy_head_flag L' = destroy_head_flag L.
Proof.
  intros HR. destruct z as [[[l [p v]] r]|]; unfold dl_list_next.
  - pose proof (rep_current _ _ _ _ _ _ HR) as (Hp & _). pose proof HR as (_ & _ & _ & _ & ->).
    simpl fst. rewrite (get_Some _ _ _ Hp). cbn [mbind outcome_bind next].
    destruct r as [|[p2 v2] r]; simpl; [by exists L|].
    eexists. split; [done|]. split; [|done]. eapply rep_move; [done| |done]. by rewrite <-app_assoc.
  - pose proof HR as (_ & _ & ->). by exists L.
Qed.

Lemma prev_rep σ L z :
  rep (nodes σ) L z →
  ∃ L', dl_list_prev σ (Some L)
        = Ret (match z with Some (_ :: _, _, _) => true | _ => false end, Some L') ∧
        rep (nodes σ) L' (z_prev z) ∧ destroy_head_flag L' = destroy_head_flag L.
Proof.
  intros HR. destruct z as [[[l [p v]] r]|]; unfold dl_list_prev.
  - pose proof (rep_current _ _ _ _ _ _ HR) as (Hp & _). pose proof HR as (_ & _ & _ & _ & ->).
    simpl fst. rewrite (get_Some _ _ _ Hp). cbn [mbind outcome_bind prev].
    destruct l as [|[p2 v2] l _] using rev_ind; simpl; [by exists L|].
    rewrite last_of_snoc, reverse_snoc, reverse_involutive.
    eexists. split; [by destruct l|]. split; [|done].
    eapply rep_move; [done| |done]. by rewrite <-app_assoc.
  - pose proof HR as (_ & _ & ->). by exists L.
Qed.

Lemma value_rep σ L z :
  rep (nodes σ) L z →
  dl_list_value σ (Some L) = Ret (match z with None => None | Some (_, e, _) => e.2 end).
Proof.
  intros HR. unfold dl_list_value. destruct z as [[[l [p v]] r]|].
  - pose proof (rep_current _ _ _ _ _ _ HR) as (Hp & _). pose proof HR as (_ & _ & _ & _ & ->).
    simpl. by rewrite (get_Some _ _ _ Hp).
  - by pose proof HR as (_ & _ & ->).
Qed.

(** ** Insertion at the ends *)

Lemma keeps_via σ L z σ' L' z' z1 L1 L'' z'' :
  keeps σ L1 z1 σ' L' z' → elems z1 = elems z → elems z'' = elems z' →
  destroy_head_flag L1 = destroy_head_flag L → destroy_head_flag L'' = destroy_head_flag L' →
  keeps σ L z σ' L'' z''.
Proof. intros (H1 & H2 & H3) E1 E2 F1 F2. split_and!; rewrite <-?E1, ?E2; congruence || done. Qed.

Lemma append_rep σ L z v q :
  rep (nodes σ) L z → malloc (nodes σ) = Some q → nodes σ !! q = None →
  ∃ σ' L', dl_list_append σ (Some L) v = Ret (true, σ', Some L') ∧
    rep (nodes σ') L' (z_append (q, v) z) ∧ keeps σ L z σ' L' (z_append (q, v) z).
Proof.
  intros HR Hm Hq. unfold dl_list_append. destruct z as [[[l e] r]|].
  - rewrite (rep_nonempty _ _ _ _ _ HR). pose proof (elems_last (Some (l, e, r))) as He.
    destruct (last_rep _ _ _ HR) as (L1 & E1 & HR1 & F1). rewrite E1.
    assert (∃ l1 e1, z_last (Some (l, e, r)) = Some (l1, e1, [])) as (l1 & e1 & Ez).
    { simpl. destruct (reverse r) eqn:Er; [|eauto].
      assert (r = []) as -> by (rewrite <-(reverse_involutive r), Er; done). eauto. }
    rewrite Ez in *. destruct (insert_rep _ _ _ v q HR1 Hm Hq) as (σ' & L' & E & HR' & HK).
    rewrite E. cbn [mbind outcome_bind option_map]. do 2 eexists. split; [done|].
    simpl in He. assert (l ++ e :: r ++ [(q, v)] = l1 ++ e1 :: [(q, v)]) as Hel.
    { rewrite (app_comm_cons r), app_assoc, <-He, <-app_assoc. done. }
    split.
    + eapply rep_move; [exact HR'|exact Hel|]. by destruct HR as (_ & _ & _ & _ & ->).
    + eapply keeps_via; [exact HK| | |done|done]; [by simpl|by simpl].
  - rewrite (rep_empty _ _ HR). destruct (insert_rep _ _ _ v q HR Hm Hq) as (σ' & L' & E & HR' & HK).
    rewrite E. simpl. eauto.
Qed.

Lemma prepend_rep σ L z v q :
  rep (nodes σ) L z → malloc (nodes σ) = Some q → nodes σ !! q = None →
  ∃ σ' L', dl_list_prepend σ (Some L) v = Ret (true, σ', Some L') ∧
    rep (nodes σ') L' (z_prepend (q, v) z) ∧ keeps σ L z σ' L' (z_prepend (q, v) z).
Proof.
  intros HR Hm Hq. unfold dl_list_prepend. destruct z as [[[l e] r]|].
  - rewrite (rep_nonempty _ _ _ _ _ HR). pose proof (elems_first (Some (l, e, r))) as He.
    destruct (first_rep _ _ _ HR) as (L1 & E1 & HR1 & F1). rewrite E1.
    assert (∃ e1 r1, z_first (Some (l, e, r)) = Some ([], e1, r1)) as (e1 & r1 & Ez).
    { unfold z_first. simpl. destruct l; simpl; eauto. }
    rewrite Ez in *. destruct (insert_before_rep _ _ _ v q HR1 Hm Hq) as (σ' & L' & E & HR' & HK).
    rewrite E. cbn [mbind outcome_bind option_map]. do 2 eexists. split; [done|].
    simpl in He. assert ((q, v) :: l ++ e :: r = [(q, v)] ++ e1 :: r1) as Hel.
    { by rewrite <-He. }
    split.
    + eapply rep_move; [exact HR'|exact Hel|]. by destruct HR as (_ & _ & _ & _ & ->).
    + eapply keeps_via; [exact HK| | |done|done]; [by simpl|by simpl].
  - rewrite (rep_empty _ _ HR). destruct (insert_rep _ _ _ v q HR Hm Hq) as (σ' & L' & E & HR' & HK).
    rewrite E. simpl. eauto.
Qed.

(** ** Deletion *)

Lemma lookup_set_prev h p2 q x : p2 ≠ q → <[q := x]> h !! p2 = h !! p2.
Proof. intros. by apply lookup_insert_ne. Qed.

Lemma dseg_set_prev h p' pp p2 v2 r qn :
  dseg h pp ((p2, v2) :: r) qn → p2 ∉ locs r →
  dseg (<[p2 := with_prev p' (DlNode (first_of r qn) pp v2)]> h) p' ((p2, v2) :: r) qn.
Proof.
  intros [Hp H] Hn. split; [by rewrite lookup_insert_eq|].
  eapply dseg_frame; [|exact H]. intros p Hin. apply lookup_insert_ne. by intros ->.
Qed.

Lemma dseg_set_next h pp l p1 v1 qn qn' :
  dseg h pp (l ++ [(p1, v1)]) qn → p1 ∉ locs l →
  dseg (<[p1 := with_next qn' (DlNode qn (last_of pp l) v1)]> h) pp (l ++ [(p1, v1)]) qn'.
Proof.
  intros [Hl [Hp _]]%dseg_app Hn. apply dseg_app. split.
  - eapply dseg_frame; [|exact Hl]. intros p Hin. apply lookup_insert_ne. by intros ->.
  - by split; [rewrite lookup_insert_eq|].
Qed.

Lemma dseg_other h pp l qn p x : dseg h pp l qn → p ∉ locs l → dseg (<[p := x]> h) pp l qn.
Proof.
  intros H Hp. eapply dseg_frame; [|exact H]. intros q Hq. apply lookup_insert_ne. by intros ->.
Qed.
Lemma dseg_delete h pp l qn p : dseg h pp l qn → p ∉ locs l → dseg (delete p h) pp l qn.
Proof.
  intros H Hp. eapply dseg_frame; [|exact H]. intros q Hq. apply lookup_delete_ne. by intros ->.
Qed.

(** what deleting the current element leaves *)
Definition deleted σ L (l : list elem) (p : loc) (v : option V) r σ' L' : Prop :=
  rep (nodes σ') L' (z_delete (Some (l, (p, v), r))) ∧
  nodes σ' !! p = None ∧
  (∀ q, q ∉ locs (l ++ (p, v) :: r) → nodes σ' !! q = nodes σ !! q) ∧
  destroyed σ' = destroyed σ ++ option_list v ∧ destroy_head_flag L' = destroy_head_flag L.

Lemma free_node_Some σ p n :
  nodes σ !! p = Some n → free_node σ p = Ret (Store (delete p (nodes σ)) (destroyed σ)).
Proof. intros H. unfold free_node. by rewrite (get_Some _ _ _ H). Qed.

Lemma call_destroy_data_eq σ v :
  call_destroy_data σ v = Store (nodes σ) (destroyed σ ++ option_list v).
Proof. destruct σ, v; [done|]. simpl. by rewrite app_nil_r. Qed.

Lemma NoDup_delete (l : list elem) e r : NoDup (locs (l ++ e :: r)) → NoDup (locs (l ++ r)).
Proof. rewrite NoDup_zipper, locs_app, NoDup_app. intros (? & ? & _ & _ & ?). done. Qed.

Lemma delete_tail_rep σ L l p v :
  rep (nodes σ) L (Some (l, (p, v), [])) →
  ∃ σ' L', dl_list_delete σ (Some L) = Ret (true, σ', Some L') ∧ deleted σ L l p v [] σ' L'.
Proof.
  intros HR. apply rep_elim in HR as (Hnd & Hp & Hl & Hr & Hh & Ht & Hc).
  unfold dl_list_delete. rewrite Hc, (get_Some _ _ _ Hp). cbn [mbind outcome_bind data next prev].
  rewrite call_destroy_data_eq. unfold deleted.
  apply NoDup_zipper in Hnd as (Hn1 & Hn2 & Hpl & Hpr & Hlr). cbn [fst] in *.
  destruct l as [|[p1 w1] l _] using rev_ind;
    rewrite ?last_of_snoc; cbn [first_of last_of last mbind outcome_bind].
  - erewrite free_node_Some by lookup_tac. do 2 eexists. split; [done|]. split_and!; simpl; try done.
    + by rewrite lookup_delete_eq.
    + intros q Hq. apply lookup_delete_ne. set_solver.
  - rewrite locs_app, locs_cons in *. apply NoDup_app in Hn1 as (Hn1 & Hx & _). cbn [fst] in *.
    assert (p1 ∉ locs l) as H1 by (intros Hin; apply (Hx _ Hin); by left).
    assert (p1 ≠ p) as H2 by (intros ->; apply Hpl, elem_of_app; right; by left).
    apply not_elem_of_app in Hpl as [Hpl _].
    pose proof Hl as [Hl1 [Hp1 _]]%dseg_app. erewrite set_node_Some by exact Hp1.
    cbn [mbind outcome_bind]. erewrite free_node_Some by lookup_tac.
    do 2 eexists. split; [done|]. split_and!; simpl; try done.
    + rewrite reverse_snoc, reverse_involutive.
      apply (dseg_set_next _ _ _ _ _ _ None) in Hl; [|done].
      apply (dseg_delete _ _ _ _ p) in Hl; [|rewrite locs_app; set_solver].
      apply dseg_app in Hl as [? [? _]].
      apply rep_intro; try done.
      * apply NoDup_zipper. split_and!; [done|apply NoDup_nil_2|done|apply not_elem_of_nil|].
        intros ? ? []%elem_of_nil.
      * simpl. by rewrite Hh, first_of_app.
    + by rewrite lookup_delete_eq.
    + intros q Hq. rewrite ?locs_app, ?locs_cons in Hq. cbn [fst] in Hq. out_of_list.
      by rewrite lookup_delete_ne, lookup_insert_ne by congruence.
Qed.

Lemma delete_inner_rep σ L l p v p2 w2 r :
  rep (nodes σ) L (Some (l, (p, v), (p2, w2) :: r)) →
  ∃ σ' L', dl_list_delete σ (Some L) = Ret (true, σ', Some L') ∧ deleted σ L l p v ((p2, w2) :: r) σ' L'.
Proof.
  intros HR. apply rep_elim in HR as (Hnd & Hp & Hl & Hr & Hh & Ht & Hc).
  unfold dl_list_delete. rewrite Hc, (get_Some _ _ _ Hp). cbn [mbind outcome_bind data next prev].
  rewrite call_destroy_data_eq. unfold deleted.
  pose proof Hnd as Hnd'. apply NoDup_zipper in Hnd as (Hn1 & Hn2 & Hpl & Hpr & Hlr). cbn [fst] in *.
  destruct l as [|[p1 w1] l _] using rev_ind;
    rewrite ?last_of_snoc; cbn [first_of last_of last mbind outcome_bind].
  - destruct Hr as [Hp2 Hr]. rewrite locs_cons in Hn2, Hpr, Hlr. cbn [fst] in *.
    apply NoDup_cons in Hn2 as [H1 Hn2]. apply not_elem_of_cons in Hpr as [H2 Hpr].
    erewrite set_node_Some by exact Hp2. cbn [mbind outcome_bind].
    erewrite free_node_Some by lookup_tac.
    do 2 eexists. split; [done|]. split_and!; simpl; try done.
    + apply rep_intro; try done.
      * apply NoDup_zipper. split_and!; [apply NoDup_nil_2|done|apply not_elem_of_nil|done|].
        intros ? []%elem_of_nil.
      * rewrite lookup_delete_ne by congruence. by rewrite lookup_insert_eq.
      * apply dseg_delete; [apply dseg_other|]; done.
      * simpl. by rewrite Ht, last_of_cons.
    + by rewrite lookup_delete_eq.
    + intros q Hq. rewrite ?locs_app, ?locs_cons in Hq. cbn [fst] in Hq. out_of_list.
      by rewrite lookup_delete_ne, lookup_insert_ne by congruence.
  - destruct Hr as [Hp2 Hr]. rewrite locs_cons in Hn2, Hpr, Hlr. cbn [fst] in *.
    apply NoDup_cons in Hn2 as [H1 Hn2]. apply not_elem_of_cons in Hpr as [H2 Hpr].
    rewrite locs_app, locs_cons in Hn1, Hpl, Hlr. apply NoDup_app in Hn1 as (Hn1 & Hx & _). cbn [fst] in *.
    assert (p1 ∉ locs l) as H3 by (intros Hin; apply (Hx _ Hin); by left).
    assert (p1 ≠ p) as H4 by (intros ->; apply Hpl, elem_of_app; right; by left).
    assert (p1 ∉ p2 :: locs r) as H5 by (apply Hlr, elem_of_app; right; by left).
    apply not_elem_of_cons in H5 as [H5 H6].
    apply not_elem_of_app in Hpl as [Hpl _].
    assert (∀ q, q ∈ locs l → q ≠ p2 ∧ q ∉ locs r) as Hlr'.
    { intros q Hq. apply not_elem_of_cons, Hlr, elem_of_app. by left. }
    pose proof Hl as [Hl1 [Hp1 _]]%dseg_app. erewrite set_node_Some by exact Hp2.
    cbn [mbind outcome_bind]. erewrite set_node_Some by lookup_tac. cbn [mbind outcome_bind].
    erewrite free_node_Some by lookup_tac.
    do 2 eexists. split; [done|]. split_and!; simpl; try done.
    + assert (p2 ∉ locs l) as H7 by (intros Hin; by destruct (Hlr' _ Hin)).
      apply rep_intro.
      * by eapply NoDup_delete.
      * rewrite last_of_snoc, lookup_delete_ne, lookup_insert_ne by congruence.
        by rewrite lookup_insert_eq.
      * apply dseg_delete; [|by rewrite locs_app; set_solver].
        apply (dseg_set_next _ _ _ _ _ (Some p)); [|done].
        apply dseg_other; [done|]. rewrite locs_app. set_solver.
      * apply dseg_delete; [apply dseg_other; [apply dseg_other|]|]; done.
      * simpl. by rewrite Hh, !first_of_app.
      * simpl. by rewrite Ht, last_of_cons.
      * done.
    + by rewrite lookup_delete_eq.
    + intros q Hq. rewrite ?locs_app, ?locs_cons in Hq. cbn [fst] in Hq. out_of_list.
      by rewrite lookup_delete_ne, !lookup_insert_ne by congruence.
Qed.

Lemma delete_rep σ L l p v r :
  rep (nodes σ) L (Some (l, (p, v), r)) →
  ∃ σ' L', dl_list_delete σ (Some L) = Ret (true, σ', Some L') ∧ deleted σ L l p v r σ' L'.
Proof. destruct r as [|[]]; [apply delete_tail_rep|apply delete_inner_rep]. Qed.

(** ** Destruction *)

Lemma destroy_loop_S fuel σ list :
  destroy_loop (S fuel) σ list =
  ('(status, σ, list) ← dl_list_delete σ list;
   if status : bool then destroy_loop fuel σ list else Ret (σ, list)).
Proof. reflexivity. Qed.

(** the data of the nodes of a list, null data left out *)
Definition data_of (ns : list elem) : list V := ns.*2 ≫= option_list.

Lemma destroy_loop_rep r : ∀ p v σ L fuel,
  rep (nodes σ) L (Some ([], (p, v), r)) → (length r + 2 ≤ fuel)%nat →
  ∃ σ' L', destroy_loop fuel σ (Some L) = Ret (σ', Some L') ∧
    rep (nodes σ') L' None ∧ destroy_head_flag L' = destroy_head_flag L ∧
    destroyed σ' = destroyed σ ++ data_of ((p, v) :: r) ∧
    (∀ q, nodes σ' !! q = if decide (q ∈ locs ((p, v) :: r)) then None else nodes σ !! q).
Proof.
  induction r as [|[p2 v2] r IH]; intros p v σ L fuel HR Hf;
    (destruct fuel as [|fuel]; [simpl in Hf; lia|]); rewrite destroy_loop_S;
    destruct (delete_rep _ _ _ _ _ _ HR) as (σ1 & L1 & -> & HR1 & Hp & Hq & Hd & Hfl);
    cbn [mbind outcome_bind].
  - destruct fuel as [|fuel]; [simpl in Hf; lia|]. rewrite destroy_loop_S.
    destruct HR1 as (Hh & Ht & Hc). unfold dl_list_delete. rewrite Hc. cbn [mbind outcome_bind].
    do 2 eexists. split; [done|]. split_and!; try done.
    + rewrite Hd. unfold data_of. simpl. by rewrite app_nil_r.
    + intros q. case_decide as Hin; [|by apply Hq].
      apply list_elem_of_singleton in Hin. by subst q.
  - destruct (IH p2 v2 σ1 L1 fuel HR1) as (σ2 & L2 & -> & ? & Hfl2 & Hd2 & Hq2); [simpl in Hf; lia|].
    do 2 eexists. split; [done|]. split_and!; [done|congruence| |].
    + rewrite Hd2, Hd. unfold data_of. simpl. by rewrite <-app_assoc.
    + intros q. rewrite Hq2, (locs_cons (p, v)). cbn [fst].
      destruct (decide (q ∈ locs ((p2, v2) :: r))) as [Hi|Hi].
      * by rewrite decide_True by (by right).
      * destruct (decide (q = p)) as [->|Hne]; [by rewrite decide_True by (by left)|].
        rewrite decide_False by (by apply not_elem_of_cons). apply Hq. by apply not_elem_of_cons.
Qed.

Lemma rep_size σ L z : rep (nodes σ) L z → (length (elems z) ≤ size (nodes σ))%nat.
Proof.
  destruct z as [[[l e] r]|]; [|simpl; lia]. intros (Hnd & Hs & _). cbn [elems].
  rewrite <-(size_dom (nodes σ)). rewrite <-(length_fmap fst), <-(size_list_to_set (C:=gset loc)) by done.
  apply subseteq_size. intros q Hq. apply elem_of_dom. eapply dseg_dom; [done|].
  by apply elem_of_list_to_set in Hq.
Qed.

(** ** Concatenation *)

Lemma append_list_nodes σ L1 L2 m p1 v1 p2 v2 k :
  dseg (nodes σ) None (m ++ [(p1, v1)]) None → dseg (nodes σ) None ((p2, v2) :: k) None →
  NoDup (locs ((m ++ [(p1, v1)]) ++ (p2, v2) :: k)) →
  dl_list_empty (Some L1) = false → dl_list_empty (Some L2) = false →
  tail L1 = Some p1 → head L2 = Some p2 →
  ∃ h, dl_list_append_list σ (Some L1) (Some L2)
       = Ret (true, Store h (destroyed σ), Some (with_tail (tail L2) L1)) ∧
       dseg h None ((m ++ [(p1, v1)]) ++ (p2, v2) :: k) None.
Proof.
  intros H1 H2 Hnd E1 E2 Ht Hh. unfold dl_list_append_list. rewrite E1, E2, Ht, Hh.
  pose proof H1 as [_ [Hp1 _]]%dseg_app. pose proof H2 as [Hp2 _].
  apply NoDup_zipper in Hnd as (Hn1 & Hn2 & Hp2m & Hp2k & Hd). cbn [fst] in *.
  rewrite locs_app in Hn1, Hp2m, Hd. apply NoDup_app in Hn1 as (Hn1 & Hx & _).
  assert (p1 ∉ locs m) as Hp1m by (intros Hin; apply (Hx _ Hin); by left).
  apply not_elem_of_app in Hp2m as [Hp2m Hne]. apply not_elem_of_cons in Hne as [Hne _].
  cbn [fst] in Hne.
  assert (p1 ∉ locs k) as Hp1k by (apply Hd, elem_of_app; right; by left).
  erewrite set_node_Some by exact Hp1. cbn [mbind outcome_bind].
  apply (dseg_set_next _ _ _ _ _ _ (Some p2)) in H1; [|done].
  eapply (dseg_other _ _ _ _ p1) in H2; [|by apply not_elem_of_cons].
  pose proof H2 as [Hp2' _]. erewrite set_node_Some by exact Hp2'. cbn [mbind outcome_bind].
  eexists. split; [done|]. apply dseg_app. cbn [first_of nodes]. split.
  - apply dseg_other; [exact H1|]. rewrite locs_app. apply not_elem_of_app. split; [done|].
    by apply not_elem_of_cons; split; [|apply not_elem_of_nil].
  - rewrite last_of_snoc. by eapply dseg_set_prev.
Qed.

Lemma append_list_rep σ L1 L2 l1 e1 r1 l2 e2 r2 :
  rep (nodes σ) L1 (Some (l1, e1, r1)) → rep (nodes σ) L2 (Some (l2, e2, r2)) →
  NoDup (locs ((l1 ++ e1 :: r1) ++ l2 ++ e2 :: r2)) →
  ∃ σ' L', dl_list_append_list σ (Some L1) (Some L2) = Ret (true, σ', Some L') ∧
    rep (nodes σ') L' (Some (l1, e1, r1 ++ l2 ++ e2 :: r2)).
Proof.
  intros HR1 HR2 Hnd. pose proof (rep_nonempty _ _ _ _ _ HR1) as E1.
  pose proof (rep_nonempty _ _ _ _ _ HR2) as E2.
  destruct HR1 as (_ & Hs1 & Hh1 & Ht1 & Hc1), HR2 as (_ & Hs2 & Hh2 & Ht2 & _).
  assert (first_of (l1 ++ e1 :: r1 ++ l2 ++ e2 :: r2) None = first_of (l1 ++ e1 :: r1) None) as Hf.
  { rewrite !first_of_app. by destruct e1. }
  rewrite app_comm_cons, app_assoc in Hf. unfold rep. rewrite app_comm_cons, app_assoc.
  destruct (l2 ++ e2 :: r2) as [|[p2 v2] k] eqn:Ek; [by destruct l2|].
  destruct (exists_last (l:=l1 ++ e1 :: r1)) as (m & [p1 v1] & Em); [by destruct l1|].
  rewrite Em in *. rewrite last_of_snoc in Ht1.
  destruct (append_list_nodes σ L1 L2 _ _ _ _ _ _ Hs1 Hs2 Hnd E1 E2 Ht1 Hh2) as (h & -> & Hs).
  do 2 eexists. split; [done|]. split_and!; try done; simpl; [congruence|].
  by rewrite Ht2, last_of_app, !last_of_cons.
Qed.

(** ** The list as an abstract data type *)

(** The calls a client makes on a list, and the same calls on the cursor list
    of its values. *)
Inductive op :=
| OFirst | OLast | ONext | OPrev | ODelete
| OInsert (v : option V) | OInsertBefore (v : option V)
| OAppend (v : option V) | OPrepend (v : option V).

Definition call σ (list : option dl_list) (o : op) : outcome (bool * store * option dl_list) :=
  match o with
  | OFirst => let '(s, list) := dl_list_first list in Ret (s, σ, list)
  | OLast => let '(s, list) := dl_list_last list in Ret (s, σ, list)
  | ONext => '(s, list) ← dl_list_next σ list; Ret (s, σ, list)
  | OPrev => '(s, list) ← dl_list_prev σ list; Ret (s, σ, list)
  | ODelete => dl_list_delete σ list
  | OInsert v => dl_list_insert σ list v
  | OInsertBefore v => dl_list_insert_before σ list v
  | OAppend v => dl_list_append σ list v
  | OPrepend v => dl_list_prepend σ list v
  end.

Definition spec_call (c : cursor (option V)) (o : op) : bool * cursor (option V) :=
  match o with
  | OFirst => (match c with None => false | _ => true end, z_first c)
  | OLast => (match c with None => false | _ => true end, z_last c)
  | ONext => (match c with Some (_, _, _ :: _) => true | _ => false end, z_next c)
  | OPrev => (match c with Some (_ :: _, _, _) => true | _ => false end, z_prev c)
  | ODelete => (match c with None => false | _ => true end, z_delete c)
  | OInsert v => (true, z_insert v c)
  | OInsertBefore v => (true, z_insert_before v c)
  | OAppend v => (true, z_append v c)
  | OPrepend v => (true, z_prepend v c)
  end.

Definition value_of (c : cursor (option V)) : option V :=
  match c with None => None | Some (_, v, _) => v end.

(** After each call the client sees its status, the current value and whether
    the list is empty. *)
Fixpoint calls σ (list : option dl_list) (os : Datatypes.list op) :
    outcome (Datatypes.list (bool * option V * bool) * store * option dl_list) :=
  match os with
  | [] => Ret ([], σ, list)
  | o :: os =>
      '(s, σ, list) ← call σ list o;
      v ← dl_list_value σ list;
      let e := dl_list_empty list in
      '(obs, σ, list) ← calls σ list os;
      Ret ((s, v, e) :: obs, σ, list)
  end.
Fixpoint spec_calls (c : cursor (option V)) (os : Datatypes.list op) :
    Datatypes.list (bool * option V * bool) * cursor (option V) :=
  match os with
  | [] => ([], c)
  | o :: os =>
      let '(s, c) := spec_call c o in
      let '(obs, c') := spec_calls c os in
      ((s, value_of c, match c with None => true | _ => false end) :: obs, c')
  end.

Section Refinement.
Context (malloc_fresh : ∀ h, ∃ q, malloc h = Some q ∧ h !! q = None).

Definition vals (z : zipper) : cursor (option V) := z_map snd z.

Lemma elems_vals z : elems (vals z) = (elems z).*2.
Proof. destruct z as [[[l e] r]|]; [|done]. simpl. by rewrite fmap_app. Qed.

Lemma call_rep σ L z o :
  rep (nodes σ) L z →
  ∃ σ' L' z', call σ (Some L) o = Ret ((spec_call (vals z) o).1, σ', Some L') ∧
    rep (nodes σ') L' z' ∧ vals z' = (spec_call (vals z) o).2.
Proof using malloc_fresh.
  intros HR. destruct (malloc_fresh (nodes σ)) as (q & Hm & Hq).
  destruct o as [| | | | |v|v|v|v]; cbn [call spec_call fst snd].
  - destruct (first_rep _ _ _ HR) as (L' & E & HR' & _). rewrite E.
    do 3 eexists. split; [|split; [exact HR'|]].
    + destruct z as [[[l e] r]|]; done.
    + destruct z as [[[l e] r]|]; [|done]. unfold z_first. destruct l; simpl; by rewrite ?fmap_app.
  - destruct (last_rep _ _ _ HR) as (L' & E & HR' & _). rewrite E.
    do 3 eexists. split; [|split; [exact HR'|]].
    + destruct z as [[[l e] r]|]; done.
    + destruct z as [[[l e] r]|]; [|done]. simpl. rewrite <-fmap_reverse.
      destruct (reverse r) as [|x r']; [done|]. simpl.
      by rewrite fmap_app, fmap_cons, fmap_reverse.
  - destruct (next_rep _ _ _ HR) as (L' & E & HR' & _). rewrite E. cbn [mbind outcome_bind].
    do 3 eexists. split; [|split; [exact HR'|]].
    + destruct z as [[[l e] [|]]|]; done.
    + destruct z as [[[l e] [|]]|]; simpl; try done. by rewrite fmap_app.
  - destruct (prev_rep _ _ _ HR) as (L' & E & HR' & _). rewrite E. cbn [mbind outcome_bind].
    do 3 eexists. split; [|split; [exact HR'|]].
    + destruct z as [[[[|] e] r]|]; done.
    + destruct z as [[[l e] r]|]; [|done]. simpl. rewrite <-fmap_reverse.
      destruct (reverse l) as [|x l']; [done|]. simpl. by rewrite fmap_reverse.
  - destruct z as [[[l [p v]] r]|].
    + destruct (delete_rep _ _ _ _ _ _ HR) as (σ' & L' & E & HR' & _). rewrite E.
      do 3 eexists. split; [done|]. split; [exact HR'|]. simpl. destruct r; [|done].
      rewrite <-fmap_reverse. destruct (reverse l) as [|x l']; [done|]. simpl.
      by rewrite fmap_reverse.
    + destruct HR as (Hh & Ht & Hc). unfold dl_list_delete. rewrite Hc. by exists σ, L, None.
  - destruct (insert_rep _ _ _ v _ HR Hm Hq) as (σ' & L' & E & HR' & _). rewrite E.
    do 3 eexists. split; [done|]. split; [exact HR'|]. by destruct z as [[[l e] r]|].
  - destruct (insert_before_rep _ _ _ v _ HR Hm Hq) as (σ' & L' & E & HR' & _). rewrite E.
    do 3 eexists. split; [done|]. split; [exact HR'|].
    destruct z as [[[l e] r]|]; [|done]. simpl. by rewrite fmap_app.
  - destruct (append_rep _ _ _ v _ HR Hm Hq) as (σ' & L' & E & HR' & _). rewrite E.
    do 3 eexists. split; [done|]. split; [exact HR'|].
    destruct z as [[[l e] r]|]; [|done]. simpl. by rewrite fmap_app.
  - destruct (prepend_rep _ _ _ v _ HR Hm Hq) as (σ' & L' & E & HR' & _). rewrite E.
    do 3 eexists. split; [done|]. split; [exact HR'|]. by destruct z as [[[l e] r]|].
Qed.

Lemma calls_rep os : ∀ σ L z,
  rep (nodes σ) L z →
  ∃ σ' L' z', calls σ (Some L) os = Ret ((spec_calls (vals z) os).1, σ', Some L') ∧
    rep (nodes σ') L' z' ∧ vals z' = (spec_calls (vals z) os).2.
Proof using malloc_fresh.
  induction os as [|o os IH]; intros σ L z HR; cbn [calls spec_calls]; [by exists σ, L, z|].
  destruct (call_rep _ _ _ o HR) as (σ1 & L1 & z1 & -> & HR1 & E1).
  destruct (IH _ _ _ HR1) as (σ2 & L2 & z2 & E2 & HR2 & E3).
  destruct (spec_call (vals z) o) as [s c]. cbn [fst snd] in *. subst c.
  cbn [mbind outcome_bind]. rewrite (value_rep _ _ _ HR1). cbn [mbind outcome_bind]. rewrite E2.
  cbn [mbind outcome_bind]. destruct (spec_calls (vals z1) os) as [obs c'].
  exists σ2, L2, z2. split; [|done].
  destruct z1 as [[[l e] r]|].
  - by rewrite (rep_nonempty _ _ _ _ _ HR1).
  - by rewrite (rep_empty _ _ HR1).
Qed.
End Refinement.

End DlList.

Arguments dl_list_default _ _ : assert.

(** ** Properties *)

(** C35: the pointer program of dl_list.c implements a list with a cursor.  From
    any store that represents a cursor list [z], any sequence of calls of
    first, last, next, prev, delete, insert, insert_before, append and prepend
    runs without following a null or freed pointer, and the statuses, current
    values and emptiness tests that a client observes after each call are those
    of the same sequence on the cursor list of the values; the final store
    again represents the final cursor list (so the links are again doubly
    consistent). *)
Theorem dl_list_refines {V} (malloc : gmap loc (dl_node (V:=V)) → option loc) os σ L z :
  (∀ h, ∃ q, malloc h = Some q ∧ h !! q = None) →
  rep (nodes σ) L z →
  ∃ σ' L' z',
    calls malloc σ (Some L) os = Ret ((spec_calls (vals z) os).1, σ', Some L') ∧
    rep (nodes σ') L' z' ∧ vals z' = (spec_calls (vals z) os).2.
Proof. intros Hm HR. by apply calls_rep. Qed.

(** a store that never runs out of memory *)
Definition ample_malloc {V} (h : gmap loc (dl_node (V:=V))) : option loc := Some (fresh (dom h)).

Lemma ample_malloc_fresh {V} (h : gmap loc (dl_node (V:=V))) :
  ∃ q, ample_malloc h = Some q ∧ h !! q = None.
Proof.
  exists (fresh (dom h)). split; [done|]. apply not_elem_of_dom. apply is_fresh.
Qed.

Definition empty_store {V} : store (V:=V) := Store ∅ [].
Definition empty_list : dl_list := DlListCB None None None true.

Lemma dl_list_refines_witness :
  let os := [OAppend (Some 1%Z); OAppend (Some 2%Z); OPrepend (Some 0%Z); OFirst;
             OInsert (Some 7%Z); ONext; ODelete; OLast; OPrev; OInsertBefore None; ODelete] in
  ∃ σ' L' z',
    calls ample_malloc empty_store (Some empty_list) os
    = Ret ((spec_calls None os).1, σ', Some L') ∧
    rep (nodes σ') L' z' ∧ vals z' = (spec_calls None os).2.
Proof.
  apply (dl_list_refines ample_malloc _ empty_store empty_list None).
  - apply ample_malloc_fresh.
  - done.
Defined.

(** Dl_list_destroy ends, hands every datum of the list to destroy_data
    exactly once and in list order, frees every node of the list and no other,
    and leaves an empty control block (freed when destroy_head_flag is set).
    The cursor may stand anywhere. *)
Theorem dl_list_destroy_correct {V} (σ : store (V:=V)) L z :
  rep (nodes σ) L z →
  ∃ σ' L', dl_list_destroy σ (Some L)
           = Ret (true, σ', if destroy_head_flag L then None else Some L') ∧
    rep (nodes σ') L' None ∧
    destroyed σ' = destroyed σ ++ data_of (elems z) ∧
    (∀ p, nodes σ' !! p = if decide (p ∈ locs (elems z)) then None else nodes σ !! p).
Proof.
  intros HR. unfold dl_list_destroy. destruct z as [[[l e] r]|].
  - rewrite (rep_nonempty _ _ _ _ _ HR). pose proof (elems_first (Some (l, e, r))) as He.
    pose proof (rep_size _ _ _ HR) as Hsz.
    destruct (first_rep _ _ _ HR) as (L1 & -> & HR1 & F1). rewrite <-He in *.
    assert (∃ p v k, z_first (Some (l, e, r)) = Some ([], (p, v), k)) as (p & v & k & Ez).
    { unfold z_first. destruct e, l as [|[]]; simpl; eauto. }
    rewrite Ez in *. cbn [elems app length] in *.
    destruct (destroy_loop_rep k p v σ L1 (S (size (nodes σ))) HR1)
      as (σ2 & L2 & -> & ? & F2 & ? & ?); [lia|].
    cbn [mbind outcome_bind]. rewrite <-F1, <-F2. by exists σ2, L2.
  - rewrite (rep_empty _ _ HR). exists σ, L. split_and!; try done. by rewrite app_nil_r.
Qed.

Lemma dl_list_destroy_correct_witness :
  let L := DlListCB (Some 3%positive) (Some 5%positive) (Some 5%positive) true in
  let h := {[ 3%positive := DlNode (Some 5%positive) None (Some 10%Z);
              5%positive := DlNode None (Some 3%positive) (Some 20%Z);
              9%positive := DlNode None None None ]} in
  ∃ σ' L', dl_list_destroy (Store h []) (Some L) = Ret (true, σ', None) ∧
    rep (nodes σ') L' None ∧ destroyed σ' = [10; 20]%Z ∧
    (∀ p, nodes σ' !! p = if decide (p ∈ [3; 5]%positive) then None else h !! p).
Proof.
  intros L h.
  apply (dl_list_destroy_correct (Store h []) L
           (Some ([(3%positive, Some 10%Z)], (5%positive, Some 20%Z), []))).
  split; [apply (bool_decide_unpack _); vm_compute; exact I|].
  vm_compute. by repeat split.
Defined.

(** Dl_list_append_list puts the nodes of the second list behind those of
    the first one, which keeps its cursor.  When the first list is empty its
    control block becomes a copy of the second one, so that both lists share
    the same nodes; when the second list is empty nothing changes. *)
Theorem dl_list_append_list_correct {V} (σ : store (V:=V)) L1 L2 z1 z2 :
  rep (nodes σ) L1 z1 → rep (nodes σ) L2 z2 → NoDup (locs (elems z1 ++ elems z2)) →
  ∃ σ' L', dl_list_append_list σ (Some L1) (Some L2) = Ret (true, σ', Some L') ∧
    rep (nodes σ') L'
      match z1, z2 with
      | Some (l, e, r), _ => Some (l, e, r ++ elems z2)
      | None, _ => z2
      end ∧
    (z1 = None → z2 ≠ None → L' = L2) ∧ (z2 = None → σ' = σ ∧ L' = L1).
Proof.
  intros HR1 HR2 Hnd. destruct z2 as [[[l2 e2] r2]|].
  - destruct z1 as [[[l1 e1] r1]|].
    + destruct (append_list_rep _ _ _ _ _ _ _ _ _ HR1 HR2 Hnd) as (σ' & L' & -> & HR).
      by exists σ', L'.
    + unfold dl_list_append_list. rewrite (rep_nonempty _ _ _ _ _ HR2), (rep_empty _ _ HR1).
      by exists σ, L2.
  - unfold dl_list_append_list. rewrite (rep_empty _ _ HR2). exists σ, L1.
    split_and!; try done. destruct z1 as [[[l1 e1] r1]|]; [|done]. by rewrite app_nil_r.
Qed.

Lemma dl_list_append_list_correct_witness :
  let L1 := DlListCB (Some 1%positive) (Some 1%positive) (Some 1%positive) false in
  let L2 := DlListCB (Some 2%positive) (Some 2%positive) (Some 2%positive) false in
  let h := {[ 1%positive := DlNode None None (Some 10%Z);
              2%positive := DlNode None None (Some 20%Z) ]} in
  ∃ σ' L', dl_list_append_list (Store h []) (Some L1) (Some L2) = Ret (true, σ', Some L') ∧
    rep (nodes σ') L' (Some ([], (1%positive, Some 10%Z), [(2%positive, Some 20%Z)])).
Proof.
  intros L1 L2 h.
  destruct (dl_list_append_list_correct (Store h []) L1 L2
              (Some ([], (1%positive, Some 10%Z), [])) (Some ([], (2%positive, Some 20%Z), [])))
    as (σ' & L' & E & HR & _).
  - split; [apply (bool_decide_unpack _); vm_compute; exact I|].
    vm_compute. by repeat split.
  - split; [apply (bool_decide_unpack _); vm_compute; exact I|].
    vm_compute. by repeat split.
  - apply (bool_decide_unpack _). vm_compute. exact I.
  - exists σ', L'. by split.
Defined.

(** When malloc fails, dl_list_append and dl_list_prepend insert nothing
    and leave the list as it was, but report success, unlike dl_list_insert. *)
Theorem append_without_memory {V} (σ : store (V:=V)) L z v :
  rep (nodes σ) L z →
  dl_list_append (λ _, None) σ (Some L) v = Ret (true, σ, Some L) ∧
  dl_list_prepend (λ _, None) σ (Some L) v = Ret (true, σ, Some L) ∧
  dl_list_insert (λ _, None) σ (Some L) v = Ret (false, σ, Some L).
Proof.
  intros HR. unfold dl_list_append, dl_list_prepend, dl_list_insert_before, dl_list_insert,
    create_new_node. destruct (dl_list_empty (Some L)) eqn:E; [done|].
  unfold dl_list_last, dl_list_first. split_and!; [| |done].
  - destruct (tail L); by destruct L.
  - destruct (head L); by destruct L.
Qed.

Lemma append_without_memory_witness :
  dl_list_append (λ _, None) empty_store (Some empty_list) (Some 1%Z)
  = Ret (true, empty_store, Some empty_list) ∧
  dl_list_prepend (λ _, None) empty_store (Some empty_list) (Some 1%Z)
  = Ret (true, empty_store, Some empty_list) ∧
  dl_list_insert (λ _, None) empty_store (Some empty_list) (Some 1%Z)
  = Ret (false, empty_store, Some empty_list).
Proof. by apply (append_without_memory empty_store empty_list None). Defined.

End DL.
