(* ===== verification/IpNetwork.v ===== *)
(** * IP networks (common/ip_network.c)

    Parsing, masking, comparing and printing addresses with a prefix length.
    The code is compiled with HAVE_IPV6.  inet_pton and the %d conversion of
    sscanf are those of the C library; the regular expressions are matched by
    the function [regexec], an argument: [re_match] of RegexpMatch.v. *)

From S2P Require Import Prelude CLib Misc.

(** ** inet_pton and sscanf *)

(** The automaton of inet_pton for AF_INET: the finished octets and the one
    being read, [None] before its first digit. *)
Fixpoint inet_pton4_loop (s : cstr) (octets : list Z) (tp : option Z) : option (list Z) :=
  match s with
  | [] =>
      match tp with
      | Some v => if decide (length octets = 3%nat) then Some (octets ++ [v]) else None
      | None => None
      end
  | ch :: s =>
      if isdigit ch then
        match tp with
        | Some v =>
            if (v =? 0)%Z then None
            else if (255 <? v * 10 + (code ch - 48))%Z then None
            else inet_pton4_loop s octets (Some (v * 10 + (code ch - 48))%Z)
        | None =>
            if decide (4 ≤ length octets)%nat then None
            else inet_pton4_loop s octets (Some (code ch - 48)%Z)
        end
      else if ch =c chr 46 then
        match tp with
        | Some v =>
            if decide (length octets = 3%nat) then None
            else inet_pton4_loop s (octets ++ [v]) None
        | None => None
        end
      else None
  end.
Definition inet_pton4 (s : cstr) : option (list Z) := inet_pton4_loop s [] None.

Definition xdigit (c : ascii) : option Z :=
  if isdigit c then Some (code c - 48)%Z
  else if (97 <=? code c)%Z && (code c <=? 102)%Z then Some (code c - 87)%Z
  else if (65 <=? code c)%Z && (code c <=? 70)%Z then Some (code c - 55)%Z
  else None.

(** The bytes stored so far, the place of the double colon, the number being
    read with its count of digits, and the start of the current token. *)
Definition pton6_finish (bytes : list Z) (colonp : option nat) : option (list Z) :=
  match colonp with
  | Some n =>
      if decide (16 ≤ length bytes)%nat then None
      else Some (take n bytes ++ replicate (16 - length bytes) 0%Z ++ drop n bytes)
  | None => if decide (length bytes = 16%nat) then Some bytes else None
  end.
Definition pton6_store (bytes : list Z) (val : Z) : option (list Z) :=
  if decide (16 < length bytes + 2)%nat then None
  else Some (bytes ++ [Z.shiftr val 8; Z.land val 255]).

Fixpoint inet_pton6_loop (s curtok : cstr) (bytes : list Z) (colonp : option nat)
    (xdigits : nat) (val : Z) : option (list Z) :=
  match s with
  | [] =>
      if decide (xdigits = 0%nat) then pton6_finish bytes colonp
      else bytes ← pton6_store bytes val; pton6_finish bytes colonp
  | ch :: s =>
      match xdigit ch with
      | Some d =>
          if decide (xdigits = 4%nat) then None
          else inet_pton6_loop s curtok bytes colonp (S xdigits) (Z.lor (Z.shiftl val 4) d)
      | None =>
          if ch =c chr 58 then
            if decide (xdigits = 0%nat) then
              match colonp with
              | Some _ => None
              | None => inet_pton6_loop s s bytes (Some (length bytes)) 0 0
              end
            else
              match s with
              | [] => None
              | _ => bytes ← pton6_store bytes val; inet_pton6_loop s s bytes colonp 0 0
              end
          else if (ch =c chr 46) && bool_decide (length bytes + 4 ≤ 16)%nat then
            v4 ← inet_pton4 curtok; pton6_finish (bytes ++ v4) colonp
          else None
      end
  end.
Definition inet_pton6 (s : cstr) : option (list Z) :=
  match s with
  | [] => None
  | c :: s' =>
      if c =c chr 58 then
        match s' with
        | c' :: _ => if c' =c chr 58 then inet_pton6_loop s' s' [] None 0 0 else None
        | [] => None
        end
      else inet_pton6_loop s s [] None 0 0
  end.

(** %d of sscanf: white space, a sign, at least one digit *)
Definition scan_d (s : cstr) : option (Z * cstr) :=
  let s := dropwhile isspace s in
  let body := match s with
              | c :: s' => if (c =c chr 45) || (c =c chr 43) then s' else s
              | [] => s
              end in
  match body with
  | c :: _ => if isdigit c then Some (atoi s, dropwhile isdigit body) else None
  | [] => None
  end.

(** the numbers that sscanf reads with the format %d.%d.%d.%d *)
Fixpoint scan_dotted (k : nat) (s : cstr) : list Z :=
  match k with
  | O => []
  | S k =>
      match scan_d s with
      | None => []
      | Some (v, rest) =>
          v :: match rest with
               | c :: rest => if c =c chr 46 then scan_dotted k rest else []
               | [] => []
               end
      end
  end.

(** printf with %03hu and %02x *)
Definition pad (n : nat) (s : cstr) : cstr := replicate (n - length s) (chr 48) ++ s.
Definition hexdigit (d : Z) : ascii := if (d <? 10)%Z then chr (48 + d) else chr (87 + d).
Definition print_02x (z : Z) : cstr := [hexdigit (z / 16); hexdigit (z mod 16)].
Definition print_03u (z : Z) : cstr := pad 3 (print_nat z).

(** ** Data *)

Definition AF_INET : Z := 2.
Definition AF_INET6 : Z := 10.
Definition MAX_LINE : nat := 512.

Record netinfo := NetInfo { af : Z; masklen : Z; prefix : list Z }.

Definition numbytes (ni : netinfo) : nat := if (af ni =? AF_INET)%Z then 4 else 16.

(** ** Operations *)

Definition clean_ipv4_addr (str : cstr) : cstr :=
  if bool_decide (strchr str (chr 46) = None) || bool_decide (strchr str (chr 58) ≠ None)
  then str
  else
    let o := scan_dotted 4 str in
    if existsb (λ v, (v <? 0) || (255 <? v))%Z o then str
    else if bool_decide (2 ≤ length o)%nat then join (chr 46) (print_Z <$> o)
    else str.

(** 0 is success; a converted address overwrites the first bytes of the
    prefix *)
Definition addrstring_to_ni (addstr : cstr) (ni : netinfo) : Z * netinfo :=
  let addstr := clean_ipv4_addr addstr in
  match inet_pton4 addstr with
  | Some bytes => (0%Z, NetInfo AF_INET 32 (bytes ++ drop 4 (prefix ni)))
  | None =>
      match inet_pton6 addstr with
      | Some bytes => (0%Z, NetInfo AF_INET6 128 bytes)
      | None => ((-1)%Z, ni)
      end
  end.

(** the loop of mask_addr_to_len; bytes are of type uint8_t *)
Fixpoint mask_bytes (bytes : list Z) (len : Z) : list Z :=
  match bytes with
  | [] => []
  | b :: bytes =>
      (if (len <=? 0)%Z then 0
       else if (len <? 8)%Z then (Z.land b (Z.shiftl 255 (8 - len)) mod 256)%Z
       else b)%Z
      :: mask_bytes bytes (len - 8)
  end.
Definition mask_addr_to_len (ni : netinfo) (len : Z) : netinfo :=
  let n := numbytes ni in
  if (Z.of_nat n * 8 =? len)%Z then ni
  else NetInfo (af ni) (masklen ni) (mask_bytes (take n (prefix ni)) len ++ drop n (prefix ni)).

Fixpoint compare_bytes (a b : list Z) : Z :=
  match a, b with
  | x :: a, y :: b => if (x <? y)%Z then -1 else if (y <? x)%Z then 1 else compare_bytes a b
  | _, _ => 0
  end.
Definition compare_addr (a b : netinfo) : Z :=
  if (af a =? af b)%Z
  then compare_bytes (take (numbytes a) (prefix a)) (take (numbytes a) (prefix b))
  else -2.

Section Regexp.
Context (regexec : cstr → cstr → bool).
Definition NETWORK_REGEXP : cstr := $"^[a-fA-F0-9]+([.:][a-fA-F0-9]*)*(/[0-9]+)?$".
Definition STRICT_CIDR_NET_REGEXP : cstr := $"^[0-9]+.[0-9]+.[0-9]+.[0-9]/[0-9]+".

Definition is_network_valid_for_searching (value : cstr) : bool := regexec NETWORK_REGEXP value.
Definition is_cidr_network (value : cstr) : bool := regexec STRICT_CIDR_NET_REGEXP value.
End Regexp.

(** the four bytes read as a uint32_t by the machine *)
Definition load32 (big_endian : bool) (bytes : list Z) : Z :=
  let bytes := take 4 bytes in
  foldl (λ v b, v * 256 + b)%Z 0%Z (if big_endian then bytes else reverse bytes).

Definition byte_at (l : list Z) (i : nat) : Z := l !!! i.

Definition determine_network_len_from_policy (big_endian : bool) (addr : netinfo) : Z :=
  if negb (af addr =? AF_INET)%Z then -1
  else
    let b0 := byte_at (prefix addr) 0 in
    let len := (if b0 <? 128 then 8 else if b0 <? 192 then 16 else if b0 <? 224 then 24 else 32)%Z in
    let p := load32 big_endian (prefix addr) in
    if negb (Z.land p (Z.shiftl 4294967295 (32 - len) mod 2 ^ 32) =? p)%Z then 32 else len.

(** [for (i = 3; i >= 0; i--)], with [i + 1] iterations left *)
Fixpoint octets_loop (i : nat) (bytes : list Z) (len : Z) : Z :=
  match i with
  | O => len
  | S i => if (0 <? byte_at bytes i)%Z then len else octets_loop i bytes (len - 8)
  end.
Definition determine_network_len_from_octets (addr : netinfo) : Z :=
  if negb (af addr =? AF_INET)%Z then -1 else octets_loop 4 (prefix addr) 32.

(** [None]: FALSE; the netinfo is then of no use to the callers *)
Definition get_network_prefix_and_len (str : option cstr) (ni : netinfo) : option netinfo :=
  match str with
  | Some ((_ :: _) as s) =>
      let '(buf, len) := match strrchr s (chr 47) with
                         | Some p => (take p s, atoi (drop (S p) s))
                         | None => (s, (-1)%Z)
                         end in
      let '(st, ni) := addrstring_to_ni buf ni in
      if negb (st =? 0)%Z then None
      else
        let maxlength := (if af ni =? AF_INET then 32 else 128)%Z in
        if (0 <=? len)%Z then
          if (maxlength <? len)%Z then None
          else
            let ni := NetInfo (af ni) len (prefix ni) in Some (mask_addr_to_len ni (masklen ni))
        else
          let ni := NetInfo (af ni) maxlength (prefix ni) in Some (mask_addr_to_len ni (masklen ni))
  | _ => None
  end.

Definition is_network_valid_for_index (regexec : cstr → cstr → bool) (ni : netinfo) (line : cstr) :
    bool :=
  regexec NETWORK_REGEXP line && bool_decide (is_Some (get_network_prefix_and_len (Some line) ni)).

(** the text that the sprintf calls of ni_to_addrstring produce *)
Fixpoint print_groups (i : nat) (bytes : list Z) : cstr :=
  match bytes with
  | [] => []
  | b :: bytes =>
      print_02x b
      ++ (if bool_decide (S i mod 2 = 0)%nat && bool_decide (S i < 16)%nat then [chr 58] else [])
      ++ print_groups (S i) bytes
  end.
Definition addrstring (ni : netinfo) : option cstr :=
  if (af ni =? AF_INET)%Z then Some (join (chr 46) (print_03u <$> take 4 (prefix ni)))
  else if (af ni =? AF_INET6)%Z then Some (print_groups 0 (take 16 (prefix ni)))
  else None.

(** writing a string with its NUL at the start of a buffer *)
Definition put_str (b : buf) (s : cstr) : outcome buf :=
  if decide (length s < length b)%nat then Ret (s ++ NUL :: drop (S (length s)) b) else Fault.

(** [str] is a buffer of the caller, [str_len] what the caller says it holds *)
Definition ni_to_addrstring (ni : netinfo) (str : buf) (str_len : Z) : outcome (option buf) :=
  match addrstring ni with
  | None => Ret None
  | Some s =>
      if (str_len <? (if af ni =? AF_INET then 15 else 39))%Z then Ret None
      else b ← put_str str s; Ret (Some b)
  end.

Definition natop (ni : netinfo) : outcome (option cstr) :=
  r ← ni_to_addrstring ni (replicate MAX_LINE NUL) (Z.of_nat MAX_LINE);
  Ret (option_map (λ b, string_at b 0) r).

(** [sprintf] of the network to [str]; a null [natop] would be an invalid %s
    argument *)
Definition write_network (str : option buf) (ni : netinfo) : outcome (bool * option buf) :=
  match str with
  | None => Ret (false, None)
  | Some b =>
      a ← natop ni;
      match a with
      | None => Fault
      | Some s => b ← put_str b (s ++ chr 47 :: print_Z (masklen ni)); Ret (true, Some b)
      end
  end.

(** ** Addresses as numbers *)
Local Open Scope Z_scope.

Definition is_byte (b : Z) : Prop := 0 ≤ b < 256.
#[export] Instance is_byte_dec b : Decision (is_byte b).
Proof. unfold is_byte. apply _. Defined.
Definition bytes_ok (l : list Z) : Prop := Forall is_byte l.
#[export] Instance bytes_ok_dec l : Decision (bytes_ok l).
Proof. unfold bytes_ok. apply _. Defined.

(** a netinfo that addrstring_to_ni can have filled *)
Definition ni_ok (ni : netinfo) : Prop :=
  (af ni = AF_INET ∨ af ni = AF_INET6) ∧ length (prefix ni) = 16%nat ∧ bytes_ok (prefix ni).
#[export] Instance ni_ok_dec ni : Decision (ni_ok ni).
Proof. unfold ni_ok, bytes_ok, is_byte. apply _. Defined.

Definition addr_bytes (ni : netinfo) : list Z := take (numbytes ni) (prefix ni).
Definition bits (ni : netinfo) : Z := 8 * Z.of_nat (numbytes ni).

(** the big endian value *)
Fixpoint be_val (l : list Z) : Z :=
  match l with [] => 0 | b :: l => b * 2 ^ (8 * Z.of_nat (length l)) + be_val l end.
Definition addr_val (ni : netinfo) : Z := be_val (addr_bytes ni).

Lemma be_val_range l : bytes_ok l → 0 ≤ be_val l < 2 ^ (8 * Z.of_nat (length l)).
Proof.
  induction 1 as [|b l [Hb1 Hb2] _ IH]; simpl length; [done|]. cbn [be_val].
  replace (8 * Z.of_nat (S (length l))) with (8 + 8 * Z.of_nat (length l)) by lia.
  rewrite Z.pow_add_r by lia. change (2 ^ 8) with 256. nia.
Qed.

Lemma addr_bytes_ok ni : ni_ok ni → bytes_ok (addr_bytes ni) ∧ length (addr_bytes ni) = numbytes ni.
Proof.
  intros (_ & Hl & Hb). split; [by apply Forall_take|]. unfold addr_bytes.
  rewrite length_take, Hl. unfold numbytes. destruct (_ =? _); done.
Qed.

Lemma mask_bytes_length l len : length (mask_bytes l len) = length l.
Proof. revert len. induction l as [|b l IH]; intros len; simpl; [done|]. by rewrite IH. Qed.

Lemma mask_bytes_zero l len : len ≤ 0 → be_val (mask_bytes l len) = 0.
Proof.
  revert len. induction l as [|b l IH]; intros len H; [done|]. cbn [mask_bytes be_val].
  rewrite (proj2 (Z.leb_le len 0)) by lia. rewrite IH by lia. lia.
Qed.

Lemma land_high b k : is_byte b → 0 < k < 8 → Z.land b (Z.shiftl 255 k) mod 256 = b / 2 ^ k * 2 ^ k.
Proof.
  intros [H1 H2] Hk. pose proof (Z.div_mod b (2 ^ k)). pose proof (Z.mod_pos_bound b (2 ^ k)).
  assert (Z.land b (Z.shiftl 255 k) = b / 2 ^ k * 2 ^ k) as ->.
  { rewrite <-Z.shiftl_mul_pow2, <-Z.shiftr_div_pow2 by lia. apply Z.bits_inj'. intros i Hi.
    rewrite Z.land_spec, !Z.shiftl_spec by lia. destruct (Z.ltb_spec (i - k) 0).
    { rewrite !(Z.testbit_neg_r _ (i - k)) by lia. apply andb_false_r. }
    rewrite Z.shiftr_spec by lia. replace (i - k + k) with i by lia.
    change 255 with (Z.ones 8). destruct (Z.ltb_spec (i - k) 8).
    - rewrite Z.ones_spec_low by lia. apply andb_true_r.
    - rewrite (Z.bits_above_log2 b i); [done|lia|].
      destruct (decide (b = 0)) as [->|]; [simpl; lia|]. apply Z.log2_lt_pow2; [lia|].
      apply Z.lt_le_trans with (2 ^ 8); [simpl; lia|]. apply Z.pow_le_mono_r; lia. }
  apply Z.mod_small. assert (0 < 2 ^ k) by (apply Z.pow_pos_nonneg; lia).
  assert (0 ≤ b / 2 ^ k) by (apply Z.div_pos; lia). nia.
Qed.

(** masking keeps the [len] high bits *)
Lemma mask_bytes_val l len :
  bytes_ok l → 0 ≤ len ≤ 8 * Z.of_nat (length l) →
  be_val (mask_bytes l len) =
  be_val l / 2 ^ (8 * Z.of_nat (length l) - len) * 2 ^ (8 * Z.of_nat (length l) - len).
Proof.
  intros Hl. revert len. induction Hl as [|b l Hb Hl IH]; intros len Hlen.
  { simpl in *. by rewrite Z.div_0_l by (apply Z.pow_nonzero; lia). }
  cbn [mask_bytes be_val length] in *. rewrite mask_bytes_length.
  pose proof (be_val_range l Hl) as Hr. set (n := 8 * Z.of_nat (length l)) in *.
  assert (8 * Z.of_nat (S (length l)) = n + 8) as Hn by (subst n; lia). rewrite Hn in *.
  assert (0 ≤ n) by (subst n; lia). assert (0 < 2 ^ n) by (apply Z.pow_pos_nonneg; lia).
  destruct (Z.leb_spec len 0).
  - replace len with 0 in * by lia. rewrite mask_bytes_zero by lia. rewrite Z.div_small; [lia|].
    rewrite Z.sub_0_r, Z.pow_add_r by lia. destruct Hb. change (2 ^ 8) with 256. nia.
  - destruct (Z.ltb_spec len 8).
    + rewrite mask_bytes_zero, land_high by (done || lia).
      replace (n + 8 - len) with (n + (8 - len)) by lia. rewrite Z.pow_add_r by lia.
      rewrite <-Z.div_div by (lia || apply Z.pow_pos_nonneg; lia).
      rewrite Z.div_add_l, (Z.div_small (be_val l)) by lia. rewrite !Z.add_0_r. ring.
    + rewrite IH by lia. replace (n + 8 - len) with (n - (len - 8)) by lia.
      set (s := n - (len - 8)). assert (0 < 2 ^ s) by (apply Z.pow_pos_nonneg; lia).
      replace (2 ^ n) with (2 ^ (len - 8) * 2 ^ s)
        by (rewrite <-Z.pow_add_r by lia; f_equal; lia).
      rewrite Z.mul_assoc, Z.div_add_l by lia. ring.
Qed.

Lemma mask_bytes_full l len : 8 * Z.of_nat (length l) ≤ len → mask_bytes l len = l.
Proof.
  revert len. induction l as [|b l IH]; intros len H; [done|]. cbn [mask_bytes length] in *.
  rewrite (proj2 (Z.leb_gt len 0)), (proj2 (Z.ltb_ge len 8)) by lia. f_equal. apply IH. lia.
Qed.

Lemma mask_addr_bytes ni len :
  ni_ok ni → addr_bytes (mask_addr_to_len ni len) = mask_bytes (addr_bytes ni) len.
Proof.
  intros Hok. destruct (addr_bytes_ok _ Hok) as [_ Hl]. unfold mask_addr_to_len.
  destruct (Z.eqb_spec (Z.of_nat (numbytes ni) * 8) len).
  - rewrite mask_bytes_full; [done|lia].
  - unfold addr_bytes. cbn [prefix]. unfold numbytes at 1. cbn [af]. fold (numbytes ni).
    rewrite take_app_length'; [done|]. by rewrite mask_bytes_length.
Qed.

(** comparison *)
Lemma compare_bytes_val a b :
  bytes_ok a → bytes_ok b → length a = length b →
  compare_bytes a b = Z.sgn (be_val a - be_val b).
Proof.
  intros Ha. revert b. induction Ha as [|x a Hx Ha IH]; intros [|y b] Hb Hl; try done.
  apply Forall_cons in Hb as [Hy Hb]. simpl in Hl. cbn [compare_bytes be_val].
  pose proof (be_val_range a Ha). pose proof (be_val_range b Hb).
  assert (length a = length b) as E by lia. rewrite E in *.
  set (w := 2 ^ (8 * Z.of_nat (length b))) in *. destruct Hx, Hy.
  destruct (Z.ltb_spec x y); [symmetry; apply Z.sgn_neg; nia|].
  destruct (Z.ltb_spec y x); [symmetry; apply Z.sgn_pos; nia|].
  replace x with y by lia. rewrite IH by (done || lia). f_equal. lia.
Qed.

(** ** The canonical text of an address *)

(** what holds of all pairs of bytes can be checked *)
Definition all_bytes : list Z := Z.of_nat <$> seq 0 256.
Lemma elem_of_all_bytes b : is_byte b → b ∈ all_bytes.
Proof.
  intros [H1 H2]. apply list_elem_of_fmap. exists (Z.to_nat b).
  split; [lia|]. apply elem_of_seq. lia.
Qed.
Lemma bytes_check (P : Z → bool) b : is_byte b → forallb P all_bytes = true → P b = true.
Proof. intros Hb H. rewrite forallb_forall in H. apply H. by apply list_elem_of_In, elem_of_all_bytes. Qed.

(** an encoding of bytes to a fixed width that keeps their order *)
Class FixedWidth (enc : Z → cstr) (w : nat) : Prop := {
  fixed_width : ∀ b, is_byte b → length (enc b) = w;
  fixed_order : ∀ x y, is_byte x → is_byte y → strcmp (enc x) (enc y) = Z.sgn (x - y) }.

Definition check_fixed (enc : Z → cstr) (w : nat) : bool :=
  forallb (λ x, bool_decide (length (enc x) = w) &&
    forallb (λ y, strcmp (enc x) (enc y) =? Z.sgn (x - y)) all_bytes) all_bytes.

Lemma check_fixed_ok enc w : check_fixed enc w = true → FixedWidth enc w.
Proof.
  intros H. split.
  - intros b Hb. pose proof (bytes_check _ _ Hb H) as [Hw _]%andb_true_iff.
    by apply bool_decide_eq_true in Hw.
  - intros x y Hx Hy. pose proof (bytes_check _ _ Hx H) as [_ Ho]%andb_true_iff.
    by apply Z.eqb_eq, (bytes_check _ _ Hy Ho).
Qed.

#[export] Instance print_03u_fixed : FixedWidth print_03u 3.
Proof. apply check_fixed_ok. vm_compute. reflexivity. Qed.
#[export] Instance print_02x_fixed : FixedWidth print_02x 2.
Proof. apply check_fixed_ok. vm_compute. reflexivity. Qed.

Lemma fixed_strcmp enc w `{FixedWidth enc w} x y a b :
  is_byte x → is_byte y →
  strcmp (enc x ++ a) (enc y ++ b) =
  if x <? y then -1 else if y <? x then 1 else strcmp a b.
Proof.
  intros Hx Hy. pose proof (fixed_order (w:=w) _ _ Hx Hy) as Ho.
  assert (length (enc x) = length (enc y)) as Hl by (by rewrite !(fixed_width (w:=w))).
  destruct (decide (x = y)) as [->|Hne].
  { by rewrite strcmp_app_same, Z.ltb_irrefl. }
  rewrite strcmp_app_diff, Ho; [|done|].
  - destruct (Z.ltb_spec x y); [apply Z.sgn_neg; lia|].
    destruct (Z.ltb_spec y x); [apply Z.sgn_pos; lia|lia].
  - intros E. rewrite E, strcmp_refl in Ho. symmetry in Ho. apply Z.sgn_null_iff in Ho. lia.
Qed.

Lemma print_groups_order a : ∀ b i,
  bytes_ok a → bytes_ok b → length a = length b →
  strcmp (print_groups i a) (print_groups i b) = compare_bytes a b.
Proof.
  induction a as [|x a IH]; intros [|y b] i Ha Hb Hl; try done.
  apply Forall_cons in Ha as [Hx Ha]. apply Forall_cons in Hb as [Hy Hb].
  cbn [print_groups compare_bytes]. rewrite (fixed_strcmp print_02x 2) by done.
  destruct (x <? y), (y <? x); try done. rewrite strcmp_app_same. apply IH; auto.
Qed.

Lemma print_quad_order a b :
  bytes_ok a → bytes_ok b → length a = 4%nat → length b = 4%nat →
  strcmp (join (chr 46) (print_03u <$> a)) (join (chr 46) (print_03u <$> b)) = compare_bytes a b.
Proof.
  intros Ha Hb Hla Hlb.
  destruct a as [|a1 [|a2 [|a3 [|a4 [|]]]]], b as [|b1 [|b2 [|b3 [|b4 [|]]]]]; try done.
  unfold bytes_ok in *. rewrite !Forall_cons in Ha, Hb.
  destruct Ha as (?&?&?&?&_), Hb as (?&?&?&?&_).
  simpl fmap. cbn [join compare_bytes].
  rewrite (fixed_strcmp print_03u 3) by done. destruct (a1 <? b1), (b1 <? a1); try done. simpl.
  rewrite (fixed_strcmp print_03u 3) by done. destruct (a2 <? b2), (b2 <? a2); try done. simpl.
  rewrite (fixed_strcmp print_03u 3) by done. destruct (a3 <? b3), (b3 <? a3); try done. simpl.
  rewrite <-(app_nil_r (print_03u a4)), <-(app_nil_r (print_03u b4)).
  by rewrite (fixed_strcmp print_03u 3) by done.
Qed.

Lemma addrstring_Some ni :
  ni_ok ni →
  addrstring ni = Some (if af ni =? AF_INET then join (chr 46) (print_03u <$> addr_bytes ni)
                        else print_groups 0 (addr_bytes ni)).
Proof.
  intros ([E|E] & _); unfold addrstring, addr_bytes, numbytes; by rewrite E.
Qed.

(** The canonical text of an address, in which the index files are sorted
    and searched, keeps the numeric order: for two addresses of the same
    family, strcmp of the texts, compare_addr and the comparison of the
    addresses as big endian numbers agree. *)
Theorem addrstring_order a b sa sb :
  ni_ok a → ni_ok b → af a = af b → addrstring a = Some sa → addrstring b = Some sb →
  compare_addr a b = Z.sgn (addr_val a - addr_val b) ∧
  strcmp sa sb = compare_addr a b.
Proof.
  intros Ha Hb Haf Hsa Hsb. destruct (addr_bytes_ok _ Ha) as [Hba Hla], (addr_bytes_ok _ Hb) as [Hbb Hlb].
  assert (numbytes b = numbytes a) as Hn by (unfold numbytes; by rewrite Haf).
  rewrite addrstring_Some in Hsa, Hsb by done. simplify_eq.
  assert (compare_addr a b = compare_bytes (addr_bytes a) (addr_bytes b)) as ->.
  { unfold compare_addr, addr_bytes. by rewrite Haf, Z.eqb_refl, Hn. }
  split; [apply compare_bytes_val; done || congruence|].
  rewrite Haf. destruct (af b =? AF_INET) eqn:E.
  - assert (numbytes b = 4%nat) as Hn4 by (unfold numbytes; by rewrite E).
    apply print_quad_order; (done || congruence).
  - apply print_groups_order; (done || congruence).
Qed.
Lemma addrstring_order_witness :
  let a := NetInfo AF_INET 32 ([9; 200; 0; 1] ++ replicate 12 0) in
  let b := NetInfo AF_INET 32 ([10; 0; 0; 1] ++ replicate 12 0) in
  compare_addr a b = Z.sgn (addr_val a - addr_val b) ∧
  strcmp ($"009.200.000.001") ($"010.000.000.001") = compare_addr a b.
Proof.
  intros a b. apply (addrstring_order a b ($"009.200.000.001") ($"010.000.000.001"));
    try (apply (bool_decide_unpack _); vm_compute; exact I); reflexivity.
Defined.

(** ** What inet_pton stores *)

Lemma isdigit_val c : isdigit c = true → 0 ≤ code c - 48 ≤ 9.
Proof. revert c. by_ascii. Qed.

Lemma inet_pton4_loop_ok s : ∀ octets tp r,
  bytes_ok octets → (∀ v, tp = Some v → is_byte v) → inet_pton4_loop s octets tp = Some r →
  bytes_ok r ∧ length r = 4%nat.
Proof.
  induction s as [|ch s IH]; intros octets tp r Ho Ht; simpl.
  - destruct tp as [v|]; [|done]. case_decide as Hl; [|done]. intros [= <-]. split.
    + apply Forall_app; split; [done|]. repeat constructor; by apply Ht.
    + rewrite length_app, Hl. done.
  - destruct (isdigit ch) eqn:Hd; [|destruct (ch =c chr 46)].
    + apply isdigit_val in Hd. destruct tp as [v|].
      * destruct (v =? 0); [done|]. destruct (Z.ltb_spec 255 (v * 10 + (code ch - 48))); [done|].
        apply IH; [done|]. intros w [= <-]. destruct (Ht v eq_refl). split; lia.
      * case_decide; [done|]. apply IH; [done|]. intros w [= <-]. split; lia.
    + destruct tp as [v|]; [|done]. case_decide; [done|]. apply IH; [|done].
      apply Forall_app; split; [done|]. repeat constructor; by apply Ht.
    + done.
Qed.

Lemma inet_pton4_ok s r : inet_pton4 s = Some r → bytes_ok r ∧ length r = 4%nat.
Proof. apply inet_pton4_loop_ok; [apply Forall_nil_2|done]. Qed.

Lemma xdigit_val c d : xdigit c = Some d → 0 ≤ d < 16.
Proof. revert c. intros [[][][][][][][][]]; vm_compute; intros [= <-]; done. Qed.

Lemma pton6_finish_ok bytes colonp r :
  bytes_ok bytes → pton6_finish bytes colonp = Some r → bytes_ok r ∧ length r = 16%nat.
Proof.
  intros Hb. unfold pton6_finish. destruct colonp as [n|]; case_decide; try done; intros [= <-]; [|done].
  split.
  - apply Forall_app; split; [by apply Forall_take|]. apply Forall_app; split; [|by apply Forall_drop].
    apply Forall_replicate. by split.
  - rewrite !length_app, length_replicate, length_take, length_drop. lia.
Qed.

Lemma pton6_store_ok bytes val r :
  bytes_ok bytes → 0 ≤ val < 2 ^ 16 → pton6_store bytes val = Some r → bytes_ok r.
Proof.
  intros Hb Hv. unfold pton6_store. case_decide; [done|]. intros [= <-].
  apply Forall_app; split; [done|]. rewrite Z.shiftr_div_pow2 by lia.
  change 255 with (Z.ones 8). rewrite Z.land_ones by lia.
  pose proof (Z.mod_pos_bound val (2 ^ 8) ltac:(lia)).
  repeat constructor; try lia; [by apply Z.div_pos; lia|apply Z.div_lt_upper_bound; simpl in *; lia].
Qed.

Lemma lor_digit val d : 0 ≤ val → 0 ≤ d < 16 → Z.lor (Z.shiftl val 4) d = val * 16 + d.
Proof.
  intros Hv Hd. change (val * 16) with (val * 2 ^ 4). rewrite <-Z.shiftl_mul_pow2 by lia.
  symmetry. apply Z.add_nocarry_lor. apply Z.bits_inj'. intros i Hi.
  rewrite Z.land_spec, Z.bits_0, Z.shiftl_spec by lia.
  destruct (Z.ltb_spec i 4); [by rewrite Z.testbit_neg_r by lia|].
  rewrite (Z.bits_above_log2 d i); [apply andb_false_r|lia|].
  destruct (decide (d = 0)) as [->|]; [simpl; lia|]. apply Z.log2_lt_pow2; [lia|].
  apply Z.lt_le_trans with (2 ^ 4); [simpl; lia|]. apply Z.pow_le_mono_r; lia.
Qed.

Lemma inet_pton6_loop_ok s : ∀ curtok bytes colonp xdigits val r,
  bytes_ok bytes → (xdigits ≤ 4)%nat → 0 ≤ val < 16 ^ Z.of_nat xdigits →
  inet_pton6_loop s curtok bytes colonp xdigits val = Some r → bytes_ok r ∧ length r = 16%nat.
Proof.
  assert (∀ n val, (n ≤ 4)%nat → 0 ≤ val < 16 ^ Z.of_nat n → 0 ≤ val < 2 ^ 16) as H16.
  { intros n val Hn Hv. assert (16 ^ Z.of_nat n ≤ 16 ^ 4) by (apply Z.pow_le_mono_r; lia).
    simpl in *. lia. }
  induction s as [|ch s IH]; intros curtok bytes colonp x val r Hb Hx Hv; cbn [inet_pton6_loop].
  - case_decide; [by apply pton6_finish_ok|].
    destruct (pton6_store bytes val) as [b|] eqn:E; [|done]. cbn.
    apply pton6_finish_ok. eapply pton6_store_ok; eauto.
  - destruct (xdigit ch) as [d|] eqn:Ed.
    + case_decide; [done|]. apply xdigit_val in Ed. rewrite lor_digit by lia.
      apply IH; [done|lia|]. rewrite Nat2Z.inj_succ, Z.pow_succ_r by lia. lia.
    + destruct (ch =c chr 58); [|case_match; [|done]].
      * case_decide; [destruct colonp; [done|]; apply IH; [done|lia|done]|].
        destruct s as [|c s]; [done|].
        destruct (pton6_store bytes val) as [b|] eqn:E; [|done].
        apply IH; [eapply pton6_store_ok; eauto|lia|done].
      * destruct (inet_pton4 curtok) as [v4|] eqn:E; [|done]. apply pton6_finish_ok.
        apply Forall_app; split; [done|]. by apply inet_pton4_ok in E as [? _].
Qed.

Lemma inet_pton6_ok s r : inet_pton6 s = Some r → bytes_ok r ∧ length r = 16%nat.
Proof.
  destruct s as [|c s]; [done|]. unfold inet_pton6. intros H.
  destruct (c =c chr 58); [destruct s as [|c' s]; [done|]; destruct (c' =c chr 58); [|done]|];
    (eapply inet_pton6_loop_ok; [apply Forall_nil_2| | |exact H]; simpl; lia).
Qed.

Lemma addrstring_to_ni_ok s ni0 ni :
  length (prefix ni0) = 16%nat → bytes_ok (prefix ni0) → addrstring_to_ni s ni0 = (0, ni) → ni_ok ni.
Proof.
  intros Hl Hb. unfold addrstring_to_ni. destruct (inet_pton4 _) as [b|] eqn:E4.
  - intros [= <-]. apply inet_pton4_ok in E4 as [? Hl4].
    split; [by left|]. simpl. rewrite length_app, length_drop, Hl, Hl4. split; [done|].
    apply Forall_app. split; [done|]. by apply Forall_drop.
  - destruct (inet_pton6 _) as [b|] eqn:E6; [|done]. intros [= <-].
    apply inet_pton6_ok in E6 as [??]. split; [by right|]. done.
Qed.

(** ** Masked networks *)

Definition masked (ni : netinfo) : Prop :=
  0 ≤ masklen ni ≤ bits ni ∧ mask_bytes (addr_bytes ni) (masklen ni) = addr_bytes ni.

Lemma mask_byte_ok b len :
  is_byte b →
  is_byte (if len <=? 0 then 0 else if len <? 8 then Z.land b (Z.shiftl 255 (8 - len)) mod 256 else b).
Proof.
  intros Hb. destruct (len <=? 0); [by split|]. destruct (len <? 8); [|done].
  apply Z.mod_pos_bound. lia.
Qed.

Lemma mask_bytes_ok l len : bytes_ok l → bytes_ok (mask_bytes l len).
Proof.
  intros H. revert len. induction H; intros len; cbn [mask_bytes]; [apply Forall_nil_2|].
  apply Forall_cons. split; [by apply mask_byte_ok|apply IHForall].
Qed.

Lemma be_val_inj a : ∀ b,
  bytes_ok a → bytes_ok b → length a = length b → be_val a = be_val b → a = b.
Proof.
  induction a as [|x a IH]; intros [|y b] Ha Hb Hl Hv; try done.
  apply Forall_cons in Ha as [Hx Ha]. apply Forall_cons in Hb as [Hy Hb]. cbn [be_val] in Hv.
  pose proof (be_val_range a Ha). pose proof (be_val_range b Hb).
  simpl in Hl. assert (length a = length b) as E by lia. rewrite E in *.
  assert (x = y) as -> by nia. f_equal. apply IH; (done || lia).
Qed.

(** masking to fewer bits subsumes an earlier masking *)
Lemma mask_bytes_mask l len len' :
  bytes_ok l → 0 ≤ len' ≤ len → len ≤ 8 * Z.of_nat (length l) →
  mask_bytes (mask_bytes l len) len' = mask_bytes l len'.
Proof.
  intros Hl H1 H2. apply be_val_inj; auto using mask_bytes_ok; rewrite ?mask_bytes_length; [done|].
  rewrite !mask_bytes_val; auto using mask_bytes_ok; rewrite ?mask_bytes_length; try lia.
  set (n := 8 * Z.of_nat (length l)) in *.
  replace (n - len') with ((n - len) + (len - len')) by lia. rewrite Z.pow_add_r by lia.
  assert (0 < 2 ^ (n - len)) by (apply Z.pow_pos_nonneg; lia).
  assert (0 < 2 ^ (len - len')) by (apply Z.pow_pos_nonneg; lia).
  rewrite <-!Z.div_div, Z.div_mul by lia. done.
Qed.

Lemma mask_addr_ok ni len : ni_ok ni → ni_ok (mask_addr_to_len ni len).
Proof.
  intros Hok. pose proof Hok as (Haf & Hl & Hb). unfold mask_addr_to_len.
  destruct (_ =? _); [done|]. split; [done|]. split; cbn [prefix].
  - rewrite length_app, mask_bytes_length, <-length_app, take_drop. done.
  - apply Forall_app. split; [apply mask_bytes_ok; by apply Forall_take|by apply Forall_drop].
Qed.

Lemma mask_addr_fields ni len :
  af (mask_addr_to_len ni len) = af ni ∧ masklen (mask_addr_to_len ni len) = masklen ni.
Proof. unfold mask_addr_to_len. by destruct (_ =? _). Qed.

Lemma mask_addr_masked ni : ni_ok ni → 0 ≤ masklen ni ≤ bits ni → masked (mask_addr_to_len ni (masklen ni)).
Proof.
  intros Hok Hm. destruct (mask_addr_fields ni (masklen ni)) as [Haf Hml].
  unfold masked, bits, numbytes. rewrite Hml, Haf. split; [exact Hm|].
  destruct (addr_bytes_ok _ Hok) as [Hb Hl]. rewrite mask_addr_bytes, mask_bytes_mask; try done; [lia|].
  rewrite Hl. apply Hm.
Qed.

Lemma bits_af ni : (af ni = AF_INET ∧ bits ni = 32) ∨ (af ni ≠ AF_INET ∧ bits ni = 128).
Proof. unfold bits, numbytes. destruct (Z.eqb_spec (af ni) AF_INET) as [->|]; auto. Qed.

Lemma get_network_ok s ni0 ni :
  length (prefix ni0) = 16%nat → bytes_ok (prefix ni0) →
  get_network_prefix_and_len s ni0 = Some ni → ni_ok ni ∧ masked ni.
Proof.
  intros Hl Hb. destruct s as [[|c s]|]; try done. unfold get_network_prefix_and_len.
  set (p := match strrchr (c :: s) (chr 47) with Some _ => _ | None => _ end).
  destruct p as [buf len]. destruct (addrstring_to_ni buf ni0) as [st ni1] eqn:E.
  destruct (Z.eqb_spec st 0) as [->|]; [|done]. apply addrstring_to_ni_ok in E; [|done..].
  cbn [negb]. set (m := if af ni1 =? AF_INET then 32 else 128).
  assert (∀ len, ni_ok (NetInfo (af ni1) len (prefix ni1))) as Hok by done.
  assert (∀ len, bits (NetInfo (af ni1) len (prefix ni1)) = m) as Hbits.
  { intros k. unfold bits, numbytes, m. cbn [af]. by destruct (_ =? _). }
  assert (0 ≤ m) by (subst m; by destruct (_ =? _)).
  cbn [masklen]. destruct (Z.leb_spec 0 len).
  - destruct (Z.ltb_spec m len); [done|]. intros [= <-]. split; [by apply mask_addr_ok|].
    apply (mask_addr_masked (NetInfo (af ni1) len (prefix ni1))); [done|]. rewrite Hbits. cbn [masklen]. lia.
  - intros [= <-]. split; [by apply mask_addr_ok|].
    apply (mask_addr_masked (NetInfo (af ni1) m (prefix ni1))); [done|]. rewrite Hbits. cbn [masklen]. lia.
Qed.

(** Mask_addr_to_len keeps exactly the [len] high order bits of the
    address (as a big endian number it is rounded down to a multiple of the
    network's size) and touches nothing else of the netinfo; masking a masked
    address to a shorter length is masking the original one, so the search for
    ever larger networks can mask in place. *)
Theorem mask_addr_to_len_correct ni len :
  ni_ok ni → 0 ≤ len ≤ bits ni →
  addr_val (mask_addr_to_len ni len) = addr_val ni / 2 ^ (bits ni - len) * 2 ^ (bits ni - len) ∧
  af (mask_addr_to_len ni len) = af ni ∧ masklen (mask_addr_to_len ni len) = masklen ni ∧
  ∀ len', 0 ≤ len' ≤ len →
    addr_bytes (mask_addr_to_len (mask_addr_to_len ni len) len') = addr_bytes (mask_addr_to_len ni len').
Proof.
  intros Hok Hlen. destruct (addr_bytes_ok _ Hok) as [Hb Hl].
  destruct (mask_addr_fields ni len) as [Haf Hml]. split; [|split; [done|split; [done|]]].
  - unfold addr_val. rewrite mask_addr_bytes, mask_bytes_val, Hl; (done || by rewrite Hl).
  - intros len' Hlen'. rewrite !mask_addr_bytes by auto using mask_addr_ok.
    apply mask_bytes_mask; [done|lia|]. rewrite Hl. apply Hlen.
Qed.

Lemma mask_addr_to_len_correct_witness :
  let ni := NetInfo AF_INET 32 ([10; 1; 200; 7] ++ replicate 12 0) in
  let r := mask_addr_to_len ni 20 in
  addr_val r = addr_val ni / 2 ^ 12 * 2 ^ 12 ∧ af r = 2 ∧ masklen r = 32 ∧
  ∀ len', 0 ≤ len' ≤ 20 → addr_bytes (mask_addr_to_len r len') = addr_bytes (mask_addr_to_len ni len').
Proof.
  intros ni r. apply (mask_addr_to_len_correct ni 20).
  - apply (bool_decide_unpack _). vm_compute. exact I.
  - vm_compute. split; discriminate.
Defined.

(** ** Reading back the canonical text *)

Lemma dropwhile_digits u rest :
  Forall (λ c, isdigit c = true) u → (∀ c, list.head rest = Some c → isdigit c = false) →
  dropwhile isdigit (u ++ rest) = rest.
Proof.
  intros Hu Hr. rewrite dropwhile_all by done. destruct rest as [|c rest]; [done|].
  by rewrite dropwhile_skip by by apply Hr.
Qed.

Lemma atoi_digits u rest :
  u ≠ [] → Forall (λ c, isdigit c = true) u → (∀ c, list.head rest = Some c → isdigit c = false) →
  atoi (u ++ rest) = wrap 32 (clamp64 (digits_val 0 u)).
Proof.
  intros Hne Hu Hr. unfold atoi, strtol. destruct u as [|c u]; [done|].
  pose proof Hu as [(H1 & H2 & H3)%digit_head_signs _]%Forall_cons. cbn [app dropwhile].
  rewrite H1, H2, H3, app_comm_cons, digits_val_stop by done. done.
Qed.

Lemma scan_d_digits u rest :
  u ≠ [] → Forall (λ c, isdigit c = true) u → (∀ c, list.head rest = Some c → isdigit c = false) →
  scan_d (u ++ rest) = Some (wrap 32 (clamp64 (digits_val 0 u)), rest).
Proof.
  intros Hne Hu Hr. unfold scan_d. rewrite <-(atoi_digits u rest) by done.
  destruct u as [|c u]; [done|].
  pose proof Hu as [Hc _]%Forall_cons. pose proof Hc as (H1 & H2 & H3)%digit_head_signs.
  cbn [app dropwhile]. rewrite H1, H2, H3. cbn [orb]. rewrite Hc. f_equal. f_equal.
  by apply (dropwhile_digits (c :: u)).
Qed.

Lemma print_03u_check :
  forallb (λ b, forallb isdigit (print_03u b) && (wrap 32 (clamp64 (digits_val 0 (print_03u b))) =? b)
                && negb (bool_decide (print_03u b = []))) all_bytes = true.
Proof. vm_compute. reflexivity. Qed.

Lemma print_03u_facts b :
  is_byte b →
  Forall (λ c, isdigit c = true) (print_03u b) ∧
  wrap 32 (clamp64 (digits_val 0 (print_03u b))) = b ∧ print_03u b ≠ [].
Proof.
  intros Hb. pose proof (bytes_check _ _ Hb print_03u_check) as [[H1 H2]%andb_true_iff H3]%andb_true_iff.
  split_and!.
  - apply Forall_forall. intros c Hc%list_elem_of_In. rewrite forallb_forall in H1. auto.
  - by apply Z.eqb_eq.
  - by apply negb_true_iff, bool_decide_eq_false in H3.
Qed.

Lemma scan_d_03u b rest :
  is_byte b → (∀ c, list.head rest = Some c → isdigit c = false) →
  scan_d (print_03u b ++ rest) = Some (b, rest).
Proof.
  intros Hb Hr. destruct (print_03u_facts b Hb) as (H1 & H2 & H3). by rewrite scan_d_digits, H2.
Qed.

Lemma inet_pton4_octet b octets rest :
  is_byte b → (length octets < 4)%nat →
  inet_pton4_loop (print_Z b ++ rest) octets None = inet_pton4_loop rest octets (Some b).
Proof.
  intros Hb Ho. assert (∃ c, b = code c) as [c ->].
  { exists (chr b). symmetry. by apply code_chr. }
  clear Hb. destruct c as [[][][][][][][][]]; cbv [print_Z print_nat];
  vm_compute code; vm_compute digits; cbn -[length];
  (rewrite decide_False by lia); reflexivity.
Qed.

Lemma inet_pton4_quad a b c d :
  is_byte a → is_byte b → is_byte c → is_byte d →
  inet_pton4 (join (chr 46) (print_Z <$> [a; b; c; d])) = Some [a; b; c; d].
Proof.
  intros. unfold inet_pton4. simpl fmap. cbn [join].
  rewrite inet_pton4_octet by (done || simpl; lia). simpl.
  rewrite inet_pton4_octet by (done || simpl; lia). simpl.
  rewrite inet_pton4_octet by (done || simpl; lia). simpl.
  rewrite <-(app_nil_r (print_Z d)).
  rewrite inet_pton4_octet by (done || simpl; lia). done.
Qed.

Lemma elem_of_join sep ws c : c ∈ join sep ws → c = sep ∨ ∃ w, w ∈ ws ∧ c ∈ w.
Proof.
  induction ws as [|w ws IH]; [by intros []%elem_of_nil|]. destruct ws as [|w' ws].
  - intros Hc. right. exists w. split; [left|done].
  - change (join sep (w :: w' :: ws)) with (w ++ sep :: join sep (w' :: ws)).
    intros [Hc|[->|Hc]%elem_of_cons]%elem_of_app; [|by left|].
    + right. exists w. split; [left|done].
    + destruct (IH Hc) as [->|(v & Hv & Hcv)]; [by left|]. right. exists v. split; [by right|done].
Qed.

(** the characters of the text of an IPv4 address *)
Lemma quad_chars l c :
  bytes_ok l → c ∈ join (chr 46) (print_03u <$> l) → c = chr 46 ∨ isdigit c = true.
Proof.
  intros Hl [->|(w & (b & -> & Hb)%list_elem_of_fmap & Hc)]%elem_of_join; [by left|]. right.
  unfold bytes_ok in Hl. rewrite Forall_forall in Hl. destruct (print_03u_facts b (Hl b Hb)) as [H _].
  rewrite Forall_forall in H. auto.
Qed.

Lemma clean_quad a b c d :
  is_byte a → is_byte b → is_byte c → is_byte d →
  clean_ipv4_addr (join (chr 46) (print_03u <$> [a; b; c; d]))
  = join (chr 46) (print_Z <$> [a; b; c; d]).
Proof.
  intros Ha Hb Hc Hd. unfold clean_ipv4_addr.
  set (s := join (chr 46) (print_03u <$> [a; b; c; d])).
  assert (strchr s (chr 46) ≠ None) as H1.
  { rewrite strchr_None. intros []. subst s. simpl. apply elem_of_app. right. left. }
  assert (strchr s (chr 58) = None) as H2.
  { apply strchr_None. intros Hin. apply (quad_chars [a; b; c; d]) in Hin as [|]; [done|done|].
    by repeat (constructor; [done|]). }
  rewrite (bool_decide_eq_false_2 (strchr s (chr 46) = None)), (bool_decide_eq_false_2 (_ ≠ _)) by auto.
  cbn [orb].
  assert (scan_dotted 4 s = [a; b; c; d]) as ->.
  { subst s. simpl fmap. cbn [join scan_dotted].
    rewrite scan_d_03u by (done || by intros ? [= <-]). simpl. f_equal.
    rewrite scan_d_03u by (done || by intros ? [= <-]). simpl. f_equal.
    rewrite scan_d_03u by (done || by intros ? [= <-]). simpl. f_equal.
    rewrite <-(app_nil_r (print_03u d)). by rewrite scan_d_03u. }
  assert (existsb (λ v, (v <? 0) || (255 <? v)) [a; b; c; d] = false) as ->; [|done].
  unfold is_byte in *. cbn [existsb]. repeat (rewrite (proj2 (Z.ltb_ge _ _)) by lia). done.
Qed.

Lemma addrstring_to_ni_quad l ni0 :
  bytes_ok l → length l = 4%nat →
  addrstring_to_ni (join (chr 46) (print_03u <$> l)) ni0
  = (0, NetInfo AF_INET 32 (l ++ drop 4 (prefix ni0))).
Proof.
  intros Hb Hl. destruct l as [|a [|b [|c [|d [|]]]]]; try done.
  unfold bytes_ok in Hb. rewrite !Forall_cons in Hb. destruct Hb as (?&?&?&?&_).
  unfold addrstring_to_ni. by rewrite clean_quad, inet_pton4_quad.
Qed.

Lemma xdigit_hexdigit d : 0 ≤ d < 16 → xdigit (hexdigit d) = Some d.
Proof.
  intros Hd. assert (d ∈ Z.of_nat <$> seq 0 16) as Hin.
  { apply list_elem_of_fmap. exists (Z.to_nat d). split; [lia|]. apply elem_of_seq. lia. }
  assert (forallb (λ d, bool_decide (xdigit (hexdigit d) = Some d)) (Z.of_nat <$> seq 0 16) = true) as H
    by (vm_compute; reflexivity).
  rewrite forallb_forall in H. by apply (bool_decide_eq_true_1 _), H, list_elem_of_In.
Qed.

Lemma pton6_loop_digit d s cur bytes colonp n val :
  0 ≤ d < 16 → (n < 4)%nat → 0 ≤ val →
  inet_pton6_loop (hexdigit d :: s) cur bytes colonp n val =
  inet_pton6_loop s cur bytes colonp (S n) (val * 16 + d).
Proof.
  intros Hd Hn Hv. cbn [inet_pton6_loop]. rewrite xdigit_hexdigit by done.
  rewrite decide_False by lia. by rewrite lor_digit.
Qed.

Lemma byte_nibbles x : is_byte x → 0 ≤ x / 16 < 16 ∧ 0 ≤ x mod 16 < 16 ∧ x = x / 16 * 16 + x mod 16.
Proof.
  intros [H1 H2]. pose proof (Z.div_mod x 16). pose proof (Z.mod_pos_bound x 16).
  split; [split; [apply Z.div_pos|apply Z.div_lt_upper_bound]; lia|]. lia.
Qed.

Lemma pton6_loop_group x y rest cur bytes :
  is_byte x → is_byte y →
  inet_pton6_loop (print_02x x ++ print_02x y ++ rest) cur bytes None 0 0 =
  inet_pton6_loop rest cur bytes None 4 (x * 256 + y).
Proof.
  intros Hx Hy. destruct (byte_nibbles x Hx) as (? & ? & Ex), (byte_nibbles y Hy) as (? & ? & Ey).
  unfold print_02x. cbn [app]. rewrite !pton6_loop_digit by lia. f_equal. lia.
Qed.

Lemma pton6_store_group bytes x y :
  is_byte x → is_byte y → (length bytes + 2 ≤ 16)%nat →
  pton6_store bytes (x * 256 + y) = Some (bytes ++ [x; y]).
Proof.
  intros [??] [??] Hl. unfold pton6_store. rewrite decide_False by lia.
  rewrite Z.shiftr_div_pow2 by lia. change 255 with (Z.ones 8). rewrite Z.land_ones by lia.
  change (2 ^ 8) with 256. rewrite Z.div_add_l, Z.div_small by lia.
  rewrite (Z.add_comm (x * 256) y), Z.mod_add, Z.mod_small by lia. by rewrite Z.add_0_r.
Qed.

Lemma print_groups_pair j x y l :
  (2 * j + 2 + length l = 16)%nat →
  print_groups (2 * j) (x :: y :: l) =
  print_02x x ++ print_02x y ++ match l with [] => [] | _ => chr 58 :: print_groups (2 * S j) l end.
Proof.
  intros Hl. cbn [print_groups].
  rewrite (bool_decide_eq_false_2 (S (2 * j) mod 2 = 0)%nat).
  2:{ replace (S (2 * j)) with (1 + j * 2)%nat by lia. by rewrite Nat.Div0.mod_add. }
  rewrite (bool_decide_eq_true_2 (S (S (2 * j)) mod 2 = 0)%nat).
  2:{ replace (S (S (2 * j))) with (0 + S j * 2)%nat by lia. by rewrite Nat.Div0.mod_add. }
  cbn [andb app]. f_equal. f_equal. replace (S (S (2 * j))) with (2 * S j)%nat by lia.
  destruct l as [|z l].
  - simpl in Hl. by rewrite bool_decide_eq_false_2 by lia.
  - simpl in Hl. by rewrite bool_decide_eq_true_2 by lia.
Qed.

Lemma pton6_loop_groups k : ∀ j l cur bytes,
  length l = (2 * S k)%nat → length bytes = (2 * j)%nat → (2 * j + length l = 16)%nat → bytes_ok l →
  inet_pton6_loop (print_groups (2 * j) l) cur bytes None 0 0 = Some (bytes ++ l).
Proof.
  induction k as [|k IH]; intros j [|x [|y l]] cur bytes Hl Hb Hs Hok; try (simpl in Hl; lia);
    unfold bytes_ok in Hok; rewrite !Forall_cons in Hok; destruct Hok as (Hx & Hy & Hok);
    rewrite print_groups_pair by (simpl in *; lia); rewrite pton6_loop_group by done.
  - destruct l; [|simpl in Hl; lia]. cbn [inet_pton6_loop]. rewrite decide_False by lia.
    rewrite pton6_store_group by (done || simpl in *; lia). cbn. unfold pton6_finish.
    rewrite decide_True; [done|]. rewrite length_app. simpl in *. lia.
  - destruct l as [|z l]; [simpl in Hl; lia|].
    cbn [inet_pton6_loop]. change (xdigit (chr 58)) with (@None Z).
    change (chr 58 =c chr 58) with true. cbn iota. rewrite decide_False by lia.
    assert (∃ c s, print_groups (2 * S j) (z :: l) = c :: s) as (c & s & Ez) by (simpl; eauto).
    rewrite Ez, pton6_store_group by (done || simpl in *; lia).
    cbn [mbind option_bind]. rewrite <-Ez. rewrite IH; try done.
    + by rewrite <-app_assoc.
    + simpl in *. lia.
    + rewrite length_app. simpl. lia.
    + simpl in *. lia.
Qed.

Lemma hexdigit_chars d : 0 ≤ d < 16 → hexdigit d ≠ chr 46 ∧ hexdigit d ≠ chr 47 ∧ hexdigit d ≠ chr 58 ∧ hexdigit d ≠ NUL.
Proof.
  intros Hd. pose proof (xdigit_hexdigit d Hd) as H. split_and!; intros E; rewrite E in H; done.
Qed.

Lemma groups_chars l c : ∀ i,
  bytes_ok l → c ∈ print_groups i l → c = chr 58 ∨ (∃ d, 0 ≤ d < 16 ∧ c = hexdigit d).
Proof.
  induction l as [|b l IH]; intros i Hl; cbn [print_groups]; [by intros []%elem_of_nil|].
  apply Forall_cons in Hl as [Hb Hl]. destruct (byte_nibbles b Hb) as (? & ? & _).
  rewrite !elem_of_app. intros [Hc|[Hc|Hc]].
  - right. unfold print_02x in Hc. apply elem_of_cons in Hc as [->|Hc]; [eauto|].
    apply list_elem_of_singleton in Hc as ->. eauto.
  - left. destruct (_ && _); [by apply list_elem_of_singleton in Hc|by apply elem_of_nil in Hc].
  - by eapply IH.
Qed.

Lemma inet_pton4_no_dot s octets tp :
  (length octets < 3)%nat → chr 46 ∉ s → inet_pton4_loop s octets tp = None.
Proof.
  intros Ho. revert tp. induction s as [|ch s IH]; intros tp Hs; simpl.
  - destruct tp; [|done]. by rewrite decide_False by lia.
  - apply not_elem_of_cons in Hs as [Hc Hs]. rewrite (proj2 (char_eqb_neq ch (chr 46))) by congruence.
    destruct (isdigit ch); [|done]. destruct tp as [v|].
    + destruct (v =? 0); [done|]. destruct (255 <? _); [done|]. by apply IH.
    + rewrite decide_False by lia. by apply IH.
Qed.

Lemma addrstring_to_ni_groups l ni0 :
  bytes_ok l → length l = 16%nat →
  addrstring_to_ni (print_groups 0 l) ni0 = (0, NetInfo AF_INET6 128 l).
Proof.
  intros Hb Hl.
  assert (chr 46 ∉ print_groups 0 l) as Hd.
  { intros [|(d & Hd & E)]%groups_chars; [done| |done]. by destruct (hexdigit_chars d Hd) as [[] _]. }
  unfold addrstring_to_ni. assert (clean_ipv4_addr (print_groups 0 l) = print_groups 0 l) as ->.
  { unfold clean_ipv4_addr. by rewrite (proj2 (strchr_None _ _) Hd). }
  assert (inet_pton4 (print_groups 0 l) = None) as ->.
  { apply inet_pton4_no_dot; [simpl; lia|done]. }
  assert (inet_pton6 (print_groups 0 l) = Some l) as ->; [|done].
  transitivity (inet_pton6_loop (print_groups 0 l) (print_groups 0 l) [] None 0 0).
  - destruct l as [|b l]; [done|]. unfold bytes_ok in Hb. apply Forall_cons in Hb as [Hb _].
    destruct (byte_nibbles b Hb) as (Hn & _). destruct (hexdigit_chars _ Hn) as (_ & _ & Hc & _).
    cbn [print_groups]. unfold print_02x. cbn [app]. unfold inet_pton6.
    by rewrite (proj2 (char_eqb_neq _ _) Hc).
  - by apply (pton6_loop_groups 7 0 l _ []).
Qed.

(** ** Printing to buffers *)

Lemma hexdigit_not_nul d : 0 ≤ d < 16 → hexdigit d ≠ NUL.
Proof. intros Hd. by destruct (hexdigit_chars d Hd) as (_ & _ & _ & ?). Qed.

Lemma print_groups_length l : length l = 16%nat → length (print_groups 0 l) = 39%nat.
Proof. intros Hl. do 17 (destruct l as [|? l]; [try done|]); done. Qed.

Lemma print_quad_length l :
  bytes_ok l → length l = 4%nat → length (join (chr 46) (print_03u <$> l)) = 15%nat.
Proof.
  intros Hb Hl. destruct l as [|a [|b [|c [|d [|]]]]]; try done.
  unfold bytes_ok in Hb. rewrite !Forall_cons in Hb. destruct Hb as (?&?&?&?&_).
  simpl fmap. cbn [join]. rewrite !length_app. cbn [length]. rewrite !length_app. cbn [length].
  rewrite !length_app. cbn [length]. by rewrite !(fixed_width (enc:=print_03u) (w:=3)) by done.
Qed.

(** the canonical text of an address: its size, its characters, and that it
    reads back *)
Record canonical (ni : netinfo) (s : cstr) : Prop := {
  canonical_length : length s = if af ni =? AF_INET then 15%nat else 39%nat;
  canonical_chars : NUL ∉ s ∧ chr 47 ∉ s;
  canonical_read ni0 : ∃ p, addrstring_to_ni s ni0 = (0, NetInfo (af ni) (bits ni) p) ∧
                            take (numbytes ni) p = addr_bytes ni }.

Lemma addrstring_canonical ni : ni_ok ni → ∃ s, addrstring ni = Some s ∧ canonical ni s.
Proof.
  intros Hok. destruct (addr_bytes_ok _ Hok) as [Hb Hl]. 
  rewrite (addrstring_Some ni Hok). destruct Hok as (Haf & _).
  destruct (Z.eqb_spec (af ni) AF_INET) as [E|E]; eexists; (split; [done|]).
  - assert (numbytes ni = 4%nat) as Hn by (unfold numbytes; by rewrite E). split.
    + rewrite E. apply print_quad_length; [done|congruence].
    + split; intros Hin; apply quad_chars in Hin as [|]; done.
    + intros ni0. rewrite addrstring_to_ni_quad by (done || congruence).
      eexists. rewrite E. unfold bits. rewrite Hn. split; [done|].
      rewrite take_app_length'; [done|congruence].
  - destruct Haf as [|Haf]; [done|].
    assert (numbytes ni = 16%nat) as Hn by (unfold numbytes; by rewrite Haf). split.
    + rewrite Haf. apply print_groups_length. congruence.
    + split; intros Hin; apply groups_chars in Hin as [|(d & Hd & E')]; try done;
        destruct (hexdigit_chars d Hd) as (? & ? & ? & ?); congruence.
    + intros ni0. rewrite addrstring_to_ni_groups by (done || congruence).
      eexists. rewrite Haf. unfold bits. rewrite Hn. split; [done|].
      rewrite firstn_all2; [done|]. rewrite Hl, Hn. done.
Qed.

Lemma put_str_ok b s : (length s < length b)%nat → put_str b s = Ret (s ++ NUL :: drop (S (length s)) b).
Proof. intros. unfold put_str. by rewrite decide_True. Qed.

Lemma string_at_app s rest : NUL ∉ s → string_at (s ++ NUL :: rest) 0 = s.
Proof.
  intros Hs. unfold string_at. rewrite drop_0. induction s as [|c s IH]; simpl; [done|].
  apply not_elem_of_cons in Hs as [Hc Hs]. rewrite (proj2 (char_eqb_neq c NUL)) by congruence.
  simpl. by rewrite IH.
Qed.

Lemma holds_string_at b s : holds b s → string_at b 0 = s.
Proof. intros [HN [rest ->]]. by apply string_at_app. Qed.
Lemma natop_ok ni s : ni_ok ni → addrstring ni = Some s → natop ni = Ret (Some s).
Proof.
  intros Hok Hs. destruct (addrstring_canonical ni Hok) as (s' & Hs' & [Hl [Hn _] _]).
  assert (s' = s) as -> by congruence.
  assert (length s < MAX_LINE)%nat by (rewrite Hl; destruct (_ =? _); vm_compute; lia).
  unfold natop, ni_to_addrstring. rewrite Hs.
  assert (Z.of_nat MAX_LINE <? (if af ni =? AF_INET then 15 else 39) = false) as ->.
  { by destruct (af ni =? AF_INET). }
  rewrite put_str_ok by by rewrite length_replicate. cbn [mbind outcome_bind option_map].
  by rewrite string_at_app.
Qed.

Lemma print_len_check : forallb (λ b, bool_decide (length (print_Z b) ≤ 3)%nat) all_bytes = true.
Proof. vm_compute. reflexivity. Qed.

Lemma network_text_reads ni ni0 s :
  ni_ok ni → masked ni → addrstring ni = Some s →
  ∃ p, get_network_prefix_and_len (Some (s ++ chr 47 :: print_Z (masklen ni))) ni0
       = Some (NetInfo (af ni) (masklen ni) p) ∧ take (numbytes ni) p = addr_bytes ni.
Proof.
  intros Hok [Hm Hmask] Hs. destruct (addrstring_canonical ni Hok) as (s' & Hs' & [Hl _ Hread]).
  assert (s' = s) as -> by congruence. destruct (Hread ni0) as (p & Ea & Hp).
  destruct s as [|c s]; [by destruct (af ni =? AF_INET)|].
  unfold get_network_prefix_and_len. cbn [app].
  rewrite app_comm_cons, strrchr_app by (apply print_Z_notin; done).
  rewrite take_app_length, <-(Nat.add_1_r (length (c :: s))), drop_succ_app, Ea.
  assert (0 ≤ masklen ni ≤ 128) as Hr by (destruct (bits_af ni) as [[_ ?]|[_ ?]]; lia).
  rewrite <-(app_nil_r (print_Z (masklen ni))), atoi_print; [|unfold in_int; simpl; lia|done].
  cbn [negb Z.eqb af prefix masklen]. rewrite (proj2 (Z.leb_le 0 _)) by lia.
  assert ((if af ni =? AF_INET then 32 else 128) = bits ni) as ->.
  { destruct (bits_af ni) as [[-> ->]|[Ha ->]]; [done|]. by rewrite (proj2 (Z.eqb_neq _ _) Ha). }
  rewrite (proj2 (Z.ltb_ge _ _)) by lia. unfold mask_addr_to_len.
  assert (numbytes (NetInfo (af ni) (masklen ni) p) = numbytes ni) as -> by done. cbn [prefix af masklen].
  rewrite Hp, Hmask. destruct (Z.of_nat (numbytes ni) * 8 =? masklen ni); [by exists p|]. eexists. split; [done|].
  rewrite take_app_length'; [done|]. by destruct (addr_bytes_ok _ Hok).
Qed.

(** The text that write_network gives a parsed network is canonical.  For
    every string that get_network_prefix_and_len accepts, write_network prints
    the network to any buffer of 44 bytes without leaving it, and reading the
    printed text back gives the same family, prefix length and address.  So
    the index, which stores the printed form, and the searches, which print
    the query, agree on every spelling of a network. *)
Theorem network_canonical s ni0 ni b ni1 :
  length (prefix ni0) = 16%nat → bytes_ok (prefix ni0) →
  get_network_prefix_and_len (Some s) ni0 = Some ni → (44 ≤ length b)%nat →
  ∃ t rest ni',
    write_network (Some b) ni = Ret (true, Some (t ++ NUL :: rest)) ∧ NUL ∉ t ∧
    length (t ++ NUL :: rest) = length b ∧
    get_network_prefix_and_len (Some t) ni1 = Some ni' ∧
    af ni' = af ni ∧ masklen ni' = masklen ni ∧ addr_bytes ni' = addr_bytes ni.
Proof.
  intros Hl0 Hb0 Hg Hb. apply get_network_ok in Hg as [Hok Hm]; [|done..].
  destruct (addrstring_canonical ni Hok) as (a & Ha & [Hl [Hn _] _]).
  destruct (network_text_reads ni ni1 a Hok Hm Ha) as (p & Hread & Hp).
  set (t := a ++ chr 47 :: print_Z (masklen ni)) in *.
  assert (is_byte (masklen ni)) as Hml.
  { destruct Hm as [[? ?] _]. destruct (bits_af ni) as [[_ ?]|[_ ?]]; split; lia. }
  pose proof (bytes_check _ _ Hml print_len_check) as Hlen%bool_decide_eq_true.
  assert (length t < length b)%nat as Ht.
  { subst t. rewrite length_app. cbn [length]. rewrite Hl. destruct (af ni =? AF_INET); lia. }
  exists t, (drop (S (length t)) b), (NetInfo (af ni) (masklen ni) p).
  unfold write_network. rewrite (natop_ok ni a) by done. cbn [mbind outcome_bind].
  rewrite put_str_ok by done. cbn [mbind outcome_bind]. split_and!; try done.
  - subst t. rewrite not_elem_of_app, not_elem_of_cons. split_and!; [done|done|].
    by apply print_Z_notin.
  - rewrite length_app. cbn [length]. rewrite length_drop. lia.
Qed.

Lemma network_canonical_witness :
  let ni0 := NetInfo 0 0 (replicate 16 0) in
  ∃ t rest ni',
    write_network (Some (replicate 50 NUL)) (NetInfo 2 20 ([10; 1; 192] ++ replicate 13 0))
    = Ret (true, Some (t ++ NUL :: rest)) ∧ NUL ∉ t ∧ length (t ++ NUL :: rest) = 50%nat ∧
    get_network_prefix_and_len (Some t) ni0 = Some ni' ∧
    af ni' = 2 ∧ masklen ni' = 20 ∧ addr_bytes ni' = [10; 1; 192; 0].
Proof.
  intros ni0.
  apply (network_canonical ($"10.1.200.003/20") ni0 (NetInfo 2 20 ([10; 1; 192] ++ replicate 13 0))
           (replicate 50 NUL) ni0).
  - reflexivity.
  - apply (bool_decide_unpack (bytes_ok (replicate 16 0))). vm_compute. exact I.
  - vm_compute. reflexivity.
  - vm_compute. lia.
Defined.

(** Ni_to_addrstring against the size its caller passes.  Below 15 bytes
    (39 for IPv6) it refuses; at exactly 15 (39), a size its check and the
    comment in ip_network.h call sufficient, it writes the terminating NUL
    past the end of the buffer; above, it writes the text and nothing beyond
    the buffer. *)
Theorem ni_to_addrstring_bounds ni b :
  ni_ok ni →
  let need := if af ni =? AF_INET then 15 else 39 in
  let size := Z.of_nat (length b) in
  (size < need → ni_to_addrstring ni b size = Ret None) ∧
  (size = need → ni_to_addrstring ni b size = Fault) ∧
  (need < size → ∃ s rest, ni_to_addrstring ni b size = Ret (Some (s ++ NUL :: rest)) ∧
     addrstring ni = Some s ∧ Z.of_nat (length s) = need ∧ length (s ++ NUL :: rest) = length b).
Proof.
  intros Hok need size. destruct (addrstring_canonical ni Hok) as (s & Hs & [Hl _ _]).
  assert (Z.of_nat (length s) = need) as Hn by (subst need; rewrite Hl; by destruct (af ni =? AF_INET)).
  unfold ni_to_addrstring. rewrite Hs. fold need. split_and!; intros H.
  - by rewrite (proj2 (Z.ltb_lt _ _) H).
  - rewrite (proj2 (Z.ltb_ge size need)) by lia. unfold put_str. by rewrite decide_False by lia.
  - rewrite (proj2 (Z.ltb_ge size need)) by lia. rewrite put_str_ok by lia.
    eexists s, _. split; [done|]. split_and!; try done.
    rewrite length_app. cbn [length]. rewrite length_drop. lia.
Qed.

Lemma ni_to_addrstring_bounds_witness :
  let ni := NetInfo AF_INET 8 (10 :: replicate 15 0) in
  (ni_to_addrstring ni (replicate 14 NUL) 14 = Ret None) ∧
  (ni_to_addrstring ni (replicate 15 NUL) 15 = Fault) ∧
  (∃ s rest, ni_to_addrstring ni (replicate 16 NUL) 16 = Ret (Some (s ++ NUL :: rest)) ∧
     addrstring ni = Some s ∧ Z.of_nat (length s) = 15 ∧ length (s ++ NUL :: rest) = 16%nat).
Proof.
  intros ni. assert (ni_ok ni) as Hok by (apply (bool_decide_unpack _); vm_compute; exact I).
  split; [|split].
  - by apply (ni_to_addrstring_bounds ni (replicate 14 NUL)).
  - by apply (ni_to_addrstring_bounds ni (replicate 15 NUL)).
  - by apply (ni_to_addrstring_bounds ni (replicate 16 NUL)).
Defined.

(** ** Classful lengths *)

Lemma load32_quad be a b c d rest :
  load32 be (a :: b :: c :: d :: rest)
  = if be then ((a * 256 + b) * 256 + c) * 256 + d else ((d * 256 + c) * 256 + b) * 256 + a.
Proof. unfold load32. destruct be; simpl; lia. Qed.

(** a value that keeps its bits under a mask without low bits has none *)
Lemma land_low_zero p m : Z.land p m = p → m mod 256 = 0 → p mod 256 = 0.
Proof.
  intros Hp Hm. change 256 with (2 ^ 8) in *. rewrite <-!Z.land_ones in * by lia.
  by rewrite <-Hp, <-Z.land_assoc, Hm, Z.land_0_r.
Qed.

(** On a little endian machine determine_network_len_from_policy never
    finds a class A, B or C network (but for the addresses that start with a
    zero octet): it masks the address as a word in host order, so it always
    sees host bits and answers 32.  On a big endian machine 10.0.0.0 is a /8. *)
Theorem policy_little_endian a b c d rest ml :
  is_byte a → is_byte b → is_byte c → is_byte d → 0 < a →
  determine_network_len_from_policy false (NetInfo AF_INET ml (a :: b :: c :: d :: rest)) = 32.
Proof.
  intros Ha Hb Hc Hd Hpos. unfold determine_network_len_from_policy. cbn [af prefix].
  rewrite Z.eqb_refl. cbn [negb].
  change (byte_at (a :: b :: c :: d :: rest) 0) with a. rewrite load32_quad.
  set (p := ((d * 256 + c) * 256 + b) * 256 + a).
  assert (p mod 256 = a) as Hlow.
  { subst p. rewrite Z.add_comm, Z.mod_add by lia. apply Z.mod_small. exact Ha. }
  assert (∀ m k, m mod 256 = 0 → (if negb (Z.land p m =? p) then 32 else k) = 32) as H.
  { intros m k Hm. destruct (Z.eqb_spec (Z.land p m) p) as [E|]; [|done].
    apply land_low_zero in E; [|done]. lia. }
  repeat match goal with |- context [if ?t then _ else _] =>
    lazymatch t with _ <? _ => destruct t end end; try (by apply H).
  by destruct (negb _).
Qed.

Lemma policy_little_endian_witness :
  determine_network_len_from_policy false (NetInfo AF_INET 32 [10; 0; 0; 0]) = 32 ∧
  determine_network_len_from_policy true (NetInfo AF_INET 32 [10; 0; 0; 0]) = 8.
Proof.
  split; [apply policy_little_endian; split; reflexivity || discriminate|]; vm_compute; reflexivity.
Defined.
