(* ===== verification/Types.v ===== *)
(** * Data types (common/types.h, mkdb/mkdb_types.h) and their look-ups

    The enumerations and structs that the indexer and the search engine share,
    with the functions of attributes.c, schema.c, auth_area.c and fileinfo.c
    that look them up.  A dl_list of structs, which DlList.v verifies, is a
    Rocq list here; a pointer to a string that may be null is an option. *)

From S2P Require Import Prelude CLib.
Local Open Scope Z_scope.

(** ** common/types.h *)

Inductive attr_index_type :=
| INDEX_NONE | INDEX_ALL | INDEX_EXACTLY | INDEX_CIDR | INDEX_SOUNDEX | INDEX_MAX_TYPE.
#[export] Instance attr_index_type_eq : EqDecision attr_index_type.
Proof. solve_decision. Defined.

Inductive attr_type := TYPE_TEXT | TYPE_ID | TYPE_SEE_ALSO.
#[export] Instance attr_type_eq : EqDecision attr_type.
Proof. solve_decision. Defined.

Inductive av_parse_result := AV_OK | AV_IGNORE | AV_STOP | AV_MAX.
#[export] Instance av_parse_result_eq : EqDecision av_parse_result.
Proof. solve_decision. Defined.

Inductive rec_parse_result := REC_OK | REC_FATAL | REC_INVAL | REC_EOF | REC_NULL | REC_MAX.
#[export] Instance rec_parse_result_eq : EqDecision rec_parse_result.
Proof. solve_decision. Defined.

(** the number of aliases is the length of the list *)
Record attribute_struct := Attribute {
  attr_global_id : Z;
  attr_local_id : Z;
  is_required : bool;
  is_primary_key : bool;
  is_repeatable : bool;
  is_multi_line : bool;
  is_hierarchical : bool;
  is_private : bool;
  attr_aliases : list cstr;
  attr_name : cstr;
  attr_format : option cstr;
  attr_index : attr_index_type;
  attr_kind : attr_type;
  attr_description : option cstr }.
#[export] Instance attribute_struct_eq : EqDecision attribute_struct.
Proof. solve_decision. Defined.

(** without the list of the classes, which is only appended to *)
Record attribute_ref_struct := AttributeRef {
  ar_global_id : Z; ar_name : cstr; ar_aliases : list cstr }.
#[export] Instance attribute_ref_struct_eq : EqDecision attribute_ref_struct.
Proof. solve_decision. Defined.

Record class_struct := Class_ {
  class_id : Z;
  class_name : cstr;
  class_aliases : list cstr;
  db_dir : cstr;
  parse_program : option cstr;
  attribute_list : list attribute_struct;
  class_description : option cstr;
  attr_file : option cstr;
  class_version : option cstr }.
#[export] Instance class_struct_eq : EqDecision class_struct.
Proof. solve_decision. Defined.

Record schema_struct := Schema {
  class_list : list class_struct; attribute_ref_list : list attribute_ref_struct }.
#[export] Instance schema_struct_eq : EqDecision schema_struct.
Proof. solve_decision. Defined.

Inductive auth_area_type := AUTH_AREA_PRIMARY | AUTH_AREA_SECONDARY.
#[export] Instance auth_area_type_eq : EqDecision auth_area_type.
Proof. solve_decision. Defined.

(** The data of the zone file of an area.  The serial number of an area that has
    none is empty, as the tests of it take null and the empty string alike. *)
Record soa_struct := Soa {
  primary_server : option cstr; hostmaster : option cstr; serial_no : cstr;
  refresh_interval : Z; increment_interval : Z; retry_interval : Z; time_to_live : Z }.
#[export] Instance soa_struct_eq : EqDecision soa_struct.
Proof. solve_decision. Defined.
Definition no_soa : soa_struct := Soa None None [] 0 0 0 0.

Record server_struct := Server { server_name : cstr; server_addr : cstr; server_port : Z }.
#[export] Instance server_struct_eq : EqDecision server_struct.
Proof. solve_decision. Defined.

(** the lists of servers and guardians may be null *)
Record auth_area_struct := AuthArea {
  aa_name : cstr;
  aa_schema : option schema_struct;
  aa_type : auth_area_type;
  guardian_list : option (list cstr);
  aa_soa : soa_struct;
  schema_file : option cstr;
  soa_file : option cstr;
  data_dir : option cstr;
  xfer_arg : option cstr;
  xfer_time : Z;
  aa_master : option (list server_struct);
  aa_slave : option (list server_struct) }.
#[export] Instance auth_area_struct_eq : EqDecision auth_area_struct.
Proof. solve_decision. Defined.

(** class_ref_struct: the authority areas that have a class *)
Record class_ref_struct := ClassRef {
  cr_name : cstr; cr_aliases : list cstr; cr_auth_area_list : list auth_area_struct }.

Record av_pair_struct := AvPair { av_attr : attribute_struct; av_value : option cstr }.
#[export] Instance av_pair_struct_eq : EqDecision av_pair_struct.
Proof. solve_decision. Defined.

Record record_struct := Record_ {
  rec_class : class_struct;
  rec_auth_area : auth_area_struct;
  rec_data_file_no : Z;
  rec_index_file_no : Z;
  rec_offset : Z;
  av_pair_list : list av_pair_struct }.
#[export] Instance record_struct_eq : EqDecision record_struct.
Proof. solve_decision. Defined.

(** how a record is validated, with the flags of validate_rec.c: the verdict,
    and the record, whose values the validation may edit *)
Abbreviation record_check := (record_struct → Z → bool * record_struct).
Definition no_check : record_check := λ rec _, (true, rec).

Record anon_av_pair_struct := AnonAvPair { anon_attr_name : cstr; anon_value : cstr }.
#[export] Instance anon_av_pair_struct_eq : EqDecision anon_av_pair_struct.
Proof. solve_decision. Defined.
Record anon_record_struct := AnonRecord {
  anon_data_file_no : Z; anon_offset : Z; anon_av_pair_list : list anon_av_pair_struct }.

(** ** common/client_msgs.h *)

Inductive error_codes_type :=
| REGIST_DEFFERED | OBJECT_NOT_AUTHORITATIVE | NO_OBJECTS_FOUND | UNCOMPAT_VERSION | INVALID_ATTRIBUTE
| INVALID_ATTR_SYNTAX | MISSING_REQ_ATTRIB | MISSING_OBJECT_REF | NON_UNIQ_KEY | OUTDATED_OBJ | EXCEEDED_MAXOBJ
| INVALID_LIMIT | NO_TRANSFER | NOT_MASTER_AUTH_AREA | NO_OBJECT_FOUND | INVALID_DIRECTIVE_PARAM
| INVALID_AUTH_AREA | INVALID_CLASS | INVALID_HOST_PORT | INVALID_QUERY_SYNTAX | QUERY_TOO_COMPLEX
| INVALID_SECURITY | AUTHENTICATION_FAILED | ENCRIPTION_FAILED | CORRUPT_DATA | INVALID_DIRECTIVE
| UNAUTH_DIRECTIVE | UNIDENT_ERROR | UNAUTH_REGIST | UNAUTH_DISPLAY | MEMORY_ALLOCATION_PROBLEM
| SERVICE_NOT_AVAIL | UNRECOV_ERROR | DEADMAN_TIME | MISC_DIAG.
#[export] Instance error_codes_type_eq : EqDecision error_codes_type.
Proof. solve_decision. Defined.

Inductive response_codes_type :=
| RESP_RWHOIS | RESP_REFERRAL | RESP_CLASS | RESP_SEEALSO | RESP_LOAD | RESP_SOA | RESP_STATUS | RESP_XFER
| RESP_SCHEMA | RESP_DIRECTIVE | RESP_INFO | RESP_DISPLAY | RESP_X | RESP_REGISTER | RESP_QUERY.
#[export] Instance response_codes_type_eq : EqDecision response_codes_type.
Proof. solve_decision. Defined.

(** what the client is sent: an error, a line of a response, the end of one,
    what a program of the server prints *)
Inductive message :=
| print_error (code : error_codes_type) (text : cstr)
| print_response (resp_no : response_codes_type) (text : cstr)
| print_ok
| program_output (text : cstr).
#[export] Instance message_eq : EqDecision message.
Proof. solve_decision. Defined.

(** ** mkdb/mkdb_types.h *)

Inductive mkdb_file_type :=
| MKDB_NO_FILE | MKDB_ALL_FILES | MKDB_DATA_FILE | MKDB_ALL_INDEX_FILES
| MKDB_EXACT_INDEX_FILE | MKDB_SOUNDEX_INDEX_FILE | MKDB_CIDR_INDEX_FILE | MKDB_MAX_FILE_TYPE.
#[export] Instance mkdb_file_type_eq : EqDecision mkdb_file_type.
Proof. solve_decision. Defined.

Inductive mkdb_search_type := MKDB_BINARY_SEARCH | MKDB_FULL_SCAN | MKDB_CIDR_SEARCH.
#[export] Instance mkdb_search_type_eq : EqDecision mkdb_search_type.
Proof. solve_decision. Defined.

Inductive mkdb_compare_type :=
| MKDB_FULL_COMPARE | MKDB_PARTIAL_COMPARE | MKDB_SUBSTR_COMPARE
| MKDB_NOT_FULL_COMPARE | MKDB_NOT_PARTIAL_COMPARE | MKDB_NOT_SUBSTR_COMPARE
| MKDB_NOT_CIDR_COMPARE | MKDB_NOT_SOUNDEX_COMPARE.
#[export] Instance mkdb_compare_type_eq : EqDecision mkdb_compare_type.
Proof. solve_decision. Defined.

(** [fp] is the position of the open stream, [None] for a null FILE pointer *)
Record file_struct := File {
  file_type : mkdb_file_type;
  filename : cstr;
  file_no : Z;
  file_size : Z;
  num_recs : Z;
  file_lock : bool;
  fp : option Z }.
Definition with_fp (p : option Z) (f : file_struct) : file_struct :=
  File (file_type f) (filename f) (file_no f) (file_size f) (num_recs f) (file_lock f) p.

(** a null value is [None] *)
Record index_struct := IndexItem {
  offset : Z; data_file_no : Z; deleted_flag : Z; attribute_id : Z; value : option cstr }.
#[export] Instance index_struct_eq : EqDecision index_struct.
Proof. solve_decision. Defined.

(** A term and the terms that its and_list and or_list point to *)
Inductive query_term := QueryTerm {
  qt_attribute_name : option cstr;
  qt_attribute_id : Z;
  search_type : mkdb_search_type;
  comp_type : mkdb_compare_type;
  search_value : cstr;
  and_list : option query_term;
  or_list : option query_term }.

Record query_struct := Query {
  q_class_name : option cstr; q_auth_area_name : option cstr; query_tree : option query_term }.

(** search_prim.h *)
Inductive ret_code_type :=
| UNKNOWN_SEARCH_ERROR | FILE_NOT_FOUND_ERRO | INVALID_SEARCH_TYPE
| SEARCH_SUCCESSFUL | HIT_LIMIT_EXCEEDED.
#[export] Instance ret_code_type_eq : EqDecision ret_code_type.
Proof. solve_decision. Defined.

(** ** Look-ups *)

(** the first element of a list that satisfies a test, as the loops over
    dl_lists find it *)
Fixpoint find_first {A} (p : A → bool) (l : list A) : option A :=
  match l with [] => None | x :: l => if p x then Some x else find_first p l end.

Definition named (name : cstr) (n : cstr) (aliases : list cstr) : bool :=
  STR_EQ n name || existsb (λ a, STR_EQ a name) aliases.

Definition find_attribute_by_name (c : class_struct) (name : cstr) : option attribute_struct :=
  find_first (λ a, named name (attr_name a) (attr_aliases a)) (attribute_list c).
Definition find_attribute_by_id (c : class_struct) (id : Z) : option attribute_struct :=
  find_first (λ a, attr_local_id a =? id) (attribute_list c).
Definition find_attribute_by_global_id (c : class_struct) (id : Z) : option attribute_struct :=
  find_first (λ a, attr_global_id a =? id) (attribute_list c).
Definition find_global_attr_by_name (l : list attribute_ref_struct) (name : cstr) :
    option attribute_ref_struct :=
  find_first (λ a, named name (ar_name a) (ar_aliases a)) l.
Definition find_global_attr_by_id (l : list attribute_ref_struct) (id : Z) :
    option attribute_ref_struct :=
  find_first (λ a, ar_global_id a =? id) l.

Definition find_class_by_name (s : option schema_struct) (name : cstr) : option class_struct :=
  s ← s; find_first (λ c, named name (Types.class_name c) (class_aliases c)) (class_list s).
Definition find_class_by_id (s : option schema_struct) (id : Z) : option class_struct :=
  s ← s; find_first (λ c, class_id c =? id) (class_list s).
Definition find_global_class_by_name (l : list class_ref_struct) (name : cstr) :
    option class_ref_struct :=
  find_first (λ c, named name (cr_name c) (cr_aliases c)) l.

Definition find_auth_area_by_name (l : list auth_area_struct) (name : option cstr) :
    option auth_area_struct :=
  match name with
  | Some name => if STR_EXISTS (Some name) then find_first (λ a, STR_EQ (aa_name a) name) l else None
  | None => None
  end.

(** the test [type >= MKDB_EXACT_INDEX_FILE && type < MKDB_MAX_FILE_TYPE] *)
Definition is_index_file_type (t : mkdb_file_type) : bool :=
  match t with
  | MKDB_EXACT_INDEX_FILE | MKDB_SOUNDEX_INDEX_FILE | MKDB_CIDR_INDEX_FILE => true
  | _ => false
  end.
Definition mkdb_file_type_equals (t1 t2 : mkdb_file_type) : bool :=
  if decide (t1 = t2) then true
  else if decide (t1 = MKDB_NO_FILE ∨ t2 = MKDB_NO_FILE) then false
  else if decide (t1 = MKDB_ALL_FILES ∨ t2 = MKDB_ALL_FILES) then true
  else if decide (t1 = MKDB_ALL_INDEX_FILES) then is_index_file_type t2
  else if decide (t2 = MKDB_ALL_INDEX_FILES) then is_index_file_type t1
  else false.

Definition find_file_by_id (l : list file_struct) (id : Z) (t : mkdb_file_type) :
    option file_struct :=
  find_first (λ f, (file_no f =? id) && mkdb_file_type_equals t (file_type f)) l.

(** copies of the files; a locked file is only listed with all files *)
Definition filter_file_list (t : mkdb_file_type) (master : list file_struct) : list file_struct :=
  List.filter (λ f, bool_decide (t = MKDB_ALL_FILES)
                    || (mkdb_file_type_equals t (file_type f) && negb (file_lock f))) master.

Lemma find_first_Some {A} (p : A → bool) l x :
  find_first p l = Some x → x ∈ l ∧ p x = true.
Proof.
  induction l as [|y l IH]; simpl; [done|]. destruct (p y) eqn:E.
  - intros [= <-]. split; [left|done].
  - intros [? ?]%IH. split; [by right|done].
Qed.

Lemma find_first_None {A} (p : A → bool) l :
  find_first p l = None ↔ ∀ x, x ∈ l → p x = false.
Proof.
  induction l as [|y l IH]; simpl.
  - split; [intros _ x []%elem_of_nil|done].
  - destruct (p y) eqn:E.
    + split; [done|]. intros H. by rewrite (H y) in E by left.
    + rewrite IH. split; [intros H x [->|Hx]%elem_of_cons; auto|]. intros H x Hx. apply H. by right.
Qed.
