(* ===== verification/ClientMsgs.v ===== *)
(** * Messages to the client (common/client_msgs.c)

    Errors and responses are collected as messages; this file prints them.  The
    static flag printed_error_flag lets at most one error through until
    clear_printed_error_flag resets it. *)

From S2P Require Import Prelude CLib Types.

(** errs *)
Definition error_msg (err_no : error_codes_type) : string :=
  match err_no with
  | REGIST_DEFFERED => "120 Registration Deferred"
  | OBJECT_NOT_AUTHORITATIVE => "130 Object not authoritative"
  | NO_OBJECTS_FOUND => "230 No Objects Found"
  | UNCOMPAT_VERSION => "300 Not Compatible With Version"
  | INVALID_ATTRIBUTE => "320 Invalid Attribute"
  | INVALID_ATTR_SYNTAX => "321 Invalid Attribute Syntax"
  | MISSING_REQ_ATTRIB => "322 Required Attribute Missing"
  | MISSING_OBJECT_REF => "323 Object Reference Not Found"
  | NON_UNIQ_KEY => "324 Primary Key Not Unique"
  | OUTDATED_OBJ => "325 Failed to Update Outdated Object"
  | EXCEEDED_MAXOBJ => "330 Exceeded Max Objects Limit"
  | INVALID_LIMIT => "331 Invalid Limit"
  | NO_TRANSFER => "332 Nothing To Transfer"
  | NOT_MASTER_AUTH_AREA => "333 Not Master for Authority Area"
  | NO_OBJECT_FOUND => "336 Object Not Found"
  | INVALID_DIRECTIVE_PARAM => "338 Invalid Directive Syntax"
  | INVALID_AUTH_AREA => "340 Invalid Authority Area"
  | INVALID_CLASS => "341 Invalid Class"
  | INVALID_HOST_PORT => "342 Invalid Host/Port"
  | INVALID_QUERY_SYNTAX => "350 Invalid Query Syntax"
  | QUERY_TOO_COMPLEX => "351 Query Too Complex"
  | INVALID_SECURITY => "352 Invalid Security Method"
  | AUTHENTICATION_FAILED => "353 Authentication Failed"
  | ENCRIPTION_FAILED => "354 Encription Failed"
  | CORRUPT_DATA => "360 Corrupt Data. Keyadd Failed"
  | INVALID_DIRECTIVE => "400 Directive Not Available"
  | UNAUTH_DIRECTIVE => "401 Not Authorized for Directive"
  | UNIDENT_ERROR => "402 Unidentified Error"
  | UNAUTH_REGIST => "420 Registration Not Authorized"
  | UNAUTH_DISPLAY => "436 Invalid Display Format"
  | MEMORY_ALLOCATION_PROBLEM => "500 Memory Allocation Problem"
  | SERVICE_NOT_AVAIL => "501 Service Not Available"
  | UNRECOV_ERROR => "502 Unrecoverable Error"
  | DEADMAN_TIME => "503 Idle Time Exceeded"
  | MISC_DIAG => "560 "
  end.

(** resp *)
Definition response_msg (resp_no : response_codes_type) : string :=
  match resp_no with
  | RESP_RWHOIS => "%rwhois" | RESP_REFERRAL => "%referral" | RESP_CLASS => "%class" | RESP_SEEALSO => "%see-also"
  | RESP_LOAD => "%load" | RESP_SOA => "%soa" | RESP_STATUS => "%status" | RESP_XFER => "%xfer"
  | RESP_SCHEMA => "%schema" | RESP_DIRECTIVE => "%directive" | RESP_INFO => "%info" | RESP_DISPLAY => "%display"
  | RESP_X => "%X-" | RESP_REGISTER => "%register" | RESP_QUERY => ""
  end.

(** The text of a message, given printed_error_flag.  A response whose format is
    empty has no blank behind its tag; only the empty format gives the empty
    text, since the others hold fixed characters. *)
Definition print_message (printed_error_flag : bool) (m : message) : bool * cstr :=
  match m with
  | print_error err_no str =>
      if printed_error_flag then (true, [])
      else (true, $"%error " ++ lit (error_msg err_no)
                  ++ (match str with [] => [] | _ => $": " ++ str end) ++ [NL])
  | print_response resp_no text =>
      (printed_error_flag,
       lit (response_msg resp_no)
       ++ (if bool_decide (response_msg resp_no ≠ ""%string) && bool_decide (text ≠ []) then [SP] else [])
       ++ text ++ [NL])
  | print_ok => (printed_error_flag, $"%ok" ++ [NL])
  | program_output text => (printed_error_flag, text)
  end.
Fixpoint print_messages (flag : bool) (l : list message) : cstr :=
  match l with
  | [] => []
  | m :: l => let '(flag, text) := print_message flag m in text ++ print_messages flag l
  end.

Definition is_error (m : message) : bool := match m with print_error _ _ => true | _ => false end.

(** the messages that are let through *)
Fixpoint first_error (flag : bool) (l : list message) : list message :=
  match l with
  | [] => []
  | m :: l => if is_error m then (if flag then first_error true l else m :: first_error true l)
              else m :: first_error flag l
  end.

Lemma first_error_once flag l : (length (filter is_error (first_error flag l)) ≤ if flag then 0 else 1)%nat.
Proof.
  revert flag. induction l as [|m l IH]; intros flag; cbn [first_error]; [destruct flag; cbn; lia|].
  destruct (is_error m) eqn:E.
  - destruct flag; [apply (IH true)|]. rewrite filter_cons_True by (by rewrite E).
    cbn [length]. pose proof (IH true). cbn in *. lia.
  - rewrite filter_cons_False by (rewrite E; tauto). apply IH.
Qed.

(** The client sees one error per line.  What is printed of a list of
    messages is what is printed, one by one, of the messages up to and without
    the errors behind the first one, and nothing else is suppressed. *)
Theorem one_error_printed l :
  print_messages false l = first_error false l ≫= (λ m, (print_message false m).2) ∧
  (length (filter is_error (first_error false l)) ≤ 1)%nat ∧
  filter (λ m, ¬ is_error m) (first_error false l) = filter (λ m, ¬ is_error m) l.
Proof.
  split_and!; [|apply (first_error_once false)|].
  - assert (∀ flag, print_messages flag l = first_error flag l ≫= (λ m, (print_message false m).2)) as H; [|apply H].
    induction l as [|m l IH]; intros flag; [done|]. cbn [print_messages first_error].
    destruct m as [e t|r t| |t]; cbn [is_error print_message].
    + destruct flag; cbn [app]; rewrite IH; [done|]. by rewrite bind_cons.
    + rewrite bind_cons, IH. by destruct flag.
    + rewrite bind_cons, IH. by destruct flag.
    + rewrite bind_cons, IH. by destruct flag.
  - generalize false at 1. induction l as [|m l IH]; intros flag; [done|]. cbn [first_error].
    destruct (is_error m) eqn:E.
    + rewrite (filter_cons_False _ m l) by (rewrite E; cbn; tauto). destruct flag; [apply IH|].
      rewrite filter_cons_False by (rewrite E; cbn; tauto). apply IH.
    + rewrite !filter_cons_True by (rewrite E; cbn; tauto). f_equal. apply IH.
Qed.
