(* ===== verification/Checks.v ===== *)
(** * Checks

    The functions of server/ that serve a directive answer yes or no and print
    messages to the client on the way.  They are computations of a small monad
    that stops at the first no and collects what is printed. *)

From S2P Require Import Prelude CLib Types.

(** [freed]: the check has destroyed the new record that its caller still has *)
Inductive verdict A := Accepted (a : A) | Rejected (freed : bool).
Arguments Accepted {A} _.
Arguments Rejected {A} _.
Definition check (A : Type) : Type := outcome (verdict A * list message).

#[export] Instance check_ret : MRet check := λ A a, Ret (Accepted a, []).
#[export] Instance check_bind : MBind check := λ A B f m,
  match m with
  | Ret (Accepted a, l) =>
      match f a with Ret (v, l') => Ret (v, l ++ l') | Fault => Fault | NoFuel => NoFuel end
  | Ret (Rejected freed, l) => Ret (Rejected freed, l)
  | Fault => Fault
  | NoFuel => NoFuel
  end.
Definition lift {A} (m : outcome A) : check A :=
  match m with Ret a => Ret (Accepted a, []) | Fault => Fault | NoFuel => NoFuel end.
Definition pass {A} (a : A) : check A := mret a.
Definition reject {A} (l : list message) : check A := Ret (Rejected false, l).
Definition tell (l : list message) : check unit := Ret (Accepted (), l).
Definition require (b : bool) (l : list message) : check unit := if b then pass () else reject l.

Lemma check_bind_inv {A B} (m : check A) (f : A → check B) v l :
  m ≫= f = Ret (v, l) →
  (∃ freed, m = Ret (Rejected freed, l) ∧ v = Rejected freed) ∨
  (∃ a l1 l2, m = Ret (Accepted a, l1) ∧ f a = Ret (v, l2) ∧ l = l1 ++ l2).
Proof.
  unfold mbind, check_bind. destruct m as [[[a|freed] l1]| |]; [|intros [= <- <-]; left; by eexists|done..].
  destruct (f a) as [[v' l2]| |] eqn:E; [|done..]. intros [= <- <-]. right. by exists a, l1, l2.
Qed.

Lemma check_accepted {A B} (m : check A) (f : A → check B) b l :
  m ≫= f = Ret (Accepted b, l) →
  ∃ a l1 l2, m = Ret (Accepted a, l1) ∧ f a = Ret (Accepted b, l2) ∧ l = l1 ++ l2.
Proof. by intros [(? & ? & ?)|?]%check_bind_inv. Qed.

Lemma lift_accepted {A} (m : outcome A) a l : lift m = Ret (Accepted a, l) → m = Ret a ∧ l = [].
Proof. by destruct m; intros [= -> <-]. Qed.

Lemma require_accepted b l u l' : require b l = Ret (Accepted u, l') → b = true ∧ l' = [].
Proof. destruct b; [by intros [= _ <-]|done]. Qed.

(** takes an accepted check apart, statement by statement *)
Ltac accepted H :=
  cbn beta iota in H;
  lazymatch type of H with
  | _ ≫= _ = Ret (Accepted _, _) =>
      let a := fresh "x" in let l1 := fresh "l" in let l2 := fresh "l" in let H1 := fresh "H" in
      apply check_accepted in H as (a & l1 & l2 & H1 & H & ->); accepted H1; accepted H
  | lift _ = Ret (Accepted _, _) => apply lift_accepted in H as [H ->]
  | require _ _ = Ret (Accepted _, _) => apply require_accepted in H as [H ->]
  | pass _ = Ret (Accepted _, _) => injection H as H <-; try subst
  | match ?x with pair _ _ => _ end = _ => destruct x; accepted H
  | _ => idtac
  end.
