(* ===== verification/Stdio.v ===== *)
(** * Text files

    A file is the list of its bytes and a stream is a position in it.  The
    functions of <stdio.h> that the search engine and the record reader use,
    readline of misc.c, and the view of a file as a sequence of lines. *)

From S2P Require Import Prelude CLib CString.

(** the files of the system by name *)
Abbreviation filesystem := (cstr → option cstr).

(** fgets: at most [n] bytes, up to and including the newline *)
Fixpoint line_of (n : nat) (s : cstr) : cstr :=
  match n, s with
  | S n, c :: s => c :: if c =c NL then [] else line_of n s
  | _, _ => []
  end.
Definition fgets (f : cstr) (pos : nat) (size : nat) : option (cstr * nat) :=
  match drop pos f with
  | [] => None
  | rest => let l := line_of (size - 1) rest in Some (l, pos + length l)
  end%nat.

(** fread of bytes: what is there from the position, at most [n] of them *)
Definition fread (f : cstr) (pos : nat) (n : nat) : cstr := take n (drop pos f).

(** a C string ends at its first NUL *)
Definition cstring (s : cstr) : cstr := takewhile (λ c, negb (c =c NUL)) s.

(** readline: [None] at the end of the file; a line that holds a control
    character or white space at its ends loses it *)
Definition readline (f : cstr) (pos : nat) (size : nat) : option (cstr * nat) :=
  match fgets f pos size with
  | None => None
  | Some (buffer, pos) => Some (trim_s (strip_control_s (cstring buffer)), pos)
  end.

(** ** Lines *)

(** [text ls] is the file whose lines, without their newlines, are [ls]. *)
Definition text (ls : list cstr) : cstr := ls ≫= (λ l, l ++ [NL]).
(** the position of line [i] *)
Definition start (ls : list cstr) (i : nat) : nat := length (text (take i ls)).
Definition is_line (l : cstr) : Prop := NL ∉ l ∧ NUL ∉ l.
(** what readline makes of a line *)
Definition clean (l : cstr) : cstr := trim_s (strip_control_s l).

Section Lines.
Implicit Types (l : cstr) (ls : list cstr).

Lemma text_app ls ls' : text (ls ++ ls') = text ls ++ text ls'.
Proof. apply bind_app. Qed.
Lemma text_cons l ls : text (l :: ls) = l ++ NL :: text ls.
Proof. unfold text. simpl. by rewrite <-app_assoc. Qed.

Lemma start_0 ls : start ls 0 = 0%nat.
Proof. done. Qed.
Lemma start_all ls : start ls (length ls) = length (text ls).
Proof. unfold start. by rewrite firstn_all. Qed.

Lemma start_S ls i l : ls !! i = Some l → start ls (S i) = (start ls i + length l + 1)%nat.
Proof.
  intros H. unfold start. rewrite (take_S_r _ _ l) by done.
  rewrite text_app, length_app. cbn. rewrite !length_app. simpl. lia.
Qed.

Lemma start_mono ls i j : (i ≤ j)%nat → (start ls i ≤ start ls j)%nat.
Proof.
  intros H. unfold start. replace j with (i + (j - i))%nat by lia.
  rewrite <-take_take_drop, text_app, length_app. lia.
Qed.

Lemma start_lt ls i j : (i < j ≤ length ls)%nat → (start ls i < start ls j)%nat.
Proof.
  intros [H1 H2]. destruct (lookup_lt_is_Some_2 ls i) as [l Hl]; [lia|].
  pose proof (start_S _ _ _ Hl). pose proof (start_mono ls (S i) j). lia.
Qed.

Lemma text_split ls i l :
  ls !! i = Some l → text ls = text (take i ls) ++ l ++ NL :: text (drop (S i) ls).
Proof.
  intros H. rewrite <-(take_drop_middle ls i l H) at 1. by rewrite text_app, text_cons.
Qed.

Lemma line_of_line n l rest :
  NL ∉ l → (length l < n)%nat → line_of n (l ++ NL :: rest) = l ++ [NL].
Proof.
  revert n. induction l as [|c l IH]; intros [|n] Hl Hn; simpl in *; try lia.
  - done.
  - apply not_elem_of_cons in Hl as [Hc Hl]. rewrite (proj2 (char_eqb_neq c NL)) by congruence.
    by rewrite IH by (done || lia).
Qed.

Lemma takewhile_all {A} (p : A → bool) (s t : list A) :
  Forall (λ c, p c = true) s → takewhile p (s ++ t) = s ++ takewhile p t.
Proof. induction 1 as [|c s Hc _ IH]; simpl; [done|]. by rewrite Hc, IH. Qed.

Lemma cstring_no_nul s : NUL ∉ s → cstring s = s.
Proof.
  intros H. unfold cstring. rewrite <-(app_nil_r s) at 1. rewrite takewhile_all; [simpl; by rewrite app_nil_r|].
  apply Forall_forall. intros c Hc. apply negb_true_iff, char_eqb_neq. by intros ->.
Qed.

(** readline at the start of a line that fits returns the line *)
Lemma readline_at pre l rest size :
  is_line l → (length l + 1 < size)%nat →
  readline (pre ++ l ++ NL :: rest) (length pre) size
  = Some (clean l, length pre + length l + 1)%nat.
Proof.
  intros [Hnl Hnul] Hsize. unfold readline, fgets. rewrite drop_app_length.
  destruct (l ++ NL :: rest) eqn:E; [by destruct l|]. rewrite <-E, line_of_line by (done || lia).
  f_equal. f_equal; [|rewrite length_app; simpl; lia].
  rewrite cstring_no_nul by (rewrite not_elem_of_app, list_elem_of_singleton; done).
  unfold clean, strip_control_s. rewrite filter_app. simpl. by rewrite app_nil_r.
Qed.

Lemma readline_line ls i l size :
  ls !! i = Some l → is_line l → (length l + 1 < size)%nat →
  readline (text ls) (start ls i) size = Some (clean l, start ls (S i)).
Proof.
  intros Hi Hl Hsize. rewrite (text_split _ _ _ Hi). unfold start at 1.
  rewrite readline_at by done. by rewrite (start_S _ _ _ Hi).
Qed.

Lemma text_length ls : (length ls ≤ length (text ls))%nat.
Proof. induction ls as [|l ls IH]; [done|]. rewrite text_cons, length_app. simpl. lia. Qed.

Lemma readline_end ls size : readline (text ls) (start ls (length ls)) size = None.
Proof. unfold readline, fgets. rewrite start_all, drop_all. done. Qed.

Lemma fgets_progress f pos size l pos' :
  (1 < size)%nat → fgets f pos size = Some (l, pos') → (pos < pos' ≤ length f)%nat.
Proof.
  intros Hs. unfold fgets. destruct (drop pos f) as [|c rest] eqn:E; [done|]. intros [= <- <-].
  assert (length (c :: rest) = length f - pos)%nat as Hl by (rewrite <-E; apply length_drop).
  assert (∀ n s, length (line_of n s) ≤ length s)%nat as Hle.
  { induction n as [|n IH]; intros [|x s]; simpl; try lia. destruct (x =c NL); simpl; [lia|].
    specialize (IH s). lia. }
  pose proof (Hle (size - 1)%nat (c :: rest)).
  assert (1 ≤ length (line_of (size - 1) (c :: rest)))%nat.
  { destruct (size - 1)%nat eqn:En; [lia|]. simpl. lia. }
  simpl in Hl. simpl length in *. lia.
Qed.
End Lines.
