(* ===== verification/ValidateRec.v ===== *)
(** * Validation of records (common/validate_rec.c)

    A record is checked against its class: the required attributes are there,
    only the repeatable ones are repeated, and values have the format that the
    class asks for.  The flags say who is told of an error and whether the
    check goes on after one.  A value that is matched with a regular expression
    is turned to upper case in the record, which the checks return. *)

From S2P Require Import Prelude CLib CString Misc Types.
Local Open Scope Z_scope.

(** ** validate_rec.c: the flags *)

Definition VALIDATE_ON : Z := 1.
Definition VALIDATE_PROTOCOL_ERROR : Z := 2.
Definition VALIDATE_QUIET : Z := 4.
Definition VALIDATE_FIND_ALL : Z := 8.

Definition encode_validate_flag (quiet_mode protocol_error find_all : bool) : Z :=
  let result := VALIDATE_ON in
  let result := if quiet_mode then Z.lor result VALIDATE_QUIET else result in
  let result := if negb quiet_mode && protocol_error
                then Z.lor result VALIDATE_PROTOCOL_ERROR else result in
  if find_all && negb protocol_error then Z.lor result VALIDATE_FIND_ALL else result.

(** quiet mode, protocol error, find all *)
Definition decode_validate_flag (validate_flag : Z) : bool * bool * bool :=
  (negb (Z.land validate_flag VALIDATE_QUIET =? 0),
   negb (Z.land validate_flag VALIDATE_PROTOCOL_ERROR =? 0),
   negb (Z.land validate_flag VALIDATE_FIND_ALL =? 0)).

(** ** The checks *)

(** an error that is sent to the client or written to the log, with the name
    of its attribute *)
Inductive report := PrintError (e : error_codes_type) (name : cstr) | LogError (e : error_codes_type) (name : cstr).

Definition find_record_attr_by_id (rec : record_struct) (id : Z) : option av_pair_struct :=
  find_first (λ av, attr_local_id (av_attr av) =? id) (av_pair_list rec).

Fixpoint count_by_id (id : Z) (avs : list av_pair_struct) : Z :=
  match avs with
  | [] => 0
  | av :: avs => (if attr_local_id (av_attr av) =? id then 1 else 0) + count_by_id id avs
  end.
Definition count_record_attr_by_id (rec : record_struct) (id : Z) : Z := count_by_id id (av_pair_list rec).

(** The loops of check_required and check_repeated over the attributes of the
    class: [bad] finds the error [e] in one of them. *)
Fixpoint check_attrs (validate_flag : Z) (e : error_codes_type) (bad : attribute_struct → bool)
    (attrs : list attribute_struct) : bool * list report :=
  match attrs with
  | [] => (true, [])
  | attr :: attrs =>
      if bad attr then
        let '(quiet_mode_flag, protocol_error_flag, find_all_flag) := decode_validate_flag validate_flag in
        let out := if protocol_error_flag : bool then [PrintError e (attr_name attr)]
                   else if negb quiet_mode_flag then [LogError e (attr_name attr)] else [] in
        if negb find_all_flag then (false, out)
        else (false, out ++ (check_attrs validate_flag e bad attrs).2)
      else check_attrs validate_flag e bad attrs
  end.

Definition check_required (rec : record_struct) (validate_flag : Z) : bool * list report :=
  check_attrs validate_flag MISSING_REQ_ATTRIB
    (λ attr, is_required attr && bool_decide (find_record_attr_by_id rec (attr_local_id attr) = None))
    (attribute_list (rec_class rec)).

Definition check_repeated (rec : record_struct) (validate_flag : Z) : bool * list report :=
  check_attrs validate_flag INVALID_ATTRIBUTE
    (λ attr, negb (is_repeatable attr) && negb (is_multi_line attr)
             && (1 <? count_record_attr_by_id rec (attr_local_id attr)))
    (attribute_list (rec_class rec)).

Section Formats.
(** the regular expressions of regexp/: compiling, which fails for a malformed
    expression, and matching *)
Context {prog : Type} (regcomp : cstr → option prog) (regexec : prog → cstr → bool).

(** the answer and the value; regexec refuses a null value *)
Definition validate_format (format_str : cstr) (value : option cstr) : bool * option cstr :=
  match parse_line (Some format_str) with
  | Some (tag, datum) =>
      if STR_EQ tag ($"re") then
        match regcomp (ltrim_s datum) with
        | None => (true, value)
        | Some p =>
            let value := strupr_s <$> value in
            (match value with Some v => regexec p v | None => false end, value)
        end
      else (true, value)
  | None => (true, value)
  end.

Fixpoint check_format_pairs (validate_flag : Z) (avs : list av_pair_struct) :
    bool * list report * list av_pair_struct :=
  match avs with
  | [] => (true, [], [])
  | av :: avs =>
      let '(good, v) := match attr_format (av_attr av) with
                        | Some format => validate_format format (av_value av)
                        | None => (true, av_value av)
                        end in
      let av := AvPair (av_attr av) v in
      if good : bool then
        let '(status, out, avs) := check_format_pairs validate_flag avs in (status, out, av :: avs)
      else
        let '(_, protocol_error_flag, find_all_flag) := decode_validate_flag validate_flag in
        let out := if protocol_error_flag : bool
                   then [PrintError INVALID_ATTR_SYNTAX (attr_name (av_attr av))]
                   else [LogError INVALID_ATTR_SYNTAX (attr_name (av_attr av))] in
        if negb find_all_flag then (false, out, av :: avs)
        else
          let '(_, out', avs) := check_format_pairs validate_flag avs in (false, out ++ out', av :: avs)
  end.

Definition with_pairs (rec : record_struct) (avs : list av_pair_struct) : record_struct :=
  Record_ (rec_class rec) (rec_auth_area rec) (rec_data_file_no rec) (rec_index_file_no rec)
          (rec_offset rec) avs.
Definition check_formats (rec : record_struct) (validate_flag : Z) : bool * list report * record_struct :=
  let '(status, out, avs) := check_format_pairs validate_flag (av_pair_list rec) in
  (status, out, with_pairs rec avs).

(** the verdict, the reports and the record *)
Definition check_record_out (rec : record_struct) (validate_flag : Z) :
    bool * list report * record_struct :=
  let '(_, _, find_all_flag) := decode_validate_flag validate_flag in
  let '(s1, out1) := check_required rec validate_flag in
  if negb s1 && negb find_all_flag then (false, out1, rec)
  else
    let '(s2, out2) := check_repeated rec validate_flag in
    if negb s2 && negb find_all_flag then (false, out1 ++ out2, rec)
    else
      let '(s3, out3, rec) := check_formats rec validate_flag in
      (s1 && s2 && s3, out1 ++ out2 ++ out3, rec).
Definition check_record : record_check := λ rec validate_flag,
  let '(valid, _, rec) := check_record_out rec validate_flag in (valid, rec).
End Formats.

(** ** What the checks decide *)

Section Verdict.
Context {prog : Type} (regcomp : cstr → option prog) (regexec : prog → cstr → bool).

(** the expression that a format asks for; any other format allows all values *)
Definition format_regexp (format : cstr) : option prog :=
  '(tag, datum) ← parse_line (Some format);
  if STR_EQ tag ($"re") then regcomp (ltrim_s datum) else None.
Definition pair_regexp (av : av_pair_struct) : option prog :=
  format ← attr_format (av_attr av); format_regexp format.

Definition formatted (av : av_pair_struct) : Prop :=
  ∀ p, pair_regexp av = Some p → ∃ v, av_value av = Some v ∧ regexec p (strupr_s v) = true.
(** the pair as the check leaves it *)
Definition upcase_pair (av : av_pair_struct) : av_pair_struct :=
  match pair_regexp av with Some _ => AvPair (av_attr av) (strupr_s <$> av_value av) | None => av end.

Definition has_attr (a : attribute_struct) (av : av_pair_struct) : Prop :=
  attr_local_id (av_attr av) = attr_local_id a.

(** a record as its class wants it *)
Record well_typed (rec : record_struct) : Prop := {
  wt_required a : a ∈ attribute_list (rec_class rec) → is_required a = true →
    ∃ av, av ∈ av_pair_list rec ∧ has_attr a av;
  wt_single a i j av av' : a ∈ attribute_list (rec_class rec) →
    is_repeatable a = false → is_multi_line a = false →
    av_pair_list rec !! i = Some av → av_pair_list rec !! j = Some av' →
    has_attr a av → has_attr a av' → i = j;
  wt_formatted : Forall formatted (av_pair_list rec) }.

Lemma check_attrs_verdict flag e bad attrs :
  (check_attrs flag e bad attrs).1 = true ↔ ∀ a, a ∈ attrs → bad a = false.
Proof.
  induction attrs as [|a attrs IH]; cbn [check_attrs].
  - split; [by intros _ a ?%elem_of_nil|done].
  - destruct (bad a) eqn:E.
    + destruct (decode_validate_flag flag) as [[q p] fa]. transitivity False; [by destruct (negb fa)|].
      split; [done|]. intros H. by rewrite (H a) in E by left.
    + rewrite IH. split; intros H x Hx; [apply elem_of_cons in Hx as [->|Hx]; auto|].
      apply H. by right.
Qed.

Lemma check_attrs_reports flag e bad attrs :
  (check_attrs flag e bad attrs).1 = true → (check_attrs flag e bad attrs).2 = [].
Proof.
  induction attrs as [|a attrs IH]; cbn [check_attrs]; [done|]. destruct (bad a); [|done].
  destruct (decode_validate_flag flag) as [[q p] fa]. by destruct (negb fa).
Qed.

Lemma check_attrs_loud flag e bad attrs :
  (decode_validate_flag flag).1.1 = false → (check_attrs flag e bad attrs).1 = false →
  (check_attrs flag e bad attrs).2 ≠ [].
Proof.
  intros Hq. induction attrs as [|a attrs IH]; cbn [check_attrs]; [done|]. destruct (bad a); [|done].
  destruct (decode_validate_flag flag) as [[q p] fa]. cbn in Hq. subst q. cbn [negb].
  by destruct p, (negb fa).
Qed.

Lemma strupr_s_idemp s : strupr_s (strupr_s s) = strupr_s s.
Proof.
  unfold strupr_s. rewrite <- list_fmap_compose. apply list_fmap_ext. intros i c _. apply toupper_idemp.
Qed.

Lemma count_by_id_pos id avs : 0 ≤ count_by_id id avs.
Proof. induction avs as [|av avs IH]; cbn; [lia|]. destruct (_ =? _); lia. Qed.

Lemma count_by_id_one id avs :
  1 ≤ count_by_id id avs ↔ ∃ i av, avs !! i = Some av ∧ attr_local_id (av_attr av) = id.
Proof.
  induction avs as [|x avs IH]; cbn [count_by_id].
  - split; [lia|]. by intros (i & av & ? & _).
  - pose proof (count_by_id_pos id avs). destruct (Z.eqb_spec (attr_local_id (av_attr x)) id) as [E|E].
    + split; [intros _; by exists O, x|lia].
    + rewrite Z.add_0_l, IH. split; intros (i & av & Hi & Ha); [by exists (S i), av|].
      destruct i; [by injection Hi as ->|by exists i, av].
Qed.

Lemma count_by_id_single id avs :
  count_by_id id avs ≤ 1 ↔
  ∀ i j av av', avs !! i = Some av → avs !! j = Some av' →
    attr_local_id (av_attr av) = id → attr_local_id (av_attr av') = id → i = j.
Proof.
  induction avs as [|x avs IH]; cbn [count_by_id]; [by split; [|lia]|].
  destruct (Z.eqb_spec (attr_local_id (av_attr x)) id) as [E|E].
  - transitivity (¬ 1 ≤ count_by_id id avs); [lia|]. rewrite count_by_id_one. split.
    + intros H [|i] [|j] av av' Hi Hj Ha Ha'; [done| | |]; destruct H; eauto.
    + intros H (i & av & Hi & Ha). by specialize (H O (S i) x av eq_refl Hi E Ha).
  - rewrite Z.add_0_l, IH. split; intros H.
    + intros [|i] [|j] av av' Hi Hj Ha Ha'; [by injection Hi as ->..| |]; [by injection Hj as ->|].
      f_equal. by eapply H.
    + intros i j av av' Hi Hj Ha Ha'. assert (S i = S j) as [=] by by eapply H. done.
Qed.

Lemma check_required_verdict rec flag :
  (check_required rec flag).1 = true ↔
  ∀ a, a ∈ attribute_list (rec_class rec) → is_required a = true →
       ∃ av, av ∈ av_pair_list rec ∧ has_attr a av.
Proof.
  unfold check_required. rewrite check_attrs_verdict. apply forall_proper. intros a.
  apply Morphisms_Prop.iff_iff_iff_impl_morphism; [done|]. unfold find_record_attr_by_id, has_attr.
  destruct (is_required a); cbn [andb]; [|by split].
  rewrite bool_decide_eq_false. split.
  - intros H _. destruct (find_first _ _) as [av|] eqn:E; [|done].
    apply find_first_Some in E as [? ?%Z.eqb_eq]. by exists av.
  - intros (av & Hin & Ha) E; [done|]. rewrite find_first_None in E. specialize (E av Hin). lia.
Qed.

Lemma check_repeated_verdict rec flag :
  (check_repeated rec flag).1 = true ↔
  ∀ a i j av av', a ∈ attribute_list (rec_class rec) → is_repeatable a = false → is_multi_line a = false →
    av_pair_list rec !! i = Some av → av_pair_list rec !! j = Some av' →
    has_attr a av → has_attr a av' → i = j.
Proof.
  unfold check_repeated, count_record_attr_by_id. rewrite check_attrs_verdict. split; intros H a.
  - intros i j av av' Ha Hr Hm. apply (count_by_id_single (attr_local_id a)).
    specialize (H a Ha). rewrite Hr, Hm in H. cbn in H. lia.
  - intros Ha. destruct (is_repeatable a) eqn:Hr, (is_multi_line a) eqn:Hm; try done. cbn [negb andb].
    apply Z.ltb_ge, count_by_id_single. intros i j av av'. by apply H.
Qed.

Lemma validate_format_spec format v :
  validate_format regcomp regexec format v =
  match format_regexp format with
  | Some p => (match strupr_s <$> v with Some v => regexec p v | None => false end, strupr_s <$> v)
  | None => (true, v)
  end.
Proof.
  unfold validate_format, format_regexp. destruct (parse_line _) as [[tag datum]|]; [|done].
  cbn. destruct (STR_EQ _ _); [|done]. by destruct (regcomp _).
Qed.

Lemma formatted_spec av :
  formatted av ↔
  match pair_regexp av with
  | Some p => match strupr_s <$> av_value av with Some v => regexec p v = true | None => False end
  | None => True
  end.
Proof.
  unfold formatted. destruct (pair_regexp av) as [p|]; [|by split].
  split.
  - intros H. destruct (H p eq_refl) as (v & -> & E). done.
  - destruct (av_value av) as [v|]; [|done]. intros E p' [= <-]. by exists v.
Qed.

Lemma check_pair av :
  ∃ good, match attr_format (av_attr av) with
          | Some format => validate_format regcomp regexec format (av_value av)
          | None => (true, av_value av)
          end = (good, av_value (upcase_pair av)) ∧ (good = true ↔ formatted av).
Proof.
  setoid_rewrite formatted_spec. unfold upcase_pair, pair_regexp.
  destruct (attr_format (av_attr av)) as [format|]; cbn [mbind option_bind]; [|exists true; by split].
  rewrite validate_format_spec. destruct (format_regexp format) as [p|]; [|exists true; by split].
  eexists. split; [done|]. by destruct (av_value av).
Qed.

Lemma upcase_pair_attr av : av_attr (upcase_pair av) = av_attr av.
Proof. unfold upcase_pair. by destruct (pair_regexp av). Qed.

Lemma check_format_pairs_spec flag avs :
  let '(status, out, avs') := check_format_pairs regcomp regexec flag avs in
  (status = true ↔ Forall formatted avs) ∧
  (status = true → out = [] ∧ avs' = upcase_pair <$> avs) ∧ (status = false → out ≠ []) ∧
  Forall2 (λ av av', av' = av ∨ av' = upcase_pair av) avs avs'.
Proof.
  induction avs as [|av avs IH]; cbn [check_format_pairs]; [split_and!; try done; constructor|].
  destruct (check_pair av) as (good & -> & Hg).
  assert (AvPair (av_attr av) (av_value (upcase_pair av)) = upcase_pair av) as ->.
  { rewrite <- (upcase_pair_attr av). by destruct (upcase_pair av). }
  rewrite upcase_pair_attr.
  destruct (check_format_pairs regcomp regexec flag avs) as [[st out] avs'].
  destruct IH as (IH1 & IH2 & IH3 & IH4).
  destruct good; [rewrite Forall_cons|].
  - split_and!; [tauto| |done|constructor; [by right|done]]. intros [-> ->]%IH2. done.
  - destruct (decode_validate_flag flag) as [[q p] fa].
    assert (¬ formatted av) as Hn by (intros ?%Hg; done).
    destruct (negb fa); rewrite Forall_cons; (split_and!; [split; [done|tauto]|done| |]).
    + by destruct p.
    + constructor; [by right|]. clear. induction avs; constructor; auto.
    + by destruct p.
    + constructor; [by right|done].
Qed.

Lemma upcase_formatted av : formatted av → formatted (upcase_pair av).
Proof.
  intros H p Hp. assert (pair_regexp av = Some p) as Hp'.
  { unfold pair_regexp in *. by rewrite upcase_pair_attr in Hp. }
  destruct (H p Hp') as (v & Ev & Em). unfold upcase_pair. rewrite Hp', Ev. cbn.
  exists (strupr_s v). split; [done|]. by rewrite strupr_s_idemp.
Qed.

Lemma upcase_well_typed rec :
  well_typed rec → well_typed (with_pairs rec (upcase_pair <$> av_pair_list rec)).
Proof.
  intros [H1 H2 H3]. split; cbn [with_pairs rec_class av_pair_list].
  - intros a Ha Hr. destruct (H1 a Ha Hr) as (av & Hin & Hid). exists (upcase_pair av).
    unfold has_attr. rewrite upcase_pair_attr. split; [by apply list_elem_of_fmap_2|done].
  - intros a i j av av' Ha Hr Hm Hi Hj. rewrite list_lookup_fmap in Hi, Hj.
    destruct (av_pair_list rec !! i) as [x|] eqn:Ex; [|done].
    destruct (av_pair_list rec !! j) as [y|] eqn:Ey; [|done]. injection Hi as <-. injection Hj as <-.
    unfold has_attr. rewrite !upcase_pair_attr. by eapply (H2 a).
  - rewrite Forall_fmap. eapply Forall_impl; [exact H3|]. apply upcase_formatted.
Qed.

Lemma check_record_spec rec flag :
  let '(valid, out, rec') := check_record_out regcomp regexec rec flag in
  (valid = true ↔ well_typed rec) ∧
  (valid = true → out = [] ∧ rec' = with_pairs rec (upcase_pair <$> av_pair_list rec) ∧ well_typed rec') ∧
  (valid = false → (decode_validate_flag flag).1.1 = false → out ≠ []).
Proof.
  pose proof (check_format_pairs_spec flag (av_pair_list rec)) as H3.
  assert (well_typed rec ↔ (check_required rec flag).1 = true ∧ (check_repeated rec flag).1 = true
                           ∧ Forall formatted (av_pair_list rec)) as Hw.
  { rewrite check_required_verdict, check_repeated_verdict. split; [by intros []|].
    intros (? & ? & ?). by constructor. }
  pose proof (upcase_well_typed rec) as Hup.
  unfold check_record_out, check_formats.
  unfold check_required, check_repeated in *.
  set (b1 := λ attr, _ && bool_decide _) in *. set (b2 := λ attr, _ && (1 <? _)) in *.
  set (attrs := attribute_list (rec_class rec)) in *.
  pose proof (check_attrs_reports flag MISSING_REQ_ATTRIB b1 attrs) as R1.
  pose proof (check_attrs_reports flag INVALID_ATTRIBUTE b2 attrs) as R2.
  pose proof (check_attrs_loud flag MISSING_REQ_ATTRIB b1 attrs) as L1.
  pose proof (check_attrs_loud flag INVALID_ATTRIBUTE b2 attrs) as L2.
  destruct (check_attrs flag MISSING_REQ_ATTRIB b1 attrs) as [s1 o1].
  destruct (check_attrs flag INVALID_ATTRIBUTE b2 attrs) as [s2 o2].
  destruct (check_format_pairs _ _ _ _) as [[s3 o3] avs]. cbn [fst snd] in *.
  destruct (decode_validate_flag flag) as [[q p] fa]. cbn [fst] in *.
  destruct H3 as (H31 & H32 & H33 & _).
  rewrite <- H31 in Hw. clear H31.
  destruct s1, s2; cbn [negb andb]; [|destruct fa; cbn [negb andb]..].
  { split_and!; [tauto| |].
    - intros ->. destruct H32 as [-> ->]; [done|]. rewrite R1, R2 by done.
      split_and!; [done..|]. apply Hup. tauto.
    - intros -> _. rewrite R1, R2 by done. by apply H33. }
  all: split_and!; [split; [done|intros (? & ? & ?)%Hw; done]|done|].
  all: intros _ Hq; try specialize (L1 Hq eq_refl); try specialize (L2 Hq eq_refl).
  all: rewrite ?app_nil; tauto.
Qed.

(** C36: check_record accepts exactly the records that are as their class wants
    them: every required attribute is there, an attribute that is neither
    repeatable nor multi-line is there once at most, and every value whose
    format is a regular expression matches it in upper case.  The flags do not
    change the verdict.  An accepted record gives no report and comes back with
    the values of the matched attributes in upper case, and is still as its
    class wants it; a refused one gives a report unless the mode is quiet. *)
Theorem check_record_correct rec flag :
  let '(valid, out, rec') := check_record_out regcomp regexec rec flag in
  (valid = true ↔ well_typed rec) ∧
  (valid = true → out = [] ∧ rec' = with_pairs rec (upcase_pair <$> av_pair_list rec) ∧ well_typed rec') ∧
  (valid = false → (decode_validate_flag flag).1.1 = false → out ≠ []).
Proof. apply check_record_spec. Qed.

(** The quiet mode does not silence the check of formats. *)
Theorem quiet_format_logged rec av format p v :
  attr_format (av_attr av) = Some format → format_regexp format = Some p →
  av_value av = Some v → regexec p (strupr_s v) = false → av_pair_list rec = [av] →
  (check_formats regcomp regexec rec (encode_validate_flag true false false)).1
  = (false, [LogError INVALID_ATTR_SYNTAX (attr_name (av_attr av))]).
Proof.
  intros Hf Hp Hv Hm Hl. unfold check_formats. rewrite Hl. cbn [check_format_pairs].
  by rewrite Hf, validate_format_spec, Hp, Hv; cbn; rewrite Hm.
Qed.

(** An expression that does not compile allows every value. *)
Theorem malformed_expression_allows format datum tag v :
  parse_line (Some format) = Some (tag, datum) → regcomp (ltrim_s datum) = None →
  validate_format regcomp regexec format v = (true, v).
Proof. intros Hp Hc. unfold validate_format. rewrite Hp, Hc. by destruct (STR_EQ _ _). Qed.
End Verdict.

(** The flags that are read back: the protocol is not used in the quiet mode,
    and it excludes the search for all errors. *)
Theorem validate_flag_decodes quiet_mode protocol_error find_all :
  decode_validate_flag (encode_validate_flag quiet_mode protocol_error find_all)
  = (quiet_mode, negb quiet_mode && protocol_error, find_all && negb protocol_error).
Proof. by destruct quiet_mode, protocol_error, find_all. Qed.
