(* ===== verification/FilePath.v ===== *)
(** * Paths (common/fileutils.c)

    Taking paths apart, relative and full paths, and the test whether a path
    leads out of the root directory of the server. *)

From S2P Require Import Prelude CLib CString Misc DlList IpNetwork Types Stdio.
Local Open Scope Z_scope.

Definition MAX_FILE : Z := 512.
Definition SLASH : ascii := chr 47.

(** ** strncpy and strncat

    The last argument is a size_t: a negative int is no bound at all. *)
Definition bound (n : Z) (s : cstr) : cstr := if n <? 0 then s else take (Z.to_nat n) s.
Definition overwrite (b : buf) (pos : nat) (s : cstr) : outcome buf :=
  if decide (pos + length s ≤ length b)%nat
  then Ret (take pos b ++ s ++ drop (pos + length s) b) else Fault.
Definition strncpy (b : buf) (s : cstr) (n : Z) : outcome buf :=
  if n <? 0 then Fault else overwrite b 0 (take (Z.to_nat n) (s ++ replicate (Z.to_nat n) NUL)).
Definition strncat (b : buf) (s : cstr) (n : Z) : outcome buf :=
  l ← strlen b; overwrite b l (bound n s ++ [NUL]).

(** ** The path functions *)

Definition is_rel_path (path : option cstr) : bool :=
  match path with None => false | Some p => negb (bool_decide (head p = Some SLASH)) end.

(** the directory and the file, each in an array of MAX_FILE bytes *)
Definition split_path (path : option cstr) : outcome (option (cstr * cstr)) :=
  match path with
  | None | Some [] => Ret None
  | Some path =>
      a ← split_list (Some path) SLASH 0;
      file ← of_option (last (arg_strings a));
      let len := Z.of_nat (length path) - (Z.of_nat (length file) + 1) in
      let dir := if (1 <? argc a)%nat then bound len path else [] in
      if decide (Z.of_nat (length file) < MAX_FILE ∧ Z.of_nat (length dir) < MAX_FILE)
      then Ret (Some (dir, file)) else Fault
  end.

Definition path_full_to_rel (full_path root_dir : cstr) : option cstr :=
  let root_dir_len := length root_dir in
  let full_path_len := length full_path in
  if (full_path_len <? root_dir_len)%nat then None
  else if negb (strncmp full_path root_dir root_dir_len =? 0) then None
  else if (root_dir_len <? full_path_len)%nat
          && negb (bool_decide (full_path !! root_dir_len = Some SLASH)) then None
  else if decide (full_path_len = root_dir_len) then Some []
  else Some (drop (root_dir_len + 1) full_path).

(** [None] for NULL *)
Definition path_rel_to_full (new_path : buf) (new_path_len : Z) (rel_path : cstr)
    (root_dir : option cstr) : outcome (option buf) :=
  match root_dir with
  | None => Ret None
  | Some root_dir =>
      if negb (is_rel_path (Some rel_path)) then
        b ← strncpy new_path rel_path new_path_len; Ret (Some b)
      else
        let root_len := Z.of_nat (length root_dir) in
        b ← overwrite new_path 0 (replicate (Z.to_nat new_path_len) NUL);
        b ← strncat b root_dir new_path_len;
        b ← strncat b [SLASH] (new_path_len - root_len);
        b ← strncat b rel_path (new_path_len - (root_len + 1));
        Ret (Some b)
  end.

(** the path that it leaves in an array that is long enough *)
Definition full_path (rel_path root_dir : cstr) : cstr :=
  if is_rel_path (Some rel_path) then root_dir ++ SLASH :: rel_path else rel_path.

(** The path is edited in place: the result is the status, the path and the
    new path ([None] if it is not written). *)
Definition canonicalize_path (new_path : buf) (new_path_len : Z) (path : option buf)
    (root_dir : option cstr) (chrooted null_allowed : bool) :
    outcome (bool * option buf * buf) :=
  match root_dir, path with
  | None, _ => Ret (false, path, new_path)
  | _, None => Ret (null_allowed, path, new_path)
  | Some root_dir, Some _ =>
      path ← trim path;
      len ← strlen (default [] path);
      path ← (if (1 <? len)%nat then b ← strip_trailing path SLASH; Ret (default [] b)
              else Ret (default [] path));
      c ← rd path 0;
      if c =c NUL then Ret (null_allowed, Some path, new_path)
      else
        let s := cstring path in
        let p := if is_rel_path (Some s) then Some s
                 else match path_full_to_rel s root_dir with
                      | Some p => Some p
                      | None => if chrooted then None else Some s
                      end in
        match p with
        | None => Ret (false, Some path, new_path)
        | Some p => b ← strncpy new_path p new_path_len; Ret (true, Some path, b)
        end
  end.

(** ** Removing the ".." of a path *)

(** the tokens of strtok *)
Fixpoint strtok_all (s cur : cstr) : list cstr :=
  match s with
  | [] => match cur with [] => [] | _ => [cur] end
  | c :: s => if c =c SLASH then match cur with
                                 | [] => strtok_all s []
                                 | _ => cur :: strtok_all s []
                                 end
              else strtok_all s (cur ++ [c])
  end.
Definition split_path_into_list (path : cstr) : list cstr := strtok_all path [].

(** the path is built in a static array of MAX_FILE bytes *)
Fixpoint join_loop (path_list : list cstr) (abs_path : bool) (path : cstr) : cstr :=
  match path_list with
  | [] => path
  | str :: path_list =>
      let path := if negb (bool_decide (path = [])) || abs_path then path ++ [SLASH] else path in
      join_loop path_list abs_path (path ++ str)
  end.
Definition join_list_into_path (path_list : list cstr) (abs_path : bool) : outcome cstr :=
  let path := match path_list with
              | [] => if abs_path then [SLASH] else []
              | _ => join_loop path_list abs_path []
              end in
  if decide (Z.of_nat (length path) < MAX_FILE) then Ret path else Fault.

Definition z_of_list {X} (l : list X) : DL.cursor X :=
  match l with [] => None | x :: l => Some ([], x, l) end.
Definition z_list {X} (z : DL.cursor X) : list X :=
  match z with None => [] | Some (l, e, r) => l ++ e :: r end.
Definition DOTDOT : cstr := $"..".

(** [None] if the list runs out of elements *)
Fixpoint reduce_loop (fuel : nat) (z : DL.cursor cstr) : outcome (option (list cstr)) :=
  match fuel with
  | O => NoFuel
  | S fuel =>
      match z with
      | None => Fault
      | Some (_, token, r) =>
          if decide (token = DOTDOT) then
            match DL.z_delete z with
            | Some (_ :: _, _, _) as z =>
                let z := DL.z_delete (DL.z_prev z) in
                match z with
                | None => Fault
                | Some _ => reduce_loop fuel z
                end
            | _ => Ret None
            end
          else match r with
               | [] => Ret (Some (z_list z))
               | _ => reduce_loop fuel (DL.z_next z)
               end
      end
  end.
Definition reduce_path_list (path_list : list cstr) : outcome (option (list cstr)) :=
  match path_list with
  | [] => Ret (Some [])
  | _ => reduce_loop (S (length path_list)) (z_of_list path_list)
  end.

(** strstr(path, "..") *)
Fixpoint has_dotdot (path : cstr) : bool :=
  bool_decide (take 2 path = DOTDOT) || match path with [] => false | _ :: path => has_dotdot path end.

Definition get_reduced_path (path : option cstr) : outcome (option cstr) :=
  match path with
  | None | Some [] => Ret None
  | Some path =>
      if negb (has_dotdot path) then Ret (Some path)
      else
        l ← reduce_path_list (split_path_into_list path);
        match l with
        | None => Ret None
        | Some l => p ← join_list_into_path l (negb (is_rel_path (Some path))); Ret (Some p)
        end
  end.

(** [fullpath] is the uninitialised array *)
Definition path_under_root_dir (fullpath : buf) (path rootdir : option cstr) : outcome bool :=
  match rootdir, path with
  | Some rootdir, Some path =>
      b ← path_rel_to_full fullpath MAX_FILE path (Some rootdir);
      b ← trim b;
      len ← strlen (default [] b);
      b ← (if (1 <? len)%nat then strip_trailing b SLASH else Ret b);
      newpath ← get_reduced_path (option_map cstring b);
      match newpath with
      | None => Ret false
      | Some newpath => Ret (strncmp rootdir newpath (length rootdir) =? 0)
      end
  | _, _ => Ret false
  end.

(** ** Buffers *)

Lemma overwrite_app pre s rest t :
  length t = length s → overwrite (pre ++ t ++ rest) (length pre) s = Ret (pre ++ s ++ rest).
Proof.
  intros Hl. unfold overwrite. rewrite decide_True by (rewrite !length_app; lia).
  rewrite take_app_length. assert (drop (length pre + length s) (pre ++ t ++ rest) = rest) as ->; [|done].
  rewrite <-Hl, <-length_app, app_assoc. apply drop_app_length.
Qed.

Lemma overwrite_fault b pos s : (length b < pos + length s)%nat → overwrite b pos s = Fault.
Proof. intros H. unfold overwrite. by rewrite decide_False by lia. Qed.

(** appending to a string that a NUL-filled array holds *)
Lemma strncat_zeros s t m k rest :
  NUL ∉ s → (length t < m)%nat → (Z.of_nat (length t) ≤ k ∨ k < 0) →
  strncat (s ++ replicate m NUL ++ rest) t k
  = Ret ((s ++ t) ++ replicate (m - length t) NUL ++ rest).
Proof.
  intros Hs Hm Hk. unfold strncat. destruct m as [|m]; [lia|].
  cbn [replicate]. rewrite <-app_comm_cons, strlen_app by done. cbn [mbind outcome_bind].
  assert (bound k t = t) as ->.
  { unfold bound. destruct (Z.ltb_spec k 0); [done|]. apply take_ge. lia. }
  rewrite app_comm_cons. change (NUL :: replicate m NUL) with (replicate (S m) NUL).
  replace (S m) with (S (length t) + (m - length t))%nat at 1 by lia.
  rewrite replicate_add, <-(app_assoc (replicate (S (length t)) NUL)).
  rewrite overwrite_app by (rewrite length_replicate, length_app; simpl; lia).
  rewrite <-!app_assoc. do 3 f_equal. replace (S m - length t)%nat with (S (m - length t)) by lia. done.
Qed.

Lemma strncmp_prefix a b : strncmp (a ++ b) a (length a) = 0.
Proof. unfold strncmp. rewrite take_app_length, take_ge by done. apply strcmp_refl. Qed.

Section RelToFull.
Context (b : buf) (rel root : cstr).
Context (Hrel : NUL ∉ rel) (Hroot : NUL ∉ root) (Hr : is_rel_path (Some rel) = true).

Lemma path_rel_to_full_prefix :
  (length root + 1 < length b)%nat →
  path_rel_to_full b (Z.of_nat (length b)) rel (Some root)
  = (b ← strncat ((root ++ [SLASH]) ++ replicate (length b - length root - 1) NUL ++ []) rel
           (Z.of_nat (length b) - (Z.of_nat (length root) + 1)); Ret (Some b)).
Proof.
  intros Hl. unfold path_rel_to_full. rewrite Hr. cbn [negb]. rewrite Nat2Z.id.
  assert (overwrite b 0 (replicate (length b) NUL) = Ret (replicate (length b) NUL)) as ->.
  { rewrite <-(app_nil_r b) at 1. rewrite <-(app_nil_r (replicate _ NUL)) at 2.
    apply (overwrite_app []). by rewrite length_replicate. }
  cbn [mbind outcome_bind]. rewrite <-(app_nil_r (replicate _ NUL)).
  change (replicate (length b) NUL ++ []) with ([] ++ replicate (length b) NUL ++ []).
  rewrite strncat_zeros by (apply not_elem_of_nil || (left; lia) || lia).
  cbn [mbind outcome_bind app]. rewrite strncat_zeros by (done || (left; simpl; lia) || (simpl; lia)).
  done.
Qed.

Lemma path_rel_to_full_ok :
  (length root + 1 + length rel < length b)%nat →
  ∃ m, path_rel_to_full b (Z.of_nat (length b)) rel (Some root)
       = Ret (Some ((root ++ SLASH :: rel) ++ NUL :: replicate m NUL)) ∧
       (length root + 1 + length rel + 1 + m = length b)%nat.
Proof.
  intros Hl. rewrite path_rel_to_full_prefix by lia.
  rewrite strncat_zeros; [|apply not_elem_of_app; split; [done|]; by apply (bool_decide_unpack _)|lia|left; lia].
  destruct (length b - length root - 1 - length rel)%nat as [|m] eqn:Em; [lia|].
  cbn [mbind outcome_bind]. exists m. split; [|lia].
  by rewrite app_nil_r, <-(app_assoc root).
Qed.

Lemma path_full_to_rel_prefix rest : path_full_to_rel (root ++ SLASH :: rest) root = Some rest.
Proof.
  unfold path_full_to_rel. rewrite length_app. cbn [length].
  rewrite (proj2 (Nat.ltb_ge _ _)) by lia. rewrite strncmp_prefix. cbn [negb Z.eqb].
  rewrite list_lookup_middle by done. rewrite bool_decide_true by done. rewrite andb_false_r.
  rewrite decide_False by lia. f_equal. apply drop_succ_app.
Qed.
End RelToFull.

(** Path_rel_to_full joins the root directory and a relative path, and
    path_full_to_rel undoes it, as long as the whole path leaves room for its
    terminator.  When it does not, and the array is as long as the caller says,
    the last strncat writes the terminator one byte past its end. *)
Theorem path_rel_to_full_correct b rel root :
  NUL ∉ rel → NUL ∉ root → is_rel_path (Some rel) = true → (length root + 1 < length b)%nat →
  let full := root ++ SLASH :: rel in
  if decide (length full < length b)%nat then
    ∃ b', path_rel_to_full b (Z.of_nat (length b)) rel (Some root) = Ret (Some b') ∧
          holds b' full ∧ length b' = length b ∧ path_full_to_rel full root = Some rel
  else path_rel_to_full b (Z.of_nat (length b)) rel (Some root) = Fault.
Proof.
  intros Hrel Hroot Hr Hl full. assert (length full = length root + 1 + length rel)%nat as Hf
    by (unfold full; rewrite length_app; simpl; lia). case_decide as Hd.
  - destruct (path_rel_to_full_ok b rel root Hroot Hr) as (m & -> & Hm); [lia|].
    eexists. split; [done|]. split; [|split; [|apply path_full_to_rel_prefix]].
    + apply holds_intro, not_elem_of_app. split; [done|]. by apply not_elem_of_cons.
    + rewrite length_app. cbn [length]. rewrite length_replicate. unfold full in Hf. lia.
  - rewrite path_rel_to_full_prefix by done. unfold strncat.
    destruct (length b - length root - 1)%nat as [|m] eqn:Em; [lia|]. cbn [replicate].
    rewrite <-app_comm_cons, strlen_app.
    2:{ apply not_elem_of_app. split; [done|]. by apply (bool_decide_unpack _). }
    cbn [mbind outcome_bind]. rewrite overwrite_fault; [done|].
    unfold bound. destruct (Z.ltb_spec (Z.of_nat (length b) - (Z.of_nat (length root) + 1)) 0); [lia|].
    rewrite !length_app. cbn [length]. rewrite length_app, length_replicate, length_take. simpl. lia.
Qed.

Lemma path_rel_to_full_correct_witness :
  (∃ b', path_rel_to_full (replicate 16 (chr 120)) 16 ($"etc/acl") (Some $"/rwhois") = Ret (Some b') ∧
         holds b' ($"/rwhois/etc/acl") ∧ length b' = 16%nat ∧
         path_full_to_rel ($"/rwhois/etc/acl") ($"/rwhois") = Some $"etc/acl") ∧
  path_rel_to_full (replicate 15 (chr 120)) 15 ($"etc/acl") (Some $"/rwhois") = Fault.
Proof.
  split.
  - apply (path_rel_to_full_correct (replicate 16 (chr 120)) ($"etc/acl") ($"/rwhois"));
      try (apply (bool_decide_unpack _); vm_compute; exact I); vm_compute; (reflexivity || lia).
  - apply (path_rel_to_full_correct (replicate 15 (chr 120)) ($"etc/acl") ($"/rwhois"));
      try (apply (bool_decide_unpack _); vm_compute; exact I); vm_compute; (reflexivity || lia).
Defined.

(** ** Removing the ".." *)

(** the path that is left when each ".." takes away the directory before it;
    [stack] is the path so far, the last directory first *)
Fixpoint normalise (stack ts : list cstr) : option (list cstr) :=
  match ts with
  | [] => Some (reverse stack)
  | t :: ts =>
      if decide (t = DOTDOT) then
        match stack with [] => None | _ :: stack => normalise stack ts end
      else normalise (t :: stack) ts
  end.

Lemma reduce_loop_normalise ts : ∀ fuel l t,
  last (t :: ts) ≠ Some DOTDOT → (length ts < fuel)%nat →
  reduce_loop fuel (Some (l, t, ts)) = Ret (normalise (reverse l) (t :: ts)).
Proof.
  induction ts as [|x ts IH]; intros [|fuel] l t Hlast Hf; try (simpl in Hf; lia);
    cbn [reduce_loop normalise].
  - case_decide; [by subst|]. rewrite reverse_cons, reverse_involutive. done.
  - case_decide as Ht.
    + cbn [DL.z_delete]. destruct l as [|y l _] using rev_ind; [done|].
      rewrite reverse_snoc. destruct (l ++ [y]) as [|a l'] eqn:E; [by destruct l|].
      rewrite <-E. cbn [DL.z_prev]. rewrite reverse_snoc, reverse_involutive. cbn [DL.z_delete].
      apply IH; [done|simpl in Hf; lia].
    + cbn [DL.z_next]. rewrite IH; [by rewrite reverse_snoc|done|simpl in Hf; lia].
Qed.

Lemma reduce_path_list_normalise ts :
  last ts ≠ Some DOTDOT → reduce_path_list ts = Ret (normalise [] ts).
Proof.
  intros H. destruct ts as [|t ts]; [done|]. unfold reduce_path_list, z_of_list.
  by rewrite reduce_loop_normalise by (done || (simpl; lia)).
Qed.

(** Reduce_path_list ends and takes away, with each "..", the directory
    before it; it fails exactly when there is none.  This holds for every path
    that does not itself end in "..". *)
Theorem reduce_path_list_correct ts :
  last ts ≠ Some DOTDOT → reduce_path_list ts = Ret (normalise [] ts).
Proof. apply reduce_path_list_normalise. Qed.

Lemma reduce_path_list_correct_witness :
  reduce_path_list [$"a"; $"b"; DOTDOT; $"c"] = Ret (Some [$"a"; $"c"]) ∧
  reduce_path_list [$"a"; DOTDOT; DOTDOT; $"c"] = Ret None.
Proof.
  split.
  - exact (reduce_path_list_correct [$"a"; $"b"; DOTDOT; $"c"] ltac:(discriminate)).
  - exact (reduce_path_list_correct [$"a"; DOTDOT; DOTDOT; $"c"] ltac:(discriminate)).
Defined.

Lemma reduce_loop_plain ts : ∀ fuel l t r,
  DOTDOT ∉ t :: ts → r ≠ [] → (length ts < fuel)%nat →
  ∃ x r', r = x :: r' ∧
  reduce_loop fuel (Some (l, t, ts ++ r)) = reduce_loop (fuel - length (t :: ts)) (Some (l ++ t :: ts, x, r')).
Proof.
  induction ts as [|u ts IH]; intros [|fuel] l t r Hd Hr Hf; try (simpl in Hf; lia);
    apply not_elem_of_cons in Hd as [Hd Hd']; cbn [reduce_loop app];
    rewrite decide_False by congruence.
  - destruct r as [|x r']; [done|]. exists x, r'. split; [done|]. cbn [length DL.z_next].
    by rewrite Nat.sub_succ, Nat.sub_0_r.
  - cbn [DL.z_next]. destruct (IH fuel (l ++ [t]) u r Hd' Hr) as (x & r' & -> & E); [simpl in Hf; lia|].
    exists x, r'. split; [done|]. rewrite E, <-app_assoc. done.
Qed.

(** On a path that ends in ".." the deletion moves the cursor back, not on,
    so that the wrong directory goes: a/b/.. becomes b where it is a. *)
Theorem reduce_path_list_trailing l a b :
  DOTDOT ∉ l ++ [a; b] →
  reduce_path_list (l ++ [a; b; DOTDOT]) = Ret (Some (l ++ [b])) ∧
  normalise [] (l ++ [a; b; DOTDOT]) = Some (l ++ [a]).
Proof.
  intros Hd. split.
  - assert (∃ t ts, l ++ [a; b] = t :: ts) as (t & ts & E) by (destruct l; simpl; eauto).
    replace (l ++ [a; b; DOTDOT]) with (t :: ts ++ [DOTDOT]) by
      (change (t :: ts ++ [DOTDOT]) with ((t :: ts) ++ [DOTDOT]); by rewrite <-E, <-app_assoc).
    unfold reduce_path_list, z_of_list. rewrite E in Hd.
    destruct (reduce_loop_plain ts (S (length (t :: ts ++ [DOTDOT]))) [] t [DOTDOT] Hd)
      as (x & r' & [= <- <-] & ->); [done|simpl; rewrite length_app; lia|].
    cbn [app]. rewrite <-E. cbn [length]. rewrite length_app. cbn [length].
    replace (S (S (length ts + 1)) - length (l ++ [a; b]))%nat with 2%nat by (rewrite E; simpl; lia).
    cbn [reduce_loop]. rewrite decide_True by done. cbn [DL.z_delete].
    replace (l ++ [a; b]) with ((l ++ [a]) ++ [b]) by by rewrite <-app_assoc.
    rewrite reverse_snoc, reverse_involutive.
    destruct (l ++ [a]) as [|y l'] eqn:E1; [by destruct l|]. rewrite <-E1. cbn [DL.z_prev].
    rewrite reverse_snoc, reverse_involutive. cbn [DL.z_delete].
    rewrite decide_False; [done|]. intros ->. apply Hd. rewrite <-E. apply elem_of_app. right.
    right. left.
  - assert (∀ s k, DOTDOT ∉ k → normalise s (k ++ [a; b; DOTDOT]) = Some (reverse s ++ k ++ [a])) as H.
    { assert (a ≠ DOTDOT ∧ b ≠ DOTDOT) as [Ha Hb].
      { split; intros ->; apply Hd, elem_of_app; right; [left|right; left]. }
      intros s k. revert s. induction k as [|x k IH]; intros s Hk; cbn [app normalise].
      - rewrite !decide_False by done. rewrite decide_True by done. by rewrite reverse_cons.
      - apply not_elem_of_cons in Hk as [Hx Hk]. rewrite decide_False by congruence.
        by rewrite IH, reverse_cons, <-app_assoc. }
    rewrite H; [done|]. intros Hin. apply Hd, elem_of_app. by left.
Qed.

Lemma reduce_path_list_trailing_witness :
  reduce_path_list [$"srv"; $"old"; $"srv"; DOTDOT] = Ret (Some [$"srv"; $"srv"]) ∧
  normalise [] [$"srv"; $"old"; $"srv"; DOTDOT] = Some [$"srv"; $"old"].
Proof.
  exact (reduce_path_list_trailing [$"srv"] ($"old") ($"srv")
           ltac:(apply (bool_decide_unpack _); vm_compute; exact I)).
Defined.

(** ** path_under_root_dir *)

Definition plain_tail (s : cstr) : Prop :=
  ∃ c, last s = Some c ∧ isspace c = false ∧ c ≠ SLASH.

Lemma rdropwhile_keep (p : ascii → bool) s c : last s = Some c → p c = false → rdropwhile p s = s.
Proof. intros [s' ->]%last_Some Hc. by rewrite rdropwhile_snoc, Hc. Qed.

Lemma strip_trailing_keep s rest :
  plain_tail s → NUL ∉ s → strip_trailing (Some (s ++ NUL :: rest)) SLASH = Ret (Some (s ++ NUL :: rest)).
Proof.
  intros (c & Hc & _ & Hne) Hn. destruct s as [|x s]; [done|]. unfold strip_trailing.
  change (rd ((x :: s) ++ NUL :: rest) 0) with (Ret x).
  pose proof Hn as [Hx _]%not_elem_of_cons. cbn [mbind outcome_bind].
  rewrite (proj2 (char_eqb_neq x NUL)), strlen_app by (done || congruence).
  cbn [mbind outcome_bind]. rewrite strip_trailing_loop_spec by lia.
  assert (strip_trailing_s SLASH (x :: s) = x :: s) as ->.
  { eapply rdropwhile_keep; [done|]. by apply char_eqb_neq. }
  cbn zeta. by rewrite Nat.sub_diag.
Qed.

Lemma cstring_app s rest : NUL ∉ s → cstring (s ++ NUL :: rest) = s.
Proof.
  intros H. unfold cstring. rewrite takewhile_all; [by rewrite app_nil_r|].
  apply Forall_forall. intros c Hc. apply negb_true_iff, char_eqb_neq. by intros ->.
Qed.

(** Path_under_root_dir compares the root directory with a prefix of the
    path and does not look at what follows it, so it accepts every sibling
    whose name begins like that of the root directory. *)
Theorem path_under_root_dir_prefix junk root rest :
  Z.of_nat (length junk) = MAX_FILE → (length (root ++ rest) < length junk)%nat →
  head root = Some SLASH → NUL ∉ root ++ rest → plain_tail (root ++ rest) →
  has_dotdot (root ++ rest) = false → (1 < length (root ++ rest))%nat →
  path_under_root_dir junk (Some (root ++ rest)) (Some root) = Ret true.
Proof.
  intros Hj Hlen Hh Hn Ht Hd H1. unfold path_under_root_dir, path_rel_to_full.
  assert (is_rel_path (Some (root ++ rest)) = false) as ->.
  { destruct root as [|x root]; [done|]. injection Hh as ->. done. }
  cbn [negb]. set (s := root ++ rest) in *.
  assert (∃ m, strncpy junk s MAX_FILE = Ret (s ++ NUL :: replicate m NUL)) as (m & ->).
  { exists (length junk - length s - 1)%nat. unfold strncpy. rewrite (proj2 (Z.ltb_ge _ _)) by done.
    rewrite <-Hj, Nat2Z.id. rewrite take_app_ge, take_replicate by lia.
    rewrite <-(app_nil_r junk) at 1.
    replace ((length junk - length s) `min` length junk)%nat with (S (length junk - length s - 1)) by lia.
    rewrite (overwrite_app [] _ [] junk); [by rewrite app_nil_r|].
    rewrite length_app, length_replicate. lia. }
  cbn [mbind outcome_bind].
  destruct (trim_InPlace (s ++ NUL :: replicate m NUL) s) as (b' & -> & [Hb' [rest' ->]] & _);
    [by apply holds_intro|]. cbn [mbind outcome_bind default].
  assert (trim_s s = s) as Hs.
  { destruct Ht as (c & Hc & Hsp & _). unfold trim_s, rtrim_s, ltrim_s.
    erewrite rdropwhile_keep by done. unfold s in *. destruct root as [|x root]; [done|].
    by injection Hh as ->. }
  rewrite Hs in Hb' |- *. unfold id. rewrite strlen_app by done. cbn [mbind outcome_bind].
  rewrite (proj2 (Nat.ltb_lt _ _)), strip_trailing_keep by done. cbn [mbind outcome_bind option_map].
  rewrite cstring_app by done. unfold get_reduced_path.
  assert (∃ x s', s = x :: s') as (x & s' & E) by (destruct s; [simpl in H1; lia|eauto]).
  rewrite E, <-E. rewrite Hd. cbn [negb mbind outcome_bind].
  unfold s, strncmp. by rewrite take_app_length, take_ge, strcmp_refl by done.
Qed.

Lemma path_under_root_dir_prefix_witness :
  path_under_root_dir (replicate 512 (chr 120)) (Some $"/home/rwhois-private/passwd") (Some $"/home/rwhois")
  = Ret true.
Proof.
  apply (path_under_root_dir_prefix _ ($"/home/rwhois") ($"-private/passwd"));
    try reflexivity; try (vm_compute; lia).
  - apply (bool_decide_unpack _). vm_compute. exact I.
  - exists (chr 100). split_and!; reflexivity || discriminate.
Defined.

(** Paths that lead out of the root directory /srv are accepted, because a
    "." counts as a directory that a ".." may take away and because a trailing
    ".." takes away the wrong one; a path that stays inside is rejected. *)
Theorem path_under_root_dir_escapes :
  let under p := path_under_root_dir (replicate 512 (chr 120)) (Some p) (Some $"/srv") in
  under ($"./../etc/passwd") = Ret true ∧ under ($"../old/srv/..") = Ret true ∧
  under ($"data/..") = Ret false.
Proof. vm_compute. done. Qed.
