(* ===== verification/IndexLine.v ===== *)
(** * Index lines (mkdb/index.c)

    The text form of an index item, offset:file:deleted:attribute:value. *)

From S2P Require Import Prelude CLib CString Misc IpNetwork Types Stdio.
Local Open Scope Z_scope.

Definition COLON : ascii := chr 58.

(** sprintf of the item; a null value is an invalid %s argument *)
Definition index_line (item : index_struct) : outcome cstr :=
  v ← of_option (value item);
  Ret (print_Z (offset item) ++ COLON :: print_Z (data_file_no item) ++ COLON ::
       print_Z (deleted_flag item) ++ COLON :: print_Z (attribute_id item) ++ COLON :: v).

(** [line] is the buffer of the caller *)
Definition encode_index_line (line : option buf) (item : index_struct) :
    outcome (bool * option buf) :=
  match line with
  | None => Ret (false, None)
  | Some b => s ← index_line item; b ← put_str b s; Ret (true, Some b)
  end.

(** A line that does not have five fields leaves the item as it was. *)
Definition decode_index_line (line : cstr) (item : index_struct) : outcome (bool * index_struct) :=
  a ← split_list (Some line) COLON 5;
  match bool_decide (argc a = 5%nat), arg_strings a with
  | true, [a0; a1; a2; a3; a4] =>
      Ret (true, IndexItem (atoll a0) (atoi a1) (atoi a2) (atoi a3) (Some a4))
  | _, _ => Ret (false, item)
  end.

(** write_index_line: the bytes that it adds to the index file *)
Definition write_index_line (item : index_struct) : outcome cstr :=
  '(_, line) ← encode_index_line (Some (replicate (MAX_LINE + 1) NUL)) item;
  match line with
  | Some b => Ret (cstring b ++ [NL])
  | None => Fault
  end.

(** the fields of an item within the range of their types, and a value that a
    line can hold *)
Record item_ok (it : index_struct) : Prop := {
  ok_offset : int64 (offset it);
  ok_file : int32 (data_file_no it);
  ok_deleted : int32 (deleted_flag it);
  ok_attribute : int32 (attribute_id it);
  ok_value : ∃ v, value it = Some v ∧ v ≠ [] ∧ NUL ∉ v }.

Lemma fields_no_sep sep m i cur u s :
  sep ∉ u → fields sep m i cur (u ++ s) = fields sep m i (cur ++ u) s.
Proof.
  revert cur. induction u as [|c u IH]; intros cur Hu; [by rewrite app_nil_r|].
  apply not_elem_of_cons in Hu as [Hc Hu]. cbn [app fields].
  rewrite (proj2 (char_eqb_neq c sep)) by congruence. rewrite IH by done. by rewrite <-app_assoc.
Qed.

Lemma fields_cut sep m i u s :
  sep ∉ u → s ≠ [] → m ≠ 0 → Z.of_nat (i + 1) ≠ m →
  fields sep m i [] (u ++ sep :: s) = u :: fields sep m (i + 1) [] s.
Proof.
  intros Hu Hs Hm Hi. rewrite fields_no_sep by done. cbn [app fields]. rewrite char_eqb_refl.
  destruct s; [done|]. rewrite (proj2 (Z.eqb_neq m 0)), (proj2 (Z.eqb_neq _ m)) by done. done.
Qed.

Lemma fields_last sep m i u s :
  sep ∉ u → s ≠ [] → Z.of_nat (i + 1) = m → fields sep m i [] (u ++ sep :: s) = [u; s].
Proof.
  intros Hu Hs Hi. rewrite fields_no_sep by done. cbn [app fields]. rewrite char_eqb_refl.
  destruct s; [done|]. rewrite (proj2 (Z.eqb_neq m 0)), (proj2 (Z.eqb_eq _ m)) by lia. done.
Qed.

Lemma print_Z_no_colon z : COLON ∉ print_Z z.
Proof. by apply print_Z_notin. Qed.
Lemma print_Z_no_nul z : NUL ∉ print_Z z.
Proof. by apply print_Z_notin. Qed.

Lemma split_index_line o f d a v :
  v ≠ [] →
  split_list_s COLON 5 (print_Z o ++ COLON :: print_Z f ++ COLON :: print_Z d ++ COLON ::
                        print_Z a ++ COLON :: v)
  = [print_Z o; print_Z f; print_Z d; print_Z a; v].
Proof.
  intros Hv. unfold split_list_s. assert (∀ z s, print_Z z ++ COLON :: s ≠ []) as Hne.
  { intros z s. destruct (print_Z_cons z) as (c & u & ->). done. }
  rewrite !fields_cut by (apply print_Z_no_colon || apply Hne || done).
  by rewrite fields_last by (apply print_Z_no_colon || done).
Qed.

Lemma index_line_ok it : item_ok it → ∃ v, value it = Some v ∧ v ≠ [] ∧ NUL ∉ v ∧
  ∃ s, index_line it = Ret s ∧ NUL ∉ s ∧
       s = print_Z (offset it) ++ COLON :: print_Z (data_file_no it) ++ COLON ::
           print_Z (deleted_flag it) ++ COLON :: print_Z (attribute_id it) ++ COLON :: v.
Proof.
  intros [_ _ _ _ (v & Hv & Hne & Hnul)]. exists v. split_and!; try done.
  eexists. unfold index_line. rewrite Hv. split; [done|]. split; [|done].
  repeat (apply not_elem_of_app; split; [apply print_Z_no_nul|];
          apply not_elem_of_cons; split; [done|]). done.
Qed.

Lemma decode_line it s it0 :
  item_ok it → index_line it = Ret s → decode_index_line s it0 = Ret (true, it).
Proof.
  intros Hok Hs. destruct (index_line_ok it Hok) as (v & Hv & Hne & _ & s' & Hs' & Hnul & E).
  assert (s = s') as -> by congruence. unfold decode_index_line.
  destruct (split_list_spec COLON 5 s') as (a & -> & Hc & Ha); [done|done|done|].
  cbn [mbind outcome_bind]. rewrite E, split_index_line in Hc, Ha by done.
  rewrite Ha, bool_decide_true by done. destruct Hok. unfold atoll.
  assert (∀ z, int32 z → atoi (print_Z z) = z) as Hi.
  { intros z Hz. rewrite <-(app_nil_r (print_Z z)). by apply atoi_print. }
  rewrite !Hi by done. rewrite <-(app_nil_r (print_Z (offset it))), strtol_print by done.
  rewrite <-Hv. by destruct it.
Qed.

Lemma write_index_line_spec it :
  item_ok it →
  ∃ s, index_line it = Ret s ∧ NUL ∉ s ∧
       write_index_line it = if decide (length s ≤ MAX_LINE)%nat then Ret (s ++ [NL]) else Fault.
Proof.
  intros Hok. destruct (index_line_ok it Hok) as (v & _ & _ & _ & s & Hs & Hnul & _).
  exists s. split; [done|]. split; [done|].
  unfold write_index_line, encode_index_line. rewrite Hs. cbn [mbind outcome_bind].
  unfold put_str. rewrite length_replicate. destruct (decide (length s < MAX_LINE + 1)%nat).
  - rewrite decide_True by lia. cbn [mbind outcome_bind]. unfold cstring.
    by rewrite takewhile_all, app_nil_r by
      (apply Forall_forall; intros c Hc; apply negb_true_iff, char_eqb_neq; by intros ->).
  - by rewrite decide_False by lia.
Qed.

(** An index item survives its text form: encode_index_line prints it to
    any buffer that is large enough, and decode_index_line reads the same item
    back from the line, whatever its old item was.  Values that themselves
    hold colons (IPv6 networks) are included. *)
Theorem index_line_roundtrip it s b it0 :
  item_ok it → index_line it = Ret s → (length s < length b)%nat →
  ∃ rest, encode_index_line (Some b) it = Ret (true, Some (s ++ NUL :: rest)) ∧
          NUL ∉ s ∧ length (s ++ NUL :: rest) = length b ∧
          decode_index_line s it0 = Ret (true, it).
Proof.
  intros Hok Hs Hb. destruct (index_line_ok it Hok) as (v & _ & _ & _ & s' & Hs' & Hnul & _).
  assert (s' = s) as -> by congruence. unfold encode_index_line. rewrite Hs.
  cbn [mbind outcome_bind]. rewrite put_str_ok by done. eexists. split; [done|].
  split; [done|]. split; [|by apply decode_line].
  rewrite length_app. cbn [length]. rewrite length_drop. lia.
Qed.

Lemma index_line_roundtrip_witness :
  let it := IndexItem 4096 2 0 17 (Some ($"2001:0DB8::/32")) in
  let it0 := IndexItem 0 0 0 0 None in
  ∃ rest, encode_index_line (Some (replicate 40 NUL)) it
          = Ret (true, Some ($"4096:2:0:17:2001:0DB8::/32" ++ NUL :: rest)) ∧
          NUL ∉ $"4096:2:0:17:2001:0DB8::/32" ∧
          length ($"4096:2:0:17:2001:0DB8::/32" ++ NUL :: rest) = 40%nat ∧
          decode_index_line ($"4096:2:0:17:2001:0DB8::/32") it0 = Ret (true, it).
Proof.
  intros it it0. apply (index_line_roundtrip it _ (replicate 40 NUL) it0).
  - split; try (split; vm_compute; congruence). exists ($"2001:0DB8::/32").
    split; [reflexivity|]. apply (bool_decide_unpack (_ ∧ _)). vm_compute. exact I.
  - vm_compute. reflexivity.
  - vm_compute. lia.
Defined.

(** Write_index_line stays inside of its buffer of MAX_LINE + 1 bytes
    exactly when the line has at most MAX_LINE bytes; a longer one, which a
    data file can produce because a value may itself have almost MAX_LINE
    bytes, is written past the end of the array. *)
Theorem write_index_line_bound it s :
  item_ok it → index_line it = Ret s →
  (write_index_line it = Ret (s ++ [NL]) ↔ (length s ≤ MAX_LINE)%nat) ∧
  (write_index_line it = Fault ↔ (MAX_LINE < length s)%nat).
Proof.
  intros Hok Hs. destruct (write_index_line_spec it Hok) as (s' & Hs' & _ & ->).
  assert (s' = s) as -> by congruence. case_decide; split; split; intros; (done || lia).
Qed.

Lemma write_index_line_bound_witness :
  let it := IndexItem 0 0 0 1 (Some (replicate 505 (chr 65))) in
  let s := $"0:0:0:1:" ++ replicate 505 (chr 65) in
  (write_index_line it = Ret (s ++ [NL]) ↔ (length s ≤ MAX_LINE)%nat) ∧
  (write_index_line it = Fault ↔ (MAX_LINE < length s)%nat).
Proof.
  intros it s. apply (write_index_line_bound it s).
  - split; try (split; vm_compute; congruence). exists (replicate 505 (chr 65)).
    split; [reflexivity|]. split; [done|]. intros H%elem_of_replicate_inv. done.
  - vm_compute. reflexivity.
Defined.
