(* ===== verification/BinSearch.v ===== *)
(** * Binary search of an index file (mkdb/search_prim.c)

    scan_for_bol, search_compare and binary_search.  An index file is a text
    whose lines are sorted by their values; the search finds the first line
    whose value matches the query. *)

From S2P Require Import Prelude CLib CString Misc IpNetwork Types Stdio IndexLine.
From Stdlib Require Import Sorted.
Local Open Scope Z_scope.

(** ** search_compare *)

(** A null index value is an invalid argument of strcmp, strncmp and strSTR's
    callers; strSTR itself answers NULL for it. *)
Definition search_compare (query_item : query_term) (index_value : option cstr) : outcome Z :=
  match comp_type query_item with
  | MKDB_FULL_COMPARE => v ← of_option index_value; Ret (strcmp (search_value query_item) v)
  | MKDB_PARTIAL_COMPARE =>
      v ← of_option index_value;
      Ret (strncmp (search_value query_item) v (length (search_value query_item)))
  | MKDB_SUBSTR_COMPARE =>
      match strSTR index_value (Some (search_value query_item)) with
      | None => Ret 1
      | Some _ => Ret 0
      end
  | _ => Ret (-2)
  end.

(** ** scan_for_bol *)

Definition MAX_BACKUP_BUFFER : Z := 512.
Definition BUF_MID : Z := 256.

(** fread to the buffer after fseek *)
Definition read_block (f : cstr) (pos : Z) : cstr :=
  fread f (Z.to_nat pos) (Z.to_nat MAX_BACKUP_BUFFER).

(** where the buffer starts, and where the offset is in it *)
Definition first_block (off : Z) : Z * Z :=
  if off - BUF_MID <? 0 then (0, off) else (off - BUF_MID, BUF_MID).

(** The state of the loop: start and contents of the buffer, position in it,
    direction and the value of [*offset].  The result: the status, [*offset]
    and the position of the stream. *)
Fixpoint scan_loop (fuel : nat) (f : cstr) (low high save : Z)
    (start : Z) (buf : cstr) (i inc off : Z) : outcome (bool * Z * Z) :=
  match fuel with
  | O => NoFuel
  | S fuel =>
      let pos_of start (buf : cstr) := start + Z.of_nat (length buf) in
      if negb (i + start <? high) then Ret (false, off, pos_of start buf)
      else
        let '(start, i, buf) :=
          if i <? 0 then
            let start := start - MAX_BACKUP_BUFFER in
            let '(start, i) := if start <? 0 then (0, start + MAX_BACKUP_BUFFER)
                               else (start, BUF_MID) in
            (start, i, read_block f start)
          else (start, i, buf) in
        if bool_decide (buf = []) then Ret (false, off, start)
        else
          let size := Z.of_nat (length buf) in
          if (size <=? i) && (size <? MAX_BACKUP_BUFFER) then Ret (false, off, pos_of start buf)
          else
            let '(start, i, buf) :=
              if size <=? i then
                let start := start + MAX_BACKUP_BUFFER in (start, 0, read_block f start)
              else (start, i, buf) in
            if bool_decide (buf = []) then Ret (false, off, start)
            else
              c ← rdz buf i;
              if (c =c NL) then Ret (true, start + i + 1, start + i + 1)
              else if (i =? 0) && (start =? 0) then Ret (true, 0, 0)
              else if start + i <? low then
                let '(start, i) := first_block save in
                let buf := read_block f start in
                if bool_decide (buf = []) then Ret (false, save, start)
                else scan_loop fuel f low high save start buf (i + 1) 1 save
              else scan_loop fuel f low high save start buf (i + inc) inc off
  end.

(** each pass of the loop moves by one byte: backwards to the start of the
    file at most, then forwards to [high] *)
Definition scan_fuel (offset high : Z) : nat := Z.to_nat (offset + 2 * Z.max high 0 + 4).

Definition scan_for_bol (f : cstr) (pos low offset high : Z) : outcome (bool * Z * Z) :=
  if offset =? 0 then Ret (true, 0, pos)
  else
    let '(start, i) := first_block offset in
    let buf := read_block f start in
    if bool_decide (buf = []) then Ret (false, offset, start)
    else scan_loop (scan_fuel offset high) f low high offset start buf i (-1) offset.

(** ** binary_search *)

Definition MAX_BUF : nat := 4096.

Record bs_state := BsState {
  low : Z; high : Z; found : bool; save : Z; beg_of_line : Z; pos : Z; item : index_struct }.

(** [None]: the error return -1 *)
Fixpoint bs_loop (fuel : nat) (f : cstr) (q : query_term) (s : bs_state) : outcome (option bs_state) :=
  match fuel with
  | O => NoFuel
  | S fuel =>
      if negb (low s <? high s) then Ret (Some s)
      else
        let mid := low s + (high s - low s) ÷ 2 in
        '(st, mid, p) ← scan_for_bol f (pos s) (low s) mid (high s);
        if negb st || (beg_of_line s =? mid) || (mid =? high s) then Ret (Some s)
        else
          match readline f (Z.to_nat p) MAX_BUF with
          | None => Ret None
          | Some (buf, p) =>
              let end_of_line := Z.of_nat p in
              '(_, it) ← decode_index_line buf (item s);
              y ← search_compare q (value it);
              let it := IndexItem (offset it) (data_file_no it) (deleted_flag it)
                                  (attribute_id it) None in
              bs_loop fuel f q
                (if y =? 0 then BsState (low s) mid true mid mid end_of_line it
                 else if y <? 0 then BsState (low s) mid (found s) (save s) mid end_of_line it
                 else BsState end_of_line (high s) (found s) (save s) mid end_of_line it)
          end
  end.

Definition no_item : index_struct := IndexItem 0 0 0 0 None.

(** the loop narrows [low, high) at each turn *)
Definition binary_search_file (f : cstr) (pos size : Z) (q : query_term) : outcome Z :=
  r ← bs_loop (Z.to_nat (2 * size + 2)) f q (BsState 0 size false (-1) (-1) pos no_item);
  match r with
  | None => Ret (-1)
  | Some s => Ret (if found s then save s else -1)
  end.

Definition open_fp (fs : filesystem) (file : file_struct) : option file_struct :=
  match fp file with
  | Some _ => Some file
  | None => match fs (filename file) with
            | None => None
            | Some _ => Some (with_fp (Some 0) file)
            end
  end.
Definition close_fp (file : file_struct) : file_struct := with_fp None file.

(** the bytes that an open stream reads *)
Definition contents (fs : filesystem) (file : file_struct) : cstr := default [] (fs (filename file)).

Definition binary_search (fs : filesystem) (file : file_struct) (q : query_term) :
    outcome (Z * file_struct) :=
  match open_fp fs file with
  | None => Ret (-1, file)
  | Some file =>
      r ← binary_search_file (contents fs file) (default 0 (fp file)) (file_size file) q;
      Ret (r, close_fp file)
  end.

(** ** The start of a line *)

Lemma lookup_text_start ls i l j :
  ls !! i = Some l → (j < length l)%nat → text ls !! (start ls i + j)%nat = l !! j.
Proof.
  intros Hi Hj. rewrite (text_split _ _ _ Hi). unfold Stdio.start.
  rewrite lookup_app_r by lia. replace (length (text (take i ls)) + j - length (text (take i ls)))%nat
    with j by lia. by rewrite lookup_app_l.
Qed.

Lemma lookup_text_newline ls i l :
  ls !! i = Some l → text ls !! (start ls i + length l)%nat = Some NL.
Proof.
  intros Hi. rewrite (text_split _ _ _ Hi). unfold Stdio.start.
  rewrite lookup_app_r by lia. replace (length (text (take i ls)) + length l - length (text (take i ls)))%nat
    with (length l) by lia. rewrite lookup_app_r by lia. by rewrite Nat.sub_diag.
Qed.

Lemma read_block_lookup f start p c :
  0 ≤ start → start ≤ p < start + 512 → f !! Z.to_nat p = Some c →
  rdz (read_block f start) (p - start) = Ret c ∧
  p - start < Z.of_nat (length (read_block f start)).
Proof.
  intros Hs Hp Hc. unfold read_block, fread. split.
  - unfold rdz. rewrite (proj2 (Z.ltb_ge _ _)) by lia. unfold rd. apply of_option_Ret.
    rewrite lookup_take_lt by (change (Z.to_nat MAX_BACKUP_BUFFER) with 512%nat; lia).
    rewrite lookup_drop. rewrite <-Hc. f_equal. lia.
  - apply lookup_lt_Some in Hc. rewrite length_take, length_drop.
    change (Z.to_nat MAX_BACKUP_BUFFER) with 512%nat. lia.
Qed.

(** One step of the loop on a position inside of its buffer *)
Lemma scan_step fuel f low high save start p inc off c :
  0 ≤ start → start ≤ p < start + 512 → p < high → f !! Z.to_nat p = Some c →
  scan_loop (S fuel) f low high save start (read_block f start) (p - start) inc off =
  if c =c NL then Ret (true, p + 1, p + 1)
  else if (p =? 0) then Ret (true, 0, 0)
  else if p <? low then
    let '(start, i) := first_block save in
    let buf := read_block f start in
    if bool_decide (buf = []) then Ret (false, save, start)
    else scan_loop fuel f low high save start buf (i + 1) 1 save
  else scan_loop fuel f low high save start (read_block f start) (p - start + inc) inc off.
Proof.
  intros Hs Hp Hh Hc. destruct (read_block_lookup _ _ _ _ Hs Hp Hc) as [Hr Hl].
  assert (read_block f start ≠ []) as Hne by (intros E; rewrite E in Hl; simpl in Hl; lia).
  cbn [scan_loop]. replace (p - start + start) with p by lia.
  rewrite (proj2 (Z.ltb_lt p high)) by lia. cbn [negb].
  rewrite (proj2 (Z.ltb_ge (p - start) 0)) by lia.
  rewrite (bool_decide_eq_false_2 _ Hne). rewrite (proj2 (Z.leb_gt _ (p - start))) by lia.
  cbn [andb]. rewrite (bool_decide_eq_false_2 _ Hne), Hr. cbn [mbind outcome_bind].
  replace (start + (p - start)) with p by lia.
  destruct (c =c NL); [f_equal; f_equal; f_equal; lia|].
  destruct (Z.eqb_spec p 0) as [->|].
  - assert (start = 0) as -> by lia. done.
  - destruct (Z.eqb_spec (p - start) 0); [|done]. rewrite (proj2 (Z.eqb_neq start 0)) by lia. done.
Qed.

(** The scan goes back to the start [b] of the line that holds [p]. *)
Lemma scan_back f low high save start off b n : ∀ fuel p,
  0 ≤ start → p = b + Z.of_nat n → start ≤ p < start + 512 → p < high → 0 ≤ low ≤ b →
  start < b ∨ b = 0 ∧ start = 0 → (n + 2 ≤ fuel)%nat →
  (∀ j, b ≤ j ≤ p → ∃ c, f !! Z.to_nat j = Some c ∧ c ≠ NL) →
  (b = 0 ∨ f !! Z.to_nat (b - 1) = Some NL) →
  scan_loop fuel f low high save start (read_block f start) (p - start) (-1) off = Ret (true, b, b).
Proof.
  induction n as [|n IH]; intros fuel p Hs Hp Hr Hh Hlow Hb Hf Hline Hprev;
    (destruct fuel as [|fuel]; [lia|]);
    destruct (Hline p ltac:(lia)) as (c & Hc & Hne);
    rewrite (scan_step _ _ _ _ _ _ _ _ _ c) by (done || lia);
    rewrite (proj2 (char_eqb_neq _ _) Hne);
    (destruct (Z.eqb_spec p 0); [repeat f_equal; lia|]);
    rewrite (proj2 (Z.ltb_ge p low)) by lia;
    replace (p - start + -1) with (p - 1 - start) by lia.
  - destruct Hprev as [?|Hprev]; [lia|]. destruct fuel as [|fuel]; [lia|].
    rewrite (scan_step _ _ _ _ _ _ _ _ _ NL); [|lia|lia|lia|rewrite <-Hprev; f_equal; lia].
    rewrite char_eqb_refl. repeat f_equal; lia.
  - apply IH; try done; try lia. intros j Hj. apply Hline. lia.
Qed.

Section Scan.
Context (ls : list cstr).
Context (Hlines : Forall is_line ls) (Hlen : Forall (λ l, 2 ≤ length l ≤ 255)%nat ls).

(** scan_for_bol finds the start of the line of its offset, or of the next
    line when the offset is that of a newline. *)
Lemma scan_for_bol_line p a k c l m :
  ls !! k = Some l → (a ≤ k < c)%nat → (c ≤ length ls)%nat →
  0 < m → Z.of_nat (start ls k) ≤ m < Z.of_nat (start ls (S k)) →
  let b := if decide (m + 1 = Z.of_nat (start ls (S k))) then S k else k in
  scan_for_bol (text ls) p (Z.of_nat (start ls a)) m (Z.of_nat (start ls c))
  = Ret (true, Z.of_nat (start ls b), Z.of_nat (start ls b)).
Proof using Hlines Hlen.
  intros Hk Hac Hcn Hm0 Hm b. rewrite (start_S _ _ _ Hk) in Hm.
  pose proof (Forall_lookup_1 _ _ _ _ Hlen Hk) as Hll.
  cbn beta in Hll.
  pose proof (Forall_lookup_1 _ _ _ _ Hlines Hk) as [Hnl _].
  pose proof (start_mono ls a k ltac:(lia)) as Hak. pose proof (start_mono ls (S k) c ltac:(lia)) as Hkc.
  rewrite (start_S _ _ _ Hk) in Hkc. unfold scan_for_bol.
  rewrite (proj2 (Z.eqb_neq m 0)) by lia.
  assert (∃ s, first_block m = (s, m - s) ∧ 0 ≤ s ∧ s ≤ m < s + 512 ∧ (s = m - 256 ∨ s = 0 ∧ m < 256))
    as (s & -> & Hs0 & Hs & Hs1).
  { unfold first_block, BUF_MID. destruct (Z.ltb_spec (m - 256) 0).
    - exists 0. split; [f_equal; lia|]. lia.
    - exists (m - 256). split; [f_equal; lia|]. lia. }
  set (st := Z.of_nat (start ls k)) in *.
  assert (∃ x, text ls !! Z.to_nat m = Some x) as [x Hx].
  { destruct (decide (m = st + Z.of_nat (length l))) as [->|].
    - exists NL. rewrite <-(lookup_text_newline _ _ _ Hk). f_equal. lia.
    - destruct (lookup_lt_is_Some_2 l (Z.to_nat (m - st))) as [x Hx]; [lia|].
      exists x. rewrite <-Hx, <-(lookup_text_start _ _ _ _ Hk) by lia. f_equal. lia. }
  destruct (read_block_lookup _ _ _ _ Hs0 Hs Hx) as [_ Hl].
  rewrite (bool_decide_eq_false_2 (read_block (text ls) s = []))
    by (intros E; rewrite E in Hl; simpl in Hl; lia).
  assert (2 * m + 4 ≤ Z.of_nat (scan_fuel m (Z.of_nat (start ls c)))) as Hfuel.
  { unfold scan_fuel. lia. }
  subst b. rewrite (start_S _ _ _ Hk). case_decide as Hd.
  - destruct (scan_fuel m _) as [|fuel]; [lia|].
    rewrite (scan_step _ _ _ _ _ _ _ _ _ NL) by
      (lia || (rewrite <-(lookup_text_newline _ _ _ Hk); f_equal; lia)).
    rewrite char_eqb_refl. rewrite (start_S _ _ _ Hk). repeat f_equal; lia.
  - apply (scan_back _ _ _ _ _ _ _ (Z.to_nat (m - st))); try lia.
    + intros j Hj. destruct (lookup_lt_is_Some_2 l (Z.to_nat (j - st))) as [y Hy]; [lia|].
      exists y. split; [|by intros ->; apply Hnl; eapply list_elem_of_lookup_2].
      rewrite <-Hy, <-(lookup_text_start _ _ _ _ Hk) by lia. f_equal. lia.
    + destruct k as [|k']; [by left|]. right.
      destruct (lookup_lt_is_Some_2 ls k') as [l' Hl']; [apply lookup_lt_Some in Hk; lia|].
      rewrite <-(lookup_text_newline _ _ _ Hl'). f_equal. subst st.
      rewrite (start_S _ _ _ Hl'). lia.
Qed.
End Scan.

(** ** The search over lines *)

Definition decodes (l : cstr) (it : index_struct) : Prop :=
  ∀ it0, decode_index_line (clean l) it0 = Ret (true, it).

Section Loop.
Context (ls : list cstr) (its : list index_struct) (q : query_term) (y : nat → Z).
Context (Hlines : Forall is_line ls) (Hlen : Forall (λ l, 2 ≤ length l ≤ 255)%nat ls).
Context (Hits : Forall2 decodes ls its).
Context (Hy : ∀ k it, its !! k = Some it → search_compare q (value it) = Ret (y k)).
Context (Hmono : ∀ j k, (j ≤ k < length ls)%nat → y k ≤ y j).
Let n := length ls.
Let pos_of (i : nat) : Z := Z.of_nat (start ls i).

(** the line that holds a position *)
Lemma locate a c m :
  (a < c ≤ n)%nat → pos_of a ≤ m < pos_of c →
  ∃ k l, (a ≤ k < c)%nat ∧ ls !! k = Some l ∧ pos_of k ≤ m < pos_of (S k).
Proof using Type.
  intros Hac. remember (c - a)%nat as d eqn:Hd. revert c Hac Hd.
  induction d as [|d IH]; intros c Hac Hd Hm; [lia|].
  destruct c as [|c]; [lia|]. destruct (Z.lt_ge_cases m (pos_of c)).
  - destruct (decide (a = c)) as [->|]; [lia|].
    destruct (IH c) as (k & l & ? & ? & ?); [lia|lia|lia|]. exists k, l. split_and!; (done || lia).
  - destruct (lookup_lt_is_Some_2 ls c) as [l Hl]; [subst n; lia|]. exists c, l. split_and!; (done || lia).
Qed.

(** lines before [low] are too small, lines from [high] on too large, but for
    the line at [high] once a match is found *)
Record inv (s : bs_state) (a c : nat) : Prop := {
  inv_low : low s = pos_of a;
  inv_high : high s = pos_of c;
  inv_range : (a ≤ c ≤ n)%nat;
  inv_beg : beg_of_line s < low s ∨ beg_of_line s = high s;
  inv_before : ∀ j, (j < a)%nat → 0 < y j;
  inv_after : if found s then save s = pos_of c ∧ (c < n)%nat ∧ y c = 0
              else ∀ j, (c ≤ j < n)%nat → y j < 0 }.

Definition first_match (r : Z) : Prop :=
  (∃ k, (k < n)%nat ∧ y k = 0 ∧ (∀ j, (j < k)%nat → y j ≠ 0) ∧ r = pos_of k) ∨
  ((∀ k, (k < n)%nat → y k ≠ 0) ∧ r = -1).

Lemma inv_done s a c :
  inv s a c → ¬ low s < high s → first_match (if found s then save s else -1).
Proof using Hlines Hlen.
  intros [Hl Hh Hr _ Hb Ha] Hge. assert (a = c) as ->.
  { destruct (decide (a = c)); [done|]. rewrite Hl, Hh in Hge.
    pose proof (start_lt ls a c). unfold pos_of in Hge. lia. }
  destruct (found s).
  - destruct Ha as (-> & Hc & Hyc). left. exists c. split_and!; try done.
    intros j Hj. specialize (Hb j Hj). lia.
  - right. split; [|done]. intros k Hk. destruct (decide (k < c)%nat) as [Hkc|].
    + specialize (Hb k Hkc). lia.
    + specialize (Ha k). lia.
Qed.

(** what a turn of the loop does with the line [k] that it probes *)
Definition probe (s : bs_state) (k : nat) (it : index_struct) : bs_state :=
  let it := IndexItem (offset it) (data_file_no it) (deleted_flag it) (attribute_id it) None in
  let b := pos_of k in
  if y k =? 0 then BsState (low s) b true b b (pos_of (S k)) it
  else if y k <? 0 then BsState (low s) b (found s) (save s) b (pos_of (S k)) it
  else BsState (pos_of (S k)) (high s) (found s) (save s) b (pos_of (S k)) it.

Lemma bs_loop_turn fuel s a c :
  inv s a c → low s < high s →
  ∃ k it, (a ≤ k < c)%nat ∧
    bs_loop (S fuel) (text ls) q s = bs_loop fuel (text ls) q (probe s k it).
Proof using Hlines Hlen Hits Hy.
  intros [Hl Hh Hr Hbeg _ _] Hlt. cbn [bs_loop].
  rewrite (proj2 (Z.ltb_lt _ _)) by done. cbn [negb].
  assert (a < c)%nat as Hac.
  { destruct (decide (a = c)) as [->|]; [|lia]. rewrite Hl, Hh in Hlt. lia. }
  destruct (lookup_lt_is_Some_2 ls a) as [la Hla]; [subst n; lia|].
  pose proof (Forall_lookup_1 _ _ _ _ Hlen Hla) as Hlla. cbn beta in Hlla.
  pose proof (start_S _ _ _ Hla) as HSa. pose proof (start_mono ls (S a) c ltac:(lia)) as HSc.
  assert (3 ≤ high s - low s) as H3 by (rewrite Hl, Hh; unfold pos_of; lia).
  rewrite Z.quot_div_nonneg by lia.
  set (m := low s + (high s - low s) / 2).
  assert ((high s - low s) / 2 * 2 ≤ high s - low s < (high s - low s) / 2 * 2 + 2) as Hdiv.
  { pose proof (Z.div_mod (high s - low s) 2). pose proof (Z.mod_pos_bound (high s - low s) 2). lia. }
  assert (low s < m ∧ m + 1 < high s) as Hm by lia.
  assert (0 ≤ low s) as Hlow0 by (rewrite Hl; unfold pos_of; lia).
  destruct (locate a c m) as (k & l & Hk & Hkl & Hmk); [lia|rewrite <-Hl, <-Hh; lia|].
  clearbody m. replace (scan_for_bol (text ls) (pos s) (low s) m (high s))
    with (scan_for_bol (text ls) (pos s) (Z.of_nat (start ls a)) m (Z.of_nat (start ls c)))
    by (by rewrite Hl, Hh).
  rewrite (scan_for_bol_line ls Hlines Hlen _ a k c l m) by (done || (subst n; lia)).
  set (b := if decide (m + 1 = Z.of_nat (start ls (S k))) then S k else k).
  assert (a ≤ b < c)%nat as Hb.
  { subst b. case_decide as Hd; [|lia]. split; [lia|].
    destruct (decide (S k = c)) as [E|]; [|lia]. rewrite E in Hd. fold (pos_of c) in Hd. lia. }
  clearbody b. clear k l Hk Hkl Hmk.
  cbn [mbind outcome_bind negb orb].
  pose proof (start_mono ls a b ltac:(lia)) as Hab. pose proof (start_lt ls b c ltac:(subst n; lia)) as Hbc.
  fold (pos_of b). rewrite (proj2 (Z.eqb_neq (beg_of_line s) _)), (proj2 (Z.eqb_neq _ (high s)))
    by (unfold pos_of in *; lia).
  cbn [orb]. destruct (lookup_lt_is_Some_2 ls b) as [l Hbl]; [subst n; lia|].
  pose proof (Forall_lookup_1 _ _ _ _ Hlen Hbl) as Hll. cbn beta in Hll.
  pose proof (Forall_lookup_1 _ _ _ _ Hlines Hbl) as Hil.
  unfold pos_of at 1. rewrite Nat2Z.id.
  rewrite (readline_line _ _ _ _ Hbl Hil) by (unfold MAX_BUF; lia).
  destruct (Forall2_lookup_l _ _ _ _ _ Hits Hbl) as (it & Hit & Hdec).
  rewrite Hdec. cbn [mbind outcome_bind]. rewrite (Hy _ _ Hit). cbn [mbind outcome_bind].
  exists b, it. done.
Qed.

Lemma probe_inv s a c k it :
  inv s a c → (a ≤ k < c)%nat →
  ∃ a' c', inv (probe s k it) a' c' ∧
    high (probe s k it) - low (probe s k it) < high s - low s.
Proof using Hmono.
  intros [Hl Hh Hr Hbeg Hb Ha] Hk. unfold probe.
  pose proof (start_lt ls k c ltac:(subst n; lia)). pose proof (start_lt ls k (S k) ltac:(subst n; lia)).
  pose proof (start_mono ls a k ltac:(lia)). pose proof (start_mono ls (S k) c ltac:(lia)).
  destruct (Z.eqb_spec (y k) 0) as [E|E]; [|destruct (Z.ltb_spec (y k) 0)].
  - exists a, k. split; [|simpl; rewrite Hh; unfold pos_of; lia].
    split; simpl; try done; [lia|by right|]. split; [done|]. split; [lia|done].
  - exists a, k. split; [|simpl; rewrite Hh; unfold pos_of; lia].
    split; simpl; try done; [lia|by right|]. destruct (found s).
    + destruct Ha as (_ & Hc & Hyc). specialize (Hmono k c). lia.
    + intros j Hj. specialize (Hmono k j). lia.
  - exists (S k), c. split; [|simpl; rewrite Hl; unfold pos_of; lia].
    split; simpl; try done; [lia|left; unfold pos_of; lia|].
    intros j Hj. specialize (Hmono j k). lia.
Qed.

Lemma bs_loop_ok fuel : ∀ s a c,
  inv s a c → high s - low s < Z.of_nat fuel →
  ∃ s', bs_loop fuel (text ls) q s = Ret (Some s') ∧ first_match (if found s' then save s' else -1).
Proof using Hlines Hlen Hits Hy Hmono.
  induction fuel as [|fuel IH]; intros s a c Hs Hf.
  - destruct Hs. pose proof (start_mono ls a c). unfold pos_of in *. lia.
  - destruct (Z.lt_ge_cases (low s) (high s)).
    + destruct (bs_loop_turn fuel s a c Hs) as (k & it & Hk & ->); [done|].
      destruct (probe_inv s a c k it Hs Hk) as (a' & c' & Hs' & Hlt). eapply IH; [done|lia].
    + cbn [bs_loop]. rewrite (proj2 (Z.ltb_ge _ _)) by done. cbn [negb].
      exists s. split; [done|]. eapply inv_done; [done|lia].
Qed.

Lemma binary_search_file_ok :
  ∃ r, binary_search_file (text ls) 0 (Z.of_nat (length (text ls))) q = Ret r ∧ first_match r.
Proof using Hlines Hlen Hits Hy Hmono.
  unfold binary_search_file. set (size := Z.of_nat (length (text ls))).
  destruct (bs_loop_ok (Z.to_nat (2 * size + 2)) (BsState 0 size false (-1) (-1) 0 no_item) 0 n)
    as (s & -> & Hs).
  - split; simpl; try done; [|lia|lia|lia|lia].
    unfold pos_of, n. by rewrite start_all.
  - simpl. lia.
  - cbn [mbind outcome_bind]. by eexists.
Qed.
End Loop.

(** ** Sorted index files *)

(** the comparisons that follow the order of the file *)
Definition ordered_compare (q : query_term) : Prop :=
  comp_type q = MKDB_FULL_COMPARE ∨ comp_type q = MKDB_PARTIAL_COMPARE.
#[export] Instance ordered_compare_dec q : Decision (ordered_compare q).
Proof. unfold ordered_compare. apply _. Defined.

Definition it_value (it : index_struct) : cstr := default [] (value it).
Definition sorted_items (its : list index_struct) : Prop :=
  StronglySorted (λ a b, strcmp (it_value a) (it_value b) ≤ 0) its.

(** An index file on disk: its lines, the items on them *)
Record index_file (ls : list cstr) (its : list index_struct) : Prop := {
  if_lines : Forall is_line ls;
  if_length : Forall (λ l, 2 ≤ length l ≤ 255)%nat ls;
  if_items : Forall2 decodes ls its }.

Definition sign (q : query_term) (v : cstr) : Z :=
  match comp_type q with
  | MKDB_FULL_COMPARE => strcmp (search_value q) v
  | _ => strncmp (search_value q) v (length (search_value q))
  end.

Definition hit (q : query_term) (it : index_struct) : Prop := search_compare q (value it) = Ret 0.
#[export] Instance hit_dec q it : Decision (hit q it).
Proof. unfold hit. apply _. Defined.
Definition first_hit (q : query_term) (its : list index_struct) : option nat :=
  fst <$> list_find (hit q) its.

Lemma search_compare_sign q v :
  ordered_compare q → search_compare q (Some v) = Ret (sign q v).
Proof. unfold search_compare, sign. by intros [-> | ->]. Qed.

Lemma strcmp_antitone a b c : strcmp b c ≤ 0 → strcmp a c ≤ strcmp a b.
Proof.
  intros Hbc. destruct (strcmp_range a b) as [E|[E|E]]; destruct (strcmp_range a c) as [E'|[E'|E']];
    rewrite E, E'; try lia.
  - apply strcmp_eq in E' as ->. rewrite strcmp_opp in E. lia.
  - pose proof (strcmp_le_trans a b c). lia.
  - pose proof (strcmp_le_trans a b c). lia.
Qed.

Lemma sign_antitone q v w : ordered_compare q → strcmp v w ≤ 0 → sign q w ≤ sign q v.
Proof.
  intros Hq H. unfold sign. destruct Hq as [-> | ->]; [by apply strcmp_antitone|].
  unfold strncmp. rewrite firstn_all. apply strcmp_antitone. by apply strcmp_take_mono.
Qed.

Lemma decodes_value l it : decodes l it → ∃ v, value it = Some v.
Proof.
  intros H. specialize (H no_item). unfold decode_index_line in H.
  destruct (split_list _ _ _) as [a| |]; [|done|done]. cbn in H.
  destruct (bool_decide _); [|done].
  destruct (arg_strings a) as [|? [|? [|? [|? [|? [|]]]]]]; try done. injection H as <-. eauto.
Qed.

Lemma sorted_lookup its j k a b :
  sorted_items its → (j ≤ k)%nat → its !! j = Some a → its !! k = Some b →
  strcmp (it_value a) (it_value b) ≤ 0.
Proof.
  intros Hs. revert j k. induction Hs as [|x its _ IH Hx]; intros [|j] [|k] Hjk; try done; simpl.
  - intros [= ->] [= ->]. by rewrite strcmp_refl.
  - intros [= ->] Hk. rewrite Forall_forall in Hx. apply Hx. by eapply list_elem_of_lookup_2.
  - lia.
  - apply IH. lia.
Qed.

Lemma binary_search_file_sorted ls its q :
  index_file ls its → sorted_items its → ordered_compare q →
  binary_search_file (text ls) 0 (Z.of_nat (length (text ls))) q
  = Ret (match first_hit q its with Some k => Z.of_nat (start ls k) | None => -1 end).
Proof.
  intros [H1 H2 H3] Hs Hq. pose proof (Forall2_length _ _ _ H3) as Hlen.
  set (y k := match its !! k with Some it => sign q (it_value it) | None => -1 end).
  assert (∀ k it, its !! k = Some it → search_compare q (value it) = Ret (y k)) as Hy.
  { intros k it Hk. destruct (Forall2_lookup_r _ _ _ _ _ H3 Hk) as (l & _ & Hd).
    destruct (decodes_value _ _ Hd) as [v Hv]. unfold y. rewrite Hk. unfold it_value. rewrite Hv.
    by apply search_compare_sign. }
  destruct (binary_search_file_ok ls its q y H1 H2 H3 Hy) as (r & -> & Hr).
  - intros j k Hjk. unfold y.
    destruct (lookup_lt_is_Some_2 its j) as [a Ha]; [lia|].
    destruct (lookup_lt_is_Some_2 its k) as [b Hb]; [lia|]. rewrite Ha, Hb.
    apply sign_antitone; [done|]. eapply sorted_lookup; [done| |done..]. lia.
  - f_equal. unfold first_hit. destruct (list_find (hit q) its) as [[k it]|] eqn:E; simpl.
    + apply list_find_Some in E as (Hk & Hhit & Hbefore). unfold hit in Hhit. rewrite (Hy _ _ Hk) in Hhit.
      destruct Hr as [(k' & Hk' & Hyk & Hb & ->)|[Hno _]].
      * destruct (Nat.lt_trichotomy k k') as [|[->|]]; [|done|].
        -- injection Hhit as Hyk0. by destruct (Hb k).
        -- destruct (lookup_lt_is_Some_2 its k') as [b Hb']; [lia|].
           destruct (Hbefore k' b Hb'); [lia|]. unfold hit. by rewrite (Hy _ _ Hb'), Hyk.
      * injection Hhit as Hyk. destruct (Hno k); [|done]. apply lookup_lt_Some in Hk. lia.
    + apply list_find_None in E. destruct Hr as [(k & Hk & Hyk & _ & _)|[_ ->]]; [|done].
      destruct (lookup_lt_is_Some_2 its k) as [it Hit]; [lia|].
      rewrite Forall_forall in E. destruct (E it); [by eapply list_elem_of_lookup_2|].
      unfold hit. by rewrite (Hy _ _ Hit), Hyk.
Qed.

Lemma binary_search_sorted fs file q ls its :
  fs (filename file) = Some (text ls) → fp file = None →
  file_size file = Z.of_nat (length (text ls)) →
  index_file ls its → sorted_items its → ordered_compare q →
  binary_search fs file q
  = Ret (match first_hit q its with Some k => Z.of_nat (start ls k) | None => -1 end, file).
Proof.
  intros Hfs Hfp Hsize Hif Hs Hq. unfold binary_search, open_fp. rewrite Hfp, Hfs.
  unfold contents. destruct file as [ty nm no sz nr lk p]. cbn in *. subst. rewrite Hfs. cbn.
  by erewrite binary_search_file_sorted.
Qed.

(** C5: binary search on a sorted index file.  When the lines of the file have
    3 to 256 bytes, decode to items and are sorted by value (strcmp), the
    search for an exact or a prefix match ends and returns the offset of the
    first line whose value matches the query, or -1 if there is none; the
    stream is closed again. *)
Theorem binary_search_correct fs file q ls its :
  fs (filename file) = Some (text ls) → fp file = None →
  file_size file = Z.of_nat (length (text ls)) →
  index_file ls its → sorted_items its → ordered_compare q →
  ∃ r, binary_search fs file q = Ret (r, file) ∧
    ((∃ k it, its !! k = Some it ∧ hit q it ∧ r = Z.of_nat (start ls k) ∧
              ∀ j it', its !! j = Some it' → (j < k)%nat → ¬ hit q it') ∨
     (r = -1 ∧ ∀ it, it ∈ its → ¬ hit q it)).
Proof.
  intros. erewrite binary_search_sorted by done. eexists. split; [done|]. unfold first_hit.
  destruct (list_find (hit q) its) as [[k it]|] eqn:E; simpl.
  - apply list_find_Some in E as (Hk & Hhit & Hbefore). left. exists k, it. by split_and!.
  - apply list_find_None in E. right. split; [done|]. by apply Forall_forall.
Qed.

Definition demo_lines : list cstr :=
  [$"0:1:0:3:ALPHA"; $"40:1:0:3:BETA"; $"9:1:0:3:BETA"; $"70:1:0:3:GAMMA"].
Definition demo_items : list index_struct :=
  [IndexItem 0 1 0 3 (Some $"ALPHA"); IndexItem 40 1 0 3 (Some $"BETA");
   IndexItem 9 1 0 3 (Some $"BETA"); IndexItem 70 1 0 3 (Some $"GAMMA")].

Lemma demo_index_file : index_file demo_lines demo_items.
Proof.
  split.
  - repeat (constructor; [split; apply (bool_decide_unpack _); vm_compute; exact I|]). constructor.
  - repeat (constructor; [vm_compute; lia|]). constructor.
  - repeat (constructor; [intros it0; vm_compute; reflexivity|]). constructor.
Qed.
Lemma demo_sorted : sorted_items demo_items.
Proof. repeat (constructor; [|repeat (constructor; [vm_compute; done|]); constructor]). constructor. Qed.

Definition demo_query (v : cstr) : query_term :=
  QueryTerm None (-2) MKDB_BINARY_SEARCH MKDB_FULL_COMPARE v None None.
Definition demo_fs : filesystem := λ n, if bool_decide (n = $"x.ndx") then Some (text demo_lines) else None.
Definition demo_file : file_struct :=
  File MKDB_EXACT_INDEX_FILE ($"x.ndx") 7 (Z.of_nat (length (text demo_lines))) 4 false None.

Lemma binary_search_correct_witness :
  let q := demo_query ($"BETA") in
  ∃ r, binary_search demo_fs demo_file q = Ret (r, demo_file) ∧
    ((∃ k it, demo_items !! k = Some it ∧ hit q it ∧ r = Z.of_nat (start demo_lines k) ∧
              ∀ j it', demo_items !! j = Some it' → (j < k)%nat → ¬ hit q it') ∨
     (r = -1 ∧ ∀ it, it ∈ demo_items → ¬ hit q it)).
Proof.
  intros q. apply (binary_search_correct demo_fs demo_file q demo_lines demo_items);
    try reflexivity.
  - apply demo_index_file.
  - apply demo_sorted.
  - left. reflexivity.
Defined.
