(* ===== verification/Records.v ===== *)
(** * Records (mkdb/anon_record.c, mkdb/records.c)

    A data file is a text of "attribute: value" lines; a line of dashes ends a
    record.  An anonymous record holds the pairs as they are in the file, a
    record has them resolved to the attributes of its class.  Reading works on
    the bytes of the file and a position. *)

From S2P Require Import Prelude CLib CString Misc DlList IpNetwork Types Stdio ValidateRec.
Local Open Scope Z_scope.

(** ** anon_record.c *)

Definition get_anon_av_pair (line : cstr) : option anon_av_pair_struct * av_parse_result :=
  match parse_line (Some line) with
  | None => (None, AV_IGNORE)
  | Some (attr_name, value) => (Some (AnonAvPair attr_name value), AV_OK)
  end.

Definition first_char_is (c : ascii) (line : cstr) : bool :=
  match line with x :: _ => x =c c | [] => false end.

(** The pairs of the record (the last one first), whether the loop met the end
    of the file, and the position of the stream. *)
Fixpoint read_anon_loop (fuel : nat) (f : cstr) (pos : nat) (av_list : list anon_av_pair_struct) :
    outcome (list anon_av_pair_struct * bool * nat) :=
  match fuel with
  | O => NoFuel
  | S fuel =>
      match readline f pos MAX_LINE with
      | None => Ret (av_list, true, pos)
      | Some (line, pos) =>
          let '(is_new, line) := new_record (Some line) in
          let line := default [] line in
          if is_new : bool then Ret (av_list, false, pos)
          else if first_char_is (chr 95) line then read_anon_loop fuel f pos av_list
          else
            match get_anon_av_pair line with
            | (Some av, AV_OK) => read_anon_loop fuel f pos (av :: av_list)
            | _ => read_anon_loop fuel f pos av_list
            end
      end
  end.

(** every line takes at least one byte *)
Definition mkdb_read_anon_record (data_file_no : Z) (f : cstr) (pos : nat) :
    outcome (option anon_record_struct * rec_parse_result * nat) :=
  '(av_list, eof_flag, pos') ← read_anon_loop (S (length f)) f pos [];
  match av_list with
  | [] => Ret (None, if eof_flag : bool then REC_EOF else REC_NULL, pos')
  | _ => Ret (Some (AnonRecord data_file_no (Z.of_nat pos) (reverse av_list)), REC_OK, pos')
  end.

Definition find_anon_by_names (names : list cstr) (rec : anon_record_struct) :
    option anon_av_pair_struct :=
  find_first (λ av, STR_EXISTS (Some (anon_attr_name av))
                    && existsb (λ n, STR_EQ (anon_attr_name av) n) names) (anon_av_pair_list rec).
Definition find_anon_attr_in_rec (rec : anon_record_struct) (attr_name : cstr) :
    option anon_av_pair_struct := find_anon_by_names [attr_name] rec.
Definition find_anon_auth_area_in_rec : anon_record_struct → option anon_av_pair_struct :=
  find_anon_by_names [$"Auth-Area"; $"AA"].
Definition find_anon_class_in_rec : anon_record_struct → option anon_av_pair_struct :=
  find_anon_by_names [$"Class-Name"; $"cn"; $"Schema-Name"; $"Object-Type"].
Definition find_anon_updated_in_rec : anon_record_struct → option anon_av_pair_struct :=
  find_anon_by_names [$"Updated"; $"UP"].

(** ** records.c *)

(** the pair, the status and whether an error goes to the client *)
Definition translate_anon_av_pair (av : anon_av_pair_struct) (c : class_struct) (validate_flag : Z) :
    option av_pair_struct * av_parse_result * option cstr :=
  let '(_, protocol_error_flag, _) := decode_validate_flag validate_flag in
  match find_attribute_by_name c (anon_attr_name av) with
  | None =>
      if protocol_error_flag : bool then (None, AV_STOP, Some (anon_attr_name av))
      else (None, AV_IGNORE, None)
  | Some attr =>
      if NOT_STR_EXISTS (Some (anon_value av)) then (None, AV_IGNORE, None)
      else (Some (AvPair attr (Some (anon_value av))), AV_OK, None)
  end.

Definition append_attribute_to_record (rec : record_struct) (c : class_struct)
    (attrib_name value : cstr) : bool * record_struct :=
  match find_attribute_by_name c attrib_name with
  | None => (false, rec)
  | Some attr =>
      (true, Record_ (rec_class rec) (rec_auth_area rec) (rec_data_file_no rec)
                     (rec_index_file_no rec) (rec_offset rec)
                     (av_pair_list rec ++ [AvPair attr (Some value)]))
  end.

Definition with_av_pairs (l : list av_pair_struct) (rec : record_struct) : record_struct :=
  Record_ (rec_class rec) (rec_auth_area rec) (rec_data_file_no rec) (rec_index_file_no rec)
          (rec_offset rec) l.

Definition mkdb_translate_anon_record (anon : anon_record_struct) (c : class_struct)
    (aa : auth_area_struct) (validate_flag : Z) : record_struct :=
  let rec := Record_ c aa (anon_data_file_no anon) 0 (anon_offset anon) [] in
  let rec := match find_anon_auth_area_in_rec anon with
             | None => (append_attribute_to_record rec c ($"Auth-Area") (aa_name aa)).2
             | Some _ => rec
             end in
  let rec := match find_anon_class_in_rec anon with
             | None => (append_attribute_to_record rec c ($"Class-Name") (class_name c)).2
             | Some _ => rec
             end in
  with_av_pairs
    (av_pair_list rec
     ++ omap (λ av, (translate_anon_av_pair av c validate_flag).1.1) (anon_av_pair_list anon)) rec.

(** [check_record] validates a record and may edit its values; ValidateRec
    defines the one of the program. *)
Section Read.
Context (check_record : record_check).

Definition mkdb_read_record (c : class_struct) (aa : auth_area_struct) (data_file_no validate_flag : Z)
    (f : cstr) (pos : nat) : outcome (option record_struct * rec_parse_result * nat) :=
  '(anon, status, pos) ← mkdb_read_anon_record data_file_no f pos;
  match anon with
  | None => Ret (None, status, pos)
  | Some anon =>
      let rec := mkdb_translate_anon_record anon c aa validate_flag in
      if validate_flag =? 0 then Ret (Some rec, status, pos)
      else
        let '(valid, rec) := check_record rec validate_flag in
        if valid : bool then Ret (Some rec, status, pos) else Ret (None, REC_INVAL, pos)
  end.

Fixpoint read_next_loop (fuel : nat) (c : class_struct) (aa : auth_area_struct)
    (data_file_no validate_flag : Z) (f : cstr) (pos : nat) :
    outcome (option record_struct * rec_parse_result * nat) :=
  match fuel with
  | O => NoFuel
  | S fuel =>
      '(rec, status, pos) ← mkdb_read_record c aa data_file_no validate_flag f pos;
      if decide (status ≠ REC_OK ∧ status ≠ REC_EOF)
      then read_next_loop fuel c aa data_file_no validate_flag f pos
      else Ret (rec, status, pos)
  end.
Definition mkdb_read_next_record (c : class_struct) (aa : auth_area_struct)
    (data_file_no validate_flag : Z) (f : cstr) (pos : nat) :
    outcome (option record_struct * rec_parse_result * nat) :=
  read_next_loop (S (length f)) c aa data_file_no validate_flag f pos.
End Read.

(** [line] is what the buffer of mkdb_write_record holds; a pair without a
    value leaves it as it was *)
Definition encode_av_pair (av : av_pair_struct) (line : cstr) : outcome cstr :=
  match av_value av with
  | Some ((_ :: _) as v) =>
      let s := attr_name (av_attr av) ++ chr 58 :: v in
      if decide (length s ≤ MAX_LINE)%nat then Ret s else Fault
  | _ => Ret line
  end.

(** the text that is appended to the file *)
Fixpoint write_loop (avs : list av_pair_struct) (line : cstr) : outcome cstr :=
  match avs with
  | [] => Ret []
  | av :: avs =>
      line ← encode_av_pair av line;
      rest ← write_loop avs line;
      Ret (line ++ NL :: rest)
  end.
Definition mkdb_write_record (rec : record_struct) : outcome cstr :=
  write_loop (av_pair_list rec) [].

(** The test of the C code combines its last two parts with a bitwise or, so it
    follows a null name. *)
Definition find_attr_in_record_by_name (rec : option record_struct) (name : option cstr) :
    outcome (option av_pair_struct) :=
  match rec, name with
  | None, _ => Ret None
  | Some _, None => Fault
  | Some _, Some [] => Ret None
  | Some rec, Some name =>
      Ret (find_first (λ av, STR_EQ (attr_name (av_attr av)) name) (av_pair_list rec))
  end.
Definition find_attr_in_record_by_id (rec : option record_struct) (id : Z) : option av_pair_struct :=
  rec ← rec; find_first (λ av, attr_local_id (av_attr av) =? id) (av_pair_list rec).

(** The loop works on the list and its cursor; it follows the value of the
    cursor, which is null once the list is empty. *)
Fixpoint delete_attribute_loop (fuel : nat) (z : DL.cursor av_pair_struct) (attrib_name : cstr)
    (status : bool) : outcome (bool * DL.cursor av_pair_struct) :=
  match fuel with
  | O => NoFuel
  | S fuel =>
      match z with
      | None => Fault
      | Some (_, av, r) =>
          if STR_EQ (attr_name (av_attr av)) attrib_name
          then delete_attribute_loop fuel (DL.z_delete z) attrib_name true
          else
            match r with
            | [] => Ret (status, z)
            | _ => delete_attribute_loop fuel (DL.z_next z) attrib_name status
            end
      end
  end.
Definition delete_attribute_from_record (rec : record_struct) (attrib_name : cstr) :
    outcome (bool * record_struct) :=
  match av_pair_list rec with
  | [] => Ret (false, rec)
  | av :: r =>
      '(status, z) ← delete_attribute_loop (3 * length (av :: r)) (Some ([], av, r)) attrib_name false;
      Ret (status, with_av_pairs (DL.elems z) rec)
  end.

(** copies with strings of their own; xstrdup copies a null value to null *)
Definition copy_av_pair (av : av_pair_struct) : av_pair_struct :=
  AvPair (av_attr av) (av_value av).
Definition copy_record (rec : record_struct) : record_struct :=
  with_av_pairs (map copy_av_pair (av_pair_list rec)) rec.

(** ** Writing and reading records *)

Definition av_line (av : av_pair_struct) : cstr :=
  attr_name (av_attr av) ++ chr 58 :: default [] (av_value av).

#[export] Instance is_line_dec l : Decision (is_line l).
Proof. unfold is_line. apply _. Defined.

(** a line that readline and new_record hand on as it is *)
Definition plain_line (line : cstr) : Prop :=
  is_line line ∧ clean line = line ∧ (length line + 1 < MAX_LINE)%nat ∧
  STRN_EQ line ($"---") 3 = false ∧ STR_EQ line ($"_NEW_") = false ∧
  first_char_is (chr 95) line = false.
#[export] Instance plain_line_dec l : Decision (plain_line l).
Proof. unfold plain_line. apply _. Defined.

(** a pair of an attribute of class [c] whose line reads back *)
Definition plain_pair (c : class_struct) (av : av_pair_struct) : Prop :=
  let name := attr_name (av_attr av) in
  (∃ v, av_value av = Some v ∧ v ≠ [] ∧ ltrim_s v = v) ∧
  find_attribute_by_name c name = Some (av_attr av) ∧
  chr 58 ∉ name ∧ rtrim_s name = name ∧ head (ltrim_s name) ≠ Some (chr 35) ∧
  plain_line (av_line av).

Definition names_in (names : list cstr) (avs : list av_pair_struct) : Prop :=
  Exists (λ av, attr_name (av_attr av) ≠ [] ∧
                existsb (λ n, STR_EQ (attr_name (av_attr av)) n) names = true) avs.

Definition anon_of (av : av_pair_struct) : anon_av_pair_struct :=
  AnonAvPair (attr_name (av_attr av)) (default [] (av_value av)).

Definition record_text (avs : list av_pair_struct) : cstr := text (av_line <$> avs).

Lemma write_loop_plain c avs line :
  Forall (plain_pair c) avs → write_loop avs line = Ret (record_text avs).
Proof.
  intros H. revert line. induction H as [|av avs Hav _ IH]; intros line; [done|].
  cbn [write_loop]. destruct Hav as ((v & Hv & Hne & _) & _ & _ & _ & _ & Hl).
  assert (encode_av_pair av line = Ret (av_line av)) as ->.
  { destruct Hl as (_ & _ & Hlen & _). unfold encode_av_pair. unfold av_line in *. rewrite Hv in *.
    destruct v as [|x v]; [done|]. simpl default in *. rewrite decide_True; [done|lia]. }
  cbn [mbind outcome_bind]. rewrite IH. cbn [mbind outcome_bind]. unfold record_text.
  by rewrite fmap_cons, text_cons.
Qed.

Lemma new_record_plain line :
  plain_line line → new_record (Some line) = (false, Some line).
Proof.
  intros ([Hnl _] & _ & _ & H1 & H2 & _). unfold new_record. destruct line as [|x l] eqn:E; [done|].
  rewrite <-E in *. assert (stripchar_s NL line = line) as ->.
  { unfold stripchar_s. clear E H1 H2. induction line as [|a s IH]; [done|].
    apply not_elem_of_cons in Hnl as [Ha Hnl]. rewrite filter_cons_True.
    - by rewrite IH.
    - apply negb_true_iff, char_eqb_neq. congruence. }
  by rewrite H1, H2.
Qed.

Lemma get_anon_plain c av :
  plain_pair c av → get_anon_av_pair (av_line av) = (Some (anon_of av), AV_OK).
Proof.
  intros ((v & Hv & _ & Hlt) & _ & Hc & Hr & Hp & _). unfold get_anon_av_pair, av_line, anon_of.
  rewrite Hv. simpl default.
  pose proof (parse_line_spec (attr_name (av_attr av)) [] [] v Hc Hr Hlt) as H.
  cbn [app] in H. destruct H as [-> _]; [done|done|]. by rewrite bool_decide_eq_false_2.
Qed.

Lemma read_record_loop c avs : ∀ fuel pre rest acc,
  Forall (plain_pair c) avs → (length avs < fuel)%nat →
  read_anon_loop fuel (pre ++ record_text avs ++ rest) (length pre) acc =
  read_anon_loop (fuel - length avs) (pre ++ record_text avs ++ rest)
                 (length (pre ++ record_text avs)) (reverse (anon_of <$> avs) ++ acc).
Proof.
  induction avs as [|av avs IH]; intros fuel pre rest acc Hav Hf.
  { cbn. rewrite app_nil_r, Nat.sub_0_r. done. }
  apply Forall_cons in Hav as [Hav Havs]. destruct fuel as [|fuel]; [simpl in Hf; lia|].
  pose proof Hav as (_ & _ & _ & _ & _ & Hl). pose proof Hl as (Hline & Hclean & Hlen & _ & _ & Hdel).
  cbn [read_anon_loop]. unfold record_text. rewrite fmap_cons, text_cons.
  rewrite <-!app_assoc. cbn [app]. rewrite readline_at by done. rewrite Hclean.
  rewrite new_record_plain by done. simpl default. rewrite Hdel, (get_anon_plain c) by done.
  assert (length pre + length (av_line av) + 1 = length (pre ++ av_line av ++ [NL]))%nat as ->
    by (rewrite !length_app; simpl; lia).
  assert (pre ++ av_line av ++ NL :: text (av_line <$> avs) ++ rest
          = (pre ++ av_line av ++ [NL]) ++ record_text avs ++ rest) as E
    by (unfold record_text; by rewrite <-!app_assoc).
  rewrite E, IH by (done || (simpl in Hf; lia)). f_equal.
  - unfold record_text. rewrite !length_app. simpl. lia.
  - by rewrite fmap_cons, reverse_cons, <-app_assoc.
Qed.

Lemma find_anon_names names avs no off :
  names_in names avs →
  find_anon_by_names names (AnonRecord no off (anon_of <$> avs)) ≠ None.
Proof.
  intros (av & Hin & Hne & Hn)%Exists_exists. unfold find_anon_by_names.
  rewrite find_first_None. intros H. specialize (H (anon_of av)). cbn [anon_attr_name anon_of] in H.
  rewrite Hn, andb_true_r in H. destruct (attr_name (av_attr av)); [done|].
  discriminate H. apply list_elem_of_fmap. eauto.
Qed.

Lemma translate_plain c avs flag :
  Forall (plain_pair c) avs →
  omap (λ av, (translate_anon_av_pair av c flag).1.1) (anon_of <$> avs) = avs.
Proof.
  induction 1 as [|av avs ((v & Hv & Hne & _) & Hf & _) _ IH]; [done|].
  assert ((translate_anon_av_pair (anon_of av) c flag).1.1 = Some av) as E.
  { unfold translate_anon_av_pair. cbn [anon_attr_name anon_value anon_of]. rewrite Hf, Hv.
    destruct (decode_validate_flag flag) as [[? ?] ?]. destruct v as [|x v]; [done|].
    cbn. rewrite <-Hv. by destruct av. }
  rewrite fmap_cons. cbn [omap list_omap]. rewrite E. by f_equal.
Qed.

Definition auth_area_names : list cstr := [$"Auth-Area"; $"AA"].
Definition class_names : list cstr := [$"Class-Name"; $"cn"; $"Schema-Name"; $"Object-Type"].

(** a record that names its authority area and class, of plain pairs *)
Definition full_record (c : class_struct) (avs : list av_pair_struct) : Prop :=
  avs ≠ [] ∧ Forall (plain_pair c) avs ∧ names_in auth_area_names avs ∧ names_in class_names avs.

(** translating the pairs of a record gives it back *)
Lemma translate_full c aa no off flag avs :
  full_record c avs →
  mkdb_translate_anon_record (AnonRecord no off (anon_of <$> avs)) c aa flag = Record_ c aa no 0 off avs.
Proof.
  intros (_ & Hav & Haa & Hcl). unfold mkdb_translate_anon_record.
  destruct (find_anon_auth_area_in_rec _) eqn:E1; [|by destruct (find_anon_names auth_area_names avs no off Haa)].
  destruct (find_anon_class_in_rec _) eqn:E2; [|by destruct (find_anon_names class_names avs no off Hcl)].
  unfold with_av_pairs. cbn [rec_class rec_auth_area rec_data_file_no rec_index_file_no rec_offset av_pair_list anon_av_pair_list app].
  by rewrite translate_plain.
Qed.

(** reading back the text of a record that a separator ends *)
Lemma read_record_text check c aa no flag pre avs post :
  full_record c avs →
  let rec := Record_ c aa no 0 (Z.of_nat (length pre)) avs in
  flag = 0 ∨ check rec flag = (true, rec) →
  mkdb_read_record check c aa no flag (pre ++ record_text avs ++ $"---" ++ NL :: post) (length pre)
  = Ret (Some rec, REC_OK, (length pre + length (record_text avs) + 4)%nat).
Proof.
  intros (Hne & Hav & Haa & Hcl) rec Hcheck.
  unfold mkdb_read_record, mkdb_read_anon_record.
  set (f := pre ++ record_text avs ++ $"---" ++ NL :: post).
  assert (length avs ≤ length (record_text avs))%nat as Hlen.
  { unfold record_text. rewrite <-(length_fmap av_line avs) at 1. apply text_length. }
  assert (length avs + 4 ≤ length f)%nat as Hf by (subst f; rewrite !length_app; simpl; lia).
  unfold f at 2. rewrite (read_record_loop c) by (done || lia).
  destruct (S (length f) - length avs)%nat as [|fuel] eqn:Efuel; [lia|].
  cbn [read_anon_loop]. rewrite (app_assoc pre), readline_at; [|split; apply (bool_decide_unpack _); vm_compute; exact I|vm_compute; lia].
  change (new_record (Some (clean ($"---")))) with (true, Some ($"---")). simpl default. cbn [mbind outcome_bind].
  rewrite app_nil_r. destruct (reverse (anon_of <$> avs)) as [|a l] eqn:El.
  { apply (f_equal length) in El. rewrite length_reverse, length_fmap in El. by destruct avs. }
  rewrite <-El, reverse_involutive. cbn [mbind outcome_bind].
  assert (mkdb_translate_anon_record (AnonRecord no (Z.of_nat (length pre)) (anon_of <$> avs)) c aa flag = rec) as ->
    by (by apply translate_full).
  replace (length pre + length (record_text avs) + 4)%nat
    with (length (pre ++ record_text avs) + length ($"---") + 1)%nat by (rewrite length_app; simpl; lia).
  destruct Hcheck as [-> | ->]; [done|]. by destruct (flag =? 0).
Qed.

(** C34: a record survives being written to a data file and read back.  For a
    record that names its authority area and class and whose pairs print to
    plain lines of at most 510 bytes, mkdb_write_record prints one line for
    each pair, and mkdb_read_record, started at that place of any file in
    which a separator follows, returns a record with the same pairs and the
    offset of the text, and leaves the stream behind the separator. *)
Theorem record_roundtrip check c aa rec no pre post :
  full_record c (av_pair_list rec) →
  ∃ t, mkdb_write_record rec = Ret t ∧
    mkdb_read_record check c aa no 0 (pre ++ t ++ $"---" ++ NL :: post) (length pre)
    = Ret (Some (Record_ c aa no 0 (Z.of_nat (length pre)) (av_pair_list rec)), REC_OK,
           (length pre + length t + 4)%nat).
Proof.
  intros Hf. exists (record_text (av_pair_list rec)). split.
  - destruct Hf as (_ & Hav & _). by eapply write_loop_plain.
  - apply read_record_text; [done|by left].
Qed.

Definition demo_attr (id : Z) (name : cstr) : attribute_struct :=
  Attribute id id false false false false false false [] name None INDEX_EXACTLY TYPE_TEXT None.
Definition demo_class : class_struct :=
  Class_ 1 ($"host") [] ($"db") None
         [demo_attr 0 ($"Class-Name"); demo_attr 1 ($"Auth-Area"); demo_attr 2 ($"Host-Name")] None None None.
Definition demo_area : auth_area_struct := AuthArea ($"a.com") None AUTH_AREA_PRIMARY None no_soa None None None None 0 None None.
Definition demo_pairs : list av_pair_struct :=
  [AvPair (demo_attr 1 ($"Auth-Area")) (Some $"a.com");
   AvPair (demo_attr 0 ($"Class-Name")) (Some $"host");
   AvPair (demo_attr 2 ($"Host-Name")) (Some $"www: the host")].

Lemma demo_plain : Forall (plain_pair demo_class) demo_pairs.
Proof.
  repeat (constructor;
    [split; [eexists; split; [reflexivity|split; [discriminate|vm_compute; reflexivity]]
            |split; [vm_compute; reflexivity|apply (bool_decide_unpack _); vm_compute; exact I]]|]).
  constructor.
Qed.

Lemma demo_full_record : full_record demo_class demo_pairs.
Proof.
  split; [discriminate|]. split; [apply demo_plain|].
  split; [left|right; left]; (split; [discriminate|vm_compute; reflexivity]).
Qed.

Lemma record_roundtrip_witness :
  let rec := Record_ demo_class demo_area 0 0 0 demo_pairs in
  ∃ t, mkdb_write_record rec = Ret t ∧
    mkdb_read_record no_check demo_class demo_area 4 0
      (($"x:1" ++ [NL]) ++ t ++ $"---" ++ NL :: $"more") 4
    = Ret (Some (Record_ demo_class demo_area 4 0 4 demo_pairs), REC_OK, (4 + length t + 4)%nat).
Proof.
  intros rec. apply (record_roundtrip _ demo_class demo_area rec 4 ($"x:1" ++ [NL]) ($"more")).
  apply demo_full_record.
Defined.

(** ** Reading ends *)

Lemma readline_progress f pos size l pos' :
  (1 < size)%nat → readline f pos size = Some (l, pos') → (pos < pos' ≤ length f)%nat.
Proof.
  intros Hs. unfold readline. destruct (fgets f pos size) as [[b p]|] eqn:E; [|done].
  intros [= _ <-]. by eapply fgets_progress.
Qed.

Lemma read_anon_loop_total f fuel : ∀ pos acc,
  (length f - pos < fuel)%nat →
  ∃ av_list eof pos', read_anon_loop fuel f pos acc = Ret (av_list, eof, pos') ∧
    (pos ≤ pos')%nat ∧ (pos' ≤ length f ∨ pos' = pos)%nat ∧
    (eof = false ∨ length acc < length av_list → pos < pos')%nat.
Proof.
  induction fuel as [|fuel IH]; intros pos acc Hf; [lia|]. cbn [read_anon_loop].
  destruct (readline f pos MAX_LINE) as [[line p]|] eqn:E.
  - apply readline_progress in E; [|unfold MAX_LINE; lia].
    destruct (new_record (Some line)) as [is_new l]. destruct is_new.
    { do 3 eexists. split; [done|]. split_and!; lia. }
    assert (∀ acc', ∃ av_list eof pos', read_anon_loop fuel f p acc' = Ret (av_list, eof, pos') ∧
      (pos ≤ pos')%nat ∧ (pos' ≤ length f ∨ pos' = pos)%nat ∧
      (eof = false ∨ length acc < length av_list → pos < pos')%nat) as Hrec.
    { intros acc'. destruct (IH p acc') as (a & e & p' & -> & ? & ? & ?); [lia|].
      do 3 eexists. split; [done|]. split_and!; lia. }
    destruct (first_char_is _ _); [apply Hrec|].
    destruct (get_anon_av_pair _) as [[av|] []]; apply Hrec.
  - do 3 eexists. split; [done|]. split_and!; [lia|by right|]. intros [|]; [done|lia].
Qed.

Lemma read_record_total check c aa no flag f pos :
  ∃ rec status pos', mkdb_read_record check c aa no flag f pos = Ret (rec, status, pos') ∧
    ((status = REC_OK ∧ is_Some rec ∧ (pos < pos' ≤ length f)%nat) ∨
     (status = REC_EOF ∧ rec = None) ∨
     (status ≠ REC_OK ∧ status ≠ REC_EOF ∧ rec = None ∧ (pos < pos' ≤ length f)%nat)).
Proof.
  unfold mkdb_read_record, mkdb_read_anon_record.
  destruct (read_anon_loop_total f (S (length f)) pos []) as (l & eof & p & -> & H1 & H2 & H3); [lia|].
  cbn [mbind outcome_bind]. destruct l as [|a l].
  - destruct eof; do 3 eexists; (split; [done|]).
    + right. by left.
    + right. right. split_and!; try done; [apply H3; by left|].
      destruct H2; [done|]. specialize (H3 (or_introl eq_refl)). lia.
  - assert (pos < p)%nat as Hp by (apply H3; right; simpl; lia).
    cbn [mbind outcome_bind]. destruct (flag =? 0); [|destruct (check _ _) as [[] r]];
      do 3 eexists; (split; [done|]).
    1, 2: left; split_and!; try done; lia.
    right. right. split_and!; try done; lia.
Qed.

(** C39: Reading the next record always ends, on every file contents, from
    every position and whatever the validation rejects: it either returns a
    record and has moved forward in the file, or reports the end of the file.
    So the loop that indexes a data file ends too. *)
Theorem mkdb_read_next_record_total check c aa no flag f pos :
  ∃ rec status pos', mkdb_read_next_record check c aa no flag f pos = Ret (rec, status, pos') ∧
    ((status = REC_OK ∧ is_Some rec ∧ (pos < pos' ≤ length f)%nat) ∨
     (status = REC_EOF ∧ rec = None)).
Proof.
  unfold mkdb_read_next_record. assert (length f - pos < S (length f))%nat as Hf by lia.
  revert pos Hf. generalize (S (length f)). intros fuel.
  induction fuel as [|fuel IH]; intros pos Hf; [lia|]. cbn [read_next_loop].
  destruct (read_record_total check c aa no flag f pos)
    as (rec & status & p & -> & [(-> & ? & ?)|[(-> & ->)|(? & ? & -> & ?)]]);
    cbn [mbind outcome_bind].
  - rewrite decide_False by (intros [? ?]; done). do 3 eexists. split; [done|]. by left.
  - rewrite decide_False by (intros [? ?]; done). do 3 eexists. split; [done|]. by right.
  - rewrite decide_True by done. destruct (IH p) as (r & s & p' & -> & H'); [lia|].
    do 3 eexists. split; [done|]. destruct H' as [(? & ? & ?)|]; [left; split_and!; (done || lia)|by right].
Qed.

(** ** The records that the reader returns *)


Section Typed.
Context {prog : Type} (regcomp : cstr → option prog) (regexec : prog → cstr → bool).
Context (c : class_struct) (aa : auth_area_struct).
Abbreviation check := (check_record regcomp regexec).

(** a pair of an attribute of the class, with a value *)
Definition typed_pair (av : av_pair_struct) : Prop :=
  av_attr av ∈ attribute_list c ∧ is_Some (av_value av).

(** a record of the class and the area that a reader with these flags returns *)
Definition typed_record (flag : Z) (rec : record_struct) : Prop :=
  rec_class rec = c ∧ rec_auth_area rec = aa ∧ Forall typed_pair (av_pair_list rec) ∧
  (flag ≠ 0 → well_typed regcomp regexec rec).

Lemma append_typed rec name v :
  Forall typed_pair (av_pair_list rec) →
  let rec' := (append_attribute_to_record rec c name v).2 in
  Forall typed_pair (av_pair_list rec') ∧ rec_class rec' = rec_class rec ∧
  rec_auth_area rec' = rec_auth_area rec.
Proof.
  intros H. unfold append_attribute_to_record. destruct (find_attribute_by_name c name) eqn:E; [|done].
  apply find_first_Some in E as [Hin _]. cbn. split; [|done]. apply Forall_app. split; [done|].
  repeat constructor; [done|by eexists].
Qed.

Lemma translate_typed anon flag :
  let rec := mkdb_translate_anon_record anon c aa flag in
  rec_class rec = c ∧ rec_auth_area rec = aa ∧ Forall typed_pair (av_pair_list rec).
Proof.
  unfold mkdb_translate_anon_record.
  set (rec0 := Record_ c aa _ 0 _ []). set (rec1 := match find_anon_auth_area_in_rec anon with Some _ => rec0 | None => _ end).
  assert (Forall typed_pair (av_pair_list rec1) ∧ rec_class rec1 = c ∧ rec_auth_area rec1 = aa) as (H1 & C1 & A1).
  { subst rec1. destruct (find_anon_auth_area_in_rec _); [by split|].
    by destruct (append_typed rec0 ($"Auth-Area") (aa_name aa) ltac:(constructor)) as (? & -> & ->). }
  set (rec2 := match find_anon_class_in_rec anon with Some _ => rec1 | None => _ end).
  assert (Forall typed_pair (av_pair_list rec2) ∧ rec_class rec2 = c ∧ rec_auth_area rec2 = aa) as (H2 & C2 & A2).
  { subst rec2. destruct (find_anon_class_in_rec _); [by split|].
    destruct (append_typed rec1 ($"Class-Name") (class_name c) H1) as (? & -> & ->). done. }
  cbn. split_and!; [done..|]. apply Forall_app. split; [done|]. apply Forall_forall.
  intros av Hav. apply list_elem_of_omap in Hav as (x & _ & Hx). unfold translate_anon_av_pair in Hx.
  cbn in Hx. destruct (find_attribute_by_name c (anon_attr_name x)) eqn:E; [|by destruct (negb _)].
  destruct (NOT_STR_EXISTS _); [done|]. injection Hx as <-. split; [|by eexists].
  by apply find_first_Some in E as [? _].
Qed.

Lemma check_typed rec flag rec' :
  check rec flag = (true, rec') → Forall typed_pair (av_pair_list rec) →
  rec_class rec' = rec_class rec ∧ rec_auth_area rec' = rec_auth_area rec ∧
  Forall typed_pair (av_pair_list rec') ∧ well_typed regcomp regexec rec'.
Proof.
  unfold check_record. intros E H. pose proof (check_record_spec regcomp regexec rec flag) as Hc.
  destruct (check_record_out _ _ _ _) as [[valid out] r]. injection E as -> <-.
  destruct Hc as (_ & (_ & -> & Hw) & _); [done|]. split_and!; [done..| |done]. cbn. rewrite Forall_fmap.
  eapply Forall_impl; [exact H|]. intros av [Hin [v Hv]]. unfold typed_pair. cbn.
  rewrite upcase_pair_attr. split; [done|]. unfold upcase_pair. rewrite Hv. destruct (pair_regexp _ av); by eexists.
Qed.

Lemma read_record_typed no flag f pos rec status pos' :
  mkdb_read_record check c aa no flag f pos = Ret (Some rec, status, pos') → typed_record flag rec.
Proof.
  unfold mkdb_read_record. intros H. apply bind_inv_Ret in H as ([[[anon|] st] p] & _ & H); [|done].
  destruct (translate_typed anon flag) as (Hc & Ha & Hp).
  destruct (Z.eqb_spec flag 0) as [->|Hf]; [injection H as <- _ _; by split_and!|].
  destruct (check _ flag) as [[] rec'] eqn:E; [|done]. injection H as <- _ _.
  destruct (check_typed _ _ _ E Hp) as (Hc' & Ha' & Hp' & Hw). split_and!; [congruence..|done|done].
Qed.

(** C32: every record that mkdb_read_next_record returns, from whatever bytes
    the data file holds, is one of the class and the area it was asked for:
    each of its pairs has a value and an attribute of the class.  When a
    validation flag is set it is also as the class wants it, with the required
    attributes, without forbidden repetitions, its values in their formats. *)
Theorem read_records_typed no flag f pos rec status pos' :
  mkdb_read_next_record check c aa no flag f pos = Ret (Some rec, status, pos') → typed_record flag rec.
Proof.
  unfold mkdb_read_next_record. generalize (S (length f)). intros fuel. revert pos.
  induction fuel as [|fuel IH]; intros pos; cbn [read_next_loop]; [done|]. intros H.
  apply bind_inv_Ret in H as ([[r st] p] & Hr & H). destruct (decide _).
  - by eapply IH.
  - injection H as -> _ _. by eapply read_record_typed.
Qed.
End Typed.

(** a class whose host names are required and begin with a W *)
Definition strict_attr : attribute_struct :=
  Attribute 2 2 true false false false false false [] ($"Host-Name") (Some $"re: ^W") INDEX_EXACTLY TYPE_TEXT None.
Definition strict_class : class_struct :=
  Class_ 1 ($"host") [] ($"db") None [demo_attr 0 ($"Class-Name"); demo_attr 1 ($"Auth-Area"); strict_attr] None None None.
Definition begins_with (p v : cstr) : bool := bool_decide (head v = last p).

Lemma read_records_typed_witness :
  typed_record Some begins_with strict_class demo_area 1
    (Record_ strict_class demo_area 4 0 0
       [AvPair (demo_attr 1 ($"Auth-Area")) (Some $"a.com");
        AvPair (demo_attr 0 ($"Class-Name")) (Some $"host");
        AvPair strict_attr (Some $"WWW: THE HOST")]).
Proof.
  eapply (read_records_typed Some begins_with strict_class demo_area 4 1
            (record_text demo_pairs ++ $"---" ++ [NL]) 0).
  vm_compute. reflexivity.
Defined.

(** ** Empty values and deleted attributes *)

(** Mkdb_write_record does not skip a pair without a value: it writes the
    line of the pair before it once more, so that reading the file back finds
    that attribute twice. *)
Theorem write_record_empty_value c rec avs av av' avs' :
  av_pair_list rec = avs ++ av :: av' :: avs' →
  Forall (plain_pair c) (avs ++ [av]) → Forall (plain_pair c) avs' →
  NOT_STR_EXISTS (av_value av') = true →
  mkdb_write_record rec = Ret (record_text (avs ++ av :: av :: avs')).
Proof.
  intros E H H' Hv. unfold mkdb_write_record. rewrite E. clear E. generalize (@nil ascii) as line.
  apply Forall_app in H as [Hs Hav]. induction Hs as [|x avs Hx _ IH]; intros line.
  - assert (encode_av_pair av' (av_line av) = Ret (av_line av)) as E.
    { unfold encode_av_pair. destruct (av_value av') as [[|]|]; done. }
    pose proof (write_loop_plain c [av] line Hav) as Hw. cbn [write_loop app] in *.
    destruct (encode_av_pair av line) as [l| |] eqn:El; [|done|done]. cbn [mbind outcome_bind] in *.
    injection Hw as Hl. unfold record_text in Hl. cbn in Hl.
    assert (l = av_line av) as ->.
    { rewrite app_nil_r in Hl. by apply app_inj_tail in Hl as [? _]. }
    rewrite E. cbn [mbind outcome_bind]. rewrite (write_loop_plain c) by done.
    cbn [mbind outcome_bind]. unfold record_text. by rewrite !fmap_cons, !text_cons.
  - cbn [app write_loop]. pose proof (write_loop_plain c [x] line) as Hw. cbn [write_loop] in Hw.
    destruct (encode_av_pair x line) as [l| |]; [|by specialize (Hw ltac:(by constructor))..].
    cbn [mbind outcome_bind] in *. rewrite IH. cbn [mbind outcome_bind].
    specialize (Hw ltac:(by constructor)). injection Hw as Hl. unfold record_text in *. cbn in Hl.
    assert (l = av_line x) as ->.
    { rewrite app_nil_r in Hl. by apply app_inj_tail in Hl as [? _]. }
    by rewrite fmap_cons, text_cons.
Qed.

Lemma write_record_empty_value_witness :
  let a := AvPair (demo_attr 1 ($"Auth-Area")) (Some $"a.com") in
  let b := AvPair (demo_attr 2 ($"Host-Name")) None in
  mkdb_write_record (Record_ demo_class demo_area 0 0 0 [a; b])
  = Ret ($"Auth-Area:a.com" ++ NL :: $"Auth-Area:a.com" ++ [NL]).
Proof.
  intros a b. apply (write_record_empty_value demo_class _ [] a b []); try reflexivity.
  - pose proof demo_plain as H. apply Forall_cons in H as [H _]. by constructor.
  - constructor.
Defined.

Definition keeps_attr (name : cstr) (av : av_pair_struct) : Prop :=
  STR_EQ (attr_name (av_attr av)) name = false.
#[export] Instance keeps_attr_dec name av : Decision (keeps_attr name av).
Proof. unfold keeps_attr. apply _. Defined.

Lemma delete_attribute_loop_spec name fuel : ∀ l av r status,
  Forall (keeps_attr name) l → (length r + 2 ≤ fuel)%nat →
  let kept := l ++ filter (keeps_attr name) (av :: r) in
  (kept = [] ∧ delete_attribute_loop fuel (Some (l, av, r)) name status = Fault) ∨
  (kept ≠ [] ∧ ∃ z, DL.elems z = kept ∧
     delete_attribute_loop fuel (Some (l, av, r)) name status =
     Ret (status || bool_decide (¬ Forall (keeps_attr name) (av :: r)), z)).
Proof.
  induction fuel as [|fuel IH]; intros l av r status Hl Hf kept; [lia|]. subst kept.
  cbn [delete_attribute_loop]. destruct (STR_EQ (attr_name (av_attr av)) name) eqn:E.
  - rewrite filter_cons_False by (unfold keeps_attr; by rewrite E).
    rewrite (bool_decide_eq_true_2 (¬ Forall _ (av :: r)))
      by (intros [H _]%Forall_cons; unfold keeps_attr in H; congruence).
    rewrite orb_true_r. destruct r as [|x r].
    + rewrite filter_nil, app_nil_r. cbn [DL.z_delete].
      destruct l as [|x l _] using rev_ind; [destruct fuel; [simpl in Hf; lia|by left]|].
      right. split; [by destruct l|]. rewrite reverse_snoc, reverse_involutive.
      apply Forall_app in Hl as [_ [Hx _]%Forall_cons]. unfold keeps_attr in Hx.
      exists (Some (l, x, [])). split; [done|]. destruct fuel; [simpl in Hf; lia|].
      cbn [delete_attribute_loop]. by rewrite Hx.
    + cbn [DL.z_delete]. destruct (IH l x r true Hl) as [[? ?]|(? & z & ? & ->)]; [simpl in Hf; lia| |].
      * by left.
      * right. split; [done|]. by exists z.
  - assert (keeps_attr name av) as Hk by done. rewrite filter_cons_True by done.
    right. split; [by destruct l|]. destruct r as [|x r].
    + exists (Some (l, av, [])). split; [done|]. rewrite bool_decide_eq_false_2, orb_false_r; [done|].
      intros H. apply H. by repeat constructor.
    + cbn [DL.z_next]. destruct (IH (l ++ [av]) x r status) as [[H ?]|(? & z & Hz & ->)].
      * apply Forall_app. split; [done|]. by constructor.
      * simpl in Hf. lia.
      * by destruct l.
      * exists z. split; [by rewrite Hz, <-app_assoc|]. f_equal. f_equal. f_equal.
        apply bool_decide_ext. rewrite (Forall_cons _ av). tauto.
Qed.

(** Delete_attribute_from_record removes exactly the pairs whose attribute
    has the name, whatever its case, keeps the order of the others and tells
    whether there was one.  But when every pair of the record has that name it
    follows the null value of the emptied list. *)
Theorem delete_attribute_correct rec name :
  av_pair_list rec ≠ [] →
  let kept := filter (keeps_attr name) (av_pair_list rec) in
  (kept ≠ [] → delete_attribute_from_record rec name =
     Ret (bool_decide (¬ Forall (keeps_attr name) (av_pair_list rec)), with_av_pairs kept rec)) ∧
  (kept = [] → delete_attribute_from_record rec name = Fault).
Proof.
  intros Hne kept. subst kept. unfold delete_attribute_from_record.
  destruct (av_pair_list rec) as [|av r]; [done|].
  destruct (delete_attribute_loop_spec name (3 * length (av :: r)) [] av r false)
    as [[H ->]|(H & z & Hz & ->)]; [constructor|simpl; lia| |]; cbn [app] in *.
  - by split.
  - split; [|done]. intros _. cbn [mbind outcome_bind orb]. by rewrite Hz.
Qed.

Lemma delete_attribute_correct_witness :
  let rec := Record_ demo_class demo_area 0 0 0 demo_pairs in
  let kept := filter (keeps_attr ($"host-name")) demo_pairs in
  (kept ≠ [] → delete_attribute_from_record rec ($"host-name") =
     Ret (bool_decide (¬ Forall (keeps_attr ($"host-name")) demo_pairs), with_av_pairs kept rec)) ∧
  (kept = [] → delete_attribute_from_record rec ($"host-name") = Fault).
Proof. intros rec. apply (delete_attribute_correct rec). discriminate. Defined.
