(* ===== verification/SearchPrim.v ===== *)
(** * Scanning an index file (mkdb/search_prim.c)

    full_scan reads index lines from a position on, checks each against the
    query and adds the records of the matches to the hit list.  The hit count,
    a static variable of the C file, is passed along. *)

From S2P Require Import Prelude CLib CString Misc IpNetwork Types Stdio IndexLine BinSearch Records.
Local Open Scope Z_scope.

(** ** Checks *)

Definition check_hit_list_for_hit (c : class_struct) (aa : auth_area_struct)
    (record_list : list record_struct) (index_item : index_struct) : bool :=
  existsb (λ r, STR_EQ (aa_name (rec_auth_area r)) (aa_name aa)
                && STR_EQ (class_name (rec_class r)) (class_name c)
                && (rec_data_file_no r =? data_file_no index_item)
                && (rec_offset r =? offset index_item)) record_list.

Definition validate_search_cond (c : class_struct) (query_item : query_term)
    (index_item : index_struct) : bool :=
  match find_attribute_by_global_id c (attribute_id index_item) with
  | Some attr => negb (bool_decide (attr_kind attr = TYPE_ID)
                       && negb (qt_attribute_id query_item =? attr_global_id attr))
  | None => true
  end.

(** The values that are compared are turned to upper case in the record. *)
Fixpoint validate_pairs (q : query_term) (pairs : list av_pair_struct) :
    outcome (bool * list av_pair_struct) :=
  match pairs with
  | [] => Ret (false, [])
  | av :: pairs =>
      if (qt_attribute_id q =? -2) || (qt_attribute_id q =? attr_global_id (av_attr av)) then
        match av_value av with
        | Some v =>
            let av := AvPair (av_attr av) (Some (strupr_s v)) in
            y ← search_compare q (Some (strupr_s v));
            if y =? 0 then Ret (true, av :: pairs)
            else '(valid, pairs) ← validate_pairs q pairs; Ret (valid, av :: pairs)
        | None => '(valid, pairs) ← validate_pairs q pairs; Ret (valid, av :: pairs)
        end
      else '(valid, pairs) ← validate_pairs q pairs; Ret (valid, av :: pairs)
  end.

Fixpoint validate_and_list (rec : record_struct) (query_list : query_term) :
    outcome (bool * record_struct) :=
  '(valid, pairs) ← validate_pairs query_list (av_pair_list rec);
  let rec := with_av_pairs pairs rec in
  if negb valid then Ret (false, rec)
  else
    match and_list query_list with
    | None => Ret (true, rec)
    | Some q => validate_and_list rec q
    end.

Section Scan.
Context (fs : filesystem) (check_record : record_check).
Context (c : class_struct) (aa : auth_area_struct) (data_fi_list : list file_struct).

(** The status is [None] when the function returns without setting it. *)
Definition fill_out_record (index_item : index_struct) :
    outcome (option record_struct * option rec_parse_result) :=
  match find_file_by_id data_fi_list (data_file_no index_item) MKDB_DATA_FILE with
  | None => Ret (None, None)
  | Some fi =>
      match open_fp fs fi with
      | None => Ret (None, None)
      | Some fi =>
          if offset index_item <? 0 then Ret (None, None)
          else
            '(result, status, _) ←
              mkdb_read_record check_record c aa (data_file_no index_item) 0
                               (contents fs fi) (Z.to_nat (offset index_item));
            Ret (result, Some status)
      end
  end.

(** ** full_scan *)

Definition with_index_file (no : Z) (rec : record_struct) : record_struct :=
  Record_ (rec_class rec) (rec_auth_area rec) (rec_data_file_no rec) no (rec_offset rec)
          (av_pair_list rec).

(** the variables of the loop: the last status of fill_out_record, the hit
    list and the hit count *)
Record scan_state := ScanState {
  scan_status : option rec_parse_result; record_list : list record_struct; hit_count : Z }.

Inductive verdict :=
| Next (s : scan_state)
| Done (r : ret_code_type) (s : scan_state).

Context (query_item : query_term) (max_hits : Z) (index_file_no : Z).

(** adding a hit, unless the limit is reached *)
Definition add_hit (hi : record_struct) (s : scan_state) : verdict :=
  let hi := with_index_file index_file_no hi in
  if (max_hits =? 0) || (hit_count s <? max_hits)
  then Next (ScanState (scan_status s) (record_list s ++ [hi]) (hit_count s + 1))
  else Done HIT_LIMIT_EXCEEDED s.

(** a line whose value matches *)
Definition scan_match (index_item : index_struct) (s : scan_state) : outcome verdict :=
  if negb (validate_search_cond c query_item index_item) then Ret (Next s)
  else if check_hit_list_for_hit c aa (record_list s) index_item then Ret (Next s)
  else
    '(hi, status) ← fill_out_record index_item;
    let s := ScanState (match status with None => scan_status s | _ => status end)
                       (record_list s) (hit_count s) in
    match hi with
    | None =>
        match scan_status s with
        | None => Fault
        | Some REC_NULL | Some REC_EOF => Ret (Next s)
        | _ => Ret (Done UNKNOWN_SEARCH_ERROR s)
        end
    | Some hi =>
        '(valid, hi) ← match and_list query_item with
                       | None => Ret (true, hi)
                       | Some q => validate_and_list hi q
                       end;
        if valid : bool then Ret (add_hit hi s) else Ret (Next s)
    end.

(** the lines that are passed over without a comparison *)
Definition skipped (index_item : index_struct) : bool :=
  negb (deleted_flag index_item =? 0)
  || (negb (qt_attribute_id query_item =? 0) && negb (qt_attribute_id query_item =? -2)
      && negb (qt_attribute_id query_item =? attribute_id index_item)).

Definition scan_item (find_all_flag : bool) (index_item : index_struct) (s : scan_state) :
    outcome verdict :=
  if skipped index_item then Ret (Next s)
  else
    y ← search_compare query_item (value index_item);
    if y =? 0 then scan_match index_item s
    else if find_all_flag then Ret (Next s)
    else Ret (Done SEARCH_SUCCESSFUL s).

Fixpoint scan_loop (fuel : nat) (f : cstr) (pos : nat) (find_all_flag : bool)
    (index_item : index_struct) (s : scan_state) : outcome (ret_code_type * scan_state) :=
  match fuel with
  | O => NoFuel
  | S fuel =>
      match readline f pos MAX_LINE with
      | None => Ret (SEARCH_SUCCESSFUL, s)
      | Some (line, pos) =>
          let index_item := IndexItem (offset index_item) (data_file_no index_item)
                                      (deleted_flag index_item) (attribute_id index_item) None in
          '(_, index_item) ← decode_index_line line index_item;
          v ← scan_item find_all_flag index_item s;
          match v with
          | Next s => scan_loop fuel f pos find_all_flag index_item s
          | Done r s => Ret (r, s)
          end
      end
  end.

(** every line takes at least one byte *)
Definition scan_file (f : cstr) (start_pos : Z) (find_all_flag : bool)
    (record_list : list record_struct) (hit_count : Z) : outcome (ret_code_type * scan_state) :=
  scan_loop (S (length f)) f (Z.to_nat start_pos) find_all_flag no_item
            (ScanState None record_list hit_count).
End Scan.

(** The file is closed again at each return.  [hits] is the hit list and the
    hit count. *)
Definition full_scan (fs : filesystem) (check_record : record_check)
    (c : class_struct) (aa : auth_area_struct) (file : file_struct)
    (data_fi_list : list file_struct) (query_item : query_term)
    (hits : list record_struct * Z) (max_hits start_pos : Z) (find_all_flag : bool) :
    outcome (ret_code_type * (list record_struct * Z)) :=
  match open_fp fs file with
  | None => Ret (UNKNOWN_SEARCH_ERROR, hits)
  | Some file =>
      '(r, s) ← scan_file fs check_record c aa data_fi_list query_item max_hits (file_no file)
                          (contents fs file) start_pos find_all_flag hits.1 hits.2;
      Ret (r, (record_list s, hit_count s))
  end.

(** ** The scan on items *)

Section Items.
Context (fs : filesystem) (check_record : record_check).
Context (c : class_struct) (aa : auth_area_struct) (data_fi_list : list file_struct).
Context (q : query_term) (max_hits index_file_no : Z).

Abbreviation scan_item := (scan_item fs check_record c aa data_fi_list q max_hits index_file_no).
Abbreviation scan_loop := (scan_loop fs check_record c aa data_fi_list q max_hits index_file_no).

Fixpoint scan_items (find_all_flag : bool) (its : list index_struct) (s : scan_state) :
    outcome (ret_code_type * scan_state) :=
  match its with
  | [] => Ret (SEARCH_SUCCESSFUL, s)
  | it :: its =>
      v ← scan_item find_all_flag it s;
      match v with
      | Next s => scan_items find_all_flag its s
      | Done r s => Ret (r, s)
      end
  end.

Lemma start_length ls i : (i ≤ length ls)%nat → (i ≤ start ls i)%nat.
Proof.
  induction i as [|i IH]; intros Hi; [lia|]. destruct (lookup_lt_is_Some_2 ls i) as [l Hl]; [lia|].
  rewrite (start_S _ _ _ Hl). lia.
Qed.

(** scanning the text from line [k] on is scanning the items from there on *)
Lemma scan_loop_items ls its find_all fuel : ∀ k it0 s,
  index_file ls its → (k ≤ length ls)%nat → (length ls - k < fuel)%nat →
  scan_loop fuel (text ls) (start ls k) find_all it0 s = scan_items find_all (drop k its) s.
Proof.
  induction fuel as [|fuel IH]; intros k it0 s Hif Hk Hf; [lia|]. cbn [SearchPrim.scan_loop].
  pose proof Hif as [H1 H2 H3]. pose proof (Forall2_length _ _ _ H3) as Hlen.
  destruct (decide (k = length ls)) as [->|Hne].
  { rewrite readline_end, drop_ge by lia. done. }
  destruct (lookup_lt_is_Some_2 ls k) as [l Hl]; [lia|].
  pose proof (Forall_lookup_1 _ _ _ _ H1 Hl) as Hline.
  pose proof (Forall_lookup_1 _ _ _ _ H2 Hl) as Hll. cbn beta in Hll.
  rewrite (readline_line _ _ _ _ Hl Hline) by (unfold MAX_LINE; lia).
  destruct (Forall2_lookup_l _ _ _ _ _ H3 Hl) as (it & Hit & Hdec).
  rewrite Hdec. cbn [mbind outcome_bind]. rewrite (drop_S _ _ _ Hit). cbn [scan_items].
  destruct (scan_item find_all it s) as [[s'|r s']| |]; try done. cbn [mbind outcome_bind].
  apply IH; [done|lia|lia].
Qed.

Lemma scan_item_miss it s : ∀ y, search_compare q (value it) = Ret y → y ≠ 0 →
  scan_item true it s = Ret (Next s).
Proof.
  intros y Hy Hne. unfold SearchPrim.scan_item. destruct (skipped q it); [done|].
  rewrite Hy. cbn [mbind outcome_bind]. by rewrite (proj2 (Z.eqb_neq y 0)).
Qed.

Definition compares (it : index_struct) : Prop := ∃ y, search_compare q (value it) = Ret y.

Lemma scan_items_misses its s :
  Forall compares its → Forall (λ it, ¬ hit q it) its →
  scan_items true its s = Ret (SEARCH_SUCCESSFUL, s).
Proof.
  intros H. induction H as [|it its [y Hy] _ IH]; intros Hm; [done|].
  apply Forall_cons in Hm as [Hh Hm]. cbn [scan_items].
  rewrite (scan_item_miss _ _ y); [|done|intros ->; by apply Hh]. by apply IH.
Qed.

Lemma scan_items_app_misses its its' s :
  Forall compares its → Forall (λ it, ¬ hit q it) its →
  scan_items true (its ++ its') s = scan_items true its' s.
Proof.
  intros H. induction H as [|it its [y Hy] _ IH]; intros Hm; [done|].
  apply Forall_cons in Hm as [Hh Hm]. cbn [app scan_items].
  rewrite (scan_item_miss _ _ y); [|done|intros ->; by apply Hh]. by apply IH.
Qed.

(** Once the hits come first and the misses last, stopping at the first miss
    changes nothing. *)
Lemma scan_items_stop its its' s :
  Forall (hit q) its → Forall compares its' → Forall (λ it, ¬ hit q it) its' →
  scan_items false (its ++ its') s = scan_items true (its ++ its') s.
Proof.
  intros Hh Hc Hm. revert s. induction Hh as [|it its Hit _ IH]; intros s.
  - cbn [app]. rewrite scan_items_misses by done. induction Hc as [|it its' [y Hy] _ IH]; [done|].
    apply Forall_cons in Hm as [Hx Hm]. cbn [scan_items]. unfold SearchPrim.scan_item at 1.
    destruct (skipped q it); [by apply IH|]. rewrite Hy. cbn [mbind outcome_bind].
    rewrite (proj2 (Z.eqb_neq y 0)); [done|]. intros ->. by apply Hx.
  - cbn [app scan_items]. assert (scan_item false it s = scan_item true it s) as ->.
    { unfold SearchPrim.scan_item. destruct (skipped q it); [done|]. unfold hit in Hit. by rewrite Hit. }
    destruct (scan_item true it s) as [[s'|r s']| |]; try done. apply IH.
Qed.
End Items.

(** ** What a scan finds *)

Section Finds.
Context (fs : filesystem) (check_record : record_check).
Context (c : class_struct) (aa : auth_area_struct) (data_fi_list : list file_struct).
Context (q : query_term) (max_hits index_file_no : Z).

Abbreviation fill := (fill_out_record fs check_record c aa data_fi_list).
Abbreviation scan := (scan_items fs check_record c aa data_fi_list q max_hits index_file_no true).

(** The record [rec] is an answer to the query because of the item [it]. *)
Definition selected (it : index_struct) (rec : record_struct) : Prop :=
  hit q it ∧ skipped q it = false ∧ validate_search_cond c q it = true ∧
  ∃ rec0, fill it = Ret (Some rec0, Some REC_OK) ∧
    match and_list q with
    | None => rec = rec0
    | Some a => validate_and_list rec0 a = Ret (true, rec)
    end.

(** the item points into a data file that exists *)
Definition resolvable (it : index_struct) : Prop :=
  0 ≤ offset it ∧ compares q it ∧
  ∃ fi, find_file_by_id data_fi_list (data_file_no it) MKDB_DATA_FILE = Some fi ∧
        fp fi = None ∧ is_Some (fs (filename fi)).

(** the place of the records of the class and area in their data files *)
Definition same_kind (r : record_struct) : Prop :=
  STR_EQ (aa_name (rec_auth_area r)) (aa_name aa) = true ∧
  STR_EQ (class_name (rec_class r)) (class_name c) = true.
#[export] Instance same_kind_dec r : Decision (same_kind r).
Proof. unfold same_kind. apply _. Defined.
Definition keys (l : list record_struct) : list (Z * Z) :=
  (λ r, (rec_data_file_no r, rec_offset r)) <$> filter same_kind l.

Lemma check_hit_list_keys l it :
  check_hit_list_for_hit c aa l it = true ↔ (data_file_no it, offset it) ∈ keys l.
Proof.
  unfold check_hit_list_for_hit, keys. rewrite existsb_exists, list_elem_of_fmap. split.
  - intros (r & Hr%list_elem_of_In & H). rewrite !andb_true_iff, !Z.eqb_eq in H.
    destruct H as [[[H1 H2] H3] H4]. exists r. split; [by rewrite H3, H4|].
    by apply list_elem_of_filter.
  - intros (r & [= H3 H4] & [[H1 H2] Hr]%list_elem_of_filter). exists r.
    split; [by apply list_elem_of_In|]. by rewrite H1, H2, H3, H4, !Z.eqb_refl.
Qed.

(** validating the and list keeps what identifies a record, and ends *)
Lemma search_compare_total p v : ∃ y, search_compare p (Some v) = Ret y.
Proof. unfold search_compare. destruct (comp_type p); try (by eexists). destruct (strSTR _ _); by eexists. Qed.

Lemma validate_pairs_total p l : ∃ b l', validate_pairs p l = Ret (b, l').
Proof.
  induction l as [|av l (b & l' & IH)]; simpl; [by do 2 eexists|]. rewrite IH.
  destruct (_ || _); [|by do 2 eexists]. destruct (av_value av) as [v|]; [|by do 2 eexists].
  destruct (search_compare_total p (strupr_s v)) as [y ->]. cbn [mbind outcome_bind].
  destruct (y =? 0); by do 2 eexists.
Qed.

Definition same_place (r r' : record_struct) : Prop :=
  rec_class r' = rec_class r ∧ rec_auth_area r' = rec_auth_area r ∧
  rec_data_file_no r' = rec_data_file_no r ∧ rec_offset r' = rec_offset r.

Fixpoint and_terms (p : query_term) : nat :=
  S (match and_list p with None => 0 | Some p => and_terms p end).

Lemma validate_and_list_total n : ∀ p r, (and_terms p ≤ n)%nat →
  ∃ b r', validate_and_list r p = Ret (b, r') ∧ same_place r r'.
Proof.
  assert (∀ p r, validate_and_list r p =
    ('(valid, pairs) ← validate_pairs p (av_pair_list r);
     if negb valid then Ret (false, with_av_pairs pairs r)
     else match and_list p with None => Ret (true, with_av_pairs pairs r)
          | Some p => validate_and_list (with_av_pairs pairs r) p end)) as E by (by intros [] ?).
  induction n as [|n IH]; intros p r Hn; [destruct p; simpl in Hn; lia|].
  rewrite E. destruct (validate_pairs_total p (av_pair_list r)) as (b & l & ->).
  cbn [mbind outcome_bind]. destruct b; cbn [negb]; [|by do 2 eexists].
  destruct p as [an ai st ct sv [p|] ol]; cbn [and_list]; [|by do 2 eexists].
  destruct (IH p (with_av_pairs l r)) as (b & r' & -> & H); [simpl in Hn; lia|]. by exists b, r'.
Qed.

(** what filling out an item can give *)
Lemma fill_resolvable it :
  resolvable it →
  (∃ rec, fill it = Ret (Some rec, Some REC_OK) ∧ rec_class rec = c ∧ rec_auth_area rec = aa ∧
     rec_data_file_no rec = data_file_no it ∧ rec_offset rec = offset it) ∨
  (∃ st, fill it = Ret (None, Some st) ∧ (st = REC_NULL ∨ st = REC_EOF)).
Proof.
  intros (Hoff & _ & fi & Hfi & Hfp & [data Hdata]). unfold fill_out_record. rewrite Hfi.
  unfold open_fp. rewrite Hfp, Hdata. rewrite (proj2 (Z.ltb_ge _ _)) by done.
  set (f := contents fs (with_fp (Some 0) fi)). unfold mkdb_read_record, mkdb_read_anon_record.
  destruct (read_anon_loop_total f (S (length f)) (Z.to_nat (offset it)) [])
    as (l & eof & p & -> & _); [lia|].
  cbn [mbind outcome_bind]. destruct l as [|a l].
  - right. eexists. split; [done|]. destruct eof; auto.
  - left. eexists. split; [done|]. unfold mkdb_translate_anon_record, append_attribute_to_record.
    cbn [anon_offset anon_data_file_no]. rewrite Z2Nat.id by done.
    repeat (case_match; simpl); done.
Qed.

Lemma keys_snoc l r :
  same_kind r → keys (l ++ [r]) = keys l ++ [(rec_data_file_no r, rec_offset r)].
Proof.
  intros H. unfold keys. rewrite filter_app, fmap_app. rewrite filter_cons_True by done. done.
Qed.

(** the effect of one item *)
Inductive item_effect (it : index_struct) (s : scan_state) : verdict → Prop :=
| effect_none st :
    (∀ rec, selected it rec → check_hit_list_for_hit c aa (record_list s) it = true) →
    item_effect it s (Next (ScanState st (record_list s) (hit_count s)))
| effect_add st rec :
    selected it rec → same_kind rec →
    rec_data_file_no rec = data_file_no it → rec_offset rec = offset it →
    check_hit_list_for_hit c aa (record_list s) it = false →
    max_hits = 0 ∨ hit_count s < max_hits →
    item_effect it s
      (Next (ScanState st (record_list s ++ [with_index_file index_file_no rec]) (hit_count s + 1)))
| effect_limit st :
    max_hits ≠ 0 → max_hits ≤ hit_count s →
    item_effect it s (Done HIT_LIMIT_EXCEEDED (ScanState st (record_list s) (hit_count s))).

Lemma effect_next it s :
  (∀ rec, selected it rec → check_hit_list_for_hit c aa (record_list s) it = true) →
  item_effect it s (Next s).
Proof. intros H. destruct s as [st l n]. by apply (effect_none it (ScanState st l n) st). Qed.

Lemma scan_item_effect it s :
  resolvable it →
  ∃ v, scan_item fs check_record c aa data_fi_list q max_hits index_file_no true it s = Ret v ∧
       item_effect it s v.
Proof.
  intros Hr. pose proof Hr as (_ & [y Hy] & _). unfold scan_item.
  destruct (skipped q it) eqn:Hsk.
  { eexists. split; [done|]. apply effect_next. intros rec (_ & H & _). congruence. }
  rewrite Hy. cbn [mbind outcome_bind]. destruct (Z.eqb_spec y 0) as [->|Hy0].
  2:{ eexists. split; [done|]. apply effect_next. intros rec (H & _). unfold hit in H. congruence. }
  unfold scan_match. destruct (validate_search_cond c q it) eqn:Hv; cbn [negb].
  2:{ eexists. split; [done|]. apply effect_next. intros rec (_ & _ & H & _). congruence. }
  destruct (check_hit_list_for_hit c aa (record_list s) it) eqn:Hk.
  { eexists. split; [done|]. by apply effect_next. }
  destruct (fill_resolvable it Hr) as [(rec0 & Hf & Hc & Ha & Hno & Hoff)|(st & Hf & Hst)];
    rewrite Hf; cbn [mbind outcome_bind].
  2:{ cbn [scan_status]. eexists. split; [destruct Hst as [-> | ->]; done|]. cbn.
      apply (effect_none it s). intros rec (_ & _ & _ & r0 & H & _). congruence. }
  assert (∃ b rec, match and_list q with None => Ret (true, rec0) | Some p => validate_and_list rec0 p end
                   = Ret (b, rec) ∧ same_place rec0 rec) as (b & rec & Hb & Hp1 & Hp2 & Hp3 & Hp4).
  { destruct (and_list q) as [p|]; [by eapply validate_and_list_total|by exists true, rec0]. }
  rewrite Hb. cbn [mbind outcome_bind]. destruct b.
  - assert (selected it rec) as Hsel.
    { split; [done|]. split; [done|]. split; [done|]. exists rec0. split; [done|].
      destruct (and_list q); [done|congruence]. }
    assert (same_kind rec) as Hkind.
    { split; [by rewrite Hp2, Ha, STR_EQ_refl|by rewrite Hp1, Hc, STR_EQ_refl]. }
    unfold add_hit. cbn [hit_count scan_status record_list].
    destruct (Z.eqb_spec max_hits 0); [|destruct (Z.ltb_spec (hit_count s) max_hits)]; cbn [orb];
      (eexists; split; [done|]).
    + apply (effect_add it s); try done; (congruence || by left).
    + apply (effect_add it s); try done; (congruence || by right).
    + by apply (effect_limit it s).
  - eexists. split; [done|]. apply (effect_none it s). intros rec' (_ & _ & _ & r0 & H & Ha').
    rewrite Hf in H. injection H as <-. destruct (and_list q); [|congruence]. congruence.
Qed.

(** the summary of a whole scan *)
Record found_all (its : list index_struct) (s : scan_state) (r : ret_code_type) (s' : scan_state)
    : Prop := {
  fa_new : ∃ new, record_list s' = record_list s ++ new ∧
             hit_count s' = hit_count s + Z.of_nat (length new) ∧
             Forall (λ x, ∃ it rec, it ∈ its ∧ selected it rec ∧
                          x = with_index_file index_file_no rec) new;
  fa_nodup : NoDup (keys (record_list s)) → NoDup (keys (record_list s'));
  fa_limit : max_hits = 0 ∨ hit_count s' ≤ Z.max max_hits (hit_count s);
  fa_ret : (r = SEARCH_SUCCESSFUL ∧
            ∀ it rec, it ∈ its → selected it rec →
                      check_hit_list_for_hit c aa (record_list s') it = true) ∨
           (r = HIT_LIMIT_EXCEEDED ∧ max_hits ≠ 0 ∧ max_hits ≤ hit_count s') }.

Lemma check_hit_list_app l new it :
  check_hit_list_for_hit c aa l it = true → check_hit_list_for_hit c aa (l ++ new) it = true.
Proof. unfold check_hit_list_for_hit. rewrite existsb_app. by intros ->. Qed.

Lemma found_all_cons it its s s1 r s' rest :
  s1 = ScanState (scan_status s1) (record_list s ++ rest) (hit_count s + Z.of_nat (length rest)) →
  Forall (λ x, ∃ rec, selected it rec ∧ x = with_index_file index_file_no rec) rest →
  (NoDup (keys (record_list s)) → NoDup (keys (record_list s1))) →
  (max_hits = 0 ∨ hit_count s1 ≤ Z.max max_hits (hit_count s)) →
  (∀ rec, selected it rec → check_hit_list_for_hit c aa (record_list s1) it = true) →
  found_all its s1 r s' → found_all (it :: its) s r s'.
Proof.
  intros E Hrest Hnd Hlim Hsel [(new & Hl & Hn & Hnew) F2 F3 F4].
  pose proof (f_equal record_list E) as El. pose proof (f_equal hit_count E) as En.
  cbn [record_list hit_count] in El, En. split.
  - exists (rest ++ new). rewrite Hl, El, <-app_assoc. split; [done|].
    split; [rewrite Hn, En, length_app; lia|]. apply Forall_app. split.
    + eapply Forall_impl; [done|]. intros x (rec & ? & ?). exists it, rec. split; [left|done].
    + eapply Forall_impl; [done|]. intros x (it' & rec & ? & ? & ?). exists it', rec. split; [by right|done].
  - auto.
  - destruct Hlim, F3; auto; lia.
  - destruct F4 as [[-> F4]|]; [left; split; [done|]|by right].
    intros it' rec [->|Hin]%elem_of_cons Hs; [|by eapply F4].
    rewrite Hl. eapply check_hit_list_app, Hsel, Hs.
Qed.

Lemma scan_items_finds its : ∀ s,
  Forall resolvable its → ∃ r s', scan its s = Ret (r, s') ∧ found_all its s r s'.
Proof.
  induction its as [|it its IH]; intros s Hres.
  - exists SEARCH_SUCCESSFUL, s. split; [done|]. split.
    + exists []. rewrite app_nil_r. split; [done|]. split; [simpl; lia|constructor].
    + done.
    + right. lia.
    + left. split; [done|]. intros it rec []%elem_of_nil.
  - apply Forall_cons in Hres as [Hr Hres]. cbn [scan_items].
    destruct (scan_item_effect it s Hr) as (v & -> & Hv). cbn [mbind outcome_bind].
    destruct Hv as [st H|st rec Hs Hk H1 H2 Hc Hm|st Hm1 Hm2].
    + destruct (IH (ScanState st (record_list s) (hit_count s)) Hres) as (r & s' & -> & F).
      exists r, s'. split; [done|]. eapply (found_all_cons it its s _ r s' []); try exact F.
      * cbn. by rewrite app_nil_r, Z.add_0_r.
      * constructor.
      * done.
      * right. cbn. lia.
      * done.
    + set (s1 := ScanState _ _ _). destruct (IH s1 Hres) as (r & s' & -> & F).
      exists r, s'. split; [done|].
      set (hi := with_index_file index_file_no rec) in *.
      assert (keys (record_list s1) = keys (record_list s) ++ [(data_file_no it, offset it)]) as Ek.
      { cbn [record_list s1]. rewrite keys_snoc by done. cbn. by rewrite H1, H2. }
      eapply (found_all_cons it its s s1 r s' [hi]); try exact F.
      * done.
      * constructor; [by exists rec|constructor].
      * intros Hnd. rewrite Ek. apply NoDup_app. split; [done|]. split; [|apply NoDup_singleton].
        intros x Hx ->%list_elem_of_singleton. apply check_hit_list_keys in Hx. congruence.
      * cbn. destruct Hm; [by left|right; lia].
      * intros _ _. apply check_hit_list_keys. rewrite Ek. apply elem_of_app. right. left.
    + exists HIT_LIMIT_EXCEEDED. eexists. split; [done|]. split.
      * exists []. rewrite app_nil_r. split; [done|]. split; [cbn; lia|constructor].
      * done.
      * right. cbn. lia.
      * right. done.
Qed.
End Finds.

(** an index file that is in the file system and closed *)
Definition on_disk (fs : filesystem) (file : file_struct) (ls : list cstr) : Prop :=
  fs (filename file) = Some (text ls) ∧ fp file = None ∧
  file_size file = Z.of_nat (length (text ls)).

(** full_scan from the start of line [k] is the scan of the items from there *)
Lemma full_scan_items fs check c aa file dfl q hits max_hits find_all ls its k :
  on_disk fs file ls → index_file ls its → (k ≤ length ls)%nat →
  full_scan fs check c aa file dfl q hits max_hits (Z.of_nat (start ls k)) find_all =
  ('(r, s) ← scan_items fs check c aa dfl q max_hits (file_no file) find_all (drop k its)
                        (ScanState None hits.1 hits.2);
   Ret (r, (record_list s, hit_count s))).
Proof.
  intros (Hfs & Hfp & _) Hif Hk. unfold full_scan, open_fp. rewrite Hfp, Hfs.
  unfold contents. cbn [filename with_fp file_no]. rewrite Hfs. simpl default.
  unfold scan_file. rewrite Nat2Z.id. erewrite scan_loop_items; [done|done|done|].
  pose proof (start_length ls (length ls)). rewrite start_all in *. lia.
Qed.

(** the scan of a whole index file *)
Lemma full_scan_finds fs check c aa file dfl q l0 n0 max_hits ls its :
  on_disk fs file ls → index_file ls its → Forall (resolvable fs dfl q) its →
  ∃ r l n new,
    full_scan fs check c aa file dfl q (l0, n0) max_hits 0 true = Ret (r, (l, n)) ∧
    l = l0 ++ new ∧ n = n0 + Z.of_nat (length new) ∧
    Forall (λ x, ∃ it rec, it ∈ its ∧ selected fs check c aa dfl q it rec ∧
                           x = with_index_file (file_no file) rec) new ∧
    (NoDup (keys c aa l0) → NoDup (keys c aa l)) ∧
    (max_hits = 0 ∨ n ≤ Z.max max_hits n0) ∧
    ((r = SEARCH_SUCCESSFUL ∧
      ∀ it rec, it ∈ its → selected fs check c aa dfl q it rec →
                (data_file_no it, offset it) ∈ keys c aa l) ∨
     (r = HIT_LIMIT_EXCEEDED ∧ max_hits ≠ 0 ∧ max_hits ≤ n)).
Proof.
  intros Hd Hif Hres.
  destruct (scan_items_finds fs check c aa dfl q max_hits (file_no file) its (ScanState None l0 n0) Hres)
    as (r & s & E & [(new & Hl & Hn & Hnew) F2 F3 F4]).
  exists r, (record_list s), (hit_count s), new. split.
  { change 0 with (Z.of_nat (start ls 0)). rewrite (full_scan_items _ _ _ _ _ _ _ _ _ _ ls its 0) by (done || lia).
    cbn [fst snd]. rewrite drop_0, E. done. }
  split; [done|]. split; [done|]. split; [done|]. split; [done|]. split; [done|].
  destruct F4 as [[-> F4]|]; [left; split; [done|]|by right].
  intros it rec Hin Hs. by eapply check_hit_list_keys, F4.
Qed.

(** C4: what full_scan of a whole index file finds.  On an index file whose
    items point into existing data files, the scan ends without a fault; it
    appends to the hit list, and counts, only records that match the query (the
    item matches, is not deleted, has the attribute asked for, and the record
    passes the AND terms); it never lists the same record of the class twice;
    it stays within the hit limit; and unless it reports that the limit is
    exceeded, every matching record is in the list. *)
Theorem full_scan_correct fs check c aa file dfl q l0 n0 max_hits ls its :
  on_disk fs file ls → index_file ls its → Forall (resolvable fs dfl q) its →
  ∃ r l n new,
    full_scan fs check c aa file dfl q (l0, n0) max_hits 0 true = Ret (r, (l, n)) ∧
    l = l0 ++ new ∧ n = n0 + Z.of_nat (length new) ∧
    Forall (λ x, ∃ it rec, it ∈ its ∧ selected fs check c aa dfl q it rec ∧
                           x = with_index_file (file_no file) rec) new ∧
    (NoDup (keys c aa l0) → NoDup (keys c aa l)) ∧
    (max_hits = 0 ∨ n ≤ Z.max max_hits n0) ∧
    ((r = SEARCH_SUCCESSFUL ∧
      ∀ it rec, it ∈ its → selected fs check c aa dfl q it rec →
                (data_file_no it, offset it) ∈ keys c aa l) ∨
     (r = HIT_LIMIT_EXCEEDED ∧ max_hits ≠ 0 ∧ max_hits ≤ n)).
Proof. apply full_scan_finds. Qed.

Definition demo_data : cstr :=
  $"Class-Name:host" ++ NL :: $"Host-Name:beta" ++ NL :: $"---" ++ NL ::
  $"Class-Name:host" ++ NL :: $"Host-Name:alpha" ++ [NL].
Definition demo_world : filesystem := λ n,
  if bool_decide (n = $"x.ndx") then Some (text [$"35:1:0:2:ALPHA"; $"0:1:0:2:BETA"])
  else if bool_decide (n = $"d.txt") then Some demo_data else None.
Definition demo_index : file_struct := File MKDB_EXACT_INDEX_FILE ($"x.ndx") 7 28 2 false None.
Definition demo_data_file : file_struct := File MKDB_DATA_FILE ($"d.txt") 1 80 2 false None.
Definition demo_world_items : list index_struct :=
  [IndexItem 35 1 0 2 (Some $"ALPHA"); IndexItem 0 1 0 2 (Some $"BETA")].

Lemma demo_world_index : index_file [$"35:1:0:2:ALPHA"; $"0:1:0:2:BETA"] demo_world_items.
Proof.
  split.
  - repeat (constructor; [split; apply (bool_decide_unpack _); vm_compute; exact I|]). constructor.
  - repeat (constructor; [vm_compute; lia|]). constructor.
  - repeat (constructor; [intros it0; vm_compute; reflexivity|]). constructor.
Qed.
Lemma demo_resolvable v : Forall (resolvable demo_world [demo_data_file] (demo_query v)) demo_world_items.
Proof.
  repeat (constructor; [split; [discriminate|split; [by eexists|exists demo_data_file; split_and!; try done; by eexists]]|]).
  constructor.
Qed.

Lemma full_scan_correct_witness :
  let q := demo_query ($"BETA") in
  ∃ r l n new,
    full_scan demo_world no_check demo_class demo_area demo_index [demo_data_file] q ([], 0) 10 0 true
    = Ret (r, (l, n)) ∧
    l = [] ++ new ∧ n = 0 + Z.of_nat (length new) ∧
    Forall (λ x, ∃ it rec, it ∈ demo_world_items ∧
       selected demo_world no_check demo_class demo_area [demo_data_file] q it rec ∧
       x = with_index_file 7 rec) new ∧
    (NoDup (keys demo_class demo_area []) → NoDup (keys demo_class demo_area l)) ∧
    (10 = 0 ∨ n ≤ Z.max 10 0) ∧
    ((r = SEARCH_SUCCESSFUL ∧
      ∀ it rec, it ∈ demo_world_items →
        selected demo_world no_check demo_class demo_area [demo_data_file] q it rec →
        (data_file_no it, offset it) ∈ keys demo_class demo_area l) ∨
     (r = HIT_LIMIT_EXCEEDED ∧ 10 ≠ 0 ∧ 10 ≤ n)).
Proof.
  intros q. apply (full_scan_correct demo_world _ demo_class demo_area demo_index [demo_data_file] q
    [] 0 10 [$"35:1:0:2:ALPHA"; $"0:1:0:2:BETA"] demo_world_items).
  - split_and!; reflexivity.
  - apply demo_world_index.
  - apply demo_resolvable.
Defined.

(** ** Malformed lines *)

Lemma decode_short_line line it :
  NUL ∉ line → length (split_list_s COLON 5 line) ≠ 5%nat →
  decode_index_line line it = Ret (false, it).
Proof.
  intros Hn Hl. unfold decode_index_line.
  destruct (split_list_spec COLON 5 line) as (a & -> & Hc & _); [done|done|done|].
  cbn [mbind outcome_bind]. rewrite bool_decide_eq_false_2 by congruence. done.
Qed.

(** A line with fewer than five fields (a blank line, or the rest of a line
    that is longer than the buffer of full_scan) crashes the scan for an exact
    or prefix match: decode_index_line leaves the null value of the freed item,
    and search_compare hands it to strcmp. *)
Theorem full_scan_malformed_line fs check c aa file dfl q hits max_hits find_all line rest :
  ordered_compare q → qt_attribute_id q = -2 → fp file = None →
  fs (filename file) = Some (line ++ NL :: rest) → is_line line → (length line + 1 < MAX_LINE)%nat →
  length (split_list_s COLON 5 (clean line)) ≠ 5%nat →
  full_scan fs check c aa file dfl q hits max_hits 0 find_all = Fault.
Proof.
  intros Hq Hid Hfp Hfs Hl Hlen Hf. unfold full_scan, open_fp. rewrite Hfp, Hfs.
  unfold contents. cbn [filename with_fp]. rewrite Hfs. simpl default.
  pose proof (readline_at [] line rest MAX_LINE Hl Hlen) as E. cbn [app length] in E.
  unfold scan_file. change (Z.to_nat 0) with 0%nat. cbn [scan_loop]. rewrite E.
  rewrite decode_short_line; [| |done].
  2:{ unfold clean. intros Hin. destruct Hl as [_ Hnul]. apply Hnul.
      apply elem_of_dropwhile, elem_of_rdropwhile in Hin. unfold strip_control_s in Hin.
      by apply list_elem_of_filter in Hin as [_ ?]. }
  cbn [mbind outcome_bind]. unfold scan_item, skipped. rewrite Hid. cbn.
  assert (search_compare q None = Fault) as ->; [|done].
  unfold search_compare. by destruct Hq as [-> | ->].
Qed.

Lemma full_scan_malformed_line_witness :
  full_scan (λ _, Some (NL :: $"0:1:0:2:BETA" ++ [NL])) no_check demo_class demo_area demo_index []
            (demo_query ($"BETA")) ([], 0) 0 0 true = Fault.
Proof.
  apply (full_scan_malformed_line _ _ _ _ _ _ _ _ _ _ [] ($"0:1:0:2:BETA" ++ [NL]));
    try reflexivity; [by left| |vm_compute; lia|vm_compute; lia].
  split; apply not_elem_of_nil.
Defined.
