(* ===== verification/Index.v ===== *)
(** * Indexing (mkdb/index.c, mkdb/index_file.c)

    Each indexed attribute of a record adds lines to the index files of its
    class: an exact, a CIDR and a soundex file.  An index file under
    construction is the text written to it so far.  The phonetic code of a word
    is the function [metaphone], an argument: that of Metaphone.v. *)

From S2P Require Import Prelude CLib CString Misc DlList IpNetwork Types Stdio FilePath IndexLine Records.
Local Open Scope Z_scope.

(** ** index_file.c *)

(** index_fp_struct: whether the stream is open, and what was written *)
Record index_fp_struct := IndexFp {
  ifp_type : mkdb_file_type; ifp_open : bool; real_filename : cstr; tmp_filename : cstr;
  ifp_prefix : cstr; ifp_text : cstr }.

Definition INDEX_DEFAULT_BASE_NAME : cstr := $"index".

Definition mkdb_ft_2_ft_templ (t : mkdb_file_type) : cstr :=
  match t with
  | MKDB_EXACT_INDEX_FILE => $"-exact-%d.ndx"
  | MKDB_CIDR_INDEX_FILE => $"-cidr-%d.ndx"
  | MKDB_SOUNDEX_INDEX_FILE => $"-soundex-%d.ndx"
  | _ => []
  end.
Definition translate_type_to_str (t : mkdb_file_type) : cstr :=
  match t with
  | MKDB_EXACT_INDEX_FILE => $"exact"
  | MKDB_CIDR_INDEX_FILE => $"cidr"
  | MKDB_SOUNDEX_INDEX_FILE => $"soundex"
  | _ => []
  end.
Definition base_or_default (prefix : option cstr) : cstr :=
  match prefix with Some ((_ :: _) as p) => p | _ => INDEX_DEFAULT_BASE_NAME end.

Definition generate_index_file_basename (t : mkdb_file_type) (spool_directory : cstr)
    (prefix : option cstr) : cstr :=
  spool_directory ++ chr 47 :: base_or_default prefix ++ mkdb_ft_2_ft_templ t.

Definition convert_file_type (i : attr_index_type) : mkdb_file_type :=
  match i with
  | INDEX_EXACTLY => MKDB_EXACT_INDEX_FILE
  | INDEX_SOUNDEX => MKDB_SOUNDEX_INDEX_FILE
  | INDEX_CIDR => MKDB_CIDR_INDEX_FILE
  | _ => MKDB_NO_FILE
  end.

Definition does_index_type_exist (t : mkdb_file_type) (files : list index_fp_struct) : bool :=
  existsb (λ f, bool_decide (ifp_type f = t)) files.

(** the loop looks at the first element before it tests whether there is one *)
Definition find_index_file_by_type (files : list index_fp_struct) (t : mkdb_file_type) :
    outcome (option index_fp_struct) :=
  match files with
  | [] => Fault
  | _ => Ret (find_first (λ f, bool_decide (ifp_type f = t)) files)
  end.

Section Names.
(** mktemp replaces the XXXXXX at the end of a template. *)
Context (mktemp : cstr → cstr).

Definition generate_index_file_tmpname (t : mkdb_file_type) (prefix : option cstr) : cstr :=
  mktemp (base_or_default prefix ++ chr 45 :: translate_type_to_str t ++ $"-tmp.XXXXXX") ++ $".ndx".

Definition create_index_fp (t : mkdb_file_type) (c : class_struct) (base_name : option cstr) :
    index_fp_struct :=
  let real := full_path (generate_index_file_tmpname t base_name) (db_dir c) in
  IndexFp t false real (real ++ $".tmp") (default [] base_name) [].

Definition add_index_type (t : mkdb_file_type) (c : class_struct) (base_name : option cstr)
    (files : list index_fp_struct) : list index_fp_struct :=
  if does_index_type_exist t files then files else files ++ [create_index_fp t c base_name].

(** the loop over the attributes; it stops after an attribute of type
    INDEX_ALL, which adds every type *)
Fixpoint build_index_loop (attrs : list attribute_struct) (c : class_struct)
    (base_name : option cstr) (files : list index_fp_struct) : list index_fp_struct :=
  match attrs with
  | [] => files
  | val :: attrs =>
      match attr_index val with
      | INDEX_NONE => build_index_loop attrs c base_name files
      | INDEX_ALL =>
          foldl (λ files x, add_index_type (convert_file_type x) c base_name files) files
                [INDEX_EXACTLY; INDEX_CIDR; INDEX_SOUNDEX]
      | i => build_index_loop attrs c base_name (add_index_type (convert_file_type i) c base_name files)
      end
  end.
Definition build_index_list (c : class_struct) (base_name : option cstr)
    (files : list index_fp_struct) : bool * list index_fp_struct :=
  let files := build_index_loop (attribute_list c) c base_name files in
  (negb (bool_decide (files = [])), files).
End Names.
#[export] Instance index_fp_struct_eq : EqDecision index_fp_struct.
Proof. solve_decision. Defined.

(** ** The index keys *)

Definition strip_non_soundex (str : cstr) : cstr :=
  omap (λ ch, if isalpha ch || isspace ch then Some ch
              else if iscntrl ch then None else Some SP) str.

Definition is_soundexable (str : option cstr) : bool :=
  match str with
  | None => false
  | Some s => forallb (λ ch, isalpha ch || isspace ch) s
  end.

Section Keys.
Context (regexec : cstr → cstr → bool) (metaphone : cstr → cstr).
(** the uninitialised netinfo of the callers *)
Context (ni0 : netinfo).

(** A key function returns the key, null if there is none, and the value as it
    has edited it. *)
Definition exact_index (line : cstr) : option cstr * cstr :=
  let a := strupr_s line in (Some (trim_s (strip_control_s a)), a).

Definition cidr_index (line : option cstr) : outcome (option cstr) :=
  match line with
  | Some ((_ :: _) as line) =>
      if negb (is_network_valid_for_index regexec ni0 line) then Ret None
      else
        match get_network_prefix_and_len (Some line) ni0 with
        | None => Ret None
        | Some prefix =>
            '(_, buf) ← write_network (Some (replicate MAX_LINE NUL)) prefix;
            Ret (option_map cstring buf)
        end
  | _ => Ret None
  end.

(** the loop of strcat calls; both buffers have MAX_LINE bytes *)
Fixpoint soundex_words (argv : list cstr) (first : bool) (buf : cstr) : outcome cstr :=
  match argv with
  | [] => Ret buf
  | w :: argv =>
      let tmp_buf := metaphone w in
      let buf := (if first then buf else buf ++ [SP]) ++ tmp_buf in
      if decide (length tmp_buf < MAX_LINE ∧ length buf < MAX_LINE)%nat
      then soundex_words argv false buf
      else Fault
  end.
Definition soundex_index (v : cstr) : outcome (option cstr * cstr) :=
  let v := strip_non_soundex v in
  a ← split_args (Some v);
  match a with
  | None => Ret (None, v)
  | Some argv => buf ← soundex_words argv true []; Ret (Some (trim_s buf), v)
  end.

(** the result goes to a buffer of the caller; [None] returns NULL *)
Definition soundex_index_to_var (v : option cstr) : outcome (option cstr) :=
  match v with
  | Some ((_ :: _) as v) =>
      '(res, _) ← soundex_index v;
      match res with None => Fault | Some res => Ret (Some res) end
  | _ => Ret None
  end.

Definition index_value (i : attr_index_type) (v : cstr) : outcome (option cstr * cstr) :=
  match i with
  | INDEX_EXACTLY => Ret (exact_index v)
  | INDEX_CIDR => k ← cidr_index (Some v); Ret (k, v)
  | _ => soundex_index v
  end.

(** ** index_record *)

(** whether fopen of a temporary file succeeds *)
Context (fopen_ok : cstr → bool).

Fixpoint update_first (t : mkdb_file_type) (g : index_fp_struct → index_fp_struct)
    (files : list index_fp_struct) : list index_fp_struct :=
  match files with
  | [] => []
  | f :: files => if bool_decide (ifp_type f = t) then g f :: files else f :: update_first t g files
  end.
Definition open_index (f : index_fp_struct) : index_fp_struct :=
  IndexFp (ifp_type f) true (real_filename f) (tmp_filename f) (ifp_prefix f) (ifp_text f).
Definition add_text (s : cstr) (f : index_fp_struct) : index_fp_struct :=
  IndexFp (ifp_type f) (ifp_open f) (real_filename f) (tmp_filename f) (ifp_prefix f) (ifp_text f ++ s).

(** The files, [item.value] ([None] while it is uninitialised), the number of
    lines and the value of the pair, which the key functions edit. *)
Record ix_state := IxState {
  ix_files : list index_fp_struct; item_value : option (option cstr); num_lines : Z; ix_value : cstr }.

(** indexing the value for one type: opening the file, the key, the line *)
Definition index_one (rec : record_struct) (attr : attribute_struct) (i : attr_index_type)
    (s : ix_state) : outcome ix_state :=
  let t := convert_file_type i in
  file ← find_index_file_by_type (ix_files s) t;
  match file with
  | None => Fault
  | Some file =>
      if negb (ifp_open file) && negb (fopen_ok (tmp_filename file)) then Ret s
      else
        let files := update_first t open_index (ix_files s) in
        '(key, v) ← index_value i (ix_value s);
        if NOT_STR_EXISTS key then Ret (IxState files (Some key) (num_lines s) v)
        else
          line ← write_index_line
                   (IndexItem (rec_offset rec) (rec_data_file_no rec) 0 (attr_global_id attr) key);
          Ret (IxState (update_first t (add_text line) files) (Some None) (num_lines s + 1) v)
  end.

Fixpoint index_types (rec : record_struct) (attr : attribute_struct) (is_ : list attr_index_type)
    (s : ix_state) : outcome ix_state :=
  match is_ with
  | [] => Ret s
  | i :: is_ =>
      if bool_decide (i = INDEX_CIDR) && negb (is_network_valid_for_searching regexec (ix_value s))
      then index_types rec attr is_ s
      else s ← index_one rec attr i s; index_types rec attr is_ s
  end.

(** one pair of the record; after the loop over all types the C code frees
    [item.value] *)
Definition index_pair (rec : record_struct) (av : av_pair_struct) (s : ix_state) : outcome ix_state :=
  match av_value av with
  | None => Ret s
  | Some v =>
      let s := IxState (ix_files s) (item_value s) (num_lines s) v in
      match attr_index (av_attr av) with
      | INDEX_NONE | INDEX_MAX_TYPE => Ret s
      | INDEX_ALL =>
          s ← index_types rec (av_attr av) [INDEX_EXACTLY; INDEX_CIDR; INDEX_SOUNDEX] s;
          match item_value s with
          | None => Fault
          | Some _ => Ret (IxState (ix_files s) (Some None) (num_lines s) (ix_value s))
          end
      | i => index_one rec (av_attr av) i s
      end
  end.

Fixpoint index_pairs (rec : record_struct) (avs : list av_pair_struct) (s : ix_state) :
    outcome ix_state :=
  match avs with
  | [] => Ret s
  | av :: avs => s ← index_pair rec av s; index_pairs rec avs s
  end.

(** the number of lines, the status and the files *)
Definition index_record (rec : record_struct) (aa : auth_area_struct)
    (files : list index_fp_struct) : outcome (Z * bool * list index_fp_struct) :=
  match aa_schema aa with
  | None => Ret (0, false, files)
  | Some _ =>
      if bool_decide (av_pair_list rec = []) || bool_decide (files = []) then Ret (0, true, files)
      else
        s ← index_pairs rec (av_pair_list rec) (IxState files None 0 []);
        Ret (num_lines s, true, ix_files s)
  end.

(** ** index_data_file *)

Context (check_record : record_check).

(** [f] is the contents of the data file.  Each record moves forward in it. *)
Fixpoint index_data_loop (fuel : nat) (c : class_struct) (aa : auth_area_struct)
    (file_no validate_flag : Z) (f : cstr) (pos : nat) (recs lines : Z)
    (files : list index_fp_struct) : outcome (Z * Z * bool * list index_fp_struct) :=
  match fuel with
  | O => NoFuel
  | S fuel =>
      '(record, _, pos) ← mkdb_read_next_record check_record c aa file_no validate_flag f pos;
      match record with
      | None => Ret (recs, lines, true, files)
      | Some record =>
          '(n, status, files) ← index_record record aa files;
          if negb status then Ret (recs + 1, 0, false, files)
          else index_data_loop fuel c aa file_no validate_flag f pos (recs + 1) (lines + n) files
      end
  end.

(** the number of lines, the status, the file with its count of records, the
    index files *)
Definition index_data_file (fs : cstr → option cstr) (c : class_struct) (aa : auth_area_struct)
    (data_file : file_struct) (files : list index_fp_struct) (validate_flag : Z) :
    outcome (Z * bool * file_struct * list index_fp_struct) :=
  match fs (filename data_file) with
  | None => Ret (0, false, with_fp None data_file, files)
  | Some f =>
      '(recs, lines, status, files) ←
        index_data_loop (S (length f)) c aa (file_no data_file) validate_flag f 0 0 0 files;
      let data_file := File (file_type data_file) (filename data_file) (file_no data_file)
                            (file_size data_file) (Types.num_recs data_file + recs)
                            (file_lock data_file) None in
      Ret (lines, status, data_file, files)
  end.

(** ** The loop of index_files over the data files

    A file without index lines moves from the list to [delete_list]; deleting
    it from the list moves the cursor.  The result: the list, the deleted
    files, the status, the number of lines and the index files. *)
Record if_state := IfState {
  data_files : DL.cursor file_struct; delete_list : list file_struct;
  index_num_recs : Z; if_files : list index_fp_struct }.

Definition put_value (f : file_struct) (z : DL.cursor file_struct) : DL.cursor file_struct :=
  match z with None => None | Some (l, _, r) => Some (l, f, r) end.

Fixpoint index_files_loop (fuel : nat) (fs : cstr → option cstr) (c : class_struct)
    (aa : auth_area_struct) (validate_flag : Z) (s : if_state) : outcome (bool * if_state) :=
  match fuel with
  | O => NoFuel
  | S fuel =>
      let advance (s : if_state) : outcome (bool * if_state) :=
        match data_files s with
        | Some (_, _, _ :: _) =>
            index_files_loop fuel fs c aa validate_flag
              (IfState (DL.z_next (data_files s)) (delete_list s) (index_num_recs s) (if_files s))
        | _ => Ret (true, s)
        end in
      match data_files s with
      | None => advance s
      | Some (_, data_file, _) =>
          '(num_recs, status, data_file, files) ←
            index_data_file fs c aa data_file (if_files s) validate_flag;
          let z := put_value data_file (data_files s) in
          if negb status then Ret (false, IfState z (delete_list s) (index_num_recs s) files)
          else if num_recs =? 0 then
            advance (IfState (DL.z_delete z) (delete_list s ++ [data_file]) (index_num_recs s) files)
          else advance (IfState z (delete_list s) (index_num_recs s + num_recs) files)
      end
  end.
End Keys.

(** ** The index files of a class *)

(** the types that an attribute is indexed by *)
Definition types_of (i : attr_index_type) : list attr_index_type :=
  match i with
  | INDEX_ALL => [INDEX_EXACTLY; INDEX_CIDR; INDEX_SOUNDEX]
  | INDEX_EXACTLY | INDEX_CIDR | INDEX_SOUNDEX => [i]
  | _ => []
  end.
Abbreviation file_types files := (ifp_type <$> files).

Section Build.
Context (mktemp : cstr → cstr) (c : class_struct) (base : option cstr).

Lemma does_index_type_exist_iff t files : does_index_type_exist t files = true ↔ t ∈ file_types files.
Proof.
  unfold does_index_type_exist. rewrite existsb_exists, list_elem_of_fmap. split.
  - intros (f & Hf%list_elem_of_In & Ht%bool_decide_eq_true). by exists f.
  - intros (f & -> & Hf). exists f. split; [by apply list_elem_of_In|]. by apply bool_decide_eq_true.
Qed.

Lemma add_index_type_types t files :
  (∀ t', t' ∈ file_types (add_index_type mktemp t c base files) ↔ t' = t ∨ t' ∈ file_types files) ∧
  (NoDup (file_types files) → NoDup (file_types (add_index_type mktemp t c base files))).
Proof.
  unfold add_index_type. destruct (does_index_type_exist t files) eqn:E.
  - apply does_index_type_exist_iff in E. split; [|done]. intros t'. split; [auto|]. by intros [->|].
  - assert (t ∉ file_types files) as Hn by (rewrite <-does_index_type_exist_iff; congruence).
    rewrite fmap_app. change (file_types [create_index_fp mktemp t c base]) with [t]. split.
    + intros t'. rewrite elem_of_app, list_elem_of_singleton. tauto.
    + intros Hnd. apply NoDup_app. split; [done|]. split; [|apply NoDup_singleton].
      by intros x Hx ->%list_elem_of_singleton.
Qed.

Abbreviation add_all := (foldl (λ files x, add_index_type mktemp (convert_file_type x) c base files)).

Lemma add_all_types is_ : ∀ files,
  (∀ t, t ∈ file_types (add_all files is_) ↔ t ∈ file_types files ∨ t ∈ convert_file_type <$> is_) ∧
  (NoDup (file_types files) → NoDup (file_types (add_all files is_))).
Proof.
  induction is_ as [|i is_ IH]; intros files; cbn [foldl].
  - split; [|done]. intros t. split; [by left|]. by intros [|[]%elem_of_nil].
  - destruct (IH (add_index_type mktemp (convert_file_type i) c base files)) as [H1 H2].
    destruct (add_index_type_types (convert_file_type i) files) as [H3 H4]. split; [|auto].
    intros t. rewrite H1, H3, fmap_cons, elem_of_cons. tauto.
Qed.

(** an attribute adds its types; after INDEX_ALL the others are not looked at *)
Lemma build_index_loop_cons val attrs files :
  attr_index val ≠ INDEX_MAX_TYPE →
  build_index_loop mktemp (val :: attrs) c base files =
  let files' := add_all files (types_of (attr_index val)) in
  if decide (attr_index val = INDEX_ALL) then files'
  else build_index_loop mktemp attrs c base files'.
Proof. cbn [build_index_loop]. by destruct (attr_index val). Qed.

Lemma types_of_all i j : i ∈ types_of j → convert_file_type i ∈ convert_file_type <$> types_of INDEX_ALL.
Proof.
  intros H. assert (i = INDEX_EXACTLY ∨ i = INDEX_CIDR ∨ i = INDEX_SOUNDEX) as [->|[->| ->]].
  { destruct j; cbn in H; repeat (apply elem_of_cons in H as [->|H]; [by auto|]); by apply elem_of_nil in H. }
  all: cbn; repeat constructor.
Qed.

Lemma build_index_loop_types attrs : ∀ files,
  Forall (λ a, attr_index a ≠ INDEX_MAX_TYPE) attrs →
  let files' := build_index_loop mktemp attrs c base files in
  (∀ t, t ∈ file_types files → t ∈ file_types files') ∧
  (NoDup (file_types files) → NoDup (file_types files')) ∧
  (∀ attr i, attr ∈ attrs → i ∈ types_of (attr_index attr) → convert_file_type i ∈ file_types files') ∧
  (∀ t, t ∈ file_types files' → t ∈ file_types files ∨
        ∃ attr i, attr ∈ attrs ∧ i ∈ types_of (attr_index attr) ∧ t = convert_file_type i).
Proof.
  induction attrs as [|val attrs IH]; intros files Hm.
  { cbn. split_and!; auto. intros attr i []%elem_of_nil. }
  apply Forall_cons in Hm as [Hv Hm]. rewrite build_index_loop_cons by done. cbn zeta.
  destruct (add_all_types (types_of (attr_index val)) files) as [H1 H2].
  assert (∀ t, t ∈ convert_file_type <$> types_of (attr_index val) →
    ∃ attr i, attr ∈ val :: attrs ∧ i ∈ types_of (attr_index attr) ∧ t = convert_file_type i) as Hnew.
  { intros t (i & -> & Hi)%list_elem_of_fmap. exists val, i. split; [left|done]. }
  destruct (decide (attr_index val = INDEX_ALL)) as [E|Hall].
  - split_and!; [intros t Ht; apply H1; by left|done| |].
    + intros attr i _ Hi. apply H1. right. rewrite E. by eapply types_of_all.
    + intros t [|]%H1; auto.
  - destruct (IH (add_all files (types_of (attr_index val))) Hm) as (I1 & I2 & I3 & I4).
    split_and!; [intros t Ht; apply I1, H1; by left|auto| |].
    + intros attr i [->|Hin]%elem_of_cons Hi; [|by eapply I3]. apply I1, H1. right.
      apply list_elem_of_fmap. eauto.
    + intros t [[|]%H1|(attr & i & ? & ? & ?)]%I4; auto.
      right. exists attr, i. split; [by right|done].
Qed.
End Build.

(** Build_index_list creates exactly one index file for each way in which
    the attributes of the class are indexed (all three for an attribute
    indexed with ALL), and returns FALSE exactly when there is none. *)
Theorem build_index_list_correct mktemp c base :
  Forall (λ a, attr_index a ≠ INDEX_MAX_TYPE) (attribute_list c) →
  let '(ok, files) := build_index_list mktemp c base [] in
  NoDup (file_types files) ∧
  (∀ t, t ∈ file_types files ↔
     ∃ attr i, attr ∈ attribute_list c ∧ i ∈ types_of (attr_index attr) ∧ t = convert_file_type i) ∧
  (ok = false ↔ Forall (λ a, attr_index a = INDEX_NONE) (attribute_list c)).
Proof.
  intros Hm. unfold build_index_list.
  destruct (build_index_loop_types mktemp c base (attribute_list c) [] Hm) as (_ & H2 & H3 & H4).
  set (files := build_index_loop _ _ _ _ _) in *.
  assert (∀ t, t ∈ file_types files ↔ ∃ attr i, attr ∈ attribute_list c ∧
    i ∈ types_of (attr_index attr) ∧ t = convert_file_type i) as Ht.
  { intros t. split; [by intros [[]%elem_of_nil|]%H4|]. intros (attr & i & ? & ? & ->). eauto. }
  split; [apply H2, NoDup_nil_2|]. split; [done|]. rewrite negb_false_iff, bool_decide_eq_true. split.
  - intros E. assert (∀ a i, a ∈ attribute_list c → i ∈ types_of (attr_index a) → False) as Hno.
    { intros a i Ha Hi. assert (convert_file_type i ∈ file_types files) as H by (apply Ht; eauto).
      rewrite E in H. by apply elem_of_nil in H. }
    apply Forall_forall. intros a Ha. rewrite Forall_forall in Hm. specialize (Hm a Ha).
    specialize (Hno a). destruct (attr_index a) eqn:Ei; try done; (edestruct Hno; [done|left]).
  - intros Hn. destruct files as [|f files]; [done|].
    destruct (proj1 (Ht (ifp_type f)) ltac:(left)) as (a & i & Ha & Hi & _).
    rewrite Forall_forall in Hn. rewrite (Hn a Ha) in Hi. by apply elem_of_nil in Hi.
Qed.

Lemma build_index_list_correct_witness :
  let c := Class_ 0 ($"host") [] ($"db") None [demo_attr 0 ($"Class-Name"); demo_attr 1 ($"Host-Name")] None None None in
  let '(ok, files) := build_index_list (λ s, s) c None [] in
  NoDup (file_types files) ∧
  (∀ t, t ∈ file_types files ↔
     ∃ attr i, attr ∈ attribute_list c ∧ i ∈ types_of (attr_index attr) ∧ t = convert_file_type i) ∧
  (ok = false ↔ Forall (λ a, attr_index a = INDEX_NONE) (attribute_list c)).
Proof.
  intros c. apply (build_index_list_correct (λ s, s) c None).
  repeat (constructor; [discriminate|]). constructor.
Defined.

(** ** The lines of a record *)

Section RecordLines.
Context (regexec : cstr → cstr → bool) (metaphone : cstr → cstr) (ni0 : netinfo)
        (fopen_ok : cstr → bool).

Abbreviation entry := (attr_index_type * index_struct)%type.

(** the item of a key *)
Definition key_item (rec : record_struct) (attr : attribute_struct) (key : cstr) : index_struct :=
  IndexItem (rec_offset rec) (rec_data_file_no rec) 0 (attr_global_id attr) (Some key).

(** The entries of a value for a list of types.  The key functions see the
    value as the earlier ones have left it. *)
Fixpoint entries_for (rec : record_struct) (attr : attribute_struct) (check : bool)
    (is_ : list attr_index_type) (v : cstr) : outcome (list entry) :=
  match is_ with
  | [] => Ret []
  | i :: is_ =>
      if check && bool_decide (i = INDEX_CIDR) && negb (is_network_valid_for_searching regexec v)
      then entries_for rec attr check is_ v
      else
        '(key, v) ← index_value regexec metaphone ni0 i v;
        rest ← entries_for rec attr check is_ v;
        Ret (match key with
             | Some ((_ :: _) as key) => (i, key_item rec attr key) :: rest
             | _ => rest
             end)
  end.
Definition pair_entries (rec : record_struct) (av : av_pair_struct) : outcome (list entry) :=
  match av_value av with
  | None => Ret []
  | Some v => entries_for rec (av_attr av) (bool_decide (attr_index (av_attr av) = INDEX_ALL))
                          (types_of (attr_index (av_attr av))) v
  end.
Fixpoint record_entries (rec : record_struct) (avs : list av_pair_struct) : outcome (list entry) :=
  match avs with
  | [] => Ret []
  | av :: avs => l ← pair_entries rec av; rest ← record_entries rec avs; Ret (l ++ rest)
  end.

(** the text of the entries of one file *)
Definition entry_text (e : entry) : outcome cstr := write_index_line e.2.
Definition line_fits (e : entry) : Prop := ∃ s, entry_text e = Ret s.
Fixpoint file_text (t : mkdb_file_type) (es : list entry) : cstr :=
  match es with
  | [] => []
  | e :: es =>
      (if bool_decide (convert_file_type e.1 = t)
       then match entry_text e with Ret s => s | _ => [] end else []) ++ file_text t es
  end.

Lemma file_text_app t es es' : file_text t (es ++ es') = file_text t es ++ file_text t es'.
Proof. induction es as [|e es IH]; simpl; [done|]. by rewrite IH, app_assoc. Qed.

(** files that a record can be indexed into: one of each type, all of which
    can be opened *)
Definition ready (files : list index_fp_struct) : Prop :=
  NoDup (file_types files) ∧
  Forall (λ f, ifp_open f = true ∨ fopen_ok (tmp_filename f) = true) files.

Definition index_names (f : index_fp_struct) : list cstr := [real_filename f; tmp_filename f].

(** [files'] is [files] with the text of the entries added *)
Definition grown (files : list index_fp_struct) (es : list entry) (files' : list index_fp_struct) :=
  Forall2 (λ f f', ifp_type f' = ifp_type f ∧ index_names f' = index_names f ∧
                   (ifp_open f = true ∨ file_text (ifp_type f) es ≠ [] → ifp_open f' = true) ∧
                   ifp_text f' = ifp_text f ++ file_text (ifp_type f) es) files files'.

Lemma grown_refl files : grown files [] files.
Proof.
  apply Forall_Forall2_diag, Forall_true. intros f. rewrite app_nil_r. by split_and!; [..|intros []|].
Qed.

Lemma grown_trans f1 es1 f2 es2 f3 : grown f1 es1 f2 → grown f2 es2 f3 → grown f1 (es1 ++ es2) f3.
Proof.
  intros H1. revert f3. induction H1 as [|a b l1 l2 (Ta & Na & Oa & Xa) H1 IH]; intros f3 H2.
  { inversion H2. constructor. }
  inversion H2 as [|? d ? l3 (Tb & Nb & Ob & Xb)]; subst. constructor; [|by apply IH].
  split_and!; [congruence..| |by rewrite Xb, Xa, Ta, file_text_app, app_assoc].
  rewrite file_text_app. intros Ho. apply Ob. rewrite Ta.
  destruct (file_text (ifp_type a) es1); [|left; apply Oa; by right].
  destruct Ho as [Ho|Ho]; [left; apply Oa; by left|by right].
Qed.

Lemma grown_types files es files' : grown files es files' → file_types files' = file_types files.
Proof. intros H. induction H as [|f f' l l' (E & _) _ IH]; [done|]. rewrite !fmap_cons. congruence. Qed.

Lemma grown_ready files es files' : grown files es files' → ready files → ready files'.
Proof.
  intros H [H1 H2]. split; [by rewrite (grown_types _ _ _ H)|].
  induction H as [|f f' l l' (_ & E & O & _) _ IH]; [done|].
  apply Forall_cons in H2 as [H2 H2']. rewrite fmap_cons in H1. apply NoDup_cons in H1 as [_ H1].
  injection E as _ E. constructor; [|auto]. rewrite E. destruct H2; auto using or_introl.
Qed.

Lemma update_first_grown t files s e (g : index_fp_struct → index_fp_struct) :
  NoDup (file_types files) →
  (∀ f, ifp_type (g f) = ifp_type f ∧ index_names (g f) = index_names f ∧
        ifp_open (g f) = true ∧ ifp_text (g f) = ifp_text f ++ s) →
  (∀ t', file_text t' e = if bool_decide (t' = t) then s else []) →
  grown files e (update_first t g files).
Proof.
  intros Hnd Hg He. induction files as [|f files IH]; [constructor|].
  rewrite fmap_cons in Hnd. apply NoDup_cons in Hnd as [Hf Hnd]. cbn [update_first].
  destruct (Hg f) as (G1 & G2 & G3 & G4).
  assert (∀ f', ifp_type f' ≠ t →
    ifp_type f' = ifp_type f' ∧ index_names f' = index_names f' ∧
    (ifp_open f' = true ∨ file_text (ifp_type f') e ≠ [] → ifp_open f' = true) ∧
    ifp_text f' = ifp_text f' ++ file_text (ifp_type f') e) as Hother.
  { intros f' Hn. rewrite He, bool_decide_false, app_nil_r by done. by split_and!; [..|intros []|]. }
  case_bool_decide as Ht.
  - constructor; [split_and!; try done; by rewrite G4, He, bool_decide_true|].
    apply Forall_Forall2_diag, Forall_forall. intros f' Hf'. apply Hother.
    intros E. apply Hf. rewrite Ht, <-E. apply list_elem_of_fmap. by exists f'.
  - constructor; [by apply Hother|by apply IH].
Qed.

Lemma update_first_twice t g1 g2 files :
  (∀ f, ifp_type (g1 f) = ifp_type f) →
  update_first t g2 (update_first t g1 files) = update_first t (λ f, g2 (g1 f)) files.
Proof.
  intros H. induction files as [|f files IH]; [done|]. cbn [update_first].
  case_bool_decide as E; cbn [update_first].
  - by rewrite H, bool_decide_true.
  - by rewrite bool_decide_false, IH.
Qed.

Lemma find_index_file files t :
  t ∈ file_types files → ∃ f, find_index_file_by_type files t = Ret (Some f) ∧ f ∈ files.
Proof.
  intros Ht. unfold find_index_file_by_type. destruct files as [|f0 files]; [by apply elem_of_nil in Ht|].
  destruct (find_first _ (f0 :: files)) as [f|] eqn:E.
  - exists f. split; [done|]. by eapply find_first_Some.
  - rewrite find_first_None in E. apply list_elem_of_fmap in Ht as (f & -> & Hf).
    specialize (E f Hf). by rewrite bool_decide_true in E.
Qed.

(** the types of the entries have their file *)
Definition covered (files : list index_fp_struct) (is_ : list attr_index_type) : Prop :=
  Forall (λ i, convert_file_type i ∈ file_types files) is_.

Lemma index_one_entry rec attr i files iv n v key v' :
  ready files → convert_file_type i ∈ file_types files →
  index_value regexec metaphone ni0 i v = Ret (key, v') →
  let es := match key with Some ((_ :: _) as k) => [(i, key_item rec attr k)] | _ => [] end in
  Forall line_fits es →
  ∃ files' iv', index_one regexec metaphone ni0 fopen_ok rec attr i (IxState files iv n v)
    = Ret (IxState files' (Some iv') (n + Z.of_nat (length es)) v') ∧ grown files es files'.
Proof.
  intros [Hnd Hop] Hc Hv es Hfit. unfold index_one. cbn [ix_files ix_value num_lines].
  destruct (find_index_file _ _ Hc) as (f & -> & Hf). cbn [mbind outcome_bind].
  rewrite Forall_forall in Hop. specialize (Hop f Hf).
  assert (negb (ifp_open f) && negb (fopen_ok (tmp_filename f)) = false) as ->
    by (destruct Hop as [-> | ->]; [done|by rewrite andb_false_r]).
  rewrite Hv. cbn [mbind outcome_bind].
  destruct key as [[|x k]|]; [subst es; cbn [length]| |subst es; cbn [length]].
  1, 3: do 2 eexists; split; [by rewrite Z.add_0_r|]; apply (update_first_grown _ _ []);
    [done| |intros t'; by destruct (bool_decide _)]; intros y; split_and!; try done; cbn; by rewrite app_nil_r.
  cbn [NOT_STR_EXISTS STR_EXISTS negb]. apply Forall_cons in Hfit as [[s Hs] _].
  unfold entry_text, key_item in Hs. cbn [snd] in Hs. rewrite Hs. cbn [mbind outcome_bind].
  do 2 eexists. split; [done|]. rewrite update_first_twice by done.
  apply (update_first_grown _ _ s); [done|intros y; by split_and!|].
  intros t'. subst es. cbn [file_text fst]. rewrite app_nil_r. unfold entry_text, key_item.
  cbn [snd]. rewrite Hs. by rewrite (bool_decide_ext _ (t' = convert_file_type i)).
Qed.

Abbreviation index_types := (index_types regexec metaphone ni0 fopen_ok).
Abbreviation index_pair := (index_pair regexec metaphone ni0 fopen_ok).
Abbreviation index_pairs := (index_pairs regexec metaphone ni0 fopen_ok).
Abbreviation index_record := (index_record regexec metaphone ni0 fopen_ok).

Lemma covered_grown files es files' is_ : grown files es files' → covered files is_ → covered files' is_.
Proof. intros H. unfold covered. by rewrite (grown_types _ _ _ H). Qed.

Lemma entries_for_cons rec attr check i is_ v es :
  entries_for rec attr check (i :: is_) v = Ret es →
  if check && bool_decide (i = INDEX_CIDR) && negb (is_network_valid_for_searching regexec v)
  then entries_for rec attr check is_ v = Ret es
  else ∃ key v' es', index_value regexec metaphone ni0 i v = Ret (key, v') ∧
       entries_for rec attr check is_ v' = Ret es' ∧
       es = match key with Some ((_ :: _) as k) => [(i, key_item rec attr k)] | _ => [] end ++ es'.
Proof.
  cbn [entries_for]. case_match; [done|].
  destruct (index_value _ _ _ _ _) as [[key v']| |]; [|done..]. cbn [mbind outcome_bind].
  destruct (entries_for _ _ _ _ _) as [es'| |] eqn:Ee; [|done..]. intros [= <-].
  exists key, v', es'. split_and!; [done..|]. by destruct key as [[|]|].
Qed.

Lemma index_types_entries rec attr is_ : ∀ files iv n v es,
  ready files → covered files is_ → entries_for rec attr true is_ v = Ret es → Forall line_fits es →
  ∃ files' iv' v', index_types rec attr is_ (IxState files iv n v)
    = Ret (IxState files' iv' (n + Z.of_nat (length es)) v') ∧ grown files es files' ∧
    (iv ≠ None ∨ INDEX_EXACTLY ∈ is_ → iv' ≠ None).
Proof.
  induction is_ as [|i is_ IH]; intros files iv n v es Hr Hc He Hf.
  { injection He as <-. exists files, iv, v. cbn. rewrite Z.add_0_r. split; [done|].
    split; [apply grown_refl|]. by intros [|[]%elem_of_nil]. }
  apply Forall_cons in Hc as [Hi Hc]. apply entries_for_cons in He. cbn [Index.index_types ix_value].
  destruct (bool_decide (i = INDEX_CIDR)) eqn:Ei; cbn [andb] in *; [destruct (negb _)|].
  1: { destruct (IH files iv n v es Hr Hc He Hf) as (files' & iv' & v' & H1 & H2 & H3).
       exists files', iv', v'. split_and!; [done..|]. intros [|[<-|]%elem_of_cons]; auto. }
  all: destruct He as (key & v' & es' & Hv & He & ->); apply Forall_app in Hf as [Hf1 Hf2];
    destruct (index_one_entry rec attr i files iv n v key v' Hr Hi Hv Hf1) as (f1 & iv1 & -> & G1);
    cbn [mbind outcome_bind];
    destruct (IH f1 (Some iv1) (n + Z.of_nat (length
      (match key with Some ((_ :: _) as k) => [(i, key_item rec attr k)] | _ => [] end))) v' es'
      (grown_ready _ _ _ G1 Hr) (covered_grown _ _ _ _ G1 Hc) He Hf2) as (f2 & iv2 & v2 & -> & G2 & H3);
    exists f2, iv2, v2; split_and!;
    [by rewrite length_app, Nat2Z.inj_add, Z.add_assoc|by eapply grown_trans|intros _; apply H3; by left].
Qed.

Lemma index_pair_entries rec av files iv n v0 es :
  ready files → covered files (types_of (attr_index (av_attr av))) →
  pair_entries rec av = Ret es → Forall line_fits es →
  ∃ files' iv' v', index_pair rec av (IxState files iv n v0)
    = Ret (IxState files' iv' (n + Z.of_nat (length es)) v') ∧ grown files es files'.
Proof.
  intros Hr Hc He Hf. unfold pair_entries in He. unfold Index.index_pair.
  destruct (av_value av) as [v|].
  2: { injection He as <-. exists files, iv, v0. rewrite Z.add_0_r. split; [done|apply grown_refl]. }
  cbn [ix_files item_value num_lines].
  assert (∀ i, types_of i = [i] → attr_index (av_attr av) = i →
    ∃ files' iv' v', index_one regexec metaphone ni0 fopen_ok rec (av_attr av) i (IxState files iv n v)
    = Ret (IxState files' iv' (n + Z.of_nat (length es)) v') ∧ grown files es files') as Hone.
  { intros i Ht Hi. rewrite Hi, Ht in *. rewrite bool_decide_false in He by (intros ->; done).
    apply entries_for_cons in He as (key & v' & es' & Hv & [= <-] & ->).
    apply Forall_cons in Hc as [Hc _]. rewrite app_nil_r in *.
    destruct (index_one_entry rec (av_attr av) i files iv n v key v' Hr Hc Hv Hf) as (f1 & iv1 & -> & G1).
    by exists f1, (Some iv1), v'. }
  destruct (attr_index (av_attr av)) eqn:Ei; try (by apply Hone).
  1, 3: injection He as <-; exists files, iv, v; rewrite Z.add_0_r; split; [done|apply grown_refl].
  destruct (index_types_entries rec (av_attr av) _ files iv n v es Hr Hc He Hf)
    as (f1 & iv1 & v1 & H1 & G1 & H3). cbn [types_of] in H1. rewrite H1. cbn [mbind outcome_bind item_value].
  destruct iv1 as [iv1|]; [|by destruct H3; [right; left|]]. by exists f1, (Some None), v1.
Qed.

Lemma index_pairs_entries rec avs : ∀ files iv n v0 es,
  ready files → Forall (λ av, covered files (types_of (attr_index (av_attr av)))) avs →
  record_entries rec avs = Ret es → Forall line_fits es →
  ∃ files' iv' v', index_pairs rec avs (IxState files iv n v0)
    = Ret (IxState files' iv' (n + Z.of_nat (length es)) v') ∧ grown files es files'.
Proof.
  induction avs as [|av avs IH]; intros files iv n v0 es Hr Hc He Hf; cbn [record_entries Index.index_pairs] in *.
  { injection He as <-. exists files, iv, v0. rewrite Z.add_0_r. split; [done|apply grown_refl]. }
  apply Forall_cons in Hc as [Hc1 Hc]. destruct (pair_entries rec av) as [l| |] eqn:El; [|done..].
  cbn [mbind outcome_bind] in He. destruct (record_entries rec avs) as [es'| |]; [|done..].
  injection He as <-. apply Forall_app in Hf as [Hf1 Hf2].
  destruct (index_pair_entries rec av files iv n v0 l Hr Hc1 El Hf1) as (f1 & iv1 & v1 & -> & G1).
  cbn [mbind outcome_bind].
  destruct (IH f1 iv1 (n + Z.of_nat (length l)) v1 es' (grown_ready _ _ _ G1 Hr)
    ltac:(eapply Forall_impl; [exact Hc|]; intros; by eapply covered_grown) eq_refl Hf2)
    as (f2 & iv2 & v2 & -> & G2).
  exists f2, iv2, v2. rewrite length_app, Nat2Z.inj_add, Z.add_assoc. split; [done|by eapply grown_trans].
Qed.

Lemma record_entries_none rec avs es :
  Forall (λ av, covered [] (types_of (attr_index (av_attr av)))) avs →
  record_entries rec avs = Ret es → es = [].
Proof.
  revert es. induction avs as [|av avs IH]; intros es Hc; cbn [record_entries]; [by intros [= <-]|].
  apply Forall_cons in Hc as [Hc1 Hc].
  assert (pair_entries rec av = Ret []) as ->.
  { unfold pair_entries. destruct (av_value av); [|done].
    destruct (types_of _); [done|]. apply Forall_cons in Hc1 as [[]%elem_of_nil _]. }
  cbn [mbind outcome_bind]. destruct (record_entries rec avs) as [es'| |]; [|done..].
  intros [= <-]. by apply IH.
Qed.

Lemma index_record_grown rec aa files es :
  aa_schema aa ≠ None → ready files →
  Forall (λ av, covered files (types_of (attr_index (av_attr av)))) (av_pair_list rec) →
  record_entries rec (av_pair_list rec) = Ret es → Forall line_fits es →
  ∃ files', index_record rec aa files = Ret (Z.of_nat (length es), true, files') ∧
            grown files es files'.
Proof.
  intros Hs Hr Hc He Hf. unfold Index.index_record. destruct (aa_schema aa); [|done].
  destruct (bool_decide (av_pair_list rec = []) || bool_decide (files = [])) eqn:E.
  - assert (es = []) as ->.
    { apply orb_true_iff in E as [E%bool_decide_eq_true|E%bool_decide_eq_true].
      - rewrite E in He. by injection He.
      - subst. by eapply record_entries_none. }
    exists files. split; [done|apply grown_refl].
  - destruct (index_pairs_entries rec _ files None 0 [] es Hr Hc He Hf) as (f' & iv & v & -> & G).
    by exists f'.
Qed.
End RecordLines.

(** an entry whose item has a text form of at most MAX_LINE bytes *)
Definition entry_ok (e : attr_index_type * index_struct) : Prop :=
  item_ok e.2 ∧ ∃ s, index_line e.2 = Ret s ∧ (length s ≤ MAX_LINE)%nat.

Lemma entry_ok_line e :
  entry_ok e → ∃ s, write_index_line e.2 = Ret (s ++ [NL]) ∧
                    ∀ it0, decode_index_line s it0 = Ret (true, e.2).
Proof.
  intros (Hok & s & Hs & Hl). exists s. split; [|intros it0; by apply decode_line].
  destruct (write_index_line_spec _ Hok) as (s' & Hs' & _ & ->).
  assert (s' = s) as -> by congruence. by rewrite decide_True.
Qed.

Lemma entry_ok_fits e : entry_ok e → line_fits e.
Proof. intros (l & Hw & _)%entry_ok_line. by exists (l ++ [NL]). Qed.

(** C24: index_record writes one line for every key that the indexed attributes
    of a record have, to the file of its type and in order; the lines decode to
    the items, their number is returned, and no other text changes. *)
Theorem index_record_correct regexec metaphone ni0 fopen_ok rec aa files es :
  aa_schema aa ≠ None → ready fopen_ok files →
  Forall (λ av, covered files (types_of (attr_index (av_attr av)))) (av_pair_list rec) →
  record_entries regexec metaphone ni0 rec (av_pair_list rec) = Ret es →
  Forall entry_ok es →
  ∃ files', index_record regexec metaphone ni0 fopen_ok rec aa files
              = Ret (Z.of_nat (length es), true, files') ∧
            Forall2 (λ f f', ifp_type f' = ifp_type f ∧
                             ifp_text f' = ifp_text f ++ file_text (ifp_type f) es) files files' ∧
            Forall (λ e, ∃ s, write_index_line e.2 = Ret (s ++ [NL]) ∧
                              ∀ it0, decode_index_line s it0 = Ret (true, e.2)) es.
Proof.
  intros Hs Hr Hc He Hf.
  destruct (index_record_grown regexec metaphone ni0 fopen_ok rec aa files es Hs Hr Hc He)
    as (files' & -> & G); [by eapply Forall_impl; [|apply entry_ok_fits]|].
  exists files'. split; [done|]. split; [|eapply Forall_impl; [exact Hf|apply entry_ok_line]].
  eapply Forall2_impl; [exact G|]. by intros x y (? & _ & _ & ?).
Qed.

(** a host with a network that is indexed in all three ways *)
Definition demo_network : attribute_struct :=
  Attribute 7 1 true false false false false false [] ($"IP-Network") None INDEX_ALL TYPE_TEXT None.
Definition demo_host : record_struct :=
  Record_ (Class_ 0 ($"host") [] ($"db") None [demo_attr 2 ($"Host-Name"); demo_network] None None None)
    (AuthArea ($"a.com") (Some (Schema [] [])) AUTH_AREA_PRIMARY None no_soa None None None None 0 None None) 3 0 120
    [AvPair (demo_attr 2 ($"Host-Name")) (Some $"WWW"); AvPair demo_network (Some $"192.0.2.0/24")].
Definition demo_file (t : mkdb_file_type) : index_fp_struct := IndexFp t false ($"i") ($"i.tmp") [] [].
Definition demo_ni : netinfo := NetInfo 0 0 (replicate 16 0).

Lemma index_record_correct_witness :
  let es := match record_entries (λ _ _, true) (λ w, w) demo_ni demo_host (av_pair_list demo_host) with
            | Ret es => es | _ => [] end in
  let files := demo_file <$> [MKDB_EXACT_INDEX_FILE; MKDB_CIDR_INDEX_FILE; MKDB_SOUNDEX_INDEX_FILE] in
  length es = 3%nat ∧
  ∃ files', index_record (λ _ _, true) (λ w, w) demo_ni (λ _, true) demo_host (rec_auth_area demo_host) files
              = Ret (Z.of_nat (length es), true, files') ∧
            Forall2 (λ f f', ifp_type f' = ifp_type f ∧
                             ifp_text f' = ifp_text f ++ file_text (ifp_type f) es) files files' ∧
            Forall (λ e, ∃ s, write_index_line e.2 = Ret (s ++ [NL]) ∧
                              ∀ it0, decode_index_line s it0 = Ret (true, e.2)) es.
Proof.
  intros es files. split; [vm_compute; reflexivity|].
  apply (index_record_correct (λ _ _, true) (λ w, w) demo_ni (λ _, true) demo_host
           (rec_auth_area demo_host) files es).
  - discriminate.
  - split; [apply (bool_decide_unpack (NoDup _)); vm_compute; exact I|].
    repeat (constructor; [by right|]). constructor.
  - apply (bool_decide_unpack _). vm_compute. exact I.
  - vm_compute. reflexivity.
  - vm_compute in es. subst es.
    repeat (constructor; [split; [split; try (split; vm_compute; congruence); eexists;
      split; [reflexivity|apply (bool_decide_unpack (_ ∧ _)); vm_compute; exact I]
      |eexists; split; [vm_compute; reflexivity|vm_compute; lia]]|]). constructor.
Defined.

(** ** The loop over the data files *)


Section DataFiles.
Context (regexec : cstr → cstr → bool) (metaphone : cstr → cstr) (ni0 : netinfo)
        (fopen_ok : cstr → bool) (check_record : record_check)
        (fs : cstr → option cstr) (c : class_struct) (aa : auth_area_struct) (validate_flag : Z).

Abbreviation index_data_file := (λ d files,
  index_data_file regexec metaphone ni0 fopen_ok check_record fs c aa d files validate_flag).
Abbreviation index_files_loop := (λ fuel s,
  index_files_loop regexec metaphone ni0 fopen_ok check_record fuel fs c aa validate_flag s).

(** the data files one after the other: the numbers of lines, the files with
    their record counts, the index files *)
Fixpoint index_each (ds : list file_struct) (files : list index_fp_struct) :
    outcome (list Z * list file_struct * list index_fp_struct) :=
  match ds with
  | [] => Ret ([], [], files)
  | d :: ds =>
      '(n, status, d, files) ← index_data_file d files;
      if status : bool then
        '(ns, ds, files) ← index_each ds files; Ret (n :: ns, d :: ds, files)
      else Fault
  end.
Definition sum_Z : list Z → Z := foldr Z.add 0.

Lemma index_files_loop_each ds : ∀ fuel l d del n files ns ds' files',
  (length ds ≤ fuel)%nat →
  index_each (d :: ds) files = Ret (ns, ds', files') → Forall (λ k, k ≠ 0) ns →
  ∃ z, index_files_loop (S fuel) (IfState (Some (l, d, ds)) del n files)
         = Ret (true, IfState z del (n + sum_Z ns) files') ∧ z_list z = l ++ ds'.
Proof.
  induction ds as [|d2 ds IH]; intros fuel l d del n files ns ds' files' Hfuel He Hn;
    cbn [index_each] in He; cbn [Index.index_files_loop data_files if_files];
    destruct (Index.index_data_file _ _ _ _ _ _ _ _ d _ _) as [[[[k st] d'] f1]| |]; try done;
    cbn [mbind outcome_bind] in He |- *; destruct st; try done; cbn [negb].
  - injection He as <- <- <-. apply Forall_cons in Hn as [Hk _].
    rewrite (proj2 (Z.eqb_neq _ _)) by done. cbn [put_value data_files].
    eexists. cbn. rewrite Z.add_0_r. split; [done|]. done.
  - destruct (Index.index_data_file _ _ _ _ _ _ _ _ d2 _ _) as [[[[k2 st2] d2'] f2]| |] eqn:E2; try done.
    cbn [mbind outcome_bind] in He. destruct st2; [|done].
    destruct (index_each ds f2) as [[[ns2 ds2] f3]| |] eqn:E3; [|done..].
    injection He as <- <- <-. apply Forall_cons in Hn as [Hk Hn].
    rewrite (proj2 (Z.eqb_neq _ _)) by done. cbn [put_value data_files DL.z_next].
    destruct fuel as [|fuel]; [cbn in Hfuel; lia|].
    destruct (IH fuel (l ++ [d']) d2 del (n + k) f1 (k2 :: ns2) (d2' :: ds2) f3)
      as (z & Hz & Hl); [cbn in Hfuel; lia| |done|].
    { cbn [index_each]. rewrite E2. cbn [mbind outcome_bind]. by rewrite E3. }
    exists z. cbn [delete_list index_num_recs if_files]. rewrite Hz. split.
    + do 3 f_equal. cbn. lia.
    + by rewrite Hl, <-app_assoc.
Qed.

(** The loop of index_files over data files that all have something to
    index goes through them once, in order, within as many steps as there are
    files; it returns the sum of their line counts and deletes none. *)
Theorem index_files_loop_correct d ds files ns ds' files' :
  index_each (d :: ds) files = Ret (ns, ds', files') → Forall (λ k, k ≠ 0) ns →
  ∃ z, index_files_loop (S (length ds)) (IfState (Some ([], d, ds)) [] 0 files)
         = Ret (true, IfState z [] (sum_Z ns) files') ∧ z_list z = ds'.
Proof. intros He Hn. exact (index_files_loop_each ds _ [] d [] 0 files ns ds' files' (le_n _) He Hn). Qed.

(** After a data file without index lines the loop skips the next data
    file, because dl_list_delete has moved the cursor to it and dl_list_next
    moves on: that file stays in the list as indexed, the status is TRUE, but
    nothing of it is read, whatever it holds. *)
Theorem index_files_loop_skips d1 d1' d2 del n files files' fuel :
  index_data_file d1 files = Ret (0, true, d1', files') →
  index_files_loop (S fuel) (IfState (Some ([], d1, [d2])) del n files)
  = Ret (true, IfState (Some ([], d2, [])) (del ++ [d1']) n files').
Proof. intros H. cbn. by rewrite H. Qed.
End DataFiles.

Definition demo_unindexed (name : cstr) : file_struct := File MKDB_DATA_FILE name 1 0 0 false None.
Definition demo_disk : cstr → option cstr := λ name,
  if decide (name = $"empty") then Some [] else Some ($"Auth-Area:a.com" ++ [NL] ++ $"Class-Name:host" ++ [NL]
    ++ $"Host-Name:www" ++ [NL]).
Definition demo_hosts : class_struct :=
  Class_ 0 ($"host") [] ($"db") None
    [demo_attr 0 ($"Class-Name"); demo_attr 1 ($"Auth-Area"); demo_attr 2 ($"Host-Name")] None None None.
Definition demo_aa : auth_area_struct := AuthArea ($"a.com") (Some (Schema [demo_hosts] [])) AUTH_AREA_PRIMARY None no_soa None None None None 0 None None.

Lemma index_files_loop_correct_witness :
  let files := [demo_file MKDB_EXACT_INDEX_FILE] in
  let run := index_each (λ _ _, true) (λ w, w) demo_ni (λ _, true) no_check demo_disk demo_hosts
               demo_aa 0 [demo_unindexed ($"one"); demo_unindexed ($"two")] files in
  match run with
  | Ret (ns, ds', files') => ns = [3; 3] ∧
      ∃ z, index_files_loop (λ _ _, true) (λ w, w) demo_ni (λ _, true) no_check 2 demo_disk
             demo_hosts demo_aa 0 (IfState (Some ([], demo_unindexed ($"one"), [demo_unindexed ($"two")])) [] 0 files)
           = Ret (true, IfState z [] (sum_Z ns) files') ∧ z_list z = ds'
  | _ => False
  end.
Proof.
  intros files run. destruct run as [[[ns ds'] files']| |] eqn:E; [|vm_compute in E; discriminate E..].
  assert (ns = [3; 3]) as Hn by (vm_compute in E; congruence). split; [exact Hn|].
  apply (index_files_loop_correct (λ _ _, true) (λ w, w) demo_ni (λ _, true) no_check demo_disk
    demo_hosts demo_aa 0 (demo_unindexed ($"one")) [demo_unindexed ($"two")] files ns ds' files' E).
  rewrite Hn. repeat constructor; discriminate.
Defined.

Lemma index_files_loop_skips_witness :
  let files := [demo_file MKDB_EXACT_INDEX_FILE] in
  let loop fuel := index_files_loop (λ _ _, true) (λ w, w) demo_ni (λ _, true) no_check fuel
                     demo_disk demo_hosts demo_aa 0 in
  loop 2%nat (IfState (Some ([], demo_unindexed ($"empty"), [demo_unindexed ($"two")])) [] 0 files)
  = Ret (true, IfState (Some ([], demo_unindexed ($"two"), [])) [demo_unindexed ($"empty")] 0 files).
Proof.
  intros files loop.
  apply (index_files_loop_skips (λ _ _, true) (λ w, w) demo_ni (λ _, true) no_check demo_disk
    demo_hosts demo_aa 0 (demo_unindexed ($"empty")) (demo_unindexed ($"empty")) (demo_unindexed ($"two")) [] 0 files files 1).
  vm_compute. reflexivity.
Defined.
