(* ===== verification/Metaphone.v ===== *)
(** * The phonetic code of a word (mkdb/metaphon.c)

    metaphone is called by the soundex index with the flag GENERATE; the
    comparing mode is not used and not modelled.  The code reads a table by
    letter without checking that the character is one, and looks back from the
    start of its buffer: what such a read gives is a part of the model, the
    record [memory], which either answers or faults. *)

From S2P Require Import Prelude CLib CString Misc DlList IpNetwork Types Stdio FilePath IndexLine.
From S2P Require Import Records Index.
Local Open Scope Z_scope.

Definition MAXMETAPH : nat := 5.

(** reads outside of vsvfn, by the index from its start, and in front of the
    buffer ntrans; [None] is a fault *)
Record memory := Memory { around_table : Z → option Z; before_word : Z → option ascii }.
Definition strict : memory := Memory (λ _, None) (λ _, None).

Definition vsvfn : list Z :=
  [1; 16; 4; 16; 9; 2; 4; 16; 9; 2; 0; 2; 2; 2; 1; 4; 0; 2; 4; 4; 1; 0; 0; 0; 8; 0].

(** short-circuit operators on conditions that read memory *)
Definition andM (a b : outcome bool) : outcome bool := x ← a; if x : bool then b else Ret false.
Definition orM (a b : outcome bool) : outcome bool := x ← a; if x : bool then Ret true else b.
Definition notM (a : outcome bool) : outcome bool := x ← a; Ret (negb x).
Infix "<&&>" := andM (at level 40, left associativity) : cstr_scope.
Infix "<||>" := orM (at level 50, left associativity) : cstr_scope.

Section Code.
Context (mem : memory).

Definition coded (bit : Z) (x : ascii) : outcome bool :=
  let i := code x - 65 in
  v ← of_option (if (0 <=? i) && (i <? 26) then vsvfn !! Z.to_nat i else around_table mem i);
  Ret (negb (Z.land v bit =? 0)).
Definition vowel : ascii → outcome bool := coded 1.
Definition same : ascii → outcome bool := coded 2.
Definition varson : ascii → outcome bool := coded 4.
Definition frontv : ascii → outcome bool := coded 8.
Definition noghf : ascii → outcome bool := coded 16.

(** the letters of the word in upper case, as many as ntrans holds *)
Definition letters (word : cstr) : cstr :=
  take 509 (toupper <$> filter (λ c, isalpha c = true) word).

Section Word.
(** ntrans up to the padding, the end and the start of the word in it *)
Context (w : cstr) (n_end n_start : Z).

Definition ch (i : Z) : outcome ascii :=
  if i <? 0 then of_option (before_word mem i) else of_option (w !! Z.to_nat i).
Definition eqc (i : Z) (c : ascii) : outcome bool := x ← ch i; Ret (x =c c).
Definition at_ (i : Z) (p : ascii → outcome bool) : outcome bool := x ← ch i; p x.

Definition emit (c : ascii) : outcome cstr := Ret [c].

(** the switch on the letter at [n]; [true] sets KSflag *)
Definition translate (n : Z) (c : ascii) : outcome (cstr * bool) :=
  if (c =c "X"%char) && negb (n =? n_start) then Ret (["K"%char], true)
  else
    l ← (if c =c "B"%char then
           b ← (if n <? n_end then Ret true else notM (eqc (n - 1) "M"));
           Ret (if b : bool then [c] else [])
         else if c =c "C"%char then
           b ← notM (eqc (n - 1) "S") <||> notM (at_ (n + 1) frontv);
           if negb b then Ret []
           else
             ia ← eqc (n + 1) "I" <&&> eqc (n + 2) "A";
             if ia : bool then emit "X"
             else
               f ← at_ (n + 1) frontv;
               if f : bool then emit "S"
               else
                 h ← eqc (n + 1) "H";
                 if h : bool then
                   k ← (if n =? n_start then notM (at_ (n + 2) vowel) else Ret false)
                       <||> eqc (n - 1) "S";
                   emit (if k : bool then "K" else "X")
                 else emit "K"
         else if c =c "D"%char then
           j ← eqc (n + 1) "G" <&&> at_ (n + 2) frontv; emit (if j : bool then "J" else "T")
         else if c =c "G"%char then
           b ← (notM (eqc (n + 1) "H") <||> at_ (n + 2) vowel)
               <&&> (notM (eqc (n + 1) "N")
                     <||> (if n + 1 <? n_end then notM (eqc (n + 2) "E") <||> notM (eqc (n + 3) "D")
                           else Ret false))
               <&&> (notM (eqc (n - 1) "D") <||> notM (at_ (n + 1) frontv));
           if b : bool then
             j ← at_ (n + 1) frontv <&&> notM (eqc (n + 2) "G"); emit (if j : bool then "J" else "K")
           else
             f ← eqc (n + 1) "H" <&&> notM (at_ (n - 3) noghf) <&&> notM (eqc (n - 4) "H");
             Ret (if f : bool then ["F"%char] else [])
         else if c =c "H"%char then
           b ← notM (at_ (n - 1) varson) <&&> (notM (at_ (n - 1) vowel) <||> at_ (n + 1) vowel);
           Ret (if b : bool then ["H"%char] else [])
         else if c =c "K"%char then
           b ← eqc (n - 1) "C"; Ret (if b : bool then [] else ["K"%char])
         else if c =c "P"%char then
           h ← eqc (n + 1) "H"; emit (if h : bool then "F" else "P")
         else if c =c "Q"%char then emit "K"
         else if c =c "S"%char then
           b ← eqc (n + 1) "H" <||> (eqc (n + 1) "I" <&&> (eqc (n + 2) "O" <||> eqc (n + 2) "A"));
           emit (if b : bool then "X" else "S")
         else if c =c "T"%char then
           b ← eqc (n + 1) "I" <&&> (eqc (n + 2) "O" <||> eqc (n + 2) "A");
           if b : bool then emit "X"
           else
             h ← eqc (n + 1) "H";
             if h : bool then emit "O"
             else
               t ← notM (eqc (n + 1) "C") <||> notM (eqc (n + 2) "H");
               Ret (if t : bool then ["T"%char] else [])
         else if c =c "V"%char then emit "F"
         else if (c =c "W"%char) || (c =c "Y"%char) then
           b ← at_ (n + 1) vowel; Ret (if b : bool then [c] else [])
         else if c =c "X"%char then emit "S"
         else if c =c "Z"%char then emit "S"
         else Ret []);
    Ret (l, false).

(** the loop over the letters; [metaph] is the code so far *)
Fixpoint code_loop (fuel : nat) (n : Z) (KSflag : bool) (metaph : cstr) : outcome cstr :=
  match fuel with
  | O => NoFuel
  | S fuel =>
      if (n <=? n_end) && (length metaph <? MAXMETAPH)%nat then
        c ← ch n;
        if KSflag then code_loop fuel (n + 1) false (metaph ++ [c])
        else
          p ← ch (n - 1);
          if (p =c c) && negb (c =c "C"%char) then code_loop fuel (n + 1) false metaph
          else
            s ← same c <||> (if n =? n_start then vowel c else Ret false);
            '(l, ks) ← (if s : bool then Ret ([c], false) else translate n c);
            code_loop fuel (n + 1) ks (metaph ++ l)
      else Ret metaph
  end.
End Word.

(** the silent letters at the start: the buffer from its first letter on, and
    how many of them are gone *)
Definition strip_start (l : cstr) : cstr * nat :=
  match l with
  | a :: b :: l' =>
      if ((a =c "P"%char) || (a =c "K"%char) || (a =c "G"%char)) && (b =c "N"%char)
         || (a =c "A"%char) && (b =c "E"%char)
         || (a =c "W"%char) && (b =c "R"%char)
      then (NUL :: b :: l', 1%nat)
      else if (a =c "W"%char) && (b =c "H"%char) then (NUL :: a :: l', 1%nat)
      else if a =c "X"%char then ("S"%char :: b :: l', 0%nat)
      else (l, 0%nat)
  | [a] => (if a =c "X"%char then ["S"%char] else l, 0%nat)
  | [] => ([], 0%nat)
  end.

(** [None] is the return of [Error_], which leaves the result as it was *)
Definition metaphone (word : cstr) : outcome (option cstr) :=
  let l := letters word in
  if bool_decide (l = []) then Ret None
  else
    let '(l, k) := strip_start l in
    let n_end := Z.of_nat (S (length l)) in
    let n_start := Z.of_nat (S k) in
    metaph ← code_loop (NUL :: l ++ [NUL; NUL]) n_end n_start (S (S (length l))) n_start false [];
    Ret (Some metaph).
End Code.


(** ** The code is bounded whatever lies around the arrays *)

(** a memory where the stray reads give something *)
Definition answering (mem : memory) : Prop :=
  (∀ i, is_Some (around_table mem i)) ∧ (∀ i, is_Some (before_word mem i)).

(** what a code is made of: letters, or the byte that ends the word *)
Definition code_char (c : ascii) : Prop := isupper c = true ∨ c = NUL.

Section Bounded.
Context (mem : memory) (Hmem : answering mem).
Context (w : cstr) (n_end n_start : Z).
(** the word ends at [n_end], where a padding of two bytes begins *)
Context (Hw : Z.of_nat (length w) = n_end + 2) (Hend : w !! Z.to_nat n_end = Some NUL).
Context (Hchars : Forall code_char w).

Abbreviation ok := (returns (λ _ : bool, True)).

Lemma ok_coded bit x : ok (coded mem bit x).
Proof.
  unfold coded. set (i := code x - 65).
  assert (is_Some (if (0 <=? i) && (i <? 26) then vsvfn !! Z.to_nat i else around_table mem i)) as [v ->].
  { destruct (_ && _) eqn:E; [|apply Hmem]. apply lookup_lt_is_Some_2. cbn. lia. }
  by apply returns_Ret.
Qed.

Lemma ok_ch i : i < n_end + 2 → returns (λ _, True) (ch mem w i).
Proof.
  intros Hi. unfold ch. destruct (Z.ltb_spec i 0).
  - destruct Hmem as [_ H']. destruct (H' i) as [c ->]. by apply returns_Ret.
  - destruct (lookup_lt_is_Some_2 w (Z.to_nat i)) as [c ->]; [lia|]. by apply returns_Ret.
Qed.

Lemma ok_eqc i c : i < n_end + 2 → ok (eqc mem w i c).
Proof. intros Hi. eapply returns_bind; [by apply ok_ch|]. intros. by apply returns_Ret. Qed.
Lemma ok_at i p : i < n_end + 2 → (∀ x, ok (p x)) → ok (at_ mem w i p).
Proof. intros Hi Hp. eapply returns_bind; [by apply ok_ch|]. auto. Qed.
Lemma ok_and a b : ok a → ok b → ok (a <&&> b).
Proof. intros Ha Hb. eapply returns_bind; [exact Ha|]. intros [] _; [done|by apply returns_Ret]. Qed.
Lemma ok_or a b : ok a → ok b → ok (a <||> b).
Proof. intros Ha Hb. eapply returns_bind; [exact Ha|]. intros [] _; [by apply returns_Ret|done]. Qed.
Lemma ok_not a : ok a → ok (notM a).
Proof. intros Ha. eapply returns_bind; [exact Ha|]. intros. by apply returns_Ret. Qed.
Lemma ok_if (b : bool) (m m' : outcome bool) : (b = true → ok m) → (b = false → ok m') → ok (if b then m else m').
Proof. destruct b; auto. Qed.
Lemma ok_bool (b : bool) : ok (Ret b).
Proof. by apply returns_Ret. Qed.

Hint Resolve ok_and ok_or ok_not ok_if ok_bool ok_eqc ok_at ok_coded : returns.
Hint Extern 1 (_ < _) => lia : returns.
Hint Unfold vowel same varson frontv noghf : returns.

Definition good_piece (x : cstr * bool) : Prop := (length x.1 ≤ 1)%nat ∧ Forall code_char x.1.
Definition good_letters (l : cstr) : Prop := (length l ≤ 1)%nat ∧ Forall code_char l.

Ltac good := split; [cbn; lia|repeat constructor; by left].

Lemma ok_translate n c :
  1 ≤ n < n_end → isupper c = true → returns good_piece (translate mem w n_end n_start n c).
Proof.
  intros Hn Hc. unfold translate, vowel, varson, frontv, noghf, emit.
  destruct (_ && _); [apply returns_Ret; good|].
  apply (returns_bind good_letters); [|intros l [? ?]; by apply returns_Ret].
  assert (Forall code_char [c]) as Hcc by (constructor; [by left|constructor]).
  repeat match goal with
  | |- returns good_letters (if ?b then _ else _) =>
      first [is_var b; destruct b | destruct b eqn:?]
  | |- returns good_letters (Ret _) =>
      apply returns_Ret; repeat case_match;
      first [by split; [cbn; lia|] | good | by split; [cbn; lia|constructor]]
  | |- returns good_letters (_ ≫= _) =>
      eapply (returns_bind (λ _ : bool, True)); [solve [eauto 30 with returns]|intros [] _]
  end.
Qed.

(** the letters of the word are between its start and its end *)
Context (Hstart : 1 ≤ n_start).
Context (Hin : ∀ i c, n_start ≤ i < n_end → w !! Z.to_nat i = Some c → isupper c = true).

Lemma translate_end n : translate mem w n_end n_start n NUL = Ret ([], false).
Proof. done. Qed.

Definition good_code (l : cstr) : Prop := (length l ≤ MAXMETAPH)%nat ∧ Forall code_char l.

Lemma ok_code_loop fuel : ∀ n ks metaph,
  n_start ≤ n ≤ n_end + 1 → n_end + 1 < n + Z.of_nat fuel → good_code metaph →
  returns good_code (code_loop mem w n_end n_start fuel n ks metaph).
Proof.
  induction fuel as [|fuel IH]; intros n ks metaph Hn Hf Hm; cbn [code_loop].
  { exfalso. lia. }
  destruct ((n <=? n_end) && (length metaph <? MAXMETAPH)%nat) eqn:E; [|by apply returns_Ret].
  apply andb_true_iff in E as [En%Z.leb_le Em%Nat.ltb_lt].
  destruct (lookup_lt_is_Some_2 w (Z.to_nat n)) as [c Hc]; [lia|].
  assert (ch mem w n = Ret c) as ->.
  { unfold ch. rewrite (proj2 (Z.ltb_ge n 0)) by lia. by rewrite Hc. }
  assert (code_char c) as Hcc by by eapply Forall_lookup_1 in Hchars.
  assert (∀ l, (length l ≤ 1)%nat → Forall code_char l → good_code (metaph ++ l)) as Happ.
  { intros l Hl Hcl. destruct Hm as [_ Hm]. split; [rewrite length_app; unfold MAXMETAPH in *; lia|].
    by apply Forall_app. }
  cbn [mbind outcome_bind]. destruct ks.
  { apply IH; [lia|lia|]. apply Happ; [done|by constructor]. }
  apply (returns_bind (λ _, True)); [apply ok_ch; lia|]. intros p _.
  destruct (_ && _); [by apply IH; [lia|lia|]|].
  apply (returns_bind (λ _ : bool, True)).
  { apply ok_or; [apply ok_coded|]. apply ok_if; intros _; [apply ok_coded|by apply returns_Ret]. }
  intros b _. apply (returns_bind good_piece).
  - destruct b; [apply returns_Ret; split; [cbn; lia|by constructor]|].
    destruct (decide (n = n_end)) as [->|].
    + assert (c = NUL) as -> by congruence. rewrite translate_end. apply returns_Ret.
      split; [cbn; lia|constructor].
    + apply ok_translate; [lia|]. apply (Hin n); [lia|done].
  - intros [l ks] [Hl Hcl]. cbn in Hl, Hcl. apply IH; [lia|lia|by apply Happ].
Qed.

Lemma translate_length n c l ks :
  1 ≤ n < n_end → isupper c = true → translate mem w n_end n_start n c = Ret (l, ks) → (length l ≤ 1)%nat.
Proof.
  intros Hn Hc E. destruct (ok_translate n c Hn Hc) as ([l' ks'] & E' & Hl & _). rewrite E in E'; by injection E' as <- <-.
Qed.

Lemma cstring_stop l : (length (cstring (l ++ [NUL])) ≤ length l)%nat.
Proof.
  unfold cstring. induction l as [|c l IH]; [vm_compute; lia|]. simpl. destruct (negb _); simpl; lia.
Qed.
Lemma cstring_length l : (length (cstring l) ≤ length l)%nat.
Proof.
  unfold cstring. induction l as [|c l IH]; [vm_compute; lia|]. simpl. destruct (negb _); simpl; lia.
Qed.

(** every letter adds one character at most, the NUL behind the word none *)
Lemma code_loop_length fuel : ∀ n ks metaph r,
  n_start ≤ n ≤ n_end + 1 →
  (n ≤ n_end → Z.of_nat (length metaph) ≤ n - n_start) →
  Z.of_nat (length (cstring metaph)) ≤ n_end - n_start →
  code_loop mem w n_end n_start fuel n ks metaph = Ret r →
  Z.of_nat (length (cstring r)) ≤ n_end - n_start.
Proof.
  induction fuel as [|fuel IH]; intros n ks metaph r Hn Hm Hc; cbn [code_loop]; [done|].
  destruct (Z.leb_spec n n_end) as [Hle|]; cbn [andb]; [|by intros [= <-]].
  destruct (Nat.ltb_spec (length metaph) MAXMETAPH); [|by intros [= <-]].
  specialize (Hm Hle). intros Hr. apply bind_inv_Ret in Hr as (c & Hch & Hr).
  assert (w !! Z.to_nat n = Some c) as Hwn.
  { unfold ch in Hch. rewrite (proj2 (Z.ltb_ge n 0)) in Hch by lia.
    by apply of_option_Ret in Hch. }
  assert (∀ l ks', (n < n_end → (length l ≤ 1)%nat) → (n = n_end → l = [] ∨ l = [NUL]) →
    code_loop mem w n_end n_start fuel (n + 1) ks' (metaph ++ l) = Ret r →
    Z.of_nat (length (cstring r)) ≤ n_end - n_start) as Hstep.
  { intros l ks' Hl1 Hl2. destruct (decide (n = n_end)) as [->|].
    - apply IH; [lia|lia|]. destruct (Hl2 eq_refl) as [->| ->].
      + rewrite app_nil_r. done.
      + pose proof (cstring_stop metaph). lia.
    - specialize (Hl1 ltac:(lia)). apply IH; [lia|rewrite length_app; lia|].
      pose proof (cstring_length (metaph ++ l)) as Hcl. rewrite length_app in Hcl. lia. }
  assert (n = n_end → c = NUL) as HNUL by (intros E; rewrite E in Hwn; congruence).
  destruct ks; [eapply Hstep, Hr; [done|intros E; right; by rewrite (HNUL E)]|].
  apply bind_inv_Ret in Hr as (p & _ & Hr). destruct (_ && _).
  { rewrite <- (app_nil_r metaph) in Hr. eapply Hstep, Hr; [cbn; lia|by left]. }
  apply bind_inv_Ret in Hr as (b & _ & Hr). apply bind_inv_Ret in Hr as ([l ks'] & Hl & Hr).
  eapply Hstep, Hr.
  - intros Hlt. destruct b; [by injection Hl as <- _|].
    eapply translate_length; [..|exact Hl]; [lia|]. apply (Hin n); [lia|done].
  - intros E. rewrite (HNUL E) in Hl. destruct b; [injection Hl as <- _; by right|].
    rewrite translate_end in Hl. injection Hl as <- _. by left.
Qed.
End Bounded.

Definition upper_letters (l : cstr) : Prop := Forall (λ c, isupper c = true) l.

Lemma isalpha_toupper c : isalpha c = true → isupper (toupper c) = true.
Proof. revert c. by_ascii. Qed.
Lemma toupper_idem c : toupper (toupper c) = toupper c.
Proof. revert c. by_ascii. Qed.

Lemma letters_upper word : upper_letters (letters word).
Proof.
  unfold letters, upper_letters. apply Forall_take. rewrite Forall_fmap. apply Forall_forall.
  intros c [Hc _]%list_elem_of_filter. by apply isalpha_toupper.
Qed.

Lemma strip_start_spec l :
  l ≠ [] → upper_letters l →
  length (strip_start l).1 = length l ∧ ((strip_start l).2 < length l)%nat ∧
  upper_letters (drop (strip_start l).2 (strip_start l).1) ∧ Forall code_char (strip_start l).1.
Proof.
  intros Hne Hu. assert (∀ l, upper_letters l → Forall code_char l) as Hcc.
  { intros l' H. eapply Forall_impl; [exact H|]. by left. }
  destruct l as [|a [|b l]]; [done|..]; cbn [strip_start].
  - destruct (a =c _); cbn [fst snd drop];
      (split; [done|]; split; [cbn; lia|]; split; [|apply Hcc]); (done || by repeat constructor).
  - pose proof Hu as Hu'. apply Forall_cons in Hu' as [Ha Hu']. pose proof Hu' as Hu2.
    apply Forall_cons in Hu2 as [Hb Hl].
    repeat match goal with
    | |- context [if ?b then (?x, ?k) else ?y] => destruct b
    end; cbn [fst snd drop]; split_and!; try (cbn; lia); try done.
    + constructor; [by right|]. by apply Hcc.
    + by constructor.
    + constructor; [by right|]. apply Hcc. by constructor.
    + by constructor.
    + apply Hcc. by constructor.
    + by apply Hcc.
Qed.

(** the buffer that the loop of a word with letters runs on *)
Lemma loop_buffer word l k (w := NUL :: l ++ [NUL; NUL]) (n_end := Z.of_nat (S (length l))) :
  letters word ≠ [] → strip_start (letters word) = (l, k) →
  (k < length l)%nat ∧ length l = length (letters word) ∧
  Z.of_nat (length w) = n_end + 2 ∧ w !! Z.to_nat n_end = Some NUL ∧ Forall code_char w ∧
  (∀ i c, Z.of_nat (S k) ≤ i < n_end → w !! Z.to_nat i = Some c → isupper c = true).
Proof.
  intros Hne Es.
  destruct (strip_start_spec (letters word) Hne (letters_upper word)) as (Hlen & Hk & Hup & Hcc).
  rewrite Es in Hlen, Hk, Hup, Hcc. cbn [fst snd] in *. subst w n_end.
  split; [lia|]. split; [done|]. split; [cbn [length]; rewrite length_app; cbn [length]; lia|].
  split; [rewrite Nat2Z.id; cbn; by apply list_lookup_middle|]. split.
  - constructor; [by right|]. apply Forall_app. split; [done|]. repeat constructor; by right.
  - intros i c Hi Hc. destruct (Z.to_nat i) as [|j] eqn:Ej; [lia|].
    change ((l ++ [NUL; NUL]) !! j = Some c) in Hc.
    rewrite lookup_app_l in Hc by lia. unfold upper_letters in Hup. rewrite Forall_lookup in Hup.
    apply (Hup (j - k)%nat). rewrite lookup_drop. by replace (k + (j - k))%nat with j by lia.
Qed.

Lemma metaphone_total mem word :
  answering mem →
  if bool_decide (letters word = []) then metaphone mem word = Ret None
  else ∃ metaph, metaphone mem word = Ret (Some metaph) ∧ good_code metaph ∧
                 (length (cstring metaph) ≤ length word)%nat.
Proof.
  intros Hmem. unfold metaphone. case_bool_decide as Hne; [done|].
  destruct (strip_start (letters word)) as [l k] eqn:Es.
  destruct (loop_buffer word l k Hne Es) as (Hk & Hll & Hlw & Hend & Hw & Hin).
  destruct (ok_code_loop mem Hmem _ _ (Z.of_nat (S k)) Hlw Hend Hw ltac:(lia) Hin
    (S (S (length l))) (Z.of_nat (S k)) false []) as (metaph & E & Hg);
    [lia|lia|split; [cbn; lia|constructor]|].
  exists metaph. rewrite E. split; [done|]. split; [done|].
  eapply (code_loop_length mem Hmem) in E; [|done..|lia|done|lia|cbn; lia|cbn; lia].
  assert (length (letters word) ≤ length word)%nat; [|lia].
  unfold letters. rewrite length_take, length_fmap. pose proof (length_filter (λ c, isalpha c = true) word). lia.
Qed.

(** Metaphone ends for every word and writes at most MAXMETAPH characters,
    all of them upper case letters or the NUL behind the word, and no more
    letters than the word has, whatever its reads outside of the table and in
    front of its buffer give; only a word without letters is refused. *)
Theorem metaphone_bounded mem word :
  answering mem →
  if bool_decide (letters word = []) then metaphone mem word = Ret None
  else ∃ metaph, metaphone mem word = Ret (Some metaph) ∧ good_code metaph ∧
                 (length (cstring metaph) ≤ length word)%nat.
Proof. apply metaphone_total. Qed.

Definition zero_memory : memory := Memory (λ _, Some 0) (λ _, Some NUL).
Lemma zero_answering : answering zero_memory.
Proof. split; intros; by eexists. Qed.

Lemma metaphone_bounded_witness :
  ∃ metaph, metaphone zero_memory ($"Thompson") = Ret (Some metaph) ∧ good_code metaph ∧
            (length (cstring metaph) ≤ length ($"Thompson"))%nat.
Proof. exact (metaphone_bounded zero_memory ($"Thompson") zero_answering). Defined.

(** ** Reading outside of the table *)

Lemma translate_ks mem w n_end n_start n c l :
  translate mem w n_end n_start n c = Ret (l, true) → c = "X"%char.
Proof.
  unfold translate. destruct (c =c "X"%char) eqn:E; [by apply char_eqb_eq in E|].
  cbn [andb]. intros H. apply bind_inv_Ret in H as (x & _ & [=]).
Qed.

Lemma ch_in mem w i c : 0 ≤ i → ch mem w i = Ret c → w !! Z.to_nat i = Some c.
Proof. intros Hi. unfold ch. rewrite (proj2 (Z.ltb_ge i 0)) by lia. by intros ?%of_option_Ret. Qed.

Lemma strict_loop w n_end n_start fuel : ∀ n ks metaph m p,
  w !! Z.to_nat n_end = Some NUL → w !! Z.to_nat (n_end - 1) = Some p → p ≠ NUL → p ≠ "X"%char →
  1 ≤ n ≤ n_end → (ks = true → w !! Z.to_nat (n - 1) = Some "X"%char) →
  code_loop strict w n_end n_start fuel n ks metaph = Ret m → (MAXMETAPH ≤ length m)%nat.
Proof.
  induction fuel as [|fuel IH]; intros n ks metaph m p Hend Hp Hp0 Hpx Hn Hks; cbn [code_loop]; [done|].
  rewrite (proj2 (Z.leb_le n n_end)) by lia. destruct (Nat.ltb_spec (length metaph) MAXMETAPH); cbn [andb];
    [|by intros [= <-]].
  intros Hr. apply bind_inv_Ret in Hr as (c & Hc & Hr). apply ch_in in Hc; [|lia].
  destruct (decide (n = n_end)) as [->|Hne].
  - assert (c = NUL) as -> by congruence. destruct ks; [specialize (Hks eq_refl); congruence|].
    apply bind_inv_Ret in Hr as (p' & Hp' & Hr). apply ch_in in Hp'; [|lia].
    assert (p' = p) as -> by congruence. rewrite (proj2 (char_eqb_neq p NUL)) in Hr by done.
    cbn [andb] in Hr. by apply bind_inv_Ret in Hr as (s & Hs & _).
  - destruct ks; [eapply (IH (n + 1)); try done; lia|].
    apply bind_inv_Ret in Hr as (p' & Hp' & Hr). destruct (_ && _).
    { eapply (IH (n + 1)); try done; lia. }
    apply bind_inv_Ret in Hr as (s & Hs & Hr). apply bind_inv_Ret in Hr as ([l ks] & Ht & Hr).
    eapply (IH (n + 1)); try done; [lia|]. intros ->. replace (n + 1 - 1) with n by lia. rewrite Hc.
    f_equal. destruct s; [done|]. by eapply translate_ks.
Qed.

(** The loop runs on to the NUL behind the word and looks it up in the
    table of letters, 65 entries in front of its start.  For every word that
    does not end in X, a run that makes no such read has a complete code of
    MAXMETAPH letters: every shorter code is made with a read outside of the
    table. *)
Theorem metaphone_reads_outside word metaph :
  metaphone strict word = Ret (Some metaph) → last (letters word) ≠ Some "X"%char →
  (MAXMETAPH ≤ length metaph)%nat.
Proof.
  unfold metaphone. case_bool_decide as Hne; [done|]. intros H Hx.
  destruct (strip_start_spec (letters word) Hne (letters_upper word)) as (Hlen & Hk & Hup & _).
  assert (last (strip_start (letters word)).1 = Some "X"%char → last (letters word) = Some "X"%char) as Hlast.
  { destruct (letters word) as [|a [|b l]]; cbn [strip_start]; [done| |].
    - destruct (a =c _); [done|done].
    - repeat match goal with
      | |- context [if ?b then (?x, ?k) else ?y] => destruct b eqn:?
      end; cbn [fst]; destruct l; try done. cbn.
      intros [= ->]. repeat match goal with H : _ && _ = true |- _ => apply andb_true_iff in H as [? ?] end. done. }
  destruct (strip_start (letters word)) as [l k]. cbn [fst snd] in *.
  apply bind_inv_Ret in H as (m & H & [= <-]).
  destruct (last l) as [p|] eqn:Ep; [|apply last_None in Ep as ->; cbn in *; lia].
  rewrite last_lookup in Ep.
  eapply (strict_loop _ _ _ _ _ _ _ _ p); [| | | | | |exact H].
  - rewrite Nat2Z.id. change ((l ++ [NUL; NUL]) !! length l = Some NUL). by apply list_lookup_middle.
  - destruct l as [|a l]; [done|]. replace (Z.to_nat (Z.of_nat (S (length (a :: l))) - 1)) with (length (a :: l)) by lia.
    change (((a :: l) ++ [NUL; NUL]) !! pred (length (a :: l)) = Some p).
    by rewrite lookup_app_l by (cbn; lia).
  - unfold upper_letters in Hup. rewrite Forall_lookup in Hup. intros ->.
    assert (isupper NUL = true) as E; [|done]. apply (Hup (pred (length l) - k)%nat).
    rewrite lookup_drop. by replace (k + (pred (length l) - k))%nat with (pred (length l)) by lia.
  - intros ->. by apply Hx, Hlast.
  - lia.
  - done.
Qed.

Lemma metaphone_reads_outside_witness : (MAXMETAPH ≤ length ($"KMPTR"))%nat.
Proof. apply (metaphone_reads_outside ($"computers")); vm_compute; congruence. Defined.

(** ** Soundex keys *)

(** what the caller finds in its buffer, which it empties before each word *)
Definition soundex_code (mem : memory) (word : cstr) : cstr :=
  match metaphone mem word with Ret (Some metaph) => cstring metaph | _ => [] end.

Lemma elem_of_takewhile {A} (p : A → bool) (x : A) l : x ∈ takewhile p l → p x = true ∧ x ∈ l.
Proof.
  induction l as [|y l IH]; simpl; [by intros ?%elem_of_nil|].
  destruct (p y) eqn:E; [|by intros ?%elem_of_nil]. rewrite !elem_of_cons. intros [->|H]; [auto|].
  destruct (IH H). auto.
Qed.

Lemma soundex_code_spec mem word :
  answering mem → (length (soundex_code mem word) ≤ length word)%nat ∧ upper_letters (soundex_code mem word).
Proof.
  intros Hmem. unfold soundex_code.
  pose proof (metaphone_total mem word Hmem) as H. case_bool_decide; [rewrite H; split; [cbn; lia|constructor]|].
  destruct H as (m & -> & [_ Hc] & Hl). split; [done|].
  apply Forall_forall. intros c Hin. rewrite Forall_forall in Hc.
  apply elem_of_takewhile in Hin as [Hp Hin]. destruct (Hc c Hin) as [Hu| ->]; [done|].
  by rewrite char_eqb_refl in Hp.
Qed.

Definition key_char (c : ascii) : Prop := isupper c = true ∨ c = SP.
(** the bytes of the words with one between any two *)
Fixpoint words_length (argv : list cstr) : nat :=
  match argv with [] => O | w :: argv => (S (length w) + words_length argv)%nat end.

Lemma soundex_words_fits mem argv : ∀ (first : bool) buf,
  answering mem → (length buf + words_length argv < MAX_LINE + if first then 1 else 0)%nat →
  Forall key_char buf →
  ∃ r, soundex_words (soundex_code mem) argv first buf = Ret r ∧
       (length r ≤ length buf + words_length argv)%nat ∧ Forall key_char r.
Proof.
  induction argv as [|w argv IH]; intros first buf Hmem Hl Hb; cbn [soundex_words].
  { exists buf. split; [done|]. split; [lia|done]. }
  destruct (soundex_code_spec mem w Hmem) as [Hlw Hup]. cbn [words_length] in *.
  set (buf' := (if first then buf else buf ++ [SP]) ++ soundex_code mem w).
  assert (length buf' ≤ length buf + length w + if first then 0 else 1)%nat as Hlb.
  { subst buf'. rewrite length_app. destruct first; rewrite ?length_app; cbn [length]; lia. }
  rewrite decide_True by (destruct first; lia).
  destruct (IH false buf') as (r & -> & Hr & Hc); [done|destruct first; lia| |].
  - subst buf'. apply Forall_app. split.
    + destruct first; [done|]. apply Forall_app. split; [done|]. constructor; [by right|constructor].
    + eapply Forall_impl; [exact Hup|]. by left.
  - exists r. split; [done|]. split; [destruct first; lia|done].
Qed.

Lemma args_s_length fuel : ∀ (first : bool) r, (words_length (args_s fuel first r) ≤ S (length r))%nat.
Proof.
  induction fuel as [|fuel IH]; intros first r; [cbn; lia|].
  destruct r as [|c r']; [cbn; lia|]. set (r := c :: r').
  change (args_s (S fuel) first r) with
    ((if first then takewhile isspace r ++ takewhile nonspace (dropwhile isspace r)
      else takewhile nonspace (dropwhile isspace r))
     :: args_s fuel false (drop 1 (dropwhile nonspace (dropwhile isspace r)))).
  set (r1 := dropwhile isspace r). set (r2 := dropwhile nonspace r1).
  assert (length r = length (takewhile isspace r) + length (takewhile nonspace r1) + length r2)%nat as Hr.
  { rewrite <- (takewhile_dropwhile isspace r) at 1. fold r1. rewrite length_app.
    rewrite <- (takewhile_dropwhile nonspace r1) at 1. fold r2. rewrite length_app. lia. }
  cbn [words_length]. specialize (IH false (drop 1 r2)). rewrite length_drop in IH.
  destruct (decide (length r2 = 0)%nat) as [E|].
  - apply nil_length_inv in E. rewrite E in *. rewrite drop_nil.
    assert (args_s fuel false [] = []) as -> by by destruct fuel. cbn [words_length].
    destruct first; rewrite ?length_app; lia.
  - destruct first; rewrite ?length_app; lia.
Qed.

Lemma omap_length_le {A B} (f : A → option B) l : (length (omap f l) ≤ length l)%nat.
Proof. induction l as [|x l IH]; csimpl; [lia|]. destruct (f x); csimpl; lia. Qed.

Lemma strip_non_soundex_chars v : Forall (λ c, isalpha c || isspace c = true) (strip_non_soundex v).
Proof.
  unfold strip_non_soundex. apply Forall_forall. intros c Hc. apply list_elem_of_omap in Hc as (x & _ & Hx).
  destruct (isalpha x || isspace x) eqn:E; [congruence|]. destruct (iscntrl x); [done|].
  injection Hx as <-. done.
Qed.

Lemma soundex_char_plain c : isalpha c || isspace c = true → c ≠ NUL ∧ is_preserve c = false.
Proof.
  intros H. split; [by intros ->|]. revert c H. by_ascii.
Qed.

Lemma trim_s_sublist r : trim_s r `sublist_of` r.
Proof.
  unfold trim_s, ltrim_s, rtrim_s. etrans; [apply dropwhile_sublist|].
  destruct (rdropwhile_split isspace r) as (t & E & _). rewrite E at 2. by apply sublist_inserts_r.
Qed.

(** The soundex key of every value that fits a line is made, and without
    leaving the buffer of MAX_LINE bytes that the codes of its words are
    appended to without a check, whatever the stray reads of metaphone give:
    it is no longer than the value and holds only letters and blanks. *)
Theorem soundex_index_bound mem v :
  answering mem → (length v < MAX_LINE)%nat → strip_non_soundex v ≠ [] →
  ∃ key, soundex_index (soundex_code mem) v = Ret (Some key, strip_non_soundex v) ∧
         (length key ≤ S (length v))%nat ∧ Forall key_char key.
Proof.
  intros Hmem Hv Hne. pose proof (strip_non_soundex_chars v) as Hs. unfold soundex_index.
  assert (length (strip_non_soundex v) ≤ length v)%nat as Hlen by apply omap_length_le.
  assert (Forall (λ c, c ≠ NUL ∧ is_preserve c = false) (strip_non_soundex v)) as Hp.
  { eapply Forall_impl; [exact Hs|]. apply soundex_char_plain. }
  rewrite split_arg_list_unquoted; [|done| |eapply Forall_impl; [exact Hp|]; naive_solver].
  - set (argv := args_s _ _ _).
    assert (words_length argv ≤ S (length v))%nat as Hw.
    { etrans; [apply args_s_length|]. lia. }
    destruct (soundex_words_fits mem argv true [] Hmem) as (r & E & Hl & Hc); [cbn [length]; lia|constructor|].
    cbn [mbind outcome_bind]. rewrite E. cbn [mbind outcome_bind].
    exists (trim_s r). split; [done|]. pose proof (trim_s_sublist r) as Hsub. split.
    + apply sublist_length in Hsub. cbn [length] in Hl. lia.
    + apply Forall_forall. intros c Hin. rewrite Forall_forall in Hc. apply Hc.
      by eapply elem_of_sublist.
  - intros Hin. rewrite Forall_forall in Hp. by destruct (Hp NUL Hin).
Qed.

Lemma soundex_index_bound_witness :
  ∃ key, soundex_index (soundex_code zero_memory) ($"Network Solutions, Inc.")
         = Ret (Some key, strip_non_soundex ($"Network Solutions, Inc.")) ∧
         (length key ≤ 24)%nat ∧ Forall key_char key.
Proof.
  apply (soundex_index_bound zero_memory ($"Network Solutions, Inc."));
    [apply zero_answering|vm_compute; lia|vm_compute; congruence].
Defined.

(** An X inside a word is written as a K followed by the next letter of the
    word, where the algorithm asks for KS; at the end of the word it leaves a
    NUL, which ends the code. *)
Theorem metaphone_inner_x :
  metaphone zero_memory ($"Maxine") = Ret (Some ($"MKIN")) ∧
  metaphone zero_memory ($"Maksine") = Ret (Some ($"MKSN")) ∧
  metaphone zero_memory ($"Box") = Ret (Some ($"BK" ++ [NUL])).
Proof. split_and!; vm_compute; reflexivity. Qed.

(** Only the letters of a word count, and not their case. *)
Theorem metaphone_letters mem word : metaphone mem (letters word) = metaphone mem word.
Proof.
  assert (letters (letters word) = letters word) as E; [|by unfold metaphone; rewrite E].
  unfold letters. set (l := toupper <$> filter (λ c, isalpha c = true) word).
  assert (Forall (λ c, isalpha c = true ∧ toupper c = c) (take 509 l)) as H.
  { apply Forall_take. subst l. rewrite Forall_fmap. apply Forall_forall.
    intros c [Hc _]%list_elem_of_filter. cbn. split; [|apply toupper_idem].
    unfold isalpha. by rewrite (isalpha_toupper c Hc). }
  rewrite filter_all by (eapply Forall_impl; [exact H|]; by intros c []).
  assert (toupper <$> take 509 l = take 509 l) as ->.
  { clear -H. induction H as [|c s [_ Hc] _ IH]; [done|]. rewrite fmap_cons. congruence. }
  rewrite take_take. done.
Qed.
