(* ===== verification/FileInfo.v ===== *)
(** * The master file lists (mkdb/fileinfo.c)

    Each class of an authority area has a master file list, local.db, that
    names its data and index files.  It is changed by reading it, editing the
    list, writing the whole list to local.db.write and moving that into place.
    The files of the system are a function from names to contents; a call
    fails when the file it needs is missing (or there, for link) and not for
    other reasons.  A dl_list of files is a Rocq list. *)

From S2P Require Import Prelude CLib CString Misc IpNetwork Types Stdio FilePath Records.
From Stdlib Require Import Sorted.
Local Open Scope Z_scope.

(** ** Reading and writing file lists *)

Definition select_type (ftype : cstr) : mkdb_file_type :=
  if STR_EQ ftype ($"EXACT") || STR_EQ ftype ($"INDEX") || STR_EQ ftype ($"FIRST")
     || STR_EQ ftype ($"WORD_ONLY") then MKDB_EXACT_INDEX_FILE
  else if STR_EQ ftype ($"SOUNDEX") then MKDB_SOUNDEX_INDEX_FILE
  else if STR_EQ ftype ($"CIDR") then MKDB_CIDR_INDEX_FILE
  else if STR_EQ ftype ($"DATA") then MKDB_DATA_FILE
  else MKDB_NO_FILE.

Definition select_str_from_type (t : mkdb_file_type) : option cstr :=
  match t with
  | MKDB_EXACT_INDEX_FILE => Some $"EXACT"
  | MKDB_SOUNDEX_INDEX_FILE => Some $"SOUNDEX"
  | MKDB_CIDR_INDEX_FILE => Some $"CIDR"
  | MKDB_DATA_FILE => Some $"DATA"
  | _ => None
  end.

(** the zeroed struct; a null filename is the empty string *)
Definition no_file : file_struct := File MKDB_NO_FILE [] 0 0 0 false None.
Definition set_field (tag datum : cstr) (fi : file_struct) : file_struct :=
  let '(File t n no sz nr lk p) := fi in
  if STR_EQ tag ($"type") then File (select_type datum) n no sz nr lk p
  else if STR_EQ tag ($"file") then File t datum no sz nr lk p
  else if STR_EQ tag ($"num_recs") then File t n no sz (atoll datum) lk p
  else if STR_EQ tag ($"file_no") then File t n (atoi datum) sz nr lk p
  else if STR_EQ tag ($"size") then File t n no (atoll datum) nr lk p
  else if STR_EQ tag ($"lock") then File t n no sz nr (true_false datum) p
  else fi.

(** the loop of read_file_struct: the struct, whether every line was well
    formed, the position *)
Fixpoint read_fields (fuel : nat) (f : cstr) (pos : nat) (fi : file_struct) :
    outcome (file_struct * bool * nat) :=
  match fuel with
  | O => NoFuel
  | S fuel =>
      match readline f pos MAX_LINE with
      | None => Ret (fi, true, pos)
      | Some (line, pos) =>
          let '(is_new, line) := new_record (Some line) in
          if is_new : bool then Ret (fi, true, pos)
          else
            match parse_line line with
            | Some (tag, datum) => read_fields fuel f pos (set_field tag datum fi)
            | None => Ret (fi, false, pos)
            end
      end
  end.
Definition valid_file (fi : file_struct) : bool :=
  negb (bool_decide (filename fi = [])) && negb (bool_decide (file_type fi = MKDB_NO_FILE))
  && (0 <=? file_no fi).
Definition read_file_struct (f : cstr) (pos : nat) : outcome (option file_struct * nat) :=
  '(fi, well_formed, pos) ← read_fields (S (length f)) f pos no_file;
  Ret (if well_formed && valid_file fi then Some fi else None, pos).

(** the text that write_file_struct prints; a null string prints as (null) *)
Definition write_file_struct (fi : file_struct) (not_last : bool) : cstr :=
  text ([$"type:" ++ default ($"(null)") (select_str_from_type (file_type fi));
         $"file:" ++ filename fi;
         $"file_no:" ++ print_Z (file_no fi);
         $"size:" ++ print_Z (file_size fi);
         $"num_recs:" ++ print_Z (num_recs fi);
         $"lock:" ++ on_off (file_lock fi)] ++ if not_last then [$"---"] else []).

Fixpoint read_list_loop (fuel : nat) (f : cstr) (pos : nat) (file_list : list file_struct) :
    outcome (list file_struct) :=
  match fuel with
  | O => NoFuel
  | S fuel =>
      '(fi, pos) ← read_file_struct f pos;
      match fi with
      | None => Ret file_list
      | Some fi => read_list_loop fuel f pos (file_list ++ [fi])
      end
  end.
(** a missing file is an empty list *)
Definition read_file_list (fs : filesystem) (index_file : cstr) (file_list : list file_struct) :
    outcome (bool * list file_struct) :=
  match fs index_file with
  | None => Ret (true, file_list)
  | Some f => l ← read_list_loop (S (length f)) f 0 file_list; Ret (true, l)
  end.

Definition upd (fs : filesystem) (name : cstr) (f : option cstr) : filesystem :=
  λ n, if bool_decide (n = name) then f else fs n.
Fixpoint list_text (file_list : list file_struct) : cstr :=
  match file_list with
  | [] => []
  | fi :: file_list =>
      write_file_struct fi (negb (bool_decide (file_list = []))) ++ list_text file_list
  end.
Definition write_file_list (fs : filesystem) (name : cstr) (file_list : list file_struct) : filesystem :=
  upd fs name (Some (list_text file_list)).

(** ** Files *)

Definition file_exists (fs : filesystem) (name : cstr) : bool := bool_decide (is_Some (fs name)).
(** link and unlink: [None] is the failure *)
Definition unlink (fs : filesystem) (name : cstr) : option filesystem :=
  if file_exists fs name then Some (upd fs name None) else None.
Definition link (fs : filesystem) (old new : cstr) : option filesystem :=
  if file_exists fs old && negb (file_exists fs new) then Some (upd fs new (fs old)) else None.

Inductive master_inst_type := MFL_READ | MFL_WRITE | MFL_BACKUP.
Definition master_name (t : master_inst_type) : cstr :=
  match t with
  | MFL_READ => $"local.db" | MFL_WRITE => $"local.db.write" | MFL_BACKUP => $"local.db.bak"
  end.
(** the name is printed to an array of [size] bytes *)
Definition get_master_index_file (size : Z) (c : class_struct) (t : master_inst_type) : outcome cstr :=
  let name := db_dir c ++ SLASH :: master_name t in
  if decide (Z.of_nat (length name) < size) then Ret name else Fault.

Definition install_write_file_list (fs : filesystem) (c : class_struct) : outcome (bool * filesystem) :=
  r ← get_master_index_file (MAX_FILE + 1) c MFL_READ;
  w ← get_master_index_file (MAX_FILE + 1) c MFL_WRITE;
  b ← get_master_index_file (MAX_FILE + 1) c MFL_BACKUP;
  let fs := if file_exists fs b then default fs (unlink fs b) else fs in
  let fs := if file_exists fs r
            then match link fs r b with None => fs | Some fs => default fs (unlink fs r) end
            else fs in
  match link fs w r with
  | None => Ret (false, fs)
  | Some fs => match unlink fs w with None => Ret (false, fs) | Some fs => Ret (true, fs) end
  end.

Definition is_area_indexed (fs : filesystem) (c : class_struct) : outcome bool :=
  r ← get_master_index_file (MAX_FILE + 1) c MFL_READ;
  w ← get_master_index_file (MAX_FILE + 1) c MFL_WRITE;
  b ← get_master_index_file (MAX_FILE + 1) c MFL_BACKUP;
  Ret (file_exists fs r || file_exists fs b || file_exists fs w).

Definition get_file_list (fs : filesystem) (c : class_struct) (file_list : list file_struct) :
    outcome (bool * list file_struct) :=
  name ← get_master_index_file (MAX_FILE + 1) c MFL_READ;
  indexed ← is_area_indexed fs c;
  if negb indexed then Ret (true, file_list) else read_file_list fs name file_list.

Definition unlink_master_file_list (fs : filesystem) (c : class_struct) : outcome (bool * filesystem) :=
  r ← get_master_index_file MAX_FILE c MFL_READ;
  match unlink fs r with
  | None => Ret (false, fs)
  | Some fs =>
      w ← get_master_index_file MAX_FILE c MFL_WRITE;
      b ← get_master_index_file MAX_FILE c MFL_BACKUP;
      let fs := default fs (unlink fs w) in
      Ret (true, default fs (unlink fs b))
  end.

(** ** Editing a file list *)

(** int arithmetic on the last number *)
Definition next_file_no (file_list : list file_struct) : Z :=
  match last file_list with None => 0 | Some f => wrap 32 (file_no f + 1) end.

(** sscanf with literal characters and %d, as far as the first %d.  The
    templates of generate_index_file_basename have one; another conversion is
    not modelled and does not match. *)
Fixpoint sscanf_d (template s : cstr) : option Z :=
  match template with
  | [] => None
  | c :: template =>
      if c =c chr 37 then
        if bool_decide (head template = Some (chr 100)) then
          let s := ltrim_s s in
          let ds := match s with
                    | x :: s => if (x =c chr 45) || (x =c chr 43) then s else x :: s
                    | [] => []
                    end in
          match ds with
          | x :: _ => if isdigit x then Some (atoi s) else None
          | [] => None
          end
        else None
      else if isspace c then sscanf_d template (ltrim_s s)
      else match s with
           | x :: s => if x =c c then sscanf_d template s else None
           | [] => None
           end
  end.
(** sprintf with a template that has one conversion, %d *)
Fixpoint sprintf_d (template : cstr) (n : Z) : outcome cstr :=
  match template with
  | [] => Ret []
  | c :: template =>
      if c =c chr 37 then
        match template with
        | d :: template =>
            if (d =c chr 100) && negb (existsb (λ x, x =c chr 37) template)
            then Ret (print_Z n ++ template) else Fault
        | [] => Fault
        end
      else s ← sprintf_d template n; Ret (c :: s)
  end.

(** The files are tried from the last on; [dir] is the directory of the one
    that was looked at last, not yet initialised at first. *)
Fixpoint find_instance (rev_list : list file_struct) (base_file : cstr) (dir : option cstr) :
    outcome (option cstr * Z) :=
  match rev_list with
  | [] => Ret (dir, 0)
  | f :: rev_list =>
      p ← split_path (Some (filename f));
      match p with
      | None => Fault
      | Some (dir, file) =>
          match sscanf_d base_file file with
          | Some index_no => Ret (Some dir, wrap 32 (index_no + 1))
          | None => find_instance rev_list base_file (Some dir)
          end
      end
  end.
Definition generate_file_name (tmp_filename base_filename : cstr)
    (full_file_list : list file_struct) : outcome cstr :=
  match base_filename with
  | [] => Ret tmp_filename
  | _ =>
      p ← split_path (Some base_filename);
      '(_, base_file) ← of_option p;
      '(dir, index_no) ← find_instance (reverse full_file_list) base_file None;
      dir ← of_option dir;
      name ← sprintf_d (dir ++ SLASH :: base_file) index_no;
      if decide (Z.of_nat (length (dir ++ SLASH :: base_file)) < MAX_FILE + 1 ∧
                 Z.of_nat (length name) < MAX_FILE + 1) then Ret name else Fault
  end.

Definition find_file_by_name (l : list file_struct) (name : cstr) (t : mkdb_file_type) :
    option file_struct :=
  find_first (λ f, STR_EQ (filename f) name && mkdb_file_type_equals t (file_type f)) l.

(** changing the first file that satisfies a test *)
Fixpoint change_first (p : file_struct → bool) (g : file_struct → file_struct)
    (l : list file_struct) : list file_struct :=
  match l with [] => [] | f :: l => if p f then g f :: l else f :: change_first p g l end.

Definition with_name (n : cstr) (f : file_struct) : file_struct :=
  File (file_type f) n (file_no f) (file_size f) (num_recs f) (file_lock f) (fp f).
Definition with_no (no : Z) (f : file_struct) : file_struct :=
  File (file_type f) (filename f) no (file_size f) (num_recs f) (file_lock f) (fp f).
Definition with_lock (lk : bool) (f : file_struct) : file_struct :=
  File (file_type f) (filename f) (file_no f) (file_size f) (num_recs f) lk (fp f).
Definition with_stats (u f : file_struct) : file_struct :=
  File (file_type f) (filename f) (file_no f) (file_size u) (num_recs u) (file_lock f) (fp f).
Definition with_type (t : mkdb_file_type) (f : file_struct) : file_struct :=
  File t (filename f) (file_no f) (file_size f) (num_recs f) (file_lock f) (fp f).

(** a file to add, with its tmp_filename and base_filename; an empty string is
    a null pointer too *)
Record new_file := NewFile { nf_file : file_struct; nf_tmp : cstr; nf_base : cstr }.

(** moving a temporary file to the name that was made for it *)
Definition name_new_file (fs : filesystem) (file : new_file) (file_list : list file_struct) :
    outcome (filesystem * file_struct) :=
  match filename (nf_file file) with
  | _ :: _ => Ret (fs, nf_file file)
  | [] =>
      name ← generate_file_name (nf_tmp file) (nf_base file) file_list;
      match name with
      | [] => Ret (fs, nf_file file)
      | _ =>
          match link fs (nf_tmp file) name with
          | Some fs => Ret (default fs (unlink fs (nf_tmp file)), with_name name (nf_file file))
          | None => Ret (fs, with_name (nf_tmp file) (nf_file file))
          end
      end
  end.

Section Add.
(** get_root_dir(), and the uninitialised array for the canonical path *)
Context (root_dir : option cstr) (file_path : buf).

(** The -1 of a path that cannot be made canonical is a true value. *)
Definition add_file_struct (fs : filesystem) (file : new_file) (file_list : list file_struct)
    (lock_mode : bool) : outcome (bool * filesystem * file_struct * list file_struct) :=
  if bool_decide (filename (nf_file file) = []) && bool_decide (nf_tmp file = [])
  then Ret (false, fs, nf_file file, file_list)
  else
    '(fs, f) ← name_new_file fs file file_list;
    '(status, path, b) ←
      canonicalize_path file_path MAX_FILE (Some (filename f ++ [NUL])) root_dir false false;
    let f := with_name (cstring (default [] path)) f in
    if negb status then Ret (true, fs, f, file_list)
    else
      _ ← strlen b;
      let name := cstring b in
      match find_file_by_name file_list name MKDB_ALL_FILES with
      | Some tmp_file =>
          let f := with_no (file_no tmp_file) f in
          if bool_decide (file_type tmp_file = file_type f) && (file_size tmp_file =? file_size f)
             && (num_recs tmp_file =? num_recs f)
          then Ret (true, fs, f, file_list)
          else
            Ret (true, fs, f,
                 change_first (λ x, STR_EQ (filename x) name && mkdb_file_type_equals MKDB_ALL_FILES (file_type x))
                              (λ x, with_type (file_type f) (with_stats f x)) file_list)
      | None =>
          let f := with_no (next_file_no file_list) (with_lock lock_mode f) in
          Ret (true, fs, f, file_list ++ [f])
      end.

(** the files of the list come back with their numbers *)
Fixpoint add_file_list (fs : filesystem) (files : list new_file) (full_file_list : list file_struct)
    (lock_mode : bool) : outcome (bool * filesystem * list file_struct * list file_struct) :=
  match files with
  | [] => Ret (true, fs, [], full_file_list)
  | file :: files =>
      '(status, fs, f, full) ← add_file_struct fs file full_file_list lock_mode;
      if negb status then Ret (false, fs, f :: (nf_file <$> files), full)
      else
        '(status, fs, fs', full) ← add_file_list fs files full lock_mode;
        Ret (status, fs, f :: fs', full)
  end.
End Add.

(** the second component: whether the file was found *)
Fixpoint delete_file_no (no : Z) (l : list file_struct) : list file_struct * bool :=
  match l with
  | [] => ([], false)
  | f :: l => if file_no f =? no then (l, true)
              else let '(l, found) := delete_file_no no l in (f :: l, found)
  end.
Definition with_file_no (no : Z) (l : list file_struct) : bool := existsb (λ f, file_no f =? no) l.
Definition lock_unlock_file_no (no : Z) (lock : bool) (l : list file_struct) : list file_struct * bool :=
  (change_first (λ f, file_no f =? no) (with_lock lock) l, with_file_no no l).
Definition update_file_no (u : file_struct) (l : list file_struct) : list file_struct * bool :=
  (change_first (λ f, file_no f =? file_no u) (with_stats u) l, with_file_no (file_no u) l).

Definition delete_file_list (files full : list file_struct) : list file_struct :=
  foldl (λ full f, (delete_file_no (file_no f) full).1) full files.
Definition lock_unlock_file_list (files full : list file_struct) (lock : bool) : list file_struct :=
  foldl (λ full f, (lock_unlock_file_no (file_no f) lock full).1) full files.

(** After a file that is not in the list the loop does not go on to the next. *)
Fixpoint mod_file_list (fuel : nat) (files full : list file_struct) : outcome (list file_struct) :=
  match fuel with
  | O => NoFuel
  | S fuel =>
      match files with
      | [] => Ret full
      | f :: rest =>
          let '(full, found) := update_file_no f full in
          mod_file_list fuel (if found : bool then rest else files) full
      end
  end.

(** A null list argument is [None].  [lock_obtained]: whether the placeholder
    lock could be taken. *)
Definition modify_file_list (root_dir : option cstr) (file_path : buf) (lock_obtained : bool)
    (fs : filesystem) (c : class_struct) (add_list : option (list new_file))
    (delete_list mod_list unlock_list lock_list : option (list file_struct)) :
    outcome (bool * filesystem * list file_struct) :=
  w ← get_master_index_file (MAX_FILE + 1) c MFL_WRITE;
  let added := nf_file <$> default [] add_list in
  if negb lock_obtained then Ret (false, fs, added)
  else
    '(status, full) ← get_file_list fs c [];
    if negb status then Ret (false, fs, added)
    else
      let lock_mode := match unlock_list with Some (_ :: _) => false | _ => true end in
      '(_, fs, added, full) ← add_file_list root_dir file_path fs (default [] add_list) full lock_mode;
      let full := delete_file_list (default [] delete_list) full in
      full ← mod_file_list (S (length (default [] mod_list))) (default [] mod_list) full;
      let full := lock_unlock_file_list (default [] unlock_list) full false in
      let full := lock_unlock_file_list (default [] lock_list) full true in
      let fs := write_file_list fs w full in
      '(_, fs) ← install_write_file_list fs c;
      Ret (true, fs, added).

(** ** The files of an authority area *)

Fixpoint get_class_files (fs : filesystem) (cs : list class_struct) (file_list : list file_struct) :
    outcome (bool * list file_struct) :=
  match cs with
  | [] => Ret (true, file_list)
  | c :: cs =>
      '(status, file_list) ← get_file_list fs c file_list;
      if negb status then Ret (false, file_list) else get_class_files fs cs file_list
  end.
Definition get_file (fs : filesystem) (areas : list auth_area_struct)
    (class_name auth_area_name : option cstr) : outcome (bool * list file_struct) :=
  if NOT_STR_EXISTS auth_area_name then Ret (false, [])
  else
    match find_auth_area_by_name areas auth_area_name with
    | None => Ret (false, [])
    | Some aa =>
        match class_name with
        | Some ((_ :: _) as name) =>
            match find_class_by_name (aa_schema aa) name with
            | None => Ret (false, [])
            | Some c => get_file_list fs c []
            end
        | _ =>
            match aa_schema aa with
            | None => Ret (false, [])
            | Some s => get_class_files fs (class_list s) []
            end
        end
    end.

Definition records_in_auth_area (fs : filesystem) (areas : list auth_area_struct)
    (aa : auth_area_struct) : outcome Z :=
  '(status, master) ← get_file fs areas None (Some (aa_name aa));
  if negb status then Ret 0
  else Ret (foldl (λ count fi, count + num_recs fi) 0 (filter_file_list MKDB_DATA_FILE master)).

(** ** Lines of a tag and a datum *)

(** a datum that readline and parse_line hand on as it is *)
Definition clean_datum (d : cstr) : Prop :=
  d ≠ [] ∧ Forall (λ c, iscntrl c = false) d ∧ ltrim_s d = d ∧ rtrim_s d = d.
#[export] Instance clean_datum_dec d : Decision (clean_datum d).
Proof. unfold clean_datum. apply _. Defined.
Definition good_tag (tag : cstr) : bool :=
  match tag with c :: _ => isalpha c | [] => false end
  && forallb (λ c, negb (iscntrl c) && negb (c =c chr 58)) tag && bool_decide (rtrim_s tag = tag).
Definition tagged (tag d : cstr) : cstr := tag ++ chr 58 :: d.

Lemma strip_control_clean s : Forall (λ c, iscntrl c = false) s → strip_control_s s = s.
Proof.
  intros H. unfold strip_control_s. induction H as [|c s Hc _ IH]; [done|].
  rewrite filter_cons_True; [by f_equal|]. by rewrite Hc.
Qed.

Lemma rtrim_app s d : d ≠ [] → rtrim_s d = d → rtrim_s (s ++ d) = s ++ d.
Proof.
  intros Hne Hd. destruct d as [|c d _] using rev_ind; [done|]. unfold rtrim_s in *.
  rewrite rdropwhile_snoc in Hd. destruct (isspace c) eqn:E.
  - destruct (rdropwhile_split isspace d) as (t & Ht & _). apply (f_equal length) in Hd, Ht.
    rewrite length_app in *. simpl in Hd. lia.
  - by rewrite app_assoc, rdropwhile_snoc, E.
Qed.

Lemma cntrl_NUL_NL s : Forall (λ c, iscntrl c = false) s → is_line s.
Proof.
  intros H. rewrite Forall_forall in H. split; intros Hin; specialize (H _ Hin); done.
Qed.

Lemma head_not_space_alpha c : isalpha c = true → isspace c = false ∧ tolower c ≠ chr 45 ∧
  tolower c ≠ chr 95 ∧ c ≠ chr 95 ∧ c ≠ chr 35.
Proof. revert c. by_ascii. all: split_and!; discriminate. Qed.

Lemma tagged_plain tag d :
  good_tag tag = true → clean_datum d → (length tag + length d + 2 < MAX_LINE)%nat →
  plain_line (tagged tag d) ∧ parse_line (Some (tagged tag d)) = Some (tag, d).
Proof.
  unfold good_tag. rewrite !andb_true_iff, bool_decide_eq_true.
  intros [[Halpha Hall] Hr] (Hne & Hc & Hl & Hrd) Hlen.
  assert (Forall (λ c, iscntrl c = false ∧ c ≠ chr 58) tag) as Ht.
  { apply Forall_forall. intros c Hin. rewrite forallb_forall in Hall.
    specialize (Hall c ltac:(by apply list_elem_of_In)).
    by rewrite andb_true_iff, !negb_true_iff, char_eqb_neq in Hall. }
  assert (Forall (λ c, iscntrl c = false) (tagged tag d)) as Hctl.
  { apply Forall_app. split; [eapply Forall_impl; [done|by intros c []]|]. by constructor. }
  destruct tag as [|c tag]; [done|]. destruct (head_not_space_alpha c Halpha) as (Hsp & H1 & H2 & H3 & H4).
  split.
  - split_and!.
    + by apply cntrl_NUL_NL.
    + unfold clean. rewrite strip_control_clean by done. unfold trim_s, tagged.
      rewrite (rtrim_app (c :: tag) (chr 58 :: d)); [|done|by apply (rtrim_app [chr 58])].
      unfold ltrim_s. cbn [app dropwhile]. by rewrite Hsp.
    + unfold tagged. rewrite length_app. cbn [length] in *. lia.
    + apply bool_decide_eq_false. intros E%(f_equal (hd NUL)). by apply H1.
    + apply bool_decide_eq_false. intros E%(f_equal (hd NUL)). by apply H2.
    + unfold first_char_is. cbn. by apply char_eqb_neq.
  - destruct (parse_line_spec (c :: tag) [] [] d) as [E _]; [|done|done|constructor|constructor|].
    { intros Hin. rewrite Forall_forall in Ht. by destruct (Ht _ Hin). }
    cbn [app] in E. unfold tagged. cbn [app]. rewrite E, bool_decide_eq_false_2; [done|].
    unfold ltrim_s. cbn [dropwhile]. rewrite Hsp. by intros [= E'].
Qed.

Lemma clean_numeral z : clean_datum (print_Z z).
Proof.
  pose proof (print_Z_chars z) as H. rewrite Forall_forall in H.
  assert (∀ c, numeral_char c = true → iscntrl c = false ∧ isspace c = false) as Hn by by_ascii.
  assert (∀ s, Forall (λ c, isspace c = false) s → dropwhile isspace s = s) as Hd.
  { intros [|c s]; [done|]. intros [Hc _]%Forall_cons. simpl. by rewrite Hc. }
  assert (Forall (λ c, isspace c = false) (print_Z z)) as Hs by (apply Forall_forall; intros c Hc; by apply Hn, H).
  split_and!.
  - by destruct (print_Z_cons z) as (c & s & ->).
  - apply Forall_forall. intros c Hc. by apply Hn, H.
  - by apply Hd.
  - unfold rtrim_s, rdropwhile. rewrite Hd, reverse_involutive; [done|]. by rewrite Forall_reverse.
Qed.

(** ** The round trip of a file list *)

(** a file whose entry reads back; the stream is not written *)
Record file_ok (fi : file_struct) : Prop := {
  fo_type : is_Some (select_str_from_type (file_type fi));
  fo_name : clean_datum (filename fi) ∧ (length (filename fi) + 6 < MAX_LINE)%nat;
  fo_no : 0 ≤ file_no fi ∧ int32 (file_no fi);
  fo_size : int64 (file_size fi);
  fo_recs : int64 (num_recs fi);
  fo_fp : fp fi = None }.

Definition struct_fields (fi : file_struct) : list (cstr * cstr) :=
  [($"type", default ($"(null)") (select_str_from_type (file_type fi)));
   ($"file", filename fi); ($"file_no", print_Z (file_no fi)); ($"size", print_Z (file_size fi));
   ($"num_recs", print_Z (num_recs fi)); ($"lock", on_off (file_lock fi))].
Definition struct_lines (fi : file_struct) : list cstr :=
  (λ td, tagged td.1 td.2) <$> struct_fields fi.
Fixpoint list_lines (l : list file_struct) : list cstr :=
  match l with
  | [] => []
  | fi :: l => struct_lines fi ++ (if bool_decide (l = []) then [] else [$"---"]) ++ list_lines l
  end.

Lemma list_text_lines l : list_text l = text (list_lines l).
Proof.
  induction l as [|fi l IH]; [done|]. cbn [list_text list_lines].
  rewrite app_assoc, text_app, IH. f_equal. unfold write_file_struct. f_equal.
  by destruct (bool_decide (l = [])).
Qed.

Lemma numeral_length z : int64 z → (length (print_Z z) ≤ 66)%nat.
Proof.
  intros Hz. assert (∀ fuel y, length (digits fuel y) ≤ fuel)%nat as Hd.
  { induction fuel as [|fuel IH]; intros y; simpl; [done|]. destruct (y <? 10); simpl; [lia|].
    rewrite length_app. specialize (IH (y / 10)). simpl. lia. }
  assert (∀ y, 0 ≤ y ≤ 2 ^ 63 → (length (print_nat y) ≤ 65)%nat) as Hn.
  { intros y Hy. unfold print_nat. etransitivity; [apply Hd|].
    assert (Z.log2 y ≤ Z.log2 (2 ^ 63)) by (apply Z.log2_le_mono; lia).
    rewrite Z.log2_pow2 in * by lia. lia. }
  unfold in_int in Hz. simpl Z.sub in Hz. unfold print_Z. destruct (Z.ltb_spec z 0).
  - simpl. specialize (Hn (- z)). lia.
  - specialize (Hn z). lia.
Qed.
Lemma int32_int64 z : int32 z → int64 z.
Proof. unfold in_int. simpl Z.sub. lia. Qed.

(** reading the fields of a struct gives the struct *)
Lemma set_fields fi :
  file_ok fi → foldl (λ fi td, set_field td.1 td.2 fi) no_file (struct_fields fi) = fi.
Proof.
  intros [[ty Hty] _ [_ Hno] Hs Hr Hfp]. destruct fi as [t n no sz nr lk p].
  unfold struct_fields. cbn [file_type filename file_no file_size num_recs file_lock fp] in *.
  subst p. rewrite Hty.
  change (File (select_type ty) n (atoi (print_Z no)) (atoll (print_Z sz)) (atoll (print_Z nr))
               (true_false (on_off lk)) None = File t n no sz nr lk None).
  rewrite <-(app_nil_r (print_Z no)), <-(app_nil_r (print_Z sz)), <-(app_nil_r (print_Z nr)).
  unfold atoll. rewrite atoi_print, !strtol_print by done. f_equal.
  - destruct t; simplify_eq/=; reflexivity.
  - by destruct lk.
Qed.

Definition field_ok (td : cstr * cstr) : Prop :=
  good_tag td.1 = true ∧ clean_datum td.2 ∧ (length td.1 + length td.2 + 2 < MAX_LINE)%nat.

Lemma struct_fields_ok fi : file_ok fi → Forall field_ok (struct_fields fi).
Proof.
  intros [[ty Hty] [Hn1 Hn2] [_ Hno%int32_int64] Hs Hr _].
  pose proof (numeral_length _ Hno). pose proof (numeral_length _ Hs). pose proof (numeral_length _ Hr).
  unfold struct_fields. rewrite Hty. simpl default.
  assert (clean_datum ty ∧ (length ty < 10)%nat) as [Ht1 Ht2].
  { destruct (file_type fi); simplify_eq/=;
      (split; [apply (bool_decide_unpack _); vm_compute; exact I|vm_compute; lia]). }
  assert (clean_datum (on_off (file_lock fi)) ∧ (length (on_off (file_lock fi)) < 10)%nat) as [Hl1 Hl2].
  { destruct (file_lock fi); (split; [apply (bool_decide_unpack _); vm_compute; exact I|vm_compute; lia]). }
  pose proof clean_numeral as Hz. unfold MAX_LINE in *.
  repeat (constructor; [split; [reflexivity|split; [done || apply Hz|]]; unfold MAX_LINE; simpl; lia|]).
  constructor.
Qed.

Section ReadList.
Context (ls : list cstr).
Abbreviation f := (text ls).

Lemma read_fields_step fuel k tag d fi :
  ls !! k = Some (tagged tag d) → good_tag tag = true → clean_datum d →
  (length tag + length d + 2 < MAX_LINE)%nat →
  read_fields (S fuel) f (start ls k) fi = read_fields fuel f (start ls (S k)) (set_field tag d fi).
Proof.
  intros Hk Ht Hd Hl. destruct (tagged_plain tag d Ht Hd Hl) as [Hp Hparse].
  pose proof Hp as (Hline & Hclean & Hlen & _). cbn [read_fields].
  rewrite (readline_line _ _ _ _ Hk Hline Hlen), Hclean, new_record_plain by done.
  by rewrite Hparse.
Qed.

(** the next line ends the entry: it is a separator or there is none *)
Definition ends_entry (k k' : nat) : Prop :=
  (ls !! k = Some $"---" ∧ k' = S k) ∨ (k = length ls ∧ k' = k).

Lemma read_fields_end fuel k k' fi :
  ends_entry k k' → read_fields (S fuel) f (start ls k) fi = Ret (fi, true, start ls k').
Proof.
  intros [[Hk ->]|[-> ->]]; cbn [read_fields].
  - rewrite (readline_line _ _ _ _ Hk); [done| |vm_compute; lia].
    split; apply (bool_decide_unpack _); vm_compute; exact I.
  - by rewrite readline_end.
Qed.

(** a run of tagged lines *)
Lemma read_fields_lines tds : ∀ fuel k k' rest fi,
  drop k ls = ((λ td, tagged td.1 td.2) <$> tds) ++ rest →
  Forall field_ok tds →
  ends_entry (k + length tds) k' → (length tds < fuel)%nat →
  read_fields fuel f (start ls k) fi
  = Ret (foldl (λ fi td, set_field td.1 td.2 fi) fi tds, true, start ls k').
Proof.
  induction tds as [|[tag d] tds IH]; intros [|fuel] k k' rest fi Hd Ht He Hf; try (simpl in Hf; lia).
  { rewrite Nat.add_0_r in He. by apply read_fields_end. }
  apply Forall_cons in Ht as [(H1 & H2 & H3) Ht]. rewrite fmap_cons in Hd.
  assert (ls !! k = Some (tagged tag d)) as Hk.
  { rewrite <-(Nat.add_0_r k), <-lookup_drop, Hd. done. }
  rewrite (read_fields_step _ _ _ _ _ Hk) by done. cbn [foldl fst snd].
  apply (IH fuel (S k) k' rest); [|done| |simpl in Hf; lia].
  - rewrite (drop_S _ _ _ Hk) in Hd. by injection Hd.
  - cbn [length] in He. by rewrite Nat.add_succ_r in He.
Qed.

Lemma read_struct k k' fi rest :
  drop k ls = struct_lines fi ++ rest → ends_entry (k + 6) k' → file_ok fi →
  read_file_struct f (start ls k) = Ret (Some fi, start ls k').
Proof.
  intros Hd Hend Hok. unfold read_file_struct.
  rewrite (read_fields_lines (struct_fields fi) _ k k' rest _ Hd (struct_fields_ok fi Hok) Hend).
  - cbn [mbind outcome_bind]. rewrite (set_fields fi Hok).
    destruct Hok as [[ty Hty] [(Hn & _) _] [Hno _] _ _ _]. unfold valid_file.
    rewrite !bool_decide_false, (proj2 (Z.leb_le _ _)); [done|done| |done].
    intros E. by rewrite E in Hty.
  - pose proof (text_length ls). pose proof (f_equal length Hd) as E.
    rewrite length_drop, length_app in E. simpl in E |- *. lia.
Qed.

Lemma read_list_lines l : ∀ fuel k acc,
  drop k ls = list_lines l → (k ≤ length ls)%nat → Forall file_ok l → (length l < fuel)%nat →
  read_list_loop fuel f (start ls k) acc = Ret (acc ++ l).
Proof.
  induction l as [|fi l IH]; intros [|fuel] k acc Hd Hk Hok Hf; try (simpl in Hf; lia);
    cbn [read_list_loop list_lines] in *.
  - apply (f_equal length) in Hd. rewrite length_drop in Hd. simpl in Hd.
    assert (k = length ls) as -> by lia. unfold read_file_struct. cbn [read_fields].
    rewrite readline_end. cbn. by rewrite app_nil_r.
  - apply Forall_cons in Hok as [Ho Hok]. pose proof (f_equal length Hd) as Hlen.
    rewrite length_drop, !length_app in Hlen. cbn [length struct_lines fmap] in Hlen.
    assert (length (struct_lines fi) = 6%nat) as H6 by done. rewrite H6 in Hlen.
    assert (∃ k', ends_entry (k + 6) k' ∧ drop k' ls = list_lines l ∧ (k' ≤ length ls)%nat) as (k' & He & Hd' & Hk').
    { assert (drop (k + 6) ls = (if bool_decide (l = []) then [] else [$"---"]) ++ list_lines l) as E.
      { rewrite <-drop_drop, Hd. rewrite <-H6. by rewrite drop_app_length. }
      case_bool_decide as El; cbn [app length] in *.
      - subst l. exists (k + 6)%nat. split; [right; simpl in Hlen; lia|]. split; [done|lia].
      - exists (S (k + 6)). assert (ls !! (k + 6)%nat = Some $"---") as Hs.
        { rewrite <-(Nat.add_0_r (k + 6)), <-lookup_drop, E. done. }
        split; [by left|]. split; [|lia].
        rewrite (drop_S _ _ _ Hs) in E. exact (f_equal tail E). }
    rewrite (read_struct k k' fi _ Hd He Ho). cbn [mbind outcome_bind].
    rewrite (IH fuel k' (acc ++ [fi])) by (done || (simpl in Hf; lia)). by rewrite <-app_assoc.
Qed.
End ReadList.

Lemma read_list_text l acc :
  Forall file_ok l → read_list_loop (S (length (list_text l))) (list_text l) 0 acc = Ret (acc ++ l).
Proof.
  intros Hok. rewrite list_text_lines.
  apply (read_list_lines (list_lines l) l _ 0); [done|lia|done|].
  pose proof (text_length (list_lines l)) as Ht.
  assert (length l ≤ length (list_lines l))%nat as Hl; [|lia].
  clear. induction l as [|fi l IH]; [done|]. cbn [list_lines]. rewrite !length_app. simpl. lia.
Qed.

Lemma upd_same fs n v : upd fs n v n = v.
Proof. unfold upd. by rewrite bool_decide_true. Qed.
Lemma upd_other fs n v m : m ≠ n → upd fs n v m = fs m.
Proof. intros H. unfold upd. by rewrite bool_decide_false. Qed.

(** A file list survives writing and reading: what read_file_list reads
    back from the file that write_file_list has written is the list, with every
    name, type, number, size, record count and lock. *)
Theorem file_list_roundtrip fs name l :
  Forall file_ok l → read_file_list (write_file_list fs name l) name [] = Ret (true, l).
Proof.
  intros Hok. unfold read_file_list, write_file_list. rewrite upd_same.
  by rewrite read_list_text.
Qed.

(** the files of a concrete list *)
Ltac files_ok :=
  repeat (constructor; [split;
    [by eexists|split; [apply (bool_decide_unpack _); vm_compute; exact I|vm_compute; lia]
    |split; [done|split; vm_compute; congruence]|split; vm_compute; congruence
    |split; vm_compute; congruence|done]|]); constructor.

Definition demo_files : list file_struct :=
  [File MKDB_DATA_FILE ($"net/data/a b.txt") 0 120 3 false None;
   File MKDB_CIDR_INDEX_FILE ($"net/data/index-cidr-0.ndx") 1 64 3 true None].
Lemma demo_files_ok : Forall file_ok demo_files.
Proof.
  files_ok.
Qed.
Lemma file_list_roundtrip_witness :
  read_file_list (write_file_list (λ _, None) ($"local.db") demo_files) ($"local.db") []
  = Ret (true, demo_files).
Proof. exact (file_list_roundtrip (λ _, None) ($"local.db") demo_files demo_files_ok). Defined.

(** ** Installing a changed list *)

Abbreviation read_name c := (db_dir c ++ SLASH :: master_name MFL_READ).
Abbreviation write_name c := (db_dir c ++ SLASH :: master_name MFL_WRITE).
Abbreviation backup_name c := (db_dir c ++ SLASH :: master_name MFL_BACKUP).
(** the names of the master file lists fit in their arrays *)
Definition dir_ok (c : class_struct) : Prop := Z.of_nat (length (db_dir c)) + 16 ≤ MAX_FILE.

Lemma master_index_file c t :
  dir_ok c → get_master_index_file (MAX_FILE + 1) c t = Ret (db_dir c ++ SLASH :: master_name t).
Proof.
  intros H. unfold get_master_index_file. rewrite decide_True; [done|]. unfold dir_ok in H.
  rewrite length_app. destruct t; cbn; lia.
Qed.

Lemma master_names c t t' :
  t ≠ t' → db_dir c ++ SLASH :: master_name t ≠ db_dir c ++ SLASH :: master_name t'.
Proof. intros Hne E%app_inv_head. injection E as E. destruct t, t'; done. Qed.

Lemma file_exists_Some fs n t : fs n = Some t → file_exists fs n = true.
Proof. intros E. unfold file_exists. rewrite E. by apply bool_decide_true. Qed.
Lemma file_exists_None fs n : fs n = None → file_exists fs n = false.
Proof. intros E. unfold file_exists. rewrite E. apply bool_decide_false. by intros []. Qed.

(** moving a file to a name that is free *)
Lemma move_file fs old new t :
  old ≠ new → fs old = Some t → fs new = None →
  ∃ fs1 fs2, link fs old new = Some fs1 ∧ unlink fs1 old = Some fs2 ∧
    ∀ n, fs2 n = if bool_decide (n = old) then None
                 else if bool_decide (n = new) then Some t else fs n.
Proof.
  intros Hne Ho Hn. unfold link. rewrite (file_exists_Some _ _ _ Ho), file_exists_None by done.
  do 2 eexists. split; [done|]. unfold unlink.
  rewrite (file_exists_Some _ old t) by (by rewrite upd_other). split; [done|].
  intros n. unfold upd. by rewrite Ho.
Qed.

Lemma install_moves fs c t :
  dir_ok c → fs (write_name c) = Some t →
  ∃ fs', install_write_file_list fs c = Ret (true, fs') ∧
    fs' (read_name c) = Some t ∧ fs' (write_name c) = None ∧
    fs' (backup_name c) = fs (read_name c) ∧
    ∀ n, n ≠ read_name c → n ≠ write_name c → n ≠ backup_name c → fs' n = fs n.
Proof.
  intros Hd Hw. unfold install_write_file_list. rewrite !master_index_file by done.
  cbn [mbind outcome_bind].
  pose proof (master_names c MFL_READ MFL_WRITE ltac:(done)) as Hrw.
  pose proof (master_names c MFL_READ MFL_BACKUP ltac:(done)) as Hrb.
  pose proof (master_names c MFL_WRITE MFL_BACKUP ltac:(done)) as Hwb.
  set (r := read_name c) in *. set (w := write_name c) in *. set (b := backup_name c) in *.
  set (fs1 := if file_exists fs b then default fs (unlink fs b) else fs).
  assert (fs1 b = None ∧ ∀ n, n ≠ b → fs1 n = fs n) as [H1b H1].
  { unfold fs1. destruct (fs b) as [x|] eqn:Eb.
    - unfold unlink. rewrite (file_exists_Some _ _ _ Eb). simpl default.
      split; [apply upd_same|]. intros n Hn. by apply upd_other.
    - by rewrite file_exists_None. }
  set (fs2 := if file_exists fs1 r then _ else fs1).
  assert (fs2 b = fs r ∧ fs2 r = None ∧ ∀ n, n ≠ b → n ≠ r → fs2 n = fs n) as (H2b & H2r & H2).
  { unfold fs2. destruct (fs1 r) as [x|] eqn:Er.
    - rewrite (file_exists_Some _ _ _ Er).
      destruct (move_file fs1 r b x Hrb Er H1b) as (fa & fb & -> & -> & Hf). simpl default.
      rewrite !Hf, (bool_decide_false (b = r)), !bool_decide_true by (done || congruence).
      rewrite <-Er, H1 by done. split_and!; [done..|].
      intros n Hn1 Hn2. rewrite Hf, !bool_decide_false by done. by apply H1.
    - rewrite file_exists_None by done. rewrite H1b, <-(H1 r), Er by done.
      split_and!; [done..|]. intros n Hn _. by apply H1. }
  destruct (move_file fs2 w r t ltac:(congruence)) as (fa & fb & -> & -> & Hf); [by rewrite H2|done|].
  eexists. split; [done|]. rewrite !Hf.
  rewrite (bool_decide_false (r = w)), (bool_decide_false (b = w)), (bool_decide_false (b = r)),
    !bool_decide_true by congruence.
  split_and!; [done..|]. intros n Hr' Hw' Hb'. rewrite Hf, !bool_decide_false by done. by apply H2.
Qed.

Lemma modify_installs root buf fs c add del md un lk full fs1 added full1 full2 st :
  dir_ok c →
  get_file_list fs c [] = Ret (true, full) →
  add_file_list root buf fs (default [] add) full (match un with Some (_ :: _) => false | _ => true end)
    = Ret (st, fs1, added, full1) →
  mod_file_list (S (length (default [] md))) (default [] md) (delete_file_list (default [] del) full1)
    = Ret full2 →
  let result := lock_unlock_file_list (default [] lk)
                  (lock_unlock_file_list (default [] un) full2 false) true in
  Forall file_ok result →
  ∃ fs', modify_file_list root buf true fs c add del md un lk = Ret (true, fs', added) ∧
    get_file_list fs' c [] = Ret (true, result) ∧
    fs' (backup_name c) = fs1 (read_name c) ∧ fs' (write_name c) = None ∧
    ∀ n, n ≠ read_name c → n ≠ write_name c → n ≠ backup_name c → fs' n = fs1 n.
Proof.
  intros Hd Hg Ha Hm result Hok. unfold modify_file_list.
  rewrite master_index_file by done. cbn [mbind outcome_bind negb]. rewrite Hg.
  cbn [mbind outcome_bind negb]. rewrite Ha. cbn [mbind outcome_bind]. rewrite Hm.
  cbn [mbind outcome_bind]. fold result.
  destruct (install_moves (write_file_list fs1 (write_name c) result) c (list_text result) Hd)
    as (fs' & -> & Hr & Hw & Hb & Ho); [apply upd_same|].
  cbn [mbind outcome_bind]. exists fs'. split; [done|]. split_and!.
  - unfold get_file_list, is_area_indexed. rewrite !master_index_file by done.
    cbn [mbind outcome_bind]. rewrite (file_exists_Some _ _ _ Hr). cbn [orb negb].
    unfold read_file_list. by rewrite Hr, read_list_text.
  - rewrite Hb. unfold write_file_list. apply upd_other, master_names. done.
  - done.
  - intros n H1 H2 H3. rewrite Ho by done. by apply upd_other.
Qed.

(** C27: modify_file_list installs the list it edits.  When the lock is held and
    the edits end, the edited list is written and moved into place:
    get_file_list then reads exactly that list, the previous file list is the
    backup, no local.db.write is left, and no other file has changed. *)
Theorem modify_file_list_installs root buf fs c add del md un lk full fs1 added full1 full2 st :
  dir_ok c →
  get_file_list fs c [] = Ret (true, full) →
  add_file_list root buf fs (default [] add) full (match un with Some (_ :: _) => false | _ => true end)
    = Ret (st, fs1, added, full1) →
  mod_file_list (S (length (default [] md))) (default [] md) (delete_file_list (default [] del) full1)
    = Ret full2 →
  let result := lock_unlock_file_list (default [] lk)
                  (lock_unlock_file_list (default [] un) full2 false) true in
  Forall file_ok result →
  ∃ fs', modify_file_list root buf true fs c add del md un lk = Ret (true, fs', added) ∧
    get_file_list fs' c [] = Ret (true, result) ∧
    fs' (backup_name c) = fs1 (read_name c) ∧ fs' (write_name c) = None ∧
    ∀ n, n ≠ read_name c → n ≠ write_name c → n ≠ backup_name c → fs' n = fs1 n.
Proof. apply modify_installs. Qed.

Definition demo_net : class_struct := Class_ 0 ($"network") [] ($"net") None [] None None None.
Definition demo_net_fs : filesystem := upd (λ _, None) ($"net/local.db") (Some (list_text demo_files)).
Lemma demo_net_list : get_file_list demo_net_fs demo_net [] = Ret (true, demo_files).
Proof. vm_compute. reflexivity. Qed.

Lemma modify_file_list_installs_witness :
  let unlock := [File MKDB_CIDR_INDEX_FILE [] 1 0 0 false None] in
  let result := lock_unlock_file_list [] (lock_unlock_file_list unlock demo_files false) true in
  ∃ fs', modify_file_list None [] true demo_net_fs demo_net None None None (Some unlock) None
         = Ret (true, fs', []) ∧
    get_file_list fs' demo_net [] = Ret (true, result) ∧
    fs' (backup_name demo_net) = demo_net_fs (read_name demo_net) ∧ fs' (write_name demo_net) = None ∧
    ∀ n, n ≠ read_name demo_net → n ≠ write_name demo_net → n ≠ backup_name demo_net →
         fs' n = demo_net_fs n.
Proof.
  intros unlock result.
  apply (modify_file_list_installs None [] demo_net_fs demo_net None None None (Some unlock) None
           demo_files demo_net_fs [] demo_files demo_files true).
  - vm_compute. congruence.
  - apply demo_net_list.
  - reflexivity.
  - reflexivity.
  - files_ok.
Defined.

(** ** The numbers of the files *)

(** the numbers of a file list ascend, as next_file_no expects *)
Definition numbered (l : list file_struct) : Prop := StronglySorted Z.lt (file_no <$> l).

Lemma change_first_no p g l :
  (∀ f, file_no (g f) = file_no f) → file_no <$> change_first p g l = file_no <$> l.
Proof.
  intros Hg. induction l as [|f l IH]; [done|]. cbn [change_first].
  destruct (p f); rewrite !fmap_cons; [by rewrite Hg|by rewrite IH].
Qed.

Lemma delete_file_no_sublist no l : (delete_file_no no l).1 `sublist_of` l.
Proof.
  induction l as [|f l IH]; [done|]. cbn [delete_file_no]. destruct (file_no f =? no).
  - by apply sublist_cons.
  - destruct (delete_file_no no l). by apply sublist_skip.
Qed.

Lemma numbered_sublist l l' : l' `sublist_of` l → numbered l → numbered l'.
Proof.
  intros Hs. induction Hs as [|f l1 l2 Hs IH|f l1 l2 Hs IH]; unfold numbered in *; [done| |].
  - rewrite !fmap_cons. intros H. apply StronglySorted_inv in H as [H1 H2]. constructor; [by apply IH|].
    rewrite Forall_forall in *. intros x Hx. apply H2. apply list_elem_of_fmap in Hx as (y & -> & Hy).
    apply list_elem_of_fmap. exists y. split; [done|]. by eapply elem_of_sublist.
  - rewrite fmap_cons. intros H. apply IH. by apply StronglySorted_inv in H as [H _].
Qed.

Lemma numbered_foldl (g : list file_struct → file_struct → list file_struct) us :
  (∀ l u, numbered l → numbered (g l u)) → ∀ l, numbered l → numbered (foldl g l us).
Proof. intros Hg. induction us as [|u us IH]; intros l H; [done|]. apply IH, Hg, H. Qed.

Lemma numbered_snoc l f :
  numbered l → (∀ x, last l = Some x → file_no x < file_no f) → numbered (l ++ [f]).
Proof.
  intros Hn Hl. unfold numbered in *. induction l as [|x l IH]; [repeat constructor|].
  cbn [app]. rewrite fmap_cons in *. apply StronglySorted_inv in Hn as [H1 H2].
  constructor.
  - apply IH; [done|]. intros y Hy. apply Hl. destruct l; done.
  - rewrite fmap_app, Forall_app. split; [done|]. constructor; [|constructor].
    destruct (last (x :: l)) as [y|] eqn:Ey; [|by rewrite last_None in Ey].
    specialize (Hl y eq_refl). apply last_Some_elem_of in Ey.
    apply elem_of_cons in Ey as [->|Hy]; [done|]. rewrite Forall_forall in H2.
    specialize (H2 (file_no y) ltac:(apply list_elem_of_fmap; by exists y)). lia.
Qed.

Lemma mod_file_list_no fuel : ∀ us l l',
  mod_file_list fuel us l = Ret l' → file_no <$> l' = file_no <$> l.
Proof.
  induction fuel as [|fuel IH]; intros us l l'; [done|]. cbn [mod_file_list].
  destruct us as [|u us]; [by intros [= ->]|]. cbn [update_file_no]. intros H%IH.
  rewrite H. by apply change_first_no.
Qed.

(** The edits of a file list keep its numbers ascending, hence unique:
    adding a file (below the largest int), deleting, changing and locking. *)
Theorem edits_keep_numbers root buf fs l us lk fuel l1 file st fs' f l2 :
  numbered l → Forall (λ x, -1 ≤ file_no x < 2 ^ 31 - 1) l →
  mod_file_list fuel us l = Ret l1 →
  add_file_struct root buf fs file l lk = Ret (st, fs', f, l2) →
  numbered (delete_file_list us l) ∧ numbered (lock_unlock_file_list us l lk) ∧
  numbered l1 ∧ numbered l2.
Proof.
  intros Hn Hb Hm Ha. split_and!.
  - apply numbered_foldl; [|done]. intros l' u. apply numbered_sublist, delete_file_no_sublist.
  - apply numbered_foldl; [|done]. intros l' u H. unfold numbered, lock_unlock_file_no in *. cbn [fst].
    by rewrite change_first_no.
  - unfold numbered in *. by rewrite (mod_file_list_no _ _ _ _ Hm).
  - unfold add_file_struct in Ha. destruct (_ && _) in Ha; [by injection Ha as <- <- <- <-|].
    destruct (name_new_file fs file l) as [[fs1 f1]| |]; try done. cbn [mbind outcome_bind] in Ha.
    destruct (canonicalize_path _ _ _ _ _ _) as [[[s p] b]| |]; try done. cbn [mbind outcome_bind] in Ha.
    destruct s; cbn [negb] in Ha; [|by injection Ha as <- <- <- <-].
    destruct (strlen b); try done. cbn [mbind outcome_bind] in Ha.
    destruct (find_file_by_name l _ _); [case_match|]; injection Ha as <- <- <- <-; [done| |].
    + unfold numbered in *. by rewrite change_first_no.
    + apply numbered_snoc; [done|]. intros x Hx. cbn [file_no with_no]. unfold next_file_no. rewrite Hx.
      rewrite Forall_forall in Hb. specialize (Hb x ltac:(by apply last_Some_elem_of)).
      rewrite wrap_id; [lia|done|]. unfold in_int. simpl Z.sub. lia.
Qed.

Lemma edits_keep_numbers_witness :
  let file := NewFile (File MKDB_DATA_FILE ($"net/b.txt") 0 7 1 false None) [] [] in
  let us := [File MKDB_DATA_FILE [] 0 200 5 false None] in
  match mod_file_list 2 us demo_files, add_file_struct (Some $"/srv") (replicate 513 NUL) (λ _, None) file demo_files true with
  | Ret l1, Ret (_, _, _, l2) =>
      file_no <$> l2 = [0; 1; 2] ∧
      numbered (delete_file_list us demo_files) ∧ numbered (lock_unlock_file_list us demo_files true) ∧
      numbered l1 ∧ numbered l2
  | _, _ => False
  end.
Proof.
  intros file us. destruct (mod_file_list 2 us demo_files) as [l1| |] eqn:Em; [|vm_compute in Em; discriminate Em..].
  destruct (add_file_struct _ _ _ file demo_files true) as [[[[st fs'] f] l2]| |] eqn:Ea;
    [|vm_compute in Ea; discriminate Ea..].
  split; [vm_compute in Ea; injection Ea as <- <- <- <-; vm_compute; reflexivity|].
  apply (edits_keep_numbers (Some $"/srv") (replicate 513 NUL) (λ _, None) demo_files us true 2 l1 file st fs' f l2);
    [repeat constructor| |exact Em|exact Ea].
  repeat (constructor; [split; vm_compute; congruence|]). constructor.
Defined.

(** ** Where the edits go wrong *)

(** Mod_file_list never ends when a file to change is not in the list: the
    loop logs the failure and goes on with the same file, the write lock held. *)
Theorem mod_file_list_hangs u us l fuel :
  with_file_no (file_no u) l = false → mod_file_list fuel (u :: us) l = NoFuel.
Proof.
  intros Hu. assert (change_first (λ f, file_no f =? file_no u) (with_stats u) l = l) as Hl.
  { induction l as [|x l IH]; [done|]. unfold with_file_no in Hu. cbn in Hu.
    apply orb_false_iff in Hu as [Hx Hu]. cbn [change_first]. rewrite Hx. f_equal. by apply IH. }
  induction fuel as [|fuel IH]; [done|]. cbn [mod_file_list update_file_no].
  by rewrite Hl, Hu.
Qed.
Lemma mod_file_list_hangs_witness :
  mod_file_list 100 [File MKDB_DATA_FILE [] 9 0 0 false None] demo_files = NoFuel.
Proof. apply (mod_file_list_hangs (File MKDB_DATA_FILE [] 9 0 0 false None) [] demo_files). reflexivity. Defined.

(** adding a file twice, with different sizes: the entries that are listed *)
Definition add_twice (name : cstr) : outcome (list (cstr * Z * Z)) :=
  let add size l :=
    add_file_struct (Some $"/srv") (replicate 513 NUL) (λ _, None)
      (NewFile (File MKDB_DATA_FILE name 0 size 1 false None) [] []) l true in
  '(_, _, _, l) ← add 10 [];
  '(_, _, _, l) ← add 20 l;
  Ret (map (λ f, (filename f, file_no f, file_size f)) l).

(** Adding a file that the list already has changes its entry if the name
    is relative to the root directory.  A full path below the root is looked up
    by its relative form but stored as it is, so the lookup does not find it and
    the same file is listed twice, under two numbers. *)
Theorem add_file_struct_again :
  add_twice ($"net/b.txt") = Ret [($"net/b.txt", 0, 20)] ∧
  add_twice ($"/srv/net/b.txt") = Ret [($"/srv/net/b.txt", 0, 10); ($"/srv/net/b.txt", 1, 20)].
Proof. vm_compute. done. Qed.
