(* ===== verification/Regexp.v ===== *)
(** * Regular expressions: compiling (regexp/regexp.c)

    regcomp goes over a pattern twice.  The first pass only counts the bytes of
    the program, the second one writes them.  A program is a string of bytes: a
    byte MAGIC and then nodes, each a byte for what it does, two bytes for the
    distance to the next node (0 for none) and possibly an operand.

    A pointer into the pattern or into the program is its offset.  [None] as a
    program is the first pass, where the code is written to &regdummy, and
    [None] as a place is &regdummy itself. *)

From S2P Require Import Prelude CLib.
Local Open Scope Z_scope.

Definition END : Z := 0.
Definition BOL : Z := 1.
Definition EOL : Z := 2.
Definition ANY : Z := 3.
Definition ANYOF : Z := 4.
Definition ANYBUT : Z := 5.
Definition BRANCH : Z := 6.
Definition BACK : Z := 7.
Definition EXACTLY : Z := 8.
Definition NOTHING : Z := 9.
Definition STAR : Z := 10.
Definition PLUS : Z := 11.
Definition WORDA : Z := 12.
Definition WORDZ : Z := 13.
Definition OPEN : Z := 20.
Definition CLOSE : Z := 30.
Definition MAGIC : Z := 156.
Definition NSUBEXP : nat := 10.

(** ** The program *)

Section Program.
Context (program : list ascii).

Definition OP (p : nat) : outcome Z := c ← rd program p; Ret (code c).
Definition NEXT (p : nat) : outcome Z :=
  hi ← rd program (p + 1)%nat;
  lo ← rd program (p + 2)%nat;
  Ret (Z.shiftl (code hi) 8 + code lo).
Definition OPERAND (p : nat) : nat := (p + 3)%nat.

Definition regnext (p : nat) : outcome (option nat) :=
  offset ← NEXT p;
  if offset =? 0 then Ret None
  else
    op ← OP p;
    let q := if op =? BACK then Z.of_nat p - offset else Z.of_nat p + offset in
    if q <? 0 then Fault else Ret (Some (Z.to_nat q)).
(** the last node of a chain *)
Fixpoint last_node (fuel p : nat) : outcome nat :=
  match fuel with
  | O => NoFuel
  | S fuel => temp ← regnext p; match temp with None => Ret p | Some q => last_node fuel q end
  end.
(** the string at a place *)
Fixpoint cstr_of (b : list ascii) : outcome cstr :=
  match b with
  | [] => Fault
  | c :: b => if c =c NUL then Ret [] else s ← cstr_of b; Ret (c :: s)
  end.
Definition string_at (p : nat) : outcome cstr := cstr_of (drop p program).
End Program.

(** the two bytes of a distance *)
Definition offset_bytes (offset : Z) : ascii * ascii :=
  (chr (Z.land (Z.shiftr offset 8) 255), chr (Z.land offset 255)).
Definition set_next (program : list ascii) (scan : nat) (offset : Z) : outcome (list ascii) :=
  let '(hi, lo) := offset_bytes offset in
  b ← wr program (scan + 1)%nat hi;
  wr b (scan + 2)%nat lo.

(** ** The state of the compiler *)

(** the pattern's place, the count of parentheses, the code written so far,
    the size counted in the first pass *)
Record cstate := CState { regparse : nat; regnpar : nat; regcode : option (list ascii); regsize : Z }.

(** FAIL is [None] *)
Definition creg (A : Type) : Type := cstate → outcome (option (A * cstate)).
#[export] Instance creg_ret : MRet creg := λ A a s, Ret (Some (a, s)).
#[export] Instance creg_bind : MBind creg := λ A B f m s,
  match m s with
  | Ret (Some (a, s)) => f a s
  | Ret None => Ret None
  | Fault => Fault
  | NoFuel => NoFuel
  end.
Definition FAIL {A} : creg A := λ _, Ret None.
Definition no_fuel {A} : creg A := λ _, NoFuel.
Definition fault {A} : creg A := λ _, Fault.
Definition lift {A} (o : outcome A) : creg A := λ s, a ← o; Ret (Some (a, s)).
Definition get_st : creg cstate := λ s, Ret (Some (s, s)).
Definition set_code (c : option (list ascii)) : creg () :=
  λ s, Ret (Some ((), CState (regparse s) (regnpar s) c (regsize s))).
Definition add_size (n : Z) : creg () :=
  λ s, Ret (Some ((), CState (regparse s) (regnpar s) (regcode s) (regsize s + n))).
Definition set_parse (p : nat) : creg () := λ s, Ret (Some ((), CState p (regnpar s) (regcode s) (regsize s))).
Definition set_npar (n : nat) : creg () := λ s, Ret (Some ((), CState (regparse s) n (regcode s) (regsize s))).

(** what is known of a part of a pattern *)
Record flags := Flags { HASWIDTH : bool; SIMPLE : bool; SPSTART : bool }.
Definition WORST : flags := Flags false false false.
Definition HAS_WIDTH : flags := Flags true false false.
Definition WIDTH_SIMPLE : flags := Flags true true false.

Section Compile.
(** the pattern, and how many bytes there are for the program *)
Context (exp : cstr) (room : nat).

Definition char_at (p : nat) : creg ascii := lift (rd (exp ++ [NUL]) p).
(** *regparse, regparse[1], *regparse++ *)
Definition peek : creg ascii := s ← get_st; char_at (regparse s).
Definition peek1 : creg ascii := s ← get_st; char_at (S (regparse s)).
Definition skip : creg () := s ← get_st; set_parse (S (regparse s)).
Definition getc : creg ascii := c ← peek; _ ← skip; mret c.

Definition emit (bs : list ascii) : creg () :=
  s ← get_st;
  match regcode s with
  | None => add_size (Z.of_nat (length bs))
  | Some c => if decide (length c + length bs ≤ room)%nat then set_code (Some (c ++ bs)) else fault
  end.
Definition regc (b : ascii) : creg () := emit [b].
(** a place in the program that is written next *)
Definition here : creg (option nat) := s ← get_st; mret (length <$> regcode s).
Definition regnode (op : Z) : creg (option nat) := p ← here; _ ← emit [chr op; NUL; NUL]; mret p.

Definition reginsert (op : Z) (opnd : option nat) : creg () :=
  s ← get_st;
  match regcode s, opnd with
  | None, _ => add_size 3
  | Some c, Some p =>
      if decide (length c + 3 ≤ room ∧ p ≤ length c)%nat
      then set_code (Some (take p c ++ [chr op; NUL; NUL] ++ drop p c)) else fault
  | Some _, None => fault
  end.
Definition regtail (p val : option nat) : creg () :=
  match p with
  | None => mret ()
  | Some p =>
      s ← get_st;
      match regcode s, val with
      | Some c, Some val =>
          scan ← lift (last_node c (S (length c)) p);
          op ← lift (OP c scan);
          let offset := if op =? BACK then Z.of_nat scan - Z.of_nat val else Z.of_nat val - Z.of_nat scan in
          c ← lift (set_next c scan offset);
          set_code (Some c)
      | _, _ => fault
      end
  end.
Definition regoptail (p val : option nat) : creg () :=
  match p with
  | None => mret ()
  | Some q =>
      s ← get_st;
      match regcode s with
      | Some c => op ← lift (OP c q); if op =? BRANCH then regtail (Some (OPERAND q)) val else mret ()
      | None => fault
      end
  end.

(** ** Parsing and writing *)

(** what ends a branch *)
Definition ends_branch (c : ascii) : bool := (c =c NUL) || (c =c chr 41) || (c =c NL) || (c =c chr 124).
(** '.', '[', '(', ')', '|', '\n', '$', '^' and the end *)
Definition is_magic (c : ascii) : bool :=
  ends_branch c || (c =c chr 46) || (c =c chr 91) || (c =c chr 40) || (c =c chr 36) || (c =c chr 94).
Definition ISMULT (c : ascii) : bool := (c =c chr 42) || (c =c chr 43) || (c =c chr 63).
(** '\0', '<' and '>', which are not quoted by a backslash *)
Definition not_quoted (c : ascii) : bool := (c =c NUL) || (c =c chr 60) || (c =c chr 62).

(** the bytes from one to another, both included *)
Definition byte_range (first last : Z) : cstr := (λ n, chr (Z.of_nat n)) <$> seq (Z.to_nat first) (Z.to_nat (last + 1 - first)).

Fixpoint class_loop (fuel : nat) : creg () :=
  match fuel with
  | O => no_fuel
  | S fuel =>
      c ← peek;
      if (c =c NUL) || (c =c chr 93) then mret ()
      else if c =c chr 45 then
        _ ← skip;
        c ← peek;
        if (c =c chr 93) || (c =c NUL) then (_ ← regc (chr 45); class_loop fuel)
        else
          s ← get_st;
          before ← (if (regparse s <? 2)%nat then fault else char_at (regparse s - 2)%nat);
          let class := code before + 1 in
          let classend := code c in
          if classend + 1 <? class then FAIL
          else _ ← emit (byte_range class classend); _ ← skip; class_loop fuel
      else _ ← regc c; _ ← skip; class_loop fuel
  end.
(** a bracket or a dash that comes first stands for itself *)
Definition class_lead : creg () :=
  c ← peek;
  if (c =c chr 93) || (c =c chr 45) then (_ ← regc c; skip) else mret ().
Definition class_rest : creg () :=
  _ ← class_loop (S (length exp));
  _ ← regc NUL;
  c ← peek;
  if negb (c =c chr 93) then FAIL else skip.
(** behind a '[' *)
Definition regclass : creg (option nat * flags) :=
  c ← peek;
  ret ← (if c =c chr 94 then (ret ← regnode ANYBUT; _ ← skip; mret ret) else regnode ANYOF);
  _ ← class_lead;
  _ ← class_rest;
  mret (ret, WIDTH_SIMPLE).

(** the loop over the characters of a string that is matched exactly; is it more than one? *)
Fixpoint exactly_loop (fuel : nat) (regprev : option nat) : creg bool :=
  match fuel with
  | O => no_fuel
  | S fuel =>
      ch ← getc;
      c ← peek;
      if is_magic c then (_ ← regc ch; mret (bool_decide (is_Some regprev)))
      else if ISMULT c then
        match regprev with
        | None => _ ← regc ch; mret false
        | Some p => _ ← set_parse p; mret true
        end
      else if c =c chr 92 then
        _ ← regc ch;
        c ← peek1;
        if not_quoted c then mret (bool_decide (is_Some regprev))
        else
          s ← get_st;
          _ ← skip;
          exactly_loop fuel (Some (regparse s))
      else
        _ ← regc ch;
        s ← get_st;
        exactly_loop fuel (Some (regparse s))
  end.
Definition regexactly : creg (option nat * flags) :=
  ret ← regnode EXACTLY;
  more ← exactly_loop (S (length exp)) None;
  _ ← regc NUL;
  mret (ret, if more : bool then HAS_WIDTH else WIDTH_SIMPLE).

(** behind a backslash *)
Definition regquoted (c : ascii) : creg (option nat * flags) :=
  if c =c NUL then FAIL
  else if c =c chr 60 then (_ ← skip; ret ← regnode WORDA; mret (ret, WORST))
  else if c =c chr 62 then (_ ← skip; ret ← regnode WORDZ; mret (ret, WORST))
  else regexactly.
(** the switch over the next character; [reg]: what stands in parentheses *)
Definition regatom_at (reg : creg (option nat * flags)) (c : ascii) : creg (option nat * flags) :=
  if c =c chr 94 then (_ ← skip; ret ← regnode BOL; mret (ret, WORST))
  else if c =c chr 36 then (_ ← skip; ret ← regnode EOL; mret (ret, WORST))
  else if c =c chr 46 then (_ ← skip; ret ← regnode ANY; mret (ret, WIDTH_SIMPLE))
  else if c =c chr 91 then (_ ← skip; regclass)
  else if c =c chr 40 then
    _ ← skip;
    '(ret, f) ← reg;
    mret (ret, Flags (HASWIDTH f) false (SPSTART f))
  else if ends_branch c || ISMULT c then FAIL
  else if c =c chr 92 then (_ ← skip; c ← peek; regquoted c)
  else regexactly.
Definition regatom (reg : creg (option nat * flags)) : creg (option nat * flags) := c ← peek; regatom_at reg c.

Definition mult_flags (op : ascii) : flags :=
  if negb (op =c chr 43) then Flags false false true else Flags true false false.
(** what a multiplier makes of the operand that was written last: x* is (x&|),
    x+ is x(&|), where & is the whole, and x? is (x|) *)
Definition regmult (op : ascii) (f : flags) (ret : option nat) : creg () :=
  if (op =c chr 42) && SIMPLE f then reginsert STAR ret
  else if op =c chr 42 then
    _ ← reginsert BRANCH ret;
    p ← regnode BACK; _ ← regoptail ret p;
    _ ← regoptail ret ret;
    p ← regnode BRANCH; _ ← regtail ret p;
    p ← regnode NOTHING; regtail ret p
  else if (op =c chr 43) && SIMPLE f then reginsert PLUS ret
  else if op =c chr 43 then
    next ← regnode BRANCH;
    _ ← regtail ret next;
    p ← regnode BACK; _ ← regtail p ret;
    p ← regnode BRANCH; _ ← regtail next p;
    p ← regnode NOTHING; regtail ret p
  else
    _ ← reginsert BRANCH ret;
    p ← regnode BRANCH; _ ← regtail ret p;
    next ← regnode NOTHING;
    _ ← regtail ret next;
    regoptail ret next.
Definition regpiece (reg : creg (option nat * flags)) : creg (option nat * flags) :=
  '(ret, f) ← regatom reg;
  op ← peek;
  if negb (ISMULT op) then mret (ret, f)
  else if negb (HASWIDTH f) && negb (op =c chr 63) then FAIL
  else
    _ ← regmult op f ret;
    _ ← skip;
    c ← peek;
    if ISMULT c then FAIL else mret (ret, mult_flags op).

(** [chain]: the latest piece *)
Fixpoint regbranch_loop (reg : creg (option nat * flags)) (fuel : nat) (chain : option (option nat)) (f : flags) :
    creg (option (option nat) * flags) :=
  match fuel with
  | O => no_fuel
  | S fuel =>
      c ← peek;
      if ends_branch c then mret (chain, f)
      else
        '(latest, fl) ← regpiece reg;
        let width := HASWIDTH f || HASWIDTH fl in
        match chain with
        | None => regbranch_loop reg fuel (Some latest) (Flags width (SIMPLE f) (SPSTART f || SPSTART fl))
        | Some chain =>
            _ ← regtail chain latest;
            regbranch_loop reg fuel (Some latest) (Flags width (SIMPLE f) (SPSTART f))
        end
  end.
Definition regbranch (reg : creg (option nat * flags)) : creg (option nat * flags) :=
  ret ← regnode BRANCH;
  '(chain, f) ← regbranch_loop reg (S (length exp)) None WORST;
  _ ← match chain with None => regnode NOTHING | Some _ => mret None end;
  mret (ret, f).

(** the branches after the first one *)
Fixpoint branches_loop (reg : creg (option nat * flags)) (fuel : nat) (ret : option nat) (f : flags) : creg flags :=
  match fuel with
  | O => no_fuel
  | S fuel =>
      c ← peek;
      if (c =c chr 124) || (c =c NL) then
        _ ← skip;
        '(br, fl) ← regbranch reg;
        _ ← regtail ret br;
        branches_loop reg fuel ret (Flags (HASWIDTH f && HASWIDTH fl) (SIMPLE f) (SPSTART f || SPSTART fl))
      else mret f
  end.
(** the tails of the branches lead to what closes them *)
Fixpoint hook_tails (fuel : nat) (br : option nat) (ender : option nat) : creg () :=
  match fuel, br with
  | O, _ => no_fuel
  | S fuel, None => mret ()
  | S fuel, Some p =>
      _ ← regoptail br ender;
      s ← get_st;
      match regcode s with
      | None => fault
      | Some c => next ← lift (regnext c p); hook_tails fuel next ender
      end
  end.
(** the closing node, and what must come then *)
Definition reg_close (paren : bool) (op : Z) (ret : option nat) (f : flags) : creg (option nat * flags) :=
  ender ← regnode op;
  _ ← regtail ret ender;
  s ← get_st;
  _ ← match regcode s with None => mret () | Some c => hook_tails (S (length c)) ret ender end;
  c ← peek;
  if paren then (_ ← skip; if negb (c =c chr 41) then FAIL else mret (ret, f))
  else if negb (c =c NUL) then FAIL else mret (ret, f).
(** [fuel]: how deep the parentheses may be nested *)
Fixpoint reg (fuel : nat) (paren : bool) : creg (option nat * flags) :=
  match fuel with
  | O => no_fuel
  | S fuel =>
      s ← get_st;
      let parno := regnpar s in
      if paren && (NSUBEXP <=? parno)%nat then FAIL
      else
        opened ← (if paren then (_ ← set_npar (S parno); regnode (OPEN + Z.of_nat parno)) else mret None);
        '(br, fl) ← regbranch (reg fuel true);
        _ ← (if paren then regtail opened br else mret ());
        let ret := if paren then opened else br in
        f ← branches_loop (reg fuel true) (S (length exp)) ret (Flags (HASWIDTH fl) false (SPSTART fl));
        reg_close paren (if paren then CLOSE + Z.of_nat parno else END) ret f
  end.
End Compile.

(** ** regcomp *)

(** the program and what helps to match it faster: the byte a match begins
    with (NUL if that is not known), is it anchored, a string that must occur;
    the places of the match and its parts in the string *)
Record regexp := Regexp {
  startp : list (option nat); endp : list (option nat);
  regstart : ascii; reganch : bool; regmust : option nat; regmlen : nat; program : list ascii }.

(** the longest string among the nodes of a chain, the last one of that length *)
Fixpoint longest_loop (prog : list ascii) (fuel : nat) (scan : option nat) (longest : option nat) (len : nat) :
    outcome (option nat * nat) :=
  match fuel, scan with
  | O, _ => NoFuel
  | S fuel, None => Ret (longest, len)
  | S fuel, Some p =>
      op ← OP prog p;
      next ← regnext prog p;
      if op =? EXACTLY then
        s ← string_at prog (OPERAND p);
        if (len <=? length s)%nat then longest_loop prog fuel next (Some (OPERAND p)) (length s)
        else longest_loop prog fuel next longest len
      else longest_loop prog fuel next longest len
  end.
(** from the first BRANCH *)
Definition optimise (prog : list ascii) (f : flags) : outcome regexp :=
  let none := replicate NSUBEXP None in
  let plain := Regexp none none NUL false None 0 prog in
  next ← regnext prog 1;
  match next with
  | None => Fault
  | Some p =>
      op ← OP prog p;
      if op =? END then
        let scan := OPERAND 1 in
        op ← OP prog scan;
        start ← (if op =? EXACTLY then rd prog (OPERAND scan) else Ret NUL);
        let anch := op =? BOL in
        if SPSTART f then
          '(longest, len) ← longest_loop prog (S (length prog)) (Some scan) None 0;
          Ret (Regexp none none start anch longest len prog)
        else Ret (Regexp none none start anch None 0 prog)
      else Ret plain
  end.
(** aid grep: a pattern may begin anywhere anyway *)
Definition aid_grep (exp : cstr) : cstr :=
  match exp with
  | c1 :: c2 :: rest => if (c1 =c chr 46) && (c2 =c chr 42) then rest else exp
  | _ => exp
  end.
(** [malloc_ok]: is there space for the program *)
Definition regcomp (malloc_ok : Z → bool) (exp : option cstr) : outcome (option regexp) :=
  match exp with
  | None => Ret None
  | Some exp =>
      let exp := aid_grep exp in
      let pass room := _ ← regc room (chr MAGIC); reg exp room (S (S (length exp))) false in
      first ← pass 0%nat (CState 0 1 None 0);
      match first with
      | None => Ret None
      | Some (_, s) =>
          if 32767 <=? regsize s then Ret None
          else if negb (malloc_ok (regsize s)) then Ret None
          else
            second ← pass (Z.to_nat (regsize s) + 1)%nat (CState 0 1 (Some []) 0);
            match second with
            | None => Ret None
            | Some ((_, f), s) => match regcode s with None => Fault | Some prog => r ← optimise prog f; Ret (Some r) end
            end
      end
  end.

(** ** Matching

    [string] is the whole string, regbol its beginning; a place in it is an
    offset.  regmatch returns the state after a match and [None] without one:
    its callers never read the place that a failed attempt leaves. *)

Record mstate := MState { reginput : nat; regstartp : list (option nat); regendp : list (option nat) }.
Definition at_input (i : nat) (st : mstate) : mstate := MState i (regstartp st) (regendp st).
(** the part gets its place unless a later turn has set it already *)
Definition set_startp (no i : nat) (st : mstate) : mstate :=
  MState (reginput st) (match regstartp st !! no with Some None => <[no := Some i]> (regstartp st) | _ => regstartp st end)
    (regendp st).
Definition set_endp (no i : nat) (st : mstate) : mstate :=
  MState (reginput st) (regstartp st)
    (match regendp st !! no with Some None => <[no := Some i]> (regendp st) | _ => regendp st end).

Section Match.
Context (prog : list ascii) (string : cstr).

(** the character at a place, NUL at the end *)
Definition input (i : nat) : ascii := default NUL (string !! i).
Definition is_word (c : ascii) : bool := isalnum c || (c =c chr 95).

(** does a node that matches one character match this one *)
Definition any_char (c : ascii) : bool := negb (c =c NUL).
Definition in_set (set : cstr) (c : ascii) : bool := negb (c =c NUL) && bool_decide (c ∈ set).
Definition not_in_set (set : cstr) (c : ascii) : bool := negb (c =c NUL) && negb (bool_decide (c ∈ set)).

Definition regrepeat (p i : nat) : outcome nat :=
  op ← OP prog p;
  let count (f : ascii → bool) := length (takewhile f (drop i string)) in
  if op =? ANY then Ret (length string - i)%nat
  else if op =? EXACTLY then
    s ← string_at prog (OPERAND p);
    Ret (count (λ c, c =c hd NUL s))
  else if op =? ANYOF then s ← string_at prog (OPERAND p); Ret (count (in_set s))
  else if op =? ANYBUT then s ← string_at prog (OPERAND p); Ret (count (not_in_set s))
  else Ret 0%nat.

(** the attempts with [no], then one less, down to [min] repetitions *)
Fixpoint star_loop (try : nat → outcome (option mstate)) (nextch : ascii) (save min no : nat) : outcome (option mstate) :=
  if (no <? min)%nat then Ret None
  else
    r ← (if (nextch =c NUL) || (input (save + no)%nat =c nextch) then try (save + no)%nat else Ret None);
    match r with
    | Some st => Ret (Some st)
    | None => match no with O => Ret None | S no => star_loop try nextch save min no end
    end.

(** the alternatives from a BRANCH on *)
Fixpoint branch_loop (try : nat → outcome (option mstate)) (fuel scan : nat) : outcome (option mstate) :=
  match fuel with
  | O => NoFuel
  | S fuel =>
      r ← try (OPERAND scan);
      match r with
      | Some st => Ret (Some st)
      | None =>
          next ← regnext prog scan;
          match next with
          | None => Ret None
          | Some q => op ← OP prog q; if op =? BRANCH then branch_loop try fuel q else Ret None
          end
      end
  end.

(** what a node without alternatives does: the place after it *)
Definition step_node (op : Z) (scan i : nat) : outcome (option nat) :=
  let c := input i in
  let one (f : ascii → bool) := Ret (if f c then Some (S i) else None) in
  if op =? BOL then Ret (if (i =? 0)%nat then Some i else None)
  else if op =? EOL then Ret (if c =c NUL then Some i else None)
  else if op =? WORDA then
    Ret (if negb (is_word c) then None
         else if (0 <? i)%nat && is_word (input (i - 1)) then None else Some i)
  else if op =? WORDZ then Ret (if is_word c then None else Some i)
  else if op =? ANY then one any_char
  else if op =? EXACTLY then
    opnd ← string_at prog (OPERAND scan);
    let len := length opnd in
    if negb (hd NUL opnd =c c) then Ret None
    else if (1 <? len)%nat && negb (strncmp opnd (drop i string) len =? 0) then Ret None
    else Ret (Some (i + len)%nat)
  else if op =? ANYOF then opnd ← string_at prog (OPERAND scan); one (in_set opnd)
  else if op =? ANYBUT then opnd ← string_at prog (OPERAND scan); one (not_in_set opnd)
  else if (op =? NOTHING) || (op =? BACK) then Ret (Some i)
  else Ret None.

(** one call and one turn of its loop each take fuel *)
Fixpoint regmatch (fuel : nat) (scan : nat) (st : mstate) : outcome (option mstate) :=
  match fuel with
  | O => NoFuel
  | S fuel =>
      next ← regnext prog scan;
      op ← OP prog scan;
      let save := reginput st in
      (* scan = next *)
      let continue (st : mstate) :=
        match next with None => Ret None | Some q => regmatch fuel q st end in
      if op =? END then Ret (Some st)
      else if (OPEN <? op) && (op <=? OPEN + 9) then
        r ← continue st; Ret (option_map (set_startp (Z.to_nat (op - OPEN)) save) r)
      else if (CLOSE <? op) && (op <=? CLOSE + 9) then
        r ← continue st; Ret (option_map (set_endp (Z.to_nat (op - CLOSE)) save) r)
      else if op =? BRANCH then
        match next with
        | None => Fault
        | Some q =>
            op ← OP prog q;
            if negb (op =? BRANCH) then regmatch fuel (OPERAND scan) st
            else branch_loop (λ p, regmatch fuel p st) (S (length prog)) scan
        end
      else if (op =? STAR) || (op =? PLUS) then
        match next with
        | None => Fault
        | Some q =>
            nop ← OP prog q;
            nextch ← (if nop =? EXACTLY then rd prog (OPERAND q) else Ret NUL);
            no ← regrepeat (OPERAND scan) save;
            star_loop (λ i, regmatch fuel q (at_input i st)) nextch save (if op =? STAR then 0 else 1) no
        end
      else
        r ← step_node op scan save;
        match r with None => Ret None | Some i => continue (at_input i st) end
  end.
End Match.

(** enough for every path through the program: between two characters no node is visited twice *)
Definition match_fuel (prog : list ascii) (string : cstr) : nat := S (length prog) * S (length string).

Definition regtry (prog : regexp) (string : cstr) (s : nat) : outcome (bool * regexp) :=
  let none := replicate NSUBEXP None in
  r ← regmatch (program prog) string (match_fuel (program prog) string) 1 (MState s none none);
  let with_places startp endp :=
    Regexp startp endp (regstart prog) (reganch prog) (regmust prog) (regmlen prog) (program prog) in
  Ret match r with
      | Some st => (true, with_places (<[0%nat := Some s]> (regstartp st)) (<[0%nat := Some (reginput st)]> (regendp st)))
      | None => (false, with_places none none)
      end.

(** strchr from a place on *)
Definition strchr_from (string : cstr) (s : nat) (c : ascii) : option nat := (λ n, (s + n)%nat) <$> strchr (drop s string) c.
(** is the string that must appear there *)
Fixpoint must_loop (string must : cstr) (len : nat) (fuel s : nat) : outcome bool :=
  match fuel with
  | O => NoFuel
  | S fuel =>
      match strchr_from string s (hd NUL must) with
      | None => Ret false
      | Some s => if strncmp (drop s string) must len =? 0 then Ret true else must_loop string must len fuel (S s)
      end
  end.
(** the places where the string has the byte a match begins with *)
Fixpoint start_loop (prog : regexp) (string : cstr) (fuel s : nat) : outcome (bool * regexp) :=
  match fuel with
  | O => NoFuel
  | S fuel =>
      match strchr_from string s (regstart prog) with
      | None => Ret (false, prog)
      | Some s =>
          '(ok, prog) ← regtry prog string s;
          if ok : bool then Ret (true, prog) else start_loop prog string fuel (S s)
      end
  end.
Fixpoint every_loop (prog : regexp) (string : cstr) (fuel s : nat) : outcome (bool * regexp) :=
  match fuel with
  | O => NoFuel
  | S fuel =>
      '(ok, prog) ← regtry prog string s;
      if ok : bool then Ret (true, prog)
      else if (s <? length string)%nat then every_loop prog string fuel (S s) else Ret (false, prog)
  end.
Definition regexec (prog : option regexp) (string : option cstr) : outcome (bool * option regexp) :=
  match prog, string with
  | Some r, Some string =>
      magic ← rd (program r) 0;
      if negb (code magic =? MAGIC) then Ret (false, prog)
      else
        must ← match regmust r with
               | None => Ret true
               | Some p => must ← string_at (program r) p; must_loop string must (regmlen r) (S (length string)) 0
               end;
        if negb must then Ret (false, prog)
        else
          '(ok, r) ← (if reganch r then regtry r string 0
                      else if negb (regstart r =c NUL) then start_loop r string (S (length string)) 0
                      else every_loop r string (S (length string)) 0);
          Ret (ok, Some r)
  | _, _ => Ret (false, prog)
  end.

(** the usual way: compile and match *)
Definition matches (re s : cstr) : outcome bool :=
  r ← regcomp (λ _, true) (Some re);
  '(ok, _) ← regexec r (Some s);
  Ret ok.
