(* ===== verification/RegexpSyntax.v ===== *)
(** * Regular expressions: syntax and meaning

    The abstract syntax of the patterns of regexp/regexp.c, the grammar as a
    parser of strings, what an expression matches, and the program that stands
    for it.  RegexpCompile.v shows that regcomp writes that program,
    RegexpExec.v that regexec finds what the expression matches. *)

From stdpp Require Import relations.
From S2P Require Import Prelude CLib Regexp.

(** ** Abstract syntax *)

Inductive mult := Star | Plus | Opt.
#[export] Instance mult_eq : EqDecision mult.
Proof. solve_decision. Defined.

(** [Group]: a part in parentheses, with its number.  A branch is a sequence of
    pieces; it is not [Seq p Empty]. *)
Inductive atom :=
| Bol | Eol | WordA | WordZ | Any
| Class (complement : bool) (set : cstr)
| Exact (s : cstr)
| Group (no : nat) (r : alts)
with piece := Plain (a : atom) | Mult (a : atom) (m : mult)
with branch := Empty | Last (p : piece) | Seq (p : piece) (b : branch)
with alts := One (b : branch) | Alt (b : branch) (r : alts).

Scheme atom_mind := Induction for atom Sort Prop
  with piece_mind := Induction for piece Sort Prop
  with branch_mind := Induction for branch Sort Prop
  with alts_mind := Induction for alts Sort Prop.
Combined Scheme syntax_mind from atom_mind, piece_mind, branch_mind, alts_mind.

(** Never an empty match, and the beginning with a loop that is expensive, as
    far as the compiler knows *)
Fixpoint atom_width (a : atom) : bool :=
  match a with
  | Bol | Eol | WordA | WordZ => false
  | Any | Class _ _ | Exact _ => true
  | Group _ r => alts_width r
  end
with piece_width (p : piece) : bool :=
  match p with Plain a => atom_width a | Mult _ Plus => true | Mult _ _ => false end
with branch_width (b : branch) : bool :=
  match b with Empty => false | Last p => piece_width p | Seq p b => piece_width p || branch_width b end
with alts_width (r : alts) : bool :=
  match r with One b => branch_width b | Alt b r => branch_width b && alts_width r end.
Fixpoint atom_spstart (a : atom) : bool :=
  match a with Group _ r => alts_spstart r | _ => false end
with piece_spstart (p : piece) : bool :=
  match p with Plain a => atom_spstart a | Mult _ Plus => false | Mult _ _ => true end
with branch_spstart (b : branch) : bool :=
  match b with Empty => false | Last p | Seq p _ => piece_spstart p end
with alts_spstart (r : alts) : bool :=
  match r with One b => branch_spstart b | Alt b r => branch_spstart b || alts_spstart r end.

(** one character per match: an operand of STAR and PLUS *)
Definition simple (a : atom) : bool :=
  match a with Any | Class _ _ => true | Exact [_] => true | _ => false end.

(** the expressions that the grammar yields: strings are not empty, there are
    at most nine parts, and what is repeated is never empty *)
Fixpoint atom_ok (a : atom) : Prop :=
  match a with
  | Class _ set => NUL ∉ set
  | Exact s => s ≠ [] ∧ NUL ∉ s
  | Group no r => 0 < no < NSUBEXP ∧ alts_ok r
  | _ => True
  end
with piece_ok (p : piece) : Prop :=
  match p with Plain a => atom_ok a | Mult a m => atom_ok a ∧ (m ≠ Opt → atom_width a = true) end
with branch_ok (b : branch) : Prop :=
  match b with Empty => True | Last p => piece_ok p | Seq p b => piece_ok p ∧ branch_ok b end
with alts_ok (r : alts) : Prop :=
  match r with One b => branch_ok b | Alt b r => branch_ok b ∧ alts_ok r end.

(** ** What an expression matches

    [atom_matches s a i j]: from place [i] of the string [s] to place [j]. *)

Section Matches.
Context (s : cstr).

Definition word_at (i : nat) : bool := is_word (default NUL (s !! i)).
Definition repeated (m : mult) (P : nat → nat → Prop) (i j : nat) : Prop :=
  match m with Star => rtc P i j | Plus => tc P i j | Opt => i = j ∨ P i j end.

Fixpoint atom_matches (a : atom) (i j : nat) : Prop :=
  match a with
  | Bol => i = 0 ∧ j = i
  | Eol => i = length s ∧ j = i
  | WordA => word_at i = true ∧ (i = 0 ∨ word_at (i - 1) = false) ∧ j = i
  | WordZ => word_at i = false ∧ j = i
  | Any => i < length s ∧ j = S i
  | Class complement set => ∃ c, s !! i = Some c ∧ (if complement then c ∉ set else c ∈ set) ∧ j = S i
  | Exact t => t `prefix_of` drop i s ∧ j = i + length t
  | Group _ r => alts_matches r i j
  end
with piece_matches (p : piece) : nat → nat → Prop :=
  match p with
  | Plain a => atom_matches a
  | Mult a m => repeated m (atom_matches a)
  end
with branch_matches (b : branch) (i j : nat) : Prop :=
  match b with
  | Empty => i = j
  | Last p => piece_matches p i j
  | Seq p b => ∃ k, piece_matches p i k ∧ branch_matches b k j
  end
with alts_matches (r : alts) (i j : nat) : Prop :=
  match r with
  | One b => branch_matches b i j
  | Alt b r => branch_matches b i j ∨ alts_matches r i j
  end.
End Matches.

(** ** The program of an expression *)

Fixpoint atom_size (a : atom) : nat :=
  match a with
  | Class _ set => 4 + length set
  | Exact s => 4 + length s
  | Group _ r => 6 + alts_size r
  | _ => 3
  end
with piece_size (p : piece) : nat :=
  match p with
  | Plain a => atom_size a
  | Mult a Opt => 9 + atom_size a
  | Mult a _ => if simple a then 3 + atom_size a else 12 + atom_size a
  end
with branch_size (b : branch) : nat :=
  match b with Empty => 3 | Last p => piece_size p | Seq p b => piece_size p + branch_size b end
with alts_size (r : alts) : nat :=
  match r with One b => 3 + branch_size b | Alt b r => 3 + branch_size b + alts_size r end.

Definition node (op : Z) (distance : nat) : list ascii :=
  let '(hi, lo) := offset_bytes (Z.of_nat distance) in [chr op; hi; lo].
(** how far it is from [n] bytes before the end of a part to what comes after
    it, which is [t] bytes behind the end; nothing is known of it at first *)
Definition dist (n : nat) (t : option nat) : nat := match t with None => 0 | Some k => n + k end.
Definition further (n : nat) (t : option nat) : option nat := Nat.add n <$> t.

(** [t]: how far behind the end of its program an expression goes on *)
Fixpoint atom_code (a : atom) (t : option nat) : list ascii :=
  let plain op := node op (dist 3 t) in
  match a with
  | Bol => plain BOL
  | Eol => plain EOL
  | WordA => plain WORDA
  | WordZ => plain WORDZ
  | Any => plain ANY
  | Class complement set => node (if complement then ANYBUT else ANYOF) (dist (4 + length set) t) ++ set ++ [NUL]
  | Exact s => node EXACTLY (dist (4 + length s) t) ++ s ++ [NUL]
  | Group no r => node (OPEN + Z.of_nat no) 3 ++ alts_code r (Some 0) (Some 0) ++ node (CLOSE + Z.of_nat no) (dist 3 t)
  end
with piece_code (p : piece) (t : option nat) : list ascii :=
  match p with
  | Plain a => atom_code a t
  | Mult a Star =>
      if simple a then node STAR (dist (3 + atom_size a) t) ++ atom_code a None
      else node BRANCH (6 + atom_size a) ++ atom_code a (Some 0) ++ node BACK (3 + atom_size a)
           ++ node BRANCH 3 ++ node NOTHING (dist 3 t)
  | Mult a Plus =>
      if simple a then node PLUS (dist (3 + atom_size a) t) ++ atom_code a None
      else atom_code a (Some 0) ++ node BRANCH 6 ++ node BACK (3 + atom_size a) ++ node BRANCH 3 ++ node NOTHING (dist 3 t)
  | Mult a Opt => node BRANCH (3 + atom_size a) ++ atom_code a (Some 3) ++ node BRANCH 3 ++ node NOTHING (dist 3 t)
  end
with branch_code (b : branch) (t : option nat) : list ascii :=
  match b with
  | Empty => node NOTHING (dist 3 t)
  | Last p => piece_code p t
  | Seq p b => piece_code p (Some 0) ++ branch_code b t
  end
(** [next]: where the last branch leads if it fails, [t]: where the branches go on *)
with alts_code (r : alts) (next t : option nat) : list ascii :=
  match r with
  | One b => node BRANCH (dist (3 + branch_size b) next) ++ branch_code b t
  | Alt b r => node BRANCH (3 + branch_size b) ++ branch_code b (further (alts_size r) t) ++ alts_code r next t
  end.

Definition program_code (r : alts) : list ascii := chr MAGIC :: alts_code r (Some 0) (Some 0) ++ node END 0.
Definition program_size (r : alts) : nat := 4 + alts_size r.

(** ** The grammar

    What follows an expression in the pattern is the rest; [n] counts the
    parentheses.  [None] is a pattern that is not well formed. *)

(** the characters of a class up to the bracket that closes it; [before]: the
    character in front of them *)
Fixpoint class_chars (before : ascii) (l : cstr) : option (cstr * cstr) :=
  match l with
  | [] => None
  | c :: l =>
      if c =c chr 93 then Some ([], l)
      else if c =c chr 45 then
        match l with
        | [] => None
        | last :: l =>
            if last =c chr 93 then Some ([chr 45], l)
            else if (code last <? code before)%Z then None
            else '(set, rest) ← class_chars last l; Some (byte_range (code before + 1) (code last) ++ set, rest)
        end
      else '(set, rest) ← class_chars c l; Some (c :: set, rest)
  end.
(** a bracket or a dash that comes first stands for itself *)
Definition class_set (l : cstr) : option (cstr * cstr) :=
  match l with
  | c :: l' =>
      if (c =c chr 93) || (c =c chr 45) then '(set, rest) ← class_chars c l'; Some (c :: set, rest)
      else class_chars NUL l
  | [] => None
  end.
Definition parse_class (l : cstr) : option (atom * cstr) :=
  if hd NUL l =c chr 94 then '(set, rest) ← class_set (tl l); Some (Class true set, rest)
  else '(set, rest) ← class_set l; Some (Class false set, rest).

(** [prev]: the pattern from the last character on that was taken *)
Fixpoint exact_chars (prev : option cstr) (l : cstr) : cstr * cstr :=
  match l with
  | [] => ([], [])
  | ch :: l =>
      let c := hd NUL l in
      if is_magic c then ([ch], l)
      else if ISMULT c then match prev with None => ([ch], l) | Some p => ([], p) end
      else if c =c chr 92 then
        match l with
        | _ :: l' => if not_quoted (hd NUL l') then ([ch], l) else let '(s, rest) := exact_chars (Some l) l' in (ch :: s, rest)
        | [] => ([ch], l)
        end
      else let '(s, rest) := exact_chars (Some l) l in (ch :: s, rest)
  end.

(** A parser takes the count of parentheses and the rest of the pattern. *)
Section Parse.
(** what stands in parentheses, up to the closing one *)
Context (parse_group : nat → cstr → outcome (option (alts * nat * cstr))).

Definition parse_atom (n : nat) (l : cstr) : outcome (option (atom * nat * cstr)) :=
  let exactly l := let '(s, rest) := exact_chars None l in Ret (Some (Exact s, n, rest)) in
  match l with
  | [] => Ret None
  | c :: l' =>
      if c =c chr 94 then Ret (Some (Bol, n, l'))
      else if c =c chr 36 then Ret (Some (Eol, n, l'))
      else if c =c chr 46 then Ret (Some (Any, n, l'))
      else if c =c chr 91 then Ret ('(a, rest) ← parse_class l'; Some (a, n, rest))
      else if c =c chr 40 then
        if (NSUBEXP <=? n)%nat then Ret None
        else
          r ← parse_group (S n) l';
          Ret match r with Some (r, n', rest) => Some (Group n r, n', rest) | None => None end
      else if ends_branch c || ISMULT c then Ret None
      else if c =c chr 92 then
        match l' with
        | [] => Ret None
        | c' :: l'' =>
            if c' =c chr 60 then Ret (Some (WordA, n, l''))
            else if c' =c chr 62 then Ret (Some (WordZ, n, l''))
            else exactly l'
        end
      else exactly l
  end.
Definition mult_of (c : ascii) : option mult :=
  if c =c chr 42 then Some Star else if c =c chr 43 then Some Plus else if c =c chr 63 then Some Opt else None.
Definition parse_piece (n : nat) (l : cstr) : outcome (option (piece * nat * cstr)) :=
  x ← parse_atom n l;
  Ret match x with
      | None => None
      | Some (a, n, l) =>
          match mult_of (hd NUL l) with
          | None => Some (Plain a, n, l)
          | Some m =>
              if negb (atom_width a) && negb (bool_decide (m = Opt)) then None
              else if ISMULT (hd NUL (tl l)) then None
              else Some (Mult a m, n, tl l)
          end
      end.
Fixpoint parse_branch (fuel n : nat) (l : cstr) : outcome (option (branch * nat * cstr)) :=
  match fuel with
  | O => NoFuel
  | S fuel =>
      if ends_branch (hd NUL l) then Ret (Some (Empty, n, l))
      else
        x ← parse_piece n l;
        match x with
        | None => Ret None
        | Some (p, n, l) =>
            x ← parse_branch fuel n l;
            Ret match x with
                | Some (Empty, n, l) => Some (Last p, n, l)
                | Some (b, n, l) => Some (Seq p b, n, l)
                | None => None
                end
        end
  end.
Fixpoint parse_alts (fuel n : nat) (l : cstr) : outcome (option (alts * nat * cstr)) :=
  match fuel with
  | O => NoFuel
  | S fuel =>
      x ← parse_branch (S (length l)) n l;
      match x with
      | None => Ret None
      | Some (b, n, l) =>
          if (hd NUL l =c chr 124) || (hd NUL l =c NL) then
            x ← parse_alts fuel n (tl l);
            Ret match x with Some (r, n, l) => Some (Alt b r, n, l) | None => None end
          else Ret (Some (One b, n, l))
      end
  end.
End Parse.

(** [depth]: how deep the parentheses may be nested *)
Fixpoint parse_group (depth n : nat) (l : cstr) : outcome (option (alts * nat * cstr)) :=
  match depth with
  | O => NoFuel
  | S depth =>
      x ← parse_alts (parse_group depth) (S (length l)) n l;
      Ret match x with
          | Some (r, n, c :: rest) => if c =c chr 41 then Some (r, n, rest) else None
          | _ => None
          end
  end.
(** a whole pattern *)
Definition parse (exp : cstr) : outcome (option alts) :=
  x ← parse_alts (parse_group (length exp)) (S (length exp)) 1 exp;
  Ret match x with Some (r, _, []) => Some r | _ => None end.
