(* ===== verification/RegexpCompile.v ===== *)
(** * Regular expressions: the compiler is correct

    regcomp accepts exactly the patterns of the grammar and writes the program
    of the expression: both passes go over the pattern in the same way, the
    first one counts the bytes that the second one writes, and setting the
    distances afterwards gives the distances of the program. *)

From stdpp Require Import relations.
From S2P Require Import Prelude CLib Regexp RegexpSyntax.

(** ** Distances *)

Lemma code_chr_land z : code (chr (Z.land z 255)) = (z mod 256)%Z.
Proof.
  replace 255%Z with (Z.ones 8) by reflexivity. rewrite Z.land_ones by lia. change (2 ^ 8)%Z with 256%Z.
  apply code_chr. apply Z.mod_pos_bound. lia.
Qed.
Lemma offset_roundtrip d : (0 ≤ d < 65536)%Z →
  (Z.shiftl (code (offset_bytes d).1) 8 + code (offset_bytes d).2)%Z = d.
Proof.
  intros H. unfold offset_bytes. cbn [fst snd]. rewrite !code_chr_land, Z.shiftr_div_pow2, Z.shiftl_mul_pow2 by lia.
  change (2 ^ 8)%Z with 256%Z. rewrite (Z.mod_small (d / 256)) by (split; [apply Z.div_pos; lia|apply Z.div_lt_upper_bound; lia]).
  pose proof (Z.div_mod d 256). lia.
Qed.
Lemma node_length op d : length (node op d) = 3.
Proof. unfold node. by destruct (offset_bytes _). Qed.

Lemma rd_shift pre l i : rd (pre ++ l) (length pre + i) = rd l i.
Proof. unfold rd. rewrite lookup_app_r by lia. by replace (length pre + i - length pre) with i by lia. Qed.
Lemma wr_shift pre l i c : wr (pre ++ l) (length pre + i) c = (l' ← wr l i c; Ret (pre ++ l')).
Proof.
  unfold wr. rewrite length_app. destruct (decide (i < length l)).
  - rewrite decide_True by lia. cbn [mbind outcome_bind]. rewrite insert_app_r_alt by lia.
    by replace (length pre + i - length pre) with i by lia.
  - rewrite decide_False by lia. done.
Qed.

(** an operation code *)
Definition is_op (op : Z) : Prop := (0 ≤ op < 256)%Z.

Lemma OP_node op d pre post : is_op op → OP (pre ++ node op d ++ post) (length pre) = Ret op.
Proof.
  intros H. unfold OP, node. destruct (offset_bytes _) as [hi lo]. cbn [app]. rewrite rd_app by done. cbn.
  by rewrite code_chr.
Qed.
Lemma NEXT_node op d pre post : (Z.of_nat d < 65536)%Z → NEXT (pre ++ node op d ++ post) (length pre) = Ret (Z.of_nat d).
Proof.
  intros H. pose proof (offset_roundtrip (Z.of_nat d) ltac:(lia)) as E. unfold NEXT, node.
  destruct (offset_bytes _) as [hi lo]. cbn [fst snd] in E. rewrite !rd_shift. cbn. by rewrite E.
Qed.
Lemma regnext_node op d pre post : is_op op → (op ≠ BACK) → 0 < d → (Z.of_nat d < 65536)%Z →
  regnext (pre ++ node op d ++ post) (length pre) = Ret (Some (length pre + d)).
Proof.
  intros Hop Hb Hd0 Hd. unfold regnext. rewrite NEXT_node by lia. cbn [mbind outcome_bind].
  destruct (Z.eqb_spec (Z.of_nat d) 0); [lia|]. rewrite OP_node by done. cbn [mbind outcome_bind].
  destruct (Z.eqb_spec op BACK); [done|]. destruct (Z.ltb_spec (Z.of_nat (length pre) + Z.of_nat d) 0); [lia|].
  do 2 f_equal. lia.
Qed.
Lemma regnext_open op pre post : regnext (pre ++ node op 0 ++ post) (length pre) = Ret None.
Proof. unfold regnext. by rewrite NEXT_node by lia. Qed.
Lemma set_next_node op d d' pre post :
  set_next (pre ++ node op d ++ post) (length pre) (Z.of_nat d') = Ret (pre ++ node op d' ++ post).
Proof.
  unfold set_next, node. destruct (offset_bytes (Z.of_nat d)) as [h l], (offset_bytes (Z.of_nat d')) as [h' l'].
  assert (∀ x y z w, wr (x :: y :: z :: post) 1 w = Ret (x :: w :: z :: post)) as E1
    by (intros; unfold wr; by rewrite decide_True by (cbn; lia)).
  assert (∀ x y z w, wr (x :: y :: z :: post) 2 w = Ret (x :: y :: w :: post)) as E2
    by (intros; unfold wr; by rewrite decide_True by (cbn; lia)).
  cbn [app]. by rewrite wr_shift, E1, bind_Ret, bind_Ret, wr_shift, E2.
Qed.

(** ** Chains *)

(** nodes that lead forward from a place to another *)
Inductive chain (c : list ascii) : nat → nat → Prop :=
| chain_refl p : chain c p p
| chain_step p p' q : regnext c p = Ret (Some p') → p < p' → chain c p' q → chain c p q.
Lemma chain_node pre op d post q :
  is_op op → op ≠ BACK → 0 < d → (Z.of_nat d < 65536)%Z → q = length pre + d →
  chain (pre ++ node op d ++ post) (length pre) q.
Proof. intros Hop Hb Hd Hd' ->. eapply chain_step; [by apply regnext_node|lia|constructor]. Qed.
Lemma chain_trans c p q r : chain c p q → chain c q r → chain c p r.
Proof. induction 1; [done|]. intros ?. econstructor; eauto. Qed.
Lemma chain_le c p q : chain c p q → p ≤ q.
Proof. induction 1; lia. Qed.
Lemma last_node_chain c p q fuel :
  chain c p q → regnext c q = Ret None → q - p < fuel → last_node c fuel p = Ret q.
Proof.
  intros H. revert fuel. induction H as [p|p p' q E Hlt H IH]; intros [|fuel] Hq Hf; [lia| |lia|]; cbn [last_node].
  - by rewrite Hq.
  - rewrite E. cbn [mbind outcome_bind]. pose proof (chain_le _ _ _ H). apply IH; [done|lia].
Qed.

(** Code of [n] bytes that leads to what comes [t] bytes behind it, or ends in
    a node that leads nowhere so far. *)
Record open_code (f : option nat → list ascii) (n : nat) : Prop := {
  oc_len : ∀ t, length (f t) = n;
  oc_link : ∀ pre post k, (Z.of_nat (n + k) < 65536)%Z → chain (pre ++ f (Some k) ++ post) (length pre) (length pre + n + k);
  oc_open : ∀ pre post k, (Z.of_nat n < 65536)%Z → ∃ q op,
    let c := pre ++ f None ++ post in
    chain c (length pre) q ∧ q < length pre + n ∧ regnext c q = Ret None ∧ OP c q = Ret op ∧ op ≠ BACK ∧
    set_next c q (Z.of_nat (length pre + n + k - q)) = Ret (pre ++ f (Some k) ++ post) }.
Arguments oc_len {f n}.
Arguments oc_link {f n}.
Arguments oc_open {f n}.

Lemma open_node op operand :
  is_op op → op ≠ BACK → open_code (λ t, node op (dist (3 + length operand) t) ++ operand) (3 + length operand).
Proof.
  intros Hop Hb. split.
  - intros t. by rewrite length_app, node_length.
  - intros pre post k Hk. cbn [dist]. rewrite <-app_assoc. apply chain_node; first [done|lia].
  - intros pre post k Hn. exists (length pre), op. cbn [dist]. rewrite <-!app_assoc. split_and!; [constructor|lia|..|done|].
    + by rewrite regnext_open.
    + by apply OP_node.
    + replace (length pre + (3 + length operand) + k - length pre) with (3 + length operand + k) by lia.
      by rewrite set_next_node.
Qed.
Lemma open_link f n pre post :
  open_code f n → (Z.of_nat n < 65536)%Z → chain (pre ++ f (Some 0) ++ post) (length pre) (length pre + n).
Proof. intros H Hn. pose proof (oc_link H pre post 0) as E. rewrite !Nat.add_0_r in E. by apply E. Qed.
Lemma open_seq f n g m : open_code f n → open_code g m → open_code (λ t, f (Some 0) ++ g t) (n + m).
Proof.
  intros Hf Hg. assert (∀ pre, length (pre ++ f (Some 0)) = length pre + n) as El
    by (intros pre; by rewrite length_app, (oc_len Hf)). split.
  - intros t. by rewrite length_app, (oc_len Hf), (oc_len Hg).
  - intros pre post k Hk. rewrite <-app_assoc. eapply chain_trans; [apply (oc_link Hf pre _ 0); lia|].
    rewrite Nat.add_0_r, app_assoc, <-El.
    pose proof (oc_link Hg (pre ++ f (Some 0)) post k ltac:(lia)) as H. rewrite El in *.
    replace (length pre + (n + m) + k) with (length pre + n + m + k) by lia. exact H.
  - intros pre post k Hn. destruct (oc_open Hg (pre ++ f (Some 0)) post k) as (q & op & Hc & Hq & H1 & H2 & H3 & H4); [lia|].
    cbv zeta in *. rewrite El in *. rewrite <-!app_assoc in *. exists q, op. split_and!; [|lia|done..|].
    + eapply chain_trans; [apply (oc_link Hf pre _ 0); lia|]. by rewrite Nat.add_0_r.
    + by replace (length pre + (n + m) + k - q) with (length pre + n + m + k - q) by lia.
Qed.
Lemma open_skip op X g m :
  is_op op → op ≠ BACK → (Z.of_nat (3 + length X) < 65536)%Z → open_code g m →
  open_code (λ t, node op (3 + length X) ++ X ++ g t) (3 + length X + m).
Proof.
  intros Hop Hb HX Hg.
  assert (∀ pre, length (pre ++ node op (3 + length X) ++ X) = length pre + (3 + length X)) as El
    by (intros pre; by rewrite !length_app, node_length).
  assert (∀ pre post, chain (pre ++ node op (3 + length X) ++ post) (length pre) (length pre + (3 + length X))) as Hc.
  { intros pre post. apply chain_node; first [done|lia]. }
  split.
  - intros t. by rewrite !length_app, node_length, (oc_len Hg), Nat.add_assoc.
  - intros pre post k Hk. rewrite <-!app_assoc. eapply chain_trans; [apply Hc|].
    pose proof (oc_link Hg (pre ++ node op (3 + length X) ++ X) post k ltac:(lia)) as H. rewrite El in H.
    rewrite <-!app_assoc in H. replace (length pre + (3 + length X + m) + k) with (length pre + (3 + length X) + m + k) by lia.
    exact H.
  - intros pre post k Hn.
    destruct (oc_open Hg (pre ++ node op (3 + length X) ++ X) post k) as (q & op' & Hq & Hlt & H1 & H2 & H3 & H4); [lia|].
    cbv zeta in *. rewrite El in *. rewrite <-!app_assoc in *. exists q, op'. split_and!; [|lia|done..|].
    + eapply chain_trans; [apply Hc|exact Hq].
    + replace (length pre + (3 + length X + m) + k - q) with (length pre + (3 + length X) + m + k - q) by lia. exact H4.
Qed.

(** ** The program of an expression is open *)

Lemma open_ext f g n m : open_code f n → n = m → (∀ t, f t = g t) → open_code g m.
Proof.
  intros H <- E. split.
  - intros t. rewrite <-E. apply H.
  - intros pre post k. rewrite <-E. apply H.
  - intros pre post k. rewrite <-!E. apply H.
Qed.
Lemma code_length :
  (∀ a t, length (atom_code a t) = atom_size a) ∧ (∀ p t, length (piece_code p t) = piece_size p) ∧
  (∀ b t, length (branch_code b t) = branch_size b) ∧ (∀ r nx t, length (alts_code r nx t) = alts_size r).
Proof.
  apply syntax_mind; intros; cbn [atom_code piece_code branch_code alts_code atom_size piece_size branch_size alts_size].
  all: try by rewrite ?node_length.
  all: try destruct m; try destruct (simple a);
    repeat first [rewrite length_app | rewrite node_length | match goal with H : ∀ _, _ |- _ => rewrite H end]; cbn; lia.
Qed.
Definition atom_length := proj1 code_length.
Definition piece_length := proj1 (proj2 code_length).
Definition branch_length := proj1 (proj2 (proj2 code_length)).
Definition alts_length := proj2 (proj2 (proj2 code_length)).

Definition op_ok (op : Z) : Prop := is_op op ∧ op ≠ BACK.
#[local] Hint Extern 1 (is_op _) => (unfold is_op, OPEN, CLOSE, NSUBEXP in *; lia) : core.
#[local] Hint Extern 1 (is_op _) => done : core.
#[local] Hint Extern 1 (_ ≠ BACK) => (unfold OPEN, CLOSE, BACK, NSUBEXP in *; lia) : core.

(** a node without an operand, and one that leads over what follows it *)
Lemma open_plain op : is_op op → op ≠ BACK → open_code (λ t, node op (dist 3 t)) 3.
Proof.
  intros H1 H2. eapply open_ext; [by apply (open_node op [])|done|]. intros t. cbn beta. by rewrite app_nil_r.
Qed.
Lemma open_over op X d g m n :
  is_op op → op ≠ BACK → d = 3 + length X → n = d + m → (Z.of_nat n < 65536)%Z → open_code g m →
  open_code (λ t, node op d ++ X ++ g t) n.
Proof. intros H1 H2 -> -> Hn Hg. apply open_skip; [done..|lia|done]. Qed.

Lemma choice_open X m :
  (Z.of_nat m < 65536)%Z → m = 9 + length X →
  open_code (λ t, node BRANCH (3 + length X) ++ X ++ node BRANCH 3 ++ node NOTHING (dist 3 t)) m.
Proof.
  intros Hm ->. apply (open_over BRANCH X _ (λ t, node BRANCH 3 ++ node NOTHING (dist 3 t)) 6); [done|done|lia..|].
  apply (open_over BRANCH [] 3 (λ t, node NOTHING (dist 3 t)) 3); [done|done|done|lia..|]. by apply open_plain.
Qed.

Lemma code_open :
  (∀ a, atom_ok a → (Z.of_nat (atom_size a) < 65536)%Z → open_code (atom_code a) (atom_size a)) ∧
  (∀ p, piece_ok p → (Z.of_nat (piece_size p) < 65536)%Z → open_code (piece_code p) (piece_size p)) ∧
  (∀ b, branch_ok b → (Z.of_nat (branch_size b) < 65536)%Z → open_code (branch_code b) (branch_size b)) ∧
  (∀ r, alts_ok r → (Z.of_nat (alts_size r) < 65536)%Z → ∀ t, open_code (λ nx, alts_code r nx t) (alts_size r)).
Proof.
  apply syntax_mind.
  1-5: intros; by apply open_plain.
  - intros cp set _ Hn. cbn [atom_size] in *. eapply open_ext; [apply (open_node (if cp then ANYBUT else ANYOF) (set ++ [NUL])); by destruct cp|..].
    + rewrite length_app. cbn. lia.
    + intros t. cbn [atom_code]. do 2 f_equal. rewrite length_app. cbn. f_equal. lia.
  - intros s _ Hn. cbn [atom_size] in *. eapply open_ext; [by apply (open_node EXACTLY (s ++ [NUL]))|..].
    + rewrite length_app. cbn. lia.
    + intros t. cbn [atom_code]. do 2 f_equal. rewrite length_app. cbn. f_equal. lia.
  - intros no r IH [Hno Hr] Hn. cbn [atom_size] in *. cbn [atom_code].
    apply (open_over (OPEN + Z.of_nat no) [] 3 (λ t, alts_code r (Some 0) (Some 0) ++ node (CLOSE + Z.of_nat no) (dist 3 t)) (alts_size r + 3));
      [auto|auto|done|lia..|].
    apply (open_seq (λ nx, alts_code r nx (Some 0)) (alts_size r)); [apply IH; [done|lia]|]. apply open_plain; auto.
  - auto.
  - intros a IH m [Ha _] Hn. cbn [piece_size piece_code] in *. destruct m.
    + destruct (simple a).
      * eapply open_ext; [by apply (open_node STAR (atom_code a None))|by rewrite atom_length|].
        intros t. by rewrite atom_length.
      * eapply open_ext; [apply (choice_open (atom_code a (Some 0) ++ node BACK (3 + atom_size a)) (12 + atom_size a))|done|].
        { done. } { rewrite length_app, atom_length, node_length. lia. }
        intros t. rewrite length_app, atom_length, node_length, <-!app_assoc.
        by replace (3 + (atom_size a + 3)) with (6 + atom_size a) by lia.
    + destruct (simple a).
      * eapply open_ext; [by apply (open_node PLUS (atom_code a None))|by rewrite atom_length|].
        intros t. by rewrite atom_length.
      * eapply open_ext; [apply (open_seq (atom_code a) (atom_size a)
          (λ t, node BRANCH 6 ++ node BACK (3 + atom_size a) ++ node BRANCH 3 ++ node NOTHING (dist 3 t)) 12)|lia|done].
        { apply IH; [done|lia]. }
        by apply (choice_open (node BACK (3 + atom_size a)) 12); rewrite ?node_length.
    + eapply open_ext; [apply (choice_open (atom_code a (Some 3)) (9 + atom_size a))|done|].
      { done. } { by rewrite atom_length. } intros t. by rewrite atom_length.
  - intros. by apply open_plain.
  - auto.
  - intros p IHp b IHb [Hp Hb] Hn. cbn [branch_size branch_code] in *. apply open_seq; [apply IHp|apply IHb]; first [done|lia].
  - intros b IH Hb Hn t. cbn [alts_size alts_code] in *.
    eapply open_ext; [by apply (open_node BRANCH (branch_code b t))|by rewrite branch_length|].
    intros nx. by rewrite branch_length.
  - intros b IHb r IHr [Hb Hr] Hn t. cbn [alts_size alts_code] in *.
    apply (open_over BRANCH _ _ (λ nx, alts_code r nx t) (alts_size r)); [done|done|by rewrite branch_length|lia|lia|].
    apply IHr; [done|lia].
Qed.

(** ** The state of the compiler

    The place in the pattern is known by the rest of the pattern.  An output is
    the code and the size that was counted; [grow] is what emitting does to it,
    in both passes. *)

Definition output : Type := option (list ascii) * Z.
Definition grow (w : output) (bs : list ascii) : output :=
  match w with
  | (None, z) => (None, (z + Z.of_nat (length bs))%Z)
  | (Some c, z) => (Some (c ++ bs), z)
  end.
Definition place (w : output) : option nat := length <$> w.1.
(** there is room for [n] more bytes, and distances fit into two bytes *)
Definition fits (room : nat) (w : output) (n : nat) : Prop :=
  match w.1 with None => True | Some c => length c + n ≤ room ∧ (Z.of_nat (length c + n) < 65536)%Z end.

Lemma grow_app w a b : grow (grow w a) b = grow w (a ++ b).
Proof. destruct w as [[c|] z]; cbn; [by rewrite <-app_assoc|]. f_equal. rewrite length_app. lia. Qed.
Lemma grow_length w a b : length a = length b → w.1 = None → grow w a = grow w b.
Proof. destruct w as [[c|] z]; [done|]. cbn. by intros ->. Qed.
Lemma fits_grow room w bs n : fits room (grow w bs) n ↔ fits room w (length bs + n).
Proof. destruct w as [[c|] z]; cbn; [|done]. unfold fits. cbn. rewrite length_app. by rewrite Nat.add_assoc. Qed.
Lemma fits_le room w n m : fits room w n → m ≤ n → fits room w m.
Proof. destruct w as [[c|] z]; cbn; [|done]. unfold fits. cbn. lia. Qed.
Lemma place_grow w bs : place (grow w bs) = Nat.add (length bs) <$> place w.
Proof. destruct w as [[c|] z]; cbn; [|done]. rewrite length_app. f_equal. lia. Qed.

(** one statement of the compiler *)
Lemma creg_step {A B} (m : creg A) (f : A → creg B) s a s' : m s = Ret (Some (a, s')) → (m ≫= f) s = f a s'.
Proof. intros H. unfold mbind, creg_bind. by rewrite H. Qed.
Lemma creg_fail {A B} (m : creg A) (f : A → creg B) s : m s = Ret None → (m ≫= f) s = Ret None.
Proof. intros H. unfold mbind, creg_bind. by rewrite H. Qed.
Lemma creg_assoc {A B C} (m : creg A) (f : A → creg B) (g : B → creg C) s :
  (m ≫= (λ a, f a ≫= g)) s = ((m ≫= f) ≫= g) s.
Proof. unfold mbind, creg_bind. by destruct (m s) as [[[a s']|]| |]. Qed.
Lemma creg_right (m : creg ()) s : (_ ← m; mret ()) s = m s.
Proof. unfold mbind, creg_bind. by destruct (m s) as [[[[] s']|]| |]. Qed.
Lemma get_step {B} (f : cstate → creg B) s : (get_st ≫= f) s = f s s.
Proof. done. Qed.
Lemma mret_step {A B} (a : A) (f : A → creg B) s : ((mret a : creg A) ≫= f) s = f a s.
Proof. done. Qed.
Lemma lift_step {A B} (o : outcome A) a (f : A → creg B) s : o = Ret a → (lift o ≫= f) s = f a s.
Proof. by intros ->. Qed.
Ltac cstep H := rewrite (creg_step _ _ _ _ _ H); cbn beta iota.

Section Statements.
Context (exp : cstr) (room : nat).

Definition pos (l : cstr) : nat := length exp - length l.
Definition cst (l : cstr) (n : nat) (w : output) : cstate := CState (pos l) n w.1 w.2.
Notation fits := (fits room).

Lemma pos_tl l c : (c :: l) `suffix_of` exp → S (pos (c :: l)) = pos l.
Proof. intros H%suffix_length. cbn in H. unfold pos. cbn. lia. Qed.
Lemma char_at_pos l : l `suffix_of` exp → rd (exp ++ [NUL]) (pos l) = Ret (hd NUL l).
Proof.
  intros [k E]. unfold pos. rewrite E, length_app. replace (length k + length l - length l) with (length k) by lia.
  rewrite <-app_assoc. by destruct l as [|c l]; cbn [app hd]; rewrite rd_app.
Qed.

Lemma peek_ok l n w : l `suffix_of` exp → peek exp (cst l n w) = Ret (Some (hd NUL l, cst l n w)).
Proof. intros H. unfold peek. rewrite get_step. unfold char_at, lift, cst. cbn [regparse]. by rewrite char_at_pos. Qed.
Lemma peek1_ok c l n w : (c :: l) `suffix_of` exp → peek1 exp (cst (c :: l) n w) = Ret (Some (hd NUL l, cst (c :: l) n w)).
Proof.
  intros H. unfold peek1. rewrite get_step. unfold char_at, lift, cst. cbn [regparse].
  rewrite (pos_tl _ _ H), char_at_pos; [done|].
  by apply suffix_cons_l in H.
Qed.
Lemma skip_ok c l n w : (c :: l) `suffix_of` exp → skip (cst (c :: l) n w) = Ret (Some ((), cst l n w)).
Proof. intros H. unfold skip. rewrite get_step. unfold cst. cbn [regparse]. by rewrite (pos_tl _ _ H). Qed.
Lemma emit_ok l n w bs : fits w (length bs) → emit room bs (cst l n w) = Ret (Some ((), cst l n (grow w bs))).
Proof.
  intros H. unfold emit. rewrite get_step. destruct w as [[c|] z]; [|done].
  destruct H as [H _]. cbn [cst regcode fst]. by rewrite decide_True.
Qed.
Lemma regc_ok l n w b : fits w 1 → regc room b (cst l n w) = Ret (Some ((), cst l n (grow w [b]))).
Proof. apply (emit_ok l n w [b]). Qed.
Lemma regnode_ok l n w op : fits w 3 → regnode room op (cst l n w) = Ret (Some (place w, cst l n (grow w (node op 0)))).
Proof.
  intros H. unfold regnode. assert (here (cst l n w) = Ret (Some (place w, cst l n w))) as E by done.
  cstep E. pose proof (emit_ok l n w [chr op; NUL; NUL] H) as E2. cstep E2. done.
Qed.
Lemma reginsert_ok l n w bs op : fits w (3 + length bs) →
  reginsert room op (place w) (cst l n (grow w bs)) = Ret (Some ((), cst l n (grow w (node op 0 ++ bs)))).
Proof.
  intros H. unfold reginsert. rewrite get_step. destruct w as [[c|] z]; cbn [cst place fst snd grow fmap option_fmap option_map regcode].
  - destruct H as [H _]. rewrite length_app, decide_True by lia. by rewrite take_app_length, drop_app_length.
  - unfold cst. cbn [fst snd]. rewrite length_app, node_length. unfold add_size. cbn. do 4 f_equal. lia.
Qed.

(** the end of an open code is hooked to the place [k] bytes behind it *)
Definition hookable (w : output) (f : option nat → list ascii) (m : nat) : Prop :=
  (∀ t, length (f t) = m) ∧ (is_Some w.1 → open_code f m).
Lemma hookable_open w f m : open_code f m → hookable w f m.
Proof. intros H. split; [apply H|done]. Qed.
Lemma hookable_grow w bs f m : hookable w f m → hookable (grow w bs) f m.
Proof. destruct w as [[c|] z]; [|done]. intros [H1 H2]. split; [done|]. intros _. apply H2. by eexists. Qed.
Lemma regtail_ok f m l n w post k val : hookable w f m → fits w (m + k) →
  val = Nat.add (m + k) <$> place w →
  regtail (place w) val (cst l n (grow w (f None ++ post))) = Ret (Some ((), cst l n (grow w (f (Some k) ++ post)))).
Proof.
  intros [Hlen Hf] Hfit ->. destruct w as [[c|] z].
  - specialize (Hf ltac:(by eexists)). cbn in Hfit. destruct Hfit as [_ Hfit]. destruct (oc_open Hf c post k ltac:(lia)) as (q & op & Hc & Hq & Hn & Hop & Hb & Hs).
    cbv zeta in *. unfold regtail. cbn [place fst snd grow fmap option_fmap option_map]. rewrite get_step.
    cbn [cst regcode fst].
    assert (last_node (c ++ f None ++ post) (S (length (c ++ f None ++ post))) (length c) = Ret q) as E1.
    { apply last_node_chain; [done|done|]. rewrite !length_app, (oc_len Hf). lia. }
    rewrite (lift_step _ _ _ _ E1), (lift_step _ _ _ _ Hop).
    destruct (Z.eqb_spec op BACK); [done|].
    replace (Z.of_nat (m + k + length c) - Z.of_nat q)%Z with (Z.of_nat (length c + m + k - q)) by lia.
    by rewrite (lift_step _ _ _ _ Hs).
  - cbn [place fst snd fmap option_fmap option_map]. unfold regtail. cbn [mret creg_ret]. do 3 f_equal.
    unfold cst. by rewrite (grow_length (None, z) (f None ++ post) (f (Some k) ++ post)) by (rewrite ?length_app, ?Hlen; done).
Qed.
(** the same for the operand of a BRANCH *)
Lemma regoptail_branch f m d l n w post k val : hookable w f m → fits w (3 + m + k) →
  val = Nat.add (3 + m + k) <$> place w →
  regoptail (place w) val (cst l n (grow w (node BRANCH d ++ f None ++ post)))
  = Ret (Some ((), cst l n (grow w (node BRANCH d ++ f (Some k) ++ post)))).
Proof.
  intros Hf Hfit ->. rewrite <-(grow_app w (node BRANCH d) (f None ++ post)), <-(grow_app w (node BRANCH d) (f (Some k) ++ post)).
  pose proof (regtail_ok f m l n (grow w (node BRANCH d)) post k) as H.
  specialize (H _ ltac:(by apply hookable_grow) ltac:(rewrite fits_grow, node_length; by eapply fits_le; [exact Hfit|lia]) eq_refl).
  rewrite place_grow, node_length in H.
  unfold regoptail. destruct w as [[c|] z]; cbn [place fst fmap option_fmap option_map] in *; [|done].
  rewrite get_step. cbn [cst regcode fst grow snd]. rewrite <-app_assoc, (lift_step _ _ _ _ (OP_node BRANCH d c _ ltac:(done))), Z.eqb_refl. unfold OPERAND.
  replace (length c + 3) with (3 + length c) by lia. replace (3 + m + k + length c) with (m + k + (3 + length c)) by lia.
  cbn [grow] in H. rewrite <-app_assoc in H. exact H.
Qed.
Lemma regoptail_other op d l n w post val : is_op op → op ≠ BRANCH →
  regoptail (place w) val (cst l n (grow w (node op d ++ post))) = Ret (Some ((), cst l n (grow w (node op d ++ post)))).
Proof.
  intros H1 H2. unfold regoptail. destruct w as [[c|] z]; cbn [place fst fmap option_fmap option_map] in *; [|done].
  rewrite get_step. cbn [cst regcode fst grow snd]. rewrite (lift_step _ _ _ _ (OP_node op d c post H1)).
  by destruct (Z.eqb_spec op BRANCH).
Qed.
End Statements.

(** ** The compiler follows the grammar *)

Section Simulation.
Context (exp : cstr) (room : nat) (no_NUL : NUL ∉ exp).
Notation cst := (cst exp).
Notation fits := (fits room).

(** [m] writes the code of what was parsed, or fails where there is nothing *)
Definition simulates {A} (m : creg (option nat * flags)) (l : cstr) (n : nat) (code : A → list ascii)
    (known : A → cstr → flags → Prop) (x : option (A * nat * cstr)) : Prop :=
  match x with
  | Some (a, n', l') =>
      ∀ w, fits w (length (code a)) → ∃ f, m (cst l n w) = Ret (Some ((place w, f), cst l' n' (grow w (code a)))) ∧ known a l' f
  | None => ∀ z, m (cst l n (None, z)) = Ret None
  end.

Lemma in_exp_NUL c l : (c :: l) `suffix_of` exp → (c =c NUL) = false.
Proof. intros [k E]. apply char_eqb_neq. intros ->. apply no_NUL. rewrite E. apply elem_of_app. right. by left. Qed.
Lemma suffix_tl c l : (c :: l) `suffix_of` exp → l `suffix_of` exp.
Proof. apply suffix_cons_l. Qed.
Hint Resolve suffix_tl : core.

(** the turns of the loop over the characters of a class *)
Lemma class_loop_end fuel l n w :
  l `suffix_of` exp → hd NUL l = NUL ∨ hd NUL l = chr 93 → class_loop exp room (S fuel) (cst l n w) = Ret (Some ((), cst l n w)).
Proof. intros Hl Hc. cbn [class_loop]. cstep (peek_ok exp l n w Hl). by destruct Hc as [-> | ->]. Qed.
Lemma class_loop_char fuel c l n w :
  (c :: l) `suffix_of` exp → c ≠ chr 93 → c ≠ chr 45 → fits w 1 →
  class_loop exp room (S fuel) (cst (c :: l) n w) = class_loop exp room fuel (cst l n (grow w [c])).
Proof.
  intros Hc H1%char_eqb_neq H2%char_eqb_neq Hw. cbn [class_loop]. cstep (peek_ok exp (c :: l) n w Hc). cbn [hd].
  rewrite (in_exp_NUL _ _ Hc), H1, H2. cbn [orb]. cstep (regc_ok exp room (c :: l) n w c Hw).
  by cstep (skip_ok exp _ _ n (grow w [c]) Hc).
Qed.
Lemma class_loop_dash fuel l n w :
  (chr 45 :: l) `suffix_of` exp → hd NUL l = NUL ∨ hd NUL l = chr 93 → fits w 1 →
  class_loop exp room (S fuel) (cst (chr 45 :: l) n w) = class_loop exp room fuel (cst l n (grow w [chr 45])).
Proof.
  intros Hc Hl Hw. cbn [class_loop]. cstep (peek_ok exp (chr 45 :: l) n w Hc). cbn [hd].
  change (chr 45 =c NUL) with false. change (chr 45 =c chr 93) with false. rewrite char_eqb_refl. cbn [orb].
  cstep (skip_ok exp _ _ n w Hc). cstep (peek_ok exp l n w ltac:(eauto)).
  assert ((hd NUL l =c chr 93) || (hd NUL l =c NUL) = true) as -> by by destruct Hl as [-> | ->].
  by cstep (regc_ok exp room l n w (chr 45) Hw).
Qed.
Lemma class_loop_range fuel before last l n w :
  (before :: chr 45 :: last :: l) `suffix_of` exp → last ≠ chr 93 →
  fits w (length (byte_range (code before + 1) (code last))) →
  class_loop exp room (S fuel) (cst (chr 45 :: last :: l) n w) =
    if (code last <? code before)%Z then Ret None
    else class_loop exp room fuel (cst l n (grow w (byte_range (code before + 1) (code last)))).
Proof.
  intros Hs H1%char_eqb_neq Hw. pose proof (suffix_tl _ _ Hs) as Hc. pose proof (suffix_tl _ _ Hc) as Hl.
  cbn [class_loop]. cstep (peek_ok exp _ n w Hc). cbn [hd].
  change (chr 45 =c NUL) with false. change (chr 45 =c chr 93) with false. rewrite char_eqb_refl. cbn [orb].
  cstep (skip_ok exp _ _ n w Hc). cstep (peek_ok exp _ n w Hl). cbn [hd]. rewrite H1, (in_exp_NUL _ _ Hl). cbn [orb].
  rewrite get_step. cbn [cst regparse]. pose proof (pos_tl exp _ _ Hs) as P1. pose proof (pos_tl exp _ _ Hc) as P2.
  destruct (Nat.ltb_spec (pos exp (last :: l)) 2); [lia|].
  replace (pos exp (last :: l) - 2) with (pos exp (before :: chr 45 :: last :: l)) by lia.
  pose proof (char_at_pos exp _ Hs) as Hb. cbn [hd] in Hb. unfold char_at. rewrite (lift_step _ _ _ _ Hb).
  destruct (Z.ltb_spec (code last) (code before)), (Z.ltb_spec (code last + 1) (code before + 1)); try lia; [done|].
  change (CState (pos exp (last :: l)) n w.1 w.2) with (cst (last :: l) n w). cstep (emit_ok exp room (last :: l) n w _ Hw).
  by cstep (skip_ok exp _ _ n (grow w (byte_range (code before + 1) (code last))) Hl).
Qed.
Lemma byte_range_NUL first last : (0 < first)%Z → (last < 256)%Z → NUL ∉ byte_range first last.
Proof.
  intros H1 H2 (i & Ei & Hi%elem_of_seq)%list_elem_of_fmap. apply (f_equal code) in Ei. rewrite code_chr in Ei by lia.
  change (code NUL) with 0%Z in Ei. lia.
Qed.

Lemma class_loop_sim n : ∀ fuel before l, length l < fuel → (before :: l) `suffix_of` exp →
  match class_chars before l with
  | Some (set, rest) => (chr 93 :: rest) `suffix_of` l ∧ NUL ∉ set ∧
      ∀ w, fits w (length set) → class_loop exp room fuel (cst l n w) = Ret (Some ((), cst (chr 93 :: rest) n (grow w set)))
  | None => ∀ z, class_loop exp room fuel (cst l n (None, z)) = Ret None ∨
      ∃ z', class_loop exp room fuel (cst l n (None, z)) = Ret (Some ((), cst [] n (None, z')))
  end.
Proof.
  induction fuel as [|fuel IH]; intros before l Hf Hs; [lia|]. destruct l as [|c l]; cbn [class_chars].
  { intros z. right. exists z. apply class_loop_end; eauto. }
  cbn [length] in Hf. assert ((c :: l) `suffix_of` exp) as Hc by eauto.
  destruct (char_eqb_eq c (chr 93)) as [E93 _]. destruct (c =c chr 93) eqn:N93.
  { rewrite (E93 eq_refl) in *. split_and!; [done|by apply not_elem_of_nil|]. intros w Hw.
    rewrite class_loop_end by eauto. by destruct w as [[?|] ?]; cbn; rewrite ?app_nil_r, ?Z.add_0_r. }
  apply char_eqb_neq in N93. destruct (c =c chr 45) eqn:E45.
  - apply char_eqb_eq in E45 as ->. destruct l as [|last l].
    { intros z. right. exists (z + 1)%Z. rewrite class_loop_dash by (eauto; done). destruct fuel as [|fuel]; [cbn in Hf; lia|].
      apply (class_loop_end _ [] n (grow (None, z) [chr 45])); eauto. }
    cbn [length] in Hf. destruct (last =c chr 93) eqn:El.
    + apply char_eqb_eq in El as ->. split_and!; [by apply suffix_cons_r|by apply (bool_decide_unpack _)|]. intros w Hw.
      rewrite class_loop_dash by eauto. destruct fuel as [|fuel]; [lia|]. apply class_loop_end; eauto.
    + apply char_eqb_neq in El. destruct (Z.ltb_spec (code last) (code before)) as [Hlt|Hle].
      { intros z. left. rewrite (class_loop_range _ before) by done. by destruct (Z.ltb_spec (code last) (code before)); [|lia]. }
      assert (∀ w, fits w (length (byte_range (code before + 1) (code last))) →
        class_loop exp room (S fuel) (cst (chr 45 :: last :: l) n w) =
        class_loop exp room fuel (cst l n (grow w (byte_range (code before + 1) (code last))))) as Eq.
      { intros w Hw. rewrite (class_loop_range _ before) by done. by destruct (Z.ltb_spec (code last) (code before)); [lia|]. }
      specialize (IH last l ltac:(lia) ltac:(eauto)). destruct (class_chars last l) as [[set rest]|]; cbn [mbind option_bind].
      * destruct IH as (I1 & I2 & I3). pose proof (code_range before). pose proof (code_range last).
        split_and!; [by do 2 apply suffix_cons_r|rewrite not_elem_of_app; split; [apply byte_range_NUL; lia|done]|].
        intros w Hw. rewrite length_app in Hw. rewrite Eq by (eapply fits_le; [exact Hw|lia]).
        rewrite I3 by by rewrite fits_grow. by rewrite grow_app.
      * intros z. rewrite Eq by done. apply IH.
  - apply char_eqb_neq in E45. specialize (IH c l ltac:(lia) Hc). destruct (class_chars c l) as [[set rest]|]; cbn [mbind option_bind].
    + destruct IH as (I1 & I2 & I3). split_and!; [by apply suffix_cons_r| |].
      { rewrite not_elem_of_cons. split; [|done]. intros <-. pose proof (in_exp_NUL _ _ Hc) as HN. by rewrite char_eqb_refl in HN. }
      intros w Hw. rewrite class_loop_char by first [done|by eapply fits_le; [exact Hw|cbn; lia]].
      rewrite I3 by by rewrite fits_grow. by rewrite grow_app.
    + intros z. rewrite class_loop_char by done. apply IH.
Qed.

Lemma class_rest_sim before l n :
  (before :: l) `suffix_of` exp →
  match class_chars before l with
  | Some (set, rest) => rest `suffix_of` l ∧ length rest < length l ∧ NUL ∉ set ∧
      ∀ w, fits w (length set + 1) → class_rest exp room (cst l n w) = Ret (Some ((), cst rest n (grow w (set ++ [NUL]))))
  | None => ∀ z, class_rest exp room (cst l n (None, z)) = Ret None
  end.
Proof.
  intros Hs. pose proof (suffix_length _ _ Hs) as Hlen. cbn in Hlen.
  pose proof (class_loop_sim n (S (length exp)) before l ltac:(lia) Hs) as H. unfold class_rest.
  destruct (class_chars before l) as [[set rest]|].
  - destruct H as (H1 & H2 & H3). pose proof (suffix_length _ _ H1) as Hl. cbn in Hl.
    assert ((chr 93 :: rest) `suffix_of` exp) as Hr by (etrans; [exact H1|eauto]).
    split_and!; [by apply suffix_cons_l in H1|lia|done|]. intros w Hw.
    cstep (H3 w ltac:(eapply fits_le; [exact Hw|lia])).
    cstep (regc_ok exp room (chr 93 :: rest) n (grow w set) NUL ltac:(by rewrite fits_grow)).
    cstep (peek_ok exp _ n (grow (grow w set) [NUL]) Hr). cbn [hd]. rewrite char_eqb_refl, grow_app. by apply skip_ok.
  - intros z. destruct (H z) as [E|[z' E]]; [by rewrite (creg_fail _ _ _ E)|]. cstep E.
    cstep (regc_ok exp room [] n (None, z') NUL I). by cstep (peek_ok exp [] n (grow (None, z') [NUL]) ltac:(apply suffix_nil)).
Qed.
Lemma class_set_sim before l n :
  (before :: l) `suffix_of` exp →
  match class_set l with
  | Some (set, rest) => rest `suffix_of` l ∧ length rest < length l ∧ NUL ∉ set ∧
      ∀ w, fits w (length set + 1) →
        (_ ← class_lead exp room; class_rest exp room) (cst l n w) = Ret (Some ((), cst rest n (grow w (set ++ [NUL]))))
  | None => ∀ z, (_ ← class_lead exp room; class_rest exp room) (cst l n (None, z)) = Ret None
  end.
Proof.
  intros Hs. destruct l as [|c l']; cbn [class_set].
  - intros z. assert (class_lead exp room (cst [] n (None, z)) = Ret (Some ((), cst [] n (None, z)))) as E.
    { unfold class_lead. by cstep (peek_ok exp [] n (None, z) ltac:(eauto)). }
    cstep E. by apply (class_rest_sim before []).
  - assert ((c :: l') `suffix_of` exp) as Hc by eauto. destruct ((c =c chr 93) || (c =c chr 45)) eqn:Elead.
    + assert (∀ w, fits w 1 → class_lead exp room (cst (c :: l') n w) = Ret (Some ((), cst l' n (grow w [c])))) as E.
      { intros w Hw. unfold class_lead. cstep (peek_ok exp _ n w Hc). cbn [hd]. rewrite Elead.
        cstep (regc_ok exp room (c :: l') n w c Hw). by apply skip_ok. }
      pose proof (class_rest_sim c l' n Hc) as H. destruct (class_chars c l') as [[set rest]|]; cbn [mbind option_bind].
      * destruct H as (H1 & H2 & H3 & H4). split_and!; [by apply suffix_cons_r|cbn; lia| |].
        { rewrite not_elem_of_cons. split; [|done]. intros <-. pose proof (in_exp_NUL _ _ Hc) as HN. by rewrite char_eqb_refl in HN. }
        intros w Hw. cstep (E w ltac:(eapply fits_le; [exact Hw|cbn; lia])).
        rewrite H4, grow_app; [done|]. rewrite fits_grow. eapply fits_le; [exact Hw|cbn; lia].
      * intros z. cstep (E (None, z) I). apply H.
    + assert (∀ w, class_lead exp room (cst (c :: l') n w) = Ret (Some ((), cst (c :: l') n w))) as E.
      { intros w. unfold class_lead. cstep (peek_ok exp _ n w Hc). cbn [hd]. by rewrite Elead. }
      apply orb_false_iff in Elead as [E1 E2].
      assert (class_chars NUL (c :: l') = class_chars before (c :: l')) as -> by (cbn [class_chars]; by rewrite E2).
      pose proof (class_rest_sim before (c :: l') n Hs) as H. destruct (class_chars before (c :: l')) as [[set rest]|].
      * destruct H as (H1 & H2 & H3 & H4). split_and!; [done..|]. intros w Hw. cstep (E w). by apply H4.
      * intros z. cstep (E (None, z)). apply H.
Qed.

(** what is known of an atom: the flag SIMPLE only matters in front of a multiplier *)
Definition atom_known (a : atom) (rest : cstr) (f : flags) : Prop :=
  HASWIDTH f = atom_width a ∧ SPSTART f = atom_spstart a ∧ (ISMULT (hd NUL rest) = true → SIMPLE f = simple a).

Lemma regclass_sim l n :
  (chr 91 :: l) `suffix_of` exp →
  match parse_class l with
  | Some (a, rest) => rest `suffix_of` l ∧ length rest < length l ∧ atom_ok a ∧
      simulates (regclass exp room) l n (λ a, atom_code a None) atom_known (Some (a, n, rest))
  | None => simulates (A:=atom) (regclass exp room) l n (λ a, atom_code a None) atom_known None
  end.
Proof.
  intros Hs. unfold parse_class.
  assert (∀ cp l0 before, (before :: l0) `suffix_of` exp →
    (∀ w, fits w 3 → regclass exp room (cst l n w) =
      (_ ← class_lead exp room; _ ← class_rest exp room; mret (place w, WIDTH_SIMPLE))
        (cst l0 n (grow w (node (if cp : bool then ANYBUT else ANYOF) 0)))) →
    match '(set, rest) ← class_set l0; Some (Class cp set, rest) with
    | Some (a, rest) => rest `suffix_of` l0 ∧ length rest < length l0 ∧ atom_ok a ∧
        simulates (regclass exp room) l n (λ a, atom_code a None) atom_known (Some (a, n, rest))
    | None => simulates (A:=atom) (regclass exp room) l n (λ a, atom_code a None) atom_known None
    end) as H.
  { intros cp l0 before Hl0 E. pose proof (class_set_sim before l0 n Hl0) as H.
    destruct (class_set l0) as [[set rest]|]; cbn [mbind option_bind].
    - destruct H as (H1 & H2 & H3 & H4). split_and!; [done..|]. intros w. cbn [atom_code dist].
      rewrite !length_app, node_length. intros Hw. exists WIDTH_SIMPLE. split; [|done].
      rewrite E by (eapply fits_le; [exact Hw|lia]). rewrite creg_assoc.
      cstep (H4 (grow w (node (if cp then ANYBUT else ANYOF) 0)) ltac:(rewrite fits_grow, node_length; exact Hw)).
      by rewrite grow_app.
    - intros z. rewrite E by done. rewrite creg_assoc.
      specialize (H (z + Z.of_nat (length (node (if cp then ANYBUT else ANYOF) 0)))%Z). by rewrite (creg_fail _ _ _ H). }
  assert (l `suffix_of` exp) as Hl by eauto. destruct (hd NUL l =c chr 94) eqn:Ec.
  - destruct l as [|c l]; [done|]. cbn [hd tl] in *. specialize (H true l c Hl).
    assert (match '(set, rest) ← class_set l; Some (Class true set, rest) with
      | Some (a, rest) => rest `suffix_of` l ∧ length rest < length l ∧ atom_ok a ∧
          simulates (regclass exp room) (c :: l) n (λ a, atom_code a None) atom_known (Some (a, n, rest))
      | None => simulates (A:=atom) (regclass exp room) (c :: l) n (λ a, atom_code a None) atom_known None end) as H'.
    { apply H. intros w Hw. unfold regclass. cstep (peek_ok exp _ n w Hl). cbn [hd]. rewrite Ec.
      assert ((ret ← regnode room ANYBUT; _ ← skip; mret ret) (cst (c :: l) n w) =
        Ret (Some (place w, cst l n (grow w (node ANYBUT 0))))) as E.
      { cstep (regnode_ok exp room (c :: l) n w ANYBUT Hw). by cstep (skip_ok exp c l n (grow w (node ANYBUT 0)) Hl). }
      by cstep E. }
    destruct ('(set, rest) ← class_set l; Some (Class true set, rest)) as [[a rest]|]; [|done].
    destruct H' as (H1 & H2 & H3 & H4). split_and!; [by apply suffix_cons_r|cbn; lia|done|exact H4].
  - apply (H false l (chr 91) Hs). intros w Hw. unfold regclass. cstep (peek_ok exp _ n w Hl). rewrite Ec.
    by cstep (regnode_ok exp room l n w ANYOF Hw).
Qed.

(** ** Strings *)

Definition some_prev (prev : option cstr) : bool := match prev with Some _ => true | None => false end.

(** the turns of the loop *)
Lemma exactly_loop_step fuel ch l n w prev :
  (ch :: l) `suffix_of` exp →
  exactly_loop exp room (S fuel) (pos exp <$> prev) (cst (ch :: l) n w) =
    (if is_magic (hd NUL l) then (_ ← regc room ch; mret (some_prev prev))
     else if ISMULT (hd NUL l) then
       match prev with None => _ ← regc room ch; mret false | Some p => _ ← set_parse (pos exp p); mret true end
     else if hd NUL l =c chr 92 then
       _ ← regc room ch; c ← peek1 exp;
       if not_quoted c then mret (some_prev prev)
       else s ← get_st; _ ← skip; exactly_loop exp room fuel (Some (regparse s))
     else _ ← regc room ch; s ← get_st; exactly_loop exp room fuel (Some (regparse s))) (cst l n w).
Proof.
  intros Hs. cbn [exactly_loop].
  assert (getc exp (cst (ch :: l) n w) = Ret (Some (ch, cst l n w))) as E.
  { unfold getc. cstep (peek_ok exp _ n w Hs). by cstep (skip_ok exp _ _ n w Hs). }
  cstep E. cstep (peek_ok exp l n w ltac:(eauto)). by destruct prev.
Qed.
Lemma magic_not_mult c : is_magic c = true → ISMULT c = false.
Proof. revert c. by_ascii. Qed.
Lemma quoted_not_NUL c : not_quoted c = false → c ≠ NUL.
Proof. by intros H ->. Qed.

(** what is known of the characters of a string: is it more than one in front
    of a multiplier *)
Definition exact_known (prev : option cstr) (s rest : cstr) (more : bool) : Prop :=
  (prev ≠ None → more = true) ∧ (ISMULT (hd NUL rest) = true → prev = None → more = negb (length s =? 1)).

Lemma exactly_loop_sim n : ∀ fuel l prev, l ≠ [] → length l < fuel → l `suffix_of` exp →
  (∀ p, prev = Some p → p `suffix_of` exp ∧ ISMULT (hd NUL p) = false) →
  let '(s, rest) := exact_chars prev l in
  rest `suffix_of` exp ∧ (length rest < length l ∨ prev = Some rest) ∧ NUL ∉ s ∧ (prev = None ∨ ISMULT (hd NUL rest) = true → s ≠ []) ∧
  ∀ w, fits w (length s) → ∃ more,
    exactly_loop exp room fuel (pos exp <$> prev) (cst l n w) = Ret (Some (more, cst rest n (grow w s))) ∧ exact_known prev s rest more.
Proof.
  induction fuel as [|fuel IH]; intros l prev Hne Hf Hs Hp; [lia|]. destruct l as [|ch l]; [done|]. cbn [exact_chars length] in *.
  assert (l `suffix_of` exp) as Hl by eauto. pose proof (in_exp_NUL _ _ Hs) as HchN. apply char_eqb_neq in HchN.
  assert (NUL ∉ [ch]) as HN1 by (rewrite list_elem_of_singleton; congruence).
  pose proof (λ w, exactly_loop_step fuel ch l n w prev Hs) as Eq.
  assert (∀ w, fits w 1 → regc room ch (cst l n w) = Ret (Some ((), cst l n (grow w [ch])))) as Er by (intros; by apply regc_ok).
  destruct (is_magic (hd NUL l)) eqn:Em.
  { split_and!; [done|lia|done|done|]. intros w Hw. exists (some_prev prev). rewrite Eq. cstep (Er w Hw). split; [done|].
    apply magic_not_mult in Em. split; [by destruct prev|by rewrite Em]. }
  destruct (ISMULT (hd NUL l)) eqn:Emu.
  { destruct prev as [p|].
    - destruct (Hp p eq_refl) as [Hp1 Hp2]. split_and!; [done|by right|by apply not_elem_of_nil|rewrite Hp2; by intros [?|?]|].
      intros w Hw. exists true. rewrite Eq. split; [|split; [done|by rewrite Hp2]].
      destruct w as [[?|] ?]; cbn; by rewrite ?app_nil_r, ?Z.add_0_r.
    - split_and!; [done|lia|done|done|]. intros w Hw. exists false. rewrite Eq. cstep (Er w Hw). done. }
  assert (∀ l' k, l' `suffix_of` l → l' ≠ [] → length l' < fuel → (∀ w, fits w 1 →
      exactly_loop exp room (S fuel) (pos exp <$> prev) (cst (ch :: l) n w)
      = exactly_loop exp room fuel (pos exp <$> Some l) (cst l' n (grow w [ch]))) →
    exact_chars (Some l) l' = k →
    let '(s, rest) := (ch :: k.1, k.2) in
    rest `suffix_of` exp ∧ (length rest < S (length l) ∨ prev = Some rest) ∧ NUL ∉ s ∧ (prev = None ∨ ISMULT (hd NUL rest) = true → s ≠ []) ∧
    ∀ w, fits w (length s) → ∃ more,
      exactly_loop exp room (S fuel) (pos exp <$> prev) (cst (ch :: l) n w) = Ret (Some (more, cst rest n (grow w s))) ∧
      exact_known prev s rest more) as Hgo.
  { intros l' k Hl' Hne' Hf' E <-. pose proof (suffix_length _ _ Hl') as Hlen.
    specialize (IH l' (Some l) Hne' Hf' ltac:(by etrans) ltac:(by intros p [= <-])).
    destruct (exact_chars (Some l) l') as [s rest]. cbn [fst snd]. destruct IH as (I1 & I2 & I3 & I4 & I5).
    split_and!; [done|left; destruct I2 as [?|[= ->]]; lia|rewrite not_elem_of_cons; by split; [congruence|]|done|].
    intros w Hw. destruct (I5 (grow w [ch])) as (more & E' & K1 & K2); [by rewrite fits_grow|]. exists more.
    rewrite E, E', grow_app by (eapply fits_le; [exact Hw|cbn; lia]). split; [done|].
    rewrite (K1 ltac:(done)). split; [done|]. intros Hm _. assert (s ≠ []) by auto. by destruct s. }
  destruct (hd NUL l =c chr 92) eqn:Eb.
  - destruct l as [|b l']; [done|]. cbn [hd] in *. apply char_eqb_eq in Eb as ->.
    destruct (not_quoted (hd NUL l')) eqn:Eq'.
    + split_and!; [done|lia|done|done|]. intros w Hw. exists (some_prev prev). rewrite Eq. cstep (Er w Hw).
      cstep (peek1_ok exp (chr 92) l' n (grow w [ch]) Hl). rewrite Eq'. split; [done|]. split; [by destruct prev|done].
    + assert (l' ≠ []) as Hne' by (by intros ->). specialize (Hgo l' (exact_chars (Some (chr 92 :: l')) l') ltac:(by apply suffix_cons_r) Hne').
      destruct (exact_chars (Some (chr 92 :: l')) l') as [s rest]. cbn [fst snd] in Hgo. apply Hgo; [cbn in *; lia| |done].
      intros w Hw. rewrite Eq. cstep (Er w Hw). cstep (peek1_ok exp (chr 92) l' n (grow w [ch]) Hl). rewrite Eq', get_step.
      by cstep (skip_ok exp _ _ n (grow w [ch]) Hl).
  - assert (l ≠ []) as Hne' by (by intros ->). specialize (Hgo l (exact_chars (Some l) l) ltac:(done) Hne').
    destruct (exact_chars (Some l) l) as [s rest]. cbn [fst snd] in Hgo. apply Hgo; [lia| |done].
    intros w Hw. rewrite Eq. cstep (Er w Hw). by rewrite get_step.
Qed.

Lemma regexactly_sim l n : l ≠ [] → l `suffix_of` exp →
  let '(s, rest) := exact_chars None l in
  rest `suffix_of` exp ∧ length rest < length l ∧ atom_ok (Exact s) ∧
  simulates (regexactly exp room) l n (λ a, atom_code a None) atom_known (Some (Exact s, n, rest)).
Proof.
  intros Hne Hl. pose proof (suffix_length _ _ Hl) as Hlen.
  pose proof (exactly_loop_sim n (S (length exp)) l None Hne ltac:(lia) Hl ltac:(done)) as H.
  destruct (exact_chars None l) as [s rest]. destruct H as (H1 & H2 & H3 & H4 & H5).
  do 2 (split; [done || by destruct H2|]). split; [split; auto|]. intros w. cbn [atom_code dist]. rewrite !length_app, node_length. cbn [length].
  intros Hw. unfold regexactly. cstep (regnode_ok exp room l n w EXACTLY ltac:(by eapply fits_le; [exact Hw|lia])).
  destruct (H5 (grow w (node EXACTLY 0))) as (more & E & _ & K).
  { rewrite fits_grow, node_length. eapply fits_le; [exact Hw|lia]. }
  cbn [fmap option_fmap option_map] in E. cstep E.
  cstep (regc_ok exp room rest n (grow (grow w (node EXACTLY 0)) s) NUL ltac:(rewrite !fits_grow, node_length; by eapply fits_le; [exact Hw|lia])).
  eexists. split; [by rewrite !grow_app|]. split_and!; [by destruct more|by destruct more|].
  intros Hm. rewrite (K Hm eq_refl). cbn [simple]. assert (s ≠ []) by auto. by destruct s as [|c [|? ?]].
Qed.

(** ** Atoms and pieces *)

(** what is left over is behind what was parsed *)
Definition parsed {A} (ok : A → Prop) (l : cstr) (n : nat) (x : option (A * nat * cstr)) : Prop :=
  match x with
  | Some (a, n', rest) => rest `suffix_of` exp ∧ length rest < length l ∧ ok a ∧ n ≤ n'
  | None => True
  end.
Definition group_known (a : atom) (rest : cstr) (f : flags) : Prop :=
  HASWIDTH f = atom_width a ∧ SPSTART f = atom_spstart a.

Lemma simulates_step {A} (m m' : creg (option nat * flags)) l l' n code known (x : option (A * nat * cstr)) :
  (∀ w, m (cst l n w) = m' (cst l' n w)) → simulates m' l' n code known x → simulates m l n code known x.
Proof.
  intros E H. destruct x as [[[a n'] rest]|]; cbn in *.
  - intros w Hw. rewrite E. auto.
  - intros z. rewrite E. auto.
Qed.
Section Group.
(** the parser and the compiler of what stands in parentheses *)
Context (pg : nat → cstr → outcome (option (alts * nat * cstr))) (rg : creg (option nat * flags)).
Definition as_group (n : nat) (x : option (alts * nat * cstr)) : option (atom * nat * cstr) :=
  match x with Some (r, n', rest) => Some (Group n r, n', rest) | None => None end.
Hypothesis group_sim : ∀ n l x, l `suffix_of` exp → 0 < n < NSUBEXP → pg (S n) l = Ret x →
  parsed alts_ok l (S n) x ∧ simulates rg l n (λ a, atom_code a None) group_known (as_group n x).
Hypothesis group_many : ∀ n l w, NSUBEXP ≤ n → rg (cst l n w) = Ret None.

Lemma node_sim c l n op a f :
  (c :: l) `suffix_of` exp → atom_code a None = node op 0 → atom_ok a →
  HASWIDTH f = atom_width a → SPSTART f = atom_spstart a → SIMPLE f = simple a →
  parsed atom_ok (c :: l) n (Some (a, n, l)) ∧
  simulates (_ ← skip; ret ← regnode room op; mret (ret, f)) (c :: l) n (λ a, atom_code a None) atom_known (Some (a, n, l)).
Proof.
  intros Hc E Hok H1 H2 H3. split; [cbn; split_and!; eauto; lia|]. intros w Hw. exists f. rewrite E in *.
  cstep (skip_ok exp c l n w Hc). rewrite node_length in Hw. by cstep (regnode_ok exp room l n w op Hw).
Qed.
Lemma skip_sim {A} (ok : A → Prop) m c l n code known x :
  (c :: l) `suffix_of` exp → parsed ok l n x ∧ simulates m l n code known x →
  parsed ok (c :: l) n x ∧ simulates (_ ← skip; m) (c :: l) n code known x.
Proof.
  intros Hc [H1 H2]. split.
  - destruct x as [[[a n'] rest]|]; [|done]. destruct H1 as (? & ? & ? & ?). cbn. split_and!; auto; lia.
  - eapply simulates_step; [|exact H2]. intros w. by cstep (skip_ok exp c l n w Hc).
Qed.
Lemma exactly_sim l n x : l ≠ [] → l `suffix_of` exp →
  (let '(s, rest) := exact_chars None l in Ret (Some (Exact s, n, rest))) = Ret x →
  parsed atom_ok l n x ∧ simulates (regexactly exp room) l n (λ a, atom_code a None) atom_known x.
Proof.
  intros Hne Hl E. pose proof (regexactly_sim l n Hne Hl) as H. destruct (exact_chars None l) as [s rest].
  apply Ret_inj in E as <-. destruct H as (H1 & H2 & H3 & H4). split; [|done]. by split_and!; first [done|lia|apply H3].
Qed.
Lemma fail_sim {A} (ok : A → Prop) l n code known :
  parsed ok l n None ∧ simulates (A:=A) FAIL l n code known None.
Proof. by split. Qed.

Lemma group_atom_sim c l n x :
  (c :: l) `suffix_of` exp → 0 < n → (if (NSUBEXP <=? n)%nat then Ret None else r ← pg (S n) l; Ret (as_group n r)) = Ret x →
  parsed atom_ok (c :: l) n x ∧
  simulates (_ ← skip; '(ret, f) ← rg; mret (ret, Flags (HASWIDTH f) false (SPSTART f))) (c :: l) n (λ a, atom_code a None) atom_known x.
Proof.
  intros Hc Hn E. apply skip_sim; [done|]. destruct (Nat.leb_spec NSUBEXP n) as [Hn'|Hn'].
  { apply Ret_inj in E as <-. split; [done|]. intros z. by rewrite (creg_fail _ _ _ (group_many n l (None, z) Hn')). }
  apply bind_inv_Ret in E as (y & E & <-%Ret_inj). apply group_sim in E as [H1 H2]; [|by eauto|lia].
  destruct y as [[[r n'] rest]|]; cbn [as_group parsed simulates] in *.
  - destruct H1 as (R1 & R2 & R3 & R4). split; [split_and!; [done|lia|split; [lia|done]|lia]|].
    intros w Hw. destruct (H2 w Hw) as (f & E & K1 & K2). cstep E. eexists. split; [done|]. split_and!; [done|done|].
    by destruct r.
  - split; [done|]. intros z. by rewrite (creg_fail _ _ _ (H2 z)).
Qed.

Lemma regatom_sim n l x :
  l `suffix_of` exp → 0 < n → parse_atom pg n l = Ret x →
  parsed atom_ok l n x ∧ simulates (regatom exp room rg) l n (λ a, atom_code a None) atom_known x.
Proof.
  intros Hl Hn Hx. enough (parsed atom_ok l n x ∧
    simulates (regatom_at exp room rg (hd NUL l)) l n (λ a, atom_code a None) atom_known x) as [H1 H2].
  { split; [done|]. eapply simulates_step; [|exact H2]. intros w. unfold regatom. by cstep (peek_ok exp l n w Hl). }
  destruct l as [|c l]; cbn [parse_atom hd] in *; [apply Ret_inj in Hx as <-; by apply fail_sim|].
  pose proof (in_exp_NUL _ _ Hl) as HN. unfold regatom_at.
  destruct (c =c chr 94); [apply Ret_inj in Hx as <-; by apply node_sim|].
  destruct (c =c chr 36); [apply Ret_inj in Hx as <-; by apply node_sim|].
  destruct (c =c chr 46); [apply Ret_inj in Hx as <-; by apply node_sim|].
  destruct (c =c chr 91) eqn:Ecl.
  { apply char_eqb_eq in Ecl as ->. apply skip_sim; [done|]. apply Ret_inj in Hx as <-. pose proof (regclass_sim l n Hl) as H.
    destruct (parse_class l) as [[a rest]|]; cbn [mbind option_bind]; [|by split].
    destruct H as (H1 & H2 & H3 & H4). split; [|done]. split_and!; [|done..]. etrans; [exact H1|eauto]. }
  destruct (c =c chr 40); [by apply group_atom_sim|].
  destruct (ends_branch c || ISMULT c); [apply Ret_inj in Hx as <-; by apply fail_sim|].
  destruct (c =c chr 92); [|by apply exactly_sim].
  apply skip_sim; [done|]. assert (l `suffix_of` exp) as Hl' by eauto.
  enough (parsed atom_ok l n x ∧ simulates (regquoted exp room (hd NUL l)) l n (λ a, atom_code a None) atom_known x) as [H1 H2].
  { split; [done|]. eapply simulates_step; [|exact H2]. intros w. by cstep (peek_ok exp l n w Hl'). }
  destruct l as [|c' l]; cbn [hd] in *; [apply Ret_inj in Hx as <-; by apply fail_sim|].
  unfold regquoted. rewrite (in_exp_NUL _ _ Hl').
  destruct (c' =c chr 60); [apply Ret_inj in Hx as <-; by apply node_sim|].
  destruct (c' =c chr 62); [apply Ret_inj in Hx as <-; by apply node_sim|]. by apply exactly_sim.
Qed.
End Group.

(** ** Pieces *)

Lemma code_hookable :
  (∀ w a, atom_ok a → fits w (atom_size a) → hookable w (atom_code a) (atom_size a)) ∧
  (∀ w p, piece_ok p → fits w (piece_size p) → hookable w (piece_code p) (piece_size p)) ∧
  (∀ w b, branch_ok b → fits w (branch_size b) → hookable w (branch_code b) (branch_size b)) ∧
  (∀ w r t, alts_ok r → fits w (alts_size r) → hookable w (λ nx, alts_code r nx t) (alts_size r)).
Proof.
  destruct code_open as (H1 & H2 & H3 & H4).
  assert (∀ w n, fits w n → is_Some w.1 → (Z.of_nat n < 65536)%Z) as Hs.
  { intros w n Hf [c Hc]. unfold RegexpCompile.fits in Hf. rewrite Hc in Hf. lia. }
  split_and!; intros; (split; [intros; by first [apply atom_length | apply piece_length | apply branch_length | apply alts_length]|]);
    intros Hw; by eauto.
Qed.
Definition atom_hookable := proj1 code_hookable.
Definition piece_hookable := proj1 (proj2 code_hookable).
Definition branch_hookable := proj1 (proj2 (proj2 code_hookable)).
Definition alts_hookable := proj2 (proj2 (proj2 code_hookable)).

(** statements at the end of what was written since [w] *)
Lemma regnode_at l n w c op : fits w (length c + 3) →
  regnode room op (cst l n (grow w c)) = Ret (Some (Nat.add (length c) <$> place w, cst l n (grow w (c ++ node op 0)))).
Proof. intros H. rewrite regnode_ok by by rewrite fits_grow. by rewrite place_grow, grow_app. Qed.
Lemma regtail_back X e l n w val :
  place w = Nat.add e <$> val →
  (∀ c, w.1 = Some c → chain (c ++ X ++ node BACK 0) (length c) (length c + length X)) →
  regtail (place w) val (cst l n (grow w (X ++ node BACK 0))) =
    Ret (Some ((), cst l n (grow w (X ++ node BACK (length X + e))))).
Proof.
  intros Hv Hc. destruct w as [[c|] z].
  - cbn in Hv. destruct val as [val|]; [|done]. injection Hv as Hv. specialize (Hc c eq_refl).
    unfold regtail. cbn [place fst snd grow fmap option_fmap option_map]. rewrite get_step. cbn [cst regcode fst].
    assert (c ++ X ++ node BACK 0 = (c ++ X) ++ node BACK 0 ++ []) as E by by rewrite app_nil_r, <-app_assoc.
    assert (length c + length X = length (c ++ X)) as El by by rewrite length_app.
    rewrite E, El in *.
    assert (last_node ((c ++ X) ++ node BACK 0 ++ []) (S (length ((c ++ X) ++ node BACK 0 ++ []))) (length c)
      = Ret (length (c ++ X))) as E1.
    { apply last_node_chain; [done|by apply regnext_open|]. rewrite !length_app. lia. }
    rewrite (lift_step _ _ _ _ E1), (lift_step _ _ _ _ (OP_node BACK 0 (c ++ X) [] ltac:(done))), Z.eqb_refl.
    replace (Z.of_nat (length (c ++ X)) - Z.of_nat val)%Z with (Z.of_nat (length X + e)) by (rewrite length_app; lia).
    rewrite (lift_step _ _ _ _ (set_next_node BACK 0 (length X + e) (c ++ X) [])). rewrite app_nil_r, <-app_assoc. reflexivity.
  - unfold regtail. cbn [place fst fmap option_fmap option_map].
    by rewrite (grow_length (None, z) _ (X ++ node BACK (length X + e))) by (rewrite ?length_app, ?node_length; done).
Qed.
Lemma regoptail_back X e d l n w val :
  Nat.add 3 <$> place w = Nat.add e <$> val →
  (∀ c, w.1 = Some c → chain ((c ++ node BRANCH d) ++ X ++ node BACK 0) (length (c ++ node BRANCH d)) (length (c ++ node BRANCH d) + length X)) →
  regoptail (place w) val (cst l n (grow w (node BRANCH d ++ X ++ node BACK 0))) =
    Ret (Some ((), cst l n (grow w (node BRANCH d ++ X ++ node BACK (length X + e))))).
Proof.
  intros Hv Hc. rewrite <-(grow_app w (node BRANCH d) (X ++ node BACK 0)), <-(grow_app w (node BRANCH d) (X ++ node BACK (length X + e))).
  pose proof (regtail_back X e l n (grow w (node BRANCH d)) val) as H. rewrite place_grow, node_length in H.
  specialize (H Hv). unfold regoptail. destruct w as [[c|] z]; cbn [place fst fmap option_fmap option_map] in *; [|by apply H].
  rewrite get_step. cbn [cst regcode fst grow snd].
  rewrite <-app_assoc, (lift_step _ _ _ _ (OP_node BRANCH d c _ ltac:(done))), Z.eqb_refl. unfold OPERAND.
  replace (length c + 3) with (3 + length c) by lia. cbn [grow] in H. rewrite <-app_assoc in H. apply H.
  intros c' [= <-]. by apply Hc.
Qed.

(** [lengths] computes the length of code, [fit]: what was written fits if the
    whole does, [same_place]: two ways to the same place *)
Ltac lengths :=
  repeat first [rewrite length_app | rewrite node_length | rewrite atom_length
    | match goal with H : ∀ t, length (?A t) = _ |- context [length (?A ?x)] => rewrite (H x) end].
Ltac fit := rewrite ?fits_grow; lengths; eapply fits_le; [eassumption|cbn; lia].
Ltac same_place := rewrite ?place_grow; lengths;
  match goal with |- context [place ?w] => destruct (place w); cbn; [f_equal; lia|done] end.

(** the second alternative, which is empty *)
Lemma choice_tail {B} (k : option nat → creg B) h m l n w :
  hookable w h m → fits w (m + 6) →
  (p ← regnode room BRANCH; _ ← regtail (place w) p; p ← regnode room NOTHING; _ ← regtail (place w) p; k p)
    (cst l n (grow w (h None)))
  = k (Nat.add (m + 3) <$> place w) (cst l n (grow w (h (Some 0) ++ node BRANCH 3 ++ node NOTHING 0))).
Proof.
  intros Hh Hw. pose proof (proj1 Hh) as Hl.
  cstep (regnode_at l n w (h None) BRANCH ltac:(fit)). rewrite Hl.
  assert (Nat.add m <$> place w = Nat.add (m + 0) <$> place w) as E1 by by rewrite Nat.add_0_r.
  cstep (regtail_ok exp room h m l n w (node BRANCH 0) 0 _ Hh ltac:(fit) E1).
  cstep (regnode_at l n w (h (Some 0) ++ node BRANCH 0) NOTHING ltac:(fit)). lengths. rewrite <-app_assoc.
  set (g := λ t, h (Some 0) ++ node BRANCH (dist 3 t)).
  assert (hookable w g (m + 3)) as Hg.
  { split; [intros t; unfold g; by lengths|]. intros Hs. apply open_seq; [by apply Hh|by apply open_plain]. }
  assert (Nat.add (m + 3) <$> place w = Nat.add (m + 3 + 0) <$> place w) as E2 by by rewrite Nat.add_0_r.
  pose proof (regtail_ok exp room g (m + 3) l n w (node NOTHING 0) 0 _ Hg ltac:(fit) E2) as E. unfold g in E.
  rewrite <-!app_assoc in E. by cstep E.
Qed.
Lemma choice_tail_end h m l n w :
  hookable w h m → fits w (m + 6) →
  (p ← regnode room BRANCH; _ ← regtail (place w) p; p ← regnode room NOTHING; regtail (place w) p) (cst l n (grow w (h None)))
  = Ret (Some ((), cst l n (grow w (h (Some 0) ++ node BRANCH 3 ++ node NOTHING 0)))).
Proof.
  intros Hh Hw. pose proof (choice_tail (λ _, mret ()) h m l n w Hh Hw) as E. etransitivity; [|exact E].
  clear E. unfold mbind at 1 4, creg_bind.
  destruct (regnode _ _ _) as [[[p s]|]| |]; [|done..]. unfold mbind at 1 3, creg_bind.
  destruct (regtail _ _ _) as [[[u s']|]| |]; [|done..]. unfold mbind at 1 2, creg_bind.
  destruct (regnode _ _ _) as [[[q s'']|]| |]; [|done..]. by rewrite creg_right.
Qed.

Section Multiplied.
Context (A : option nat → list ascii) (m n : nat) (l : cstr) (w : output).
Context (HA : hookable w A m).

Lemma loop_star : fits w (12 + m) →
  (_ ← reginsert room BRANCH (place w);
   p ← regnode room BACK; _ ← regoptail (place w) p;
   _ ← regoptail (place w) (place w);
   p ← regnode room BRANCH; _ ← regtail (place w) p;
   p ← regnode room NOTHING; regtail (place w) p) (cst l n (grow w (A None)))
  = Ret (Some ((), cst l n (grow w (node BRANCH (6 + m) ++ A (Some 0) ++ node BACK (3 + m) ++ node BRANCH 3 ++ node NOTHING 0)))).
Proof.
  intros Hw. assert (∀ t, length (A t) = m) as HAl by exact (proj1 HA).
  cstep (reginsert_ok exp room l n w (A None) BRANCH ltac:(fit)).
  cstep (regnode_at l n w (node BRANCH 0 ++ A None) BACK ltac:(fit)). rewrite <-app_assoc.
  cstep (regoptail_branch exp room A m 0 l n w (node BACK 0) 0 (Nat.add (length (node BRANCH 0 ++ A None)) <$> place w) HA ltac:(fit) ltac:(same_place)).
  assert (∀ pre post, is_Some w.1 → chain (pre ++ A (Some 0) ++ post) (length pre) (length pre + length (A (Some 0)))) as Hc.
  { intros pre post Hs. rewrite HAl. apply open_link; [by apply HA|]. destruct Hs as [c Ec].
    unfold RegexpCompile.fits in Hw. rewrite Ec in Hw. lia. }
  cstep (regoptail_back (A (Some 0)) 3 0 l n w (place w) eq_refl ltac:(intros; apply Hc; by eexists)). rewrite HAl.
  set (X := A (Some 0) ++ node BACK (m + 3)). assert (length X = m + 3) as HX by (unfold X; by lengths).
  pose proof (open_node BRANCH X ltac:(done) ltac:(done)) as O1. rewrite HX in O1.
  pose proof (choice_tail_end _ _ l n w (hookable_open w _ _ O1) ltac:(fit)) as E. cbn [dist] in E. rewrite E. unfold X.
  rewrite <-!app_assoc. replace (3 + (m + 3) + 0) with (6 + m) by lia. by replace (m + 3) with (3 + m) by lia.
Qed.
Lemma loop_opt : fits w (9 + m) →
  (_ ← reginsert room BRANCH (place w);
   p ← regnode room BRANCH; _ ← regtail (place w) p;
   next ← regnode room NOTHING;
   _ ← regtail (place w) next;
   regoptail (place w) next) (cst l n (grow w (A None)))
  = Ret (Some ((), cst l n (grow w (node BRANCH (3 + m) ++ A (Some 3) ++ node BRANCH 3 ++ node NOTHING 0)))).
Proof.
  intros Hw. assert (∀ t, length (A t) = m) as HAl by exact (proj1 HA).
  cstep (reginsert_ok exp room l n w (A None) BRANCH ltac:(fit)).
  pose proof (open_node BRANCH (A None) ltac:(done) ltac:(done)) as O1. rewrite HAl in O1.
  pose proof (choice_tail (regoptail (place w)) _ _ l n w (hookable_open w _ _ O1) ltac:(fit)) as E.
  cbn [dist] in E. rewrite E. rewrite <-app_assoc, Nat.add_0_r.
  apply (regoptail_branch exp room A m (3 + m) l n w (node BRANCH 3 ++ node NOTHING 0) 3); [done|fit|done].
Qed.
Lemma loop_plus : fits w (12 + m) →
  (next ← regnode room BRANCH;
   _ ← regtail (place w) next;
   p ← regnode room BACK; _ ← regtail p (place w);
   p ← regnode room BRANCH; _ ← regtail next p;
   p ← regnode room NOTHING; regtail (place w) p) (cst l n (grow w (A None)))
  = Ret (Some ((), cst l n (grow w (A (Some 0) ++ node BRANCH 6 ++ node BACK (3 + m) ++ node BRANCH 3 ++ node NOTHING 0)))).
Proof.
  intros Hw. assert (∀ t, length (A t) = m) as HAl by exact (proj1 HA).
  cstep (regnode_at l n w (A None) BRANCH ltac:(fit)). rewrite HAl.
  assert (Nat.add m <$> place w = Nat.add (m + 0) <$> place w) as E1 by by rewrite Nat.add_0_r.
  cstep (regtail_ok exp room A m l n w (node BRANCH 0) 0 _ HA ltac:(fit) E1).
  cstep (regnode_at l n w (A (Some 0) ++ node BRANCH 0) BACK ltac:(fit)).
  pose proof (regtail_back [] (m + 3) l n (grow w (A (Some 0) ++ node BRANCH 0)) (place w)) as E2.
  rewrite place_grow in E2. lengths. rewrite length_app, node_length, HAl in E2. rewrite <-grow_app.
  cstep (E2 eq_refl ltac:(intros; rewrite Nat.add_0_r; constructor)). cbn [app length]. rewrite grow_app, <-app_assoc, <-grow_app.
  set (w1 := grow w (A (Some 0))). assert (Nat.add m <$> place w = place w1) as -> by (unfold w1; by rewrite place_grow, HAl).
  pose proof (open_node BRANCH (node BACK (0 + (m + 3))) ltac:(done) ltac:(done)) as O1. rewrite node_length in O1.
  assert (fits w1 12) as Hw1 by (unfold w1; fit).
  cstep (regnode_at l n w1 (node BRANCH 0 ++ node BACK (0 + (m + 3))) BRANCH ltac:(fit)).
  pose proof (regtail_ok exp room _ _ l n w1 (node BRANCH 0) 0 (Nat.add 6 <$> place w1) (hookable_open w1 _ _ O1) ltac:(fit) eq_refl) as E3.
  cbn [dist Nat.add] in E3. lengths. cstep E3. unfold w1. rewrite grow_app.
  set (g := λ t, A (Some 0) ++ (node BRANCH 6 ++ node BACK (3 + m)) ++ node BRANCH (dist 3 t)).
  assert (hookable w g (m + 9)) as Hg.
  { split; [intros t; unfold g; by lengths|]. intros Hs. apply open_seq; [by apply HA|].
    eapply open_ext; [by apply (open_over BRANCH (node BACK (3 + m)) 6 (λ t, node BRANCH (dist 3 t)) 3 9);
      rewrite ?node_length; first [done|apply open_plain]|done|]. intros t. by rewrite <-app_assoc. }
  pose proof (regnode_at l n w (g None) NOTHING ltac:(rewrite (proj1 Hg); fit)) as E4. rewrite (proj1 Hg) in E4.
  pose proof (regtail_ok exp room g (m + 9) l n w (node NOTHING 0) 0 _ Hg ltac:(fit)
    ltac:(instantiate (1 := Nat.add (m + 9) <$> place w); by rewrite Nat.add_0_r)) as E5.
  unfold g in E4, E5. rewrite <-!app_assoc in *. replace (m + 3) with (3 + m) by lia.
  cbn [dist] in E4, E5. cstep E4. exact E5.
Qed.
End Multiplied.

Lemma regmult_sim a m c f l n w :
  mult_of c = Some m → atom_ok a → SIMPLE f = simple a → fits w (piece_size (Mult a m)) →
  regmult room c f (place w) (cst l n (grow w (atom_code a None))) =
    Ret (Some ((), cst l n (grow w (piece_code (Mult a m) None)))).
Proof.
  intros Hm Ha Hf Hw. unfold mult_of in Hm. unfold regmult. rewrite Hf. cbn [piece_size piece_code dist] in *.
  assert (∀ k, fits w k → atom_size a ≤ k → hookable w (atom_code a) (atom_size a)) as HA
    by (intros k Hk ?; apply atom_hookable; [done|by eapply fits_le]).
  destruct (c =c chr 42) eqn:E1; [|destruct (c =c chr 43) eqn:E2; [|destruct (c =c chr 63); [|done]]];
    injection Hm as <-; cbn [andb].
  - destruct (simple a); [apply reginsert_ok; fit|]. apply loop_star; [eapply HA; [exact Hw|lia]|done].
  - destruct (simple a); [apply reginsert_ok; fit|]. apply loop_plus; [eapply HA; [exact Hw|lia]|done].
  - apply loop_opt; [eapply HA; [exact Hw|lia]|done].
Qed.

Definition piece_known (p : piece) (rest : cstr) (f : flags) : Prop :=
  HASWIDTH f = piece_width p ∧ SPSTART f = piece_spstart p.
Lemma mult_of_spec c :
  match mult_of c with
  | Some m => ISMULT c = true ∧ c ≠ NUL ∧ bool_decide (m = Opt) = (c =c chr 63) ∧
      mult_flags c = Flags (bool_decide (m = Plus)) false (negb (bool_decide (m = Plus)))
  | None => ISMULT c = false
  end.
Proof. revert c. by_ascii. Qed.

Section Pieces.
Context (pg : nat → cstr → outcome (option (alts * nat * cstr))) (rg : creg (option nat * flags)).
Hypothesis atom_sim : ∀ n l x, l `suffix_of` exp → 0 < n → parse_atom pg n l = Ret x →
  parsed atom_ok l n x ∧ simulates (regatom exp room rg) l n (λ a, atom_code a None) atom_known x.

Lemma regpiece_sim n l x :
  l `suffix_of` exp → 0 < n → parse_piece pg n l = Ret x →
  parsed piece_ok l n x ∧ simulates (regpiece exp room rg) l n (λ p, piece_code p None) piece_known x.
Proof.
  intros Hl Hn (y & Ey & <-%Ret_inj)%bind_inv_Ret. apply atom_sim in Ey as [H1 H2]; [|done..].
  destruct y as [[[a n'] rest]|].
  2: { split; [done|]. intros z. unfold regpiece. by rewrite (creg_fail _ _ _ (H2 z)). }
  destruct H1 as (R1 & R2 & R3 & R4). cbn [simulates] in H2. pose proof (mult_of_spec (hd NUL rest)) as Hm.
  destruct (mult_of (hd NUL rest)) as [m|] eqn:Em.
  2: { split; [by split_and!|]. intros w Hw. cbn [piece_code] in *. destruct (H2 w Hw) as (f & E & K1 & K2 & K3).
    exists f. unfold regpiece. cstep E. cstep (peek_ok exp rest n' (grow w (atom_code a None)) R1). by rewrite Hm. }
  destruct Hm as (M1 & M2 & M3 & M4). rewrite M3. destruct rest as [|c rest]; [done|]. cbn [hd tl] in *.
  assert (rest `suffix_of` exp) as R1' by eauto.
  assert (∀ w, fits w (atom_size a) → ∃ f, SIMPLE f = simple a ∧ regpiece exp room rg (cst l n w) =
    (if negb (atom_width a) && negb (c =c chr 63) then FAIL
     else _ ← regmult room c f (place w); _ ← skip; c' ← peek exp; if ISMULT c' then FAIL else mret (place w, mult_flags c))
      (cst (c :: rest) n' (grow w (atom_code a None)))) as Hgo.
  { intros w Hw. destruct (H2 w) as (f & E & K1 & K2 & K3); [by rewrite atom_length|]. exists f. split; [auto|].
    unfold regpiece. cstep E. cstep (peek_ok exp _ n' (grow w (atom_code a None)) R1). cbn [hd]. by rewrite M1, K1. }
  destruct (negb (atom_width a) && negb (c =c chr 63)) eqn:Ew.
  { split; [done|]. intros z. destruct (Hgo (None, z) I) as (f & _ & E). by rewrite E. }
  assert (∀ w, fits w (piece_size (Mult a m)) → regpiece exp room rg (cst l n w) =
    (if ISMULT (hd NUL rest) then FAIL else mret (place w, mult_flags c)) (cst rest n' (grow w (piece_code (Mult a m) None)))) as Hgo2.
  { intros w Hw. assert (fits w (atom_size a)) as Hw' by (eapply fits_le; [exact Hw|cbn; destruct m, (simple a); lia]).
    destruct (Hgo w Hw') as (f & Ef & E). rewrite E. cstep (regmult_sim a m c f (c :: rest) n' w Em R3 Ef Hw).
    cstep (skip_ok exp c rest n' (grow w (piece_code (Mult a m) None)) R1).
    by cstep (peek_ok exp rest n' (grow w (piece_code (Mult a m) None)) R1'). }
  destruct (ISMULT (hd NUL rest)).
  { split; [done|]. intros z. by rewrite (Hgo2 (None, z) I). }
  split.
  - cbn in R2. split_and!; [done|lia|split; [done|]|done]. intros Hm. rewrite <-M3 in Ew.
    destruct (atom_width a); [done|]. by rewrite bool_decide_eq_false_2 in Ew.
  - intros w Hw. rewrite piece_length in Hw. rewrite (Hgo2 w Hw). eexists. split; [done|]. rewrite M4. by destruct m.
Qed.

(** ** Branches *)

Definition branch_known (b : branch) (rest : cstr) (f : flags) : Prop :=
  HASWIDTH f = branch_width b ∧ SPSTART f = branch_spstart b.
(** a piece in front of a branch *)
Definition before (p : piece) (b : branch) : branch := match b with Empty => Last p | _ => Seq p b end.
Lemma before_code p b : branch_code (before p b) None = match b with Empty => piece_code p None | _ => piece_code p (Some 0) ++ branch_code b None end.
Proof. by destruct b. Qed.

Lemma before_size p b : branch_size (before p b) = match b with Empty => piece_size p | _ => piece_size p + branch_size b end.
Proof. by destruct b. Qed.
Lemma before_ok p b : piece_ok p → branch_ok b → branch_ok (before p b).
Proof. by destruct b. Qed.
Lemma before_width p b : branch_width (before p b) = piece_width p || branch_width b.
Proof. destruct b; cbn; by rewrite ?orb_false_r. Qed.
Lemma before_spstart p b : branch_spstart (before p b) = piece_spstart p.
Proof. by destruct b. Qed.
Lemma before_not_empty p b : before p b ≠ Empty.
Proof. by destruct b. Qed.

(** the loop behind a piece that was written *)
Lemma regbranch_loop_step fuel ch f l n w :
  l `suffix_of` exp → regbranch_loop exp room rg (S fuel) (Some ch) f (cst l n w) =
    (if ends_branch (hd NUL l) then mret (Some ch, f)
     else '(latest, fl) ← regpiece exp room rg; _ ← regtail ch latest;
       regbranch_loop exp room rg fuel (Some latest) (Flags (HASWIDTH f || HASWIDTH fl) (SIMPLE f) (SPSTART f))) (cst l n w).
Proof. intros Hl. cbn [regbranch_loop]. by cstep (peek_ok exp l n w Hl). Qed.

Definition branch_parsed (l : cstr) (n : nat) (x : option (branch * nat * cstr)) : Prop :=
  match x with
  | Some (b, n', rest) => rest `suffix_of` exp ∧ length rest ≤ length l ∧ branch_ok b ∧ n ≤ n' ∧ ends_branch (hd NUL rest) = true
  | None => True
  end.
Lemma regbranch_loop_sim : ∀ fuel fuel' n l x, fuel ≤ fuel' → l `suffix_of` exp → 0 < n → parse_branch pg fuel n l = Ret x →
  branch_parsed l n x ∧
  match x with
  | Some (b, n', rest) => ∀ p f w, piece_ok p → fits w (branch_size (before p b)) →
      ∃ pl s, regbranch_loop exp room rg fuel' (Some (place w)) f (cst l n (grow w (piece_code p None)))
        = Ret (Some ((Some pl, Flags (HASWIDTH f || branch_width b) s (SPSTART f)), cst rest n' (grow w (branch_code (before p b) None))))
  | None => ∀ f z, regbranch_loop exp room rg fuel' (Some None) f (cst l n (None, z)) = Ret None
  end.
Proof.
  induction fuel as [|fuel IH]; intros fuel' n l x Hf Hl Hn Hx; [done|]. destruct fuel' as [|fuel']; [lia|]. cbn [parse_branch] in Hx.
  pose proof (λ ch f w, regbranch_loop_step fuel' ch f l n w Hl) as Eq.
  destruct (ends_branch (hd NUL l)) eqn:Ee.
  { apply Ret_inj in Hx as <-. split; [by split_and!|]. intros p [wf s sp] w Hp Hw. rewrite Eq. exists (place w), s.
    cbn [HASWIDTH SPSTART branch_width before branch_code]. by rewrite orb_false_r. }
  apply bind_inv_Ret in Hx as (y & Ey & Hx). apply regpiece_sim in Ey as [P1 P2]; [|done..].
  destruct y as [[[q n1] l1]|].
  2: { apply Ret_inj in Hx as <-. split; [done|]. intros f z. rewrite Eq. by rewrite (creg_fail _ _ _ (P2 z)). }
  destruct P1 as (R1 & R2 & R3 & R4). apply bind_inv_Ret in Hx as (y & Ey & Hx%Ret_inj).
  destruct (IH fuel' n1 l1 y ltac:(lia) R1 ltac:(lia) Ey) as [I1 I2].
  destruct y as [[[b n2] rest]|].
  - assert (x = Some (before q b, n2, rest)) as -> by (by destruct b). destruct I1 as (B1 & B2 & B3 & B4 & B5).
    split; [split_and!; [done|lia|by apply before_ok|lia|done]|]. intros p f w Hp Hw.
    rewrite before_size in Hw. assert (branch_size (before q b) = branch_size (before q b)) as _ by done.
    assert (fits w (piece_size p + branch_size (before q b))) as Hw' by (destruct (before q b) eqn:E; [by apply before_not_empty in E|done..]).
    clear Hw. rewrite Eq. set (w0 := grow w (piece_code p None)).
    assert (piece_size q ≤ branch_size (before q b)) as Hq by (rewrite before_size; destruct b; lia).
    destruct (P2 w0) as (fl & E1 & K1 & K2); [unfold w0; rewrite fits_grow, !piece_length; by eapply fits_le; [exact Hw'|lia]|].
    cstep E1. unfold w0. rewrite grow_app, place_grow, piece_length.
    assert (Nat.add (piece_size p) <$> place w = Nat.add (piece_size p + 0) <$> place w) as E2 by by rewrite Nat.add_0_r.
    assert (hookable w (piece_code p) (piece_size p)) as Hk by (apply piece_hookable; [done|eapply fits_le; [exact Hw'|lia]]).
    cstep (regtail_ok exp room _ _ l1 n1 w (piece_code q None) 0 _ Hk ltac:(by eapply fits_le; [exact Hw'|lia]) E2).
    rewrite <-grow_app. set (w1 := grow w (piece_code p (Some 0))).
    assert (Nat.add (piece_size p) <$> place w = place w1) as -> by (unfold w1; by rewrite place_grow, piece_length).
    destruct (I2 q (Flags (HASWIDTH f || HASWIDTH fl) (SIMPLE f) (SPSTART f)) w1 R3) as (pl & s & E3).
    { unfold w1. by rewrite fits_grow, piece_length. }
    exists pl, s. rewrite E3. cbn [HASWIDTH SPSTART]. rewrite before_width, K1, orb_assoc. unfold w1. rewrite grow_app.
    rewrite (before_code p). destruct (before q b) eqn:E; [by apply before_not_empty in E|done..].
  - apply Ret_inj in Hx || subst x. split; [done|]. intros f z. rewrite Eq. destruct (P2 (None, z) I) as (fl & E1 & _).
    cstep E1. cbn [place fst fmap option_fmap option_map]. change (regtail None None) with (mret () : creg ()).
    apply I2.
Qed.

Lemma regbranch_sim fuel n l x : fuel ≤ S (length exp) → l `suffix_of` exp → 0 < n → parse_branch pg fuel n l = Ret x →
  branch_parsed l n x ∧
  simulates (regbranch exp room rg) l n (λ b, node BRANCH 0 ++ branch_code b None) branch_known x.
Proof.
  intros Hf Hl Hn Hx. destruct fuel as [|fuel]; [done|].
  assert (∀ w, fits w 3 → regbranch exp room rg (cst l n w) =
    ('(chain, f) ← regbranch_loop exp room rg (S (length exp)) None WORST;
     _ ← match chain with None => regnode room NOTHING | Some _ => mret None end;
     mret (place w, f)) (cst l n (grow w (node BRANCH 0)))) as Eq.
  { intros w Hw. unfold regbranch. by cstep (regnode_ok exp room l n w BRANCH Hw). }
  assert (∀ w, regbranch_loop exp room rg (S (length exp)) None WORST (cst l n w) =
    (if ends_branch (hd NUL l) then mret (None, WORST)
     else '(latest, fl) ← regpiece exp room rg;
       regbranch_loop exp room rg (length exp) (Some latest) (Flags (HASWIDTH fl) false (SPSTART fl))) (cst l n w)) as El.
  { intros w. cbn [regbranch_loop]. by cstep (peek_ok exp l n w Hl). }
  cbn [parse_branch] in Hx. destruct (ends_branch (hd NUL l)) eqn:Ee.
  { apply Ret_inj in Hx as <-. split; [by split_and!|]. intros w. cbn [branch_code dist]. rewrite length_app, !node_length. intros Hw.
    exists WORST. rewrite Eq by (eapply fits_le; [exact Hw|lia]).
    assert (regbranch_loop exp room rg (S (length exp)) None WORST (cst l n (grow w (node BRANCH 0))) =
      Ret (Some ((None, WORST), cst l n (grow w (node BRANCH 0))))) as E by by rewrite El.
    cstep E. cstep (regnode_at l n w (node BRANCH 0) NOTHING ltac:(by rewrite node_length)). done. }
  apply bind_inv_Ret in Hx as (y & Ey & Hx). apply regpiece_sim in Ey as [P1 P2]; [|done..].
  destruct y as [[[q n1] l1]|].
  2: { apply Ret_inj in Hx as <-. split; [done|]. intros z. rewrite Eq by done.
    specialize (P2 (z + Z.of_nat (length (node BRANCH 0)))%Z). rewrite creg_fail; [done|]. rewrite El. by rewrite (creg_fail _ _ _ P2). }
  destruct P1 as (R1 & R2 & R3 & R4). apply bind_inv_Ret in Hx as (y & Ey & Hx%Ret_inj).
  destruct (regbranch_loop_sim fuel (length exp) n1 l1 y ltac:(lia) R1 ltac:(lia) Ey) as [I1 I2].
  destruct y as [[[b n2] rest]|].
  - assert (x = Some (before q b, n2, rest)) as -> by (by destruct b). destruct I1 as (B1 & B2 & B3 & B4 & B5).
    split; [split_and!; [done|lia|by apply before_ok|lia|done]|]. intros w. rewrite length_app, node_length, branch_length. intros Hw.
    rewrite Eq by (eapply fits_le; [exact Hw|lia]). set (w0 := grow w (node BRANCH 0)).
    assert (fits w0 (branch_size (before q b))) as Hw0 by (unfold w0; by rewrite fits_grow, node_length).
    assert (piece_size q ≤ branch_size (before q b)) as Hq by (rewrite before_size; destruct b; lia).
    destruct (P2 w0) as (fl & E1 & K1 & K2); [rewrite piece_length; by eapply fits_le|].
    destruct (I2 q (Flags (HASWIDTH fl) false (SPSTART fl)) w0 R3 Hw0) as (pl & s & E3).
    assert (regbranch_loop exp room rg (S (length exp)) None WORST (cst l n w0) =
      Ret (Some ((Some pl, Flags (HASWIDTH fl || branch_width b) s (SPSTART fl)), cst rest n2 (grow w0 (branch_code (before q b) None))))) as E.
    { rewrite El. cstep E1. exact E3. }
    cstep E. eexists. split; [unfold w0; by rewrite grow_app|]. split; cbn; [by rewrite before_width, K1|by rewrite before_spstart, K2].
  - subst x. split; [done|]. intros z. rewrite Eq by done. set (w0 := grow (None, z) (node BRANCH 0)).
    destruct (P2 w0 I) as (fl & E1 & _).
    assert (regbranch_loop exp room rg (S (length exp)) None WORST (cst l n w0) = Ret None) as E.
    { rewrite El. cstep E1. apply I2. }
    by rewrite (creg_fail _ _ _ E).
Qed.

(** ** Alternatives *)

Fixpoint append (r1 r2 : alts) : alts :=
  match r1 with One b => Alt b r2 | Alt b r => Alt b (append r r2) end.
Lemma append_code r1 r2 : alts_code (append r1 r2) None None = alts_code r1 (Some 0) None ++ alts_code r2 None None.
Proof.
  induction r1 as [b|b r IH]; cbn [append alts_code]; rewrite <-?app_assoc.
  - cbn [dist further fmap option_fmap option_map]. by rewrite Nat.add_0_r.
  - by rewrite IH.
Qed.
Lemma append_size r1 r2 : alts_size (append r1 r2) = alts_size r1 + alts_size r2.
Proof. induction r1 as [b|b r IH]; cbn; [done|]. rewrite IH. lia. Qed.
Lemma append_ok r1 r2 : alts_ok r1 → alts_ok r2 → alts_ok (append r1 r2).
Proof. induction r1 as [b|b r IH]; cbn; [done|]. intros [H1 H2] H. auto. Qed.
Lemma append_assoc r1 b r2 : append (append r1 (One b)) r2 = append r1 (Alt b r2).
Proof. induction r1 as [b'|b' r IH]; cbn; [done|]. by rewrite IH. Qed.

(** what stands in front of the first branch: nothing, or the OPEN node *)
Definition opening (pre : list ascii) : Prop := pre = [] ∨ ∃ no, 0 < no < NSUBEXP ∧ pre = node (OPEN + Z.of_nat no) 3.
Lemma opening_hookable w pre r t :
  opening pre → alts_ok r → fits w (length pre + alts_size r) →
  hookable w (λ nx, pre ++ alts_code r nx t) (length pre + alts_size r).
Proof.
  intros [-> | (no & Hno & ->)] Hr Hw; [by apply alts_hookable|]. rewrite node_length in *.
  split; [intros; lengths; by rewrite alts_length|]. intros Hs.
  destruct Hs as [c Hc]. unfold RegexpCompile.fits in Hw. rewrite Hc in Hw.
  apply (open_over (OPEN + Z.of_nat no) [] 3 (λ nx, alts_code r nx t) (alts_size r)); [auto|auto|done|lia|lia|].
  apply code_open; [done|lia].
Qed.
Lemma opening_tail l n w pre r post :
  opening pre → alts_ok r → fits w (length pre + alts_size r) →
  regtail (place w) (Nat.add (length pre + alts_size r) <$> place w) (cst l n (grow w (pre ++ alts_code r None None ++ post)))
  = Ret (Some ((), cst l n (grow w (pre ++ alts_code r (Some 0) None ++ post)))).
Proof.
  intros Hp Hr Hw. pose proof (opening_hookable w pre r None Hp Hr Hw) as Hk.
  pose proof (regtail_ok exp room _ _ l n w post 0 (Nat.add (length pre + alts_size r) <$> place w) Hk) as E.
  cbn beta in E. rewrite <-!app_assoc in E. apply E; by rewrite Nat.add_0_r.
Qed.

Definition alts_parsed (l : cstr) (n : nat) (x : option (alts * nat * cstr)) : Prop :=
  match x with
  | Some (r, n', rest) => rest `suffix_of` exp ∧ length rest ≤ length l ∧ alts_ok r ∧ n ≤ n' ∧ (hd NUL rest = NUL ∨ hd NUL rest = chr 41)
  | None => True
  end.
Definition is_bar (c : ascii) : bool := (c =c chr 124) || (c =c NL).
Lemma ends_not_bar c : ends_branch c = true → is_bar c = false → c = NUL ∨ c = chr 41.
Proof.
  unfold ends_branch, is_bar. intros H [H1 H2]%orb_false_iff. rewrite H1, H2, !orb_false_r in H.
  by apply orb_true_iff in H as [H%char_eqb_eq|H%char_eqb_eq]; auto.
Qed.

(** the branches behind a bar *)
Definition more_branches (fuel : nat) (ret : option nat) (f : flags) : creg flags :=
  '(br, fl) ← regbranch exp room rg;
  _ ← regtail ret br;
  branches_loop exp room rg fuel ret (Flags (HASWIDTH f && HASWIDTH fl) (SIMPLE f) (SPSTART f || SPSTART fl)).
Lemma branches_loop_step fuel ret f c l n w :
  (c :: l) `suffix_of` exp → is_bar c = true →
  branches_loop exp room rg (S fuel) ret f (cst (c :: l) n w) = more_branches fuel ret f (cst l n w).
Proof.
  intros Hc Hb. cbn [branches_loop]. cstep (peek_ok exp _ n w Hc). cbn [hd]. unfold is_bar in Hb. rewrite Hb.
  by cstep (skip_ok exp _ _ n w Hc).
Qed.
Lemma branches_loop_end fuel ret f l n w :
  l `suffix_of` exp → is_bar (hd NUL l) = false →
  branches_loop exp room rg (S fuel) ret f (cst l n w) = Ret (Some (f, cst l n w)).
Proof. intros Hl Hb. cbn [branches_loop]. cstep (peek_ok exp l n w Hl). unfold is_bar in Hb. by rewrite Hb. Qed.

Lemma parse_alts_S fuel n l x :
  parse_alts pg (S fuel) n l = Ret x → ∃ y, parse_branch pg (S (length l)) n l = Ret y ∧
  match y with
  | None => x = None
  | Some (b, n1, l1) =>
      if is_bar (hd NUL l1) then ∃ z, parse_alts pg fuel n1 (tl l1) = Ret z ∧
        x = match z with Some (r, n2, l2) => Some (Alt b r, n2, l2) | None => None end
      else x = Some (One b, n1, l1)
  end.
Proof.
  cbn [parse_alts]. intros (y & Ey & H)%bind_inv_Ret. exists y. split; [done|]. destruct y as [[[b n1] l1]|]; [|by apply Ret_inj in H].
  unfold is_bar. destruct (_ || _); [|by apply Ret_inj in H]. apply bind_inv_Ret in H as (z & Ez & <-%Ret_inj). by exists z.
Qed.

Lemma more_branches_one fuel l n b n1 l1 pre r0 f w :
  simulates (regbranch exp room rg) l n (λ b, node BRANCH 0 ++ branch_code b None) branch_known (Some (b, n1, l1)) →
  opening pre → alts_ok r0 → fits w (length pre + alts_size (append r0 (One b))) →
  ∃ s, more_branches fuel (place w) f (cst l n (grow w (pre ++ alts_code r0 None None))) =
    branches_loop exp room rg fuel (place w) (Flags (HASWIDTH f && branch_width b) s (SPSTART f || branch_spstart b))
      (cst l1 n1 (grow w (pre ++ alts_code (append r0 (One b)) None None))).
Proof.
  intros B Hp H0 Hw. rewrite append_size in Hw. cbn [alts_size] in Hw.
  destruct (B (grow w (pre ++ alts_code r0 None None))) as (fl & E & K1 & K2).
  { rewrite fits_grow. rewrite !length_app, node_length, branch_length, alts_length. eapply fits_le; [exact Hw|lia]. }
  unfold more_branches. cstep E. rewrite place_grow, length_app, alts_length, grow_app, <-app_assoc.
  cstep (opening_tail l1 n1 w pre r0 (node BRANCH 0 ++ branch_code b None) Hp H0 ltac:(by eapply fits_le; [exact Hw|lia])).
  exists (SIMPLE f). by rewrite append_code, K1, K2.
Qed.

Lemma more_branches_sim : ∀ fuel fuel' n l x, fuel ≤ fuel' → l `suffix_of` exp → 0 < n → parse_alts pg fuel n l = Ret x →
  alts_parsed l n x ∧
  match x with
  | Some (r, n', rest) => ∀ pre r0 f w, opening pre → alts_ok r0 → fits w (length pre + alts_size (append r0 r)) →
      ∃ s, more_branches fuel' (place w) f (cst l n (grow w (pre ++ alts_code r0 None None))) =
        Ret (Some (Flags (HASWIDTH f && alts_width r) s (SPSTART f || alts_spstart r),
                   cst rest n' (grow w (pre ++ alts_code (append r0 r) None None))))
  | None => ∀ f z, more_branches fuel' None f (cst l n (None, z)) = Ret None
  end.
Proof.
  induction fuel as [|fuel IH]; intros fuel' n l x Hf Hl Hn Hx; [done|]. destruct fuel' as [|fuel']; [lia|].
  pose proof (suffix_length _ _ Hl) as Hlen. apply parse_alts_S in Hx as (y & Ey & Hx).
  apply regbranch_sim in Ey as [B1 B2]; [|lia|done|done]. destruct y as [[[b n1] l1]|].
  2: { subst x. split; [done|]. intros f z. unfold more_branches. by rewrite (creg_fail _ _ _ (B2 z)). }
  destruct B1 as (R1 & R2 & R3 & R4 & R5).
  destruct (is_bar (hd NUL l1)) eqn:Eb.
  - destruct Hx as (z & Ez & ->). destruct l1 as [|c l1]; [done|]. cbn [hd tl] in *.
    destruct (IH fuel' n1 l1 z ltac:(lia) ltac:(eauto) ltac:(lia) Ez) as [I1 I2].
    destruct z as [[[r n2] l2]|].
    + destruct I1 as (A1 & A2 & A3 & A4 & A5). cbn [length] in *. split; [by split_and!; first [done|lia]|].
      intros pre r0 f w Hp H0 Hw. rewrite append_size in Hw. cbn [alts_size] in Hw.
      destruct (more_branches_one (S fuel') l n b n1 (c :: l1) pre r0 f w B2 Hp H0) as (s & E).
      { rewrite append_size. cbn [alts_size]. eapply fits_le; [exact Hw|lia]. }
      rewrite E, branches_loop_step by done. cbn [HASWIDTH SIMPLE SPSTART].
      destruct (I2 pre (append r0 (One b)) (Flags (HASWIDTH f && branch_width b) s (SPSTART f || branch_spstart b)) w Hp) as (s' & E').
      { by apply append_ok. }
      { rewrite !append_size. cbn [alts_size]. eapply fits_le; [exact Hw|lia]. }
      exists s'. rewrite E', append_assoc. cbn [HASWIDTH SPSTART alts_width alts_spstart]. by rewrite andb_assoc, orb_assoc.
    + split; [done|]. intros f z. destruct (B2 (None, z) I) as (fl & E & _). unfold more_branches. cstep E.
      cbn [place fst fmap option_fmap option_map]. change (regtail None None) with (mret () : creg ()).
      rewrite mret_step, branches_loop_step by done. apply I2.
  - subst x. split; [split_and!; [done..|by apply ends_not_bar]|]. intros pre r0 f w Hp H0 Hw.
    destruct (more_branches_one (S fuel') l n b n1 l1 pre r0 f w B2 Hp H0 Hw) as (s & E). exists s.
    by rewrite E, branches_loop_end.
Qed.
End Pieces.

(** ** The tails of the branches *)

(** one turn in the second pass *)
Lemma hook_tails_step fuel w ender l n bs bs' d op post :
  is_Some w.1 → is_op op → op ≠ BACK → 0 < d → (Z.of_nat d < 65536)%Z →
  regoptail (place w) ender (cst l n (grow w bs)) = Ret (Some ((), cst l n (grow w bs'))) →
  bs' = node op d ++ post →
  hook_tails (S fuel) (place w) ender (cst l n (grow w bs)) = hook_tails fuel (Nat.add d <$> place w) ender (cst l n (grow w bs')).
Proof.
  destruct w as [[c|] z]; [|by intros []]. intros _ Hop Hb Hd Hd' E ->. cbn [hook_tails place fst fmap option_fmap option_map] in *.
  cstep E. rewrite get_step. cbn [cst regcode fst grow].
  rewrite (lift_step _ _ _ _ (regnext_node op d c post Hop Hb Hd Hd')). by replace (d + length c) with (length c + d) by lia.
Qed.
Lemma hook_tails_ender fuel w ender l n op :
  is_Some w.1 → is_op op → op ≠ BRANCH → 2 ≤ fuel →
  hook_tails fuel (place w) ender (cst l n (grow w (node op 0))) = Ret (Some ((), cst l n (grow w (node op 0)))).
Proof.
  intros Hs Hop Hb Hf. destruct fuel as [|[|fuel]]; [lia..|]. pose proof (regoptail_other exp op 0 l n w [] ender Hop Hb) as E.
  rewrite app_nil_r in E. destruct w as [[c|] z]; [|by destruct Hs]. cbn [hook_tails place fst fmap option_fmap option_map] in *.
  cstep E. rewrite get_step. cbn [cst regcode fst grow]. pose proof (regnext_open op c []) as En. rewrite app_nil_r in En.
  by rewrite (lift_step _ _ _ _ En).
Qed.
Lemma hook_alts op l n r : ∀ fuel w, is_Some w.1 → is_op op → op ≠ BRANCH → alts_size r ≤ fuel → alts_ok r → fits w (alts_size r + 3) →
  hook_tails fuel (place w) (Nat.add (alts_size r) <$> place w) (cst l n (grow w (alts_code r (Some 0) None ++ node op 0)))
  = Ret (Some ((), cst l n (grow w (alts_code r (Some 0) (Some 0) ++ node op 0)))).
Proof.
  induction r as [b|b r IH]; intros [|fuel] w Hs Hop Hb Hf Hr Hw; cbn [alts_size alts_ok] in *; try lia.
  - assert (Z.of_nat (3 + branch_size b) < 65536)%Z as Hsz
      by (destruct Hs as [c Ec]; unfold RegexpCompile.fits in Hw; rewrite Ec in Hw; lia).
    pose proof (regoptail_branch exp room (branch_code b) (branch_size b) (3 + branch_size b + 0) l n w (node op 0) 0
      (Nat.add (3 + branch_size b) <$> place w) ltac:(by apply branch_hookable; [|eapply fits_le; [exact Hw|lia]])
      ltac:(eapply fits_le; [exact Hw|lia]) ltac:(by rewrite Nat.add_0_r)) as E.
    cbn [alts_code dist]. rewrite <-!app_assoc. rewrite (hook_tails_step fuel w _ l n _ _ (3 + branch_size b + 0) BRANCH _ Hs ltac:(done) ltac:(done) ltac:(lia) ltac:(lia) E eq_refl).
    rewrite Nat.add_0_r. rewrite app_assoc, <-(grow_app w _ (node op 0)).
    assert (Nat.add (3 + branch_size b) <$> place w = place (grow w (node BRANCH (3 + branch_size b) ++ branch_code b (Some 0)))) as ->
      by (rewrite place_grow, length_app, node_length, branch_length; done).
    apply hook_tails_ender; [by destruct w as [[?|] ?]|done|done|lia].
  - destruct Hr as [Hb' Hr].
    assert (Z.of_nat (3 + branch_size b + alts_size r) < 65536)%Z as Hsz
      by (destruct Hs as [c Ec]; unfold RegexpCompile.fits in Hw; rewrite Ec in Hw; lia).
    pose proof (regoptail_branch exp room (branch_code b) (branch_size b) (3 + branch_size b) l n w (alts_code r (Some 0) None ++ node op 0)
      (alts_size r) (Nat.add (3 + branch_size b + alts_size r) <$> place w) ltac:(by apply branch_hookable; [|eapply fits_le; [exact Hw|lia]])
      ltac:(eapply fits_le; [exact Hw|lia]) eq_refl) as E.
    cbn [alts_code further fmap option_fmap option_map]. rewrite <-!app_assoc. rewrite (hook_tails_step fuel w _ l n _ _ (3 + branch_size b) BRANCH _ Hs ltac:(done) ltac:(done) ltac:(lia) ltac:(lia) E eq_refl).
    rewrite Nat.add_0_r. set (w1 := grow w (node BRANCH (3 + branch_size b) ++ branch_code b (Some (alts_size r)))).
    rewrite !(app_assoc (node BRANCH (3 + branch_size b)) (branch_code b (Some (alts_size r)))), <-!(grow_app w (node BRANCH (3 + branch_size b) ++ branch_code b (Some (alts_size r)))).
    fold w1. assert (place w1 = Nat.add (3 + branch_size b) <$> place w) as E1 by (unfold w1; by rewrite place_grow, length_app, node_length, branch_length).
    rewrite <-E1.
    assert (Nat.add (3 + branch_size b + alts_size r) <$> place w = Nat.add (alts_size r) <$> place w1) as ->.
    { rewrite E1. destruct (place w); cbn; [f_equal; lia|done]. }
    apply IH; [unfold w1; by destruct w as [[?|] ?]|done|done|lia|done|].
    unfold w1. rewrite fits_grow, length_app, node_length, branch_length. eapply fits_le; [exact Hw|lia].
Qed.
Lemma hook_opening op pre l n r fuel w :
  opening pre → is_Some w.1 → is_op op → op ≠ BRANCH → length pre + alts_size r ≤ fuel → alts_ok r → fits w (length pre + alts_size r + 3) →
  hook_tails fuel (place w) (Nat.add (length pre + alts_size r) <$> place w) (cst l n (grow w (pre ++ alts_code r (Some 0) None ++ node op 0)))
  = Ret (Some ((), cst l n (grow w (pre ++ alts_code r (Some 0) (Some 0) ++ node op 0)))).
Proof.
  intros [-> | (no & Hno & ->)] Hs Hop Hb Hf Hr Hw; [by apply hook_alts|]. rewrite node_length in *.
  destruct fuel as [|fuel]; [lia|].
  pose proof (regoptail_other exp (OPEN + Z.of_nat no) 3 l n w (alts_code r (Some 0) None ++ node op 0)
    (Nat.add (3 + alts_size r) <$> place w) ltac:(auto) ltac:(unfold OPEN, BRANCH; lia)) as E.
  rewrite (hook_tails_step fuel w _ l n _ _ 3 (OPEN + Z.of_nat no) _ Hs ltac:(auto) ltac:(auto) ltac:(lia) ltac:(lia) E eq_refl).
  rewrite <-!(grow_app w (node (OPEN + Z.of_nat no) 3)). set (w1 := grow w (node (OPEN + Z.of_nat no) 3)).
  assert (place w1 = Nat.add 3 <$> place w) as E1 by (unfold w1; by rewrite place_grow, node_length). rewrite <-E1.
  assert (Nat.add (3 + alts_size r) <$> place w = Nat.add (alts_size r) <$> place w1) as ->.
  { rewrite E1. destruct (place w); cbn; [f_equal; lia|done]. }
  apply hook_alts; [unfold w1; by destruct w as [[?|] ?]|done|done|lia|done|]. unfold w1. rewrite fits_grow, node_length.
  eapply fits_le; [exact Hw|lia].
Qed.

(** ** The whole *)

Lemma grow_nil w : grow w [] = w.
Proof. destruct w as [[c|] z]; cbn; by rewrite ?app_nil_r, ?Z.add_0_r. Qed.

Lemma reg_close_sim paren op f pre r l n w :
  l `suffix_of` exp → opening pre → is_op op → op ≠ BRANCH → alts_ok r → fits w (length pre + alts_size r + 3) →
  reg_close exp room paren op (place w) f (cst l n (grow w (pre ++ alts_code r None None))) =
    let s l := cst l n (grow w (pre ++ alts_code r (Some 0) (Some 0) ++ node op 0)) in
    if paren then match l with c :: rest => if c =c chr 41 then Ret (Some ((place w, f), s rest)) else Ret None | [] => Ret None end
    else match l with [] => Ret (Some ((place w, f), s l)) | _ => Ret None end.
Proof.
  intros Hl Hp Hop Hb Hr Hw. assert (length (pre ++ alts_code r None None) = length pre + alts_size r) as Hlen
    by by rewrite length_app, alts_length.
  unfold reg_close. cstep (regnode_at l n w (pre ++ alts_code r None None) op ltac:(by rewrite Hlen)). rewrite Hlen, <-app_assoc.
  cstep (opening_tail l n w pre r (node op 0) Hp Hr ltac:(by eapply fits_le; [exact Hw|lia])). rewrite get_step.
  set (w' := grow w (pre ++ alts_code r (Some 0) (Some 0) ++ node op 0)).
  assert (match regcode (cst l n (grow w (pre ++ alts_code r (Some 0) None ++ node op 0))) with
    | None => mret () | Some c => hook_tails (S (length c)) (place w) (Nat.add (length pre + alts_size r) <$> place w) end
      (cst l n (grow w (pre ++ alts_code r (Some 0) None ++ node op 0))) = Ret (Some ((), cst l n w'))) as E.
  { destruct w as [[c|] z]; cbn [cst regcode fst grow].
    - apply (hook_opening op pre l n r _ (Some c, z)); [done|by eexists|done|done| |done|done]. rewrite !length_app, alts_length. lia.
    - unfold w'. cbn [mret creg_ret grow]. by rewrite !length_app, !alts_length. }
  cstep E. cstep (peek_ok exp l n w' Hl). destruct paren.
  - destruct l as [|c l]; cbn [hd]; [done|]. cstep (skip_ok exp c l n w' Hl). by destruct (c =c chr 41).
  - destruct l as [|c l]; cbn [hd]; [done|]. by rewrite (in_exp_NUL _ _ Hl).
Qed.

Section Nested.
Context (pg : nat → cstr → outcome (option (alts * nat * cstr))) (rg : creg (option nat * flags)).
Hypothesis atom_sim : ∀ n l x, l `suffix_of` exp → 0 < n → parse_atom pg n l = Ret x →
  parsed atom_ok l n x ∧ simulates (regatom exp room rg) l n (λ a, atom_code a None) atom_known x.

(** what comes before the first branch: an OPEN node that leads nowhere yet, one
    that leads to the branch *)
Definition opened (paren : bool) (no d : nat) : list ascii := if paren then node (OPEN + Z.of_nat no) d else [].
Definition reg_body (paren : bool) (op : Z) (ret : option nat) : creg (option nat * flags) :=
  '(br, fl) ← regbranch exp room rg;
  _ ← (if paren then regtail ret br else mret ());
  let ret := if paren then ret else br in
  f ← branches_loop exp room rg (S (length exp)) ret (Flags (HASWIDTH fl) false (SPSTART fl));
  reg_close exp room paren op ret f.
Lemma opened_length paren no d : length (opened paren no d) = if paren then 3 else 0.
Proof. destruct paren; [by apply node_length|done]. Qed.
Lemma opened_opening paren no : (paren = true → 0 < no < NSUBEXP) → opening (opened paren no 3).
Proof. destruct paren; [|by left]. right. eexists. eauto. Qed.

(** the first branch *)
Lemma first_branch paren no op l n b n1 l1 w :
  simulates (regbranch exp room rg) l n (λ b, node BRANCH 0 ++ branch_code b None) branch_known (Some (b, n1, l1)) →
  (paren = true → 0 < no < NSUBEXP) → fits w ((if paren then 3 else 0) + (3 + branch_size b)) →
  ∃ f, HASWIDTH f = branch_width b ∧ SPSTART f = branch_spstart b ∧
  reg_body paren op (place w) (cst l n (grow w (opened paren no 0))) =
    (f ← branches_loop exp room rg (S (length exp)) (place w) f; reg_close exp room paren op (place w) f)
      (cst l1 n1 (grow w (opened paren no 3 ++ alts_code (One b) None None))).
Proof.
  intros B Hno Hw. destruct (B (grow w (opened paren no 0))) as (fl & E & K1 & K2).
  { rewrite fits_grow, opened_length, length_app, node_length, branch_length. exact Hw. }
  exists (Flags (HASWIDTH fl) false (SPSTART fl)). split_and!; [done|done|]. unfold reg_body. cstep E. rewrite grow_app, place_grow.
  destruct paren; cbn [opened app] in *.
  - rewrite node_length.
    assert (hookable w (λ t, node (OPEN + Z.of_nat no) (dist 3 t)) 3) as Hk
      by (apply hookable_open, open_plain; specialize (Hno eq_refl); auto).
    cstep (regtail_ok exp room _ 3 l1 n1 w (node BRANCH 0 ++ branch_code b None) 0 (Nat.add 3 <$> place w) Hk
      ltac:(by eapply fits_le; [exact Hw|lia]) eq_refl). done.
  - rewrite mret_step. assert (Nat.add (length []) <$> place w = place w) as -> by (by destruct (place w)). done.
Qed.

Lemma reg_body_sim paren no op fuel n l x :
  fuel ≤ S (length exp) → l `suffix_of` exp → 0 < n → (paren = true → 0 < no < NSUBEXP) → parse_alts pg fuel n l = Ret x →
  alts_parsed l n x ∧
  match x with
  | Some (r, n', rest) => ∀ w, fits w ((if paren then 3 else 0) + alts_size r) → ∃ f,
      HASWIDTH f = alts_width r ∧ SPSTART f = alts_spstart r ∧
      reg_body paren op (place w) (cst l n (grow w (opened paren no 0))) =
        reg_close exp room paren op (place w) f (cst rest n' (grow w (opened paren no 3 ++ alts_code r None None)))
  | None => ∀ z, reg_body paren op None (cst l n (None, z)) = Ret None
  end.
Proof.
  intros Hf Hl Hn Hno Hx. destruct fuel as [|fuel]; [done|]. pose proof (suffix_length _ _ Hl) as Hlen.
  pose proof (opened_opening paren no Hno) as Hop.
  apply parse_alts_S in Hx as (y & Ey & Hx). destruct (regbranch_sim pg rg atom_sim (S (length l)) n l y ltac:(lia) Hl Hn Ey) as [B1 B2].
  destruct y as [[[b n1] l1]|].
  2: { subst x. split; [done|]. intros z. unfold reg_body. by rewrite (creg_fail _ _ _ (B2 z)). }
  destruct B1 as (R1 & R2 & R3 & R4 & R5). destruct (is_bar (hd NUL l1)) eqn:Eb.
  - destruct Hx as (z & Ez & ->). destruct l1 as [|c l1]; [done|]. cbn [hd tl length] in *.
    destruct (more_branches_sim pg rg atom_sim fuel (length exp) n1 l1 z ltac:(lia) ltac:(eauto) ltac:(lia) Ez) as [I1 I2].
    destruct z as [[[r n2] l2]|].
    + destruct I1 as (A1 & A2 & A3 & A4 & A5). split; [by split_and!; first [done|lia]|]. intros w Hw. cbn [alts_size] in Hw.
      destruct (first_branch paren no op l n b n1 (c :: l1) w B2 Hno) as (f & K1 & K2 & E); [by eapply fits_le; [exact Hw|lia]|].
      destruct (I2 (opened paren no 3) (One b) f w Hop R3) as (s & E').
      { rewrite opened_length. cbn [append alts_size]. by eapply fits_le; [exact Hw|lia]. }
      eexists. rewrite E.
      assert (branches_loop exp room rg (S (length exp)) (place w) f (cst (c :: l1) n1 (grow w (opened paren no 3 ++ alts_code (One b) None None)))
        = Ret (Some (Flags (HASWIDTH f && alts_width r) s (SPSTART f || alts_spstart r),
             cst l2 n2 (grow w (opened paren no 3 ++ alts_code (append (One b) r) None None))))) as E2 by by rewrite branches_loop_step.
      cstep E2. split; [|split; [|reflexivity]]; cbn; by rewrite ?K1, ?K2.
    + split; [done|]. intros z. destruct (B2 (None, z) I) as (fl & E & _). unfold reg_body. cstep E.
      assert ((if paren then regtail None (place (None, z)) else mret ()) = mret ()) as -> by (by destruct paren). rewrite mret_step.
      assert ((if paren then None else place (None, z)) = None) as -> by (by destruct paren). apply creg_fail.
      rewrite branches_loop_step by done. apply I2.
  - subst x. split; [split_and!; [done..|by apply ends_not_bar]|]. intros w Hw. cbn [alts_size] in Hw.
    destruct (first_branch paren no op l n b n1 l1 w B2 Hno Hw) as (f & K1 & K2 & E). exists f. split_and!; [done..|]. rewrite E.
    pose proof (branches_loop_end rg (length exp) (place w) f l1 n1 (grow w (opened paren no 3 ++ alts_code (One b) None None)) R1 Eb) as E2.
    by cstep E2.
Qed.
End Nested.

(** ** Groups *)

Lemma reg_S fuel paren : reg exp room (S fuel) paren =
  (s ← get_st;
   if paren && (NSUBEXP <=? regnpar s)%nat then FAIL
   else
     ret ← (if paren then (_ ← set_npar (S (regnpar s)); regnode room (OPEN + Z.of_nat (regnpar s))) else mret None);
     reg_body (reg exp room fuel true) paren (if paren then CLOSE + Z.of_nat (regnpar s) else END) ret).
Proof. reflexivity. Qed.
Lemma reg_many fuel l n w : NSUBEXP ≤ n → reg exp room (S fuel) true (cst l n w) = Ret None.
Proof.
  intros Hn. rewrite reg_S, get_step. cbn [cst regnpar andb]. by destruct (Nat.leb_spec NSUBEXP n); [|lia].
Qed.

Lemma parse_group_S fuel n l x :
  parse_group (S fuel) n l = Ret x → ∃ y, parse_alts (parse_group fuel) (S (length l)) n l = Ret y ∧
  match y with
  | Some (r, n', c :: rest) => x = if c =c chr 41 then Some (r, n', rest) else None
  | _ => x = None
  end.
Proof. cbn [parse_group]. intros (y & Ey & <-%Ret_inj)%bind_inv_Ret. exists y. split; [done|]. by destruct y as [[[r n'] [|c rest]]|]. Qed.

Lemma group_sim fuel : ∀ n l x, l `suffix_of` exp → 0 < n < NSUBEXP → parse_group fuel (S n) l = Ret x →
  parsed alts_ok l (S n) x ∧ simulates (reg exp room (S fuel) true) l n (λ a, atom_code a None) group_known (as_group n x).
Proof.
  induction fuel as [|fuel IH]; intros n l x Hl Hn Hx; [done|]. pose proof (suffix_length _ _ Hl) as Hlen.
  assert (∀ n l x, l `suffix_of` exp → 0 < n → parse_atom (parse_group fuel) n l = Ret x →
    parsed atom_ok l n x ∧ simulates (regatom exp room (reg exp room (S fuel) true)) l n (λ a, atom_code a None) atom_known x) as Hatom
    by (apply regatom_sim; [apply IH|intros k l' w; apply reg_many]).
  apply parse_group_S in Hx as (y & Ey & Hx).
  destruct (reg_body_sim _ _ Hatom true n (CLOSE + Z.of_nat n) (S (length l)) (S n) l y ltac:(lia) Hl ltac:(lia) ltac:(done) Ey) as [H1 H2].
  assert (∀ w, fits w 3 → reg exp room (S (S fuel)) true (cst l n w) =
    reg_body (reg exp room (S fuel) true) true (CLOSE + Z.of_nat n) (place w) (cst l (S n) (grow w (opened true n 0)))) as Eq.
  { intros w Hw. rewrite reg_S, get_step. cbn [cst regnpar andb]. destruct (Nat.leb_spec NSUBEXP n); [lia|].
    assert ((_ ← set_npar (S n); regnode room (OPEN + Z.of_nat n)) (cst l n w)
      = Ret (Some (place w, cst l (S n) (grow w (node (OPEN + Z.of_nat n) 0))))) as E.
    { assert (set_npar (S n) (cst l n w) = Ret (Some ((), cst l (S n) w))) as E by done. cstep E. by apply regnode_ok. }
    by cstep E. }
  destruct y as [[[r n'] rest]|].
  2: { subst x. split; [done|]. intros z. rewrite Eq by done. apply H2. }
  destruct H1 as (A1 & A2 & A3 & A4 & A5).
  assert (∀ w, fits w (6 + alts_size r) → ∃ f, HASWIDTH f = alts_width r ∧ SPSTART f = alts_spstart r ∧
    reg exp room (S (S fuel)) true (cst l n w) =
    match rest with c :: rest => if c =c chr 41 then Ret (Some ((place w, f), cst rest n' (grow w (atom_code (Group n r) None)))) else Ret None
    | [] => Ret None end) as Hgo.
  { intros w Hw. destruct (H2 w) as (f & K1 & K2 & E); [by eapply fits_le; [exact Hw|lia]|]. exists f. split_and!; [done..|].
    rewrite Eq by (eapply fits_le; [exact Hw|lia]). rewrite E.
    rewrite (reg_close_sim true (CLOSE + Z.of_nat n) f (opened true n 3) r rest n' w A1); [done|by apply opened_opening|auto| |done|].
    - unfold CLOSE, BRANCH. lia.
    - rewrite opened_length. eapply fits_le; [exact Hw|lia]. }
  destruct rest as [|c rest].
  { subst x. split; [done|]. intros z. destruct (Hgo (None, z) I) as (f & _ & _ & E). by rewrite E. }
  destruct (c =c chr 41).
  - subst x. cbn [length] in A2. split; [split_and!; [eauto|lia|done|done]|]. intros w. rewrite atom_length. intros Hw.
    destruct (Hgo w Hw) as (f & K1 & K2 & E). exists f. split; [done|]. by split.
  - subst x. split; [done|]. intros z. destruct (Hgo (None, z) I) as (f & _ & _ & E). by rewrite E.
Qed.

(** ** The grammar decides *)

Section Total.
Context (pg : nat → cstr → outcome (option (alts * nat * cstr))) (rg : creg (option nat * flags)) (D : nat).
Hypothesis pg_total : ∀ n l, l `suffix_of` exp → 0 < n → length l < D → ∃ x, pg n l = Ret x.
Hypothesis atom_sim : ∀ n l x, l `suffix_of` exp → 0 < n → parse_atom pg n l = Ret x →
  parsed atom_ok l n x ∧ simulates (regatom exp room rg) l n (λ a, atom_code a None) atom_known x.

Lemma parse_atom_total n l : l `suffix_of` exp → 0 < n → length l ≤ D → ∃ x, parse_atom pg n l = Ret x.
Proof.
  intros Hl Hn HD. destruct l as [|c l]; cbn [parse_atom length] in *; [by eexists|].
  destruct (c =c chr 94); [by eexists|]. destruct (c =c chr 36); [by eexists|]. destruct (c =c chr 46); [by eexists|].
  destruct (c =c chr 91); [by eexists|]. destruct (c =c chr 40).
  { destruct (NSUBEXP <=? n); [by eexists|]. destruct (pg_total (S n) l) as [x ->]; [eauto|lia|lia|]. by eexists. }
  destruct (ends_branch c || ISMULT c); [by eexists|].
  destruct (c =c chr 92); [|by destruct (exact_chars None (c :: l)); eexists].
  destruct l as [|c' l]; [by eexists|]. destruct (c' =c chr 60); [by eexists|]. destruct (c' =c chr 62); [by eexists|].
  by destruct (exact_chars None (c' :: l)); eexists.
Qed.
Lemma parse_branch_total : ∀ fuel n l, l `suffix_of` exp → 0 < n → length l ≤ D → length l < fuel → ∃ x, parse_branch pg fuel n l = Ret x.
Proof.
  induction fuel as [|fuel IH]; intros n l Hl Hn HD Hf; [lia|]. cbn [parse_branch]. destruct (ends_branch _); [by eexists|].
  destruct (parse_atom_total n l Hl Hn HD) as [a Ea].
  assert (∃ y, parse_piece pg n l = Ret y) as [y Ey] by (unfold parse_piece; rewrite Ea; by eexists).
  destruct (regpiece_sim pg rg atom_sim n l y Hl Hn Ey) as [P _]. rewrite Ey. cbn [mbind outcome_bind].
  destruct y as [[[q n1] l1]|]; [|by eexists]. destruct P as (R1 & R2 & R3 & R4).
  destruct (IH n1 l1) as [x ->]; [done|lia|lia|lia|]. by eexists.
Qed.
Lemma parse_alts_total : ∀ fuel n l, l `suffix_of` exp → 0 < n → length l ≤ D → length l < fuel → ∃ x, parse_alts pg fuel n l = Ret x.
Proof.
  induction fuel as [|fuel IH]; intros n l Hl Hn HD Hf; [lia|]. cbn [parse_alts]. pose proof (suffix_length _ _ Hl) as Hlen.
  destruct (parse_branch_total (S (length l)) n l) as [y Ey]; [done..|lia|].
  destruct (regbranch_sim pg rg atom_sim (S (length l)) n l y ltac:(lia) Hl Hn Ey) as [P _]. rewrite Ey. cbn [mbind outcome_bind].
  destruct y as [[[b n1] l1]|]; [|by eexists]. destruct P as (R1 & R2 & R3 & R4 & R5).
  destruct (_ || _) eqn:Eb; [|by eexists]. destruct l1 as [|c l1]; [done|]. cbn [tl length] in *.
  destruct (IH n1 l1) as [x ->]; [eauto|lia|lia|lia|]. by eexists.
Qed.
End Total.

Lemma group_atoms fuel n l x : l `suffix_of` exp → 0 < n → parse_atom (parse_group fuel) n l = Ret x →
  parsed atom_ok l n x ∧ simulates (regatom exp room (reg exp room (S fuel) true)) l n (λ a, atom_code a None) atom_known x.
Proof. apply regatom_sim; [apply group_sim|intros k l' w; apply reg_many]. Qed.
Lemma parse_group_total : ∀ fuel n l, l `suffix_of` exp → 0 < n → length l < fuel → ∃ x, parse_group fuel n l = Ret x.
Proof.
  induction fuel as [|fuel IH]; intros n l Hl Hn Hf; [lia|]. cbn [parse_group].
  destruct (parse_alts_total (parse_group fuel) (reg exp room (S fuel) true) fuel IH (group_atoms fuel) (S (length l)) n l) as [x ->];
    [done|done|lia|lia|]. by eexists.
Qed.
Lemma parse_total : ∃ x, parse exp = Ret x.
Proof.
  unfold parse. destruct (parse_alts_total (parse_group (length exp)) (reg exp room (S (length exp)) true) (length exp)
    (parse_group_total (length exp)) (group_atoms (length exp)) (S (length exp)) 1 exp) as [x ->]; [done|lia..|]. by eexists.
Qed.

(** a pass over the pattern *)
Lemma pass_sim x :
  parse exp = Ret x →
  let pass := _ ← regc room (chr MAGIC); reg exp room (S (S (length exp))) false in
  match x with
  | Some r => alts_ok r ∧ ∀ w, fits w (program_size r) → ∃ p f n, SPSTART f = alts_spstart r ∧
      pass (cst exp 1 w) = Ret (Some ((p, f), cst [] n (grow w (program_code r))))
  | None => ∀ z, pass (cst exp 1 (None, z)) = Ret None
  end.
Proof.
  unfold parse. intros (y & Ey & <-%Ret_inj)%bind_inv_Ret. cbv zeta.
  destruct (reg_body_sim _ _ (group_atoms (length exp)) false 0 END (S (length exp)) 1 exp y ltac:(lia) ltac:(done) ltac:(lia) ltac:(done) Ey) as [H1 H2].
  assert (∀ w q, fits w 1 → (_ ← regc room (chr MAGIC); reg exp room (S (S (length exp))) false) (cst exp 1 w) =
    reg_body (reg exp room (S (length exp)) true) false END q (cst exp 1 (grow (grow w [chr MAGIC]) []))) as Eq.
  { intros w q Hw. cstep (regc_ok exp room exp 1 w (chr MAGIC) Hw). by rewrite grow_nil. }
  destruct y as [[[r n'] rest]|].
  2: { intros z. rewrite (Eq _ None) by done. apply H2. }
  destruct H1 as (A1 & A2 & A3 & A4 & A5).
  assert (∀ w, fits w (program_size r) → ∃ f, SPSTART f = alts_spstart r ∧
    (_ ← regc room (chr MAGIC); reg exp room (S (S (length exp))) false) (cst exp 1 w) =
    match rest with [] => Ret (Some ((place (grow w [chr MAGIC]), f), cst [] n' (grow w (program_code r)))) | _ => Ret None end) as Hgo.
  { intros w Hw. unfold program_size in Hw. set (w1 := grow w [chr MAGIC]).
    assert (fits w1 (alts_size r + 3)) as Hw1 by (unfold w1; rewrite fits_grow; eapply fits_le; [exact Hw|cbn; lia]).
    destruct (H2 w1) as (f & K1 & K2 & E); [by eapply fits_le; [exact Hw1|cbn; lia]|]. exists f. split; [done|].
    rewrite (Eq w (place w1)) by (eapply fits_le; [exact Hw|lia]). fold w1. cbn [opened app] in E. rewrite E.
    pose proof (reg_close_sim false END f [] r rest n' w1 A1 ltac:(by left) ltac:(done) ltac:(done) A3 Hw1) as E2.
    cbn [app] in E2. rewrite E2. destruct rest; [|done]. unfold w1. by rewrite grow_app. }
  destruct rest as [|c rest].
  - split; [done|]. intros w Hw. destruct (Hgo w Hw) as (f & K & E). by exists (place (grow w [chr MAGIC])), f, n'.
  - intros z. destruct (Hgo (None, z) I) as (f & K & E). by rewrite E.
Qed.
End Simulation.

Lemma program_length r : length (program_code r) = program_size r.
Proof. unfold program_code, program_size. cbn [length]. rewrite length_app, alts_length, node_length. lia. Qed.

(** regcomp writes the program of the expression that the grammar finds; the
    bytes are as many as it has counted. *)
Lemma regcomp_code malloc_ok exp :
  NUL ∉ exp → ∃ x, parse (aid_grep exp) = Ret x ∧
  match x with
  | None => regcomp malloc_ok (Some exp) = Ret None
  | Some r => alts_ok r ∧ ∃ f, SPSTART f = alts_spstart r ∧ regcomp malloc_ok (Some exp) =
      if (32767 <=? Z.of_nat (program_size r))%Z || negb (malloc_ok (Z.of_nat (program_size r))) then Ret None
      else c ← optimise (program_code r) f; Ret (Some c)
  end.
Proof.
  intros HN0. assert (NUL ∉ aid_grep exp) as HN.
  { destruct exp as [|c1 [|c2 l]]; [done..|]. cbn. destruct (_ && _); [|done]. by apply not_elem_of_cons in HN0 as [_ [_ ?]%not_elem_of_cons]. }
  unfold regcomp. set (e := aid_grep exp) in *. cbv zeta.
  destruct (parse_total e 0 HN) as [x Ex]. exists x. split; [done|].
  assert (∀ z, CState 0 1 None z = cst e e 1 (None, z)) as E1 by (intros z; unfold cst, pos; by rewrite Nat.sub_diag).
  assert (∀ c z, CState 0 1 (Some c) z = cst e e 1 (Some c, z)) as E2 by (intros c z; unfold cst, pos; by rewrite Nat.sub_diag).
  pose proof (pass_sim e 0 HN x Ex) as P1. cbv zeta in P1. rewrite E1. destruct x as [r|]; [|by rewrite P1].
  destruct P1 as [Hr P1]. split; [done|]. destruct (P1 (None, 0%Z) I) as (p & f & n & Hf & Ep).
  rewrite Ep. cbn [mbind outcome_bind cst regsize fst snd grow]. rewrite program_length, Z.add_0_l.
  destruct (Z.leb_spec 32767 (Z.of_nat (program_size r))) as [Hbig|Hsmall].
  { exists f. split; [done|]. done. }
  destruct (malloc_ok (Z.of_nat (program_size r))); cbn [negb orb]; [|by exists f].
  pose proof (pass_sim e (Z.to_nat (Z.of_nat (program_size r)) + 1) HN (Some r) Ex) as [_ P2]. cbv zeta in P2.
  destruct (P2 (Some [], 0%Z)) as (p2 & f2 & n2 & Hf2 & Ep2).
  { unfold fits. cbn [fst length]. lia. }
  rewrite <-(E2 [] 0%Z) in Ep2. rewrite Ep2. cbn [mbind outcome_bind cst regcode fst grow app]. by exists f2.
Qed.
