(* ===== verification/RegexpExec.v ===== *)
(** * Regular expressions: the matcher is correct

    regmatch goes through the program of an expression with backtracking and
    finds a match if there is one.  Its fuel is enough for every path: an
    expression of [n] bytes takes at most [n] steps, and [n] more for each
    character of the string, since what is repeated is never empty. *)

From stdpp Require Import relations.
From S2P Require Import Prelude CLib Regexp RegexpSyntax RegexpCompile.

(** ** Fuel *)

Section Mono.
Context (prog : list ascii) (s : cstr).

Lemma star_loop_mono f g nextch save min no r :
  (∀ i r, f i = Ret r → g i = Ret r) → star_loop s f nextch save min no = Ret r → star_loop s g nextch save min no = Ret r.
Proof.
  intros H. revert r. induction no as [|no IH]; intros r; cbn [star_loop]; destruct (_ <? min); try done.
  all: destruct (_ || _); cbn [mbind outcome_bind]; [|try done; apply IH].
  all: intros (x & E & Hx)%bind_inv_Ret; rewrite (H _ _ E); cbn [mbind outcome_bind]; by destruct x; [|try done; apply IH].
Qed.
Lemma branch_loop_mono f g fuel : ∀ scan r,
  (∀ i r, f i = Ret r → g i = Ret r) → branch_loop prog f fuel scan = Ret r → branch_loop prog g fuel scan = Ret r.
Proof.
  induction fuel as [|fuel IH]; intros scan r H; cbn [branch_loop]; [done|].
  intros (x & E & Hx)%bind_inv_Ret. rewrite (H _ _ E). cbn [mbind outcome_bind]. destruct x; [done|].
  apply bind_inv_Ret in Hx as (nx & -> & Hx). cbn [mbind outcome_bind]. destruct nx; [|done].
  apply bind_inv_Ret in Hx as (op & -> & Hx). cbn [mbind outcome_bind]. destruct (_ =? _)%Z; [|done]. by apply IH.
Qed.
Lemma regmatch_mono : ∀ F F' p st r, regmatch prog s F p st = Ret r → F ≤ F' → regmatch prog s F' p st = Ret r.
Proof.
  induction F as [|F IH]; intros [|F'] p st r H Hle; [done|done|lia|]. cbn [regmatch] in *.
  apply bind_inv_Ret in H as (nx & -> & H). apply bind_inv_Ret in H as (op & -> & H). cbn [mbind outcome_bind].
  assert (∀ st r, match nx with None => Ret None | Some q => regmatch prog s F q st end = Ret r →
    match nx with None => Ret None | Some q => regmatch prog s F' q st end = Ret r) as Hc
    by (intros st' r'; destruct nx; [intros; eapply IH; [done|lia]|done]).
  destruct (op =? END)%Z; [done|]. destruct (_ && _).
  { apply bind_inv_Ret in H as (x & E & H). by rewrite (Hc _ _ E). }
  destruct (_ && _).
  { apply bind_inv_Ret in H as (x & E & H). by rewrite (Hc _ _ E). }
  destruct (op =? BRANCH)%Z.
  { destruct nx as [q|]; [|done]. apply bind_inv_Ret in H as (o & -> & H). cbn [mbind outcome_bind]. destruct (negb _).
    - eapply IH; [done|lia].
    - eapply branch_loop_mono; [|exact H]. intros i x E. eapply IH; [exact E|lia]. }
  destruct (_ || _).
  { destruct nx as [q|]; [|done]. apply bind_inv_Ret in H as (o & -> & H). cbn [mbind outcome_bind].
    apply bind_inv_Ret in H as (c & -> & H). apply bind_inv_Ret in H as (no & -> & H). cbn [mbind outcome_bind].
    eapply star_loop_mono; [|exact H]. intros i x E. eapply IH; [exact E|lia]. }
  apply bind_inv_Ret in H as (o & -> & H). cbn [mbind outcome_bind]. destruct o; [by apply Hc|done].
Qed.
End Mono.

(** ** Passing through a part of the program *)

Section Passes.
Context (prog : list ascii) (s : cstr).
Notation len := (length s).

Definition start (i : nat) : mstate := MState i (replicate NSUBEXP None) (replicate NSUBEXP None).
(** the result at a node and a place, with some fuel *)
Definition run (F p i : nat) (r : option mstate) : Prop := regmatch prog s F p (start i) = Ret r.
Definition fails (p i : nat) : Prop := ∃ F, run F p i None.
Definition succeeds (p i : nat) (st : mstate) : Prop := ∃ F, run F p i (Some st).

Lemma run_le F F' p i r : run F p i r → F ≤ F' → run F' p i r.
Proof. apply regmatch_mono. Qed.
Lemma run_fun F F' p i r r' : run F p i r → run F' p i r' → r = r'.
Proof.
  intros H H'. apply (run_le _ (F + F')) in H; [|lia]. apply (run_le _ (F + F')) in H'; [|lia].
  unfold run in *. congruence.
Qed.
Lemma run_fails F p i r : run F p i r → fails p i → r = None.
Proof. intros H [F' H']. by eapply run_fun. Qed.
Lemma run_succeeds F p i r st : run F p i r → succeeds p i st → r = Some st.
Proof. intros H [F' H']. by eapply run_fun. Qed.

(** the result of a part that matches [P] and goes on at [t]: a match goes on
    from a place that [P] leads to, there is none if it fails at all of them *)
Definition good (P : nat → nat → Prop) (i t : nat) (r : option mstate) : Prop :=
  match r with
  | None => ∀ j, P i j → fails t j
  | Some st => ∃ j st', P i j ∧ succeeds t j st' ∧ reginput st = reginput st'
  end.
(** From node [p] to node [t] the program matches [P], with [A] steps and [B]
    more for each character. *)
Definition passes (A B p : nat) (P : nat → nat → Prop) (t : nat) : Prop :=
  ∀ N W i, i ≤ len → B ≤ W → (∀ j, P i j → ∃ r, run (N + (S len - j) * W) t j r) →
  ∃ r, run (N + A + (S len - i) * W) p i r ∧ good P i t r.

(** places are in the string *)
Definition within (P : nat → nat → Prop) : Prop := ∀ i j, i ≤ len → P i j → i ≤ j ≤ len.

Lemma passes_weaken A B A' B' p P P' t :
  passes A B p P t → A ≤ A' → B ≤ B' → (∀ i j, i ≤ len → P i j ↔ P' i j) → passes A' B' p P' t.
Proof.
  intros H HA HB HP N W i Hi HW Hr. destruct (H N W i Hi) as (r & E & G); [lia|intros j Hj; by apply Hr, HP|].
  exists r. split; [eapply run_le; [exact E|lia]|]. destruct r as [st|]; cbn in *.
  - destruct G as (j & st' & Hj & ? & ?). exists j, st'. split; [by apply HP|done].
  - intros j Hj. by apply G, HP.
Qed.
Lemma passes_seq A B A' B' p q t P Q :
  within P → passes A B p P q → passes A' B' q Q t →
  passes (A + A') (B `max` B') p (λ i j, ∃ k, P i k ∧ Q k j) t.
Proof.
  intros HP H1 H2 N W i Hi HW Hr.
  assert (∀ k, P i k → ∃ r, run (N + A' + (S len - k) * W) q k r ∧ good Q k t r) as H.
  { intros k Hk. apply H2; [by apply (HP i)|lia|]. intros j Hj. apply Hr. eauto. }
  destruct (H1 (N + A') W i Hi) as (r & E & G); [lia| |].
  { intros k Hk. destruct (H k Hk) as (r & E & _). eauto. }
  exists r. split; [eapply run_le; [exact E|lia]|]. destruct r as [st|]; cbn in *.
  - destruct G as (k & st' & Hk & Hs & ->). destruct (H k Hk) as (r & E' & G'). rewrite (run_succeeds _ _ _ _ _ E' Hs) in G'.
    destruct G' as (j & st'' & Hj & ? & ?). exists j, st''. eauto.
  - intros j (k & Hk & Hj). destruct (H k Hk) as (r & E' & G'). rewrite (run_fails _ _ _ _ E' (G k Hk)) in G'. by apply G'.
Qed.

(** *** Nodes *)

Definition ordinary (op : Z) : bool :=
  negb (op =? END)%Z && negb ((OPEN <? op)%Z && (op <=? OPEN + 9)%Z) && negb ((CLOSE <? op)%Z && (op <=? CLOSE + 9)%Z)
  && negb (op =? BRANCH)%Z && negb ((op =? STAR)%Z || (op =? PLUS)%Z).

Lemma run_step F p q op i r :
  regnext prog p = Ret (Some q) → OP prog p = Ret op → ordinary op = true →
  run (S F) p i r ↔ ∃ o, step_node prog s op p i = Ret o ∧ match o with Some j => run F q j r | None => r = None end.
Proof.
  unfold ordinary. rewrite !andb_true_iff, !negb_true_iff. intros Hn Ho [[[[H1 H2] H3] H4] H5].
  unfold run. cbn [regmatch]. rewrite Hn, Ho. cbn [mbind outcome_bind]. rewrite H1, H2, H3, H4, H5. cbn [start reginput].
  destruct (step_node prog s op p i) as [o| |]; cbn [mbind outcome_bind]; [|by split; [|intros (? & ? & _)]..].
  split.
  - intros H. exists o. split; [done|]. destruct o; [done|]. by apply Ret_inj in H.
  - intros (o' & E & H). apply Ret_inj in E as <-. destruct o; [done|]. by subst.
Qed.
Lemma passes_step p q op P :
  regnext prog p = Ret (Some q) → OP prog p = Ret op → ordinary op = true → within P →
  (∀ i, i ≤ len → ∃ o, step_node prog s op p i = Ret o ∧ ∀ j, P i j ↔ o = Some j) → passes 1 0 p P q.
Proof.
  intros Hn Ho Hop Hw H N W i Hi _ Hr. destruct (H i Hi) as (o & Eo & HP). destruct o as [j|].
  - assert (P i j) as Hj by by apply HP. destruct (Hr j Hj) as (r & E). pose proof (Hw i j Hi Hj).
    exists r. split.
    + eapply (run_le (S (N + (S len - j) * W))); [|nia]. apply (run_step _ _ q op); [done..|]. by exists (Some j).
    + destruct r as [st|]; cbn; [exists j, st; split_and!; [done|by eexists|done]|].
      intros j' Hj'%HP. injection Hj' as <-. by eexists.
  - exists None. split; [|cbn; intros j Hj%HP; done].
    eapply (run_le (S (N + (S len - i) * W))); [|lia]. apply (run_step _ _ q op); [done..|]. by exists None.
Qed.

(** the nodes of a part in parentheses *)
Lemma passes_mark p q (f : nat → nat → mstate → mstate) :
  regnext prog p = Ret (Some q) → (∀ no i st, reginput (f no i st) = reginput st) →
  (∀ F i, ∃ no, regmatch prog s (S F) p (start i) = (r ← regmatch prog s F q (start i); Ret (option_map (f no i) r))) →
  passes 1 0 p eq q.
Proof.
  intros Hn Hf H N W i Hi _ Hr. destruct (Hr i eq_refl) as (r & E). destruct (H (N + (S len - i) * W) i) as (no & Eq).
  exists (option_map (f no i) r). split.
  - eapply (run_le (S (N + (S len - i) * W))); [|lia]. unfold run in *. by rewrite Eq, E.
  - destruct r as [st|]; cbn; [|intros j <-; by eexists]. exists i, st. split_and!; [done|by eexists|by rewrite Hf].
Qed.
Lemma passes_open p q no : 0 < no < NSUBEXP →
  regnext prog p = Ret (Some q) → OP prog p = Ret (OPEN + Z.of_nat no)%Z → passes 1 0 p eq q.
Proof.
  intros Hno Hn Ho. apply (passes_mark p q set_startp Hn); [done|]. intros F i. eexists. cbn [regmatch].
  rewrite Hn, Ho. cbn [mbind outcome_bind]. unfold OPEN, CLOSE, END, NSUBEXP in *.
  destruct (Z.eqb_spec (20 + Z.of_nat no) 0); [lia|]. destruct (Z.ltb_spec 20 (20 + Z.of_nat no)); [|lia].
  destruct (Z.leb_spec (20 + Z.of_nat no) (20 + 9)); [|lia]. reflexivity.
Qed.
Lemma passes_close p q no : 0 < no < NSUBEXP →
  regnext prog p = Ret (Some q) → OP prog p = Ret (CLOSE + Z.of_nat no)%Z → passes 1 0 p eq q.
Proof.
  intros Hno Hn Ho. apply (passes_mark p q set_endp Hn); [done|]. intros F i. eexists. cbn [regmatch].
  rewrite Hn, Ho. cbn [mbind outcome_bind]. unfold OPEN, CLOSE, END, NSUBEXP in *.
  destruct (Z.eqb_spec (30 + Z.of_nat no) 0); [lia|]. destruct (Z.leb_spec (30 + Z.of_nat no) (20 + 9)); [lia|]. rewrite andb_false_r.
  destruct (Z.ltb_spec 30 (30 + Z.of_nat no)); [|lia]. destruct (Z.leb_spec (30 + Z.of_nat no) (30 + 9)); [|lia]. reflexivity.
Qed.

(** *** Alternatives *)

Definition first_of (r1 r2 : option mstate) : option mstate := match r1 with Some _ => r1 | None => r2 end.
Lemma good_or P Q i t r1 r2 : good P i t r1 → good Q i t r2 → good (λ i j, P i j ∨ Q i j) i t (first_of r1 r2).
Proof.
  intros G1 G2. destruct r1 as [st|]; cbn in *; [destruct G1 as (j & st' & ? & ?); exists j, st'; auto|].
  destruct r2 as [st|]; cbn in *; [destruct G2 as (j & st' & ? & ?); exists j, st'; auto|].
  intros j [H|H]; auto.
Qed.

(** a BRANCH alone, and the nodes BRANCH of a list of alternatives *)
Definition is_branch (p : nat) : Prop := OP prog p = Ret BRANCH.
Definition not_branch (p : nat) : Prop := ∃ op, OP prog p = Ret op ∧ op ≠ BRANCH.

Lemma run_only F p q i r :
  regnext prog p = Ret (Some q) → is_branch p → not_branch q → run F (OPERAND p) i r → run (S F) p i r.
Proof.
  intros Hn Ho (op & Hq & Hop) H. unfold run. cbn [regmatch]. rewrite Hn, Ho. cbn [mbind outcome_bind].
  change (BRANCH =? END)%Z with false. change ((OPEN <? BRANCH)%Z && _) with false. change ((CLOSE <? BRANCH)%Z && _) with false.
  rewrite Z.eqb_refl, Hq. cbn [mbind outcome_bind]. by destruct (Z.eqb_spec op BRANCH).
Qed.
(** the tries from a BRANCH on *)
Definition tries (F fuel p i : nat) (r : option mstate) : Prop := branch_loop prog (λ q, regmatch prog s F q (start i)) fuel p = Ret r.
Lemma run_tries F p q i r :
  regnext prog p = Ret (Some q) → is_branch p → is_branch q → tries F (S (length prog)) p i r → run (S F) p i r.
Proof.
  intros Hn Ho Hq H. unfold run. cbn [regmatch]. rewrite Hn, Ho. cbn [mbind outcome_bind].
  change (BRANCH =? END)%Z with false. change ((OPEN <? BRANCH)%Z && _) with false. change ((CLOSE <? BRANCH)%Z && _) with false.
  rewrite Z.eqb_refl, Hq. cbn [mbind outcome_bind]. exact H.
Qed.
Lemma tries_last F fuel p q i r : regnext prog p = Ret (Some q) → not_branch q → run F (OPERAND p) i r → tries F (S fuel) p i r.
Proof.
  intros Hn (op & Hq & Hop) H. unfold tries. cbn [branch_loop]. unfold run in H. rewrite H. cbn [mbind outcome_bind].
  destruct r; [done|]. rewrite Hn. cbn [mbind outcome_bind]. rewrite Hq. cbn [mbind outcome_bind]. by destruct (Z.eqb_spec op BRANCH).
Qed.
Lemma tries_more F fuel p q i r1 r2 :
  regnext prog p = Ret (Some q) → is_branch q → run F (OPERAND p) i r1 → tries F fuel q i r2 →
  tries F (S fuel) p i (first_of r1 r2).
Proof.
  intros Hn Hq H1 H2. unfold tries. cbn [branch_loop]. unfold run in H1. rewrite H1. cbn [mbind outcome_bind].
  destruct r1; [done|]. rewrite Hn. cbn [mbind outcome_bind]. rewrite Hq. cbn [mbind outcome_bind]. by rewrite Z.eqb_refl.
Qed.
(** two alternatives *)
Lemma run_choice F p b q i r1 r2 :
  0 < length prog → regnext prog p = Ret (Some b) → is_branch p → is_branch b → regnext prog b = Ret (Some q) → not_branch q →
  run F (OPERAND p) i r1 → run F (OPERAND b) i r2 → run (S F) p i (first_of r1 r2).
Proof.
  intros Hp H1 H2 H3 H4 H5 R1 R2. apply (run_tries _ _ b); [done..|]. eapply tries_more; [done..|].
  destruct (length prog); [lia|]. by eapply tries_last.
Qed.
Lemma passes_choice A1 B1 A2 B2 p b q P1 P2 t :
  0 < length prog → regnext prog p = Ret (Some b) → is_branch p → is_branch b → regnext prog b = Ret (Some q) → not_branch q →
  passes A1 B1 (OPERAND p) P1 t → passes A2 B2 (OPERAND b) P2 t →
  passes (1 + A1 `max` A2) (B1 `max` B2) p (λ i j, P1 i j ∨ P2 i j) t.
Proof.
  intros Hl E1 E2 E3 E4 E5 H1 H2 N W i Hi HW Hr.
  destruct (H1 N W i Hi ltac:(lia)) as (r1 & R1 & G1); [auto|]. destruct (H2 N W i Hi ltac:(lia)) as (r2 & R2 & G2); [auto|].
  exists (first_of r1 r2). split; [|by apply good_or].
  eapply (run_le (S (N + A1 `max` A2 + (S len - i) * W))); [|lia].
  eapply run_choice; [done..|eapply run_le; [exact R1|lia]|eapply run_le; [exact R2|lia]].
Qed.

(** *** Loops *)

Definition width (P : nat → nat → Prop) : Prop := ∀ i j, i ≤ len → P i j → i < j ≤ len.
Lemma width_within P : width P → within P.
Proof. intros H i j Hi Hj. specialize (H i j Hi Hj). lia. Qed.
Lemma rtc_within P : width P → within (rtc P).
Proof. intros H i j Hi Hj. revert Hi. induction Hj as [|i k j Hk Hj IH]; intros Hi; [lia|]. specialize (H i k Hi Hk). lia. Qed.

(** the budget of a turn: whoever goes on at least one character later has
    [W] steps less to go *)
Lemma turn_budget N c Aa Ba W d e : Aa + Ba + c ≤ W → e < d → N + c + e * W ≤ (N + c + (d - 1) * (W - Ba)) + e * Ba ∧
  (N + c + (d - 1) * (W - Ba)) + Aa + d * Ba ≤ N + d * W.
Proof.
  intros HW He. destruct d as [|d]; [lia|]. replace (S d - 1) with d by lia. split.
  - assert (e * (W - Ba) ≤ d * (W - Ba)) by (apply Nat.mul_le_mono_r; lia).
    assert (e * (W - Ba) + e * Ba = e * W) by (rewrite <-Nat.mul_add_distr_l; f_equal; lia). lia.
  - assert (d * (W - Ba) + d * Ba = d * W) by (rewrite <-Nat.mul_add_distr_l; f_equal; lia). lia.
Qed.
(** the node that leads back *)
Lemma run_back F p q i r : regnext prog p = Ret (Some q) → OP prog p = Ret BACK → run F q i r → run (S F) p i r.
Proof. intros Hn Ho H. apply (run_step F p q BACK); [done..|]. by exists (Some i). Qed.
Lemma run_nothing F p q i r : regnext prog p = Ret (Some q) → OP prog p = Ret NOTHING → run F q i r → run (S F) p i r.
Proof. intros Hn Ho H. apply (run_step F p q NOTHING); [done..|]. by exists (Some i). Qed.
Lemma not_branch_op p op : OP prog p = Ret op → op ≠ BRANCH → not_branch p.
Proof. by exists op. Qed.

(** x*: BRANCH x BACK BRANCH NOTHING *)
Lemma passes_star Aa Ba p back b q t P :
  0 < length prog → width P →
  is_branch p → regnext prog p = Ret (Some b) → passes Aa Ba (OPERAND p) P back →
  OP prog back = Ret BACK → regnext prog back = Ret (Some p) →
  is_branch b → regnext prog b = Ret (Some q) → OPERAND b = q → OP prog q = Ret NOTHING → regnext prog q = Ret (Some t) →
  passes 3 (Aa + Ba + 4) p (rtc P) t.
Proof.
  intros Hl HP Hp Hpn Ha Hb Hbn Hb2 Hb2n Hq Hqo Hqn N W i Hi HW.
  remember (len - i) as m eqn:Hm. revert i Hi Hm. induction m as [m IH] using lt_wf_ind. intros i Hi Hm Hr.
  set (d := S len - i). set (N' := N + 4 + (d - 1) * (W - Ba)).
  assert (∀ j, P i j → ∃ r, run (N + 4 + (S len - j) * W) back j r ∧ good (rtc P) j t r) as Hback.
  { intros j Hj. pose proof (HP i j Hi Hj). destruct (IH (len - j)) with (i := j) as (r & E & G); [lia..| |].
    { intros k Hk. apply Hr. by econstructor. }
    exists r. split; [|done]. eapply run_le; [by eapply run_back|lia]. }
  destruct (Ha N' Ba i Hi ltac:(lia)) as (r1 & E1 & G1).
  { intros j Hj. destruct (Hback j Hj) as (r & E & _). exists r. eapply run_le; [exact E|].
    pose proof (HP i j Hi Hj). destruct (turn_budget N 4 Aa Ba W d (S len - j)) as [Hle _]; [lia|lia|exact Hle]. }
  destruct (Hr i) as (r2 & E2); [done|].
  exists (first_of r1 r2). split.
  - destruct (turn_budget N 4 Aa Ba W d 0) as [_ Hle]; [lia|lia|]. fold d.
    eapply (run_le (S (N + 2 + d * W))); [|lia]. eapply run_choice; [done..|by eapply not_branch_op| |].
    + eapply run_le; [exact E1|]. fold d. unfold N'. lia.
    + rewrite Hq. eapply run_le; [by eapply run_nothing|]. fold d. lia.
  - destruct r1 as [st|]; cbn in *.
    + destruct G1 as (j & st' & Hj & Hs & ->). destruct (Hback j Hj) as (r & E & G). rewrite (run_succeeds _ _ _ _ _ E Hs) in G.
      destruct G as (k & st'' & Hk & ? & ?). exists k, st''. split_and!; [by econstructor|done..].
    + destruct r2 as [st|]; cbn in *.
      * exists i, st. split_and!; [done|by eexists|done].
      * intros k Hk. inversion Hk as [|? j ? Hj Hk']; subst; [by eexists|].
        destruct (Hback j Hj) as (r & E & G). rewrite (run_fails _ _ _ _ E (G1 j Hj)) in G. by apply G.
Qed.

(** x+: x BRANCH BACK BRANCH NOTHING *)
Lemma passes_plus Aa Ba p c back b q t P :
  0 < length prog → width P →
  passes Aa Ba p P c → is_branch c → regnext prog c = Ret (Some b) → OPERAND c = back →
  OP prog back = Ret BACK → regnext prog back = Ret (Some p) →
  is_branch b → regnext prog b = Ret (Some q) → OPERAND b = q → OP prog q = Ret NOTHING → regnext prog q = Ret (Some t) →
  passes 0 (Aa + Ba + 2) p (tc P) t.
Proof.
  intros Hl HP Ha Hc Hcn Hco Hb Hbn Hb2 Hb2n Hq Hqo Hqn N W i Hi HW.
  remember (len - i) as m eqn:Hm. revert i Hi Hm. induction m as [m IH] using lt_wf_ind. intros i Hi Hm Hr.
  set (d := S len - i). set (N' := N + 2 + (d - 1) * (W - Ba)).
  assert (∀ j, P i j → ∃ r, run (N + 2 + (S len - j) * W) c j r ∧ good (rtc P) j t r) as Hturn.
  { intros j Hj. pose proof (HP i j Hi Hj). destruct (IH (len - j)) with (i := j) as (r1 & E1 & G1); [lia..| |].
    { intros k Hk. apply Hr. by eapply tc_l. }
    destruct (Hr j) as (r2 & E2); [by apply tc_once|]. exists (first_of r1 r2). split.
    - eapply (run_le (S (N + 1 + (S len - j) * W))); [|lia]. eapply run_choice; [done..|by eapply not_branch_op| |].
      + rewrite Hco. eapply run_le; [by eapply run_back|lia].
      + rewrite Hq. eapply run_le; [by eapply run_nothing|lia].
    - destruct r1 as [st|]; cbn in *.
      + destruct G1 as (k & st' & Hk & ? & ?). exists k, st'. split_and!; [by apply tc_rtc|done..].
      + destruct r2 as [st|]; cbn.
        * exists j, st. split_and!; [done|by eexists|done].
        * intros k Hk. apply rtc_tc in Hk as [<-|Hk]; [by eexists|by apply G1]. }
  destruct (Ha N' Ba i Hi ltac:(lia)) as (r & E & G).
  { intros j Hj. destruct (Hturn j Hj) as (r & E & _). exists r. eapply run_le; [exact E|].
    pose proof (HP i j Hi Hj). destruct (turn_budget N 2 Aa Ba W d (S len - j)) as [Hle _]; [lia|lia|exact Hle]. }
  exists r. split.
  - destruct (turn_budget N 2 Aa Ba W d 0) as [_ Hle]; [lia|lia|]. eapply run_le; [exact E|]. fold d. unfold N'. lia.
  - destruct r as [st|]; cbn in *.
    + destruct G as (j & st' & Hj & Hs & ->). destruct (Hturn j Hj) as (r & E' & G'). rewrite (run_succeeds _ _ _ _ _ E' Hs) in G'.
      destruct G' as (k & st'' & Hk & ? & ?). exists k, st''. split_and!; [by eapply tc_rtc_r, Hk; apply tc_once|done..].
    + intros k Hk. assert (∃ j, P i j ∧ rtc P j k) as (j & Hj & Hk').
      { destruct Hk as [? ? ?|? j ? ? Hk]; eexists; (split; [done|]); [done|by apply tc_rtc]. }
      destruct (Hturn j Hj) as (r & E' & G'). rewrite (run_fails _ _ _ _ E' (G j Hj)) in G'. by apply G'.
Qed.

(** *** Repeating one character *)

(** a node to go on at: it is inside of the program *)
Definition target_ok (t : nat) : Prop := t + 3 ≤ length prog ∧ (t + 4 ≤ length prog ∨ OP prog t = Ret END).
Lemma target_op t : target_ok t → ∃ op, OP prog t = Ret op.
Proof.
  intros [H _]. unfold OP, rd. destruct (lookup_lt_is_Some_2 prog t) as [c ->]; [lia|]. by eexists.
Qed.
Lemma cstr_of_hd b o : cstr_of b = Ret o → b !! 0 = Some (hd NUL o).
Proof.
  destruct b as [|c b]; [done|]. cbn [cstr_of]. destruct (c =c NUL) eqn:E.
  - apply char_eqb_eq in E as ->. intros H%Ret_inj. by subst.
  - intros (o' & _ & H%Ret_inj)%bind_inv_Ret. by subst.
Qed.

(** no match begins with another character than the string of an EXACTLY node *)
Lemma run_lookahead F t j r c :
  OP prog t = Ret EXACTLY → rd prog (OPERAND t) = Ret c → c ≠ NUL → input s j ≠ c → run F t j r → r = None.
Proof.
  intros Ho Hc Hne Hj. destruct F as [|F]; [done|]. unfold run. cbn [regmatch]. rewrite Ho.
  destruct (regnext prog t) as [nx| |]; [|done..]. cbn [mbind outcome_bind].
  change (EXACTLY =? END)%Z with false. change ((OPEN <? EXACTLY)%Z && _) with false. change ((CLOSE <? EXACTLY)%Z && _) with false.
  change (EXACTLY =? BRANCH)%Z with false. change ((EXACTLY =? STAR)%Z || _) with false.
  change (step_node prog s EXACTLY t (reginput (start j))) with
    (opnd ← string_at prog (OPERAND t);
     if negb (hd NUL opnd =c input s j) then Ret None
     else if (1 <? length opnd) && negb (strncmp opnd (drop j s) (length opnd) =? 0)%Z then Ret None
     else Ret (Some (j + length opnd))).
  destruct (string_at prog (OPERAND t)) as [o| |] eqn:Es; [|done..]. unfold string_at in Es. apply cstr_of_hd in Es.
  rewrite lookup_drop, Nat.add_0_r in Es. unfold rd in Hc. rewrite Es in Hc. injection Hc as Hc. cbn [mbind outcome_bind]. rewrite Hc.
  destruct (c =c input s j) eqn:E; [by apply char_eqb_eq in E|]. cbn. congruence.
Qed.

Lemma star_loop_run F t nextch i min : ∀ no,
  (∀ n, min ≤ n ≤ no → ∃ r, run F t (i + n) r) →
  (∀ j r, nextch ≠ NUL → input s j ≠ nextch → run F t j r → r = None) →
  ∃ r, star_loop s (λ j, regmatch prog s F t (at_input j (start i))) nextch i min no = Ret r ∧
    match r with
    | None => ∀ n, min ≤ n ≤ no → fails t (i + n)
    | Some st => ∃ n, min ≤ n ≤ no ∧ succeeds t (i + n) st
    end.
Proof.
  induction no as [|no IH]; intros Hr Hl; cbn [star_loop].
  - destruct (Nat.ltb_spec 0 min) as [Hm|Hm]; [exists None; split; [done|lia]|]. destruct (Hr 0) as (r & E); [lia|].
    destruct ((nextch =c NUL) || (input s (i + 0) =c nextch)) eqn:El; cbn [mbind outcome_bind].
    + change (at_input (i + 0) (start i)) with (start (i + 0)). unfold run in E. rewrite E. cbn [mbind outcome_bind].
      exists r. split; [by destruct r|]. destruct r; [exists 0; split; [lia|by exists F]|]. intros n Hn. replace n with 0 by lia. by exists F.
    + exists None. split; [done|]. intros n Hn. replace n with 0 by lia. apply orb_false_iff in El as [E1%char_eqb_neq E2%char_eqb_neq].
      rewrite (Hl _ _ E1 E2 E) in E. by exists F.
  - destruct (Nat.ltb_spec (S no) min) as [Hm|Hm]; [exists None; split; [done|lia]|]. destruct (Hr (S no)) as (r & E); [lia|].
    destruct IH as (r' & E' & G'); [intros n Hn; apply Hr; lia|done|].
    assert (r = None → match r' with None => ∀ n, min ≤ n ≤ S no → fails t (i + n) | Some st => ∃ n, min ≤ n ≤ S no ∧ succeeds t (i + n) st end) as Hnone.
    { intros ->. destruct r' as [st|]; [destruct G' as (n & ? & ?); exists n; split; [lia|done]|].
      intros n Hn. destruct (decide (n = S no)) as [->|]; [by exists F|]. apply G'. lia. }
    destruct ((nextch =c NUL) || (input s (i + S no) =c nextch)) eqn:El; cbn [mbind outcome_bind].
    + change (at_input (i + S no) (start i)) with (start (i + S no)). unfold run in E. rewrite E. cbn [mbind outcome_bind].
      destruct r as [st|]; [exists (Some st); split; [done|]; exists (S no); split; [lia|by exists F]|]. exists r'. split; [done|by apply Hnone].
    + exists r'. split; [done|]. apply Hnone. apply orb_false_iff in El as [E1%char_eqb_neq E2%char_eqb_neq]. by apply (Hl _ _ E1 E2 E).
Qed.

(** STAR and PLUS: how often the operand is matched, and then less *)
Lemma passes_repeat p t op (min : nat) (count : nat → nat) :
  OP prog p = Ret op → (op = STAR ∧ min = 0 ∨ op = PLUS ∧ min = 1) → regnext prog p = Ret (Some t) → target_ok t →
  (∀ i, i ≤ len → regrepeat prog s (OPERAND p) i = Ret (count i)) → (∀ i, i ≤ len → i + count i ≤ len) →
  passes 1 0 p (λ i j, ∃ n, min ≤ n ≤ count i ∧ j = i + n) t.
Proof.
  intros Ho Hop Hn Ht Hc Hlen N W i Hi _ Hr. destruct (target_op t Ht) as [nop Hnop]. set (F := N + (S len - i) * W).
  set (k := if (nop =? EXACTLY)%Z then rd prog (OPERAND t) else Ret NUL).
  assert (∃ nextch, k = Ret nextch ∧ ∀ j r, nextch ≠ NUL → input s j ≠ nextch → run F t j r → r = None) as (nextch & Ek & Hnext).
  { unfold k. destruct (Z.eqb_spec nop EXACTLY) as [->|]; [|by exists NUL]. unfold rd, OPERAND.
    destruct Ht as [_ [Ht|Ht]]; [|rewrite Hnop in Ht; done]. destruct (lookup_lt_is_Some_2 prog (t + 3)) as [c Ec]; [lia|].
    exists c. rewrite Ec. split; [done|]. intros j r H1 H2. apply (run_lookahead F t j r c Hnop); [|done..]. unfold rd, OPERAND. by rewrite Ec. }
  destruct (star_loop_run F t nextch i min (count i)) as (r & E & G); [|done|].
  { intros n Hle. destruct (Hr (i + n)) as (r & E); [by exists n|]. exists r. eapply run_le; [exact E|]. unfold F.
    specialize (Hlen i Hi). assert ((S len - (i + n)) * W ≤ (S len - i) * W) by (apply Nat.mul_le_mono_r; lia). lia. }
  exists r. split.
  - eapply (run_le (S F)); [|unfold F; lia]. unfold run. cbn [regmatch]. rewrite Hn, Ho. cbn [mbind outcome_bind].
    assert ((op =? END)%Z = false ∧ (OPEN <? op)%Z && (op <=? OPEN + 9)%Z = false ∧ (CLOSE <? op)%Z && (op <=? CLOSE + 9)%Z = false ∧
      (op =? BRANCH)%Z = false ∧ (op =? STAR)%Z || (op =? PLUS)%Z = true ∧ (if (op =? STAR)%Z then 0 else 1) = min) as (-> & -> & -> & -> & -> & ->)
      by (by destruct Hop as [[-> ->]|[-> ->]]).
    rewrite Hnop. cbn [mbind outcome_bind]. fold k. rewrite Ek. cbn [mbind outcome_bind start reginput]. rewrite Hc by done. cbn [mbind outcome_bind].
    exact E.
  - destruct r as [st|]; cbn.
    + destruct G as (n & Hle & Hs). exists (i + n), st. split_and!; [by exists n|done|done].
    + intros j (n & Hle & ->). by apply G.
Qed.

(** ** Places of matches *)

Lemma tc_width P : width P → width (tc P).
Proof.
  intros H i j Hi Hj. revert Hi. induction Hj as [i j Hj|i k j Hk Hj IH]; intros Hi; [by apply H|].
  specialize (H i k Hi Hk). specialize (IH ltac:(lia)). lia.
Qed.
Lemma places :
  (∀ a, atom_ok a → within (atom_matches s a) ∧ (atom_width a = true → width (atom_matches s a))) ∧
  (∀ p, piece_ok p → within (piece_matches s p) ∧ (piece_width p = true → width (piece_matches s p))) ∧
  (∀ b, branch_ok b → within (branch_matches s b) ∧ (branch_width b = true → width (branch_matches s b))) ∧
  (∀ r, alts_ok r → within (alts_matches s r) ∧ (alts_width r = true → width (alts_matches s r))).
Proof.
  apply syntax_mind.
  - split; [|done]. intros i j Hi. cbn. lia.
  - split; [|done]. intros i j Hi. cbn. lia.
  - split; [|done]. intros i j Hi (_ & _ & ->). lia.
  - split; [|done]. intros i j Hi (_ & ->). lia.
  - intros _. assert (width (atom_matches s Any)) as H by (intros i j Hi; cbn; lia). split; [by apply width_within|done].
  - intros cp set _. assert (width (atom_matches s (Class cp set))) as H.
    { intros i j Hi (c & Hc & _ & ->). apply lookup_lt_Some in Hc. lia. } split; [by apply width_within|done].
  - intros t [Ht _]. assert (width (atom_matches s (Exact t))) as H.
    { intros i j Hi ([k Hk] & ->). apply (f_equal length) in Hk. rewrite length_drop, length_app in Hk. destruct t; [done|]. cbn in *. lia. }
    split; [by apply width_within|done].
  - intros no r IH [_ Hr]. by apply IH.
  - intros a IH Ha. by apply IH.
  - intros a IH m [Ha Hm]. destruct (IH Ha) as [H1 H2]. destruct m; cbn [piece_matches piece_width] in *.
    + split; [|done]. by apply rtc_within, H2, Hm.
    + assert (width (tc (atom_matches s a))) as H by by apply tc_width, H2, Hm. split; [by apply width_within|done].
    + split; [|done]. intros i j Hi [->|H]; [lia|by apply H1].
  - split; [|done]. intros i j Hi <-. lia.
  - intros p IH Hp. by apply IH.
  - intros p IHp b IHb [Hp Hb]. destruct (IHp Hp) as [P1 P2], (IHb Hb) as [B1 B2]. cbn [branch_matches branch_width]. split.
    + intros i j Hi (k & Hk & Hj). specialize (P1 i k Hi Hk). specialize (B1 k j ltac:(lia) Hj). lia.
    + intros H i j Hi (k & Hk & Hj). pose proof (P1 i k Hi Hk) as Hik. pose proof (B1 k j ltac:(lia) Hj).
      apply orb_true_iff in H as [H|H]; [specialize (P2 H i k Hi Hk)|specialize (B2 H k j ltac:(lia) Hj)]; lia.
  - intros b IH Hb. by apply IH.
  - intros b IHb r IHr [Hb Hr]. destruct (IHb Hb) as [B1 B2], (IHr Hr) as [R1 R2]. cbn [alts_matches alts_width]. split.
    + intros i j Hi [H|H]; auto.
    + intros [H1 H2]%andb_true_iff i j Hi [H|H]; [by apply B2|by apply R2].
Qed.

(** ** One character *)

Context (no_NUL : NUL ∉ s).

Lemma input_at i : i ≤ len → match s !! i with Some c => input s i = c ∧ c ≠ NUL ∧ i < len | None => input s i = NUL ∧ i = len end.
Proof.
  intros Hi. unfold input. destruct (s !! i) as [c|] eqn:E; cbn.
  - split; [done|]. split; [|by apply lookup_lt_Some in E]. intros ->. apply no_NUL. by eapply list_elem_of_lookup_2.
  - apply lookup_ge_None in E. split; [done|lia].
Qed.

Definition one_char (a : atom) (c : ascii) : bool :=
  match a with
  | Any => any_char c
  | Class complement set => if complement then not_in_set set c else in_set set c
  | Exact t => c =c hd NUL t
  | _ => false
  end.
Lemma simple_matches a i j : atom_ok a → simple a = true → i ≤ len →
  atom_matches s a i j ↔ ∃ c, s !! i = Some c ∧ one_char a c = true ∧ j = S i.
Proof.
  intros Ha Hs Hi. pose proof (input_at i Hi) as Hin. destruct a as [| | | | |cp set|t|no r]; try done; cbn [atom_matches one_char].
  - unfold any_char. split.
    + intros [Hlt ->]. destruct (s !! i) as [c|]; [|lia]. destruct Hin as (_ & Hc & _). exists c. split_and!; [done| |done]. by apply negb_true_iff, char_eqb_neq.
    + intros (c & Hc & _ & ->). rewrite Hc in Hin. lia.
  - assert (∀ c, s !! i = Some c → (if cp then c ∉ set else c ∈ set) ↔ (if cp then not_in_set set c else in_set set c) = true) as H.
    { intros c Hc. rewrite Hc in Hin. destruct Hin as (_ & HcN & _). assert ((c =c NUL) = false) as E by (by apply char_eqb_neq). unfold not_in_set, in_set. rewrite E.
      cbn [negb andb]. destruct cp; [by rewrite negb_true_iff, bool_decide_eq_false|by rewrite bool_decide_eq_true]. }
    split; intros (c & Hc & Hx & ->); exists c; split_and!; auto; by apply H.
  - destruct t as [|c [|? ?]]; try done. cbn [hd length]. split.
    + intros ([k Hk] & ->). exists c. rewrite <-(Nat.add_0_r i), <-lookup_drop, Hk. split_and!; [done|by apply char_eqb_eq|lia].
    + intros (c' & Hc & ->%char_eqb_eq & ->). split; [|lia]. exists (drop (S i) s). by apply drop_S.
Qed.

(** the length of the longest repetition *)
Definition most (a : atom) (i : nat) : nat := length (takewhile (one_char a) (drop i s)).
Lemma most_le a i : i ≤ len → i + most a i ≤ len.
Proof.
  intros Hi. unfold most. pose proof (takewhile_dropwhile (one_char a) (drop i s)) as H. apply (f_equal length) in H.
  rewrite length_app, length_drop in H. lia.
Qed.
Lemma most_step a i c : s !! i = Some c → most a i = if one_char a c then S (most a (S i)) else 0.
Proof. intros H. unfold most. rewrite (drop_S _ _ _ H). cbn [takewhile]. by destruct (one_char a c). Qed.
Lemma repeated_simple a : atom_ok a → simple a = true → ∀ n i j, i ≤ len → len - i = n →
  rtc (atom_matches s a) i j ↔ ∃ k, k ≤ most a i ∧ j = i + k.
Proof.
  intros Ha Hs n. induction n as [|n IH]; intros i j Hi Hn.
  - split.
    + intros H. inversion H as [|? k ? Hk _]; subst; [exists 0; lia|]. apply simple_matches in Hk as (c & Hc & _); [|done..].
      apply lookup_lt_Some in Hc. lia.
    + intros (k & Hk & ->). pose proof (most_le a i Hi). replace (i + k) with i by lia. done.
  - destruct (lookup_lt_is_Some_2 s i) as [c Hc]; [lia|]. rewrite (most_step a i c Hc). split.
    + intros H. inversion H as [|? k ? Hk Hkj]; subst; [exists 0; lia|].
      apply simple_matches in Hk as (c' & Hc' & Hx & ->); [|done..]. rewrite Hc in Hc'. injection Hc' as <-. rewrite Hx.
      apply IH in Hkj as (k' & Hk' & ->); [|lia..]. exists (S k'). lia.
    + intros (k & Hk & ->). destruct k as [|k]; [by rewrite Nat.add_0_r|]. destruct (one_char a c) eqn:Hx; [|lia].
      eapply rtc_l; [apply simple_matches; [done..|]; by exists c|]. apply IH; [lia|lia|]. exists k. lia.
Qed.
Lemma repeated_simple_plus a i j : atom_ok a → simple a = true → i ≤ len →
  tc (atom_matches s a) i j ↔ ∃ k, 1 ≤ k ≤ most a i ∧ j = i + k.
Proof.
  intros Ha Hs Hi. assert (width (atom_matches s a)) as Hw by (apply places; [done|by destruct a]). split.
  - intros H. pose proof (tc_width _ Hw i j Hi H). apply tc_rtc in H. apply (repeated_simple a Ha Hs _ i j Hi eq_refl) in H as (k & Hk & ->).
    exists k. lia.
  - intros (k & Hk & ->). assert (rtc (atom_matches s a) i (i + k)) as H by (apply (repeated_simple a Ha Hs _ _ _ Hi eq_refl); exists k; lia).
    apply rtc_tc in H as [E|H]; [lia|done].
Qed.

(** ** Reading the program *)

Context (small : (Z.of_nat (length prog) < 65536)%Z).

Definition code_at (p : nat) (c : list ascii) : Prop := ∃ pre post, prog = pre ++ c ++ post ∧ length pre = p.
Lemma code_at_app p a b : code_at p (a ++ b) → code_at p a ∧ code_at (p + length a) b.
Proof.
  intros (pre & post & E & <-). split.
  - exists pre, (b ++ post). by rewrite E, <-app_assoc.
  - exists (pre ++ a), post. by rewrite E, length_app, <-!app_assoc.
Qed.
Lemma code_at_le p c : code_at p c → p + length c ≤ length prog.
Proof. intros (pre & post & E & <-). rewrite E, !length_app. lia. Qed.
Lemma code_at_op p op d : code_at p (node op d) → is_op op → OP prog p = Ret op.
Proof. intros (pre & post & E & <-) Hop. rewrite E. by apply OP_node. Qed.
Lemma code_at_next p op d :
  code_at p (node op d) → is_op op → op ≠ BACK → 0 < d → p + d ≤ length prog → regnext prog p = Ret (Some (p + d)).
Proof. intros (pre & post & E & <-) Hop Hb Hd Hle. rewrite E. apply regnext_node; [done..|lia]. Qed.
Lemma code_at_back p d : code_at p (node BACK d) → 0 < d ≤ p → regnext prog p = Ret (Some (p - d)).
Proof.
  intros (pre & post & E & <-) Hd. unfold regnext. rewrite E, NEXT_node.
  - cbn [mbind outcome_bind]. destruct (Z.eqb_spec (Z.of_nat d) 0); [lia|]. rewrite OP_node by done. cbn [mbind outcome_bind].
    rewrite Z.eqb_refl. destruct (Z.ltb_spec (Z.of_nat (length pre) - Z.of_nat d) 0); [lia|]. do 2 f_equal. lia.
  - rewrite E, !length_app in small. lia.
Qed.
Lemma cstr_of_app t post : NUL ∉ t → cstr_of (t ++ NUL :: post) = Ret t.
Proof.
  induction t as [|c t IH]; intros Ht; cbn [app cstr_of]; [done|]. apply not_elem_of_cons in Ht as [Hc Ht].
  rewrite (proj2 (char_eqb_neq c NUL)) by congruence. by rewrite IH.
Qed.
Lemma code_at_string p t : code_at p (t ++ [NUL]) → NUL ∉ t → string_at prog p = Ret t.
Proof.
  intros (pre & post & E & <-) Ht. unfold string_at. rewrite E, drop_app_length, <-app_assoc. by apply cstr_of_app.
Qed.

Lemma takewhile_ext {A} (f g : A → bool) l : (∀ x, x ∈ l → f x = g x) → takewhile f l = takewhile g l.
Proof.
  induction l as [|x l IH]; intros H; cbn; [done|]. rewrite (H x) by by left. destruct (g x); [|done]. f_equal. apply IH.
  intros y Hy. apply H. by right.
Qed.
Lemma takewhile_whole {A} (f : A → bool) l : (∀ x, x ∈ l → f x = true) → takewhile f l = l.
Proof. induction l as [|x l IH]; intros H; cbn; [done|]. rewrite (H x) by by left. f_equal. apply IH. intros y Hy. apply H. by right. Qed.
Lemma regrepeat_simple a p i :
  code_at p (atom_code a None) → atom_ok a → simple a = true → i ≤ len → regrepeat prog s p i = Ret (most a i).
Proof.
  intros Hc Ha Hs Hi. unfold regrepeat, most. assert (NUL ∉ drop i s) as Hn.
  { intros H. apply no_NUL. rewrite <-(take_drop i s). apply elem_of_app. by right. }
  destruct a as [| | | | |cp set|t|no r]; try done; cbn [atom_code dist one_char] in *.
  - rewrite (code_at_op p ANY 0 Hc) by done. cbn [mbind outcome_bind]. change (ANY =? ANY)%Z with true. f_equal.
    rewrite takewhile_whole, length_drop; [done|]. intros c Hin. apply negb_true_iff, char_eqb_neq. by intros ->.
  - apply code_at_app in Hc as [H1 H2]. rewrite node_length in H2.
    rewrite (code_at_op _ _ _ H1) by by destruct cp. cbn [mbind outcome_bind]. unfold OPERAND.
    destruct cp; [change (ANYBUT =? ANY)%Z with false; change (ANYBUT =? EXACTLY)%Z with false;
      change (ANYBUT =? ANYOF)%Z with false; change (ANYBUT =? ANYBUT)%Z with true
      |change (ANYOF =? ANY)%Z with false; change (ANYOF =? EXACTLY)%Z with false; change (ANYOF =? ANYOF)%Z with true];
      by rewrite (code_at_string _ _ H2) by done.
  - destruct Ha as [_ Ha]. apply code_at_app in Hc as [H1 H2]. rewrite node_length in H2.
    rewrite (code_at_op _ _ _ H1) by done. cbn [mbind outcome_bind]. unfold OPERAND. change (EXACTLY =? ANY)%Z with false.
    change (EXACTLY =? EXACTLY)%Z with true. by rewrite (code_at_string _ _ H2) by done.
Qed.

(** ** Atoms *)

Definition target (p n k : nat) : Prop := target_ok (p + n + k).
(** a node that leads on *)
Lemma at_node p op d rest :
  code_at p (node op d ++ rest) → is_op op → OP prog p = Ret op ∧ code_at (p + 3) rest ∧
  (op ≠ BACK → 0 < d → p + d ≤ length prog → regnext prog p = Ret (Some (p + d))).
Proof.
  intros H Hop. apply code_at_app in H as [H1 H2]. rewrite node_length in H2. split_and!; [by eapply code_at_op|done|].
  intros. by eapply code_at_next.
Qed.
Lemma prefix_strncmp t l : (strncmp t l (length t) =? 0)%Z = true ↔ t `prefix_of` l.
Proof.
  rewrite Z.eqb_eq. unfold strncmp. rewrite strcmp_eq, firstn_all. split.
  - intros E. exists (drop (length t) l). by rewrite E at 1; rewrite take_drop.
  - intros [k ->]. by rewrite take_app_length.
Qed.
Lemma step_exact p t i :
  string_at prog (OPERAND p) = Ret t → t ≠ [] → NUL ∉ t → i ≤ len →
  ∃ o, step_node prog s EXACTLY p i = Ret o ∧ ∀ j, atom_matches s (Exact t) i j ↔ o = Some j.
Proof.
  intros Es Ht HtN Hi. pose proof (input_at i Hi) as Hin. unfold step_node.
  change (EXACTLY =? BOL)%Z with false. change (EXACTLY =? EOL)%Z with false. change (EXACTLY =? WORDA)%Z with false.
  change (EXACTLY =? WORDZ)%Z with false. change (EXACTLY =? ANY)%Z with false. change (EXACTLY =? EXACTLY)%Z with true.
  rewrite Es. cbn [mbind outcome_bind].
  assert (t `prefix_of` drop i s ↔ negb (hd NUL t =c input s i) = false ∧
    (1 <? length t) && negb (strncmp t (drop i s) (length t) =? 0)%Z = false) as Hp.
  { destruct t as [|c t]; [done|]. cbn [hd]. rewrite negb_false_iff, char_eqb_eq. apply not_elem_of_cons in HtN as [HcN _]. split.
    - intros Hpre. pose proof Hpre as Hpre'. apply prefix_strncmp in Hpre' as ->. rewrite andb_false_r. split; [|done].
      destruct Hpre as [k Hk]. unfold input. rewrite <-(Nat.add_0_r i), <-lookup_drop, Hk. done.
    - intros [Hc Hn]. destruct (s !! i) as [x|] eqn:Ex; [|destruct Hin as [Hin _]; congruence]. destruct Hin as (Hin & _ & Hlt).
      destruct t as [|c' t].
      + rewrite (drop_S _ _ _ Ex). exists (drop (S i) s). cbn. congruence.
      + apply prefix_strncmp. cbn [length] in *. change (1 <? S (S (length t))) with true in Hn. cbn [andb] in Hn.
        by apply negb_false_iff in Hn. }
  cbn [atom_matches]. destruct (negb (hd NUL t =c input s i)).
  { exists None. split; [done|]. intros j. rewrite Hp. split; [intros [[? _] _]|]; done. }
  destruct ((1 <? length t) && _).
  { exists None. split; [done|]. intros j. rewrite Hp. split; [intros [[_ ?] _]|]; done. }
  exists (Some (i + length t)). split; [done|]. intros j. split; [intros [_ ->]; done|intros [= <-]]. by split; [apply Hp|].
Qed.

(** whether a node that tests one character or none matches *)
Lemma step_class p (cp : bool) set i :
  string_at prog (OPERAND p) = Ret set → i ≤ len →
  ∃ o, step_node prog s (if cp then ANYBUT else ANYOF) p i = Ret o ∧ ∀ j, atom_matches s (Class cp set) i j ↔ o = Some j.
Proof.
  intros Es Hi. pose proof (input_at i Hi) as Hin. exists (if one_char (Class cp set) (input s i) then Some (S i) else None). split.
  - destruct cp; cbn [one_char]; unfold step_node.
    + change (ANYBUT =? BOL)%Z with false. change (ANYBUT =? EOL)%Z with false. change (ANYBUT =? WORDA)%Z with false.
      change (ANYBUT =? WORDZ)%Z with false. change (ANYBUT =? ANY)%Z with false. change (ANYBUT =? EXACTLY)%Z with false.
      change (ANYBUT =? ANYOF)%Z with false. change (ANYBUT =? ANYBUT)%Z with true. by rewrite Es.
    + change (ANYOF =? BOL)%Z with false. change (ANYOF =? EOL)%Z with false. change (ANYOF =? WORDA)%Z with false.
      change (ANYOF =? WORDZ)%Z with false. change (ANYOF =? ANY)%Z with false. change (ANYOF =? EXACTLY)%Z with false.
      change (ANYOF =? ANYOF)%Z with true. by rewrite Es.
  - intros j. cbn [atom_matches one_char]. destruct (s !! i) as [c|].
    + destruct Hin as (-> & HcN & _). apply char_eqb_neq in HcN. unfold in_set, not_in_set. rewrite HcN. cbn [negb andb].
      assert ((if cp then c ∉ set else c ∈ set) ↔ (if cp then negb (bool_decide (c ∈ set)) else bool_decide (c ∈ set)) = true) as H
        by (destruct cp; [by rewrite negb_true_iff, bool_decide_eq_false|by rewrite bool_decide_eq_true]).
      split.
      * intros (c' & [= <-] & Hc & ->). apply H in Hc. by destruct cp; rewrite Hc.
      * intros E. exists c. split; [done|]. destruct cp; destruct (bool_decide _) eqn:Eb; cbn in E; try done; injection E as <-;
          (split; [by apply H|done]).
    + destruct Hin as [-> _]. unfold in_set, not_in_set. rewrite char_eqb_refl. cbn.
      split; [by intros (? & ? & _)|by destruct cp].
Qed.
Lemma step_zero a op p i :
  i ≤ len → (a = Bol ∧ op = BOL ∨ a = Eol ∧ op = EOL ∨ a = WordA ∧ op = WORDA ∨ a = WordZ ∧ op = WORDZ ∨ a = Any ∧ op = ANY) →
  ∃ o, step_node prog s op p i = Ret o ∧ ∀ j, atom_matches s a i j ↔ o = Some j.
Proof.
  intros Hi H. pose proof (input_at i Hi) as Hin. assert (∀ k, is_word (input s k) = word_at s k) as Hw by done.
  destruct H as [[-> ->]|[[-> ->]|[[-> ->]|[[-> ->]|[-> ->]]]]]; cbn [atom_matches];
    (eexists; split; [reflexivity|]; intros j).
  - destruct (Nat.eqb_spec i 0); split; [intros [? ->]|intros [= <-]|intros [? ->]|]; done.
  - destruct (s !! i).
    + destruct Hin as (-> & Hc & Hlt). apply char_eqb_neq in Hc. rewrite Hc. split; [lia|done].
    + destruct Hin as (-> & ->). rewrite char_eqb_refl. split; [intros [_ ->]; done|intros [= <-]; done].
  - rewrite !Hw. destruct (word_at s i); cbn [negb].
    + destruct (Nat.ltb_spec 0 i); cbn [andb].
      * destruct (word_at s (i - 1)); split; [intros (_ & [?|?] & _); [lia|done]|done|intros (_ & _ & ->); done|intros [= <-]; auto].
      * split; [intros (_ & _ & ->); done|intros [= <-]; split_and!; auto; lia].
    + split; [by intros (? & _)|done].
  - rewrite Hw. destruct (word_at s i); split; [by intros (? & _)|done|intros (_ & ->); done|intros [= <-]; done].
  - unfold any_char. destruct (s !! i).
    + destruct Hin as (-> & Hc & Hlt). apply char_eqb_neq in Hc. rewrite Hc. cbn. split; [intros (_ & ->); done|intros [= <-]; done].
    + destruct Hin as (-> & ->). rewrite char_eqb_refl. cbn. split; [lia|done].
Qed.

Lemma passes_leaf a p k t :
  code_at p (atom_code a (Some k)) → atom_ok a → match a with Group _ _ => False | _ => True end →
  t = p + atom_size a + k → t ≤ length prog → passes 1 0 p (atom_matches s a) t.
Proof.
  intros Hc Ha Hg Et Ht. assert (within (atom_matches s a)) as Hw by by apply places.
  assert (∀ op d rest, atom_code a (Some k) = node op d ++ rest → is_op op → op ≠ BACK → 0 < d → t = p + d → ordinary op = true →
    (OP prog p = Ret op → code_at (p + 3) rest → ∀ i, i ≤ len → ∃ o, step_node prog s op p i = Ret o ∧ ∀ j, atom_matches s a i j ↔ o = Some j) →
    passes 1 0 p (atom_matches s a) t) as H.
  { intros op d rest E Hop Hb Hd -> Ho Hs. rewrite E in Hc. destruct (at_node _ _ _ _ Hc Hop) as (H1 & H2 & H3).
    apply (passes_step p _ op); [by apply H3|done..|]. by apply Hs. }
  assert (∀ d, node BOL d = node BOL d ++ []) as _ by (intros; by rewrite app_nil_r).
  destruct a as [| | | | |cp set|w|no r]; try done; cbn [atom_code dist atom_size] in *.
  - apply (H BOL (3 + k) []); [by rewrite app_nil_r|done|done|lia|lia|done|]. intros _ _ i Hi. apply step_zero; auto.
  - apply (H EOL (3 + k) []); [by rewrite app_nil_r|done|done|lia|lia|done|]. intros _ _ i Hi. apply step_zero; auto 10.
  - apply (H WORDA (3 + k) []); [by rewrite app_nil_r|done|done|lia|lia|done|]. intros _ _ i Hi. apply step_zero; auto 10.
  - apply (H WORDZ (3 + k) []); [by rewrite app_nil_r|done|done|lia|lia|done|]. intros _ _ i Hi. apply step_zero; auto 10.
  - apply (H ANY (3 + k) []); [by rewrite app_nil_r|done|done|lia|lia|done|]. intros _ _ i Hi. apply step_zero; auto 10.
  - apply (H (if cp then ANYBUT else ANYOF) (4 + length set + k) (set ++ [NUL])); [done|by destruct cp|by destruct cp|lia|lia|by destruct cp|].
    intros _ Hs i Hi. apply step_class; [|done]. by apply code_at_string.
  - destruct Ha as [Hne HN]. apply (H EXACTLY (4 + length w + k) (w ++ [NUL])); [done|done|done|lia|lia|done|].
    intros _ Hs i Hi. apply step_exact; [|done..]. by apply code_at_string.
Qed.

(** ** The program of an expression matches what the expression matches *)

Definition part_passes (size : nat) (p : nat) (P : nat → nat → Prop) (t : nat) : Prop :=
  ∃ A B, A + B ≤ size ∧ passes A B p P t.
(** the tries of a list of branches *)
Definition tries_pass (A B p : nat) (P : nat → nat → Prop) (t : nat) : Prop :=
  ∀ fuel N W i, length prog < fuel + p → i ≤ len → B ≤ W → (∀ j, P i j → ∃ r, run (N + (S len - j) * W) t j r) →
  ∃ r, tries (N + A + (S len - i) * W) fuel p i r ∧ good P i t r.

Lemma target_inner q n : q + n + 3 ≤ length prog → 0 < n → target_ok q.
Proof. split; [lia|left; lia]. Qed.

(** what a multiplier makes of an atom *)
Lemma passes_mult a m p k t :
  (∀ p k t, code_at p (atom_code a (Some k)) → t = p + atom_size a + k → target_ok t → part_passes (atom_size a) p (atom_matches s a) t) →
  code_at p (piece_code (Mult a m) (Some k)) → piece_ok (Mult a m) → t = p + piece_size (Mult a m) + k → target_ok t →
  part_passes (piece_size (Mult a m)) p (piece_matches s (Mult a m)) t.
Proof.
  intros IH Hc [Ha Hm] Et Ht. pose proof (proj1 Ht) as Hle. assert (0 < length prog) as Hl by lia.
  assert (m ≠ Opt → width (atom_matches s a)) as Hw by (intros H; apply places; auto).
  destruct m; cbn [piece_size piece_code dist piece_matches repeated] in *.
  - destruct (simple a) eqn:Es.
    + destruct (at_node _ _ _ _ Hc ltac:(done)) as (H1 & H2 & H3). exists 1, 0. split; [lia|].
      eapply passes_weaken; [apply (passes_repeat p t STAR 0 (most a)); [done|by left| |done| |by apply most_le]|done..|].
      * rewrite H3; [|done|lia|lia]. do 2 f_equal. lia.
      * intros i Hi. by apply regrepeat_simple.
      * intros i j Hi. cbn beta. rewrite (repeated_simple a Ha Es _ i j Hi eq_refl). split; intros (n & Hn & ->); exists n; lia.
    + destruct (at_node _ _ _ _ Hc ltac:(done)) as (P1 & H & P2). specialize (P2 ltac:(done) ltac:(lia) ltac:(lia)).
      apply code_at_app in H as [HA H]. rewrite atom_length in H.
      destruct (at_node _ _ _ _ H ltac:(done)) as (K1 & H' & _). pose proof (code_at_app _ _ _ H) as [K2 _]. apply code_at_back in K2; [|lia].
      destruct (at_node _ _ _ _ H' ltac:(done)) as (B1 & H2 & B2). specialize (B2 ltac:(done) ltac:(lia) ltac:(lia)).
      rewrite <-(app_nil_r (node NOTHING _)) in H2. destruct (at_node _ _ _ _ H2 ltac:(done)) as (Q1 & _ & Q2). specialize (Q2 ltac:(done) ltac:(lia) ltac:(lia)).
      destruct (IH (p + 3) 0 (p + 3 + atom_size a) HA ltac:(lia) ltac:(eapply (target_inner _ 9); lia)) as (A & B & HAB & Hp).
      exists 3, (A + B + 4). split; [lia|].
      apply (passes_star A B p (p + 3 + atom_size a) (p + 3 + atom_size a + 3) (p + 3 + atom_size a + 3 + 3) t _ Hl);
        [by apply Hw|done|rewrite P2; do 2 f_equal; lia|done|done|rewrite K2; do 2 f_equal; lia|done|done|done|done|rewrite Q2; do 2 f_equal; lia].
  - destruct (simple a) eqn:Es.
    + destruct (at_node _ _ _ _ Hc ltac:(done)) as (H1 & H2 & H3). exists 1, 0. split; [lia|].
      eapply passes_weaken; [apply (passes_repeat p t PLUS 1 (most a)); [done|by right| |done| |by apply most_le]|done..|].
      * rewrite H3; [|done|lia|lia]. do 2 f_equal. lia.
      * intros i Hi. by apply regrepeat_simple.
      * intros i j Hi. cbn beta. by rewrite (repeated_simple_plus a i j Ha Es Hi).
    + apply code_at_app in Hc as [HA H]. rewrite atom_length in H.
      destruct (at_node _ _ _ _ H ltac:(done)) as (P1 & H1 & P2). specialize (P2 ltac:(done) ltac:(lia) ltac:(lia)).
      destruct (at_node _ _ _ _ H1 ltac:(done)) as (K1 & H' & _). pose proof (code_at_app _ _ _ H1) as [K2 _]. apply code_at_back in K2; [|lia].
      destruct (at_node _ _ _ _ H' ltac:(done)) as (B1 & H2 & B2). specialize (B2 ltac:(done) ltac:(lia) ltac:(lia)).
      rewrite <-(app_nil_r (node NOTHING _)) in H2. destruct (at_node _ _ _ _ H2 ltac:(done)) as (Q1 & _ & Q2). specialize (Q2 ltac:(done) ltac:(lia) ltac:(lia)).
      destruct (IH p 0 (p + atom_size a) HA ltac:(lia) ltac:(eapply (target_inner _ 9); lia)) as (A & B & HAB & Hp).
      exists 0, (A + B + 2). split; [lia|].
      apply (passes_plus A B p (p + atom_size a) (p + atom_size a + 3) (p + atom_size a + 3 + 3) (p + atom_size a + 3 + 3 + 3) t _ Hl);
        [by apply Hw|done|done|rewrite P2; do 2 f_equal; lia|done|done|rewrite K2; do 2 f_equal; lia|done|done|done|done|rewrite Q2; do 2 f_equal; lia].
  - destruct (at_node _ _ _ _ Hc ltac:(done)) as (P1 & H & P2). specialize (P2 ltac:(done) ltac:(lia) ltac:(lia)).
    apply code_at_app in H as [HA H]. rewrite atom_length in H.
    destruct (at_node _ _ _ _ H ltac:(done)) as (B1 & H2 & B2). specialize (B2 ltac:(done) ltac:(lia) ltac:(lia)).
    rewrite <-(app_nil_r (node NOTHING _)) in H2. destruct (at_node _ _ _ _ H2 ltac:(done)) as (Q1 & _ & Q2). specialize (Q2 ltac:(done) ltac:(lia) ltac:(lia)).
    destruct (IH (p + 3) 3 (p + 3 + atom_size a + 3) HA ltac:(lia) ltac:(eapply (target_inner _ 3); lia)) as (A & B & HAB & Hp).
    set (q := p + 3 + atom_size a + 3) in *.
    assert (passes 1 0 q eq t) as Hq.
    { apply (passes_step q t NOTHING); [rewrite Q2; do 2 f_equal; unfold q; lia|done|done|by intros i j ? ->|].
      intros i Hi. exists (Some i). split; [done|]. intros j. split; [by intros ->|by intros [= ->]]. }
    exists (1 + (A + 1) `max` 1), (B `max` 0 `max` 0). split; [lia|].
    assert (within (atom_matches s a)) as Hin by by apply places.
    eapply passes_weaken; [eapply (passes_choice (A + 1) (B `max` 0) 1 0 p (p + 3 + atom_size a) q _ eq t Hl);
      [rewrite P2; do 2 f_equal; lia|done|done|done|by eapply not_branch_op|apply (passes_seq A B 1 0 _ q t _ eq Hin Hp Hq)|exact Hq]|lia|lia|].
    intros i j Hi. cbn beta. cbn [repeated]. split; [intros [(? & ? & ->)| ->]; [by right|by left]|intros [->|]; [by right|left; eauto]].
Qed.

Lemma tries_pass_passes A B p q P t b :
  is_branch p → regnext prog p = Ret (Some q) → (if b : bool then is_branch q else not_branch q) →
  (if b then tries_pass A B p P t else passes A B (OPERAND p) P t) → passes (1 + A) B p P t.
Proof.
  intros Hp Hn Hq H N W i Hi HW Hr. destruct b.
  - destruct (H (S (length prog)) N W i ltac:(lia) Hi HW Hr) as (r & E & G). exists r. split; [|done].
    eapply (run_le (S (N + A + (S len - i) * W))); [|lia]. by eapply run_tries.
  - destruct (H N W i Hi HW Hr) as (r & E & G). exists r. split; [|done].
    eapply (run_le (S (N + A + (S len - i) * W))); [|lia]. by eapply run_only.
Qed.
Lemma tries_pass_one A B p q P t :
  p < length prog → regnext prog p = Ret (Some q) → not_branch q → passes A B (OPERAND p) P t → tries_pass A B p P t.
Proof.
  intros Hp Hn Hq H [|fuel] N W i Hf Hi HW Hr; [lia|]. destruct (H N W i Hi HW Hr) as (r & E & G). exists r. split; [|done].
  by eapply tries_last.
Qed.
Lemma tries_le F F' fuel p i r : tries F fuel p i r → F ≤ F' → tries F' fuel p i r.
Proof. intros H Hle. eapply branch_loop_mono; [|exact H]. intros j x E. eapply regmatch_mono; [exact E|done]. Qed.
Lemma tries_pass_more A1 B1 A2 B2 p q P Q t :
  p < q → regnext prog p = Ret (Some q) → is_branch q → passes A1 B1 (OPERAND p) P t → tries_pass A2 B2 q Q t →
  tries_pass (A1 `max` A2) (B1 `max` B2) p (λ i j, P i j ∨ Q i j) t.
Proof.
  intros Hpq Hn Hq H1 H2 [|fuel] N W i Hf Hi HW Hr.
  { exfalso. unfold is_branch, OP, rd in Hq. destruct (lookup_ge_None prog q) as [_ E]. rewrite E in Hq by lia. done. }
  destruct (H1 N W i Hi ltac:(lia)) as (r1 & E1 & G1); [auto|].
  destruct (H2 fuel N W i ltac:(lia) Hi ltac:(lia)) as (r2 & E2 & G2); [auto|].
  exists (first_of r1 r2). split; [|by apply good_or]. eapply tries_more; [done..|eapply run_le; [exact E1|lia]|eapply tries_le; [exact E2|lia]].
Qed.

Lemma sizes_least :
  (∀ a, 3 ≤ atom_size a) ∧ (∀ pc, 3 ≤ piece_size pc) ∧ (∀ b, 3 ≤ branch_size b) ∧ (∀ r, 6 ≤ alts_size r).
Proof. apply syntax_mind; intros; cbn [atom_size piece_size branch_size alts_size]; try lia. destruct m; try destruct (simple a); lia. Qed.

Lemma program_passes :
  (∀ a, atom_ok a → ∀ p k t, code_at p (atom_code a (Some k)) → t = p + atom_size a + k → target_ok t →
     part_passes (atom_size a) p (atom_matches s a) t) ∧
  (∀ pc, piece_ok pc → ∀ p k t, code_at p (piece_code pc (Some k)) → t = p + piece_size pc + k → target_ok t →
     part_passes (piece_size pc) p (piece_matches s pc) t) ∧
  (∀ b, branch_ok b → ∀ p k t, code_at p (branch_code b (Some k)) → t = p + branch_size b + k → target_ok t →
     part_passes (branch_size b) p (branch_matches s b) t) ∧
  (∀ r, alts_ok r → ∀ p k t, code_at p (alts_code r (Some k) (Some k)) → t = p + alts_size r + k → target_ok t → not_branch t →
     is_branch p ∧ part_passes (alts_size r) p (alts_matches s r) t ∧
     ∃ A B, A + B + 1 ≤ alts_size r ∧ tries_pass A B p (alts_matches s r) t).
Proof.
  apply syntax_mind.
  1-7: intros; (exists 1, 0; split; [cbn [atom_size]; lia|]); eapply passes_leaf; eauto;
    match goal with H : target_ok _ |- _ => destruct H; lia end.
  - intros no r IH [Hno Hr] p k t Hc Et Ht. cbn [atom_code dist atom_size] in *. pose proof (proj1 Ht) as Hle.
    destruct (at_node _ _ _ _ Hc ltac:(unfold is_op, OPEN, NSUBEXP in *; lia)) as (P1 & H & P2).
    specialize (P2 ltac:(unfold OPEN, BACK; lia) ltac:(lia) ltac:(lia)).
    apply code_at_app in H as [HA H]. rewrite alts_length in H. rewrite <-(app_nil_r (node _ _)) in H.
    destruct (at_node _ _ _ _ H ltac:(unfold is_op, CLOSE, NSUBEXP in *; lia)) as (C1 & _ & C2).
    specialize (C2 ltac:(unfold CLOSE, BACK, NSUBEXP in *; lia) ltac:(lia) ltac:(lia)).
    destruct (IH Hr (p + 3) 0 (p + 3 + alts_size r) HA ltac:(lia)) as (_ & (A & B & HAB & Hp) & _).
    { apply (target_inner _ 3); lia. } { eapply not_branch_op; [exact C1|unfold CLOSE, BRANCH; lia]. }
    assert (within (alts_matches s r)) as Hin by by apply places.
    pose proof (passes_open p (p + 3) no Hno ltac:(rewrite P2; do 2 f_equal; lia) P1) as H1.
    pose proof (passes_close (p + 3 + alts_size r) t no Hno ltac:(rewrite C2; do 2 f_equal; lia) C1) as H2.
    pose proof (passes_seq A B 1 0 _ (p + 3 + alts_size r) t _ eq Hin Hp H2) as H3.
    assert (within eq) as Heq by (intros i j ? ->; lia). pose proof (passes_seq 1 0 _ _ p (p + 3) t eq _ Heq H1 H3) as H4.
    eexists _, _. split; [|eapply passes_weaken; [exact H4|done|done|]]; [lia|].
    intros i j Hi. cbn [atom_matches]. split; [by intros (? & -> & ? & ? & ->)|eauto 10].
  - intros a IH Ha. by apply IH.
  - intros a IH m Hp p k t Hc Et Ht. eapply passes_mult; [|exact Hc|done|exact Et|done]. apply IH, Hp.
  - intros _ p k t Hc -> Ht. pose proof (proj1 Ht) as Hle. cbn [branch_code branch_size dist branch_matches] in *. exists 1, 0. split; [lia|].
    rewrite <-(app_nil_r (node _ _)) in Hc. destruct (at_node _ _ _ _ Hc ltac:(done)) as (Q1 & _ & Q2). specialize (Q2 ltac:(done) ltac:(lia) ltac:(lia)).
    apply (passes_step p _ NOTHING); [rewrite Q2; do 2 f_equal; lia|done|done|intros i j ? ->; lia|].
    intros i Hi. exists (Some i). split; [done|]. intros j. split; [by intros ->|by intros [= ->]].
  - intros pc IH Hp. by apply IH.
  - intros pc IHp b IHb [Hp Hb] p k t Hc Et Ht. pose proof (proj1 Ht) as Hle. cbn [branch_code branch_size branch_matches] in *.
    apply code_at_app in Hc as [H1 H2]. rewrite piece_length in H2. pose proof (code_at_le _ _ H2) as Hle2. rewrite branch_length in Hle2.
    destruct (IHb Hb (p + piece_size pc) k t H2 ltac:(lia) Ht) as (A2 & B2 & HAB2 & P2).
    destruct (IHp Hp p 0 (p + piece_size pc) H1 ltac:(lia)) as (A1 & B1 & HAB1 & P1).
    { pose proof (proj1 (proj2 (proj2 sizes_least)) b). apply (target_inner _ 3); lia. }
    assert (within (piece_matches s pc)) as Hin by by apply places.
    pose proof (passes_seq A1 B1 A2 B2 p _ t _ _ Hin P1 P2) as H. exists (A1 + A2), (B1 `max` B2). split; [lia|done].
  - intros b IH Hb p k t Hc Et Ht Hnb. pose proof (proj1 Ht) as Hle. cbn [alts_code alts_size dist] in *.
    destruct (at_node _ _ _ _ Hc ltac:(done)) as (P1 & H & P2). specialize (P2 ltac:(done) ltac:(lia) ltac:(lia)).
    destruct (IH Hb (p + 3) k t H ltac:(lia) Ht) as (A & B & HAB & Hp). assert (regnext prog p = Ret (Some t)) as Hn by (rewrite P2; do 2 f_equal; lia).
    split; [done|]. split.
    + exists (1 + A), B. split; [lia|]. by apply (tries_pass_passes A B p t _ t false).
    + exists A, B. split; [lia|]. apply (tries_pass_one A B p t); [lia|done..].
  - intros b IHb r IHr [Hb Hr] p k t Hc Et Ht Hnb. pose proof (proj1 Ht) as Hle. cbn [alts_code alts_size further] in *.
    destruct (at_node _ _ _ _ Hc ltac:(done)) as (P1 & H & P2). specialize (P2 ltac:(done) ltac:(lia) ltac:(lia)).
    apply code_at_app in H as [HB HR]. rewrite branch_length in HR. cbn [fmap option_fmap option_map] in HB.
    destruct (IHb Hb (p + 3) (alts_size r + k) t HB ltac:(lia) Ht) as (A1 & B1 & HAB1 & H1).
    destruct (IHr Hr (p + 3 + branch_size b) k t HR ltac:(lia) Ht Hnb) as (Hq & _ & A2 & B2 & HAB2 & H2).
    assert (regnext prog p = Ret (Some (p + 3 + branch_size b))) as Hn by (rewrite P2; do 2 f_equal; lia).
    pose proof (tries_pass_more A1 B1 A2 B2 p (p + 3 + branch_size b) (branch_matches s b) (alts_matches s r) t ltac:(lia) Hn Hq H1 H2) as H.
    split; [done|]. split.
    + exists (1 + A1 `max` A2), (B1 `max` B2). split; [lia|]. by apply (tries_pass_passes _ _ p (p + 3 + branch_size b) _ t true).
    + exists (A1 `max` A2), (B1 `max` B2). split; [lia|done].
Qed.
End Passes.
