(* ===== verification/RegexpFast.v ===== *)
(** * Regular expressions: finding a match

    What regcomp notes about a pattern to find a match sooner: the byte that a
    match begins with, that it begins at the beginning of the string, and the
    longest string that occurs in it.  They never rule out a match, so regexec
    finds a match if there is one, and the leftmost one. *)

From S2P Require Import Prelude CLib CString Regexp RegexpSyntax RegexpCompile RegexpExec.

(** ** What a match must begin with and must contain *)

Section Notes.
Context (prog : list ascii) (small : (Z.of_nat (length prog) < 65536)%Z).
Notation code_at := (code_at prog).

(** matches of a part, over all strings *)
Definition language : Type := cstr → nat → nat → Prop.
Definition begins (L : language) (c : ascii) : Prop := c ≠ NUL ∧ ∀ s i j, L s i j → s !! i = Some c.
Definition anchored (L : language) : Prop := ∀ s i j, L s i j → i = 0.
Definition contains (L : language) (t : cstr) : Prop :=
  t ≠ [] ∧ NUL ∉ t ∧ ∀ s i j, L s i j → ∃ k, t `prefix_of` drop k s.

(** the first node of a part is right about it *)
Definition first_node (p : nat) (L : language) : Prop :=
  ∃ op, OP prog p = Ret op ∧ (op = EXACTLY → ∃ c, rd prog (OPERAND p) = Ret c ∧ begins L c) ∧ (op = BOL → anchored L).
Lemma first_node_sub p (L L' : language) : first_node p L → (∀ s i j, L' s i j → ∃ k, L s i k) → first_node p L'.
Proof.
  intros (op & Ho & He & Hb) H. exists op. split_and!; [done| |].
  - intros E. destruct (He E) as (c & Hc & Hn & Hs). exists c. split; [done|]. split; [done|]. intros s i j Hj.
    destruct (H s i j Hj) as [k Hk]. exact (Hs s i k Hk).
  - intros E s i j Hj. destruct (H s i j Hj) as [k Hk]. by apply (Hb E s i k).
Qed.
Lemma first_node_other p op d L : code_at p (node op d) → is_op op → op ≠ EXACTLY → op ≠ BOL → first_node p L.
Proof. intros H Hop H1 H2. exists op. split; [by eapply code_at_op|done]. Qed.
Lemma code_at_rd p c l : code_at p (c :: l) → rd prog p = Ret c.
Proof. intros (pre & post & -> & <-). unfold rd. by rewrite lookup_app_r, Nat.sub_diag by lia. Qed.
Lemma code_at_cut p a b : code_at p (a ++ b) → code_at p a.
Proof. by intros [H _]%code_at_app. Qed.

Lemma first_atom a p t : code_at p (atom_code a t) → atom_ok a → first_node p (λ s, atom_matches s a).
Proof.
  intros Hc Ha. destruct a as [| | | | |cp set|w|no r]; cbn [atom_code] in Hc.
  - exists BOL. split_and!; [by eapply code_at_op|done|]. intros _ s i j. by intros [? _].
  - by eapply first_node_other.
  - by eapply first_node_other.
  - by eapply first_node_other.
  - by eapply first_node_other.
  - eapply first_node_other; [by eapply code_at_cut| |..]; by destruct cp.
  - apply code_at_app in Hc as [H1 H2]. rewrite node_length in H2. exists EXACTLY. split_and!; [by eapply code_at_op| |done].
    destruct Ha as [Hne HN]. destruct w as [|c w]; [done|]. intros _. exists c. split; [by eapply code_at_rd|].
    apply not_elem_of_cons in HN as [Hc _]. split; [done|]. intros s i j [[k Hk] _]. cbn in Hk.
    rewrite <-(Nat.add_0_r i), <-lookup_drop, Hk. done.
  - destruct Ha as [Hno _]. eapply first_node_other; [by eapply code_at_cut|..]; unfold is_op, OPEN, EXACTLY, BOL, NSUBEXP in *; lia.
Qed.
Lemma first_piece pc p t : code_at p (piece_code pc t) → piece_ok pc → first_node p (λ s, piece_matches s pc).
Proof.
  intros Hc Hp. destruct pc as [a|a m]; [by eapply first_atom|]. destruct Hp as [Ha Hw]. cbn [piece_code] in Hc. destruct m; [| |by eapply first_node_other; [eapply code_at_cut|..]].
  - destruct (simple a); (eapply first_node_other; [by eapply code_at_cut|done..]).
  - destruct (simple a); [by eapply first_node_other; [eapply code_at_cut|..]|].
    eapply first_node_sub; [eapply first_atom; [by eapply code_at_cut|done]|]. intros s i j H. cbn in *. inversion H; subst; eauto.
Qed.
Lemma first_of_branch b p t : code_at p (branch_code b t) → branch_ok b → first_node p (λ s, branch_matches s b).
Proof.
  intros Hc Hb. destruct b as [|pc|pc b]; cbn [branch_code] in Hc; [by eapply first_node_other|by eapply first_piece|].
  destruct Hb as [Hp _]. eapply first_node_sub; [eapply first_piece; [by eapply code_at_cut|done]|]. intros s i j (k & Hk & _). eauto.
Qed.

(** *** The longest string *)

(** what the search has found so far *)
Definition found (P : cstr → Prop) (longest : option nat) (len : nat) : Prop :=
  match longest with
  | None => len = 0
  | Some p => ∃ t, string_at prog p = Ret t ∧ len = length t ∧ P t
  end.
(** it goes from one node to another, and finds only strings of which [Q] holds *)
Definition walks (n p t : nat) (Q : cstr → Prop) : Prop :=
  ∀ P longest len fuel, (∀ x, Q x → P x) → found P longest len →
  ∃ longest' len', found P longest' len' ∧ longest_loop prog (n + fuel) (Some p) longest len = longest_loop prog fuel (Some t) longest' len'.

Lemma walks_sub n p t (Q Q' : cstr → Prop) : walks n p t Q → (∀ x, Q x → Q' x) → walks n p t Q'.
Proof. intros H HQ P l len fuel HP. apply H. auto. Qed.
Lemma walks_trans n m p q t Q : walks n p q Q → walks m q t Q → walks (n + m) p t Q.
Proof.
  intros H1 H2 P l len fuel HP Hf. destruct (H1 P l len (m + fuel) HP Hf) as (l1 & len1 & Hf1 & E1).
  destruct (H2 P l1 len1 fuel HP Hf1) as (l2 & len2 & Hf2 & E2). exists l2, len2. split; [done|]. rewrite <-E2, <-E1. f_equal. lia.
Qed.
Lemma walks_hop p t op Q : OP prog p = Ret op → op ≠ EXACTLY → regnext prog p = Ret (Some t) → walks 1 p t Q.
Proof.
  intros Ho Hop Hn P l len fuel _ Hf. exists l, len. split; [done|]. cbn [Nat.add longest_loop]. rewrite Ho, Hn. cbn [mbind outcome_bind].
  by destruct (Z.eqb_spec op EXACTLY).
Qed.
Lemma walks_exact p t x : OP prog p = Ret EXACTLY → regnext prog p = Ret (Some t) → string_at prog (OPERAND p) = Ret x →
  walks 1 p t (λ y, y = x).
Proof.
  intros Ho Hn Hs P l len fuel HP Hf. cbn [Nat.add longest_loop]. rewrite Ho, Hn. cbn [mbind outcome_bind]. rewrite Z.eqb_refl, Hs.
  cbn [mbind outcome_bind]. destruct (len <=? length x); [|by exists l, len]. exists (Some (OPERAND p)), (length x). split; [|done].
  exists x. auto.
Qed.

(** a node at [p] that leads to [t] *)
Lemma walks_node p op d rest t Q :
  code_at p (node op d ++ rest) → is_op op → op ≠ BACK → op ≠ EXACTLY → 0 < d → t = p + d → t ≤ length prog → walks 1 p t Q.
Proof.
  intros Hc Hop Hb He Hd -> Ht. destruct (at_node prog small _ _ _ _ Hc Hop) as (H1 & _ & H2). eapply walks_hop; [done..|]. by apply H2.
Qed.
Lemma walks_alts r k : ∀ p t Q, code_at p (alts_code r (Some k) (Some k)) → t = p + alts_size r + k → t ≤ length prog →
  ∃ n, n ≤ alts_size r ∧ walks n p t Q.
Proof.
  induction r as [b|b r IH]; intros p t Q Hc -> Ht; cbn [alts_code alts_size dist] in *.
  - exists 1. split; [lia|]. eapply walks_node; [exact Hc|done..|lia|lia|lia].
  - pose proof Hc as Hr. apply code_at_app in Hr as [_ Hr]. rewrite node_length in Hr. apply code_at_app in Hr as [_ Hr]. rewrite branch_length in Hr.
    destruct (IH (p + 3 + branch_size b) (p + (3 + branch_size b + alts_size r) + k) Q Hr) as (n & Hn & H); [lia|done|].
    exists (1 + n). split; [lia|]. eapply walks_trans; [|exact H]. eapply walks_node; [exact Hc|done..|lia|lia|lia].
Qed.

Definition walks_part (size p : nat) (L : language) (t : nat) : Prop := ∃ n, n ≤ size ∧ walks n p t (contains L).
Lemma walks_part_sub size size' p L L' t :
  walks_part size p L t → size ≤ size' → (∀ s i j, L' s i j → ∃ i j, L s i j) → walks_part size' p L' t.
Proof.
  intros (n & Hn & H) Hs HL. exists n. split; [lia|]. eapply walks_sub; [exact H|]. intros x (Hx & HN & H'). split_and!; [done..|].
  intros s i j Hj. destruct (HL s i j Hj) as (i' & j' & Hj'). by eapply H'.
Qed.
Lemma walks_part_seq size1 size2 p q t L1 L2 (L : language) :
  walks_part size1 p L1 q → walks_part size2 q L2 t → (∀ s i j, L s i j → (∃ i j, L1 s i j) ∧ ∃ i j, L2 s i j) →
  walks_part (size1 + size2) p L t.
Proof.
  intros (n & Hn & H1) (m & Hm & H2) HL. exists (n + m). split; [lia|]. eapply walks_trans; eapply walks_sub; [exact H1| |exact H2|];
    intros x (Hx & HN & H'); (split_and!; [done..|]); intros s i j (( i1 & j1 & Hj1) & (i2 & j2 & Hj2))%HL; by eapply H'.
Qed.

Lemma walks_atom a p k t :
  code_at p (atom_code a (Some k)) → atom_ok a → t = p + atom_size a + k → t ≤ length prog →
  walks_part (atom_size a) p (λ s, atom_matches s a) t.
Proof.
  intros Hc Ha Et Ht. destruct a as [| | | | |cp set|w|no r]; cbn [atom_code atom_size dist] in *.
  1-5: exists 1; split; [lia|]; rewrite <-(app_nil_r (node _ _)) in Hc; eapply walks_node; [exact Hc|done..|lia|lia|lia].
  - exists 1. split; [lia|]. eapply walks_node; [exact Hc|by destruct cp|by destruct cp|by destruct cp|lia|lia|lia].
  - destruct Ha as [Hne HN]. exists 1. split; [lia|]. destruct (at_node prog small _ _ _ _ Hc) as (H1 & H2 & H3); [done|].
    eapply walks_sub; [eapply (walks_exact p t w); [done|rewrite H3; [do 2 f_equal; lia|done|lia|lia]|by eapply code_at_string]|].
    intros x ->. split_and!; [done..|]. intros s i j [Hp _]. by exists i.
  - destruct Ha as [Hno _]. pose proof Hc as Hr. apply code_at_app in Hr as [_ Hr]. rewrite node_length in Hr.
    apply code_at_app in Hr as [Hr Hcl]. rewrite alts_length in Hcl. rewrite <-(app_nil_r (node _ _)) in Hcl.
    destruct (walks_alts r 0 (p + 3) (p + 3 + alts_size r) (contains (λ s, atom_matches s (Group no r))) Hr) as (n & Hn & H); [lia|lia|].
    exists (1 + (n + 1)). split; [lia|]. eapply walks_trans; [eapply walks_node; [exact Hc|..]|eapply walks_trans; [exact H|eapply walks_node; [exact Hcl|..]]];
      unfold is_op, OPEN, CLOSE, BACK, EXACTLY, NSUBEXP in *; lia.
Qed.
(** the nodes that follow what is repeated or may be left out *)
Lemma walks_rest q d k t Q :
  code_at q (node BRANCH d ++ node NOTHING k) → d = 3 → 0 < k → t = q + 3 + k → t ≤ length prog → walks 2 q t Q.
Proof.
  intros Hc -> Hk -> Ht. pose proof Hc as Hr. apply code_at_app in Hr as [_ Hr]. rewrite node_length, <-(app_nil_r (node _ _)) in Hr.
  apply (walks_trans 1 1 q (q + 3)); (eapply walks_node; [eassumption|done..|lia|lia|lia]).
Qed.
Lemma walks_piece pc p k t :
  code_at p (piece_code pc (Some k)) → piece_ok pc → t = p + piece_size pc + k → t ≤ length prog →
  walks_part (piece_size pc) p (λ s, piece_matches s pc) t.
Proof.
  intros Hc Hp Et Ht. destruct pc as [a|a m]; [by eapply walks_atom|]. destruct Hp as [Ha Hw].
  destruct m; cbn [piece_code piece_size dist] in *.
  - destruct (simple a).
    + exists 1. split; [lia|]. eapply walks_node; [exact Hc|done..|lia|lia|lia].
    + pose proof Hc as Hr. apply code_at_app in Hr as [_ Hr]. rewrite node_length in Hr. apply code_at_app in Hr as [_ Hr]. rewrite atom_length in Hr.
      apply code_at_app in Hr as [_ Hr]. rewrite node_length in Hr. exists (1 + 2). split; [lia|].
      eapply walks_trans; [eapply walks_node; [exact Hc|done..|lia|reflexivity|lia]|].
      replace (p + (6 + atom_size a)) with (p + 3 + atom_size a + 3) by lia. eapply walks_rest; [exact Hr|done|lia..].
  - destruct (simple a).
    + exists 1. split; [lia|]. eapply walks_node; [exact Hc|done..|lia|lia|lia].
    + apply code_at_app in Hc as [Hc Hr]. rewrite atom_length in Hr. pose proof Hr as Hr'. apply code_at_app in Hr' as [_ Hr'].
      rewrite node_length in Hr'. apply code_at_app in Hr' as [_ Hr']. rewrite node_length in Hr'.
      destruct (walks_atom a p 0 (p + atom_size a) Hc Ha) as (n & Hn & H); [lia|lia|]. exists (n + (1 + 2)). split; [lia|].
      eapply walks_trans; [eapply walks_sub; [exact H|]|eapply walks_trans; [eapply walks_node; [exact Hr|done..|lia|reflexivity|lia]|]].
      * intros x (Hx & HN & Hc'). split_and!; [done..|]. intros s i j Hj. cbn in Hj. inversion Hj; subst; by eapply Hc'.
      * replace (p + atom_size a + 6) with (p + atom_size a + 3 + 3) by lia. eapply walks_rest; [exact Hr'|done|lia..].
  - pose proof Hc as Hr. apply code_at_app in Hr as [_ Hr]. rewrite node_length in Hr. apply code_at_app in Hr as [_ Hr]. rewrite atom_length in Hr.
    exists (1 + 2). split; [lia|]. eapply walks_trans; [eapply walks_node; [exact Hc|done..|lia|reflexivity|lia]|].
    replace (p + (3 + atom_size a)) with (p + 3 + atom_size a) by lia. eapply walks_rest; [exact Hr|done|lia..].
Qed.
Lemma walks_branch b k : ∀ p t,
  code_at p (branch_code b (Some k)) → branch_ok b → t = p + branch_size b + k → t ≤ length prog →
  walks_part (branch_size b) p (λ s, branch_matches s b) t.
Proof.
  induction b as [|pc|pc b IH]; intros p t Hc Hb Et Ht; cbn [branch_code branch_size dist] in *.
  - exists 1. split; [lia|]. rewrite <-(app_nil_r (node _ _)) in Hc. eapply walks_node; [exact Hc|done..|lia|lia|lia].
  - by eapply walks_piece.
  - destruct Hb as [Hp Hb]. apply code_at_app in Hc as [H1 H2]. rewrite piece_length in H2.
    eapply (walks_part_seq _ _ p (p + piece_size pc) t); [eapply walks_piece; [exact H1|done|lia|lia]|apply IH; [done|done|lia|done]|].
    cbn. intros s i j (k' & ? & ?). eauto 6.
Qed.
End Notes.

(** what regcomp notes about an expression *)
Definition notes_ok (r : alts) (c : regexp) : Prop :=
  program c = program_code r ∧
  (regstart c ≠ NUL → begins (λ s, alts_matches s r) (regstart c)) ∧
  (reganch c = true → anchored (λ s, alts_matches s r)) ∧
  match regmust c with
  | None => True
  | Some p => ∃ t, string_at (program c) p = Ret t ∧ regmlen c = length t ∧ contains (λ s, alts_matches s r) t
  end.

Section Optimise.
Context (r : alts) (r_ok : alts_ok r) (size_ok : (Z.of_nat (program_size r) < 32767)%Z).
Notation prog := (program_code r).

Lemma prog_small : (Z.of_nat (length prog) < 65536)%Z.
Proof. rewrite program_length. lia. Qed.
Lemma alts_at : code_at prog 1 (alts_code r (Some 0) (Some 0)).
Proof. by exists [chr MAGIC], (node END 0). Qed.
Lemma end_at : OP prog (S (alts_size r)) = Ret END ∧ regnext prog (S (alts_size r)) = Ret None.
Proof.
  assert (prog = (chr MAGIC :: alts_code r (Some 0) (Some 0)) ++ node END 0 ++ []) as E by by rewrite app_nil_r.
  assert (length (chr MAGIC :: alts_code r (Some 0) (Some 0)) = S (alts_size r)) as El by (cbn [length]; by rewrite alts_length).
  rewrite E, <-El. split; [by apply OP_node|]. unfold regnext. rewrite NEXT_node; done.
Qed.

Lemma optimise_ok f : ∃ c, optimise prog f = Ret c ∧ notes_ok r c.
Proof.
  pose proof prog_small as Hsm. pose proof (program_length r) as Hlen. unfold program_size in Hlen.
  pose proof alts_at as Ha. destruct end_at as [He1 He2]. unfold optimise.
  destruct r as [b|b r'] eqn:Er; cbn [alts_code dist alts_size] in Ha.
  - destruct (at_node _ Hsm _ _ _ _ Ha) as (_ & Hb & Hn); [done|]. cbn [alts_size] in Hlen, He1, He2.
    rewrite Hn by (done || lia). cbn [mbind outcome_bind]. change (1 + (3 + branch_size b + 0)) with (S (3 + branch_size b + 0)).
    rewrite Nat.add_0_r, He1. cbn [mbind outcome_bind]. change (END =? END)%Z with true. cbv iota.
    destruct (first_of_branch _ Hsm b 4 _ Hb r_ok) as (op & Ho & Hex & Hbol). change (OPERAND 1) with 4. rewrite Ho. cbn [mbind outcome_bind].
    assert (∃ c, (if (op =? EXACTLY)%Z then rd (program_code (One b)) (OPERAND 4) else Ret NUL) = Ret c ∧ (c ≠ NUL → begins (λ s, branch_matches s b) c))
      as (c & -> & Hc) by (destruct (Z.eqb_spec op EXACTLY) as [E|]; [destruct (Hex E) as (c & -> & ?); by exists c|by exists NUL]).
    cbn [mbind outcome_bind]. destruct (SPSTART f).
    + destruct (walks_branch _ Hsm b 0 4 (S (3 + branch_size b)) Hb r_ok) as (n & Hn' & W); [lia|lia|].
      destruct (W (contains (λ s, branch_matches s b)) None 0 (S (length (program_code (One b))) - n)) as (l & len & Hf & E); [done|done|].
      replace (S (length (program_code (One b)))) with (n + (S (length (program_code (One b))) - n)) by lia. rewrite E.
      assert (longest_loop (program_code (One b)) (S (length (program_code (One b))) - n) (Some (S (3 + branch_size b))) l len = Ret (l, len)) as ->.
      { destruct (S (length (program_code (One b))) - n) as [|[|k]] eqn:Ek; [lia|lia|]. cbn [longest_loop]. by rewrite He1, He2. }
      eexists. split; [done|]. split_and!; [done|done|cbn; intros H%Z.eqb_eq; by apply Hbol|]. cbn. destruct l as [q|]; [|done].
      destruct Hf as (t & ? & -> & ?). by exists t.
    + eexists. split; [done|]. split_and!; [done|done|cbn; intros H%Z.eqb_eq; by apply Hbol|done].
  - destruct (at_node _ Hsm _ _ _ _ Ha) as (_ & Hb & Hn); [done|]. cbn [alts_size] in Hlen.
    rewrite Hn by (done || lia). cbn [mbind outcome_bind]. apply code_at_app in Hb as [_ Hb]. rewrite branch_length in Hb.
    assert (OP (program_code (Alt b r')) (1 + (3 + branch_size b)) = Ret BRANCH) as ->.
    { destruct r'; cbn [alts_code] in Hb; apply code_at_cut in Hb; by apply code_at_op in Hb. }
    cbn [mbind outcome_bind]. change (BRANCH =? END)%Z with false. cbv iota. eexists. split; [done|]. by split_and!.
Qed.
End Optimise.

(** ** The places of a match *)

Lemma star_loop_Some s try nextch save min no st :
  star_loop s try nextch save min no = Ret (Some st) → ∃ i, try i = Ret (Some st).
Proof.
  induction no as [|no IH]; cbn [star_loop]; (destruct (_ <? min); [done|]); destruct (_ || _); cbn [mbind outcome_bind]; try done.
  all: intros (x & E & H)%bind_inv_Ret; destruct x; [apply Ret_inj in H as [= <-]; by eexists|]; try done; by apply IH.
Qed.
Lemma branch_loop_Some prog try fuel : ∀ scan st, branch_loop prog try fuel scan = Ret (Some st) → ∃ p, try p = Ret (Some st).
Proof.
  induction fuel as [|fuel IH]; intros scan st; [done|]. cbn [branch_loop]. intros (x & E & H)%bind_inv_Ret.
  destruct x; [apply Ret_inj in H as [= <-]; eauto|]. apply bind_inv_Ret in H as (q & _ & H). destruct q; [|done].
  apply bind_inv_Ret in H as (op & _ & H). destruct (_ =? _)%Z; [by eapply IH|done].
Qed.
Definition places_of (st : mstate) : nat * nat := (length (regstartp st), length (regendp st)).
Lemma set_startp_places no i st : places_of (set_startp no i st) = places_of st.
Proof. unfold places_of, set_startp. cbn. destruct (regstartp st !! no) as [[?|]|]; by rewrite ?length_insert. Qed.
Lemma set_endp_places no i st : places_of (set_endp no i st) = places_of st.
Proof. unfold places_of, set_endp. cbn. destruct (regendp st !! no) as [[?|]|]; by rewrite ?length_insert. Qed.
Lemma regmatch_places prog s : ∀ F p st st', regmatch prog s F p st = Ret (Some st') → places_of st' = places_of st.
Proof.
  induction F as [|F IH]; intros p st st'; [done|]. cbn [regmatch]. intros (nx & _ & (op & _ & H)%bind_inv_Ret)%bind_inv_Ret.
  destruct (op =? END)%Z; [by apply Ret_inj in H as [= <-]|]. destruct (_ && _).
  { apply bind_inv_Ret in H as (o & E & H). destruct o as [st1|], nx; try done. apply Ret_inj in H as [= <-].
    rewrite set_startp_places. by eapply IH. }
  destruct (_ && _).
  { apply bind_inv_Ret in H as (o & E & H). destruct o as [st1|], nx; try done. apply Ret_inj in H as [= <-].
    rewrite set_endp_places. by eapply IH. }
  destruct (op =? BRANCH)%Z.
  { destruct nx as [q|]; [|done]. apply bind_inv_Ret in H as (o & _ & H). destruct (negb _); [by eapply IH|].
    apply branch_loop_Some in H as (q' & H). by eapply IH. }
  destruct (_ || _).
  { destruct nx as [q|]; [|done]. apply bind_inv_Ret in H as (o & _ & (c & _ & (n & _ & H)%bind_inv_Ret)%bind_inv_Ret).
    apply star_loop_Some in H as (i & H). apply IH in H. by destruct st. }
  apply bind_inv_Ret in H as (o & _ & H). destruct o, nx; try done. apply IH in H. by destruct st.
Qed.

(** ** regexec *)

Section Exec.
Context (r : alts) (r_ok : alts_ok r) (size_ok : (Z.of_nat (program_size r) < 32767)%Z) (s : cstr) (no_NUL : NUL ∉ s).
Notation prog := (program_code r).
Notation len := (length s).

(** the attempt at one place: the fuel is enough *)
Lemma regmatch_total i : i ≤ len →
  ∃ o, regmatch prog s (match_fuel prog s) 1 (start i) = Ret o ∧
    match o with Some st => alts_matches s r i (reginput st) | None => ∀ j, ¬ alts_matches s r i j end.
Proof.
  intros Hi. pose proof (prog_small r size_ok) as Hsm. destruct (end_at r) as [He1 He2].
  pose proof (program_length r) as Hlen. unfold program_size in Hlen.
  assert (∀ j, run prog s 1 (S (alts_size r)) j (Some (start j))) as Hend by (intros j; unfold run; cbn [regmatch]; by rewrite He1, He2).
  destruct (proj2 (proj2 (proj2 (program_passes prog s no_NUL Hsm))) r r_ok 1 0 (S (alts_size r)) (alts_at r)) as (_ & (A & B & HAB & H) & _);
    [lia|split; [lia|by right]|by exists END|].
  destruct (H 1 B i Hi) as (o & E & G); [done|intros j _; exists (Some (start j)); eapply run_le; [apply Hend|apply Nat.le_add_r]|]. exists o. split.
  - eapply (run_le prog s); [exact E|]. unfold match_fuel. rewrite Hlen.
    assert ((S len - i) * B ≤ S len * B) by (apply Nat.mul_le_mono_r; lia).
    assert (S len * (1 + A + B) ≤ S len * S (4 + alts_size r)) by (apply Nat.mul_le_mono_l; lia). nia.
  - destruct o as [st|]; cbn in G.
    + destruct G as (j & st' & Hj & Hs & ->). pose proof (run_succeeds _ _ _ _ _ _ _ (Hend j) Hs) as [= <-]. done.
    + intros j Hj. specialize (G j Hj). by pose proof (run_fails _ _ _ _ _ _ (Hend j) G).
Qed.

(** the notes stay, the whole match has its places *)
Definition same_notes (c c' : regexp) : Prop :=
  program c' = program c ∧ regstart c' = regstart c ∧ reganch c' = reganch c ∧ regmust c' = regmust c ∧ regmlen c' = regmlen c.
Definition match_at (c : regexp) (i j : nat) : Prop :=
  alts_matches s r i j ∧ startp c !! 0 = Some (Some i) ∧ endp c !! 0 = Some (Some j).
(** the outcome of a search among the places [P]: the first one with a match *)
Definition searched (P : nat → Prop) (c : regexp) (x : bool * regexp) : Prop :=
  same_notes c x.2 ∧
  if x.1 then ∃ i j, P i ∧ match_at x.2 i j ∧ ∀ i' j', P i' → i' < i → ¬ alts_matches s r i' j'
  else ∀ i j, P i → ¬ alts_matches s r i j.

Lemma same_notes_refl c : same_notes c c.
Proof. done. Qed.
Lemma same_notes_trans c c' c'' : same_notes c c' → same_notes c' c'' → same_notes c c''.
Proof. intros (? & ? & ? & ? & ?) (? & ? & ? & ? & ?). split_and!; congruence. Qed.

Lemma regtry_correct c i : program c = prog → i ≤ len → ∃ x, regtry c s i = Ret x ∧ searched (eq i) c x.
Proof.
  intros Hc Hi. destruct (regmatch_total i Hi) as (o & E & H). unfold regtry. rewrite Hc. unfold start in E. rewrite E.
  cbn [mbind outcome_bind]. eexists. split; [done|]. destruct o as [st|].
  - apply regmatch_places in E as [= E1 E2]. change (length (regstartp st) = NSUBEXP) in E1. change (length (regendp st) = NSUBEXP) in E2. split; [by split_and!|]. cbn. exists i, (reginput st).
    split_and!; [done| |intros; lia]. split_and!; [done|..]; cbn; (rewrite list_lookup_insert_eq; [done|]); unfold NSUBEXP in *; lia.
  - split; [by split_and!|]. cbn. by intros ? j <-.
Qed.
(** a search that goes on where the first attempt fails *)
Lemma searched_first (P Q : nat → Prop) i c x :
  searched (eq i) c x → x.1 = true → P i → (∀ i', P i' → i' < i → ∀ j, ¬ alts_matches s r i' j) → searched P c x.
Proof.
  intros [Hs H] E Hi Hb. split; [done|]. rewrite E in *. destruct H as (? & j & <- & Hm & _). exists i, j. split_and!; [done..|]. eauto.
Qed.
Lemma searched_later (P Q : nat → Prop) c c' x :
  same_notes c c' → searched Q c' x → (∀ i, Q i → P i) → (∀ i, P i → Q i ∨ ∀ j, ¬ alts_matches s r i j) → searched P c x.
Proof.
  intros Hc [Hs H] HQ HP. split; [by eapply same_notes_trans|]. destruct (x.1).
  - destruct H as (i & j & Hi & Hm & Hb). exists i, j. split_and!; [auto|done|]. intros i' j' Hi' Hlt. destruct (HP i' Hi') as [Hq|Hq]; eauto.
  - intros i j Hi. destruct (HP i Hi) as [Hq|Hq]; eauto.
Qed.

Lemma every_loop_correct : ∀ fuel c i, program c = prog → i ≤ len → len < fuel + i →
  ∃ x, every_loop c s fuel i = Ret x ∧ searched (λ k, i ≤ k ≤ len) c x.
Proof.
  induction fuel as [|fuel IH]; intros c i Hc Hi Hf; [lia|]. cbn [every_loop].
  destruct (regtry_correct c i Hc Hi) as ([ok c'] & -> & H). cbn [mbind outcome_bind]. destruct ok.
  { exists (true, c'). split; [done|]. eapply (searched_first _ (eq i)); [exact H|done|lia|intros; lia]. }
  destruct H as [Hs H]. cbn [fst snd] in *. destruct (Nat.ltb_spec i len).
  - destruct (IH c' (S i)) as (x & -> & Hx); [by rewrite (proj1 Hs)|lia|lia|]. exists x. split; [done|].
    eapply searched_later; [done|exact Hx|cbn beta; intros; lia|]. intros k Hk. destruct (decide (k = i)) as [->|]; [right; intros j; by apply H|left; cbn beta in *; lia].
  - exists (false, c'). split; [done|]. split; [done|]. intros k j Hk. cbn in *. replace k with i by lia. by apply H.
Qed.
(** strchr from a place on *)
Lemma strchr_from_Some i c k : strchr_from s i c = Some k → i ≤ k ∧ s !! k = Some c ∧ ∀ k', i ≤ k' < k → s !! k' ≠ Some c.
Proof.
  unfold strchr_from. intros (n & [Hn Ht]%strchr_Some & ->)%fmap_Some. rewrite lookup_drop in Hn. split_and!; [lia|done|].
  intros k' Hk' E. apply Ht. apply list_elem_of_lookup. exists (k' - i). rewrite lookup_take, lookup_drop.
  case_decide; [|lia]. replace (i + (k' - i)) with k' by lia. done.
Qed.
Lemma strchr_from_None i c k : strchr_from s i c = None → i ≤ k → s !! k ≠ Some c.
Proof.
  unfold strchr_from. intros H%fmap_None%strchr_None Hk E. apply H. apply list_elem_of_lookup. exists (k - i).
  rewrite lookup_drop. by replace (i + (k - i)) with k by lia.
Qed.
Lemma start_loop_correct : ∀ fuel c i, program c = prog → begins (λ s, alts_matches s r) (regstart c) → i ≤ len → len < fuel + i →
  ∃ x, start_loop c s fuel i = Ret x ∧ searched (λ k, i ≤ k ≤ len) c x.
Proof.
  induction fuel as [|fuel IH]; intros c i Hc Hb Hi Hf; [lia|]. cbn [start_loop].
  destruct (strchr_from s i (regstart c)) as [k|] eqn:Ek.
  - apply strchr_from_Some in Ek as (Hik & Hk & Hbefore). pose proof (lookup_lt_Some _ _ _ Hk) as Hlt.
    assert (∀ i', i ≤ i' ≤ len → i' < k → ∀ j, ¬ alts_matches s r i' j) as Hno by (intros i' H1 H2 j Hj; apply (Hbefore i'); [lia|by eapply Hb]).
    destruct (regtry_correct c k Hc) as ([ok c'] & -> & H); [lia|]. cbn [mbind outcome_bind]. destruct ok.
    { exists (true, c'). split; [done|]. eapply (searched_first _ (eq k)); [exact H|done|lia|done]. }
    destruct H as [Hs H]. cbn [fst snd] in *. pose proof Hs as (Hp & Hst & _).
    destruct (IH c' (S k)) as (x & -> & Hx); [by rewrite Hp|by rewrite Hst|lia|lia|]. exists x. split; [done|].
    eapply searched_later; [done|exact Hx|cbn beta; intros; lia|]. intros i' Hi'. destruct (Nat.lt_trichotomy i' k) as [|[->|]]; [right; by apply Hno|right; intros j; by apply H|left; cbn beta in *; lia].
  - exists (false, c). split; [done|]. split; [done|]. intros k j Hk Hj. apply (strchr_from_None _ _ k Ek); [lia|by eapply Hb].
Qed.

Lemma must_loop_correct must : must ≠ [] → NUL ∉ must → ∀ fuel i, i ≤ len → len < fuel + i →
  ∃ b, must_loop s must (length must) fuel i = Ret b ∧ (b = false → ∀ k, i ≤ k → ¬ must `prefix_of` drop k s).
Proof.
  intros Hm HN. destruct must as [|c must]; [done|]. apply not_elem_of_cons in HN as [Hc _].
  assert (∀ k, (c :: must) `prefix_of` drop k s → s !! k = Some c) as Hhd
    by (intros k [l Hl]; by rewrite <-(Nat.add_0_r k), <-lookup_drop, Hl).
  assert (∀ i, len < i → strchr_from s i c = None) as Hend.
  { intros i Hi. unfold strchr_from. by rewrite drop_ge by lia. }
  induction fuel as [|fuel IH]; intros i Hi Hf; cbn [must_loop hd]; [lia|].
  destruct (strchr_from s i c) as [k|] eqn:Ek.
  - apply strchr_from_Some in Ek as (Hik & Hk & Hbefore). pose proof (lookup_lt_Some _ _ _ Hk).
    destruct (strncmp (drop k s) (c :: must) (length (c :: must)) =? 0)%Z eqn:E; [by exists true|].
    destruct (IH (S k)) as (b & -> & Hb); [lia|lia|]. exists b. split; [done|]. intros -> k' Hk' Hp.
    destruct (Nat.lt_trichotomy k' k) as [Hlt|[->|Hgt]].
    + apply (Hbefore k'); [lia|by apply Hhd].
    + apply Z.eqb_neq in E. apply E. unfold strncmp. rewrite strcmp_eq, (firstn_all (c :: must)). destruct Hp as [l ->].
      by apply take_app_length.
    + by apply (Hb eq_refl k').
  - exists false. split; [done|]. intros _ k Hk Hp%Hhd. by apply (strchr_from_None _ _ k Ek).
Qed.

Lemma regexec_searches c : notes_ok r c →
  ∃ x, regexec (Some c) (Some s) = Ret (x.1, Some x.2) ∧ searched (λ k, k ≤ len) c x.
Proof.
  intros (Hp & Hst & Han & Hmu). unfold regexec. rewrite Hp. change (rd prog 0) with (Ret (chr MAGIC)). cbn [mbind outcome_bind].
  change (negb (code (chr MAGIC) =? MAGIC)%Z) with false. cbv iota.
  assert (∃ b, match regmust c with None => Ret true | Some p => must ← string_at prog p; must_loop s must (regmlen c) (S len) 0 end = Ret b ∧
    (b = false → ∀ i j, ¬ alts_matches s r i j)) as (b & -> & Hb).
  { destruct (regmust c) as [p|]; [|by exists true]. destruct Hmu as (t & Ht & -> & Hne & HN & Hc). rewrite Hp in Ht. rewrite Ht.
    cbn [mbind outcome_bind]. destruct (must_loop_correct t Hne HN (S len) 0) as (b & E & H); [lia|lia|]. exists b. split; [done|].
    intros Eb i j Hj. destruct (Hc s i j Hj) as [k Hk]. apply (H Eb k); [lia|done]. }
  cbn [mbind outcome_bind]. destruct b; cbn [negb].
  2: { exists (false, c). split; [done|]. split; [done|]. intros i j _. by apply Hb. }
  assert (∃ x, (if reganch c then regtry c s 0
    else if negb (regstart c =c NUL) then start_loop c s (S len) 0 else every_loop c s (S len) 0) = Ret x ∧
    searched (λ k, k ≤ len) c x) as ([ok c'] & -> & H).
  { destruct (reganch c) eqn:Ea.
    - destruct (regtry_correct c 0 Hp) as (x & -> & H); [lia|]. exists x. split; [done|].
      eapply (searched_later _ (eq 0)); [apply same_notes_refl|exact H|cbn beta; intros; lia|]. intros i Hi.
      destruct (decide (i = 0)) as [->|Hn]; [by left|]. right. intros j Hj. apply Hn. by eapply (Han eq_refl).
    - assert (∀ x, searched (λ k, 0 ≤ k ≤ len) c x → searched (λ k, k ≤ len) c x) as Hw.
      { intros x H. eapply searched_later; [apply same_notes_refl|exact H|cbn beta; intros; lia|]. intros k Hk. left. cbn beta in *. lia. }
      destruct (regstart c =c NUL) eqn:Es; cbn [negb].
      + destruct (every_loop_correct (S len) c 0 Hp) as (x & -> & H); [lia|lia|]. exists x. auto.
      + apply char_eqb_neq in Es. destruct (start_loop_correct (S len) c 0 Hp (Hst Es)) as (x & -> & H); [lia|lia|]. exists x. auto. }
  exists (ok, c'). split; [done|done].
Qed.
End Exec.
