(* ===== verification/RegexpMatch.v ===== *)
(** * Regular expressions: the theorems

    What regcomp and regexec do for a pattern, in terms of the expression that
    the grammar finds in it and of what that expression matches. *)

From stdpp Require Import relations.
From S2P Require Import Prelude CLib CString Regexp RegexpSyntax RegexpCompile RegexpExec RegexpFast.

(** ** The grammar does not depend on its fuel *)

Definition extends {A} (o o' : outcome A) : Prop := ∀ x, o = Ret x → o' = Ret x.
Section Mono.
Context (g g' : nat → cstr → outcome (option (alts * nat * cstr))) (Hg : ∀ n l, extends (g n l) (g' n l)).

Lemma parse_atom_mono n l : extends (parse_atom g n l) (parse_atom g' n l).
Proof.
  intros x. unfold parse_atom. destruct l as [|c l]; [done|]. repeat (destruct (c =c _); [done|]).
  destruct (c =c chr 40); [|done]. destruct (_ <=? n); [done|].
  intros (y & E & H)%bind_inv_Ret. by rewrite (Hg _ _ _ E).
Qed.
Lemma parse_piece_mono n l : extends (parse_piece g n l) (parse_piece g' n l).
Proof. intros x. unfold parse_piece. intros (y & E & H)%bind_inv_Ret. by rewrite (parse_atom_mono _ _ _ E). Qed.
Lemma parse_branch_mono : ∀ fuel fuel' n l, fuel ≤ fuel' → extends (parse_branch g fuel n l) (parse_branch g' fuel' n l).
Proof.
  induction fuel as [|fuel IH]; intros [|fuel'] n l Hle x; [done|done|lia|]. cbn [parse_branch]. destruct (ends_branch _); [done|].
  intros (y & E & H)%bind_inv_Ret. rewrite (parse_piece_mono _ _ _ E). cbn [mbind outcome_bind]. destruct y as [[[p n'] l']|]; [|done].
  apply bind_inv_Ret in H as (z & Ez & H). rewrite (IH fuel' n' l' ltac:(lia) _ Ez). done.
Qed.
Lemma parse_alts_mono : ∀ fuel fuel' n l, fuel ≤ fuel' → extends (parse_alts g fuel n l) (parse_alts g' fuel' n l).
Proof.
  induction fuel as [|fuel IH]; intros [|fuel'] n l Hle x; [done|done|lia|]. cbn [parse_alts].
  intros (y & E & H)%bind_inv_Ret. rewrite (parse_branch_mono _ _ _ _ (le_n _) _ E). cbn [mbind outcome_bind].
  destruct y as [[[b n'] l']|]; [|done]. destruct (_ || _); [|done].
  apply bind_inv_Ret in H as (z & Ez & H). rewrite (IH fuel' n' (tl l') ltac:(lia) _ Ez). done.
Qed.
End Mono.
Lemma parse_group_mono : ∀ d d' n l, d ≤ d' → extends (parse_group d n l) (parse_group d' n l).
Proof.
  induction d as [|d IH]; intros [|d'] n l Hle x; [done|done|lia|]. cbn [parse_group].
  intros (y & E & H)%bind_inv_Ret. erewrite (parse_alts_mono (parse_group d) (parse_group d')); [exact H| |done|exact E].
  intros n' l'. apply IH. lia.
Qed.

(** ** Whether an expression occurs in a string *)

Definition occurs (r : alts) (s : cstr) : Prop := ∃ i j, i ≤ length s ∧ alts_matches s r i j.

(** the piece ".*", which regcomp leaves out in front *)
Definition anything : piece := Mult Any Star.
Definition after_anything (b : branch) : branch := match b with Empty => Last anything | _ => Seq anything b end.
Definition with_anything (r : alts) : alts :=
  match r with One b => One (after_anything b) | Alt b r => Alt (after_anything b) r end.

Lemma anything_matches s i j : i ≤ j ≤ length s → rtc (atom_matches s Any) i j.
Proof.
  intros [Hij Hj]. induction Hij as [|j Hij IH]; [done|]. eapply rtc_r; [apply IH; lia|]. cbn. lia.
Qed.
Lemma anything_le s i j : i ≤ length s → rtc (atom_matches s Any) i j → i ≤ j ≤ length s.
Proof. intros Hi H. induction H as [|i k j [Hk ->] _ IH]; [lia|]. lia. Qed.
Lemma after_anything_matches s b i j :
  i ≤ length s → branch_matches s (after_anything b) i j ↔ ∃ k, i ≤ k ≤ length s ∧ branch_matches s b k j.
Proof.
  intros Hi. assert (branch_matches s (after_anything b) i j ↔ ∃ k, rtc (atom_matches s Any) i k ∧ branch_matches s b k j) as ->.
  { destruct b; cbn [after_anything branch_matches piece_matches anything repeated]; [|done..].
    split; [eauto|by intros (k & H & <-)]. }
  split; intros (k & H & ?); exists k; (split; [|done]); [by apply anything_le|by apply anything_matches].
Qed.
Lemma occurs_with_anything r s : occurs (with_anything r) s ↔ occurs r s.
Proof.
  unfold occurs. destruct r as [b|b r]; cbn [with_anything alts_matches]; (split; intros (i & j & Hi & H)).
  - apply after_anything_matches in H as (k & ? & ?); [|done]. exists k, j. split; [lia|done].
  - exists i, j. split; [done|]. apply after_anything_matches; [done|]. by exists i.
  - destruct H as [H|H]; [|by eauto 6]. apply after_anything_matches in H as (k & ? & ?); [|done]. exists k, j. split; [lia|by left].
  - exists i, j. split; [done|]. destruct H as [H|H]; [left|by right]. apply after_anything_matches; [done|]. by exists i.
Qed.

(** the grammar of a pattern that begins with ".*" *)
Lemma parse_anything rest x : parse rest = Ret x → parse (chr 46 :: chr 42 :: rest) = Ret (option_map with_anything x).
Proof.
  unfold parse. intros (y & E & Hx)%bind_inv_Ret. set (exp := chr 46 :: chr 42 :: rest).
  assert (∀ n l, extends (parse_group (length rest) n l) (parse_group (length exp) n l)) as Hg
    by (intros n l; apply parse_group_mono; cbn; lia).
  assert (∀ g f n, parse_branch g (S f) n exp =
    if ISMULT (hd NUL rest) then Ret None
    else x ← parse_branch g f n rest; Ret match x with
      | Some (b, n, l) => Some (after_anything b, n, l) | None => None end) as Hb.
  { intros g f n. cbn [parse_branch]. change (ends_branch (hd NUL exp)) with false. cbv iota.
    assert (parse_piece g n exp = Ret (if ISMULT (hd NUL rest) then None else Some (anything, n, rest))) as -> by done.
    cbn [mbind outcome_bind]. destruct (ISMULT _); [done|]. destruct (parse_branch g f n rest) as [[[[b n'] l]|]| |]; by try destruct b. }
  cbn [parse_alts] in E |- *. rewrite Hb. destruct (ISMULT (hd NUL rest)) eqn:Em.
  - assert (parse_branch (parse_group (length rest)) (S (length rest)) 1 rest = Ret None) as Hn.
    { destruct rest as [|c rest]; [done|]. cbn [hd] in Em. cbn [parse_branch hd].
      assert (c = chr 42 ∨ c = chr 43 ∨ c = chr 63) as Hc.
      { unfold ISMULT in Em. rewrite !orb_true_iff, !char_eqb_eq in Em. tauto. }
      destruct Hc as [->|[->| ->]]; done. }
    rewrite Hn in E. apply Ret_inj in E as <-. by apply Ret_inj in Hx as <-.
  - apply bind_inv_Ret in E as (z & Ez & E).
    rewrite (parse_branch_mono _ _ Hg (S (length rest)) (length exp) 1 rest ltac:(cbn; lia) _ Ez). cbn [mbind outcome_bind].
    destruct z as [[[b n'] l']|]; [|by apply Ret_inj in E as <-; apply Ret_inj in Hx as <-].
    destruct (_ || _).
    + apply bind_inv_Ret in E as (z & Ez' & E). rewrite (parse_alts_mono _ _ Hg (length rest) (length exp) n' (tl l') ltac:(cbn; lia) _ Ez').
      cbn [mbind outcome_bind]. apply Ret_inj in E as <-. apply Ret_inj in Hx as <-. by destruct z as [[[r n''] [|? ?]]|].
    + apply Ret_inj in E as <-. apply Ret_inj in Hx as <-. by destruct l'.
Qed.
Lemma parse_aid_grep exp : NUL ∉ exp → ∃ x y, parse exp = Ret x ∧ parse (aid_grep exp) = Ret y ∧
  ∀ s, (∃ r, x = Some r ∧ occurs r s) ↔ ∃ r, y = Some r ∧ occurs r s.
Proof.
  intros HN. destruct (parse_total exp 0 HN) as [x Ex]. destruct (decide (aid_grep exp = exp)) as [->|Hne]; [by exists x, x; split_and!|].
  destruct exp as [|c1 [|c2 rest]]; [done..|]. cbn [aid_grep] in *. destruct ((c1 =c chr 46) && (c2 =c chr 42)) eqn:E; [|done].
  apply andb_true_iff in E as [->%char_eqb_eq ->%char_eqb_eq]. apply not_elem_of_cons in HN as [_ [_ HN]%not_elem_of_cons].
  clear Ex x Hne. destruct (parse_total rest 0 HN) as [y Ey]. exists (option_map with_anything y), y. split_and!; [by apply parse_anything|done|].
  intros s. destruct y as [r|]; cbn; [|split; by intros (? & ? & _)]. split.
  - intros (? & [= <-] & H). exists r. split; [done|]. by apply (proj1 (occurs_with_anything r s)).
  - intros (? & [= <-] & H). exists (with_anything r). split; [done|]. by apply occurs_with_anything.
Qed.

(** ** Compiling and matching *)

(** a decidable fact about concrete strings *)
Ltac by_decision := apply (bool_decide_unpack _); by vm_compute.

Notation fits r := ((Z.of_nat (program_size r) < 32767)%Z).
(** the distances in a program have two bytes *)
Definition too_big (r : alts) : bool := (32767 <=? Z.of_nat (program_size r))%Z.

Lemma regcomp_notes exp r : NUL ∉ exp → parse (aid_grep exp) = Ret (Some r) → fits r →
  alts_ok r ∧ ∃ c, regcomp (λ _, true) (Some exp) = Ret (Some c) ∧ notes_ok r c.
Proof.
  intros HN Hp Hs. destruct (regcomp_code (λ _, true) exp HN) as (x & E & H). rewrite Hp in E. apply Ret_inj in E as <-.
  destruct H as [Hr (f & _ & ->)]. split; [done|]. destruct (Z.leb_spec 32767 (Z.of_nat (program_size r))); [lia|]. cbn [orb negb].
  destruct (optimise_ok r Hr Hs f) as (c & -> & Hc). by exists c.
Qed.
Lemma notes_ok_same r c c' : notes_ok r c → same_notes c c' → notes_ok r c'.
Proof. unfold notes_ok. intros H (E1 & E2 & E3 & E4 & E5). by rewrite E1, E2, E3, E4, E5. Qed.
(** a pattern that the grammar accepts *)
Lemma matches_parsed exp r s : NUL ∉ exp → NUL ∉ s → parse (aid_grep exp) = Ret (Some r) → fits r →
  ∃ b, matches exp s = Ret b ∧ (b = true ↔ occurs r s).
Proof.
  intros HN Hs Hp Hf. destruct (regcomp_notes exp r HN Hp Hf) as (Hr & c & Ec & Hc).
  destruct (regexec_searches r Hr Hf s Hs c Hc) as ([b c'] & Ex & _ & H). exists b. unfold matches. rewrite Ec. cbn [mbind outcome_bind].
  rewrite Ex. split; [done|]. cbn in H. destruct b.
  - split; [|done]. intros _. destruct H as (i & j & Hi & (Hm & _) & _). by exists i, j.
  - split; [done|]. intros (i & j & Hi & Hm). by destruct (H i j Hi).
Qed.
Lemma matches_rejected exp s : NUL ∉ exp → parse (aid_grep exp) = Ret None → matches exp s = Ret false.
Proof.
  intros HN Hp. destruct (regcomp_code (λ _, true) exp HN) as (x & E & H). rewrite Hp in E. apply Ret_inj in E as <-.
  unfold matches. by rewrite H.
Qed.

(** what regcomp gives is the program of an expression *)
Lemma compiled_notes malloc_ok exp c : NUL ∉ exp → regcomp malloc_ok (Some exp) = Ret (Some c) →
  ∃ r, parse (aid_grep exp) = Ret (Some r) ∧ alts_ok r ∧ fits r ∧ notes_ok r c.
Proof.
  intros HN Ec. destruct (regcomp_code malloc_ok exp HN) as (x & E & H). destruct x as [r|]; [|congruence].
  destruct H as [Hr (f & _ & H)]. rewrite Ec in H. destruct (Z.leb_spec 32767 (Z.of_nat (program_size r))); [done|].
  cbn [orb] in H. destruct (negb _); [done|].
  destruct (optimise_ok r Hr ltac:(lia) f) as (c' & E' & Hc). rewrite E' in H. injection H as ->. exists r. by split_and!.
Qed.
Lemma matches_too_big exp r s : NUL ∉ exp → parse (aid_grep exp) = Ret (Some r) → too_big r = true → matches exp s = Ret false.
Proof.
  intros HN Hp Hb. destruct (regcomp_code (λ _, true) exp HN) as (x & E & H). rewrite Hp in E. apply Ret_inj in E as <-.
  destruct H as [_ (f & _ & H)]. unfold too_big in Hb. rewrite Hb in H. cbn [orb] in H. unfold matches. by rewrite H.
Qed.

(** Where the expressions are not those of the manual page regexp.3.  There a
    backslash makes any character stand for itself, and newlines do not separate
    branches; here \< matches in front of a word, \> wherever no character of a
    word follows (the list of the opcodes in regexp.c wants one in front of the
    place, regmatch does not), and a newline is like a bar.  And the ".*" that
    regcomp leaves out at the beginning is missing from what startp and endp
    tell of the match of the whole expression. *)
Example manual_differs :
  matches ($"\<") ($"<") = Ret false ∧ matches ($"\<a") ($"a") = Ret true ∧
  matches ($"^\>$") [] = Ret true ∧ matches ($" \> ") ($"  ") = Ret true ∧
  matches ($"a" ++ [NL] ++ $"b") ($"b") = Ret true ∧ matches ($"a" ++ [NL] ++ $"b") ($"a") = Ret true ∧
  (c ← regcomp (λ _, true) (Some $".*b"); '(ok, c) ← regexec c (Some $"ab"); Ret (ok, c ≫= λ c, startp c !! 0))
  = Ret (true, Some (Some 1)).
Proof. split_and!; vm_compute; reflexivity. Qed.

(** C11: regcomp compiles every pattern: it rejects exactly what the grammar
    ([parse]) rejects, programs of 32767 bytes or more, and what there is no
    memory for; else the program is the one of the expression that the grammar
    finds, as long as the first pass has counted and never written beyond what
    was allocated for it, and what is noted to find a match sooner holds of
    every match.  The grammar is the one of the code.  It is not the one of
    regexp.3: \< and \> are places in a string, not the characters < and >, and
    a newline separates branches (see [manual_differs]). *)
Theorem regcomp_correct malloc_ok exp : NUL ∉ exp →
  ∃ x, parse (aid_grep exp) = Ret x ∧
  match x with
  | None => regcomp malloc_ok (Some exp) = Ret None
  | Some r =>
      alts_ok r ∧
      if too_big r || negb (malloc_ok (Z.of_nat (program_size r)))
      then regcomp malloc_ok (Some exp) = Ret None
      else ∃ c, regcomp malloc_ok (Some exp) = Ret (Some c) ∧ program c = program_code r ∧
        length (program c) = program_size r ∧ notes_ok r c
  end.
Proof.
  intros HN. destruct (regcomp_code malloc_ok exp HN) as (x & E & H). exists x. split; [done|]. destruct x as [r|]; [|done].
  destruct H as [Hr (f & _ & ->)]. split; [done|]. unfold too_big. destruct (_ || _) eqn:Eb; [done|]. apply orb_false_iff in Eb as [Hs%Z.leb_gt _].
  destruct (optimise_ok r Hr Hs f) as (c & -> & Hc). exists c. split_and!; [done|apply Hc| |done].
  destruct Hc as [-> _]. apply program_length.
Qed.
Lemma regcomp_correct_witness : ∃ r c, parse (aid_grep ($"^([a-z]+[.]|b)*$")) = Ret (Some r) ∧
  regcomp (λ _, true) (Some ($"^([a-z]+[.]|b)*$")) = Ret (Some c) ∧ program c = program_code r ∧ length (program c) = program_size r.
Proof.
  destruct (regcomp_correct (λ _, true) ($"^([a-z]+[.]|b)*$")) as (x & E & H); [by_decision|].
  destruct x as [r|]; [|clear H; by vm_compute in E]. destruct H as [_ H].
  assert (too_big r = false) as Es by (vm_compute in E; injection E as <-; by vm_compute).
  rewrite Es in H. destruct H as (c & Ec & Hp & Hl & _). exists r, c.
  split; [exact E|]. split; [exact Ec|]. split; [exact Hp|exact Hl].
Defined.

(** C12: a pattern that regcomp has compiled, and that may have been used
    before: regexec finds a match if there is one anywhere in the string, and
    the leftmost one; it reports where the match begins and ends.  The compiled
    pattern can be used again afterwards: its program and its notes are
    unchanged.  What is matched is the expression of the code: \> matches at
    every place that no character of a word follows, whatever comes before it,
    though the list of the opcodes says that a character of a word does; and a
    ".*" at the beginning of the pattern is not part of it, so that the match
    that is reported begins behind what the ".*" stands for. *)
Theorem regexec_correct malloc_ok exp c0 c s : NUL ∉ exp → NUL ∉ s →
  regcomp malloc_ok (Some exp) = Ret (Some c0) → same_notes c0 c →
  ∃ r, parse (aid_grep exp) = Ret (Some r) ∧
  ∃ ok c', regexec (Some c) (Some s) = Ret (ok, Some c') ∧ same_notes c0 c' ∧
  if ok : bool then
    ∃ i j, i ≤ length s ∧ alts_matches s r i j ∧ startp c' !! 0 = Some (Some i) ∧ endp c' !! 0 = Some (Some j) ∧
      ∀ i' j', i' < i → ¬ alts_matches s r i' j'
  else ¬ occurs r s.
Proof.
  intros HN Hs Ec Hsame. destruct (compiled_notes malloc_ok exp c0 HN Ec) as (r & Hp & Hr & Hf & Hc). exists r. split; [done|].
  destruct (regexec_searches r Hr Hf s Hs c (notes_ok_same r c0 c Hc Hsame)) as ([b c'] & Ex & Hn & H). exists b, c'. cbn in *.
  split_and!; [done|by eapply same_notes_trans|]. destruct b.
  - destruct H as (i & j & Hi & (Hm & Hst & Hen) & Hb). exists i, j. split_and!; [done..|]. intros i' j' Hlt. apply Hb; [lia|done].
  - intros (i & j & Hi & Hm). by destruct (H i j Hi).
Qed.
Lemma regexec_correct_witness : ∃ c c', regcomp (λ _, true) (Some ($"b+")) = Ret (Some c) ∧
  regexec (Some c) (Some ($"abba")) = Ret (true, Some c') ∧
  ∃ r i j, parse ($"b+") = Ret (Some r) ∧ alts_matches ($"abba") r i j ∧ startp c' !! 0 = Some (Some i) ∧ endp c' !! 0 = Some (Some j) ∧
    ∀ i' j', i' < i → ¬ alts_matches ($"abba") r i' j'.
Proof.
  destruct (regcomp (λ _, true) (Some ($"b+"))) as [[c|]| |] eqn:Ec; [|vm_compute in Ec; discriminate Ec..]. exists c.
  destruct (regexec_correct (λ _, true) ($"b+") c c ($"abba")) as (r & Hp & ok & c' & E & _ & H); [by_decision|by_decision|exact Ec|apply same_notes_refl|].
  assert (ok = true) as ->.
  { vm_compute in Ec. injection Ec as <-. vm_compute in E. by injection E as <- _. }
  exists c'. split; [reflexivity|]. split; [exact E|]. destruct H as (i & j & _ & H). exists r, i, j. split; [exact Hp|exact H].
Defined.

(** C10: a pattern matches exactly the strings in which the expression it stands
    for occurs, if the program that is left to match, without a ".*" at the
    beginning, has less than 32767 bytes; a longer one matches nothing.  So
    neither the ".*" that regcomp drops in front nor the notes nor the order of
    the attempts matter, and no pattern makes regcomp or regexec fail otherwise.
    The expression ([parse]) and what it matches ([alts_matches]) are those of
    the code, and differ from regexp.3: \< and \> are the beginning of a word and
    any place before what is not in a word, and newlines separate branches (see
    [manual_differs]). *)
Theorem matches_correct exp s : NUL ∉ exp → NUL ∉ s →
  ∃ x y b, parse exp = Ret x ∧ parse (aid_grep exp) = Ret y ∧ matches exp s = Ret b ∧
  (b = true ↔ (∃ r, x = Some r ∧ occurs r s) ∧ ∀ r, y = Some r → fits r).
Proof.
  intros HN Hs. destruct (parse_aid_grep exp HN) as (x & y & Ex & Ey & H). exists x, y.
  destruct y as [r|].
  - destruct (too_big r) eqn:Hb.
    + exists false. split_and!; [done..|by eapply matches_too_big|]. split; [done|]. intros [_ Hf]. specialize (Hf r eq_refl).
      apply Z.leb_le in Hb. lia.
    + apply Z.leb_gt in Hb. destruct (matches_parsed exp r s HN Hs Ey Hb) as (b & Eb & Hm). exists b. split_and!; [done..|].
      rewrite Hm, H. split; [intros Ho; split; [by exists r|by intros ? [= <-]]|by intros [(r' & [= <-] & Ho) _]].
  - exists false. split_and!; [done..|by apply matches_rejected|]. rewrite H. split; [done|by intros [(? & ? & _) _]].
Qed.
Lemma matches_correct_witness : matches ($".*a(b|c)") ($"xac") = Ret true ∧
  ∃ r, parse ($".*a(b|c)") = Ret (Some r) ∧ occurs r ($"xac").
Proof.
  destruct (matches_correct ($".*a(b|c)") ($"xac")) as (x & y & b & Ex & Ey & Eb & H); [by_decision|by_decision|].
  assert (b = true) as -> by (vm_compute in Eb; by injection Eb as <-). split; [exact Eb|].
  destruct (proj1 H eq_refl) as [(r & -> & Ho) _]. exists r. split; [exact Ex|exact Ho].
Defined.

(** ** A pattern as a test of strings

    The callers compile a pattern once and ask whether it matches. *)

Definition re_match (re s : cstr) : bool := match matches re s with Ret b => b | _ => false end.

Lemma re_match_parsed exp r s : NUL ∉ exp → NUL ∉ s → parse (aid_grep exp) = Ret (Some r) → fits r →
  re_match exp s = true ↔ occurs r s.
Proof. intros HN Hs Hp Hf. unfold re_match. by destruct (matches_parsed exp r s HN Hs Hp Hf) as (b & -> & Hb). Qed.
Lemma re_match_rejected exp s : NUL ∉ exp → parse (aid_grep exp) = Ret None → re_match exp s = false.
Proof. intros HN Hp. unfold re_match. by rewrite matches_rejected. Qed.

(** repetitions of a character class *)
Lemma class_plus s cp set i j : tc (atom_matches s (Class cp set)) i j →
  i < j ∧ ∀ k, i ≤ k < j → ∃ c, s !! k = Some c ∧ (if cp then c ∉ set else c ∈ set).
Proof.
  induction 1 as [i j (c & Hc & Hs & ->)|i m j (c & Hc & Hs & ->) _ [IH1 IH2]].
  - split; [lia|]. intros k Hk. replace k with i by lia. by exists c.
  - split; [lia|]. intros k Hk. destruct (decide (k = i)) as [->|]; [by exists c|]. apply IH2. lia.
Qed.
Lemma class_star s cp set i j : rtc (atom_matches s (Class cp set)) i j →
  i ≤ j ∧ ∀ k, i ≤ k < j → ∃ c, s !! k = Some c ∧ (if cp then c ∉ set else c ∈ set).
Proof.
  intros [->|H]%rtc_tc; [split; [lia|lia]|]. apply class_plus in H as [H1 H2]. split; [lia|done].
Qed.
Lemma exact_at s t i j : atom_matches s (Exact t) i j → j = i + length t ∧ ∀ k c, t !! k = Some c → s !! (i + k) = Some c.
Proof. intros [[l Hl] ->]. split; [done|]. intros k c Hk. rewrite <-lookup_drop, Hl. by apply lookup_app_l_Some. Qed.

(** the characters of a class that is written in brackets *)
Definition class_of (l : cstr) : cstr := match class_set (l ++ [chr 93]) with Some (set, _) => set | None => [] end.
Definition some_of (l : cstr) : piece := Mult (Class false (class_of l)) Plus.
Definition any_of (l : cstr) : piece := Mult (Class false (class_of l)) Star.
Definition group (no : nat) (p : piece) : piece := Plain (Group no (One (Last p))).
Definition literal (t : cstr) : piece := Plain (Exact t).

Lemma group_matches s no p i j : piece_matches s (group no p) i j ↔ piece_matches s p i j.
Proof. done. Qed.
Lemma some_of_matches s l i j : piece_matches s (some_of l) i j → i < j ∧ ∀ k, i ≤ k < j → ∃ c, s !! k = Some c ∧ c ∈ class_of l.
Proof. apply class_plus. Qed.
Lemma any_of_matches s l i j : piece_matches s (any_of l) i j → i ≤ j ∧ ∀ k, i ≤ k < j → ∃ c, s !! k = Some c ∧ c ∈ class_of l.
Proof. apply class_star. Qed.
Lemma literal_matches s t i j : piece_matches s (literal t) i j → j = i + length t ∧ ∀ k c, t !! k = Some c → s !! (i + k) = Some c.
Proof. apply exact_at. Qed.
(** two runs of characters from one place up to a character that is in neither class *)
Lemma runs_end (s : cstr) i j j' c (set set' : cstr) :
  (∀ k, i ≤ k < j → ∃ c, s !! k = Some c ∧ c ∈ set) → (∀ k, i ≤ k < j' → ∃ c, s !! k = Some c ∧ c ∈ set') →
  i ≤ j → i ≤ j' → s !! j = Some c → s !! j' = Some c → c ∉ set → c ∉ set' → j = j'.
Proof.
  intros H H' Hi Hi' Hj Hj' Hc Hc'. destruct (Nat.lt_trichotomy j j') as [Hlt|[?|Hlt]]; [|done|].
  - destruct (H' j) as (x & Hx & Hin); [lia|]. congruence.
  - destruct (H j') as (x & Hx & Hin); [lia|]. congruence.
Qed.
