(* ===== verification/ConfigFile.v ===== *)
(** * Configuration files: lines of tags and values

    The readers of the configuration (directive_conf.c, attributes.c, schema.c,
    auth_area.c) go through a file with readline and take each line apart with
    parse_line, into two arrays of MAX_TEMPLATE_DESC bytes.  The file is the
    list of the lines that readline gives; what the writers print is read back
    tag by tag. *)

From S2P Require Import Prelude CLib CString Misc IpNetwork Types Stdio Records FileInfo.

Definition MAX_TEMPLATE_DESC : nat := 256.

(** the lines from a position to the end of the file, read into an array of [size] bytes *)
Fixpoint lines_loop (size fuel : nat) (f : cstr) (pos : nat) : outcome (list cstr) :=
  match fuel with
  | O => NoFuel
  | S fuel =>
      match readline f pos size with
      | None => Ret []
      | Some (line, pos) => ls ← lines_loop size fuel f pos; Ret (line :: ls)
      end
  end.
Definition lines_in (size : nat) (f : cstr) : outcome (list cstr) := lines_loop size (S (length f)) f 0.
Definition lines_of (f : cstr) : outcome (list cstr) := lines_in MAX_LINE f.
(** the size of the arrays of some readers *)
Definition BUFSIZ : nat := Z.to_nat 8192.

(** parse_line with arrays of MAX_TEMPLATE_DESC bytes: what stands before the
    colon is copied whole before the white space behind it goes *)
Definition config_line (line : cstr) : outcome (option (cstr * cstr)) :=
  match parse_line (Some line) with
  | None => Ret None
  | Some (tag, datum) =>
      if decide (default 0 (strchr line (chr 58)) < MAX_TEMPLATE_DESC ∧ length datum < MAX_TEMPLATE_DESC)%nat
      then Ret (Some (tag, datum)) else Fault
  end.
(** new_record as a test *)
Definition is_separator (line : cstr) : bool := (new_record (Some line)).1.

(** what the examin functions find wrong (log.h); 0, nothing, is [None] *)
Inductive examin_error :=
| ERW_NOFILE | ERW_NOPROG | ERW_NODIR | ERW_FMTFILE | ERW_FMTDIR | ERW_UNDROOT | ERW_NDEF | ERW_IDSTR | ERW_EMTYSTR
| ERW_FMTSERV | ERW_NUMSTR | ERW_FMTMAIL | ERW_SPACESTR | ERW_SHORTSTR | ERW_LONGSTR | ERW_XPRESTR | ERW_EXEPROG
| ERW_WTRDIR | ERW_LENSTR | ERW_DNSSTR | ERW_PUNTSTR | ERW_NUMVAL | ERW_NUMRANGE | ERW_FILEWSN | ERW_DIRWSN.
#[export] Instance examin_error_eq : EqDecision examin_error.
Proof. solve_decision. Defined.
(** nothing is wrong *)
Definition fine (e : option examin_error) : bool := bool_decide (e = None).

(** a line that a writer prints: the tag, a colon, blanks, the value *)
Definition field (tag : cstr) (pad : nat) (d : cstr) : cstr := tag ++ chr 58 :: replicate pad SP ++ d.

(** ** Reading files to their end *)

Lemma lines_in_total size f : (1 < size)%nat → ∃ ls, lines_in size f = Ret ls.
Proof.
  intros Hs. unfold lines_in.
  assert (∀ fuel pos, (length f - pos < fuel)%nat → ∃ ls, lines_loop size fuel f pos = Ret ls) as H.
  { induction fuel as [|fuel IH]; intros pos Hf; [lia|]. cbn [lines_loop]. unfold readline.
    destruct (fgets f pos size) as [[l pos']|] eqn:E; [|by eexists].
    apply fgets_progress in E; [|done]. destruct (IH pos') as [ls ->]; [lia|]. by eexists. }
  apply H. lia.
Qed.
Lemma lines_of_total f : ∃ ls, lines_of f = Ret ls.
Proof. apply lines_in_total. unfold MAX_LINE. lia. Qed.

Lemma lines_in_text size ls :
  Forall (λ l, is_line l ∧ (length l + 1 < size)%nat) ls → lines_in size (text ls) = Ret (clean <$> ls).
Proof.
  intros Hls. unfold lines_in.
  assert (∀ n fuel i, (length ls - i = n)%nat → (n < fuel)%nat →
    lines_loop size fuel (text ls) (start ls i) = Ret (clean <$> drop i ls)) as H.
  { induction n as [|n IH]; intros [|fuel] i Hn Hf; [lia| |lia|]; cbn [lines_loop].
    - rewrite drop_ge by lia. assert (start ls i = start ls (length ls)) as ->
        by (unfold start; by rewrite !take_ge by lia). by rewrite readline_end.
    - destruct (lookup_lt_is_Some_2 ls i) as [l Hl]; [lia|].
      rewrite Forall_lookup in Hls. destruct (Hls _ _ Hl) as [H1 H2].
      rewrite (readline_line _ _ _ _ Hl H1 H2), (IH fuel (S i)) by lia. cbn [mbind outcome_bind].
      by rewrite (drop_S _ _ _ Hl). }
  rewrite <-(start_0 ls). rewrite (H (length ls)); [by rewrite drop_0|lia|].
  pose proof (text_length ls). lia.
Qed.
Lemma lines_of_text ls :
  Forall (λ l, is_line l ∧ (length l + 1 < MAX_LINE)%nat) ls → lines_of (text ls) = Ret (clean <$> ls).
Proof. apply lines_in_text. Qed.

(** ** Reading fields *)

Lemma good_tag_chars tag :
  good_tag tag = true → ∃ c tag', tag = c :: tag' ∧ isalpha c = true ∧
    Forall (λ c, iscntrl c = false ∧ c ≠ chr 58) tag ∧ rtrim_s tag = tag.
Proof.
  unfold good_tag. rewrite !andb_true_iff, bool_decide_eq_true. intros [[Ha Hall] Hr].
  destruct tag as [|c tag]; [done|]. exists c, tag. split_and!; [done..| |done].
  apply Forall_forall. intros x Hin. rewrite forallb_forall in Hall.
  specialize (Hall x ltac:(by apply list_elem_of_In)).
  by rewrite andb_true_iff, !negb_true_iff, char_eqb_neq in Hall.
Qed.

Lemma field_read tag pad d :
  good_tag tag = true → clean_datum d →
  (length tag < MAX_TEMPLATE_DESC)%nat → (length d < MAX_TEMPLATE_DESC)%nat →
  clean (field tag pad d) = field tag pad d ∧ is_separator (field tag pad d) = false ∧
  config_line (field tag pad d) = Ret (Some (tag, d)).
Proof.
  intros Hg (Hne & Hc & Hl & Hrd) Ht Hd. destruct (good_tag_chars _ Hg) as (c & tag' & -> & Ha & Hch & Hr).
  destruct (head_not_space_alpha c Ha) as (Hsp & H1 & H2 & H3 & H4).
  assert (chr 58 ∉ c :: tag') as Hcol by (intros Hin; rewrite Forall_forall in Hch; by destruct (Hch _ Hin)).
  assert (Forall (λ c, iscntrl c = false) (field (c :: tag') pad d)) as Hctl.
  { apply Forall_app. split; [eapply Forall_impl; [done|by intros ? []]|]. constructor; [done|].
    apply Forall_app. split; [by apply Forall_replicate|done]. }
  split_and!.
  - unfold clean. rewrite strip_control_clean by done. unfold trim_s, field.
    assert ((c :: tag') ++ chr 58 :: replicate pad SP ++ d = ((c :: tag') ++ chr 58 :: replicate pad SP) ++ d) as ->
      by (by rewrite <-app_assoc).
    rewrite rtrim_app by done. unfold ltrim_s. cbn [app dropwhile]. by rewrite Hsp.
  - unfold is_separator, new_record, field. cbn [app].
    assert (∀ t, stripchar_s NL (c :: t) = c :: stripchar_s NL t) as ->.
    { intros t. unfold stripchar_s. rewrite filter_cons_True; [done|]. apply negb_true_iff, char_eqb_neq. by intros ->. }
    cbn [fst]. apply orb_false_iff. split; apply bool_decide_eq_false; intros E%(f_equal (hd NUL));
      [by apply H1|by apply H2].
  - unfold config_line.
    destruct (parse_line_spec (c :: tag') [] (replicate pad SP) d) as [E _]; [done..|constructor|by apply Forall_replicate|].
    cbn [app] in E. unfold field. cbn [app]. rewrite E, bool_decide_eq_false_2;
      [|unfold ltrim_s; cbn [dropwhile]; rewrite Hsp; by intros [= E']].
    pose proof (strchr_app (c :: tag') (replicate pad SP ++ d) _ Hcol) as Es. cbn [app] in Es.
    rewrite Es. by rewrite decide_True.
Qed.

Lemma field_line tag pad d :
  good_tag tag = true → clean_datum d → is_line (field tag pad d).
Proof.
  intros Hg (Hne & Hc & _). destruct (good_tag_chars _ Hg) as (c & tag' & -> & _ & Hch & _).
  apply cntrl_NUL_NL. apply Forall_app. split; [eapply Forall_impl; [done|by intros ? []]|]. constructor; [done|].
  apply Forall_app. split; [by apply Forall_replicate|done].
Qed.

(** a value that fits into a line and is read back as it is *)
Definition short_datum (d : cstr) : Prop := clean_datum d ∧ (length d < MAX_TEMPLATE_DESC)%nat.
#[export] Instance short_datum_dec d : Decision (short_datum d).
Proof. unfold short_datum. apply _. Defined.
Definition good_field (td : cstr * cstr) : Prop := good_tag td.1 = true ∧ (length td.1 < 20)%nat ∧ short_datum td.2.

Lemma good_field_read td :
  good_field td →
  clean (field td.1 1 td.2) = field td.1 1 td.2 ∧ is_separator (field td.1 1 td.2) = false ∧
  config_line (field td.1 1 td.2) = Ret (Some td).
Proof.
  destruct td as [t d]. intros (Ht & Hlen & Hd & Hd'). cbn [fst snd] in *.
  apply field_read; [done..|unfold MAX_TEMPLATE_DESC; lia|done].
Qed.
Lemma good_field_lines l :
  Forall good_field l → Forall (λ l, is_line l ∧ (length l + 1 < MAX_LINE)%nat) ((λ td, field td.1 1 td.2) <$> l).
Proof.
  intros H. apply Forall_fmap. eapply Forall_impl; [exact H|].
  intros [t d] (Ht & Hlen & Hd & Hd'). cbn [fst snd] in *. split; [by apply field_line|].
  cbn [fst snd]. unfold field. rewrite length_app. cbn [length]. rewrite length_app, length_replicate.
  unfold MAX_TEMPLATE_DESC in Hd'. unfold MAX_LINE. lia.
Qed.
