(* ===== verification/Directives.v ===== *)
(** * Directives (common/directive_conf.c, server/directive.c)

    The list of the directives that the server knows, its files, and the
    dispatch of a line of the session to one of them.  A node of the list whose
    data has been destroyed is [None]. *)

From S2P Require Import Prelude CLib CString Misc IpNetwork Types Stdio Records FileInfo ConfigFile.
Local Open Scope Z_scope.

(** the functions of server/ that directives run *)
Inductive directive_function :=
| class_directive | directive_directive | display_directive | forward_directive | holdconnect_directive
| limit_directive | security_directive | notify_directive | quit_directive | register_directive
| rwhois_directive | schema_directive | soa_directive | status_directive | xfer_directive.
#[export] Instance directive_function_eq : EqDecision directive_function.
Proof. solve_decision. Defined.

Record directive_struct := Directive {
  d_len : Z; disabled_flag : bool; cap_bit : Z; d_function : option directive_function;
  d_name : cstr; d_description : option cstr; d_program : option cstr }.
#[export] Instance directive_struct_eq : EqDecision directive_struct.
Proof. solve_decision. Defined.
Definition with_disabled (flag : bool) (d : directive_struct) : directive_struct :=
  Directive (d_len d) flag (cap_bit d) (d_function d) (d_name d) (d_description d) (d_program d).
Definition with_function (f : directive_function) (d : directive_struct) : directive_struct :=
  Directive (d_len d) (disabled_flag d) (cap_bit d) (Some f) (d_name d) (d_description d) (d_program d).

Abbreviation directive_list := (list (option directive_struct)).

(** ** The list *)

Definition find_cap (directive : cstr) : Z :=
  let named s := STR_EQ directive (lit s) in
  if named "class" then 1 else if named "directive" then 2 else if named "display" then 4 else if named "forward" then 8
  else if named "holdconnect" then 16 else if named "limit" then 32 else if named "notify" then 64 else if named "quit" then 128
  else if named "register" then 256 else if named "schema" then 512 else if named "security" then 1024
  else if named "soa" then 2048 else if named "status" then 4096 else if named "xfer" then 8192
  else if named "X" then 16384 else 0.

(** the length is passed to strncasecmp as a size_t *)
Definition matches (di : directive_struct) (name : cstr) : bool :=
  STRN_EQ (d_name di) name (if d_len di <? 0 then S (length name + length (d_name di)) else Z.to_nat (d_len di)).

(** the place of the directive in the list *)
Fixpoint find_place (l : directive_list) (name : cstr) : outcome (option nat) :=
  match l with
  | [] => Ret None
  | None :: _ => Fault
  | Some di :: l => if matches di name then Ret (Some 0%nat) else p ← find_place l name; Ret (option_map S p)
  end.
Definition find_directive_place (l : directive_list) (name : option cstr) : outcome (option nat) :=
  match name with Some ((_ :: _) as name) => find_place l name | _ => Ret None end.
Definition find_directive (l : directive_list) (name : option cstr) : outcome (option directive_struct) :=
  p ← find_directive_place l name; Ret (p ≫= (λ p, mjoin (l !! p))).

(** A directive that is there already is destroyed, but stays in the list. *)
Definition add_directive (l : directive_list) (name : cstr) (len : Z) (description : option cstr)
    (func : option directive_function) (program : option cstr) (disabled : bool) : outcome (bool * directive_list) :=
  match name with
  | [] => Ret (false, l)
  | _ =>
      p ← find_directive_place l (Some name);
      let l := match p with None => l | Some p => <[p := None]> l end in
      let some s := match s with Some (_ :: _) => s | _ => None end in
      Ret (true, l ++ [Some (Directive (if len =? 0 then Z.of_nat (length name) else len) disabled
                               (if disabled then 0 else find_cap name) func name (some description) (some program))])
  end.

Definition default_directives : list (string * Z * string) :=
  [("rwhois", 6, "RWhois directive"); ("class", 0, "get meta-information for the class(es)");
   ("directive", 0, "get server allowable directives"); ("display", 0, "sets/displays the display types");
   ("forward", 0, "server forward boolean"); ("holdconnect", 0, "hold the connection boolean");
   ("limit", 0, "displays and sets record hit limit"); ("security", 0, "identify the authentication method");
   ("notify", 0, "tell server of bad referral or data change"); ("quit", 4, "quit connection");
   ("register", 0, "add/mod/delete record in server"); ("schema", 0, "get the schema of an object");
   ("soa", 0, "ask server's authority area"); ("status", 0, "server's status");
   ("xfer", 0, "transfer data from the server")]%string.
Fixpoint add_directives (ds : list (string * Z * string)) (l : directive_list) : outcome (bool * directive_list) :=
  match ds with
  | [] => Ret (true, l)
  | (name, len, description) :: ds =>
      '(ok, l) ← add_directive l (lit name) len (Some (lit description)) None None false;
      if ok : bool then add_directives ds l else Ret (false, l)
  end.
Definition default_directive_list : outcome (bool * directive_list) := add_directives default_directives [].

Definition add_directive_func (name : cstr) (func : directive_function) (l : directive_list) : outcome directive_list :=
  p ← find_directive_place l (Some name);
  Ret (match p with None => l | Some p => alter (option_map (with_function func)) p l end).
Definition directive_functions : list (string * directive_function) :=
  [("class", class_directive); ("directive", directive_directive); ("display", display_directive);
   ("forward", forward_directive); ("holdconnect", holdconnect_directive); ("limit", limit_directive);
   ("security", security_directive); ("notify", notify_directive); ("quit", quit_directive);
   ("register", register_directive); ("rwhois", rwhois_directive); ("schema", schema_directive);
   ("soa", soa_directive); ("status", status_directive); ("xfer", xfer_directive)]%string.
Fixpoint add_functions (fs : list (string * directive_function)) (l : directive_list) : outcome directive_list :=
  match fs with
  | [] => Ret l
  | (name, f) :: fs => l ← add_directive_func (lit name) f l; add_functions fs l
  end.
Definition init_directive_functions (l : directive_list) : outcome directive_list := add_functions directive_functions l.

(** ** The files *)

Definition is_extended_directive (name : cstr) : bool :=
  STR_EXISTS (Some name) && is_no_whitespace_str (Some name) && (2 <? length name)%nat && STRN_EQ name ($"X-") 2.

Fixpoint read_flags (ls : list cstr) (l : directive_list) : outcome directive_list :=
  match ls with
  | [] => Ret l
  | line :: ls =>
      td ← config_line line;
      l ← match td with
          | Some (tag, datum) =>
              if (STR_EQ datum ($"NO") || STR_EQ datum ($"OFF")) && negb (STR_EQ tag ($"rwhois")) then
                p ← find_directive_place l (Some tag);
                Ret (match p with None => l | Some p => alter (option_map (with_disabled true)) p l end)
              else Ret l
          | None => Ret l
          end;
      read_flags ls l
  end.
(** the status and the list *)
Definition read_directive_file (fs : filesystem) (file : option cstr) : outcome (bool * directive_list) :=
  '(ok, l) ← default_directive_list;
  if negb ok then Ret (false, l)
  else
    match file with
    | Some ((_ :: _) as file) =>
        match fs file with
        | None => Ret (false, l)
        | Some f => ls ← lines_of f; l ← read_flags ls l; Ret (true, l)
        end
    | _ => Ret (true, l)
    end.

#[local] Instance in_int_dec w z : Decision (in_int w z).
Proof. unfold in_int. apply _. Defined.

(** what has been read of an extended directive *)
Record x_state := XState { x_command : cstr; x_len : Z; x_description : cstr; x_program : cstr }.

Definition read_x_field (tag datum : cstr) (x : x_state) : outcome x_state :=
  let named s := STR_EQ tag (lit s) in
  if named "command" then
    if decide (length datum + 2 < MAX_TEMPLATE_DESC)%nat
    then Ret (XState ($"X-" ++ datum) (x_len x) (x_description x) (x_program x)) else Fault
  else if named "command-len" then
    if decide (int32 (atoi datum + 2))
    then Ret (XState (x_command x) (atoi datum + 2) (x_description x) (x_program x)) else Fault
  else if named "description" then Ret (XState (x_command x) (x_len x) datum (x_program x))
  else if named "program" then Ret (XState (x_command x) (x_len x) (x_description x) datum)
  else Ret x.
Fixpoint read_extended (ls : list cstr) (x : x_state) (l : directive_list) : outcome (x_state * directive_list) :=
  match ls with
  | [] => Ret (x, l)
  | line :: ls =>
      if is_separator line && bool_decide (x_command x ≠ []) && bool_decide (x_program x ≠ []) then
        let len := if x_len x =? 0 then Z.of_nat (length (x_command x)) else x_len x in
        '(ok, l) ← add_directive l (x_command x) len (Some (x_description x)) None (Some (x_program x)) false;
        if negb ok then read_extended ls (XState (x_command x) len (x_description x) (x_program x)) l
        else read_extended ls (XState [] 0 (x_description x) []) l
      else
        td ← config_line line;
        x ← match td with Some (tag, datum) => read_x_field tag datum x | None => Ret x end;
        read_extended ls x l
  end.
Definition read_extended_directive_file (fs : filesystem) (file : option cstr) (l : directive_list) :
    outcome (bool * directive_list) :=
  match file with
  | Some ((_ :: _) as file) =>
      match fs file with
      | None => Ret (false, l)
      | Some f =>
          ls ← lines_of f;
          '(x, l) ← read_extended ls (XState [] 0 [] []) l;
          if bool_decide (x_command x ≠ []) && bool_decide (x_program x ≠ [])
          then add_directive l (x_command x) (x_len x) (Some (x_description x)) None (Some (x_program x)) false
          else Ret (true, l)
      end
  | _ => Ret (true, l)
  end.

Fixpoint flag_lines (l : directive_list) : outcome (list cstr) :=
  match l with
  | [] => Ret []
  | None :: _ => Fault
  | Some dir :: l =>
      ls ← flag_lines l;
      Ret (if negb (STR_EQ (d_name dir) ($"quit")) && negb (STR_EQ (d_name dir) ($"rwhois"))
              && negb (is_extended_directive (d_name dir))
           then field (d_name dir) 1 (if disabled_flag dir then $"no" else $"yes") :: ls else ls)
  end.
(** the text of the file, [None] without one *)
Definition write_directive_file (file : option cstr) (l : directive_list) : outcome (option cstr) :=
  match file, l with
  | Some (_ :: _), _ :: _ => ls ← flag_lines l; Ret (Some (text ls))
  | _, _ => Ret None
  end.

(** the description is printed even when it is null *)
Fixpoint extended_lines (l : directive_list) (xdir_count : nat) : outcome (list cstr) :=
  match l with
  | [] => Ret []
  | None :: _ => Fault
  | Some dir :: l =>
      if is_extended_directive (d_name dir) then
        description ← of_option (d_description dir);
        program ← of_option (d_program dir);
        let name := drop 2 (d_name dir) in
        ls ← extended_lines l (S xdir_count);
        Ret ((if (0 <? xdir_count)%nat then [$"-----"] else [])
             ++ [field ($"command") 5 name; field ($"command-len") 1 (print_Z (Z.of_nat (length name)));
                 field ($"description") 1 description; field ($"program") 5 program] ++ ls)
      else extended_lines l xdir_count
  end.
Definition write_extended_directive_file (file : option cstr) (l : directive_list) : outcome (option cstr) :=
  match file with
  | Some (_ :: _) => ls ← extended_lines l 0; Ret (Some (text ls))
  | _ => Ret None
  end.

(** [examin_program]: examin_xdirective_program finds the program *)
Definition verify_directive (examin_program : option cstr → bool) (dir : directive_struct) : bool :=
  match d_name dir with
  | [] => false
  | _ =>
      if is_extended_directive (d_name dir) then examin_program (d_program dir)
      else negb (STR_EQ (d_name dir) ($"quit") && disabled_flag dir)
           && negb (STR_EQ (d_name dir) ($"rwhois") && disabled_flag dir)
  end.
Fixpoint verify_directives (examin_program : option cstr → bool) (l : directive_list) (n_dir : nat) : outcome bool :=
  match l with
  | [] => Ret (0 <? n_dir)%nat
  | None :: _ => Fault
  | Some dir :: l =>
      if negb (verify_directive examin_program dir) then Ret false
      else verify_directives examin_program l (if is_extended_directive (d_name dir) then n_dir else S n_dir)
  end.
Definition verify_all_directives examin_program (l : directive_list) : outcome bool :=
  verify_directives examin_program l 0.

(** ** Running a directive *)

Definition is_directive (str : cstr) : bool :=
  match str with c :: d :: _ => (c =c chr 45) && isalpha d | _ => false end.

(** what a line leads to: a function of the server, a program, an error *)
Inductive dispatch := Call (f : directive_function) (value : cstr) | Run (program value : cstr)
                    | Refuse (code : error_codes_type).
#[export] Instance dispatch_eq : EqDecision dispatch.
Proof. solve_decision. Defined.

(** The line is cut in its array: the name of the directive ends at the first
    white space or at the end of the line, and the value is what follows behind
    the byte that ends it. *)
Definition split_directive (b : buf) : outcome (cstr * cstr) :=
  v ← skip_while (λ c, negb (isspace c) && negb (c =c NUL)) (S (length b)) b 1;
  b ← wr b v NUL;
  value ← skip_while isspace (S (length b)) b (v + 1);
  n ← strlen (drop value b);
  Ret (take (v - 1) (drop 1 b), take n (drop value b)).

(** [authorized]: the access lists of tcp wrappers *)
Definition run_directive (authorized : cstr → bool) (l : directive_list) (query_str : buf) : outcome dispatch :=
  '(directive, value) ← split_directive query_str;
  di ← find_directive l (Some directive);
  Ret (match di with
       | None => Refuse INVALID_DIRECTIVE
       | Some di =>
           if disabled_flag di then Refuse INVALID_DIRECTIVE
           else if bool_decide (d_function di = None) && bool_decide (d_program di = None) then Refuse INVALID_DIRECTIVE
           else if negb (authorized directive) then Refuse UNAUTH_DIRECTIVE
           else match d_function di with
                | Some f => Call f value
                | None => Run (default [] (d_program di)) value
                end
       end).

(** the bits of the welcome header *)
Definition capabilities (l : list directive_struct) : Z :=
  foldl (λ capid dir, if negb (disabled_flag dir) && (0 <? cap_bit dir) then Z.lor capid (cap_bit dir) else capid) 0 l.

(** ** Cutting a line *)

Lemma skip_while_stop p s x rest : ∀ fuel pre,
  Forall (λ c, p c = true) s → p x = false → (length s < fuel)%nat →
  skip_while p fuel (pre ++ s ++ x :: rest) (length pre) = Ret (length pre + length s)%nat.
Proof.
  induction s as [|c s IH]; intros [|fuel] pre Hs Hx Hf; try (cbn in Hf; lia); cbn [skip_while app].
  - rewrite rd_app by done. cbn [mbind outcome_bind]. rewrite Hx. by rewrite Nat.add_0_r.
  - apply Forall_cons in Hs as [Hc Hs]. rewrite rd_app by done. cbn [mbind outcome_bind]. rewrite Hc.
    specialize (IH fuel (pre ++ [c]) Hs Hx). rewrite length_app, <-app_assoc in IH. cbn [app length] in *.
    rewrite IH by lia. f_equal. lia.
Qed.

(** The arguments of a directive.  When a line holds a directive, blanks and
    arguments, the directive gets these arguments; when there is nothing behind
    the directive it gets what stands in the array behind the end of the line. *)
Theorem split_directive_correct name args rest :
  Forall (λ c, isspace c = false ∧ c ≠ NUL) name → NUL ∉ args →
  (∀ sp, isspace sp = true →
     split_directive (chr 45 :: name ++ sp :: args ++ NUL :: rest) = Ret (name, ltrim_s args)) ∧
  split_directive (chr 45 :: name ++ NUL :: args ++ NUL :: rest) = Ret (name, ltrim_s args).
Proof.
  intros Hname Hargs.
  assert (∀ sp, isspace sp = true ∨ sp = NUL →
    split_directive (chr 45 :: name ++ sp :: args ++ NUL :: rest) = Ret (name, ltrim_s args)) as H;
    [|split; [intros sp Hsp; apply H; by left|apply H; by right]].
  intros sp Hsp. unfold split_directive. set (dash := chr 45).
  assert (skip_while (λ c, negb (isspace c) && negb (c =c NUL)) (S (length (dash :: name ++ sp :: args ++ NUL :: rest)))
            (dash :: name ++ sp :: args ++ NUL :: rest) 1 = Ret (1 + length name)%nat) as ->.
  { apply (skip_while_stop _ name sp (args ++ NUL :: rest) _ [dash]).
    - eapply Forall_impl; [exact Hname|]. intros c [-> Hc]. cbn. by apply negb_true_iff, char_eqb_neq.
    - by destruct Hsp as [-> | ->].
    - cbn [length]. rewrite length_app. lia. }
  cbn [mbind outcome_bind].
  change (dash :: name ++ sp :: args ++ NUL :: rest) with ((dash :: name) ++ sp :: args ++ NUL :: rest).
  rewrite wr_app by done. cbn [mbind outcome_bind].
  assert ((dash :: name) ++ NUL :: args ++ NUL :: rest = ((dash :: name) ++ [NUL]) ++ args ++ NUL :: rest) as ->
    by (by rewrite <-app_assoc).
  assert (length ((dash :: name) ++ [NUL]) = 1 + length name + 1)%nat as El by (rewrite length_app; cbn; lia).
  rewrite <-El, (skip_while_spec isspace args rest) by (done || (rewrite !length_app; lia)). rewrite El.
  cbn [mbind outcome_bind]. set (skipped := (length args - length (dropwhile isspace args))%nat).
  assert (drop (1 + length name + 1 + skipped) (((dash :: name) ++ [NUL]) ++ args ++ NUL :: rest)
          = ltrim_s args ++ NUL :: rest) as ->.
  { rewrite <-El, drop_app_add. subst skipped. unfold ltrim_s.
    assert (args ++ NUL :: rest = takewhile isspace args ++ dropwhile isspace args ++ NUL :: rest) as ->
      by (by rewrite (app_assoc (takewhile _ _)), takewhile_dropwhile).
    assert (length args - length (dropwhile isspace args) = length (takewhile isspace args))%nat as ->;
      [|by rewrite drop_app_length].
    rewrite <-(takewhile_dropwhile isspace args) at 1. rewrite length_app. lia. }
  rewrite strlen_app by (unfold ltrim_s; by intros ?%elem_of_dropwhile). cbn [mbind outcome_bind].
  rewrite take_app_length. do 2 f_equal. rewrite Nat.add_comm, Nat.add_sub. rewrite <-app_assoc. cbn [app drop].
  by rewrite drop_0, take_app_length.
Qed.

Lemma split_directive_correct_witness :
  split_directive ($"-soa  a.com" ++ NUL :: $"x" ++ [NUL]) = Ret ($"soa", $"a.com") ∧
  split_directive ($"-soa" ++ NUL :: $" old" ++ [NUL]) = Ret ($"soa", $"old").
Proof.
  destruct (split_directive_correct ($"soa") ($" a.com") ($"x" ++ [NUL])) as [H _];
    [by repeat constructor|apply (bool_decide_unpack _); vm_compute; exact I|].
  destruct (split_directive_correct ($"soa") ($" old") []) as [_ H'];
    [by repeat constructor|apply (bool_decide_unpack _); vm_compute; exact I|].
  split; [exact (H SP eq_refl)|exact H'].
Defined.

(** ** The file of flags *)

(** every directive is found under its name, and its name makes a line *)
Fixpoint unambiguous (pre l : list directive_struct) : bool :=
  match l with
  | [] => true
  | d :: l =>
      forallb (λ x, negb (matches x (d_name d))) pre && matches d (d_name d)
      && good_tag (d_name d) && (length (d_name d) <? 250)%nat && negb (is_extended_directive (d_name d))
      && negb (disabled_flag d) && unambiguous (pre ++ [d]) l
  end.
(** the flag may be set, but not that of the directives without a line *)
Definition flagged (d d0 : directive_struct) : Prop :=
  d = with_disabled (disabled_flag d) d0 ∧
  (STR_EQ (d_name d) ($"quit") || STR_EQ (d_name d) ($"rwhois") = true → disabled_flag d = false).

#[local] Instance flagged_dec d d0 : Decision (flagged d d0).
Proof. unfold flagged. apply _. Defined.

Lemma find_place_at pre d l name :
  name ≠ [] → forallb (λ x, negb (matches x name)) pre = true → matches d name = true →
  find_directive_place (Some <$> pre ++ d :: l) (Some name) = Ret (Some (length pre)).
Proof.
  destruct name as [|c name]; [done|]. intros _. cbn [find_directive_place].
  induction pre as [|x pre IH]; cbn [forallb app length]; rewrite fmap_cons; cbn [find_place]; intros Hp Hd.
  - by rewrite Hd.
  - apply andb_true_iff in Hp as [Hx Hp]. apply negb_true_iff in Hx. by rewrite Hx, IH.
Qed.

Lemma alter_at {A} (g : A → A) pre x post : alter g (length pre) (pre ++ x :: post) = pre ++ g x :: post.
Proof. induction pre as [|y pre IH]; [done|]. cbn. f_equal. exact IH. Qed.

Lemma flag_value (b : bool) : clean_datum (if b then $"no" else $"yes") ∧ (length (if b then $"no" else $"yes") < MAX_TEMPLATE_DESC)%nat.
Proof. split; [apply (bool_decide_unpack _)|]; destruct b; vm_compute; (exact I || lia). Qed.

Lemma flag_lines_ok pre : ∀ l l0, Forall2 flagged l l0 → unambiguous pre l0 = true →
  ∃ ls, flag_lines (Some <$> l) = Ret ls ∧ Forall (λ s, is_line s ∧ (length s + 1 < MAX_LINE)%nat ∧ clean s = s) ls.
Proof.
  intros l l0 H. revert pre. induction H as [|d d0 l l0 [Hd _] _ IH]; intros pre Hu; [by exists []|].
  cbn [unambiguous] in Hu. rewrite !andb_true_iff in Hu. destruct Hu as [[[[[[_ _] Hg] Hlen] _] _] Hu].
  destruct (IH _ Hu) as (ls & E & Hls). rewrite fmap_cons. cbn [flag_lines]. rewrite E. cbn [mbind outcome_bind].
  eexists. split; [done|]. destruct (_ && _); [|done]. constructor; [|done].
  assert (d_name d = d_name d0) as -> by (by rewrite Hd). apply Nat.ltb_lt in Hlen.
  destruct (flag_value (disabled_flag d)) as [Hc Hl].
  split_and!; [by apply field_line| |apply field_read; (done || unfold MAX_TEMPLATE_DESC in *; lia)].
  unfold field. rewrite length_app. cbn [length]. rewrite length_app, length_replicate.
  unfold MAX_LINE. destruct (disabled_flag d); cbn; lia.
Qed.

Lemma read_flags_back l l0 : Forall2 flagged l l0 → ∀ pre ls,
  unambiguous pre l0 = true → flag_lines (Some <$> l) = Ret ls →
  read_flags ls (Some <$> pre ++ l0) = Ret (Some <$> pre ++ l).
Proof.
  induction 1 as [|d d0 l l0 [Hd Hr] Hl IH]; intros pre ls Hu; [by intros [= <-]|].
  cbn [unambiguous] in Hu. rewrite !andb_true_iff in Hu.
  destruct Hu as [[[[[[Hpre Hself] Hg] Hlen] Hx] Hoff] Hu]. apply Nat.ltb_lt in Hlen.
  rewrite fmap_cons. cbn [flag_lines]. intros E. apply bind_inv_Ret in E as (ls' & E' & <-%Ret_inj).
  assert (d_name d = d_name d0) as Hn by (by rewrite Hd). rewrite Hn, Hx, andb_true_r.
  assert (∀ x y, pre ++ x :: y = (pre ++ [x]) ++ y) as Es by (intros; by rewrite <-app_assoc).
  assert (unambiguous (pre ++ [d]) l0 = true) as Hu'.
  { rewrite Hd. clear -Hu. revert Hu. generalize (disabled_flag d). intros b.
    assert (∀ q l, unambiguous (pre ++ d0 :: q) l = true → unambiguous (pre ++ with_disabled b d0 :: q) l = true) as H;
      [|by apply (H [])].
    intros q k. revert q. induction k as [|x k IH]; intros q; cbn [unambiguous]; [done|].
    rewrite !andb_true_iff, !forallb_app, !andb_true_iff, <-!app_assoc. cbn [app forallb].
    intros [[[[[[[? ?] ?] ?] ?] ?] ?] ?]. split_and!; try done. by apply (IH (q ++ [x])). }
  destruct (negb (STR_EQ (d_name d0) ($"quit")) && negb (STR_EQ (d_name d0) ($"rwhois"))) eqn:Eline.
  - destruct (flag_value (disabled_flag d)) as [Hc Hlv]. cbn [read_flags].
    destruct (field_read (d_name d0) 1 _ Hg Hc) as (_ & _ & ->); [unfold MAX_TEMPLATE_DESC; lia|done|].
    cbn [mbind outcome_bind]. apply andb_true_iff in Eline as [_ ->]. rewrite andb_true_r.
    assert (d_name d0 ≠ []) as Hne by (by intros E; rewrite E in Hg).
    destruct (disabled_flag d) eqn:Ed.
    + change (STR_EQ ($"no") ($"NO") || STR_EQ ($"no") ($"OFF")) with true. cbn iota.
      rewrite find_place_at by done. cbn [mbind outcome_bind].
      rewrite fmap_app, fmap_cons. rewrite <-(length_fmap Some pre), alter_at. cbn [option_map].
      rewrite <-Hd. replace ((Some <$> pre) ++ Some d :: (Some <$> l0)) with (Some <$> (pre ++ [d]) ++ l0)
        by (by rewrite !fmap_app, <-app_assoc). rewrite (Es d l). by apply IH.
    + change (STR_EQ ($"yes") ($"NO") || STR_EQ ($"yes") ($"OFF")) with false. cbn [mbind outcome_bind].
      assert (d0 = d) as -> by (rewrite Hd; apply negb_true_iff in Hoff; destruct d0; cbn in *; by subst).
      rewrite (Es d l), (Es d l0). by apply IH.
  - assert (disabled_flag d = false) as Ed.
    { apply Hr. rewrite Hn. by destruct (STR_EQ (d_name d0) ($"quit")), (STR_EQ (d_name d0) ($"rwhois")). }
    assert (d0 = d) as -> by (rewrite Hd, Ed; apply negb_true_iff in Hoff; destruct d0; cbn in *; by subst).
    rewrite (Es d l), (Es d l0). by apply IH.
Qed.

Definition defaults : list directive_struct :=
  match default_directive_list with Ret (_, l) => omap (λ x, x) l | _ => [] end.
Lemma defaults_eq : default_directive_list = Ret (true, Some <$> defaults) ∧ unambiguous [] defaults = true.
Proof. split; vm_compute; reflexivity. Qed.
Lemma defaults_length : length defaults = 15%nat.
Proof. vm_compute. reflexivity. Qed.
#[local] Opaque defaults.

(** The file of directives keeps their flags.  When the list of directives is
    the default one, with any of them switched off but rwhois and quit, the
    file that write_directive_file writes gives the same list when it is read. *)
Theorem directive_file_roundtrip fs file l :
  file ≠ [] → Forall2 flagged l defaults →
  ∃ t, write_directive_file (Some file) (Some <$> l) = Ret (Some t) ∧
    (fs file = Some t → read_directive_file fs (Some file) = Ret (true, Some <$> l)).
Proof.
  intros Hf Hl. destruct defaults_eq as [Ed Eu]. destruct (flag_lines_ok [] l defaults Hl Eu) as (ls & E & Hls).
  exists (text ls). split.
  - apply Forall2_length in Hl. rewrite defaults_length in Hl. destruct l as [|d l]; [discriminate Hl|].
    destruct file as [|c file]; [destruct (Hf eq_refl)|]. rewrite fmap_cons in E |- *.
    cbn [write_directive_file]. by rewrite E.
  - intros Hfs. unfold read_directive_file. rewrite Ed. cbn [mbind outcome_bind negb].
    destruct file as [|c file]; [destruct (Hf eq_refl)|]. rewrite Hfs.
    assert (Forall (λ l, is_line l ∧ (length l + 1 < MAX_LINE)%nat) ls) as Hok
      by (eapply Forall_impl; [exact Hls|]; intros s (? & ? & ?); by split).
    rewrite (lines_of_text _ Hok). cbn [mbind outcome_bind].
    assert (clean <$> ls = ls) as ->.
    { clear -Hls. induction Hls as [|s ls (_ & _ & Hs) _ IH]; [done|]. cbn. by rewrite Hs, IH. }
    pose proof (read_flags_back _ _ Hl [] ls Eu E) as R. cbn [app] in R. by rewrite R.
Qed.

Lemma directive_file_roundtrip_witness :
  let l := alter (with_disabled true) 5%nat defaults in
  ∃ t, write_directive_file (Some $"rwhoisd.dir") (Some <$> l) = Ret (Some t) ∧
       read_directive_file (λ _, Some t) (Some $"rwhoisd.dir") = Ret (true, Some <$> l).
Proof.
  intros l. destruct (directive_file_roundtrip
    (λ _, match write_directive_file (Some $"rwhoisd.dir") (Some <$> l) with Ret (Some t) => Some t | _ => None end)
    ($"rwhoisd.dir") l) as (t & Hw & Hr); [done| |].
  - subst l. apply (bool_decide_unpack _). vm_compute. exact I.
  - exists t. split; [exact Hw|]. rewrite Hw in Hr. by apply Hr.
Defined.

(** ** Extended directives *)

Definition x_directive (command : string) : list cstr :=
  [$"command: " ++ lit command; $"program: /bin/x"; $"---"].
(** A second extended directive whose name begins with that of the first one is
    taken for it: its node is destroyed but stays, and the next search of the
    list reads it. *)
Theorem extended_directive_dangles :
  ∃ l, read_extended_directive_file (λ _, Some (text (x_directive "date" ++ x_directive "dates"))) (Some $"x") (Some <$> defaults)
       = Ret (true, l) ∧ None ∈ l ∧ ∀ name, name ≠ [] → forallb (λ d, negb (matches d name)) defaults = true →
         find_directive l (Some name) = Fault.
Proof.
  eexists. split; [vm_compute; reflexivity|]. split; [apply (bool_decide_unpack _); vm_compute; exact I|].
  intros name Hne Hn. match goal with |- find_directive ?l _ = _ =>
    let k := eval cbn in (drop 15%nat l) in change l with ((Some <$> defaults) ++ k) end.
  unfold find_directive. destruct name as [|c name]; [destruct (Hne eq_refl)|]. cbn [find_directive_place].
  generalize dependent defaults. intros ds Hn. induction ds as [|d ds IH]; cbn [fmap list_fmap app find_place]; [done|].
  cbn [forallb] in Hn. apply andb_true_iff in Hn as [Hd Hn]. apply negb_true_iff in Hd. rewrite Hd.
  specialize (IH Hn). destruct (find_place _ _) as [[p|]| |]; done.
Qed.

(** Writing the extended directives forgets how far their names may be
    abbreviated: the written length is that of the whole name. *)
Definition x_date (len : Z) : directive_struct :=
  Directive len false 0 None ($"X-date") (Some $"the date") (Some $"/bin/date").
Definition x_date_file : option cstr :=
  match write_extended_directive_file (Some $"x") [Some (x_date 4)] with Ret o => o | _ => None end.
Theorem abbreviation_forgotten :
  write_extended_directive_file (Some $"x") [Some (x_date 4)] = Ret x_date_file ∧ x_date_file ≠ None ∧
  read_extended_directive_file (λ _, x_date_file) (Some $"x") [] = Ret (true, [Some (x_date 6)]).
Proof. split; [|split]; vm_compute; [reflexivity|discriminate|reflexivity]. Qed.
