(* ===== verification/FileNames.v ===== *)
(** * Names of files, time stamps and files that are written (common/fileutils.c)

    The checks of file names and time stamps, the list of the paths that a
    configuration uses, and the way to a new file: the directories are made
    first, and what is made is noted in a list so that it can be removed. *)

From S2P Require Import Prelude CLib CString Misc DlList IpNetwork Types Stdio Records FileInfo FilePath ConfigFile.
Local Open Scope Z_scope.

(** ** Time stamps *)

Definition timestamp_cmpr (stamp1 stamp2 : cstr) : Z := strcmp stamp1 stamp2.

(** the value of a signed char *)
Definition schar (c : ascii) : Z := if code c <? 128 then code c else code c - 256.
Definition increment_step (c : ascii) : option ascii :=
  if schar c - 48 <? 9 then Some (chr ((code c + 1) mod 256)) else None.
(** from the last byte on: [s] is the reverse of the stamp *)
Fixpoint increment_loop (s : cstr) : cstr :=
  match s with
  | [] => []
  | c :: s => match increment_step c with Some c => c :: s | None => chr 48 :: increment_loop s end
  end.
Definition increment_timestamp (stamp : cstr) : cstr := reverse (increment_loop (reverse stamp)).

(** [now]: what make_timestamp returns *)
Definition get_updated_timestamp (now orig_stamp : cstr) : cstr :=
  let new_stamp := take 17 now in
  let ret := timestamp_cmpr orig_stamp new_stamp in
  if ret =? 0 then increment_timestamp new_stamp
  else if 0 <? ret then increment_timestamp (take 17 orig_stamp)
  else new_stamp.

Definition examin_timestamp (stamp : option cstr) : option examin_error :=
  match stamp with
  | Some ((_ :: _) as s) =>
      if negb (is_number_str stamp) then Some ERW_NUMSTR
      else if negb (length s =? 17)%nat then Some ERW_LENSTR else None
  | _ => Some ERW_EMTYSTR
  end.

(** ** Names *)

Section Examin.
(** the files, the directories and which files can be executed *)
Context (fs : filesystem) (directory_exists : cstr → bool) (executable : cstr → bool).

Definition examin_file_name (value : option cstr) : option examin_error :=
  match value with
  | Some ((_ :: _) as v) =>
      if negb (is_no_whitespace_str value) then Some ERW_SPACESTR
      else if directory_exists v then Some ERW_DIRWSN else None
  | _ => Some ERW_EMTYSTR
  end.
Definition examin_directory_name (value : option cstr) : option examin_error :=
  match value with
  | Some ((_ :: _) as v) =>
      if negb (is_no_whitespace_str value) then Some ERW_SPACESTR
      else if file_exists fs v then Some ERW_FILEWSN else None
  | _ => Some ERW_EMTYSTR
  end.
Definition examin_executable_name (value : option cstr) : option examin_error :=
  match value with
  | None => Some ERW_NDEF
  | Some v =>
      if file_exists fs v then (if executable v then None else Some ERW_EXEPROG)
      else if directory_exists v then Some ERW_EXEPROG else Some ERW_NOFILE
  end.

(** [fullpath]: the array of path_under_root_dir, not initialised *)
Definition examin_under_root (examin : option cstr → option examin_error) (fullpath : buf) (root_dir : cstr)
    (path : option cstr) : outcome (option examin_error) :=
  match path with
  | Some (_ :: _) =>
      match examin path with
      | Some e => Ret (Some e)
      | None => b ← path_under_root_dir fullpath path (Some root_dir); Ret (if b : bool then None else Some ERW_UNDROOT)
      end
  | _ => Ret (Some ERW_EMTYSTR)
  end.
End Examin.

(** the list of the paths that are in use *)
Definition dup_config_path_name (paths : list cstr) (path : option cstr) : bool * list cstr :=
  match path with
  | Some ((_ :: _) as p) =>
      if existsb (λ item, strcmp item p =? 0) paths then (true, paths) else (false, paths ++ [p])
  | _ => (false, paths)
  end.
Definition in_config_path_list (paths : list cstr) (path : option cstr) : bool :=
  match path with
  | Some ((_ :: _) as p) => existsb (λ item, strcmp item p =? 0) paths
  | _ => false
  end.

(** ** Files that are written *)

(** the directories that there are, the list of the paths that were made, the
    files that were written *)
Record writing := Writing { w_dirs : list cstr; w_paths : list cstr; w_files : list (cstr * cstr) }.
Definition has_dir (w : writing) (d : cstr) : bool := bool_decide (d ∈ w_dirs w).
Definition made_dir (d : cstr) (w : writing) : writing := Writing (w_dirs w ++ [d]) (w_paths w ++ [d]) (w_files w).
(** release_file_lock and the path in the list *)
Definition wrote_file (name txt : cstr) (w : writing) : writing :=
  Writing (w_dirs w) (w_paths w ++ [name]) (w_files w ++ [(name, txt)]).

Section Writing.
(** [mkdir_ok]: does mkdir succeed, given the directories there are;
    [open_ok]: can the file be opened for writing *)
Context (mkdir_ok : list cstr → cstr → bool) (open_ok : list cstr → cstr → bool).

(** strtok leaves the path cut behind its first component *)
Definition cut_path (path : cstr) : cstr :=
  takewhile (λ c, c =c SLASH) path ++ takewhile (λ c, negb (c =c SLASH)) (dropwhile (λ c, c =c SLASH) path).

(** [dirpath]: an array of MAX_FILE bytes *)
Fixpoint make_dirs_loop (dirs : list cstr) (absolute : bool) (dirpath : cstr) (w : writing) : outcome (bool * writing) :=
  match dirs with
  | [] => Ret (true, w)
  | dirname :: dirs =>
      let slash := if negb (bool_decide (dirpath = [])) || absolute then [SLASH] else [] in
      let dirpath := dirpath ++ slash ++ take 511 dirname in
      if (length dirpath <? 512)%nat then
        if has_dir w dirpath then make_dirs_loop dirs absolute dirpath w
        else if mkdir_ok (w_dirs w) dirpath then make_dirs_loop dirs absolute dirpath (made_dir dirpath w)
        else Ret (false, w)
      else Fault
  end.
(** with what is left of the path *)
Definition make_path_dirs (path : cstr) (w : writing) : outcome (bool * cstr * writing) :=
  match path with
  | [] => Ret (false, path, w)
  | _ =>
      if has_dir w path then Ret (true, path, w)
      else if mkdir_ok (w_dirs w) path then Ret (true, path, made_dir path w)
      else
        '(ok, w) ← make_dirs_loop (split_path_into_list path) (negb (is_rel_path (Some path))) [] w;
        Ret (ok, cut_path path, w)
  end.
(** what is left of [dirname]: get_reduced_path returns its argument if it has
    no two dots, and cuts it otherwise *)
Definition make_config_dir (dirname : cstr) (w : writing) : outcome (bool * cstr * writing) :=
  match dirname with
  | [] => Ret (false, dirname, w)
  | _ =>
      newdir ← get_reduced_path (Some dirname);
      let left := if has_dotdot dirname then cut_path dirname else dirname in
      match newdir with
      | None => Ret (false, left, w)
      | Some newdir =>
          '(ok, newdir, w) ← make_path_dirs newdir w;
          Ret (ok, if has_dotdot dirname then left else newdir, w)
      end
  end.
(** can the file be opened *)
Definition open_file_to_write (filename : cstr) (w : writing) : outcome (bool * writing) :=
  match filename with
  | [] => Ret (false, w)
  | _ =>
      df ← split_path (Some filename);
      match df with
      | Some (((_ :: _) as dir), _) =>
          newdir ← get_reduced_path (Some dir);
          match newdir with
          | None => Ret (false, w)
          | Some newdir =>
              '(ok, _, w) ← make_path_dirs newdir w;
              Ret (ok && open_ok (w_dirs w) filename, w)
          end
      | _ => Ret (open_ok (w_dirs w) filename, w)
      end
  end.
(** the name of a new file in an array of MAX_FILE bytes *)
Definition new_file (file suffix : cstr) : outcome cstr :=
  let name := take 511 file ++ take 511 suffix in
  if (length name <? 512)%nat then Ret name else Fault.
End Writing.

(** ** Time stamps grow *)

Definition all_nines (s : cstr) : Prop := Forall (λ c, c = chr 57) s.
#[export] Instance all_nines_dec s : Decision (all_nines s).
Proof. unfold all_nines. apply _. Defined.
Definition digits (s : cstr) : Prop := Forall (λ c, isdigit c = true) s.
#[export] Instance digits_dec s : Decision (digits s).
Proof. unfold digits. apply _. Defined.

Lemma increment_digit c : isdigit c = true → c ≠ chr 57 →
  increment_step c = Some (chr (code c + 1)) ∧ isdigit (chr (code c + 1)) = true ∧ code (chr (code c + 1)) = code c + 1.
Proof.
  revert c. intros [[][][][][][][][]]; vm_compute; intros H1 H2; try discriminate H1; split_and!; try reflexivity;
    exfalso; by apply H2.
Qed.

Lemma increment_loop_spec r :
  digits r → ¬ all_nines r → ∃ k d r', r = replicate k (chr 57) ++ d :: r' ∧ isdigit d = true ∧ d ≠ chr 57 ∧
    increment_loop r = replicate k (chr 48) ++ chr (code d + 1) :: r'.
Proof.
  induction 1 as [|c r Hc Hr IH]; intros Hn; [contradict Hn; constructor|]. cbn [increment_loop].
  destruct (decide (c = chr 57)) as [->|Hne].
  - destruct IH as (k & d & r' & -> & H1 & H2 & ->); [intros Hall; apply Hn; by constructor|].
    by exists (S k), d, r'.
  - exists 0%nat, c, r. destruct (increment_digit c Hc Hne) as [-> _]. done.
Qed.

Lemma increment_timestamp_spec s :
  digits s → ¬ all_nines s →
  strcmp (increment_timestamp s) s = 1 ∧ digits (increment_timestamp s) ∧ length (increment_timestamp s) = length s.
Proof.
  intros Hd Hn. destruct (increment_loop_spec (reverse s)) as (k & d & r & E & Hc & Hne & Ei).
  - by apply Forall_reverse.
  - unfold all_nines. by rewrite Forall_reverse.
  - apply (f_equal reverse) in E. rewrite reverse_involutive in E.
    unfold increment_timestamp. rewrite Ei, E, !reverse_app, !reverse_cons, !reverse_replicate, <-!app_assoc. cbn [app].
    destruct (increment_digit d Hc Hne) as (_ & H1 & H2). split_and!.
    + rewrite strcmp_app_same. cbn [strcmp]. rewrite H2.
      destruct (Z.ltb_spec (code d + 1) (code d)); [lia|]. by destruct (Z.ltb_spec (code d) (code d + 1)); [|lia].
    + rewrite E, reverse_app, reverse_cons, reverse_replicate, <-app_assoc in Hd. apply Forall_app in Hd as [Hd1 _].
      apply Forall_app. split; [done|]. constructor; [done|]. by apply Forall_replicate.
    + rewrite !length_app. cbn. by rewrite !length_replicate.
Qed.

Lemma examin_timestamp_fine s : digits s → length s = 17%nat → examin_timestamp (Some s) = None.
Proof.
  intros Hd Hl. unfold examin_timestamp. destruct s as [|c s]; [done|]. rewrite Hl. cbn [Nat.eqb negb].
  assert (is_number_str (Some (c :: s)) = true) as ->; [|done].
  apply forallb_forall. intros x Hx%list_elem_of_In. unfold digits in Hd. rewrite Forall_forall in Hd. by apply Hd.
Qed.
Lemma examin_timestamp_inv s : examin_timestamp (Some s) = None → digits s ∧ length s = 17%nat.
Proof.
  unfold examin_timestamp. destruct s as [|c s]; [done|]. destruct (is_number_str _) eqn:E; [|done]. cbn [negb].
  destruct (Nat.eqb_spec (length (c :: s)) 17); [|done]. intros _. split; [|done].
  apply Forall_forall. intros x Hx%list_elem_of_In. cbn [is_number_str] in E. rewrite forallb_forall in E. by apply E.
Qed.

(** The version that a schema or a zone gets is a proper time stamp and
    newer than the one it had, whatever the clock says: the present time if
    that is later, otherwise the next stamp behind the old one.  (The stamp of
    nothing but nines has no successor.) *)
Theorem get_updated_timestamp_newer now orig :
  examin_timestamp (Some orig) = None → examin_timestamp (Some now) = None → ¬ all_nines orig →
  0 < timestamp_cmpr (get_updated_timestamp now orig) orig ∧ examin_timestamp (Some (get_updated_timestamp now orig)) = None.
Proof.
  intros [Ho Hol]%examin_timestamp_inv [Hn Hnl]%examin_timestamp_inv H9. unfold get_updated_timestamp, timestamp_cmpr.
  rewrite !take_ge by lia. destruct (increment_timestamp_spec orig) as (H1 & H2 & H3); [done..|].
  destruct (Z.eqb_spec (strcmp orig now) 0) as [E%strcmp_eq|Hne].
  - subst now. rewrite H1. split; [done|]. apply examin_timestamp_fine; [done|lia].
  - destruct (Z.ltb_spec 0 (strcmp orig now)).
    + rewrite H1. split; [done|]. apply examin_timestamp_fine; [done|lia].
    + split; [rewrite strcmp_opp; lia|by apply examin_timestamp_fine].
Qed.
Lemma get_updated_timestamp_newer_witness :
  let now := $"20240101120000000" in let orig := $"20240101120000999" in
  0 < timestamp_cmpr (get_updated_timestamp now orig) orig ∧
  examin_timestamp (Some (get_updated_timestamp now orig)) = None ∧
  get_updated_timestamp now orig = $"20240101120001000".
Proof.
  cbv zeta. destruct (get_updated_timestamp_newer ($"20240101120000000") ($"20240101120000999")) as [H1 H2].
  - reflexivity.
  - reflexivity.
  - apply (bool_decide_unpack _). vm_compute. exact I.
  - split; [exact H1|split; [exact H2|reflexivity]].
Defined.

(** ** What is made is noted *)

(** new directories and files are in the list of paths *)
Definition noted (w w' : writing) : Prop :=
  w_paths w `prefix_of` w_paths w' ∧ w_dirs w `prefix_of` w_dirs w' ∧ w_files w `prefix_of` w_files w' ∧
  (∀ d, d ∈ w_dirs w' → d ∈ w_dirs w ∨ d ∈ w_paths w') ∧
  (∀ f, f ∈ w_files w' → f ∈ w_files w ∨ f.1 ∈ w_paths w').
#[export] Instance noted_preorder : PreOrder noted.
Proof.
  split; [intros w; split_and!; auto|].
  intros w1 w2 w3 (P & D & F & H & K) (P' & D' & F' & H' & K').
  split_and!; [by etrans..| |].
  - intros d [[?|?]%H|?]%H'; auto. right. by eapply elem_of_prefix.
  - intros f [[?|?]%K|?]%K'; auto. right. by eapply elem_of_prefix.
Qed.

Lemma made_dir_noted d w : noted w (made_dir d w).
Proof.
  split_and!; cbn; [by eexists..|done| |auto].
  intros x [?|?]%elem_of_app; [auto|]. right. apply elem_of_app. auto.
Qed.
Lemma written_noted name txt w : noted w (wrote_file name txt w).
Proof.
  split_and!; cbn; [by eexists|done|by eexists|auto|].
  intros x [?| ->%list_elem_of_singleton]%elem_of_app; [auto|]. right. cbn. apply elem_of_app. right. by left.
Qed.
#[export] Hint Resolve made_dir_noted written_noted : core.

Section Noted.
Context (mkdir_ok : list cstr → cstr → bool) (open_ok : list cstr → cstr → bool).

(** the path of the directories that are made one after the other *)
Fixpoint joined (dirs : list cstr) (absolute : bool) (dirpath : cstr) : cstr :=
  match dirs with
  | [] => dirpath
  | d :: dirs =>
      joined dirs absolute (dirpath ++ (if negb (bool_decide (dirpath = [])) || absolute then [SLASH] else []) ++ take 511 d)
  end.

Lemma make_dirs_loop_noted dirs absolute dirpath w ok w' :
  make_dirs_loop mkdir_ok dirs absolute dirpath w = Ret (ok, w') →
  noted w w' ∧ w_files w' = w_files w ∧ (ok = true → dirs ≠ [] → has_dir w' (joined dirs absolute dirpath) = true).
Proof.
  revert dirpath w. induction dirs as [|d dirs IH]; intros dirpath w H; cbn [make_dirs_loop] in H.
  { apply Ret_inj in H. by injection H as <- <-. }
  cbn [joined]. set (dp := dirpath ++ _) in *. destruct (_ <? _)%nat; [|done].
  assert (∀ w0, has_dir w0 dp = true → make_dirs_loop mkdir_ok dirs absolute dp w0 = Ret (ok, w') →
    noted w0 w' ∧ w_files w' = w_files w0 ∧ (ok = true → has_dir w' (joined dirs absolute dp) = true)) as Hrest.
  { intros w0 Hw0 (N & F & D)%IH. split_and!; [done..|]. intros Hok. destruct dirs as [|d' dirs]; [|by apply D].
    cbn. apply bool_decide_eq_true in Hw0. apply bool_decide_eq_true. destruct N as (_ & [k ->] & _). apply elem_of_app. by left. }
  destruct (has_dir w dp) eqn:Hd.
  - destruct (Hrest _ Hd H) as (N & F & D). split_and!; [done..|]. auto.
  - destruct (mkdir_ok (w_dirs w) dp).
    + assert (has_dir (made_dir dp w) dp = true) as Hm by (apply bool_decide_eq_true, elem_of_app; right; by left).
      destruct (Hrest _ Hm H) as (N & F & D). split_and!; [|by rewrite F|auto]. by etrans; [|exact N].
    + apply Ret_inj in H. injection H as <- <-. done.
Qed.

Lemma make_path_dirs_noted path w ok left w' :
  make_path_dirs mkdir_ok path w = Ret (ok, left, w') →
  noted w w' ∧ w_files w' = w_files w ∧
  (ok = true → has_dir w' path = true ∨ split_path_into_list path = [] ∨
               has_dir w' (joined (split_path_into_list path) (negb (is_rel_path (Some path))) []) = true).
Proof.
  unfold make_path_dirs. intros H. destruct path as [|c path]; [apply Ret_inj in H; by injection H as <- <- <-|].
  destruct (has_dir w (c :: path)) eqn:Hd; [apply Ret_inj in H; injection H as <- <- <-; split; [done|split; [done|by left]]|].
  destruct (mkdir_ok (w_dirs w) (c :: path)).
  - apply Ret_inj in H. injection H as <- <- <-. split_and!; [done..|]. intros _. left.
    apply bool_decide_eq_true, elem_of_app. right. by left.
  - apply bind_inv_Ret in H as ([ok1 w1] & E & H). apply Ret_inj in H. injection H as <- <- <-.
    apply make_dirs_loop_noted in E as (N & F & D). split_and!; [done..|]. intros Hok.
    destruct (split_path_into_list (c :: path)) as [|d ds] eqn:Es; auto.
Qed.

Lemma make_config_dir_noted dirname w ok left w' :
  make_config_dir mkdir_ok dirname w = Ret (ok, left, w') → noted w w' ∧ w_files w' = w_files w.
Proof.
  unfold make_config_dir. intros H. destruct dirname as [|c d]; [apply Ret_inj in H; by injection H as <- <- <-|].
  apply bind_inv_Ret in H as ([newdir|] & _ & H); [|apply Ret_inj in H; by injection H as <- <- <-].
  apply bind_inv_Ret in H as ([[ok1 d1] w1] & E & H). apply make_path_dirs_noted in E as (N & F & _).
  apply Ret_inj in H. by injection H as <- <- <-.
Qed.

Lemma open_file_to_write_noted filename w ok w' :
  open_file_to_write mkdir_ok open_ok filename w = Ret (ok, w') → noted w w' ∧ w_files w' = w_files w.
Proof.
  unfold open_file_to_write. intros H. destruct filename as [|c f]; [apply Ret_inj in H; by injection H as <- <-|].
  apply bind_inv_Ret in H as (df & _ & H).
  destruct df as [[[|c' d] file]|]; try (apply Ret_inj in H; by injection H as <- <-).
  apply bind_inv_Ret in H as ([newdir|] & _ & H); [|apply Ret_inj in H; by injection H as <- <-].
  apply bind_inv_Ret in H as ([[ok1 d1] w1] & E & H). apply make_path_dirs_noted in E as (N & F & _).
  apply Ret_inj in H. by injection H as <- <-.
Qed.
End Noted.

(** Making the directory of nested data cuts the path in the configuration: the
    server goes on with net/data as net. *)
Example make_config_dir_cuts :
  let mkdir_ok dirs d := match split_path_into_list d with
                         | [_] => true | [a; _] => bool_decide (a ∈ dirs) | _ => false end in
  make_config_dir mkdir_ok ($"net/data") (Writing [] [] []) =
    Ret (true, $"net", Writing [$"net"; $"net/data"] [$"net"; $"net/data"] []).
Proof. by vm_compute. Qed.
