(* ===== verification/Attributes.v ===== *)
(** * Attributes of classes (common/attributes.c)

    A class has the attributes of the base schema and those of its attribute
    file.  An attribute gets a local id, its place in the class, and a global
    id that attributes of the same name share over the classes of a schema,
    which a list of references keeps. *)

From S2P Require Import Prelude CLib CString Misc IpNetwork Types Stdio Records FileInfo ConfigFile FileNames.
Local Open Scope Z_scope.

(** ** Setters *)

Definition with_name (name : cstr) (a : attribute_struct) : attribute_struct :=
  Attribute (attr_global_id a) (attr_local_id a) (is_required a) (is_primary_key a) (is_repeatable a) (is_multi_line a)
    (is_hierarchical a) (is_private a) (attr_aliases a) name (attr_format a) (attr_index a) (attr_kind a) (attr_description a).
Definition with_ids (global_id local_id : Z) (a : attribute_struct) : attribute_struct :=
  Attribute global_id local_id (is_required a) (is_primary_key a) (is_repeatable a) (is_multi_line a) (is_hierarchical a)
    (is_private a) (attr_aliases a) (attr_name a) (attr_format a) (attr_index a) (attr_kind a) (attr_description a).
Definition with_flags (required primary repeatable multi_line hierarchical private : bool) (a : attribute_struct) : attribute_struct :=
  Attribute (attr_global_id a) (attr_local_id a) required primary repeatable multi_line hierarchical private
    (attr_aliases a) (attr_name a) (attr_format a) (attr_index a) (attr_kind a) (attr_description a).
Definition with_texts (aliases : list cstr) (format description : option cstr) (a : attribute_struct) : attribute_struct :=
  Attribute (attr_global_id a) (attr_local_id a) (is_required a) (is_primary_key a) (is_repeatable a) (is_multi_line a)
    (is_hierarchical a) (is_private a) aliases (attr_name a) format (attr_index a) (attr_kind a) description.
Definition with_types (index : attr_index_type) (type : attr_type) (a : attribute_struct) : attribute_struct :=
  Attribute (attr_global_id a) (attr_local_id a) (is_required a) (is_primary_key a) (is_repeatable a) (is_multi_line a)
    (is_hierarchical a) (is_private a) (attr_aliases a) (attr_name a) (attr_format a) index type (attr_description a).
Definition with_attributes (l : list attribute_struct) (c : class_struct) : class_struct :=
  Class_ (class_id c) (class_name c) (class_aliases c) (db_dir c) (parse_program c) l (class_description c) (attr_file c)
         (class_version c).

(** what xcalloc gives *)
Definition blank_attr : attribute_struct :=
  Attribute 0 0 false false false false false false [] [] None INDEX_NONE TYPE_TEXT None.
Definition create_attribute (name : cstr) (desc format : option cstr) (index : attr_index_type) (type : attr_type)
    (is_hierarchical is_required is_repeatable is_primary_key is_multi_line is_private : bool) : attribute_struct :=
  Attribute 0 0 is_required is_primary_key is_repeatable is_multi_line is_hierarchical is_private [] name format index type desc.

(** ** Aliases and references *)

Definition add_attribute_alias (aliases : list cstr) (alias : cstr) : bool * list cstr :=
  if existsb (λ a, STR_EQ alias a) aliases then (false, aliases) else (true, aliases ++ [alias]).

(** the reference at place [p] gets the alias unless some reference has it already *)
Definition add_ref_alias (p : nat) (refs : list attribute_ref_struct) (alias : cstr) : list attribute_ref_struct :=
  match find_global_attr_by_name refs alias with
  | Some _ => refs
  | None => alter (λ r, AttributeRef (ar_global_id r) (ar_name r) (add_attribute_alias (ar_aliases r) alias).2) p refs
  end.
Definition ref_named (name : cstr) (r : attribute_ref_struct) : bool := named name (ar_name r) (ar_aliases r).

(** the references and the global id *)
Definition add_global_attribute (attr : attribute_struct) (refs : list attribute_ref_struct) :
    list attribute_ref_struct * Z :=
  match list_find (λ r, ref_named (attr_name attr) r) refs with
  | Some (p, ref) => (foldl (add_ref_alias p) refs (attr_aliases attr), ar_global_id ref)
  | None =>
      let global_id := match last refs with None => 0 | Some ref => ar_global_id ref + 1 end in
      (foldl (add_ref_alias (length refs)) (refs ++ [AttributeRef global_id (attr_name attr) []]) (attr_aliases attr),
       global_id)
  end.

(** ** Adding an attribute *)

(** [name]: the name of the attribute, which may be null; [refs]: the list of
    references, which may be null too.  The status, the class and the references. *)
Definition add_attribute (name : option cstr) (attr : attribute_struct) (c : class_struct)
    (refs : option (list attribute_ref_struct)) : bool * class_struct * option (list attribute_ref_struct) :=
  match name with
  | None => (false, c, refs)
  | Some name =>
      let attr := with_name name attr in
      let known n := bool_decide (find_attribute_by_name c n ≠ None) in
      if known name || existsb known (attr_aliases attr) then (false, c, refs)
      else if is_primary_key attr && negb (is_required attr) then (false, c, refs)
      else if is_multi_line attr && is_repeatable attr then (false, c, refs)
      else
        let local_id := match last (attribute_list c) with None => attr_local_id attr | Some a => attr_local_id a + 1 end in
        let '(refs, global_id) := match refs with
                                  | None => (None, attr_global_id attr)
                                  | Some l => let '(l, id) := add_global_attribute attr l in (Some l, id)
                                  end in
        (true, with_attributes (attribute_list c ++ [with_ids global_id local_id attr]) c, refs)
  end.

Definition aliased (aliases : list string) (a : attribute_struct) : attribute_struct :=
  with_texts (foldl (λ l s, (add_attribute_alias l (lit s)).2) (attr_aliases a) aliases) (attr_format a) (attr_description a) a.
(** the attributes of the base schema *)
Definition base_schema : list attribute_struct :=
  let create name desc index type hierarchical required repeatable primary multi_line private :=
    create_attribute (lit name) (Some (lit desc)) None index type hierarchical required repeatable primary multi_line private in
  [aliased ["CN"; "Object-Type"; "Schema-Name"]%string
     (create "Class-Name"%string "Type of the object."%string INDEX_NONE TYPE_TEXT false true false false false false);
   create "ID"%string "Globally unique object identifier"%string INDEX_EXACTLY TYPE_TEXT true false false false false false;
   aliased ["AA"%string]
     (create "Auth-Area"%string "Authority area to which the object belongs"%string INDEX_NONE TYPE_TEXT
             true true false false false false);
   aliased ["UP"%string]
     (create "Updated"%string "Last modification time/serial number"%string INDEX_NONE TYPE_TEXT
             false false false false false false);
   aliased ["GRD"%string]
     (create "Guardian"%string "Guardian object"%string INDEX_NONE TYPE_ID false false true false false false);
   aliased ["PVT"%string]
     (create "Private"%string "object is private"%string INDEX_NONE TYPE_TEXT false false false false false true);
   create "TTL"%string "Time to live"%string INDEX_NONE TYPE_TEXT false false false false false false].
Fixpoint add_attributes (l : list attribute_struct) (c : class_struct) (refs : option (list attribute_ref_struct)) :
    bool * class_struct * option (list attribute_ref_struct) :=
  match l with
  | [] => (true, c, refs)
  | a :: l =>
      let '(ok, c, refs) := add_attribute (Some (attr_name a)) a c refs in
      if ok then add_attributes l c refs else (false, c, refs)
  end.
Definition add_base_schema (c : class_struct) (refs : option (list attribute_ref_struct)) :
    bool * class_struct * option (list attribute_ref_struct) := add_attributes base_schema c refs.

Definition is_base_attr (attr : attribute_struct) : bool :=
  existsb (λ s, STR_EQ (attr_name attr) (lit s))
    ["Class-Name"; "CN"; "Object-Type"; "Schema-Name"; "ID"; "Auth-Area"; "AA"; "Updated"; "UP"; "Guardian"; "GRD";
     "Private"; "PVT"; "TTL"]%string.

(** ** Reading the attribute file *)

Definition translate_index_type (itype : cstr) : attr_index_type :=
  if STR_EQ itype ($"ALL") then INDEX_ALL
  else if STR_EQ itype ($"EXACT") then INDEX_EXACTLY
  else if STR_EQ itype ($"CIDR") then INDEX_CIDR
  else if STR_EQ itype ($"SOUNDEX") then INDEX_SOUNDEX
  else INDEX_NONE.
Definition translate_attr_type (type : cstr) : attr_type :=
  if STR_EQ type ($"SEE-ALSO") then TYPE_SEE_ALSO
  else if STR_EQ type ($"ID") then TYPE_ID
  else TYPE_TEXT.
Definition show_attribute_type (type : attr_type) : cstr :=
  match type with TYPE_SEE_ALSO => $"SEE-ALSO" | TYPE_ID => $"ID" | TYPE_TEXT => $"TEXT" end.
Definition show_index_type (index : attr_index_type) : cstr :=
  match index with
  | INDEX_NONE => $"NONE" | INDEX_ALL => $"ALL" | INDEX_EXACTLY => $"EXACT" | INDEX_SOUNDEX => $"SOUNDEX"
  | INDEX_CIDR => $"CIDR" | INDEX_MAX_TYPE => $"UNKNOWN"
  end.

(** An attribute that is being read: its name, which is null at first, and the rest *)
Definition named_attr : Type := option cstr * attribute_struct.

Definition read_attr_field (tag datum : cstr) (s : named_attr) : named_attr :=
  let '(name, a) := s in
  let named t := STR_EQ tag (lit t) in
  let b := true_false datum in
  let flags req prim rep multi hier priv := (name, with_flags req prim rep multi hier priv a) in
  if named "attribute" then (Some datum, a)
  else if named "attribute-alias" then
    (name, with_texts (add_attribute_alias (attr_aliases a) datum).2 (attr_format a) (attr_description a) a)
  else if named "description" then (name, with_texts (attr_aliases a) (attr_format a) (Some datum) a)
  else if named "is-primary-key" then
    flags (is_required a) b (is_repeatable a) (is_multi_line a) (is_hierarchical a) (is_private a)
  else if named "is-hierarchical" then
    flags (is_required a) (is_primary_key a) (is_repeatable a) (is_multi_line a) b (is_private a)
  else if named "is-repeatable" then
    flags (is_required a) (is_primary_key a) b (is_multi_line a) (is_hierarchical a) (is_private a)
  else if named "is-required" then
    flags b (is_primary_key a) (is_repeatable a) (is_multi_line a) (is_hierarchical a) (is_private a)
  else if named "is-multi-line" then
    flags (is_required a) (is_primary_key a) (is_repeatable a) b (is_hierarchical a) (is_private a)
  else if named "is-private" then
    flags (is_required a) (is_primary_key a) (is_repeatable a) (is_multi_line a) (is_hierarchical a) b
  else if named "format" then (name, with_texts (attr_aliases a) (Some datum) (attr_description a) a)
  else if named "index" then (name, with_types (translate_index_type datum) (attr_kind a) a)
  else if named "type" then (name, with_types (attr_index a) (translate_attr_type datum) a)
  else s.

(** the loop and what follows it; [content]: content_flag *)
Fixpoint read_attr_lines (ls : list cstr) (s : named_attr) (content : bool) (c : class_struct)
    (refs : option (list attribute_ref_struct)) : outcome (class_struct * option (list attribute_ref_struct)) :=
  match ls with
  | [] => Ret (if content then let '(_, c, refs) := add_attribute s.1 s.2 c refs in (c, refs) else (c, refs))
  | line :: ls =>
      if is_separator line then
        let '(_, c, refs) := add_attribute s.1 s.2 c refs in read_attr_lines ls (None, blank_attr) false c refs
      else
        td ← config_line line;
        match td with
        | Some (tag, datum) => read_attr_lines ls (read_attr_field tag datum s) true c refs
        | None => read_attr_lines ls s content c refs
        end
  end.
Definition read_attributes (fs : filesystem) (c : class_struct) (refs : option (list attribute_ref_struct)) :
    outcome (bool * class_struct * option (list attribute_ref_struct)) :=
  match attr_file c with
  | None => Ret (true, c, refs)
  | Some file =>
      match fs file with
      | None => Ret (false, c, refs)
      | Some f =>
          ls ← lines_of f;
          '(c, refs) ← read_attr_lines ls (None, blank_attr) false c refs;
          Ret (true, c, refs)
      end
  end.

(** ** Writing it *)

Definition write_attribute_defs (attr : attribute_struct) : list cstr :=
  let line (tag : string) (v : cstr) := field (lit tag) 1 v in
  let text (tag : string) (v : option cstr) := match v with Some ((_ :: _) as v) => [line tag v] | _ => [] end in
  [line "attribute" (attr_name attr)] ++ (line "attribute-alias" <$> attr_aliases attr)
  ++ text "description"%string (attr_description attr) ++ text "format"%string (attr_format attr)
  ++ [line "is-primary-key" (true_false_str (is_primary_key attr)); line "is-required" (true_false_str (is_required attr));
      line "is-repeatable" (true_false_str (is_repeatable attr)); line "is-multi-line" (true_false_str (is_multi_line attr));
      line "is-hierarchical" (true_false_str (is_hierarchical attr)); line "is-private" (true_false_str (is_private attr));
      line "index" (show_index_type (attr_index attr)); line "type" (show_attribute_type (attr_kind attr))].
Fixpoint write_attribute_list (l : list attribute_struct) : list cstr :=
  match l with
  | [] => []
  | attr :: l =>
      (if is_base_attr attr then [] else write_attribute_defs attr ++ match l with [] => [] | _ => [$"-----"] end)
      ++ write_attribute_list l
  end.
Definition with_db_dir (dir : cstr) (c : class_struct) : class_struct :=
  Class_ (class_id c) (class_name c) (class_aliases c) dir (parse_program c) (attribute_list c) (class_description c)
         (attr_file c) (class_version c).
(** The class is among the results, as make_config_dir changes the path of its directory. *)
Definition write_class_attributes (mkdir_ok open_ok : list cstr → cstr → bool) (file : option cstr) (suffix : cstr)
    (c : class_struct) (w : writing) : outcome (bool * class_struct * writing) :=
  match file with
  | Some ((_ :: _) as file) =>
      '(ok, c, w) ← (if has_dir w (db_dir c) then Ret (true, c, w)
                     else '(ok, dir, w) ← make_config_dir mkdir_ok (db_dir c) w; Ret (ok, with_db_dir dir c, w));
      if negb ok then Ret (false, c, w)
      else
        match attribute_list c with
        | [] => Ret (false, c, w)
        | l =>
            name ← new_file file suffix;
            '(ok, w) ← open_file_to_write mkdir_ok open_ok name w;
            Ret (if ok : bool then (true, c, wrote_file name (text (write_attribute_list l)) w) else (false, c, w))
        end
  | _ => Ret (false, c, w)
  end.

(** ** Checking attributes *)

Definition examin_attribute_name (name : option cstr) : option examin_error :=
  if NOT_STR_EXISTS name then Some ERW_EMTYSTR else if is_id_str name then None else Some ERW_IDSTR.
Definition examin_attribute_format (fmt : option cstr) : option examin_error :=
  if NOT_STR_EXISTS fmt then Some ERW_EMTYSTR else None.

Definition count_attribute_entries (l : list attribute_struct) (name : cstr) : nat :=
  match name with
  | [] => 0
  | _ => length (filter (λ s, STR_EQ s name) (l ≫= (λ a, attr_name a :: attr_aliases a)))
  end.
Definition verify_attribute_defs (c : class_struct) (attr : attribute_struct) : bool :=
  (0 <=? attr_local_id attr) && negb (is_primary_key attr && negb (is_required attr))
  && negb (is_multi_line attr && is_repeatable attr)
  && fine (examin_attribute_name (Some (attr_name attr)))
  && forallb (λ alias, fine (examin_attribute_name (Some alias))
                       && (count_attribute_entries (attribute_list c) alias <=? 1)%nat) (attr_aliases attr).
Definition verify_attribute_list (c : class_struct) : bool :=
  forallb (verify_attribute_defs c) (attribute_list c) && existsb (λ a, negb (is_base_attr a)) (attribute_list c).

(** ** Creating attributes *)

Definition add_new_attribute_alias (c : class_struct) (aliases : list cstr) (alias : cstr) : bool * list cstr :=
  match alias with
  | [] => (false, aliases)
  | _ => if bool_decide (find_attribute_by_name c alias ≠ None) then (false, aliases) else add_attribute_alias aliases alias
  end.
Fixpoint add_new_aliases (c : class_struct) (new aliases : list cstr) : option (list cstr) :=
  match new with
  | [] => Some aliases
  | alias :: new =>
      match add_new_attribute_alias c aliases alias with (true, aliases) => add_new_aliases c new aliases | _ => None end
  end.
Definition create_attribute_def (attr : attribute_struct) (c : class_struct) (refs : option (list attribute_ref_struct)) :
    bool * class_struct * option (list attribute_ref_struct) :=
  let newattr := create_attribute (attr_name attr) (attr_description attr) (attr_format attr) (attr_index attr)
                   (attr_kind attr) (is_hierarchical attr) (is_required attr) (is_repeatable attr) (is_primary_key attr)
                   (is_multi_line attr) (is_private attr) in
  match add_new_aliases c (attr_aliases attr) [] with
  | None => (false, c, refs)
  | Some aliases =>
      add_attribute (Some (attr_name newattr)) (with_texts aliases (attr_format newattr) (attr_description newattr) newattr) c refs
  end.

(** ** Labels

    The labels of an attribute or a reference are its name and its aliases. *)

Definition labels (a : attribute_struct) : list cstr := attr_name a :: attr_aliases a.
Definition ref_labels (r : attribute_ref_struct) : list cstr := ar_name r :: ar_aliases r.

Lemma find_first_app {A} (p : A → bool) l k :
  find_first p (l ++ k) = match find_first p l with Some x => Some x | None => find_first p k end.
Proof. induction l as [|x l IH]; simpl; [done|]. by destruct (p x). Qed.

Lemma list_find_first {A} (p : A → bool) l : find_first p l = snd <$> list_find p l.
Proof.
  induction l as [|x l IH]; [done|]. cbn. destruct (p x); cbn; [done|]. rewrite IH. by destruct (list_find p l) as [[]|].
Qed.

(** changing an element in a way that the test does not see *)
Lemma find_first_alter_Some {A} (q : A → bool) (f : A → A) l p x :
  (∀ x, q (f x) = q x) → find_first q l = Some x →
  ∃ x', find_first q (alter f p l) = Some x' ∧ (x' = x ∨ x' = f x).
Proof.
  intros Hq. revert p. induction l as [|y l IH]; intros [|p] H; [done..| |]; cbn in *.
  - rewrite Hq. destruct (q y); [injection H as <-; eauto|eauto].
  - destruct (q y); [injection H as <-; eauto|]. by apply IH.
Qed.
Lemma find_first_alter_hit {A} (q : A → bool) (f : A → A) l p x :
  list_find q l = Some (p, x) → (∀ x, q (f x) = q x) → find_first q (alter f p l) = Some (f x).
Proof.
  intros E Hq. apply list_find_Some in E as (Hp & Hx & Hmin). revert p Hp Hmin.
  induction l as [|y l IH]; intros [|p] Hp Hmin; [done..| |]; cbn.
  - injection Hp as ->. by rewrite Hq, (Is_true_true_1 _ Hx).
  - pose proof (Hmin 0%nat y eq_refl ltac:(lia)) as Hy. apply Is_true_false in Hy. rewrite Hy.
    apply IH; [done|]. intros j z Hj Hlt. apply (Hmin (S j) z Hj). lia.
Qed.

Lemma named_STR_EQ m n s l : STR_EQ m n = true → named m s l = named n s l.
Proof.
  intros E. assert (∀ t, STR_EQ t m = STR_EQ t n) as Ht.
  { intros t. rewrite (STR_EQ_sym t m), (STR_EQ_sym t n). symmetry. by apply STR_EQ_trans. }
  unfold named. rewrite Ht. f_equal. induction l as [|t l IH]; [done|]. cbn. by rewrite Ht, IH.
Qed.
Lemma existsb_elem {A} (p : A → bool) l : existsb p l = true ↔ ∃ x, x ∈ l ∧ p x = true.
Proof. rewrite existsb_exists. setoid_rewrite list_elem_of_In. done. Qed.

Lemma named_true n (c : class_struct) a :
  named n (attr_name a) (attr_aliases a) = true ↔ ∃ s, s ∈ labels a ∧ STR_EQ s n = true.
Proof. apply (existsb_elem (λ s, STR_EQ s n) (labels a)). Qed.

Lemma unknown_label c n a s :
  find_attribute_by_name c n = None → a ∈ attribute_list c → s ∈ labels a → STR_EQ s n = false.
Proof.
  intros Hf Ha Hs. unfold find_attribute_by_name in Hf. rewrite find_first_None in Hf.
  apply not_true_iff_false. intros E. specialize (Hf _ Ha). apply not_true_iff_false in Hf. apply Hf.
  apply (named_true n c). eauto.
Qed.

(** ** What holds of a class *)

(** The local ids are the places, the labels of different attributes differ, and
    the flags do not contradict each other. *)
Record class_ok (c : class_struct) : Prop := {
  local_ids : ∀ i a, attribute_list c !! i = Some a → attr_local_id a = Z.of_nat i;
  distinct : ∀ i j a b s t, attribute_list c !! i = Some a → attribute_list c !! j = Some b → i ≠ j →
    s ∈ labels a → t ∈ labels b → STR_EQ s t = false;
  flags_ok : Forall (λ a, (is_primary_key a → is_required a) ∧ ¬ (is_multi_line a ∧ is_repeatable a)) (attribute_list c) }.

Lemma class_ok_lookup c a :
  class_ok c → a ∈ attribute_list c →
  find_attribute_by_id c (attr_local_id a) = Some a ∧ ∀ s, s ∈ labels a → find_attribute_by_name c s = Some a.
Proof.
  intros [H1 H2 _] (i & Hi)%list_elem_of_lookup. split.
  - unfold find_attribute_by_id. destruct (find_first _ _) as [b|] eqn:E.
    + apply find_first_Some in E as [(j & Hj)%list_elem_of_lookup Hb]. apply Z.eqb_eq in Hb.
      rewrite (H1 _ _ Hi), (H1 _ _ Hj) in Hb. apply Nat2Z.inj in Hb as ->. congruence.
    + rewrite find_first_None in E. specialize (E a). rewrite Z.eqb_refl in E.
      discriminate E. by eapply list_elem_of_lookup_2.
  - intros s Hs. unfold find_attribute_by_name. destruct (find_first _ _) as [b|] eqn:E.
    + apply find_first_Some in E as [(j & Hj)%list_elem_of_lookup Hb].
      apply (named_true s c) in Hb as (t & Ht & Hst).
      destruct (decide (i = j)) as [->|Hij]; [congruence|].
      by rewrite (H2 j i b a t s) in Hst by done.
    + rewrite find_first_None in E. pose proof (E a ltac:(by eapply list_elem_of_lookup_2)) as Hn.
      rewrite (proj2 (named_true s c a)) in Hn; [done|]. exists s. split; [done|apply STR_EQ_refl].
Qed.

(** ** Adding an attribute *)

Lemma known_false c n : bool_decide (find_attribute_by_name c n ≠ None) = false → find_attribute_by_name c n = None.
Proof. intros H%bool_decide_eq_false. destruct (find_attribute_by_name c n); [by contradict H|done]. Qed.

(** either nothing happens or the attribute is appended *)
Lemma add_attribute_spec name attr c refs ok c' refs' :
  add_attribute name attr c refs = (ok, c', refs') →
  (ok = false ∧ c' = c ∧ refs' = refs) ∨
  (ok = true ∧ ∃ n gid lid, name = Some n ∧
    c' = with_attributes (attribute_list c ++ [with_ids gid lid (with_name n attr)]) c ∧
    lid = match last (attribute_list c) with None => attr_local_id attr | Some a => attr_local_id a + 1 end ∧
    (∀ s, s ∈ labels (with_name n attr) → find_attribute_by_name c s = None) ∧
    (is_primary_key attr → is_required attr) ∧ ¬ (is_multi_line attr ∧ is_repeatable attr) ∧
    match refs with
    | None => refs' = None ∧ gid = attr_global_id attr
    | Some l => refs' = Some (add_global_attribute (with_name n attr) l).1 ∧ gid = (add_global_attribute (with_name n attr) l).2
    end).
Proof.
  intros H. destruct name as [n|]; cbn in H; [|left; naive_solver].
  destruct (_ || existsb _ _) eqn:Hk; [left; naive_solver|].
  apply orb_false_iff in Hk as [Hn%known_false Ha].
  destruct (is_primary_key attr && _) eqn:Hp; [left; naive_solver|].
  destruct (is_multi_line attr && _) eqn:Hm; [left; naive_solver|]. right.
  assert (∀ s, s ∈ labels (with_name n attr) → find_attribute_by_name c s = None) as Hl.
  { intros s [->|Hs]%elem_of_cons; [done|]. apply known_false. apply not_true_iff_false. intros E.
    apply not_true_iff_false in Ha. apply Ha. apply existsb_elem. eauto. }
  assert (is_primary_key attr → is_required attr) as Hp' by (intros E; destruct (is_primary_key attr), (is_required attr); done).
  assert (¬ (is_multi_line attr ∧ is_repeatable attr)) as Hm'
    by (intros [E1 E2]; destruct (is_multi_line attr), (is_repeatable attr); done).
  destruct refs as [l|].
  - destruct (add_global_attribute _ l) as [l' g] eqn:Eg. injection H as <- <- <-. split; [done|].
    do 3 eexists. rewrite Eg. split_and!; done.
  - injection H as <- <- <-. split; [done|]. do 3 eexists. split_and!; done.
Qed.

Lemma class_ok_add c n attr gid lid :
  class_ok c →
  (∀ s, s ∈ labels (with_name n attr) → find_attribute_by_name c s = None) →
  (is_primary_key attr → is_required attr) → ¬ (is_multi_line attr ∧ is_repeatable attr) →
  lid = Z.of_nat (length (attribute_list c)) →
  class_ok (with_attributes (attribute_list c ++ [with_ids gid lid (with_name n attr)]) c).
Proof.
  intros [H1 H2 H3] Hl Hp Hm ->. split; cbn [attribute_list with_attributes].
  - intros i a [Hi|[Hi Ha]]%lookup_app_Some; [eauto|]. apply list_lookup_singleton_Some in Ha as [? <-]. cbn. f_equal. lia.
  - intros i j a b s t Hi Hj Hij Hs Ht.
    apply lookup_app_Some in Hi as [Hi|[? Hi]]; apply lookup_app_Some in Hj as [Hj|[? Hj]];
      repeat match goal with H : [_] !! _ = Some _ |- _ => apply list_lookup_singleton_Some in H as [? <-] end.
    + by apply (H2 i j a b s t).
    + apply list_elem_of_lookup_2 in Hi. eapply unknown_label; [by apply Hl|done..].
    + apply list_elem_of_lookup_2 in Hj. rewrite STR_EQ_sym. eapply unknown_label; [by apply Hl|done..].
    + lia.
  - apply Forall_app. split; [done|]. by apply Forall_singleton.
Qed.

Lemma class_ok_last_id c attr :
  class_ok c → (attribute_list c = [] → attr_local_id attr = 0) →
  match last (attribute_list c) with None => attr_local_id attr | Some a => attr_local_id a + 1 end
  = Z.of_nat (length (attribute_list c)).
Proof.
  intros [H _ _] He. destruct (last _) as [a|] eqn:E.
  - rewrite last_lookup in E. pose proof (lookup_lt_Some _ _ _ E). rewrite (H _ _ E). lia.
  - apply last_None in E. rewrite E. by apply He.
Qed.

(** ** References *)

(** every label stays with its global id *)
Definition refs_grow (l l' : list attribute_ref_struct) : Prop :=
  ∀ n r, find_global_attr_by_name l n = Some r →
    ∃ r', find_global_attr_by_name l' n = Some r' ∧ ar_global_id r' = ar_global_id r.
(** the global ids are the places of the references *)
Definition refs_ok (l : list attribute_ref_struct) : Prop := ar_global_id <$> l = seqZ 0 (Z.of_nat (length l)).
(** the attributes have the ids of their references *)
Definition ids_agree (c : class_struct) (l : list attribute_ref_struct) : Prop :=
  ∀ a, a ∈ attribute_list c →
    ∃ r, find_global_attr_by_name l (attr_name a) = Some r ∧ ar_global_id r = attr_global_id a.

#[export] Instance refs_grow_preorder : PreOrder refs_grow.
Proof.
  split; [intros l n r; eauto|]. intros l1 l2 l3 H1 H2 n r (r' & H & <-)%H1. by apply H2.
Qed.
Lemma refs_grow_app l k : refs_grow l (l ++ k).
Proof. intros n r H. unfold find_global_attr_by_name. rewrite find_first_app. fold (find_global_attr_by_name l n). rewrite H. eauto. Qed.
Lemma ids_agree_grow c l l' : ids_agree c l → refs_grow l l' → ids_agree c l'.
Proof. intros H G a (r & (r' & H' & Hr)%G & <-)%H. eauto. Qed.

Lemma find_global_STR_EQ l m n : STR_EQ m n = true → find_global_attr_by_name l m = find_global_attr_by_name l n.
Proof.
  intros E. unfold find_global_attr_by_name. induction l as [|r l IH]; [done|]. cbn [find_first].
  by rewrite (named_STR_EQ m n) by done; rewrite IH.
Qed.

Lemma add_ref_alias_grow p l s : refs_grow l (add_ref_alias p l s).
Proof.
  intros n r Hn. unfold add_ref_alias. destruct (find_global_attr_by_name l s) as [|] eqn:E; [eauto|].
  destruct (STR_EQ s n) eqn:Hs; [by rewrite (find_global_STR_EQ _ _ _ Hs), Hn in E|].
  edestruct (find_first_alter_Some (λ r, named n (ar_name r) (ar_aliases r))
    (λ r, AttributeRef (ar_global_id r) (ar_name r) (add_attribute_alias (ar_aliases r) s).2) l p r) as (r' & Hr' & Hor);
    [|exact Hn|exists r'; split; [exact Hr'|by destruct Hor as [->| ->]]].
  intros x. unfold named, add_attribute_alias. cbn [ar_name ar_aliases].
  destruct (existsb (λ a, STR_EQ s a) (ar_aliases x)); [done|]. cbn [snd]. rewrite existsb_app. cbn.
  by rewrite Hs, !orb_false_r.
Qed.
Lemma add_ref_aliases_grow p l ss : refs_grow l (foldl (add_ref_alias p) l ss).
Proof. revert l. induction ss as [|s ss IH]; intros l; [done|]. etrans; [apply add_ref_alias_grow|apply IH]. Qed.

Lemma add_ref_aliases_ids p l ss : ar_global_id <$> foldl (add_ref_alias p) l ss = ar_global_id <$> l.
Proof.
  revert l. induction ss as [|s ss IH]; intros l; [done|]. cbn. rewrite IH. unfold add_ref_alias.
  destruct (find_global_attr_by_name l s); [done|]. apply list_eq. intros i. rewrite !list_lookup_fmap.
  destruct (decide (i = p)) as [->|Hne]; [rewrite list_lookup_alter_eq; by destruct (l !! p)|by rewrite list_lookup_alter_ne].
Qed.

Lemma refs_ok_ids l l' : refs_ok l → ar_global_id <$> l' = ar_global_id <$> l → refs_ok l'.
Proof.
  unfold refs_ok. intros H E. assert (length l' = length l) as Hl by (by rewrite <-(length_fmap ar_global_id), E, length_fmap).
  by rewrite E, Hl.
Qed.
Lemma refs_ok_last l : refs_ok l → match last l with None => 0 | Some r => ar_global_id r + 1 end = Z.of_nat (length l).
Proof.
  intros H. destruct (last l) as [r|] eqn:E; [|by apply last_None in E as ->].
  rewrite last_lookup in E. pose proof (lookup_lt_Some _ _ _ E). apply (f_equal (lookup (pred (length l)))) in H.
  rewrite list_lookup_fmap, E in H. cbn in H. symmetry in H. apply lookup_seqZ in H as [-> ?]. lia.
Qed.

Lemma add_global_attribute_spec a l :
  refs_ok l →
  let '(l', id) := add_global_attribute a l in
  refs_ok l' ∧ refs_grow l l' ∧
  ∃ r, find_global_attr_by_name l' (attr_name a) = Some r ∧ ar_global_id r = id.
Proof.
  intros Hok. unfold add_global_attribute. destruct (list_find _ l) as [[p ref]|] eqn:E.
  - split; [by eapply refs_ok_ids, add_ref_aliases_ids|]. split; [apply add_ref_aliases_grow|].
    apply (add_ref_aliases_grow p l (attr_aliases a)). unfold find_global_attr_by_name. rewrite (list_find_first (λ r, ref_named (attr_name a) r)).
    by rewrite E.
  - cbn zeta. rewrite (refs_ok_last _ Hok). set (id := Z.of_nat (length l)). split; [|split].
    + eapply refs_ok_ids; [|apply add_ref_aliases_ids]. unfold refs_ok. rewrite fmap_app, Hok, length_app. cbn.
      rewrite Nat2Z.inj_add. cbn. rewrite seqZ_app by lia. by f_equal.
    + etrans; [apply refs_grow_app|apply add_ref_aliases_grow].
    + apply (add_ref_aliases_grow (length l) _ (attr_aliases a) (attr_name a) (AttributeRef id (attr_name a) [])).
      unfold find_global_attr_by_name. rewrite find_first_app.
      destruct (find_first _ l) as [r|] eqn:F.
      * apply find_first_Some in F as [Hr Hn]. apply list_find_None in E. rewrite Forall_forall in E.
        exfalso. apply (E r Hr). unfold ref_named. by rewrite Hn.
      * cbn. unfold named. by rewrite STR_EQ_refl.
Qed.

(** ** Loading a class *)

(** a class and the references agree *)
Definition agrees (c : class_struct) (l : list attribute_ref_struct) : Prop := class_ok c ∧ refs_ok l ∧ ids_agree c l.
(** only attributes and references are added *)
Definition extends (c c' : class_struct) (l l' : list attribute_ref_struct) : Prop :=
  with_attributes [] c = with_attributes [] c' ∧ attribute_list c `prefix_of` attribute_list c' ∧ refs_grow l l'.

Lemma extends_refl c l : extends c c l l.
Proof. done. Qed.
Lemma extends_trans c c1 c2 l l1 l2 : extends c c1 l l1 → extends c1 c2 l1 l2 → extends c c2 l l2.
Proof. intros (H1 & H2 & H3) (K1 & K2 & K3). split_and!; [congruence|by etrans..]. Qed.

Lemma with_attributes_id c k : with_attributes [] (with_attributes k c) = with_attributes [] c.
Proof. done. Qed.

Lemma add_attribute_agrees name attr c l ok c' refs' :
  agrees c l → (attribute_list c = [] → attr_local_id attr = 0) →
  add_attribute name attr c (Some l) = (ok, c', refs') →
  ∃ l', refs' = Some l' ∧ agrees c' l' ∧ extends c c' l l'.
Proof.
  intros (Hc & Hl & Hi) H0 H. apply add_attribute_spec in H as
    [(-> & -> & ->)|(-> & n & gid & lid & -> & -> & -> & Hn & Hp & Hm & -> & ->)]; [by exists l|].
  pose proof (add_global_attribute_spec (with_name n attr) l Hl) as Hg.
  destruct (add_global_attribute _ l) as [l' g]. destruct Hg as (Hl' & Hgrow & Href).
  exists l'. split; [done|]. split; [split_and!; [|done|]|split_and!; [done| |done]].
  - apply class_ok_add; [done..|]. by apply class_ok_last_id.
  - intros a [Ha| ->%list_elem_of_singleton]%elem_of_app; [|done]. by apply (ids_agree_grow _ _ _ Hi Hgrow).
  - by eexists.
Qed.

Lemma add_attributes_agrees k c l ok c' refs' :
  agrees c l → Forall (λ a, attr_local_id a = 0) k →
  add_attributes k c (Some l) = (ok, c', refs') →
  ∃ l', refs' = Some l' ∧ agrees c' l' ∧ extends c c' l l'.
Proof.
  intros Hag Hk. revert c l Hag. induction Hk as [|a k Ha _ IH]; intros c l Hag H; cbn [add_attributes] in H.
  { injection H as <- <- <-. by exists l. }
  destruct (add_attribute (Some (attr_name a)) a c (Some l)) as [[b c1] refs1] eqn:E.
  apply add_attribute_agrees in E as (l1 & -> & H1 & X1); [|done..]. destruct b.
  - apply IH in H as (l2 & -> & H2 & X2); [|done]. exists l2. split_and!; [done..|]. by eapply extends_trans.
  - injection H as <- <- <-. by exists l1.
Qed.

Lemma read_attr_field_local tag datum s : attr_local_id (read_attr_field tag datum s).2 = attr_local_id s.2.
Proof. destruct s as [name a]. unfold read_attr_field. by repeat case_match. Qed.

Lemma config_line_returns line : (∃ td, config_line line = Ret td) ∨ config_line line = Fault.
Proof. unfold config_line. repeat case_match; eauto. Qed.

Lemma read_attr_lines_agrees ls s content c l c' refs' :
  agrees c l → attr_local_id s.2 = 0 →
  read_attr_lines ls s content c (Some l) = Ret (c', refs') →
  ∃ l', refs' = Some l' ∧ agrees c' l' ∧ extends c c' l l'.
Proof.
  revert s content c l. induction ls as [|line ls IH]; intros s content c l Hag Hs H; cbn [read_attr_lines] in H.
  { apply Ret_inj in H. destruct content; [|injection H as <- <-; by exists l].
    destruct (add_attribute s.1 s.2 c (Some l)) as [[b c1] refs1] eqn:E. injection H as <- <-.
    by eapply add_attribute_agrees. }
  destruct (is_separator line).
  - destruct (add_attribute s.1 s.2 c (Some l)) as [[b c1] refs1] eqn:E.
    apply add_attribute_agrees in E as (l1 & -> & H1 & X1); [|done..].
    apply IH in H as (l2 & -> & H2 & X2); [|done..]. exists l2. split_and!; [done..|]. by eapply extends_trans.
  - apply bind_inv_Ret in H as (td & _ & H). destruct td as [[tag datum]|]; [|by apply IH in H].
    apply IH in H; [done..|]. by rewrite read_attr_field_local.
Qed.

Lemma add_attribute_name name attr c refs : class_name (add_attribute name attr c refs).1.2 = class_name c.
Proof.
  destruct (add_attribute name attr c refs) as [[ok c'] refs'] eqn:E.
  by apply add_attribute_spec in E as [(_ & -> & _)|(_ & ? & ? & ? & _ & -> & _)].
Qed.
Lemma read_attr_lines_name ls s content c refs c' refs' :
  read_attr_lines ls s content c refs = Ret (c', refs') → class_name c' = class_name c.
Proof.
  revert s content c refs. induction ls as [|line ls IH]; intros s content c refs H; cbn [read_attr_lines] in H.
  - apply Ret_inj in H. destruct content; [|by injection H as <- <-]. rewrite <-(add_attribute_name s.1 s.2 c refs).
    destruct (add_attribute s.1 s.2 c refs) as [[b c1] refs1]. by injection H as <- <-.
  - destruct (is_separator line).
    + rewrite <-(add_attribute_name s.1 s.2 c refs). destruct (add_attribute s.1 s.2 c refs) as [[b c1] refs1]. by apply IH in H.
    + apply bind_inv_Ret in H as ([[tag datum]|] & _ & H); by apply IH in H.
Qed.

Lemma read_attributes_agrees fs c l ok c' refs' :
  agrees c l → read_attributes fs c (Some l) = Ret (ok, c', refs') →
  ∃ l', refs' = Some l' ∧ agrees c' l' ∧ extends c c' l l'.
Proof.
  intros Hag H. unfold read_attributes in H. destruct (attr_file c) as [file|]; [|apply Ret_inj in H; injection H as <- <- <-; by exists l].
  destruct (fs file) as [f|]; [|apply Ret_inj in H; injection H as <- <- <-; by exists l].
  apply bind_inv_Ret in H as (ls & _ & H). apply bind_inv_Ret in H as ([c1 refs1] & E & H).
  apply Ret_inj in H. injection H as <- <- <-. eapply read_attr_lines_agrees; [done| |exact E]. done.
Qed.

(** a class without attributes, as the readers start *)
Lemma agrees_empty c l : attribute_list c = [] → refs_ok l → agrees c l.
Proof. intros E Hl. split; [split; rewrite E; naive_solver|]. split; [done|]. intros a. rewrite E. by intros ?%elem_of_nil.
Qed.

(** Attributes of the same name have the same global id over the classes. *)
Lemma agrees_same_id c c' l a b :
  ids_agree c l → ids_agree c' l → a ∈ attribute_list c → b ∈ attribute_list c' →
  STR_EQ (attr_name a) (attr_name b) = true → attr_global_id a = attr_global_id b.
Proof.
  intros H H' (r & Hr & <-)%H (r' & Hr' & <-)%H' E. rewrite (find_global_STR_EQ _ _ _ E) in Hr. congruence.
Qed.

(** ** Attributes up to their global ids *)

Definition up_to_global (a : attribute_struct) : attribute_struct := with_ids 0 (attr_local_id a) a.
Definition alike (l k : list attribute_struct) : Prop := up_to_global <$> l = up_to_global <$> k.

Lemma with_ids_eq g i a b : with_ids 0 0 a = with_ids 0 0 b → with_ids g i a = with_ids g i b.
Proof. intros H. by rewrite (eq_refl : with_ids g i a = with_ids g i (with_ids 0 0 a)), H. Qed.

Lemma alike_lookup l k i a : alike l k → k !! i = Some a → ∃ b, l !! i = Some b ∧ up_to_global b = up_to_global a.
Proof.
  intros H Hi. apply (f_equal (lookup i)) in H. rewrite !list_lookup_fmap, Hi in H.
  by apply fmap_Some in H as (b & ? & ?); eauto.
Qed.
Lemma alike_last l k b : alike l k → last l = Some b → ∃ a, last k = Some a ∧ attr_local_id a = attr_local_id b.
Proof.
  intros H Hb. apply (f_equal last) in H. rewrite !fmap_last, Hb in H. symmetry in H.
  apply fmap_Some in H as (a & Ha & E). exists a. split; [done|]. by injection E.
Qed.
Lemma labels_up_to a : labels (up_to_global a) = labels a.
Proof. done. Qed.

(** what stands before the attribute [a] of a class that is well formed neither
    has its labels nor takes its local id *)
Lemma alike_unknown c pre a post c1 s :
  class_ok c → attribute_list c = pre ++ a :: post → alike (attribute_list c1) pre → s ∈ labels a →
  bool_decide (find_attribute_by_name c1 s ≠ None) = false.
Proof.
  intros Hok Hl H1 Hs. apply bool_decide_eq_false. intros Hne. apply Hne.
  unfold find_attribute_by_name. apply find_first_None.
  intros b (i & Hb)%list_elem_of_lookup. apply not_true_iff_false. intros (t & Ht & E)%(named_true s c1).
  destruct (alike_lookup pre (attribute_list c1) i b) as (b' & Hb' & Hlike); [by symmetry|done|].
  pose proof (lookup_lt_Some _ _ _ Hb').
  rewrite <-labels_up_to, <-Hlike, labels_up_to in Ht.
  rewrite (distinct c Hok i (length pre) b' a t s) in E; [done| | |lia|done|done].
  - by rewrite Hl, lookup_app_l.
  - rewrite Hl. by apply list_lookup_middle.
Qed.

Lemma alike_next_id c pre a post c1 attr :
  class_ok c → attribute_list c = pre ++ a :: post → alike (attribute_list c1) pre → attr_local_id attr = 0 →
  match last (attribute_list c1) with None => attr_local_id attr | Some b => attr_local_id b + 1 end = attr_local_id a.
Proof.
  intros Hok Hl H1 H0. rewrite (local_ids c Hok (length pre) a) by (rewrite Hl; by apply list_lookup_middle).
  destruct (last (attribute_list c1)) as [b|] eqn:Eb.
  - destruct (alike_last _ _ _ H1 Eb) as (b' & Hb' & <-). rewrite last_lookup in Hb'.
    pose proof (lookup_lt_Some _ _ _ Hb').
    rewrite (local_ids c Hok (pred (length pre)) b'); [lia|]. by rewrite Hl, lookup_app_l by lia.
  - apply last_None in Eb. rewrite Eb in H1. symmetry in H1. apply fmap_nil_inv in H1 as ->. by rewrite H0.
Qed.

(** an attribute is accepted behind the ones before it in a class that is well formed *)
Lemma add_attribute_accepts c pre a post attr c1 refs :
  class_ok c → attribute_list c = pre ++ a :: post → alike (attribute_list c1) pre →
  with_ids 0 0 (with_name (attr_name a) attr) = with_ids 0 0 a → attr_local_id attr = 0 →
  ∃ c2 refs2, add_attribute (Some (attr_name a)) attr c1 refs = (true, c2, refs2) ∧
    alike (attribute_list c2) (pre ++ [a]) ∧ with_attributes [] c2 = with_attributes [] c1.
Proof.
  intros Hok Hl H1 Hattr H0.
  pose proof (flags_ok c Hok) as Hf. rewrite Hl, Forall_app, Forall_cons in Hf. destruct Hf as (_ & [Hp Hm] & _).
  assert (∀ g, alike (attribute_list c1 ++ [with_ids g (attr_local_id a) (with_name (attr_name a) attr)]) (pre ++ [a])) as Hlike.
  { intros g. unfold alike. rewrite !fmap_app, H1. f_equal. cbn. f_equal. by apply (with_ids_eq 0 (attr_local_id a)). }
  unfold add_attribute. cbn zeta.
  rewrite (alike_unknown c pre a post c1) by (done || left). cbn [orb].
  assert (existsb (λ n, bool_decide (find_attribute_by_name c1 n ≠ None)) (attr_aliases (with_name (attr_name a) attr)) = false) as ->.
  { apply not_true_iff_false. intros (s & Hs & E)%existsb_elem. apply (f_equal attr_aliases) in Hattr. cbn in Hs, Hattr.
    rewrite Hattr in Hs. rewrite (alike_unknown c pre a post c1) in E; [done..|by right]. }
  pose proof (f_equal is_primary_key Hattr) as Eprim. pose proof (f_equal is_required Hattr) as Ereq.
  pose proof (f_equal is_multi_line Hattr) as Emulti. pose proof (f_equal is_repeatable Hattr) as Erep.
  cbn in Eprim, Ereq, Emulti, Erep. cbn [is_primary_key is_required is_multi_line is_repeatable with_name].
  rewrite Eprim, Ereq, Emulti, Erep.
  assert (is_primary_key a && negb (is_required a) = false) as -> by (destruct (is_primary_key a), (is_required a); try done; by destruct Hp).
  assert (is_multi_line a && is_repeatable a = false) as -> by (destruct (is_multi_line a), (is_repeatable a); try done; by destruct Hm).
  cbn [attr_local_id with_name]. rewrite (alike_next_id c pre a post) by done.
  destruct refs as [l|].
  - destruct (add_global_attribute _ l) as [l' g]. do 2 eexists. split_and!; [done|apply Hlike|done].
  - do 2 eexists. split_and!; [done|apply Hlike|done].
Qed.

(** ** Writing and reading *)

(** the pairs of tags and values that are written for an attribute *)
Definition attribute_fields (a : attribute_struct) : list (cstr * cstr) :=
  let text (tag : string) (v : option cstr) := match v with Some ((_ :: _) as v) => [(lit tag, v)] | _ => [] end in
  [($"attribute", attr_name a)] ++ (pair ($"attribute-alias") <$> attr_aliases a)
  ++ text "description"%string (attr_description a) ++ text "format"%string (attr_format a)
  ++ [($"is-primary-key", true_false_str (is_primary_key a)); ($"is-required", true_false_str (is_required a));
      ($"is-repeatable", true_false_str (is_repeatable a)); ($"is-multi-line", true_false_str (is_multi_line a));
      ($"is-hierarchical", true_false_str (is_hierarchical a)); ($"is-private", true_false_str (is_private a));
      ($"index", show_index_type (attr_index a)); ($"type", show_attribute_type (attr_kind a))].
Definition read_fields (l : list (cstr * cstr)) (s : named_attr) : named_attr :=
  foldl (λ s td, read_attr_field td.1 td.2 s) s l.

Definition lower (s : cstr) : cstr := tolower <$> s.
(** an attribute that the file can hold: not of the base schema, the values fit
    into lines, no alias twice *)
Definition writable (a : attribute_struct) : Prop :=
  is_base_attr a = false ∧ Forall short_datum (labels a) ∧ NoDup (lower <$> attr_aliases a) ∧
  from_option short_datum True (attr_description a) ∧ from_option short_datum True (attr_format a) ∧
  attr_index a ≠ INDEX_MAX_TYPE.
#[export] Instance writable_dec a : Decision (writable a).
Proof. unfold writable. destruct (attr_description a), (attr_format a); apply _. Defined.

Lemma write_attribute_defs_fields a : write_attribute_defs a = (λ td, field td.1 1 td.2) <$> attribute_fields a.
Proof.
  unfold write_attribute_defs, attribute_fields. rewrite !fmap_app, <-list_fmap_compose.
  by destruct (attr_description a) as [[|]|], (attr_format a) as [[|]|].
Qed.

Lemma attribute_fields_good a :
  writable a → Forall good_field (attribute_fields a).
Proof.
  intros (_ & (Hn & Hal)%Forall_cons & _ & Hd & Hf & _). unfold attribute_fields.
  assert (∀ b, short_datum (true_false_str b)) as Hb by (intros []; apply (bool_decide_unpack _); vm_compute; exact I).
  assert (∀ (t : string) v, from_option short_datum True v → good_tag (lit t) = true → (length (lit t) < 20)%nat →
    Forall good_field
      match v with Some ((_ :: _) as v) => [(lit t, v)] | _ => [] end) as Ht.
  { intros t [[|c v]|] Hv H1 H2; [constructor| |constructor]. constructor; [done|constructor]. }
  repeat apply Forall_app_2.
  - apply Forall_singleton. split_and!; [done|cbn; lia|done].
  - apply Forall_fmap. eapply Forall_impl; [exact Hal|]. intros s Hs. split_and!; [done|cbn; lia|done].
  - apply Ht; [done|done|cbn; lia].
  - apply Ht; [done|done|cbn; lia].
  - repeat (apply Forall_cons_2; [split_and!; [done|cbn; lia|cbn [snd]; try apply Hb]|]); [| |constructor].
    + destruct (attr_index a); apply (bool_decide_unpack _); vm_compute; exact I.
    + destruct (attr_kind a); apply (bool_decide_unpack _); vm_compute; exact I.
Qed.

Lemma read_aliases name a l :
  NoDup (lower <$> (attr_aliases a ++ l)) →
  read_fields (pair ($"attribute-alias") <$> l) (name, a)
  = (name, with_texts (attr_aliases a ++ l) (attr_format a) (attr_description a) a).
Proof.
  revert a. induction l as [|s l IH]; intros a Hnd.
  { rewrite app_nil_r. by destruct a. }
  change (read_fields (pair ($"attribute-alias") <$> s :: l) (name, a))
    with (read_fields (pair ($"attribute-alias") <$> l) (read_attr_field ($"attribute-alias") s (name, a))).
  assert (existsb (λ t, STR_EQ s t) (attr_aliases a) = false) as E.
  { apply not_true_iff_false. intros (t & Ht & E%STR_EQ_iff)%existsb_elem.
    rewrite fmap_app, NoDup_app in Hnd. destruct Hnd as (_ & Hnd & _).
    apply (Hnd (lower t)); [by apply list_elem_of_fmap_2|]. unfold lower. rewrite <-E. by left. }
  assert (read_attr_field ($"attribute-alias") s (name, a) =
          (name, with_texts (attr_aliases a ++ [s]) (attr_format a) (attr_description a) a)) as Hr.
  { unfold read_attr_field. cbn -[add_attribute_alias true_false translate_index_type translate_attr_type].
    unfold add_attribute_alias. by rewrite E. }
  rewrite Hr, IH; cbn [attr_aliases with_texts]; by rewrite <-app_assoc.
Qed.

Lemma true_false_str_read b : true_false (true_false_str b) = b.
Proof. by destruct b. Qed.
Lemma index_type_read i : i ≠ INDEX_MAX_TYPE → translate_index_type (show_index_type i) = i.
Proof. by destruct i. Qed.
Lemma attr_type_read t : translate_attr_type (show_attribute_type t) = t.
Proof. by destruct t. Qed.

Lemma read_fields_app l k s : read_fields (l ++ k) s = read_fields k (read_fields l s).
Proof. apply foldl_app. Qed.

Lemma read_attr_flags n a primary required repeatable multi hier private index type :
  read_fields [($"is-primary-key", primary); ($"is-required", required); ($"is-repeatable", repeatable);
               ($"is-multi-line", multi); ($"is-hierarchical", hier); ($"is-private", private);
               ($"index", index); ($"type", type)] (n, a)
  = (n, Attribute (attr_global_id a) (attr_local_id a) (true_false required) (true_false primary) (true_false repeatable)
          (true_false multi) (true_false hier) (true_false private) (attr_aliases a) (attr_name a) (attr_format a)
          (translate_index_type index) (translate_attr_type type) (attr_description a)).
Proof. reflexivity. Qed.

Lemma attribute_fields_read a :
  writable a → read_fields (attribute_fields a) (None, blank_attr) = (Some (attr_name a), with_name [] (with_ids 0 0 a)).
Proof.
  intros (_ & _ & Hnd & Hd & Hf & Hi). unfold attribute_fields. rewrite !read_fields_app.
  change (read_fields [($"attribute", attr_name a)] (None, blank_attr)) with (Some (attr_name a), blank_attr).
  rewrite read_aliases by done. cbn [attr_aliases blank_attr app].
  set (s1 := (Some (attr_name a), with_texts (attr_aliases a) (attr_format blank_attr) (attr_description blank_attr) blank_attr)).
  set (s2 := (Some (attr_name a), with_texts (attr_aliases a) (attr_format a) (attr_description a) blank_attr)).
  assert (read_fields match attr_format a with Some ((_ :: _) as v) => [($"format", v)] | _ => [] end
           (read_fields match attr_description a with Some ((_ :: _) as v) => [($"description", v)] | _ => [] end s1) = s2) as ->.
  { unfold s1, s2. destruct (attr_description a) as [[|c d]|]; [by destruct Hd as [[]]| |];
      (destruct (attr_format a) as [[|c' f]|]; [by destruct Hf as [[]]|done..]). }
  unfold s2. rewrite read_attr_flags, !true_false_str_read, index_type_read, attr_type_read by done. done.
Qed.

Lemma read_attr_lines_fields l ls s content c refs :
  Forall good_field l →
  read_attr_lines ((clean <$> ((λ td, field td.1 1 td.2) <$> l)) ++ ls) s content c refs
  = read_attr_lines ls (read_fields l s) (match l with [] => content | _ => true end) c refs.
Proof.
  intros H. revert s content. induction H as [|[t d] l Htd _ IH]; intros s content; [done|].
  destruct (good_field_read _ Htd) as (E1 & E2 & E3). rewrite !fmap_cons. cbn [app]. rewrite E1. cbn [read_attr_lines].
  rewrite E2, E3. cbn [mbind outcome_bind]. rewrite IH. by destruct l.
Qed.

Lemma write_attribute_list_base pre own :
  Forall (λ a, is_base_attr a = true) pre → write_attribute_list (pre ++ own) = write_attribute_list own.
Proof. induction 1 as [|a pre Ha _ IH]; [done|]. cbn [app write_attribute_list]. by rewrite Ha. Qed.

Lemma write_attribute_list_lines own :
  Forall writable own →
  Forall (λ l, is_line l ∧ (length l + 1 < MAX_LINE)%nat) (write_attribute_list own).
Proof.
  induction 1 as [|a own Ha _ IH]; [constructor|]. cbn [write_attribute_list]. rewrite (proj1 Ha).
  apply Forall_app. split; [|done]. apply Forall_app. split.
  - rewrite write_attribute_defs_fields. by apply good_field_lines, attribute_fields_good.
  - destruct own; [constructor|]. apply Forall_singleton. apply (bool_decide_unpack _). vm_compute. exact I.
Qed.

Lemma read_attribute_list pre own c c1 refs :
  class_ok c → attribute_list c = pre ++ own → alike (attribute_list c1) pre → Forall writable own →
  ∃ c2 refs2, read_attr_lines (clean <$> write_attribute_list own) (None, blank_attr) false c1 refs = Ret (c2, refs2) ∧
    alike (attribute_list c2) (attribute_list c) ∧ with_attributes [] c2 = with_attributes [] c1.
Proof.
  intros Hok Hl H1 Hw. revert pre c1 refs Hl H1. induction Hw as [|a own Ha _ IH]; intros pre c1 refs Hl H1.
  { exists c1, refs. rewrite Hl, app_nil_r. done. }
  cbn [write_attribute_list]. rewrite (proj1 Ha), write_attribute_defs_fields, !fmap_app, <-!app_assoc.
  rewrite read_attr_lines_fields, attribute_fields_read by (done || by apply attribute_fields_good).
  destruct (add_attribute_accepts c pre a own (with_name [] (with_ids 0 0 a)) c1 refs) as (c2 & refs2 & E & H2 & Hs); [done..|].
  destruct own as [|b own].
  - cbn [fmap list_fmap app write_attribute_list read_attr_lines]. cbn [fst snd].
    assert (match attribute_fields a with [] => false | _ => true end = true) as -> by done. rewrite E.
    exists c2, refs2. rewrite Hl. done.
  - assert (∀ ls s b, read_attr_lines ((clean <$> [$"-----"]) ++ ls) s b c1 refs =
              let '(_, c, refs) := add_attribute s.1 s.2 c1 refs in read_attr_lines ls (None, blank_attr) false c refs) as -> by done.
    cbn [fst snd]. rewrite E. destruct (IH (pre ++ [a]) c2 refs2) as (c3 & refs3 & E3 & H3 & Hs3); [by rewrite Hl, <-app_assoc|done|].
    exists c3, refs3. rewrite E3, Hs3. done.
Qed.

(** ** The base schema *)

Definition base_attributes : list attribute_struct := imap (λ i a, with_ids (Z.of_nat i) (Z.of_nat i) a) base_schema.

Lemma class_ok_loaded k c :
  Forall (λ a, attr_local_id a = 0) k →
  attribute_list c = attribute_list (add_attributes k (Class_ 0 [] [] [] None [] None None None) (Some [])).1.2 → class_ok c.
Proof.
  intros Hk E. destruct (add_attributes k _ _) as [[b c1] refs1] eqn:H.
  apply add_attributes_agrees in H as (l2 & _ & ([A B C] & _) & _); [|by apply agrees_empty|done].
  split; by rewrite E.
Qed.
Lemma base_class_ok c : attribute_list c = base_attributes → class_ok c.
Proof.
  intros E. apply (class_ok_loaded base_schema); [apply (bool_decide_unpack _); vm_compute; exact I|].
  rewrite E. by vm_compute.
Qed.

Lemma add_attributes_accepts c pre l c1 refs :
  class_ok c → attribute_list c = pre ++ imap (λ i a, with_ids (Z.of_nat (length pre + i)) (Z.of_nat (length pre + i)) a) l →
  Forall (λ a, attr_local_id a = 0) l → alike (attribute_list c1) pre →
  ∃ c2 refs2, add_attributes l c1 refs = (true, c2, refs2) ∧
    alike (attribute_list c2) (attribute_list c) ∧ with_attributes [] c2 = with_attributes [] c1.
Proof.
  intros Hok. revert pre c1 refs. induction l as [|a l IH]; intros pre c1 refs Hl H0 H1.
  { exists c1, refs. rewrite Hl. cbn. rewrite app_nil_r. done. }
  apply Forall_cons in H0 as [Ha H0]. cbn [imap] in Hl. cbn [add_attributes].
  edestruct (add_attribute_accepts c pre) as (c2 & refs2 & E & H2 & Hs);
    [done|exact Hl|exact H1|exact (eq_refl : with_ids 0 0 (with_name (attr_name a) a) = with_ids 0 0 a)|done|].
  cbn [attr_name with_ids] in E. rewrite E.
  destruct (IH (pre ++ [with_ids (Z.of_nat (length pre + 0)) (Z.of_nat (length pre + 0)) a]) c2 refs2)
    as (c3 & refs3 & E3 & H3 & Hs3); [|done|done|].
  - rewrite Hl, <-app_assoc. cbn. do 2 f_equal. apply imap_ext. intros i x _. cbn. rewrite length_app. cbn.
    by rewrite <-Nat.add_assoc.
  - exists c3, refs3. by rewrite E3, Hs3.
Qed.

Lemma add_base_schema_accepts c refs :
  attribute_list c = [] →
  ∃ c1 refs1, add_base_schema c refs = (true, c1, refs1) ∧
    alike (attribute_list c1) base_attributes ∧ with_attributes [] c1 = with_attributes [] c.
Proof.
  intros E. set (cb := with_attributes base_attributes c).
  apply (add_attributes_accepts cb []); [by apply base_class_ok|done| |by rewrite E].
  apply (bool_decide_unpack _). vm_compute. exact I.
Qed.

Lemma alike_base pre : alike pre base_attributes → Forall (λ a, is_base_attr a = true) pre.
Proof.
  intros H. apply Forall_lookup. intros i a Ha. unfold alike in H. symmetry in H.
  destruct (alike_lookup _ _ _ _ H Ha) as (b & Hb & E).
  assert (Forall (λ a, is_base_attr a = true) base_attributes) as Hall by (by repeat (constructor; [by vm_compute|])).
  rewrite Forall_lookup in Hall. rewrite <-(Hall _ _ Hb). apply (f_equal attr_name) in E. cbn in E.
  unfold is_base_attr. by rewrite E.
Qed.

(** a class whose attribute file holds what is written for [c] gets the attributes of [c] *)
Lemma read_attributes_written fs file c c1 refs pre own :
  class_ok c → attribute_list c = pre ++ own → alike pre base_attributes → Forall writable own →
  fs file = Some (text (write_attribute_list (attribute_list c))) →
  attr_file c1 = Some file → alike (attribute_list c1) base_attributes →
  ∃ c2 refs2, read_attributes fs c1 refs = Ret (true, c2, refs2) ∧
    alike (attribute_list c2) (attribute_list c) ∧ with_attributes [] c2 = with_attributes [] c1.
Proof.
  intros Hok Hl Hpre Hw Hfs Hf H1.
  destruct (read_attribute_list pre own c c1 refs) as (c2 & refs2 & E2 & H2 & Hs2);
    [done|done|unfold alike in *; congruence|done|].
  exists c2, refs2. split; [|done].
  rewrite Hl, write_attribute_list_base in Hfs by (by apply alike_base).
  unfold read_attributes. rewrite Hf, Hfs, lines_of_text by (by apply write_attribute_list_lines).
  cbn [mbind outcome_bind]. by rewrite E2.
Qed.

(** What is written, and that all that is made is noted. *)
Lemma write_class_attributes_spec mkdir_ok open_ok file suffix c w ok c' w' :
  write_class_attributes mkdir_ok open_ok file suffix c w = Ret (ok, c', w') →
  noted w w' ∧ attribute_list c' = attribute_list c ∧
  if ok then ∃ name, w_files w' = w_files w ++ [(name, text (write_attribute_list (attribute_list c)))]
  else w_files w' = w_files w.
Proof.
  unfold write_class_attributes. intros H. destruct file as [[|ch file]|]; try (apply Ret_inj in H; by injection H as <- <- <-).
  apply bind_inv_Ret in H as ([[ok1 c1] w1] & E & H).
  assert (noted w w1 ∧ w_files w1 = w_files w ∧ attribute_list c1 = attribute_list c) as (N1 & F1 & <-).
  { destruct (has_dir w (db_dir c)); [apply Ret_inj in E; by injection E as <- <- <-|].
    apply bind_inv_Ret in E as ([[ok2 dir] w2] & E & H2). apply Ret_inj in H2. injection H2 as <- <- <-.
    by apply make_config_dir_noted in E as []. }
  destruct ok1; cbn [negb] in H; [|apply Ret_inj in H; by injection H as <- <- <-].
  destruct (attribute_list c1) as [|a l] eqn:El; [apply Ret_inj in H; injection H as <- <- <-; by rewrite El|].
  apply bind_inv_Ret in H as (name & _ & H). apply bind_inv_Ret in H as ([ok2 w2] & E2 & H).
  apply open_file_to_write_noted in E2 as [N2 F2]. apply Ret_inj in H.
  destruct ok2; injection H as <- <- <-.
  - split; [|split; [by rewrite El|]].
    + etrans; [exact N1|]. etrans; [exact N2|]. auto.
    + exists name. cbn [w_files wrote_file]. by rewrite F2, F1.
  - split_and!; [by etrans|by rewrite El|congruence].
Qed.

(** What the server writes for a class it reads back: the attributes of the
    base schema and the class's own, with their aliases, texts, flags, indexes
    and types, in the same order and with the same local ids.  Only the global
    ids depend on the references of the schema that the class is read into. *)
Theorem class_attributes_roundtrip mkdir_ok open_ok fs attrs suffix c w c' w' name txt file c0 refs pre own :
  class_ok c → attribute_list c = pre ++ own → alike pre base_attributes → Forall writable own →
  write_class_attributes mkdir_ok open_ok attrs suffix c w = Ret (true, c', w') →
  last (w_files w') = Some (name, txt) → fs file = Some txt →
  attribute_list c0 = [] → attr_file c0 = Some file →
  ∃ c1 refs1 c2 refs2, add_base_schema c0 refs = (true, c1, refs1) ∧
    read_attributes fs c1 refs1 = Ret (true, c2, refs2) ∧
    alike (attribute_list c2) (attribute_list c) ∧ with_attributes [] c2 = with_attributes [] c0.
Proof.
  intros Hok Hl Hpre Hw (_ & _ & name' & Hfiles)%write_class_attributes_spec Htxt Hfs H0 Hfile.
  rewrite Hfiles, last_snoc in Htxt. injection Htxt as _ <-.
  destruct (add_base_schema_accepts c0 refs H0) as (c1 & refs1 & E1 & H1 & Hs1).
  destruct (read_attributes_written fs file c c1 refs1 pre own) as (c2 & refs2 & E2 & H2 & Hs2);
    [done..|by apply (f_equal attr_file) in Hs1; rewrite <-Hfile|done|].
  exists c1, refs1, c2, refs2. split_and!; [done..|congruence].
Qed.

Definition demo_own : list attribute_struct :=
  [with_ids 7 7 (aliased ["N"; "Host"]%string
     (create_attribute ($"Host-Name") (Some $"Name of the host") None INDEX_EXACTLY TYPE_TEXT false true false true false false));
   with_ids 8 8
     (create_attribute ($"Note") None (Some $"%s") INDEX_NONE TYPE_TEXT false false false false true false)].
Definition demo_host_class : class_struct :=
  Class_ 0 ($"host") [] ($"data") None (base_attributes ++ demo_own) None (Some $"host.tmpl") None.
Lemma demo_host_ok c : attribute_list c = base_attributes ++ demo_own → class_ok c.
Proof.
  intros E. apply (class_ok_loaded (base_schema ++ (with_ids 0 0 <$> demo_own)));
    [apply (bool_decide_unpack _); vm_compute; exact I|]. rewrite E. by vm_compute.
Qed.

Definition demo_disk : writing := Writing [$"data"] [] [].
Lemma class_attributes_roundtrip_witness :
  ∃ c' w' txt c1 refs1 c2 refs2,
    write_class_attributes (λ _ _, true) (λ _ _, true) (Some $"host.tmpl") [] demo_host_class demo_disk = Ret (true, c', w') ∧
    last (w_files w') = Some ($"host.tmpl", txt) ∧
    add_base_schema (with_attributes [] demo_host_class) (Some []) = (true, c1, refs1) ∧
    read_attributes (λ _, Some txt) c1 refs1 = Ret (true, c2, refs2) ∧
    alike (attribute_list c2) (attribute_list demo_host_class) ∧
    with_attributes [] c2 = with_attributes [] (with_attributes [] demo_host_class).
Proof.
  set (txt := text (write_attribute_list demo_own)). set (w' := wrote_file ($"host.tmpl") txt demo_disk).
  edestruct (class_attributes_roundtrip (λ _ _, true) (λ _ _, true) (λ _, Some txt) (Some $"host.tmpl") [] demo_host_class
    demo_disk demo_host_class w' ($"host.tmpl") txt ($"host.tmpl") (with_attributes [] demo_host_class) (Some [])
    base_attributes demo_own) as (c1 & refs1 & c2 & refs2 & H).
  - by apply demo_host_ok.
  - reflexivity.
  - reflexivity.
  - apply (bool_decide_unpack _). vm_compute. exact I.
  - vm_compute. reflexivity.
  - reflexivity.
  - reflexivity.
  - reflexivity.
  - reflexivity.
  - exists demo_host_class, w', txt, c1, refs1, c2, refs2. split; [vm_compute; reflexivity|]. split; [reflexivity|exact H].
Defined.

(** The global ids do not tell the attributes of a class apart: where one class
    has the attribute Name with the alias N, the attributes Name and N of another
    class get the same global id, and the look-up by it finds the first only. *)
Example shared_global_id :
  let attr n aliases := aliased aliases (create_attribute (lit n) None None INDEX_EXACTLY TYPE_TEXT false false false false false false) in
  let empty := Class_ 0 [] [] [] None [] None None None in
  let '(_, _, refs) := add_attributes [attr "Name" ["N"]]%string empty (Some []) in
  let '(ok, c, _) := add_attributes [attr "Name" []; attr "N" []]%string empty refs in
  ok = true ∧ (attr_name <$> attribute_list c) = [$"Name"; $"N"] ∧ (attr_global_id <$> attribute_list c) = [0; 0] ∧
  attr_name <$> find_attribute_by_global_id c 0 = Some ($"Name").
Proof. by vm_compute. Qed.
