(* ===== verification/Schema.v ===== *)
(** * Schemas of authority areas (common/schema.c)

    The schema file of an area lists its classes.  Reading it fills the list of
    the classes of the area, with the attributes of each, the references to
    attributes that its classes share, and the list of the classes of all areas.
    The server also checks a schema and writes it. *)

From S2P Require Import Prelude CLib CString Misc IpNetwork Types Stdio Records FileInfo FilePath ConfigFile FileNames Attributes.
Local Open Scope Z_scope.

(** ** Classes that are read *)

(** The name of a class that is being read, which is null at first, and the rest *)
Definition named_class : Type := option cstr * class_struct.
Definition blank_class : class_struct := Class_ 0 [] [] [] None [] None None None.
Definition with_class_name (name : cstr) (c : class_struct) : class_struct :=
  Class_ (class_id c) name (class_aliases c) (db_dir c) (parse_program c) (attribute_list c) (class_description c)
         (attr_file c) (class_version c).
Definition with_class_id (id : Z) (c : class_struct) : class_struct :=
  Class_ id (class_name c) (class_aliases c) (db_dir c) (parse_program c) (attribute_list c) (class_description c)
         (attr_file c) (class_version c).
Definition with_class_aliases (aliases : list cstr) (c : class_struct) : class_struct :=
  Class_ (class_id c) (class_name c) aliases (db_dir c) (parse_program c) (attribute_list c) (class_description c)
         (attr_file c) (class_version c).
Definition with_class_texts (program description file version : option cstr) (c : class_struct) : class_struct :=
  Class_ (class_id c) (class_name c) (class_aliases c) (db_dir c) program (attribute_list c) description file version.

Definition add_class_alias (aliases : list cstr) (alias : cstr) : bool * list cstr :=
  match alias with
  | [] => (false, aliases)
  | _ => if existsb (λ a, STR_EQ alias a) aliases then (false, aliases) else (true, aliases ++ [alias])
  end.

Section ReadClass.
Context (fs : filesystem) (directory_exists : cstr → bool) (type : auth_area_type).

(** [None]: the file is given up *)
Definition read_class_field (tag datum : cstr) (s : named_class) : option named_class :=
  let '(name, c) := s in
  let named t := STR_EQ tag (lit t) in
  let texts program description file version := Some (name, with_class_texts program description file version c) in
  if named "schema-version" then texts (parse_program c) (class_description c) (attr_file c) (Some datum)
  else if named "name" then Some (Some datum, c)
  else if named "alias" || named "command" then
    Some (name, with_class_aliases (add_class_alias (class_aliases c) datum).2 c)
  else if named "attributedef" then
    if file_exists fs datum then texts (parse_program c) (class_description c) (Some datum) (class_version c) else None
  else if named "dbdir" then
    if negb (directory_exists datum) && bool_decide (type = AUTH_AREA_PRIMARY) then None
    else Some (name, with_db_dir datum c)
  else if named "description" then texts (parse_program c) (Some datum) (attr_file c) (class_version c)
  else if named "parse-program" then texts (Some datum) (class_description c) (attr_file c) (class_version c)
  else Some s.
End ReadClass.

(** ** The list of the classes of all areas *)

Definition same_auth_area (aa bb : auth_area_struct) : bool :=
  bool_decide (aa_type aa = aa_type bb) && STR_EQ (aa_name aa) (aa_name bb).
Definition is_duplicate_aa (aa : auth_area_struct) (l : list auth_area_struct) : bool :=
  existsb (λ bb, same_auth_area bb aa) l.

Definition class_ref_named (name : cstr) (r : class_ref_struct) : bool := named name (cr_name r) (cr_aliases r).
(** the reference at place [p] gets the alias unless some reference has it already *)
Definition add_class_ref_alias (p : nat) (refs : list class_ref_struct) (alias : cstr) : list class_ref_struct :=
  match find_global_class_by_name refs alias with
  | Some _ => refs
  | None => alter (λ r, ClassRef (cr_name r) (add_class_alias (cr_aliases r) alias).2 (cr_auth_area_list r)) p refs
  end.
(** the static list class_ref_list, the empty list for NULL *)
Definition add_global_class (c : class_struct) (aa : auth_area_struct) (refs : list class_ref_struct) :
    bool * list class_ref_struct :=
  match list_find (λ r, class_ref_named (class_name c) r) refs with
  | Some (p, ref) =>
      if is_duplicate_aa aa (cr_auth_area_list ref) then (false, refs)
      else (true, foldl (add_class_ref_alias p)
                    (alter (λ r, ClassRef (cr_name r) (cr_aliases r) (cr_auth_area_list r ++ [aa])) p refs) (class_aliases c))
  | None =>
      (true, foldl (add_class_ref_alias (length refs)) (refs ++ [ClassRef (class_name c) [] [aa]]) (class_aliases c))
  end.

(** [stale]: the areas that have been destroyed, but stand in the list of a
    reference: the place of the reference, and how many of its areas stand before.
    The walk over the areas meets a destroyed one unless it finds [aa] before. *)
Definition meets_stale (stale : list (nat * nat)) (c : class_struct) (aa : auth_area_struct) (refs : list class_ref_struct) : bool :=
  match list_find (λ r, class_ref_named (class_name c) r) refs with
  | Some (p, ref) =>
      existsb (λ qk, (qk.1 =? p)%nat && negb (is_duplicate_aa aa (take qk.2 (cr_auth_area_list ref)))) stale
  | None => false
  end.

(** ** Reading a schema *)

(** What reading a schema changes.  [dangling]: the last class of the list has
    been destroyed, but is still in the list. *)
Record loading := Loading { l_schema : schema_struct; l_refs : list class_ref_struct; dangling : bool }.

Section ReadSchema.
Context (fs : filesystem) (directory_exists : cstr → bool) (aa : auth_area_struct) (stale : list (nat * nat)).

(** [name]: the name of the class, which may be null *)
Definition add_class (name : option cstr) (c : class_struct) (st : loading) : outcome (bool * loading) :=
  match name with
  | None => Ret (false, st)
  | Some name =>
      if dangling st then Fault
      else
        let id := match last (class_list (l_schema st)) with None => 0 | Some t => class_id t + 1 end in
        let c := with_class_id id (with_class_name name c) in
        let with_attr_refs refs :=
          Loading (Schema (class_list (l_schema st)) (default [] refs)) (l_refs st) false in
        let '(ok, c, refs) := add_base_schema c (Some (attribute_ref_list (l_schema st))) in
        if negb ok then Ret (false, with_attr_refs refs)
        else
          '(ok, c, refs) ← read_attributes fs c refs;
          if negb ok then Ret (false, with_attr_refs refs)
          else if meets_stale stale c aa (l_refs st) then Fault
          else
            let '(ok, crefs) := add_global_class c aa (l_refs st) in
            Ret (ok, Loading (Schema (class_list (l_schema st) ++ [c]) (default [] refs)) crefs false)
  end.
(** add_class and destroy_class_data if it fails *)
Definition commit_class (s : named_class) (st : loading) : outcome loading :=
  '(ok, st') ← add_class s.1 s.2 st;
  if ok : bool then Ret st'
  else Ret (Loading (l_schema st') (l_refs st')
              (dangling st' || (length (class_list (l_schema st)) <? length (class_list (l_schema st')))%nat)).

Fixpoint read_schema_lines (ls : list cstr) (s : named_class) (content : bool) (st : loading) : outcome (bool * loading) :=
  match ls with
  | [] => if content then st ← commit_class s st; Ret (true, st) else Ret (true, st)
  | line :: ls =>
      if is_separator line then
        st ← commit_class s st; read_schema_lines ls (None, blank_class) false st
      else
        td ← config_line line;
        match td with
        | Some (tag, datum) =>
            match read_class_field fs directory_exists (aa_type aa) tag datum s with
            | Some s => read_schema_lines ls s true st
            | None => Ret (false, st)
            end
        | None => read_schema_lines ls s content st
        end
  end.
(** with the schema of the area, [None] if the area has none *)
Definition read_schema (refs : list class_ref_struct) : outcome (bool * option loading) :=
  match aa_schema aa, schema_file aa with
  | Some schema, Some file =>
      match fs file with
      | None => Ret (false, Some (Loading schema refs false))
      | Some f =>
          ls ← lines_of f;
          '(ok, st) ← read_schema_lines ls (None, blank_class) false (Loading (Schema [] []) refs false);
          Ret (ok, Some st)
      end
  | schema, _ => Ret (false, (λ schema, Loading schema refs false) <$> schema)
  end.
End ReadSchema.

(** ** Writing a schema *)

Definition write_class_lines (c : class_struct) : list cstr :=
  let line (tag : string) (v : cstr) := field (lit tag) 1 v in
  let text (tag : string) (v : option cstr) := match v with Some ((_ :: _) as v) => [line tag v] | _ => [] end in
  [line "name" (class_name c)] ++ (line "alias" <$> class_aliases c)
  ++ text "description"%string (class_description c)
  ++ [line "dbdir" (db_dir c); line "attributedef" (default [] (attr_file c))]
  ++ text "parse-program"%string (parse_program c) ++ text "schema-version"%string (class_version c).

Section WriteSchema.
Context (mkdir_ok open_ok : list cstr → cstr → bool) (suffix : cstr).

(** the lines of the schema file, the classes (the paths of their directories may change) *)
Fixpoint write_classes (l : list class_struct) (w : writing) : outcome (bool * list cstr * list class_struct * writing) :=
  match l with
  | [] => Ret (true, [], [], w)
  | c :: l =>
      '(ok, c', w) ← write_class_attributes mkdir_ok open_ok (attr_file c) suffix c w;
      if ok : bool then
        '(ok, ls, l', w) ← write_classes l w;
        Ret (ok, write_class_lines c ++ match l with [] => [] | _ => [$"-----"] end ++ ls, c' :: l', w)
      else Ret (false, write_class_lines c, c' :: l, w)
  end.
Definition write_schema_file (file : option cstr) (type : auth_area_type) (schema : option schema_struct) (w : writing) :
    outcome (bool * option schema_struct * writing) :=
  match file with
  | Some ((_ :: _) as file) =>
      if decide (type = AUTH_AREA_SECONDARY) then Ret (true, schema, w)
      else
        name ← new_file file suffix;
        '(ok, w) ← open_file_to_write mkdir_ok open_ok name w;
        if negb ok then Ret (false, schema, w)
        else
          s ← of_option schema;
          '(ok, ls, l, w) ← write_classes (class_list s) w;
          Ret (ok, Some (Schema l (attribute_ref_list s)), wrote_file name (text ls) w)
  | _ => Ret (false, schema, w)
  end.
End WriteSchema.

(** ** Checking a schema *)

Definition examin_schema_version (version : option cstr) : option examin_error := examin_timestamp version.
Definition examin_class_name (name : option cstr) : option examin_error :=
  if NOT_STR_EXISTS name then Some ERW_EMTYSTR else if is_id_str name then None else Some ERW_IDSTR.
Definition count_class_entries (l : list class_struct) (name : cstr) : nat :=
  length (filter (λ s, STR_EQ s name) (l ≫= (λ c, class_name c :: class_aliases c))).

Section Verify.
Context (fs : filesystem) (directory_exists : cstr → bool) (executable : cstr → bool).
(** the root directory and the path of the programs; the arrays that are not initialised *)
Context (root_dir bin_path : cstr) (fullpath new_path : buf).

Definition examin_class_db_dir (path : option cstr) : outcome (option examin_error) :=
  examin_under_root (examin_directory_name fs) fullpath root_dir path.
Definition examin_class_attr_file (path : option cstr) : outcome (option examin_error) :=
  examin_under_root (examin_file_name directory_exists) fullpath root_dir path.
(** an absolute path is not looked at, but the array, as it is *)
Definition examin_class_parse_prog (path : option cstr) : outcome (option examin_error) :=
  match path with
  | None => Ret (Some ERW_NDEF)
  | Some [] => Ret (Some ERW_EMTYSTR)
  | Some path =>
      let examin p := examin_executable_name fs directory_exists executable (Some p) in
      if is_rel_path (Some path) then
        match examin path with
        | None => Ret None
        | Some _ =>
            let p := take 511 bin_path ++ [SLASH] ++ take 511 path in
            if (length p <? 512)%nat then Ret (examin p) else Fault
        end
      else _ ← strlen new_path; Ret (examin (cstring new_path))
  end.

Definition verify_class (s : schema_struct) (c : class_struct) : outcome bool :=
  let once name := fine (examin_class_name (Some name)) && (count_class_entries (class_list s) name <=? 1)%nat in
  if negb (once (class_name c) && forallb once (class_aliases c)) then Ret false
  else
    dir ← examin_class_db_dir (Some (db_dir c));
    if negb (fine dir) then Ret false
    else
      file ← examin_class_attr_file (attr_file c);
      if negb (fine file) then Ret false
      else if negb (fine (examin_schema_version (class_version c))) then Ret false
      else
        prog ← match parse_program c with Some (_ :: _) => examin_class_parse_prog (parse_program c) | _ => Ret None end;
        Ret (fine prog && (0 <=? class_id c) && verify_attribute_list c).
Fixpoint verify_classes (s : schema_struct) (l : list class_struct) : outcome bool :=
  match l with
  | [] => Ret true
  | c :: l => ok ← verify_class s c; if ok : bool then verify_classes s l else Ret false
  end.
(** [dead]: the last class of the list has been destroyed.  The check of the
    first class counts the names of all classes, if its own name is fine. *)
Definition verify_schema (dead : bool) (s : option schema_struct) : outcome bool :=
  s ← of_option s;
  match class_list s with
  | [] => Ret false
  | c :: l =>
      if dead && (bool_decide (l = []) || fine (examin_class_name (Some (class_name c)))) then Fault
      else verify_classes s (c :: l)
  end.
End Verify.

(** ** Changing a schema *)

Definition append_class (c : class_struct) (s : schema_struct) : schema_struct :=
  let id := match last (class_list s) with None => 0 | Some t => class_id t + 1 end in
  Schema (class_list s ++ [with_class_id id c]) (attribute_ref_list s).
Definition update_schema_version (now : cstr) (c : class_struct) : class_struct :=
  match class_version c with
  | None => c
  | Some v => with_class_texts (parse_program c) (class_description c) (attr_file c) (Some (get_updated_timestamp now v)) c
  end.
Definition add_new_class_alias (s : option schema_struct) (c : class_struct) (alias : cstr) : bool * class_struct :=
  match alias with
  | [] => (false, c)
  | _ => if bool_decide (find_class_by_name s alias ≠ None) then (false, c)
         else let '(ok, l) := add_class_alias (class_aliases c) alias in (ok, with_class_aliases l c)
  end.

(** The paths of the classes of an area: how many are in use already.  The name
    of a path in the log stands in an array of MAX_LINE bytes. *)
Definition path_label (names : list cstr) : outcome unit :=
  if (foldr (λ n k, length n + 1 + k) 0 names <=? 512)%nat then Ret tt else Fault.
Fixpoint verify_all_class_paths (aa_name : cstr) (l : list class_struct) (paths : list cstr) : outcome (nat * list cstr) :=
  match l with
  | [] => Ret (0%nat, paths)
  | c :: l =>
      _ ← path_label [aa_name; class_name c; $"dbdir"];
      let '(d1, paths) := dup_config_path_name paths (Some (db_dir c)) in
      _ ← path_label [aa_name; class_name c; $"attributedef"];
      let '(d2, paths) := dup_config_path_name paths (attr_file c) in
      '(n, paths) ← verify_all_class_paths aa_name l paths;
      Ret ((if d1 then 1 else 0) + (if d2 then 1 else 0) + n, paths)%nat
  end.
Fixpoint verify_class_parse_progs (aa_name : cstr) (l : list class_struct) (paths : list cstr) : outcome nat :=
  match l with
  | [] => Ret 0%nat
  | c :: l =>
      _ ← path_label [aa_name; class_name c; $"parse-program"];
      n ← verify_class_parse_progs aa_name l paths;
      Ret ((if in_config_path_list paths (parse_program c) then 1 else 0) + n)%nat
  end.

(** ** The list of the classes of all areas grows *)

(** labels stay with their classes, and classes with their areas *)
Definition crefs_grow (l l' : list class_ref_struct) : Prop :=
  ∀ n r, find_global_class_by_name l n = Some r →
    ∃ r', find_global_class_by_name l' n = Some r' ∧ cr_auth_area_list r `prefix_of` cr_auth_area_list r'.
#[export] Instance crefs_grow_preorder : PreOrder crefs_grow.
Proof.
  split; [intros l n r; eauto|]. intros l1 l2 l3 H1 H2 n r (r' & (r'' & H & P')%H2 & P)%H1. exists r''. split; [done|by etrans].
Qed.

Lemma find_global_class_STR_EQ l m n : STR_EQ m n = true → find_global_class_by_name l m = find_global_class_by_name l n.
Proof.
  intros E. unfold find_global_class_by_name. induction l as [|r l IH]; [done|]. cbn [find_first].
  by rewrite (named_STR_EQ m n) by done; rewrite IH.
Qed.

Lemma crefs_grow_app l k : crefs_grow l (l ++ k).
Proof.
  intros n r H. unfold find_global_class_by_name. rewrite find_first_app. fold (find_global_class_by_name l n). rewrite H. eauto.
Qed.
Lemma add_class_ref_alias_grow p l s : crefs_grow l (add_class_ref_alias p l s).
Proof.
  intros n r Hn. unfold add_class_ref_alias. destruct (find_global_class_by_name l s) as [|] eqn:E; [eauto|].
  destruct (STR_EQ s n) eqn:Hs; [by rewrite (find_global_class_STR_EQ _ _ _ Hs), Hn in E|].
  edestruct (find_first_alter_Some (λ r, named n (cr_name r) (cr_aliases r))
    (λ r, ClassRef (cr_name r) (add_class_alias (cr_aliases r) s).2 (cr_auth_area_list r)) l p r) as (r' & Hr' & Hor); [|exact Hn|].
  - intros x. unfold named, add_class_alias. cbn [cr_name cr_aliases]. destruct s as [|c s]; [done|].
    destruct (existsb (λ a, STR_EQ (c :: s) a) (cr_aliases x)); [done|]. cbn [snd]. rewrite existsb_app. cbn.
    by rewrite Hs, !orb_false_r.
  - exists r'. split; [exact Hr'|]. by destruct Hor as [->| ->].
Qed.
Lemma add_class_ref_aliases_grow p l ss : crefs_grow l (foldl (add_class_ref_alias p) l ss).
Proof. revert l. induction ss as [|s ss IH]; intros l; [done|]. etrans; [apply add_class_ref_alias_grow|apply IH]. Qed.

Lemma add_area_grow p aa l :
  crefs_grow l (alter (λ r, ClassRef (cr_name r) (cr_aliases r) (cr_auth_area_list r ++ [aa])) p l).
Proof.
  intros n r Hn. edestruct (find_first_alter_Some (λ r, named n (cr_name r) (cr_aliases r))
    (λ r, ClassRef (cr_name r) (cr_aliases r) (cr_auth_area_list r ++ [aa])) l p r) as (r' & Hr' & Hor); [done|exact Hn|].
  exists r'. split; [exact Hr'|]. destruct Hor as [->| ->]; [done|by eexists].
Qed.

Lemma same_auth_area_refl aa : same_auth_area aa aa = true.
Proof. unfold same_auth_area. by rewrite bool_decide_eq_true_2, STR_EQ_refl. Qed.
Lemma is_duplicate_aa_app aa l k : is_duplicate_aa aa (l ++ k) = is_duplicate_aa aa l || is_duplicate_aa aa k.
Proof. apply existsb_app. Qed.

(** the area has the class *)
Definition area_has (aa : auth_area_struct) (refs : list class_ref_struct) (name : cstr) : Prop :=
  ∃ r, find_global_class_by_name refs name = Some r ∧ is_duplicate_aa aa (cr_auth_area_list r) = true.
Lemma area_has_grow aa l l' n : crefs_grow l l' → area_has aa l n → area_has aa l' n.
Proof.
  intros H (r & (r' & Hr' & [k Ek])%H & Hd). exists r'. split; [done|]. by rewrite Ek, is_duplicate_aa_app, Hd.
Qed.

Lemma add_global_class_spec c aa refs ok refs' :
  add_global_class c aa refs = (ok, refs') →
  crefs_grow refs refs' ∧ area_has aa refs' (class_name c) ∧
  (area_has aa refs (class_name c) ↔ ok = false).
Proof.
  unfold add_global_class. intros H.
  assert (find_global_class_by_name refs (class_name c) = snd <$> list_find (λ r, class_ref_named (class_name c) r) refs) as Hf
    by (rewrite <-list_find_first; done).
  destruct (list_find _ refs) as [[p ref]|] eqn:E; cbn in Hf.
  - destruct (is_duplicate_aa aa (cr_auth_area_list ref)) eqn:Hd.
    + injection H as <- <-. split; [done|]. assert (area_has aa refs (class_name c)) by (by exists ref). done.
    + injection H as <- <-. set (refs1 := alter _ p refs).
      assert (crefs_grow refs1 (foldl (add_class_ref_alias p) refs1 (class_aliases c))) as G1 by apply add_class_ref_aliases_grow.
      split; [etrans; [apply add_area_grow|exact G1]|]. split.
      * apply (area_has_grow _ _ _ _ G1). eexists. split; [by apply (find_first_alter_hit _ _ _ _ _ E)|].
        cbn [cr_auth_area_list]. rewrite is_duplicate_aa_app. cbn. by rewrite same_auth_area_refl, orb_true_r.
      * split; [|done]. intros (r & Hr & Hdup). rewrite Hf in Hr. injection Hr as <-. by rewrite Hd in Hdup.
  - injection H as <- <-. set (refs1 := refs ++ _).
    assert (crefs_grow refs1 (foldl (add_class_ref_alias (length refs)) refs1 (class_aliases c))) as G1
      by apply add_class_ref_aliases_grow.
    split; [etrans; [apply crefs_grow_app|exact G1]|]. split.
    + apply (area_has_grow _ _ _ _ G1). exists (ClassRef (class_name c) [] [aa]).
      split; [|cbn; by rewrite same_auth_area_refl].
      unfold refs1, find_global_class_by_name. rewrite find_first_app. fold (find_global_class_by_name refs (class_name c)).
      rewrite Hf. cbn. unfold named. by rewrite STR_EQ_refl.
    + split; [|done]. intros (r & Hr & _). by rewrite Hf in Hr.
Qed.

(** ** What holds of a schema that was read *)

(** every class has the base schema first *)
Definition on_base (c : class_struct) : Prop :=
  ∃ pre own, attribute_list c = pre ++ own ∧ alike pre base_attributes.
(** The ids of the classes are their places; the attributes of every class are
    well formed, begin with the base schema and agree with the references. *)
Record schema_ok (s : schema_struct) : Prop := {
  class_ids : ∀ i c, class_list s !! i = Some c → class_id c = Z.of_nat i;
  classes_ok : ∀ c, c ∈ class_list s → agrees c (attribute_ref_list s) ∧ on_base c;
  attr_refs_ok : refs_ok (attribute_ref_list s) }.
(** The classes but for the last one, if that has been destroyed. *)
Definition live_schema (dead : bool) (s : schema_struct) : schema_struct :=
  Schema (if dead then take (length (class_list s) - 1) (class_list s) else class_list s) (attribute_ref_list s).
Lemma live_lookup dead s i c :
  class_list (live_schema dead s) !! i = Some c ↔ class_list s !! i = Some c ∧ (dead = true → S i < length (class_list s))%nat.
Proof.
  unfold live_schema. destruct dead; cbn [class_list]; [|naive_solver]. rewrite lookup_take_Some. split; intros [H Hi]; (split; [done|]).
  - intros _. lia.
  - specialize (Hi eq_refl). lia.
Qed.
Lemma live_elem dead s c : c ∈ class_list (live_schema dead s) → c ∈ class_list s.
Proof. intros (i & [H _]%live_lookup)%list_elem_of_lookup. by eapply list_elem_of_lookup_2. Qed.

(** while the schema of the area is read: the classes are registered, and the
    names of those that have not been destroyed differ *)
Record loading_ok (aa : auth_area_struct) (st : loading) : Prop := {
  loading_schema : schema_ok (l_schema st);
  registered : ∀ c, c ∈ class_list (l_schema st) → area_has aa (l_refs st) (class_name c);
  names_differ : ∀ i j c d, class_list (live_schema (dangling st) (l_schema st)) !! i = Some c →
    class_list (live_schema (dangling st) (l_schema st)) !! j = Some d → i ≠ j → STR_EQ (class_name c) (class_name d) = false;
  dead_class : dangling st = true → class_list (l_schema st) ≠ [] }.

Lemma on_base_grow c c' l l' : on_base c → extends c c' l l' → on_base c'.
Proof. intros (pre & own & E & H) (_ & [k Ek] & _). exists pre, (own ++ k). by rewrite Ek, E, <-app_assoc. Qed.

Lemma schema_ok_refs s l :
  schema_ok s → refs_ok l → refs_grow (attribute_ref_list s) l → schema_ok (Schema (class_list s) l).
Proof.
  intros [H1 H2 H3] Hl Hg. split; [done| |done]. cbn. intros c ((Hc & _ & Hi) & Hb)%H2. split; [|done].
  split; [done|]. split; [done|]. by eapply ids_agree_grow.
Qed.

Lemma schema_ok_app s c l :
  schema_ok (Schema (class_list s) l) → agrees c l → on_base c →
  class_id c = Z.of_nat (length (class_list s)) → schema_ok (Schema (class_list s ++ [c]) l).
Proof.
  intros [H1 H2 H3] Hc Hb Hid. split; cbn in *; [| |done].
  - intros i d [Hi|[? Hi]]%lookup_app_Some; [by apply H1|]. apply list_lookup_singleton_Some in Hi as [? <-]. rewrite Hid. f_equal. lia.
  - intros d [Hd| ->%list_elem_of_singleton]%elem_of_app; [by apply H2|done].
Qed.

Lemma live_schema_ok dead s : schema_ok s → schema_ok (live_schema dead s).
Proof.
  intros [H1 H2 H3]. split; [|intros c Hc; apply H2; by eapply live_elem|done]. intros i c [H _]%live_lookup. by apply H1.
Qed.

Lemma next_class_id s : schema_ok s →
  match last (class_list s) with None => 0 | Some t => class_id t + 1 end = Z.of_nat (length (class_list s)).
Proof.
  intros H. destruct (last (class_list s)) as [c|] eqn:E; [|by apply last_None in E as ->].
  rewrite last_lookup in E. rewrite (class_ids s H _ _ E). apply lookup_lt_Some in E. lia.
Qed.

(** the fields of a class that its attribute file does not change *)
Lemma same_fields c c' : with_attributes [] c = with_attributes [] c' →
  class_id c = class_id c' ∧ class_name c = class_name c' ∧ class_aliases c = class_aliases c'.
Proof. by intros [= E1 E2 E3 _ _ _ _ _]. Qed.

(** add_class leaves the list, or appends a class of the name and the aliases given *)
Lemma add_class_spec fs aa stale name c st ok st' :
  schema_ok (l_schema st) → attribute_list c = [] → add_class fs aa stale name c st = Ret (ok, st') →
  schema_ok (l_schema st') ∧
  ((ok = false ∧ class_list (l_schema st') = class_list (l_schema st) ∧ l_refs st' = l_refs st ∧ dangling st' = dangling st) ∨
   dangling st = false ∧ dangling st' = false ∧
   ∃ n c', name = Some n ∧ class_list (l_schema st') = class_list (l_schema st) ++ [c'] ∧ class_name c' = n ∧
     crefs_grow (l_refs st) (l_refs st') ∧ area_has aa (l_refs st') n ∧ (area_has aa (l_refs st) n ↔ ok = false)).
Proof.
  intros Hok Hc H. unfold add_class in H. destruct name as [n|]; [|apply Ret_inj in H; injection H as <- <-; split; [done|by left]].
  destruct (dangling st) eqn:Hd; [done|]. rewrite next_class_id in H by done.
  set (c0 := with_class_id _ _) in H.
  destruct (add_base_schema_accepts c0 (Some (attribute_ref_list (l_schema st)))) as (c1 & refs1 & E1 & Hbase & Hs1); [done|].
  rewrite E1 in H. cbn [negb] in H.
  assert (∃ l1, refs1 = Some l1 ∧ agrees c1 l1 ∧ extends c0 c1 (attribute_ref_list (l_schema st)) l1) as (l1 & -> & Ha1 & X1).
  { eapply add_attributes_agrees; [by apply agrees_empty, attr_refs_ok| |exact E1]. apply (bool_decide_unpack _). vm_compute. exact I. }
  apply bind_inv_Ret in H as ([[ok2 c2] refs2] & E2 & H).
  apply (read_attributes_agrees _ _ _ _ _ _ Ha1) in E2 as (l2 & -> & Ha2 & X2).
  assert (refs_grow (attribute_ref_list (l_schema st)) l2) as Hg by (etrans; [apply X1|apply X2]).
  assert (schema_ok (Schema (class_list (l_schema st)) l2)) as Hs by (apply schema_ok_refs; [done|apply Ha2|done]).
  destruct ok2; cbn [negb] in H; [|apply Ret_inj in H; injection H as <- <-; split; [done|by left]].
  destruct (meets_stale stale c2 aa (l_refs st)); [discriminate H|].
  destruct (add_global_class c2 aa (l_refs st)) as [ok3 crefs] eqn:E3. apply Ret_inj in H. injection H as <- <-.
  destruct (same_fields c0 c2) as (Hid & Hn & _); [etrans; [apply X1|apply X2]|]. cbn in Hid, Hn.
  apply add_global_class_spec in E3 as (G & Hh & Hiff). rewrite <-Hn in Hh, Hiff. cbn [default l_schema]. split.
  - apply schema_ok_app; [done..| |by rewrite <-Hid]. eapply on_base_grow; [|exact X2].
    exists (attribute_list c1), []. by rewrite app_nil_r.
  - right. split_and!; [done..|]. exists n, c2. done.
Qed.

Lemma commit_class_ok fs aa stale s st st' :
  loading_ok aa st → attribute_list s.2 = [] → commit_class fs aa stale s st = Ret st' → loading_ok aa st'.
Proof.
  intros [Hok Hreg Hnd Hne] Hs H. unfold commit_class in H. apply bind_inv_Ret in H as ([ok st1] & E & H).
  apply add_class_spec in E as (Hok1 & [(-> & El & Er & Ed)|(Hd & Hd1 & n & c' & En & El & Hn & G & Hh & Hiff)]); [| |done|done].
  - apply Ret_inj in H. subst st'. rewrite El, Nat.ltb_irrefl, orb_false_r.
    unfold live_schema in *. split; unfold live_schema; cbn [l_schema l_refs dangling class_list] in *; rewrite ?El, ?Er, ?Ed; done.
  - assert (∀ c, c ∈ class_list (l_schema st1) → area_has aa (l_refs st1) (class_name c)) as Hreg1.
    { rewrite El. intros c [Hc| ->%list_elem_of_singleton]%elem_of_app; [|by rewrite Hn]. by eapply area_has_grow, Hreg. }
    rewrite Hd in Hnd. change (class_list (live_schema false (l_schema st))) with (class_list (l_schema st)) in Hnd.
    destruct ok; apply Ret_inj in H; subst st'.
    + split; try done; [|intros _; rewrite El; by destruct (class_list (l_schema st))].
      rewrite Hd1. change (class_list (live_schema false (l_schema st1))) with (class_list (l_schema st1)).
      assert (∀ c, c ∈ class_list (l_schema st) → STR_EQ (class_name c) (class_name c') = false) as Hnew.
      { intros c Hc. apply not_true_iff_false. intros Heq. apply Hreg in Hc as (r & Hr & Hdup).
        rewrite Hn in Heq. rewrite (find_global_class_STR_EQ _ _ _ Heq) in Hr. by destruct Hiff as [Hf _]; discriminate Hf; exists r. }
      rewrite El. intros i j c d Hi Hj Hij.
      apply lookup_app_Some in Hi as [Hi|[? Hi]]; apply lookup_app_Some in Hj as [Hj|[? Hj]];
        repeat match goal with H : [_] !! _ = Some _ |- _ => apply list_lookup_singleton_Some in H as [? <-] end.
      * by apply (Hnd i j).
      * apply Hnew. by eapply list_elem_of_lookup_2.
      * rewrite STR_EQ_sym. apply Hnew. by eapply list_elem_of_lookup_2.
      * lia.
    + rewrite El, length_app. cbn [length]. rewrite (proj2 (Nat.ltb_lt _ _)) by lia. rewrite orb_true_r.
      split; cbn [l_schema l_refs dangling]; [done..| |intros _; rewrite El; by destruct (class_list (l_schema st))].
      assert (class_list (live_schema true (l_schema st1)) = class_list (l_schema st)) as ->; [|exact Hnd].
      unfold live_schema. cbn [class_list]. rewrite El, length_app. cbn [length]. rewrite Nat.add_sub. apply take_app_length.
Qed.

Lemma read_class_field_attributes fs dirs type tag datum s s' :
  read_class_field fs dirs type tag datum s = Some s' → attribute_list s'.2 = attribute_list s.2.
Proof.
  destruct s as [name c]. unfold read_class_field.
  repeat case_match; try discriminate; by intros [= <-].
Qed.

Lemma read_schema_lines_ok fs dirs aa stale ls s content st ok st' :
  loading_ok aa st → attribute_list s.2 = [] →
  read_schema_lines fs dirs aa stale ls s content st = Ret (ok, st') → loading_ok aa st'.
Proof.
  revert s content st. induction ls as [|line ls IH]; intros s content st Hok Hs H; cbn [read_schema_lines] in H.
  { destruct content; [|apply Ret_inj in H; by injection H as <- <-].
    apply bind_inv_Ret in H as (st1 & E & H). apply Ret_inj in H. injection H as <- <-. by eapply commit_class_ok. }
  destruct (is_separator line).
  - apply bind_inv_Ret in H as (st1 & E & H). apply commit_class_ok in E; [|done..]. by apply IH in H.
  - apply bind_inv_Ret in H as ([[tag datum]|] & _ & H); [|by apply IH in H].
    destruct (read_class_field _ _ _ _ _ _) as [s1|] eqn:Ef; [|apply Ret_inj in H; by injection H as <- <-].
    apply IH in H; [done..|]. by rewrite (read_class_field_attributes _ _ _ _ _ _ _ Ef).
Qed.

Lemma loading_ok_empty aa refs : loading_ok aa (Loading (Schema [] []) refs false).
Proof.
  split; cbn; [split; cbn; [by intros []|by intros c ?%elem_of_nil|done]|by intros c ?%elem_of_nil|by intros []|done].
Qed.

Lemma find_class_by_id_ok s c : schema_ok s → c ∈ class_list s → find_class_by_id (Some s) (class_id c) = Some c.
Proof.
  intros H (i & Hi)%list_elem_of_lookup. cbn. destruct (find_first _ _) as [d|] eqn:E.
  - apply find_first_Some in E as [(j & Hj)%list_elem_of_lookup Hd]. apply Z.eqb_eq in Hd.
    rewrite (class_ids s H _ _ Hi), (class_ids s H _ _ Hj) in Hd. apply Nat2Z.inj in Hd as ->. congruence.
  - rewrite find_first_None in E. specialize (E c ltac:(by eapply list_elem_of_lookup_2)). by rewrite Z.eqb_refl in E.
Qed.

Lemma read_schema_ok fs dirs aa stale refs st : read_schema fs dirs aa stale refs = Ret (true, Some st) → loading_ok aa st.
Proof.
  intros H. unfold read_schema in H. destruct (aa_schema aa); [|discriminate H].
  destruct (schema_file aa) as [file|]; [|discriminate H].
  destruct (fs file) as [f|]; [|discriminate H]. apply bind_inv_Ret in H as (ls & _ & H).
  apply bind_inv_Ret in H as ([ok st1] & E & H). apply Ret_inj in H. injection H as -> ->.
  by eapply read_schema_lines_ok in E; [|apply loading_ok_empty|].
Qed.

(** C28: A schema that the server has read is consistent, but for one class.
    The class ids are the places of the classes and find them, their names
    differ and are registered for the area; in every class the base schema comes
    first, the local ids are the places of the attributes, local ids and labels
    find the attribute they belong to, the flags do not contradict each other;
    and attributes of the same name have the same global id in all classes.  The
    one class is the last of the list if the area had its name before: it was
    refused, after it had been appended, and destroyed ([dangling]).  A name that
    stands twice in the list is that of such a class. *)
Theorem read_schema_consistent fs dirs aa stale refs st :
  read_schema fs dirs aa stale refs = Ret (true, Some st) →
  let s := l_schema st in
  let live := class_list (live_schema (dangling st) s) in
  (∀ i c, live !! i = Some c → class_id c = Z.of_nat i ∧ find_class_by_id (Some s) (class_id c) = Some c) ∧
  (∀ i j c d, live !! i = Some c → live !! j = Some d → i ≠ j → STR_EQ (class_name c) (class_name d) = false) ∧
  (∀ c, c ∈ live → area_has aa (l_refs st) (class_name c) ∧ on_base c ∧
    ∀ a, a ∈ attribute_list c →
      find_attribute_by_id c (attr_local_id a) = Some a ∧ (∀ n, n ∈ labels a → find_attribute_by_name c n = Some a) ∧
      (is_primary_key a → is_required a) ∧ ¬ (is_multi_line a ∧ is_repeatable a)) ∧
  (∀ c d a b, c ∈ live → d ∈ live → a ∈ attribute_list c → b ∈ attribute_list d →
    STR_EQ (attr_name a) (attr_name b) = true → attr_global_id a = attr_global_id b) ∧
  (dangling st = true → ∃ c, class_list s = live ++ [c] ∧ area_has aa (l_refs st) (class_name c)) ∧
  (∀ i j c d, class_list s !! i = Some c → class_list s !! j = Some d → (i < j)%nat → STR_EQ (class_name c) (class_name d) = true →
    dangling st = true ∧ S j = length (class_list s)).
Proof.
  intros H s live.
  destruct (read_schema_ok _ _ _ _ _ _ H) as [Hok Hreg Hnd Hne].
  split_and!.
  - intros i c [Hi _]%live_lookup. split; [by apply (class_ids s Hok)|]. by eapply find_class_by_id_ok, list_elem_of_lookup_2.
  - apply Hnd.
  - intros c Hc%live_elem. destruct (classes_ok s Hok c Hc) as [(Hcok & _ & _) Hb]. split; [by apply Hreg|]. split; [done|].
    intros a Ha. destruct (class_ok_lookup c a Hcok Ha) as [H1 H2]. split; [done|]. split; [done|].
    pose proof (flags_ok c Hcok) as Hf. rewrite Forall_forall in Hf. by apply Hf.
  - intros c d a b Hc%live_elem Hd'%live_elem Ha Hb. apply (agrees_same_id c d (attribute_ref_list s)); [|by apply (classes_ok s Hok)|done|done].
    by apply (classes_ok s Hok).
  - intros Hd. destruct (class_list s) as [|c l _] eqn:E using rev_ind; [by destruct (Hne Hd)|]. exists c. split.
    + unfold live, live_schema. rewrite Hd, E. cbn [class_list]. rewrite length_app. cbn [length]. by rewrite Nat.add_sub, take_app_length.
    + apply Hreg. fold s. rewrite E. apply elem_of_app. right. by apply list_elem_of_singleton.
  - intros i j c d Hi Hj Hij Heq. pose proof (lookup_lt_Some _ _ _ Hj).
    destruct (decide (dangling st = true ∧ S j = length (class_list s))) as [|Hn]; [done|].
    rewrite (Hnd i j c d) in Heq; [done|apply live_lookup..|lia]; (split; [done|]); fold s; intros Hd; destruct (decide (S j = length (class_list s)));
      try lia; by destruct Hn.
Qed.

Lemma read_attributes_found fs c refs ok c' refs' :
  read_attributes fs c refs = Ret (ok, c', refs') → from_option (λ f, is_Some (fs f)) True (attr_file c) → ok = true.
Proof.
  unfold read_attributes. destruct (attr_file c) as [file|]; [|by intros [= <- _ _]].
  intros H [f Hf]. cbn in Hf. rewrite Hf in H. apply bind_inv_Ret in H as (ls & _ & H).
  apply bind_inv_Ret in H as ([c1 refs1] & _ & H). by injection H.
Qed.

(** a class that the area has already is put into the list, destroyed, and left there *)
Lemma repeated_class fs aa stale n k st st' :
  schema_ok (l_schema st) → dangling st = false → area_has aa (l_refs st) n → attribute_list k = [] →
  from_option (λ f, is_Some (fs f)) True (attr_file k) →
  commit_class fs aa stale (Some n, k) st = Ret st' → dangling st' = true.
Proof.
  intros Hok Hd Hhas Hk Hf H. unfold commit_class in H. apply bind_inv_Ret in H as ([ok st1] & E & H).
  unfold add_class in E. cbn [fst snd] in E. rewrite Hd, next_class_id in E by done.
  set (c0 := with_class_id _ _) in E.
  destruct (add_base_schema_accepts c0 (Some (attribute_ref_list (l_schema st)))) as (c1 & refs1 & E1 & _ & Hs1); [done|].
  rewrite E1 in E. cbn [negb] in E. apply bind_inv_Ret in E as ([[ok2 c2] refs2] & E2 & E).
  assert (attr_file c1 = attr_file k) as Hfile by (by apply (f_equal attr_file) in Hs1).
  pose proof (read_attributes_found _ _ _ _ _ _ E2) as Ht. rewrite Hfile in Ht. rewrite (Ht Hf) in E. cbn [negb] in E.
  assert (class_name c2 = n) as Hn.
  { unfold read_attributes in E2. destruct (attr_file c1) as [file|]; [|injection E2 as _ <- _; by apply (f_equal class_name) in Hs1].
    destruct (fs file); [|injection E2 as _ <- _; by apply (f_equal class_name) in Hs1].
    apply bind_inv_Ret in E2 as (ls & _ & E2). apply bind_inv_Ret in E2 as ([c3 refs3] & E3 & E2). injection E2 as _ -> _.
    rewrite (read_attr_lines_name _ _ _ _ _ _ _ E3). by apply (f_equal class_name) in Hs1. }
  destruct (meets_stale stale c2 aa (l_refs st)); [discriminate E|].
  destruct (add_global_class c2 aa (l_refs st)) as [ok3 crefs] eqn:E3. apply Ret_inj in E. injection E as <- <-.
  apply add_global_class_spec in E3 as (_ & _ & Hiff). rewrite Hn in Hiff. apply Hiff in Hhas. subst ok3.
  apply Ret_inj in H. subst st'. cbn [dangling l_schema class_list orb]. rewrite length_app. cbn. apply Nat.ltb_lt. lia.
Qed.

(** A schema file that gives two classes the same name leaves the server with
    a destroyed class: the second one is put into the list of the classes before
    the list of all classes refuses it, and the caller then destroys it without
    taking it out.  The next class with a name that is read goes through the
    freed memory. *)
Theorem repeated_class_dangles fs aa stale n k st st' c :
  loading_ok aa st → dangling st = false → c ∈ class_list (l_schema st) → STR_EQ (class_name c) n = true →
  attribute_list k = [] → from_option (λ f, is_Some (fs f)) True (attr_file k) →
  commit_class fs aa stale (Some n, k) st = Ret st' →
  dangling st' = true ∧ ∀ m k', commit_class fs aa stale (Some m, k') st' = Fault.
Proof.
  intros [Hok Hreg _] Hd Hc Hn Hk Hf H.
  assert (area_has aa (l_refs st) n) as Hhas.
  { apply Hreg in Hc as (r & Hr & Hdup). exists r. by rewrite <-(find_global_class_STR_EQ _ _ _ Hn). }
  pose proof (repeated_class _ _ _ _ _ _ _ Hok Hd Hhas Hk Hf H) as Hd'. split; [done|].
  intros m k'. unfold commit_class, add_class. by rewrite Hd'.
Qed.

(** a schema of two classes that share the attribute Note *)
Definition demo_disk_file (l : list string) : cstr := text (lit <$> l).
Definition demo_fs : filesystem := λ name,
  if bool_decide (name = $"schema") then
    Some (demo_disk_file ["name: host"; "dbdir: data"; "attributedef: host.tmpl"; "-----";
                          "name: net"; "alias: network"; "dbdir: data"; "attributedef: net.tmpl"]%string)
  else if bool_decide (name = $"host.tmpl") then
    Some (demo_disk_file ["attribute: Host-Name"; "is-required: on"; "is-primary-key: on"; "---"; "attribute: Note"]%string)
  else if bool_decide (name = $"net.tmpl") then
    Some (demo_disk_file ["attribute: Note"; "index: ALL"; "---"; "attribute: Prefix"; "index: CIDR"]%string)
  else None.
Definition schema_area : auth_area_struct :=
  AuthArea ($"a.com") (Some (Schema [] [])) AUTH_AREA_PRIMARY None no_soa (Some $"schema") None None None 0 None None.
Definition demo_loading : loading := Eval vm_compute in
  match read_schema demo_fs (λ _, true) schema_area [] [] with
  | Ret (_, Some st) => st
  | _ => Loading (Schema [] []) [] false
  end.

Lemma demo_loading_read : read_schema demo_fs (λ _, true) schema_area [] [] = Ret (true, Some demo_loading).
Proof. vm_compute. reflexivity. Qed.

Lemma read_schema_consistent_witness :
  read_schema demo_fs (λ _, true) schema_area [] [] = Ret (true, Some demo_loading) ∧ dangling demo_loading = false ∧
  (class_name <$> class_list (l_schema demo_loading)) = [$"host"; $"net"] ∧
  (∀ c d a b, c ∈ class_list (l_schema demo_loading) → d ∈ class_list (l_schema demo_loading) →
    a ∈ attribute_list c → b ∈ attribute_list d →
    STR_EQ (attr_name a) (attr_name b) = true → attr_global_id a = attr_global_id b).
Proof.
  pose proof demo_loading_read as H.
  split; [exact H|]. split; [vm_compute; reflexivity|]. split; [vm_compute; reflexivity|].
  destruct (read_schema_consistent demo_fs (λ _, true) schema_area [] [] demo_loading H) as (_ & _ & _ & Hids & _).
  exact Hids.
Defined.

Lemma demo_loading_ok : loading_ok schema_area demo_loading.
Proof. exact (read_schema_ok _ _ _ _ _ _ demo_loading_read). Qed.
Lemma repeated_class_dangles_witness :
  ∃ st, commit_class demo_fs schema_area [] (Some $"Host", with_class_texts None None (Some $"host.tmpl") None blank_class) demo_loading
        = Ret st ∧ dangling st = true ∧ ∀ m k', commit_class demo_fs schema_area [] (Some m, k') st = Fault.
Proof.
  destruct (commit_class demo_fs schema_area [] (Some $"Host", with_class_texts None None (Some $"host.tmpl") None blank_class)
    demo_loading) as [st| |] eqn:E; [|vm_compute in E; discriminate E..].
  exists st. split; [reflexivity|].
  eapply (repeated_class_dangles demo_fs schema_area [] ($"Host")
    (with_class_texts None None (Some $"host.tmpl") None blank_class) demo_loading st
    (nth 0 (class_list (l_schema demo_loading)) blank_class)).
  - exact demo_loading_ok.
  - vm_compute. reflexivity.
  - apply (bool_decide_unpack _). vm_compute. exact I.
  - vm_compute. reflexivity.
  - reflexivity.
  - vm_compute. by eexists.
  - exact E.
Defined.

(** ** Writing and reading a schema *)

(** the pairs of tags and values that are written for a class *)
Definition class_fields (c : class_struct) : list (cstr * cstr) :=
  let text (tag : string) (v : option cstr) := match v with Some ((_ :: _) as v) => [(lit tag, v)] | _ => [] end in
  [($"name", class_name c)] ++ (pair ($"alias") <$> class_aliases c)
  ++ text "description"%string (class_description c)
  ++ [($"dbdir", db_dir c); ($"attributedef", default [] (attr_file c))]
  ++ text "parse-program"%string (parse_program c) ++ text "schema-version"%string (class_version c).

(** a class that the schema file can hold and whose own attributes are in their file *)
Record writable_class (fs : filesystem) (directory_exists : cstr → bool) (c : class_struct) : Prop := {
  wc_ok : class_ok c;
  wc_attributes : ∃ pre own, attribute_list c = pre ++ own ∧ alike pre base_attributes ∧ Forall writable own;
  wc_file : ∃ f, attr_file c = Some f ∧ short_datum f ∧ fs f = Some (text (write_attribute_list (attribute_list c)));
  wc_dir : directory_exists (db_dir c) = true ∧ short_datum (db_dir c);
  wc_names : Forall short_datum (class_name c :: class_aliases c) ∧ NoDup (lower <$> class_aliases c);
  wc_texts : from_option short_datum True (class_description c) ∧ from_option short_datum True (parse_program c) ∧
             from_option short_datum True (class_version c) }.

Lemma write_class_lines_fields c : write_class_lines c = (λ td, field td.1 1 td.2) <$> class_fields c.
Proof.
  unfold write_class_lines, class_fields. rewrite !fmap_app, <-list_fmap_compose.
  by destruct (class_description c) as [[|]|], (parse_program c) as [[|]|], (class_version c) as [[|]|].
Qed.

Section SchemaRoundtrip.
Context (fs : filesystem) (directory_exists : cstr → bool) (aa : auth_area_struct) (stale : list (nat * nat)).

Lemma class_fields_good c : writable_class fs directory_exists c → Forall good_field (class_fields c).
Proof.
  intros [_ _ (f & Ef & Hf & _) [_ Hdir] [Hn Hnd] (Hd & Hp & Hv)]. apply Forall_cons in Hn as [Hn Hal]. unfold class_fields.
  assert (∀ (t : string) v, from_option short_datum True v → good_tag (lit t) = true → (length (lit t) < 20)%nat →
    Forall good_field match v with Some ((_ :: _) as v) => [(lit t, v)] | _ => [] end) as Ht.
  { intros t [[|x v]|] Hv' H1 H2; [constructor| |constructor]. constructor; [done|constructor]. }
  assert (∀ (t : string) v, short_datum v → good_tag (lit t) = true → (length (lit t) < 20)%nat → good_field (lit t, v)) as H1 by done.
  repeat apply Forall_app_2.
  - apply Forall_singleton, H1; [done|done|cbn; lia].
  - apply Forall_fmap. eapply Forall_impl; [exact Hal|]. intros s Hs. apply H1; [done|done|cbn; lia].
  - apply Ht; [done|done|cbn; lia].
  - rewrite Ef. repeat apply Forall_cons_2; [..|constructor]; apply H1; try done; cbn; lia.
  - apply Ht; [done|done|cbn; lia].
  - apply Ht; [done|done|cbn; lia].
Qed.

Definition read_class_fields (l : list (cstr * cstr)) (s : named_class) : option named_class :=
  foldl (λ s td, s ← s; read_class_field fs directory_exists (aa_type aa) td.1 td.2 s) (Some s) l.

Lemma read_class_fields_app l k s s' :
  read_class_fields l s = Some s' → read_class_fields (l ++ k) s = read_class_fields k s'.
Proof. unfold read_class_fields. rewrite foldl_app. by intros ->. Qed.
Lemma read_class_fields_cons td l s s' :
  read_class_field fs directory_exists (aa_type aa) td.1 td.2 s = Some s' →
  read_class_fields (td :: l) s = read_class_fields l s'.
Proof. unfold read_class_fields. cbn [foldl]. cbn [mbind option_bind]. by intros ->. Qed.

Lemma read_class_aliases name c l :
  Forall short_datum l → NoDup (lower <$> (class_aliases c ++ l)) →
  read_class_fields (pair ($"alias") <$> l) (name, c) = Some (name, with_class_aliases (class_aliases c ++ l) c).
Proof.
  intros Hl. revert c. induction Hl as [|s l Hs _ IH]; intros c Hnd; [rewrite app_nil_r; by destruct c|].
  rewrite fmap_cons.
  assert (existsb (λ t, STR_EQ s t) (class_aliases c) = false) as E.
  { apply not_true_iff_false. intros (t & Ht & E%STR_EQ_iff)%existsb_elem.
    rewrite fmap_app, NoDup_app in Hnd. destruct Hnd as (_ & Hnd & _).
    apply (Hnd (lower t)); [by apply list_elem_of_fmap_2|]. unfold lower. rewrite <-E. by left. }
  rewrite (read_class_fields_cons _ _ _ (name, with_class_aliases (class_aliases c ++ [s]) c)).
  - rewrite IH; cbn [class_aliases with_class_aliases]; by rewrite <-app_assoc.
  - cbn [fst snd]. unfold read_class_field. cbn -[add_class_alias]. unfold add_class_alias.
    destruct s as [|x s]; [by destruct Hs as [[]]|]. by rewrite E.
Qed.

Lemma class_fields_read c :
  writable_class fs directory_exists c →
  read_class_fields (class_fields c) (None, blank_class)
  = Some (Some (class_name c), with_attributes [] (with_class_id 0 (with_class_name [] c))).
Proof.
  intros [_ _ (f & Ef & Hf & Hfs) [Hdir _] [Hn Hnd] (Hd & Hp & Hv)]. apply Forall_cons in Hn as [Hn Hal]. unfold class_fields.
  rewrite (read_class_fields_app _ _ _ (Some (class_name c), blank_class)) by done.
  rewrite (read_class_fields_app _ _ _ (Some (class_name c), with_class_aliases (class_aliases c) blank_class))
    by (by rewrite read_class_aliases).
  rewrite (read_class_fields_app _ _ _ (Some (class_name c), with_class_texts None (class_description c) None None
    (with_class_aliases (class_aliases c) blank_class))); cycle 1.
  { destruct (class_description c) as [[|x d]|]; [by destruct Hd as [[]]|done..]. }
  rewrite (read_class_fields_app _ _ _ (Some (class_name c), with_db_dir (db_dir c) (with_class_texts None (class_description c) (Some f) None
    (with_class_aliases (class_aliases c) blank_class)))); cycle 1.
  { rewrite Ef. rewrite (read_class_fields_cons _ _ _ (Some (class_name c), with_db_dir (db_dir c)
      (with_class_texts None (class_description c) None None (with_class_aliases (class_aliases c) blank_class)))).
    - unfold read_class_fields. cbn [foldl fst snd mbind option_bind default]. unfold read_class_field. cbn -[file_exists].
      unfold file_exists. by rewrite bool_decide_eq_true_2 by eauto.
    - cbn [fst snd]. unfold read_class_field. cbn. by rewrite Hdir. }
  rewrite (read_class_fields_app _ _ _ (Some (class_name c), with_db_dir (db_dir c) (with_class_texts (parse_program c)
    (class_description c) (Some f) None (with_class_aliases (class_aliases c) blank_class)))); cycle 1.
  { destruct (parse_program c) as [[|x d]|]; [by destruct Hp as [[]]|done..]. }
  unfold with_attributes, with_class_id, with_class_name. cbn. rewrite Ef.
  by destruct (class_version c) as [[|x d]|]; [destruct Hv as [[]]|..].
Qed.

(** labels that are not added stay unknown *)
Lemma find_first_alter_None {A} (q : A → bool) (f : A → A) l p :
  (∀ x, q x = false → q (f x) = false) → find_first q l = None → find_first q (alter f p l) = None.
Proof.
  intros Hq. revert p. induction l as [|y l IH]; intros [|p] H; [done..| |]; cbn in *; destruct (q y) eqn:E; try done.
  - by rewrite Hq.
  - by apply IH.
Qed.
Lemma add_global_class_unknown c refs n :
  find_global_class_by_name refs n = None → named n (class_name c) (class_aliases c) = false →
  find_global_class_by_name (add_global_class c aa refs).2 n = None.
Proof.
  intros Hn [Hname Hal]%orb_false_iff.
  assert (∀ p ss l, existsb (λ a, STR_EQ a n) ss = false → find_global_class_by_name l n = None →
    find_global_class_by_name (foldl (add_class_ref_alias p) l ss) n = None) as Hfold.
  { intros p ss. induction ss as [|s ss IH]; intros l H Hl; [done|]. apply orb_false_iff in H as [Hs Hss].
    cbn [foldl]. apply IH; [done|]. unfold add_class_ref_alias. destruct (find_global_class_by_name l s); [done|].
    apply find_first_alter_None; [|done]. intros x. unfold named, add_class_alias. cbn [cr_name cr_aliases].
    destruct s as [|ch s]; [done|]. destruct (existsb (λ a, STR_EQ (ch :: s) a) (cr_aliases x)); [done|]. cbn [snd].
    intros [H1 H2]%orb_false_iff. rewrite existsb_app, H1, H2. cbn. by rewrite Hs. }
  unfold add_global_class. destruct (list_find _ refs) as [[p ref]|].
  - destruct (is_duplicate_aa _ _); [done|]. apply Hfold; [done|]. by apply find_first_alter_None.
  - apply Hfold; [done|]. unfold find_global_class_by_name. rewrite find_first_app. fold (find_global_class_by_name refs n).
    rewrite Hn. cbn. unfold named. by rewrite Hname.
Qed.

Lemma meets_stale_unknown c refs : find_global_class_by_name refs (class_name c) = None → meets_stale stale c aa refs = false.
Proof.
  intros H. unfold meets_stale.
  assert (find_global_class_by_name refs (class_name c) = snd <$> list_find (λ r, class_ref_named (class_name c) r) refs) as E
    by (rewrite <-list_find_first; done).
  rewrite H in E. by destruct (list_find _ refs) as [[p ref]|].
Qed.
Lemma commit_class_loads c st :
  schema_ok (l_schema st) → dangling st = false → writable_class fs directory_exists c →
  find_global_class_by_name (l_refs st) (class_name c) = None →
  class_id c = Z.of_nat (length (class_list (l_schema st))) →
  ∃ st' c', commit_class fs aa stale (Some (class_name c), with_attributes [] (with_class_id 0 (with_class_name [] c))) st = Ret st' ∧
    dangling st' = false ∧ class_list (l_schema st') = class_list (l_schema st) ++ [c'] ∧
    alike (attribute_list c') (attribute_list c) ∧ with_attributes [] c' = with_attributes [] c ∧
    l_refs st' = (add_global_class c aa (l_refs st)).2.
Proof.
  intros Hok Hd [Hcok (pre & own & Hl & Hpre & Hown) (f & Ef & _ & Hfs) _ _ _] Hn Hid.
  unfold commit_class, add_class. cbn [fst snd]. rewrite Hd, next_class_id by done.
  set (c0 := with_class_id (Z.of_nat _) _).
  assert (with_attributes [] c0 = with_attributes [] c) as H0 by (unfold c0; rewrite <-Hid; by destruct c).
  destruct (add_base_schema_accepts c0 (Some (attribute_ref_list (l_schema st)))) as (c1 & refs1 & E1 & Hb1 & Hs1); [done|].
  rewrite E1. cbn [negb].
  destruct (read_attributes_written fs f c c1 refs1 pre own) as (c2 & refs2 & E2 & H2 & Hs2);
    [done..| |done|]; [rewrite <-Ef; rewrite H0 in Hs1; by apply (f_equal attr_file) in Hs1|].
  rewrite E2. cbn [mbind outcome_bind negb].
  assert (with_attributes [] c2 = with_attributes [] c) as Hs by congruence.
  assert (add_global_class c2 aa (l_refs st) = add_global_class c aa (l_refs st) ∧
          meets_stale stale c2 aa (l_refs st) = false) as [-> ->].
  { rewrite (meets_stale_unknown c2) by (apply (f_equal class_name) in Hs; cbn in Hs; by rewrite Hs).
    split; [|done]. unfold add_global_class. pose proof (f_equal class_name Hs) as En. pose proof (f_equal class_aliases Hs) as Ea.
    cbn in En, Ea. by rewrite En, Ea. }
  destruct (add_global_class c aa (l_refs st)) as [ok crefs] eqn:E3.
  apply add_global_class_spec in E3 as (_ & _ & Hiff). destruct ok.
  - eexists _, c2. split; [done|]. done.
  - exfalso. destruct Hiff as [_ Hf]. destruct (Hf eq_refl) as (r & Hr & _). by rewrite Hr in Hn.
Qed.

Definition like_class (c' c : class_struct) : Prop :=
  alike (attribute_list c') (attribute_list c) ∧ with_attributes [] c' = with_attributes [] c.

Lemma read_schema_lines_fields l ls s s' content st :
  Forall good_field l → read_class_fields l s = Some s' →
  read_schema_lines fs directory_exists aa stale ((clean <$> ((λ td, field td.1 1 td.2) <$> l)) ++ ls) s content st
  = read_schema_lines fs directory_exists aa stale ls s' (match l with [] => content | _ => true end) st.
Proof.
  intros H. revert s content. induction H as [|[t d] l Htd _ IH]; intros s content Hs; [by injection Hs as <-|].
  destruct (good_field_read _ Htd) as (E1 & E2 & E3). rewrite !fmap_cons. cbn [app]. rewrite E1. cbn [read_schema_lines].
  rewrite E2, E3. cbn [mbind outcome_bind].
  destruct (read_class_field fs directory_exists (aa_type aa) t d s) as [s1|] eqn:Ef.
  - rewrite (read_class_fields_cons (t, d) l s s1 Ef) in Hs. rewrite (IH _ _ Hs). by destruct l.
  - exfalso. unfold read_class_fields in Hs. cbn [foldl fst snd mbind option_bind] in Hs. rewrite Ef in Hs.
    clear -Hs. induction l as [|td l IHl]; [done|]. by apply IHl.
Qed.

(** the lines of a list of classes *)
Fixpoint schema_lines (l : list class_struct) : list cstr :=
  match l with
  | [] => []
  | c :: l => write_class_lines c ++ match l with [] => [] | _ => [$"-----"] end ++ schema_lines l
  end.

Lemma schema_lines_ok l :
  Forall (writable_class fs directory_exists) l →
  Forall (λ l, is_line l ∧ (length l + 1 < MAX_LINE)%nat) (schema_lines l).
Proof.
  induction 1 as [|c l Hc _ IH]; [constructor|]. cbn [schema_lines]. apply Forall_app_2; [|apply Forall_app_2; [|done]].
  - rewrite write_class_lines_fields. by apply good_field_lines, class_fields_good.
  - destruct l; [constructor|]. apply Forall_singleton. apply (bool_decide_unpack _). vm_compute. exact I.
Qed.

(** no class has the name of another one as its name or alias *)
Definition names_apart (l : list class_struct) : Prop :=
  ∀ i j c d, l !! i = Some c → l !! j = Some d → i ≠ j → named (class_name d) (class_name c) (class_aliases c) = false.

Lemma read_classes l done_ st :
  loading_ok aa st → dangling st = false → Forall2 like_class (class_list (l_schema st)) done_ →
  Forall (writable_class fs directory_exists) l → names_apart l →
  (∀ i c, (done_ ++ l) !! i = Some c → class_id c = Z.of_nat i) →
  (∀ c, c ∈ l → find_global_class_by_name (l_refs st) (class_name c) = None) →
  ∃ st', read_schema_lines fs directory_exists aa stale (clean <$> schema_lines l) (None, blank_class) false st = Ret (true, st') ∧
    dangling st' = false ∧ Forall2 like_class (class_list (l_schema st')) (done_ ++ l).
Proof.
  intros Hok Hd Hdone Hl. revert done_ st Hok Hd Hdone.
  induction Hl as [|c l Hc _ IH]; intros done_ st Hok Hd Hdone Hap Hids Hun.
  { exists st. by rewrite app_nil_r. }
  destruct (commit_class_loads c st) as (st1 & c' & E & Hd1 & El & Hlike & Hsame & Er).
  { apply Hok. } { done. } { done. } { apply Hun. left. }
  { rewrite (Forall2_length _ _ _ Hdone). apply Hids. by apply list_lookup_middle. }
  assert (loading_ok aa st1) as Hok1 by (by eapply commit_class_ok; [| |exact E]).
  cbn [schema_lines]. rewrite write_class_lines_fields, !fmap_app.
  rewrite (read_schema_lines_fields _ _ _ _ _ _ (class_fields_good c Hc) (class_fields_read c Hc)).
  assert (match class_fields c with [] => false | _ => true end = true) as -> by done.
  assert (Forall2 like_class (class_list (l_schema st1)) (done_ ++ [c])) as Hdone1.
  { rewrite El. apply Forall2_app; [done|]. constructor; [done|constructor]. }
  destruct l as [|d l].
  - cbn [fmap list_fmap app schema_lines read_schema_lines]. rewrite E. by exists st1.
  - destruct (IH (done_ ++ [c]) st1 Hok1 Hd1 Hdone1) as (st2 & E2 & Hd2 & H2).
    + intros i j x y Hi Hj Hij. apply (Hap (S i) (S j)); [done..|lia].
    + intros i x. rewrite <-app_assoc. apply Hids.
    + intros x Hx. rewrite Er. apply add_global_class_unknown; [apply Hun; by right|].
      apply list_elem_of_lookup in Hx as [i Hi]. by apply (Hap 0%nat (S i)).
    + exists st2. rewrite <-app_assoc in H2. split; [|done]. rewrite <-E2.
      assert (∀ ls s b, read_schema_lines fs directory_exists aa stale ((clean <$> [$"-----"]) ++ ls) s b st =
        (st ← commit_class fs aa stale s st; read_schema_lines fs directory_exists aa stale ls (None, blank_class) false st)) as -> by done.
      by rewrite E.
Qed.
End SchemaRoundtrip.

(** ** What is written *)

Lemma write_classes_spec mkdir_ok open_ok suffix l w ok ls l' w' :
  write_classes mkdir_ok open_ok suffix l w = Ret (ok, ls, l', w') →
  noted w w' ∧ (ok = true → ls = schema_lines l ∧
    snd <$> w_files w' = (snd <$> w_files w) ++ ((λ c, text (write_attribute_list (attribute_list c))) <$> l)).
Proof.
  revert w ok ls l' w'. induction l as [|c l IH]; intros w ok ls l' w' H; cbn [write_classes] in H.
  { apply Ret_inj in H. injection H as <- <- <- <-. split; [done|]. intros _. by rewrite app_nil_r. }
  apply bind_inv_Ret in H as ([[ok1 c1] w1] & E & H). apply write_class_attributes_spec in E as (N & _ & Hf).
  destruct ok1; [|apply Ret_inj in H; by injection H as <- <- <- <-].
  apply bind_inv_Ret in H as ([[[ok2 ls2] l2] w2] & E2 & H). apply Ret_inj in H. injection H as <- <- <- <-.
  apply IH in E2 as [N2 H2]. split; [by etrans|]. intros ->. destruct (H2 eq_refl) as [-> Hf2]. split; [done|].
  destruct Hf as [name Hf]. by rewrite Hf2, Hf, fmap_app, <-app_assoc.
Qed.

(** what is made is noted, also when writing fails *)
Lemma write_schema_file_spec mkdir_ok open_ok suffix file type s w ok s' w' :
  write_schema_file mkdir_ok open_ok suffix file type (Some s) w = Ret (ok, s', w') →
  noted w w' ∧ (ok = true → type = AUTH_AREA_PRIMARY →
    snd <$> w_files w' = (snd <$> w_files w) ++ ((λ c, text (write_attribute_list (attribute_list c))) <$> class_list s)
                         ++ [text (schema_lines (class_list s))]).
Proof.
  unfold write_schema_file. intros H. destruct file as [[|ch file]|]; try (apply Ret_inj in H; by injection H as <- <- <-).
  destruct (decide (type = AUTH_AREA_SECONDARY)) as [->|Ht]; [apply Ret_inj in H; by injection H as <- <- <-|].
  apply bind_inv_Ret in H as (name & _ & H). apply bind_inv_Ret in H as ([ok1 w1] & E1 & H).
  apply open_file_to_write_noted in E1 as [N1 F1]. destruct ok1; cbn [negb] in H; [|apply Ret_inj in H; by injection H as <- <- <-].
  cbn [of_option mbind outcome_bind] in H. apply bind_inv_Ret in H as ([[[ok2 ls] l] w2] & E2 & H).
  apply write_classes_spec in E2 as [N2 H2]. apply Ret_inj in H. injection H as <- <- <-. split.
  - etrans; [exact N1|]. etrans; [exact N2|]. apply written_noted.
  - intros -> _. destruct (H2 eq_refl) as [-> Hf]. cbn [w_files wrote_file].
    by rewrite fmap_app, Hf, F1, <-app_assoc.
Qed.

(** C29: A schema that was written is read back: the same classes in the same
    order, with their ids, names, aliases, directories, programs, texts and
    versions, and the same attributes up to their global ids, provided that the
    values fit into lines, that the attribute files are where the classes say,
    and that no area has the names of the classes as labels of other classes. *)
Theorem schema_roundtrip mkdir_ok open_ok suffix file s w s' w' name txt fs directory_exists aa stale s0 f refs :
  write_schema_file mkdir_ok open_ok suffix (Some file) AUTH_AREA_PRIMARY (Some s) w = Ret (true, s', w') →
  last (w_files w') = Some (name, txt) →
  aa_schema aa = Some s0 → schema_file aa = Some f → fs f = Some txt →
  (∀ i c, class_list s !! i = Some c → class_id c = Z.of_nat i) →
  Forall (writable_class fs directory_exists) (class_list s) → names_apart (class_list s) →
  (∀ c, c ∈ class_list s → find_global_class_by_name refs (class_name c) = None) →
  ∃ st, read_schema fs directory_exists aa stale refs = Ret (true, Some st) ∧ dangling st = false ∧
    Forall2 like_class (class_list (l_schema st)) (class_list s).
Proof.
  intros [_ Hfiles]%write_schema_file_spec Hlast Hs0 Hf Hfs Hids Hw Hap Hun. specialize (Hfiles eq_refl eq_refl).
  assert (txt = text (schema_lines (class_list s))) as ->.
  { apply (f_equal last) in Hfiles. rewrite fmap_last, Hlast, app_assoc, last_snoc in Hfiles. by injection Hfiles. }
  destruct (read_classes fs directory_exists aa stale (class_list s) [] (Loading (Schema [] []) refs false))
    as (st & E & Hd & H); [apply loading_ok_empty|done|constructor|done..|].
  exists st. split; [|done]. unfold read_schema. rewrite Hs0, Hf, Hfs.
  rewrite lines_of_text by (by eapply schema_lines_ok). cbn [mbind outcome_bind]. by rewrite E.
Qed.

Definition demo_schema : schema_struct := l_schema demo_loading.
Definition demo_attributes (i : nat) : cstr :=
  text (write_attribute_list (attribute_list (nth i (class_list demo_schema) blank_class))).
(** the disk after writing *)
Definition written_fs : filesystem := λ name,
  if bool_decide (name = $"schema") then Some (text (schema_lines (class_list demo_schema)))
  else if bool_decide (name = $"host.tmpl") then Some (demo_attributes 0)
  else if bool_decide (name = $"net.tmpl") then Some (demo_attributes 1) else None.

Lemma demo_writable i c :
  class_list demo_schema !! i = Some c → writable_class written_fs (λ _, true) c.
Proof.
  intros Hi. assert (class_ok c) as Hok.
  { apply (classes_ok _ (loading_schema _ _ demo_loading_ok)). by eapply list_elem_of_lookup_2. }
  destruct i as [|[|i]]; [| |done]; injection Hi as <-.
  all: split; [exact Hok| | | | |].
  all: try (exists (take 7 (attribute_list (nth 0 (class_list demo_schema) blank_class))),
                   (drop 7 (attribute_list (nth 0 (class_list demo_schema) blank_class))); split; [reflexivity|]; split;
            [vm_compute; reflexivity|apply (bool_decide_unpack _); vm_compute; exact I]).
  all: try (exists (take 7 (attribute_list (nth 1 (class_list demo_schema) blank_class))),
                   (drop 7 (attribute_list (nth 1 (class_list demo_schema) blank_class))); split; [reflexivity|]; split;
            [vm_compute; reflexivity|apply (bool_decide_unpack _); vm_compute; exact I]).
  all: try (eexists; split; [reflexivity|]; split; [apply (bool_decide_unpack _); vm_compute; exact I|vm_compute; reflexivity]).
  all: split; try reflexivity; try exact I; try (apply (bool_decide_unpack _); vm_compute; exact I).
  all: by split.
Qed.

Lemma schema_roundtrip_witness :
  ∃ s' w' txt st,
    write_schema_file (λ _ _, true) (λ _ _, true) [] (Some $"schema") AUTH_AREA_PRIMARY (Some demo_schema) demo_disk
      = Ret (true, s', w') ∧ last (w_files w') = Some ($"schema", txt) ∧ written_fs ($"schema") = Some txt ∧
    read_schema written_fs (λ _, true) schema_area [] [] = Ret (true, Some st) ∧ dangling st = false ∧
    Forall2 like_class (class_list (l_schema st)) (class_list demo_schema).
Proof.
  destruct (write_schema_file (λ _ _, true) (λ _ _, true) [] (Some $"schema") AUTH_AREA_PRIMARY (Some demo_schema) demo_disk)
    as [[[ok s'] w']| |] eqn:E; [|vm_compute in E; discriminate E..].
  assert (ok = true) as -> by (vm_compute in E; by injection E).
  exists s', w', (text (schema_lines (class_list demo_schema))).
  assert (last (w_files w') = Some ($"schema", text (schema_lines (class_list demo_schema)))) as Hlast
    by (vm_compute in E; injection E as <- <-; vm_compute; reflexivity).
  destruct (schema_roundtrip (λ _ _, true) (λ _ _, true) [] ($"schema") demo_schema demo_disk s' w' ($"schema")
    (text (schema_lines (class_list demo_schema))) written_fs (λ _, true) schema_area [] (Schema [] []) ($"schema") []) as (st & H).
  - exact E.
  - exact Hlast.
  - reflexivity.
  - reflexivity.
  - vm_compute. reflexivity.
  - intros [|[|i]] c Hc; [injection Hc as <-; reflexivity..|discriminate Hc].
  - apply Forall_lookup. exact demo_writable.
  - intros [|[|i]] [|[|j]] c d Hc Hd Hij; try discriminate Hc; try discriminate Hd; try (by contradict Hij);
      injection Hc as <-; injection Hd as <-; vm_compute; reflexivity.
  - intros c _. reflexivity.
  - exists st. split; [reflexivity|]. split; [exact Hlast|]. split; [vm_compute; reflexivity|exact H].
Defined.
