(* ===== verification/AuthArea.v ===== *)
(** * Authority areas (common/auth_area.c)

    The file of the areas names for each area its directory, its schema file,
    its zone (SOA) file, its servers and guardians.  Reading it reads the zone
    and the schema of every primary area and fills the list of the areas and the
    list of the classes of all areas.  The server also checks, creates, deletes
    and writes areas. *)

From S2P Require Import Prelude CLib CString Misc DlList IpNetwork Types Stdio Records FileInfo FilePath ConfigFile FileNames Attributes Schema.
Local Open Scope Z_scope.

(** ** Setters *)

Definition with_aa_name (name : cstr) (a : auth_area_struct) : auth_area_struct :=
  AuthArea name (aa_schema a) (aa_type a) (guardian_list a) (aa_soa a) (schema_file a) (soa_file a) (data_dir a) (xfer_arg a)
    (xfer_time a) (aa_master a) (aa_slave a).
Definition with_schema (s : option schema_struct) (a : auth_area_struct) : auth_area_struct :=
  AuthArea (aa_name a) s (aa_type a) (guardian_list a) (aa_soa a) (schema_file a) (soa_file a) (data_dir a) (xfer_arg a)
    (xfer_time a) (aa_master a) (aa_slave a).
Definition with_type (t : auth_area_type) (a : auth_area_struct) : auth_area_struct :=
  AuthArea (aa_name a) (aa_schema a) t (guardian_list a) (aa_soa a) (schema_file a) (soa_file a) (data_dir a) (xfer_arg a)
    (xfer_time a) (aa_master a) (aa_slave a).
Definition with_guardians (l : option (list cstr)) (a : auth_area_struct) : auth_area_struct :=
  AuthArea (aa_name a) (aa_schema a) (aa_type a) l (aa_soa a) (schema_file a) (soa_file a) (data_dir a) (xfer_arg a)
    (xfer_time a) (aa_master a) (aa_slave a).
Definition with_soa (soa : soa_struct) (a : auth_area_struct) : auth_area_struct :=
  AuthArea (aa_name a) (aa_schema a) (aa_type a) (guardian_list a) soa (schema_file a) (soa_file a) (data_dir a) (xfer_arg a)
    (xfer_time a) (aa_master a) (aa_slave a).
Definition with_area_files (schema soa dir xfer : option cstr) (a : auth_area_struct) : auth_area_struct :=
  AuthArea (aa_name a) (aa_schema a) (aa_type a) (guardian_list a) (aa_soa a) schema soa dir xfer
    (xfer_time a) (aa_master a) (aa_slave a).
Definition with_servers (master slave : option (list server_struct)) (a : auth_area_struct) : auth_area_struct :=
  AuthArea (aa_name a) (aa_schema a) (aa_type a) (guardian_list a) (aa_soa a) (schema_file a) (soa_file a) (data_dir a)
    (xfer_arg a) (xfer_time a) master slave.
Definition blank_area : auth_area_struct :=
  AuthArea [] None AUTH_AREA_PRIMARY None no_soa None None None None 0 None None.

(** ** Names of areas and hosts *)

Definition DOT : ascii := chr 46.
Definition AUTH_AREA_REGEXP : cstr := $"^([.]?[a-zA-Z0-9-]+)+[.]?|([.:]?[a-fA-F0-9]+)+/[0-9]+$".
Definition DOMAIN_NAME_REGEXP : cstr := $"^([a-zA-Z0-9-]+[.])+[a-zA-Z]+$".
Definition IP_ADDR_REGEXP : cstr := $"^([a-fA-F0-9]+[.:])+[a-fA-F0-9]+$".

Definition is_country_code (p : cstr) : bool := true.
(** the test of the last part of a domain *)
Definition top_level (domains : cstr) (p : cstr) : bool :=
  ((length p =? 2)%nat && is_country_code p)
  || ((length p =? 3)%nat && bool_decide (is_Some (strSTR (Some domains) (Some p)))).

Section AreaNames.
(** the regular expressions; the struct on the stack, not initialised *)
Context (regexec : cstr → cstr → bool) (ni0 : netinfo).

(** is the name good, the name without dots around it, the directory *)
Definition check_aa_syntax (aa_name : cstr) : outcome (bool * cstr * option cstr) :=
  if strcmp aa_name [DOT] =? 0 then Ret (true, aa_name, Some $"root")
  else if negb (regexec AUTH_AREA_REGEXP aa_name) then Ret (false, aa_name, None)
  else
    let name := strip_trailing_s DOT (strip_leading_s DOT aa_name) in
    match strrchr name SLASH with
    | None =>
        if (length name <? 512)%nat then
          let p := match strrchr name DOT with Some i => drop (S i) name | None => name end in
          Ret (top_level ($"EDU GOV COM NET ORG INT") p, name, Some name)
        else Fault
    | Some _ =>
        match get_network_prefix_and_len (Some name) ni0 with
        | None => Ret (false, name, None)
        | Some prefix =>
            a ← natop prefix;
            match a with
            | None => Fault
            | Some s => Ret (true, name, Some ($"net-" ++ s ++ $"-" ++ print_Z (masklen prefix)))
            end
        end
    end.
Definition get_default_aa_directory (aa : auth_area_struct) : outcome cstr :=
  match get_network_prefix_and_len (Some (aa_name aa)) ni0 with
  | None => Ret (aa_name aa)
  | Some prefix =>
      a ← natop prefix;
      match a with None => Fault | Some s => Ret ($"net-" ++ s ++ $"-" ++ print_Z (masklen prefix)) end
  end.

(** the callers' strings are local or trimmed already *)
Definition is_valid_hostname (name : cstr) : outcome bool :=
  match name with
  | [] => Ret false
  | _ =>
      let name := trim_s name in
      if regexec DOMAIN_NAME_REGEXP name then
        match strrchr name DOT with
        | None => Fault
        | Some i => Ret (top_level ($"EDU GOV COM NET ORG MIL INT") (drop (S i) name))
        end
      else if regexec IP_ADDR_REGEXP name then
        match scan_dotted 4 name with
        | [] => Ret false
        | os => Ret (forallb (λ o, (0 <=? o) && (o <=? 255)) os)
        end
      else Ret false
  end.
Definition is_valid_port (port : cstr) : bool :=
  let port := trim_s port in forallb isdigit port && (0 <? atoi port).

(** ** The zone file *)

(** parse_line into arrays of MAX_LINE bytes *)
Definition host_port (s : cstr) : outcome (option (cstr * cstr)) :=
  match parse_line (Some s) with
  | None => Ret None
  | Some (h, p) =>
      if decide (default 0 (strchr s (chr 58)) < MAX_LINE ∧ length p < MAX_LINE)%nat then Ret (Some (h, p)) else Fault
  end.
Definition check_soa (aa : auth_area_struct) : outcome bool :=
  let soa := aa_soa aa in
  match aa_name aa with
  | [] => Ret false
  | _ =>
      if (refresh_interval soa =? 0) || (increment_interval soa =? 0) || (retry_interval soa =? 0) || (time_to_live soa =? 0)
      then Ret false
      else
        match primary_server soa with
        | Some ((_ :: _) as server) =>
            hp ← host_port server;
            match hp with
            | None => Ret false
            | Some (host, port) =>
                ok ← is_valid_hostname host;
                Ret (ok && is_valid_port port && STR_EXISTS (hostmaster soa)
                     && negb (bool_decide (serial_no soa = [])))
            end
        | _ => Ret false
        end
  end.

Definition read_soa_field (tag value : cstr) (soa : soa_struct) : soa_struct :=
  let '(Soa server master serial refresh increment retry ttl) := soa in
  let named t := STR_EQ tag (lit t) in
  if named "Refresh-Interval"%string then Soa server master serial (atoll value) increment retry ttl
  else if named "Increment-Interval"%string then Soa server master serial refresh (atoll value) retry ttl
  else if named "Retry-Interval"%string then Soa server master serial refresh increment (atoll value) ttl
  else if named "Time-To-Live"%string then Soa server master serial refresh increment retry (atoll value)
  else if named "Primary-Server"%string then Soa (Some value) master serial refresh increment retry ttl
  else if named "Hostmaster"%string then Soa server (Some value) serial refresh increment retry ttl
  else if named "Serial-Number"%string then Soa server master value refresh increment retry ttl
  else soa.
Definition is_soa_tag (tag : cstr) : bool :=
  existsb (λ t, STR_EQ tag (lit t))
    ["Refresh-Interval"; "Increment-Interval"; "Retry-Interval"; "Time-To-Live"; "Primary-Server"; "Hostmaster"; "Serial-Number"]%string.
(** the message about a tag that is not known lacks an argument *)
Fixpoint read_soa_lines (ls : list cstr) (soa : soa_struct) : outcome soa_struct :=
  match ls with
  | [] => Ret soa
  | line :: ls =>
      td ← config_line line;
      match td with
      | Some (tag, value) => if is_soa_tag tag then read_soa_lines ls (read_soa_field tag value soa) else Fault
      | None => read_soa_lines ls soa
      end
  end.
(** the intervals stay as they are when the file does not set them *)
Definition destroy_soa (soa : soa_struct) : soa_struct :=
  Soa None None [] (refresh_interval soa) (increment_interval soa) (retry_interval soa) (time_to_live soa).
Definition read_soa_file (fs : filesystem) (aa : auth_area_struct) : outcome (bool * auth_area_struct) :=
  file ← of_option (soa_file aa);
  match fs file with
  | None => Ret (false, aa)
  | Some f =>
      ls ← lines_of f;
      soa ← read_soa_lines ls (destroy_soa (aa_soa aa));
      let aa := with_soa soa aa in
      ok ← check_soa aa;
      Ret (ok, aa)
  end.
End AreaNames.

Definition soa_lines (soa : soa_struct) : list cstr :=
  let line (tag : string) (v : cstr) := field (lit tag) 1 v in
  [line "Serial-Number" (serial_no soa); line "Refresh-Interval" (print_Z (refresh_interval soa));
   line "Increment-Interval" (print_Z (increment_interval soa)); line "Retry-Interval" (print_Z (retry_interval soa));
   line "Time-To-Live" (print_Z (time_to_live soa)); line "Primary-Server" (default [] (primary_server soa));
   line "Hostmaster" (default [] (hostmaster soa))]%string.
(** the text of the file, if it could be locked and opened *)
Definition write_soa_file (lock_ok open_ok : bool) (aa : auth_area_struct) : option cstr :=
  if lock_ok && open_ok then Some (text (soa_lines (aa_soa aa))) else None.

(** ** Servers and guardians *)

Definition isxdigit (c : ascii) : bool :=
  isdigit c || ((97 <=? code (tolower c)) && (code (tolower c) <=? 102)).
(** inet_ntop: the text of the address at the beginning of some bytes, an IPv6
    address with its longest run of zeros left out *)
Definition join (sep : ascii) (l : list cstr) : cstr :=
  match l with [] => [] | x :: l => x ++ (l ≫= λ y, sep :: y) end.
Definition inet_ntop4 (bytes : list Z) : cstr := join DOT (print_Z <$> take 4 bytes).
Fixpoint words (bytes : list Z) : list Z :=
  match bytes with b1 :: b2 :: bytes => (b1 * 256 + b2) :: words bytes | _ => [] end.
Definition hex_word (w : Z) : cstr :=
  let digits := (λ k, hexdigit (Z.land (Z.shiftr w k) 15)) <$> [12; 8; 4] in
  dropwhile (λ c, c =c chr 48) digits ++ [hexdigit (Z.land w 15)].
Definition zeros (ws : list Z) : nat := length (takewhile (λ w, w =? 0) ws).
(** the first of the longest runs: its place and its length *)
Definition longest_zeros (ws : list Z) : nat * nat :=
  foldl (λ best i, let n := zeros (drop i ws) in if (best.2 <? n)%nat then (i, n) else best) (0, 0)%nat (seq 0 8).
Definition inet_ntop6 (bytes : list Z) : cstr :=
  let ws := words (take 16 bytes) in
  let groups l := join (chr 58) (hex_word <$> l) in
  let '(i, n) := longest_zeros ws in
  if (n <? 2)%nat then groups ws
  else if bool_decide (i = 0 ∧ n = 6)%nat then $"::" ++ inet_ntop4 (drop 12 bytes)
  else if bool_decide (i = 0 ∧ n = 5)%nat && bool_decide (ws !! 5%nat = Some 65535) then $"::ffff:" ++ inet_ntop4 (drop 12 bytes)
  else groups (take i ws) ++ $"::" ++ groups (drop (i + n) ws).
Definition inet_ntop (af : Z) (bytes : list Z) : cstr :=
  if af =? AF_INET then inet_ntop4 bytes else if af =? AF_INET6 then inet_ntop6 bytes else [].

(** What getaddrinfo finds first for a host name: the family of the address and
    the bytes of the sockaddr at ai_addr, which begin with the family and the
    port.  It is these that add_server has printed, as if they were the address. *)
Record addrinfo := AddrInfo { ai_family : Z; ai_addr : list Z }.
Definition add_server (resolve : cstr → option addrinfo) (list_ : option (list server_struct)) (val : cstr) :
    bool * option (list server_struct) :=
  let word s := takewhile (λ c, negb (isspace c)) (dropwhile isspace s) in
  let name := word val in
  let port := word (drop (length name) (dropwhile isspace val)) in
  match name with
  | [] => (false, list_)
  | _ =>
      let addr := if forallb (λ c, isxdigit c || (c =c chr 58) || (c =c DOT)) name then Some name
                  else (λ res, inet_ntop (ai_family res) (ai_addr res)) <$> resolve name in
      match addr with
      | None => (false, list_)
      | Some addr =>
          if atoi port <=? 0 then (false, list_)
          else (true, Some (default [] list_ ++ [Server name addr (atoi port)]))
      end
  end.

Definition add_auth_area_guardian (aa : auth_area_struct) (id_str : cstr) : bool * auth_area_struct :=
  match id_str with
  | [] => (false, aa)
  | _ => (true, with_guardians (Some (default [] (guardian_list aa) ++ [id_str])) aa)
  end.
Definition translate_auth_area_type (val : option cstr) : auth_area_type :=
  match val with
  | None => AUTH_AREA_PRIMARY
  | Some val => if STR_EQ val ($"secondary") || STR_EQ val ($"slave") then AUTH_AREA_SECONDARY else AUTH_AREA_PRIMARY
  end.
Definition translate_auth_area_type_str (val : auth_area_type) : cstr :=
  match val with AUTH_AREA_PRIMARY => $"primary" | AUTH_AREA_SECONDARY => $"secondary" end.

(** A server that is given by its name has no use: on systems whose sockaddr begins
    with the family, in little endian, and then the port, which is 0, the address
    that is kept of any IPv4 host is 2.0.0.0, and of an IPv6 host it has the
    family in front and only the first half of the address. *)
Definition little_endian_sockaddr (family : Z) (rest : list Z) : addrinfo := AddrInfo family ([family; 0; 0; 0] ++ rest).
Theorem named_server_address resolve l name port a :
  name ≠ [] → Forall (λ c, isspace c = false) name → forallb (λ c, isxdigit c || (c =c chr 58) || (c =c DOT)) name = false →
  0 < port → int32 port → resolve name = Some (little_endian_sockaddr AF_INET a) →
  add_server resolve l (name ++ $" " ++ print_Z port) = (true, Some (default [] l ++ [Server name ($"2.0.0.0") port])).
Proof.
  intros Hne Hsp Hx Hp Hi Hr.
  assert (∀ w rest, Forall (λ c, isspace c = false) w → (∀ c, head rest = Some c → isspace c = true) →
    takewhile (λ c, negb (isspace c)) (w ++ rest) = w) as Htake.
  { intros w rest Hw Hrest. induction Hw as [|c w Hc _ IH]; [|cbn; by rewrite Hc, IH]. destruct rest as [|c rest]; [done|].
    cbn. by rewrite (Hrest c eq_refl). }
  assert (∀ w, Forall (λ c, isspace c = false) w → ∀ rest, w ≠ [] → dropwhile isspace (w ++ rest) = w ++ rest) as Hdrop.
  { intros w [|c w' Hc _] rest Hw; [done|]. cbn. by rewrite Hc. }
  assert (print_Z port ≠ [] ∧ Forall (λ c, isspace c = false) (print_Z port)) as [Hpne Hpsp].
  { split; [by destruct (print_Z_cons port) as (c & t & ->)|]. eapply Forall_impl; [apply print_Z_chars|]. intros c Hc.
    destruct (isspace c) eqn:E; [|done]. revert c Hc E. by_ascii. }
  unfold add_server. rewrite (Hdrop name) by done. rewrite (Htake name) by (done || by intros ? [= <-]).
  rewrite drop_app_length. assert (dropwhile isspace ($" " ++ print_Z port) = print_Z port) as ->.
  { change ($" " ++ print_Z port) with (chr 32 :: print_Z port). cbn [dropwhile]. change (isspace (chr 32)) with true. cbv iota.
    rewrite <-(app_nil_r (print_Z port)). by apply Hdrop. }
  assert (takewhile (λ c, negb (isspace c)) (print_Z port) = print_Z port) as ->.
  { rewrite <-(app_nil_r (print_Z port)) at 1. by apply Htake. }
  rewrite Hx, Hr. destruct name as [|c n]; [done|]. cbn [fmap option_fmap option_map].
  rewrite <-(app_nil_r (print_Z port)), (atoi_print _ [] Hi) by done. rewrite (proj2 (Z.leb_gt _ _)) by done. reflexivity.
Qed.
Example named_server_addresses :
  add_server (λ _, Some (little_endian_sockaddr AF_INET [192; 0; 2; 1; 0; 0; 0; 0; 0; 0; 0; 0])) None ($"rwhois.a.net 4321")
  = (true, Some [Server ($"rwhois.a.net") ($"2.0.0.0") 4321]) ∧
  add_server (λ _, Some (little_endian_sockaddr AF_INET6 ([0; 0; 0; 0] ++ [32; 1; 13; 184; 0; 0; 0; 0; 0; 0; 0; 0; 0; 0; 0; 1] ++ [0; 0; 0; 0])))
    None ($"rwhois.a.net 4321") = (true, Some [Server ($"rwhois.a.net") ($"a00::2001:db8:0:0") 4321]) ∧
  inet_ntop AF_INET6 [32; 1; 13; 184; 0; 0; 0; 0; 0; 0; 0; 0; 0; 0; 0; 1] = $"2001:db8::1".
Proof. split_and!; vm_compute; reflexivity. Qed.

(** ** The lists of the areas and of their classes *)

(** auth_area_list (NULL before it is made), class_ref_list, the destroyed areas
    that still stand in the latter (as in [meets_stale]), and the places of the
    areas the list of whose classes ends with a destroyed class *)
Record config := Config {
  areas : option (list auth_area_struct);
  class_refs : list class_ref_struct;
  stale : list (nat * nat);
  dangling_areas : list nat }.
Definition no_config : config := Config None [] [] [].
Definition area_list (cfg : config) : list auth_area_struct := default [] (areas cfg).

(** A pointer to an area is the area as it is when it is registered, with an
    empty schema, and in the end with its schema.
    The place of an area in the list of a reference: *)
Definition area_place (aa : auth_area_struct) (r : class_ref_struct) : option nat :=
  fst <$> list_find (λ bb, bb = aa) (cr_auth_area_list r).
(** the area that is destroyed leaves the references, but not for the walks *)
Definition forget_area (aa : auth_area_struct) (r : class_ref_struct) : class_ref_struct :=
  match area_place aa r with
  | Some j => ClassRef (cr_name r) (cr_aliases r) (delete j (cr_auth_area_list r))
  | None => r
  end.
Definition now_stale (aa : auth_area_struct) (refs : list class_ref_struct) (stale : list (nat * nat)) : list (nat * nat) :=
  ((λ pk, match refs !! pk.1 ≫= area_place aa with
          | Some j => if (j <? pk.2)%nat then (pk.1, pred pk.2) else pk
          | None => pk
          end) <$> stale)
  ++ concat (imap (λ p r, match area_place aa r with Some j => [(p, j)] | None => [] end) refs).
(** the references see the area with its schema *)
Definition settle_area (aa aa' : auth_area_struct) (r : class_ref_struct) : class_ref_struct :=
  ClassRef (cr_name r) (cr_aliases r) ((λ bb, if decide (bb = aa) then aa' else bb) <$> cr_auth_area_list r).

(** ** Reading the areas *)

(** destroy_auth_area_list and destroy_class_ref_list, which are called together: a
    class that has been destroyed is destroyed once more *)
Definition destroy_auth_area_list (cfg : config) : outcome config :=
  match dangling_areas cfg with [] => Ret no_config | _ => Fault end.

(** The name of an area that is being read, which is null at first, and the rest *)
Definition named_area : Type := option cstr * auth_area_struct.

Section ReadAreas.
Context (fs : filesystem) (directory_exists : cstr → bool) (resolve : cstr → option addrinfo).
Context (regexec : cstr → cstr → bool) (ni0 : netinfo).

Definition add_auth_area (name : option cstr) (aa : auth_area_struct) (cfg : config) : outcome (bool * config) :=
  let cfg := Config (Some (area_list cfg)) (class_refs cfg) (stale cfg) (dangling_areas cfg) in
  match name with
  | None => Ret (false, cfg)
  | Some name =>
      let aa := with_aa_name name aa in
      if is_duplicate_aa aa (area_list cfg) then Ret (false, cfg)
      else
        '(ok, name, _) ← check_aa_syntax regexec ni0 name;
        let aa := with_aa_name name aa in
        if negb ok then Ret (false, cfg)
        else if decide (aa_type aa = AUTH_AREA_PRIMARY) then
          if decide (data_dir aa = None ∨ schema_file aa = None ∨ soa_file aa = None) then Ret (false, cfg)
          else
            '(ok, aa) ← read_soa_file regexec fs aa;
            if negb ok then Ret (false, cfg)
            else
              let aa := with_schema (Some (Schema [] [])) aa in
              '(ok, st) ← read_schema fs directory_exists aa (stale cfg) (class_refs cfg);
              st ← of_option st;
              if ok : bool then
                let aa' := with_schema (Some (l_schema st)) aa in
                Ret (true, Config (Some (area_list cfg ++ [aa'])) (settle_area aa aa' <$> l_refs st) (stale cfg)
                             (dangling_areas cfg ++ if dangling st then [length (area_list cfg)] else []))
              else if dangling st then Fault
              else
                Ret (false, Config (areas cfg) (forget_area aa <$> l_refs st) (now_stale aa (l_refs st) (stale cfg))
                              (dangling_areas cfg))
        else Ret (true, Config (Some (area_list cfg ++ [aa])) (class_refs cfg) (stale cfg) (dangling_areas cfg))
  end.

(** [None]: the file is given up *)
Definition read_area_field (tag datum : cstr) (s : named_area) : option named_area :=
  let '(name, a) := s in
  let named t := STR_EQ tag (lit t) in
  let primary := bool_decide (aa_type a = AUTH_AREA_PRIMARY) in
  if named "type" then Some (name, with_type (translate_auth_area_type (Some datum)) a)
  else if named "name" then Some (Some datum, a)
  else if named "schema-file" then
    if negb (file_exists fs datum) && primary then None
    else Some (name, with_area_files (Some datum) (soa_file a) (data_dir a) (xfer_arg a) a)
  else if named "soa-file" then
    if negb (file_exists fs datum) && primary then None
    else Some (name, with_area_files (schema_file a) (Some datum) (data_dir a) (xfer_arg a) a)
  else if named "data-dir" then
    if negb (directory_exists datum) && primary then None
    else Some (name, with_area_files (schema_file a) (soa_file a) (Some datum) (xfer_arg a) a)
  else if named "master" then
    let '(ok, l) := add_server resolve (aa_master a) datum in
    if ok : bool then Some (name, with_servers l (aa_slave a) a) else None
  else if named "slave" then
    let '(ok, l) := add_server resolve (aa_slave a) datum in
    if ok then Some (name, with_servers (aa_master a) l a) else None
  else if named "xfer-arg" then
    Some (name, with_area_files (schema_file a) (soa_file a) (data_dir a) (Some datum) a)
  else if named "guardian" then Some (name, (add_auth_area_guardian a datum).2)
  else Some s.

Fixpoint read_area_lines (ls : list cstr) (s : named_area) (content : bool) (cfg : config) : outcome (bool * config) :=
  match ls with
  | [] => if content then '(_, cfg) ← add_auth_area s.1 s.2 cfg; Ret (true, cfg) else Ret (true, cfg)
  | line :: ls =>
      if is_separator line then
        '(_, cfg) ← add_auth_area s.1 s.2 cfg; read_area_lines ls (None, blank_area) false cfg
      else
        td ← config_line line;
        match td with
        | Some (tag, datum) =>
            match read_area_field tag datum s with
            | Some s => read_area_lines ls s true cfg
            | None => Ret (false, cfg)
            end
        | None => read_area_lines ls s content cfg
        end
  end.
Definition read_auth_areas (file : cstr) (cfg : config) : outcome (bool * config) :=
  match fs file with
  | None => Ret (false, cfg)
  | Some f =>
      cfg ← match areas cfg with Some _ => destroy_auth_area_list cfg | None => Ret cfg end;
      ls ← lines_in BUFSIZ f;
      read_area_lines ls (None, blank_area) false cfg
  end.
End ReadAreas.

(** ** Creating and deleting areas *)

Definition or_default (o : option cstr) (d : outcome cstr) : outcome (option cstr) :=
  match o with Some ((_ :: _) as s) => Ret (Some s) | _ => d ← d; Ret (Some d) end.
(** a name in an array of MAX_FILE bytes: strncpy of the first part, strncat of the others *)
Definition default_name (parts : list cstr) : outcome cstr :=
  let name := concat (take 511 <$> parts) in if (length name <? 512)%nat then Ret name else Fault.

(** [now]: the time stamp, [hostname]: what sys_gethostname gives *)
Definition create_auth_area (regexec : cstr → cstr → bool) (ni0 : netinfo) (now hostname : cstr) (aa : auth_area_struct)
    (cfg : config) : outcome (bool * config) :=
  match aa_name aa with
  | [] => Ret (false, cfg)
  | name =>
      '(ok, name, dir) ← check_aa_syntax regexec ni0 name;
      if negb ok then Ret (false, cfg)
      else if is_duplicate_aa (with_aa_name name aa) (area_list cfg) then Ret (false, cfg)
      else
        let dir := default [] dir in
        let soa := aa_soa aa in
        let at_least z d := if 0 <? z then z else d in
        schema ← or_default (schema_file aa) (default_name [dir; $"/"; $"schema"]);
        soa_f ← or_default (soa_file aa) (default_name [dir; $"/"; $"soa"]);
        data ← or_default (data_dir aa) (default_name [dir; $"/"; $"data"]);
        server ← or_default (primary_server soa) (default_name [hostname; $":"; $"4321"]);
        master ← or_default (hostmaster soa) (default_name [$"hostmaster"; $"@"; hostname]);
        let serial := match serial_no soa with [] => now | s => s end in
        let newsoa := Soa server master serial (at_least (refresh_interval soa) 3600) (at_least (increment_interval soa) 1800)
                        (at_least (retry_interval soa) 60) (at_least (time_to_live soa) 86400) in
        let newaa := AuthArea name (if decide (aa_type aa = AUTH_AREA_PRIMARY) then Some (Schema [] []) else None) (aa_type aa)
                       None newsoa schema soa_f data None 0 None None in
        Ret (true, Config (Some (area_list cfg ++ [newaa])) (class_refs cfg) (stale cfg) (dangling_areas cfg))
  end.

(** The first area of the name goes; the references of its classes keep it.  A
    class that has been destroyed is destroyed once more. *)
Definition delete_auth_area (name : option cstr) (cfg : config) : outcome (bool * config) :=
  match name with
  | Some ((_ :: _) as name) =>
      match list_find (λ a, STR_EQ (aa_name a) name) (area_list cfg) with
      | Some (p, aa) =>
          if bool_decide (p ∈ dangling_areas cfg) then Fault
          else
            Ret (true, Config (delete p <$> areas cfg) (forget_area aa <$> class_refs cfg)
                         (now_stale aa (class_refs cfg) (stale cfg))
                         ((λ k, if (p <? k)%nat then pred k else k) <$> dangling_areas cfg))
      | None => Ret (false, cfg)
      end
  | _ => Ret (false, cfg)
  end.

(** ** Checking areas *)

Definition get_server_hostaddr (serv : server_struct) : cstr :=
  match server_name serv with [] => server_addr serv | name => name end.
Definition count_server_entries (l : list server_struct) (serv : server_struct) : nat :=
  length (filter (λ s, STR_EQ (get_server_hostaddr s) (get_server_hostaddr serv) && (server_port s =? server_port serv)) l).
Definition count_guardian_entries (l : list cstr) (s : cstr) : nat := length (filter (λ g, STR_EQ g s) l).

Definition examin_guardian_item (s : option cstr) : option examin_error :=
  if NOT_STR_EXISTS s then Some ERW_EMTYSTR else None.
(** an address of the wrong format is only logged *)
Definition examin_email_address (addr : option cstr) : option examin_error :=
  match addr with None => Some ERW_NDEF | Some [] => Some ERW_EMTYSTR | _ => None end.
Definition examin_aa_hostmaster_str (s : option cstr) : option examin_error :=
  if NOT_STR_EXISTS s then Some ERW_EMTYSTR else examin_email_address s.
Definition examin_serial_num (s : option cstr) : option examin_error := examin_timestamp s.
Definition examin_aa_xfer_arg (s : option cstr) : option examin_error := None.
Definition examin_port_str (port : option cstr) : option examin_error :=
  match port with
  | Some ((_ :: _) as p) =>
      if negb (is_number_str port) then Some ERW_NUMSTR else if atoi p <? 1 then Some ERW_NUMVAL else None
  | _ => Some ERW_EMTYSTR
  end.

Section VerifyAreas.
Context (regexec : cstr → cstr → bool) (ni0 : netinfo).

Definition examin_hostname (name : option cstr) : outcome (option examin_error) :=
  match name with
  | Some ((_ :: _) as n) =>
      match strchr n DOT with
      | None => Ret None
      | Some _ => ok ← is_valid_hostname regexec n; Ret (if ok : bool then None else Some ERW_DNSSTR)
      end
  | _ => Ret (Some ERW_EMTYSTR)
  end.
(** the parts in arrays of BUFSIZ bytes *)
Definition examin_primary_server_str (server : option cstr) : outcome (option examin_error) :=
  match server with
  | Some (_ :: _) =>
      a ← split_list server (chr 58) 2;
      match arg_strings a with
      | [host; port] =>
          e ← examin_hostname (Some (take (BUFSIZ - 1) host));
          match e with Some e => Ret (Some e) | None => Ret (examin_port_str (Some (take (BUFSIZ - 1) port))) end
      | _ => Ret (Some ERW_FMTSERV)
      end
  | _ => Ret (Some ERW_EMTYSTR)
  end.
(** sscanf into arrays of BUFSIZ bytes *)
Definition examin_server_str (server : cstr) : outcome (option examin_error) :=
  let word s := takewhile (λ c, negb (isspace c)) (dropwhile isspace s) in
  let name := word server in
  let port := word (drop (length name) (dropwhile isspace server)) in
  if (length name <? BUFSIZ)%nat && (length port <? BUFSIZ)%nat then
    e ← examin_hostname (Some name);
    match e with Some e => Ret (Some e) | None => Ret (examin_port_str (Some port)) end
  else Fault.

(** a port below one is only logged *)
Definition verify_server_data (server : server_struct) (aa_name : cstr) : outcome bool :=
  match aa_name with
  | [] => Ret false
  | _ => e ← examin_hostname (Some (get_server_hostaddr server)); Ret (fine e)
  end.
Fixpoint verify_servers (all l : list server_struct) (aa_name : cstr) : outcome bool :=
  match l with
  | [] => Ret true
  | serv :: l =>
      ok ← verify_server_data serv aa_name;
      if ok && (count_server_entries all serv <=? 1)%nat then verify_servers all l aa_name else Ret false
  end.
(** [master]: is it the list of the masters, or that of the slaves *)
Definition verify_server_list (aa : auth_area_struct) (master : bool) : outcome bool :=
  let l := default [] (if master then aa_master aa else aa_slave aa) in
  ok ← verify_servers l l (aa_name aa);
  if negb ok then Ret false
  else
    let empty := bool_decide (l = []) in
    Ret (match aa_type aa with
         | AUTH_AREA_PRIMARY => negb (negb empty && master)
         | AUTH_AREA_SECONDARY => negb (empty && master) && negb (negb empty && negb master)
         end).
Definition verify_guardian_list (aa : auth_area_struct) : bool :=
  let l := default [] (guardian_list aa) in
  forallb (λ g, fine (examin_guardian_item (Some g)) && (count_guardian_entries l g <=? 1)%nat) l.

Context (fs : filesystem) (directory_exists : cstr → bool) (executable : cstr → bool).
Context (root_dir bin_path : cstr) (fullpath new_path : buf).

Definition examin_aa_data_dir (path : option cstr) : outcome (option examin_error) :=
  examin_under_root (examin_directory_name fs) fullpath root_dir path.
Definition examin_aa_schema_file (path : option cstr) : outcome (option examin_error) :=
  examin_under_root (examin_file_name directory_exists) fullpath root_dir path.
Definition examin_aa_soa_file (path : option cstr) : outcome (option examin_error) :=
  examin_under_root (examin_file_name directory_exists) fullpath root_dir path.

(** what is checked of a primary area before its lists *)
Definition verify_primary (aa : auth_area_struct) : outcome bool :=
  let soa := aa_soa aa in
  e1 ← examin_aa_data_dir (data_dir aa);
  if negb (fine e1) then Ret false
  else
    e2 ← examin_aa_schema_file (schema_file aa);
    if negb (fine e2) then Ret false
    else
      e3 ← examin_aa_soa_file (soa_file aa);
      if negb (fine e3) then Ret false
      else
        e4 ← examin_primary_server_str (primary_server soa);
        Ret (fine e4 && fine (examin_aa_hostmaster_str (hostmaster soa))
             && fine (examin_serial_num (Some (serial_no soa))) && fine (examin_aa_xfer_arg (xfer_arg aa))
             && (1 <=? refresh_interval soa) && (1 <=? increment_interval soa) && (1 <=? retry_interval soa)
             && (1 <=? time_to_live soa)).
(** with the area, as its name loses the dots around it; [dead]: the last class of
    the area has been destroyed *)
Definition verify_auth_area (dead : bool) (aa : auth_area_struct) : outcome (bool * auth_area_struct) :=
  '(ok, name, _) ← check_aa_syntax regexec ni0 (aa_name aa);
  let aa := with_aa_name name aa in
  let primary := bool_decide (aa_type aa = AUTH_AREA_PRIMARY) in
  if negb ok then Ret (false, aa)
  else
    ok ← if primary then verify_primary aa else Ret true;
    if negb ok then Ret (false, aa)
    else
      ok ← verify_server_list aa true;
      if negb ok then Ret (false, aa)
      else
        ok ← verify_server_list aa false;
        if negb ok then Ret (false, aa)
        else if negb (verify_guardian_list aa) then Ret (false, aa)
        else if primary then
          ok ← verify_schema fs directory_exists executable root_dir bin_path fullpath new_path dead (aa_schema aa);
          Ret (ok, aa)
        else Ret (true, aa).
(** the areas from the place [k] on *)
Fixpoint verify_all_auth_areas (dangling : list nat) (k : nat) (l : list auth_area_struct) : outcome (bool * list auth_area_struct) :=
  match l with
  | [] => Ret (true, [])
  | aa :: l =>
      '(ok, aa) ← verify_auth_area (bool_decide (k ∈ dangling)) aa;
      if ok : bool then '(ok, l) ← verify_all_auth_areas dangling (S k) l; Ret (ok, aa :: l) else Ret (false, aa :: l)
  end.
End VerifyAreas.

(** The paths of the areas and their classes: how many are in use already.  The
    schema of an area must not be null. *)
Fixpoint verify_all_auth_area_paths (l : list auth_area_struct) (paths : list cstr) : outcome (nat * list cstr) :=
  match l with
  | [] => Ret (0%nat, paths)
  | aa :: l =>
      _ ← path_label [aa_name aa; $"data-dir"];
      let '(d1, paths) := dup_config_path_name paths (data_dir aa) in
      _ ← path_label [aa_name aa; $"schema-file"];
      let '(d2, paths) := dup_config_path_name paths (schema_file aa) in
      _ ← path_label [aa_name aa; $"soa-file"];
      let '(d3, paths) := dup_config_path_name paths (soa_file aa) in
      s ← of_option (aa_schema aa);
      '(n, paths) ← verify_all_class_paths (aa_name aa) (class_list s) paths;
      '(m, paths) ← verify_all_auth_area_paths l paths;
      Ret ((if d1 then 1 else 0) + (if d2 then 1 else 0) + (if d3 then 1 else 0) + n + m, paths)%nat
  end.
Fixpoint verify_aa_parse_progs (l : list auth_area_struct) (paths : list cstr) : outcome nat :=
  match l with
  | [] => Ret 0%nat
  | aa :: l =>
      s ← of_option (aa_schema aa);
      n ← verify_class_parse_progs (aa_name aa) (class_list s) paths;
      m ← verify_aa_parse_progs l paths;
      Ret (n + m)%nat
  end.

(** ** Writing areas *)

Definition get_aa_schema_directory (aa : auth_area_struct) : outcome (option cstr) :=
  match schema_file aa with
  | Some (_ :: _) =>
      df ← split_path (schema_file aa);
      match df with Some (((_ :: _) as dir), _) => Ret (Some dir) | _ => Ret None end
  | _ => Ret None
  end.

Section WriteAreas.
Context (mkdir_ok open_ok : list cstr → cstr → bool) (regexec : cstr → cstr → bool) (ni0 : netinfo) (suffix : cstr).

Definition write_new_soa_file (file : option cstr) (aa : auth_area_struct) (w : writing) : outcome (bool * writing) :=
  match file with
  | Some ((_ :: _) as file) =>
      name ← new_file file suffix;
      '(ok, w) ← open_file_to_write mkdir_ok open_ok name w;
      Ret (if ok : bool then (true, wrote_file name (text (soa_lines (aa_soa aa))) w) else (false, w))
  | _ => Ret (false, w)
  end.
(** the directory if it is not there; what is left of its path *)
Definition need_dir (dir : cstr) (w : writing) : outcome (bool * cstr * writing) :=
  if has_dir w dir then Ret (true, dir, w) else make_config_dir mkdir_ok dir w.

Definition write_auth_area (aa : auth_area_struct) (w : writing) : outcome (bool * auth_area_struct * writing) :=
  '(ok, name, dir) ← check_aa_syntax regexec ni0 (aa_name aa);
  let aa := with_aa_name name aa in
  if negb ok then Ret (false, aa, w)
  else
    '(ok, aa_dir, w) ← need_dir (default [] dir) w;
    if negb ok then Ret (false, aa, w)
    else if decide (aa_type aa = AUTH_AREA_PRIMARY) then
      '(ok, data, w) ← need_dir (default [] (data_dir aa)) w;
      let aa := with_area_files (schema_file aa) (soa_file aa) ((λ _, data) <$> data_dir aa) (xfer_arg aa) aa in
      if negb ok then Ret (false, aa, w)
      else
        attr_dir ← default_name [aa_dir; $"/"; $"attribute_defs"];
        '(ok, _, w) ← need_dir attr_dir w;
        if negb ok then Ret (false, aa, w)
        else
          '(ok, w) ← write_new_soa_file (soa_file aa) aa w;
          if negb ok then Ret (false, aa, w)
          else
            '(ok, schema, w) ← write_schema_file mkdir_ok open_ok suffix (schema_file aa) (aa_type aa) (aa_schema aa) w;
            Ret (ok, with_schema schema aa, w)
    else Ret (true, aa, w).

Definition area_lines (aa : auth_area_struct) : list cstr :=
  let line (tag : string) (v : cstr) := field (lit tag) 1 v in
  let text (tag : string) (v : option cstr) := match v with Some v => [line tag v] | None => [] end in
  let servers (tag : string) (l : option (list server_struct)) :=
    (λ s, line tag (get_server_hostaddr s ++ $" " ++ print_Z (server_port s))) <$> (default [] l : list server_struct) in
  [line "type" (translate_auth_area_type_str (aa_type aa)); line "name" (aa_name aa)]
  ++ text "data-dir"%string (data_dir aa) ++ text "schema-file"%string (schema_file aa)
  ++ text "soa-file"%string (soa_file aa) ++ text "xfer-arg"%string (xfer_arg aa)
  ++ servers "master"%string (aa_master aa) ++ servers "slave"%string (aa_slave aa)
  ++ (line "guardian" <$> default [] (guardian_list aa)).
Fixpoint write_areas (l : list auth_area_struct) (w : writing) : outcome (bool * list cstr * list auth_area_struct * writing) :=
  match l with
  | [] => Ret (true, [], [], w)
  | aa :: l =>
      '(ok, aa', w) ← write_auth_area aa w;
      if ok : bool then
        '(ok, ls, l', w) ← write_areas l w;
        Ret (ok, area_lines aa ++ match l with [] => [] | _ => [$"-----"] end ++ ls, aa' :: l', w)
      else Ret (false, area_lines aa, aa' :: l, w)
  end.
Definition write_all_auth_areas (file : option cstr) (l : list auth_area_struct) (w : writing) :
    outcome (bool * list auth_area_struct * writing) :=
  match file with
  | Some ((_ :: _) as file) =>
      name ← new_file file suffix;
      '(ok, w) ← open_file_to_write mkdir_ok open_ok name w;
      if negb ok then Ret (false, l, w)
      else '(ok, ls, l, w) ← write_areas l w; Ret (ok, l, wrote_file name (text ls) w)
  | _ => Ret (false, l, w)
  end.
End WriteAreas.

(** ** Creating a class (schema.c) *)

(** The loop over the given attributes does not go to the next one. *)
Fixpoint create_attributes_loop (fuel : nat) (attr : attribute_struct) (c : class_struct)
    (refs : option (list attribute_ref_struct)) : outcome (option (list attribute_ref_struct)) :=
  match fuel with
  | O => NoFuel
  | S fuel =>
      let '(ok, c, refs) := create_attribute_def attr c refs in
      if ok then create_attributes_loop fuel attr c refs else Ret refs
  end.
Fixpoint add_new_class_aliases (s : option schema_struct) (c : class_struct) (aliases : list cstr) : option class_struct :=
  match aliases with
  | [] => Some c
  | alias :: aliases =>
      match add_new_class_alias s c alias with
      | (true, c) => add_new_class_aliases s c aliases
      | (false, _) => None
      end
  end.
Definition not_empty (s : option cstr) : option cstr := match s with Some [] => None | s => s end.

(** with the area, whose name and references change *)
Definition create_class (regexec : cstr → cstr → bool) (ni0 : netinfo) (now : cstr) (c : class_struct) (aa : auth_area_struct) :
    outcome (bool * auth_area_struct) :=
  match aa_schema aa with
  | None => Ret (false, aa)
  | Some schema =>
      if negb (fine (examin_class_name (Some (class_name c)))) then Ret (false, aa)
      else if bool_decide (find_class_by_name (Some schema) (class_name c) ≠ None) then Ret (false, aa)
      else
        '(ok, name, dir) ← check_aa_syntax regexec ni0 (aa_name aa);
        let aa := with_aa_name name aa in
        let dir := default [] dir in
        if negb ok then Ret (false, aa)
        else
          match add_new_class_aliases (Some schema) (with_class_name (class_name c) blank_class) (class_aliases c) with
          | None => Ret (false, aa)
          | Some newclass =>
              file ← or_default (attr_file c) (default_name [dir; $"/attribute_defs/"; class_name c; $".tmpl"]);
              data ← or_default (Some (db_dir c)) (default_name [dir; $"/data/"; class_name c]);
              let version := match class_version c with Some ((_ :: _) as v) => Some v | _ => Some now end in
              let newclass := with_db_dir (default [] data)
                (with_class_texts (not_empty (parse_program c)) (not_empty (class_description c)) file version newclass) in
              let '(ok, newclass, _) := add_base_schema newclass None in
              if negb ok then Ret (false, aa)
              else
                match attribute_list c with
                | attr :: _ =>
                    refs ← create_attributes_loop 2 attr newclass (Some (attribute_ref_list schema));
                    Ret (false, with_schema (Some (Schema (class_list schema) (default [] refs))) aa)
                | [] => Ret (true, with_schema (Some (append_class newclass schema)) aa)
                end
          end
  end.

(** ** Creating a class: what comes of it *)

(** the second attempt to create the same attribute fails *)
Lemma create_attributes_loop_ends fuel attr c refs :
  (2 ≤ fuel)%nat → ∃ refs', create_attributes_loop fuel attr c refs = Ret refs'.
Proof.
  intros Hf. destruct fuel as [|[|fuel]]; [lia..|]. cbn [create_attributes_loop].
  destruct (create_attribute_def attr c refs) as [[ok1 c1] refs1] eqn:E1. destruct ok1; [|eauto].
  destruct (create_attribute_def attr c1 refs1) as [[ok2 c2] refs2] eqn:E2. destruct ok2; [exfalso|eauto].
  unfold create_attribute_def in E1, E2.
  destruct (add_new_aliases c _ []) as [al1|]; [|done]. destruct (add_new_aliases c1 _ []) as [al2|]; [|done].
  apply add_attribute_spec in E1 as [(? & _)|(_ & n & g & lid & [= <-] & -> & _)]; [done|].
  apply add_attribute_spec in E2 as [(? & _)|(_ & n & g' & lid' & [= <-] & _ & _ & Hn & _)]; [done|].
  specialize (Hn (attr_name attr) ltac:(left)). unfold find_attribute_by_name in Hn. rewrite find_first_None in Hn.
  cbn [attribute_list with_attributes] in Hn.
  set (a1 := with_ids g lid _) in Hn.
  assert (a1 ∈ attribute_list c ++ [a1]) as Hin by (apply elem_of_app; right; by left).
  specialize (Hn a1 Hin). unfold named in Hn. change (attr_name a1) with (attr_name attr) in Hn. by rewrite STR_EQ_refl in Hn.
Qed.

Lemma add_attributes_null l c ok c' refs' :
  Forall (λ a, attr_global_id a = 0) (l ++ attribute_list c) → add_attributes l c None = (ok, c', refs') →
  Forall (λ a, attr_global_id a = 0) (attribute_list c').
Proof.
  revert c. induction l as [|a l IH]; intros c H E; cbn [add_attributes] in E; [by injection E as <- <- <-|].
  cbn [app] in H. apply Forall_cons in H as [Ha [Hl Hc]%Forall_app].
  destruct (add_attribute (Some (attr_name a)) a c None) as [[b c1] refs1] eqn:E1.
  apply add_attribute_spec in E1 as [(-> & -> & ->)|(-> & n & gid & lid & _ & -> & _ & _ & _ & _ & -> & ->)].
  - by injection E as <- <- <-.
  - apply IH in E; [done|]. apply Forall_app. split; [done|]. cbn. apply Forall_app. split; [done|]. by apply Forall_singleton.
Qed.

Lemma add_new_class_aliases_fields s c l c' :
  add_new_class_aliases s c l = Some c' → class_name c' = class_name c ∧ attribute_list c' = attribute_list c.
Proof.
  revert c. induction l as [|alias l IH]; intros c H; cbn [add_new_class_aliases] in H; [by injection H as <-|].
  destruct (add_new_class_alias s c alias) as [[] c1] eqn:E; [|done]. apply IH in H as [-> ->].
  unfold add_new_class_alias in E. destruct alias as [|x alias]; [done|]. destruct (bool_decide _); [done|].
  destruct (add_class_alias _ _). by injection E as _ <-.
Qed.

(** Creating a class.  A class that comes with attributes of its own is never
    created: the loop that should add them adds the first one again, which
    fails.  A class without attributes is appended under the next id, with a
    name that was free and the attributes of the base schema; but these are not
    entered into the references of the schema, so that all of them have the
    global id 0. *)
Theorem create_class_outcome regexec ni0 now c aa ok aa' :
  create_class regexec ni0 now c aa = Ret (ok, aa') →
  (attribute_list c ≠ [] → ok = false) ∧
  (ok = true → ∃ s newclass, aa_schema aa = Some s ∧ aa_schema aa' = Some (append_class newclass s) ∧
    class_name newclass = class_name c ∧ find_class_by_name (Some s) (class_name c) = None ∧
    alike (attribute_list newclass) base_attributes ∧ Forall (λ a, attr_global_id a = 0) (attribute_list newclass)).
Proof.
  intros H. unfold create_class in H. destruct (aa_schema aa) as [s|] eqn:Es; [|apply Ret_inj in H; by injection H as <- <-].
  destruct (negb (fine _)); [apply Ret_inj in H; by injection H as <- <-|].
  destruct (bool_decide _) eqn:Ef; [apply Ret_inj in H; by injection H as <- <-|].
  apply bind_inv_Ret in H as ([[ok1 name] dir] & _ & H). destruct ok1; cbn [negb] in H; [|apply Ret_inj in H; by injection H as <- <-].
  destruct (add_new_class_aliases _ _ _) as [nc|] eqn:Ea; [|apply Ret_inj in H; by injection H as <- <-].
  apply add_new_class_aliases_fields in Ea as [En El]. cbn in En, El.
  apply bind_inv_Ret in H as (file & _ & H). apply bind_inv_Ret in H as (data & _ & H).
  set (c0 := with_db_dir _ _) in H.
  destruct (add_base_schema_accepts c0 None El) as (c1 & refs1 & E1 & Hbase & Hs1). rewrite E1 in H. cbn [negb] in H.
  destruct (attribute_list c) as [|attr l].
  - apply Ret_inj in H. injection H as <- <-. split; [done|]. intros _. exists s, c1. split_and!; [done|done| | |done|].
    + apply (f_equal class_name) in Hs1. cbn in Hs1. by rewrite Hs1, En.
    + apply bool_decide_eq_false in Ef. destruct (find_class_by_name _ _); [by contradict Ef|done].
    + eapply (add_attributes_null base_schema c0); [|exact E1]. change (attribute_list c0) with (attribute_list nc). rewrite El, app_nil_r.
      apply (bool_decide_unpack _). vm_compute. exact I.
  - apply bind_inv_Ret in H as (refs & _ & H). apply Ret_inj in H. by injection H as <- <-.
Qed.
Lemma create_class_outcome_witness :
  let c := with_class_name ($"host") blank_class in
  ∃ aa', create_class (λ _ _, true) (NetInfo 0 0 []) ($"20240101120000000") c schema_area = Ret (true, aa') ∧
    (∃ s newclass, aa_schema schema_area = Some s ∧ aa_schema aa' = Some (append_class newclass s) ∧
      class_name newclass = class_name c ∧ find_class_by_name (Some s) (class_name c) = None ∧
      alike (attribute_list newclass) base_attributes ∧ Forall (λ a, attr_global_id a = 0) (attribute_list newclass)) ∧
    create_class (λ _ _, true) (NetInfo 0 0 []) ($"20240101120000000")
      (with_attributes [create_attribute ($"Note") None None INDEX_NONE TYPE_TEXT false false false false false false] c) schema_area
    = Ret (false, with_schema (Some (Schema [] [AttributeRef 0 ($"Note") []])) schema_area).
Proof.
  cbv zeta. destruct (create_class (λ _ _, true) (NetInfo 0 0 []) ($"20240101120000000")
    (with_class_name ($"host") blank_class) schema_area) as [[ok aa']| |] eqn:E; [|vm_compute in E; discriminate E..].
  assert (ok = true) as -> by (vm_compute in E; by injection E).
  exists aa'. split; [reflexivity|]. split; [|vm_compute; reflexivity].
  exact (proj2 (create_class_outcome (λ _ _, true) (NetInfo 0 0 []) ($"20240101120000000")
    (with_class_name ($"host") blank_class) schema_area true aa' E) eq_refl).
Defined.

(** ** The zone file is read back *)

(** what the file can hold *)
Definition writable_soa (soa : soa_struct) : Prop :=
  from_option short_datum False (primary_server soa) ∧ from_option short_datum False (hostmaster soa) ∧
  short_datum (serial_no soa) ∧
  Forall int64 [refresh_interval soa; increment_interval soa; retry_interval soa; time_to_live soa].
#[export] Instance writable_soa_dec soa : Decision (writable_soa soa).
Proof. unfold writable_soa. destruct (primary_server soa), (hostmaster soa); apply _. Defined.

Definition soa_fields (soa : soa_struct) : list (cstr * cstr) :=
  [($"Serial-Number", serial_no soa); ($"Refresh-Interval", print_Z (refresh_interval soa));
   ($"Increment-Interval", print_Z (increment_interval soa)); ($"Retry-Interval", print_Z (retry_interval soa));
   ($"Time-To-Live", print_Z (time_to_live soa)); ($"Primary-Server", default [] (primary_server soa));
   ($"Hostmaster", default [] (hostmaster soa))].

Lemma short_numeral z : int64 z → short_datum (print_Z z).
Proof. intros H. split; [apply clean_numeral|]. pose proof (numeral_length z H). unfold MAX_TEMPLATE_DESC. lia. Qed.

Lemma atoll_print z : int64 z → atoll (print_Z z) = z.
Proof. intros H. pose proof (strtol_print z [] H) as E. rewrite app_nil_r in E. by apply E. Qed.

Lemma soa_fields_good soa : writable_soa soa → Forall good_field (soa_fields soa).
Proof.
  intros (Hp & Hm & Hs & Hz). repeat apply Forall_cons in Hz as [?%short_numeral Hz].
  unfold soa_fields. destruct (primary_server soa) as [p|]; [|done]. destruct (hostmaster soa) as [m|]; [|done].
  repeat (apply Forall_cons_2; [split_and!; [done|cbn; lia|done]|]). constructor.
Qed.

Lemma soa_fields_tags soa : forallb (λ td, is_soa_tag td.1) (soa_fields soa) = true.
Proof. unfold soa_fields. by destruct (primary_server soa), (hostmaster soa). Qed.
Lemma soa_fields_read soa soa0 :
  writable_soa soa → foldl (λ soa td, read_soa_field td.1 td.2 soa) soa0 (soa_fields soa) = soa.
Proof.
  intros (Hp & Hm & _ & Hz). repeat apply Forall_cons in Hz as [? Hz].
  destruct soa as [[p|] [m|] serial r i t l]; try done. destruct soa0 as [p0 m0 s0 r0 i0 t0 l0].
  unfold soa_fields. cbn [foldl fst snd]. unfold read_soa_field. cbn -[print_Z atoll].
  by rewrite !atoll_print by done.
Qed.

Lemma read_soa_lines_fields l soa :
  Forall good_field l → forallb (λ td, is_soa_tag td.1) l = true →
  read_soa_lines (clean <$> ((λ td, field td.1 1 td.2) <$> l)) soa
  = Ret (foldl (λ soa td, read_soa_field td.1 td.2 soa) soa l).
Proof.
  intros H. revert soa. induction H as [|[t d] l Htd _ IH]; intros soa; [done|]. intros [Ht Hl]%andb_true_iff. cbn [fst] in Ht.
  destruct (good_field_read _ Htd) as (E1 & _ & E3). rewrite !fmap_cons. rewrite E1. cbn [read_soa_lines].
  rewrite E3. cbn [mbind outcome_bind]. rewrite Ht. by apply IH.
Qed.
(** The zone file survives: after the server has written the zone of an area
    (as it does when its serial number changes), reading it gives every value
    back, and accepts the file exactly if the values pass the checks. *)
Theorem soa_roundtrip regexec fs lock_ok open_ok aa txt aa' f :
  write_soa_file lock_ok open_ok aa = Some txt → writable_soa (aa_soa aa) →
  soa_file aa' = Some f → fs f = Some txt →
  read_soa_file regexec fs aa' =
    (ok ← check_soa regexec (with_soa (aa_soa aa) aa'); Ret (ok, with_soa (aa_soa aa) aa')).
Proof.
  intros Hw Hs Hf Hfs. unfold write_soa_file in Hw. destruct (lock_ok && open_ok); [|done].
  assert (txt = text (soa_lines (aa_soa aa))) as -> by congruence.
  unfold read_soa_file. rewrite Hf. cbn [of_option mbind outcome_bind]. rewrite Hfs. cbv beta iota.
  change (soa_lines (aa_soa aa)) with ((λ td, field td.1 1 td.2) <$> soa_fields (aa_soa aa)).
  rewrite lines_of_text by (by apply good_field_lines, soa_fields_good). cbn [mbind outcome_bind].
  rewrite read_soa_lines_fields by (by apply soa_fields_good || apply soa_fields_tags). by rewrite soa_fields_read.
Qed.
Definition demo_soa : soa_struct :=
  Soa (Some $"rwhois.a.com:4321") (Some $"hostmaster@a.com") ($"20240101120000000") 3600 1800 60 86400.
Definition demo_zone_area : auth_area_struct := with_soa demo_soa (with_area_files None (Some $"soa") None None schema_area).
Lemma soa_roundtrip_witness :
  ∃ txt, write_soa_file true true demo_zone_area = Some txt ∧
    read_soa_file (λ _ _, true) (λ _, Some txt) (with_soa no_soa demo_zone_area) = Ret (true, demo_zone_area).
Proof.
  exists (text (soa_lines demo_soa)). split; [reflexivity|].
  rewrite (soa_roundtrip (λ _ _, true) (λ _, Some (text (soa_lines demo_soa))) true true demo_zone_area
    (text (soa_lines demo_soa)) (with_soa no_soa demo_zone_area) ($"soa")).
  - vm_compute. reflexivity.
  - reflexivity.
  - apply (bool_decide_unpack _). vm_compute. exact I.
  - reflexivity.
  - reflexivity.
Defined.

(** ** What holds of the areas that were read *)

(** A primary area: its zone passed the checks, its files are named, its schema is
    consistent and its classes have different names, but for the last class if
    that has been destroyed ([dead]). *)
Record primary_ok (regexec : cstr → cstr → bool) (dead : bool) (aa : auth_area_struct) : Prop := {
  pa_soa : check_soa regexec aa = Ret true;
  pa_files : is_Some (data_dir aa) ∧ is_Some (schema_file aa) ∧ is_Some (soa_file aa);
  pa_schema : ∃ s, aa_schema aa = Some s ∧ schema_ok (live_schema dead s) ∧
    ∀ i j c d, class_list (live_schema dead s) !! i = Some c → class_list (live_schema dead s) !! j = Some d → i ≠ j →
      STR_EQ (class_name c) (class_name d) = false }.
Definition areas_ok (regexec : cstr → cstr → bool) (cfg : config) : Prop :=
  ∀ k aa, area_list cfg !! k = Some aa → aa_type aa = AUTH_AREA_PRIMARY → primary_ok regexec (bool_decide (k ∈ dangling_areas cfg)) aa.

(** what holds of all classes holds without the last one *)
Lemma primary_ok_dead regexec dead aa : primary_ok regexec false aa → primary_ok regexec dead aa.
Proof.
  intros [Hs Hf (s & E & Hok & Hnd)]. split; [done..|]. exists s. split; [done|]. split; [apply live_schema_ok; by destruct s|].
  intros i j c d [Hi _]%live_lookup [Hj _]%live_lookup. by apply Hnd.
Qed.

Section AreasOk.
Context (fs : filesystem) (directory_exists : cstr → bool) (resolve : cstr → option addrinfo).
Context (regexec : cstr → cstr → bool) (ni0 : netinfo).

Lemma read_soa_file_true aa aa' :
  read_soa_file regexec fs aa = Ret (true, aa') →
  check_soa regexec aa' = Ret true ∧ data_dir aa' = data_dir aa ∧ schema_file aa' = schema_file aa ∧
  soa_file aa' = soa_file aa ∧ aa_type aa' = aa_type aa.
Proof.
  unfold read_soa_file. intros H. apply bind_inv_Ret in H as (f & _ & H). destruct (fs f) as [txt|]; [|done].
  apply bind_inv_Ret in H as (ls & _ & H). apply bind_inv_Ret in H as (soa & _ & H).
  apply bind_inv_Ret in H as (ok & E & H). apply Ret_inj in H. by injection H as -> <-.
Qed.

Lemma add_auth_area_ok name aa cfg ok cfg' :
  areas_ok regexec cfg → add_auth_area fs directory_exists regexec ni0 name aa cfg = Ret (ok, cfg') → areas_ok regexec cfg'.
Proof.
  intros Hcfg H. unfold add_auth_area in H. set (cfg1 := Config _ _ _ _) in H.
  assert (areas_ok regexec cfg1) as H1 by exact Hcfg. clearbody cfg1. clear Hcfg.
  destruct name as [name|]; [|apply Ret_inj in H; by injection H as <- <-].
  destruct (is_duplicate_aa _ _); [apply Ret_inj in H; by injection H as <- <-|].
  apply bind_inv_Ret in H as ([[ok1 n] dir] & _ & H). set (aa1 := with_aa_name n _) in H.
  destruct ok1; cbn [negb] in H; [|apply Ret_inj in H; by injection H as <- <-].
  destruct (decide (aa_type aa1 = AUTH_AREA_PRIMARY)) as [Ht|Ht].
  - destruct (decide _) as [Hf|Hf]; [apply Ret_inj in H; by injection H as <- <-|].
    apply bind_inv_Ret in H as ([ok2 aa2] & E2 & H). destruct ok2; cbn [negb] in H; [|apply Ret_inj in H; by injection H as <- <-].
    apply read_soa_file_true in E2 as (Hsoa & Hd & Hsf & Hso & Hty).
    apply bind_inv_Ret in H as ([ok3 st] & E3 & H). apply bind_inv_Ret in H as (st' & Est & H). apply of_option_Ret in Est as ->.
    destruct ok3; [|destruct (dangling st'); [done|]; apply Ret_inj in H; by injection H as <- <-].
    apply Ret_inj in H; injection H as <- <-. pose proof (read_schema_ok _ _ _ _ _ _ E3) as Hok.
    assert (primary_ok regexec (dangling st') (with_schema (Some (l_schema st')) (with_schema (Some (Schema [] [])) aa2))) as Hnew.
    { split; [exact Hsoa| |].
      - cbn. rewrite Hd, Hsf, Hso. destruct (data_dir aa1), (schema_file aa1), (soa_file aa1); try (exfalso; apply Hf; by auto).
        by split_and!; eexists.
      - exists (l_schema st'). split; [done|]. split; [by apply live_schema_ok, Hok|]. by apply (names_differ _ _ Hok). }
    intros k x Hk Hxt. unfold area_list at 1 in Hk. cbn [areas default dangling_areas] in *. apply lookup_app_Some in Hk as [Hk|[Hge Hk]].
    + assert (bool_decide (k ∈ dangling_areas cfg1 ++ (if dangling st' then [length (area_list cfg1)] else [])) =
        bool_decide (k ∈ dangling_areas cfg1)) as ->; [|by apply H1].
      apply bool_decide_ext. rewrite elem_of_app. apply lookup_lt_Some in Hk. destruct (dangling st'); [rewrite list_elem_of_singleton|];
        (split; [intros [|Hx]; [done|]|by left]); [lia|by apply elem_of_nil in Hx].
    + apply list_lookup_singleton_Some in Hk as [Hk <-]. destruct (dangling st'); [|by apply primary_ok_dead].
      rewrite bool_decide_eq_true_2; [done|]. apply elem_of_app. right. apply list_elem_of_singleton. lia.
  - apply Ret_inj in H. injection H as <- <-. intros k x Hk Hxt. unfold area_list at 1 in Hk. cbn [areas default dangling_areas] in *.
    apply lookup_app_Some in Hk as [Hk|[_ [_ <-]%list_lookup_singleton_Some]]; [by apply H1|done].
Qed.

Lemma read_area_lines_ok ls s content cfg ok cfg' :
  areas_ok regexec cfg → read_area_lines fs directory_exists resolve regexec ni0 ls s content cfg = Ret (ok, cfg') →
  areas_ok regexec cfg'.
Proof.
  revert s content cfg. induction ls as [|line ls IH]; intros s content cfg Hok H; cbn [read_area_lines] in H.
  { destruct content; [|apply Ret_inj in H; by injection H as <- <-].
    apply bind_inv_Ret in H as ([ok1 cfg1] & E & H). apply Ret_inj in H. injection H as <- <-. by eapply add_auth_area_ok. }
  destruct (is_separator line).
  - apply bind_inv_Ret in H as ([ok1 cfg1] & E & H). apply add_auth_area_ok in E; [|done]. by apply IH in H.
  - apply bind_inv_Ret in H as ([[tag datum]|] & _ & H); [|by apply IH in H].
    destruct (read_area_field _ _ _ _ _ _) as [s1|]; [by apply IH in H|apply Ret_inj in H; by injection H as <- <-].
Qed.

(** C30: Whatever the file of the areas holds, every primary area that reading
    it leaves in the list is complete: its zone passed the checks, its data
    directory, schema file and zone file are named, and its schema is consistent
    (class ids, attribute ids, labels, references) with class names that differ.
    The schema is this but for its last class if the area is one of those whose
    last class repeats a name and has been destroyed ([dangling_areas]); such
    areas are listed too.  All this holds also when reading gives up in the
    middle.  It is about the areas that are read: nothing is said of a
    configuration that another reading left when the file cannot be opened, and
    reading over one with a destroyed class is a fault. *)
Theorem read_auth_areas_ok file cfg ok cfg' :
  read_auth_areas fs directory_exists resolve regexec ni0 file cfg = Ret (ok, cfg') →
  is_Some (fs file) →
  ∀ k aa, area_list cfg' !! k = Some aa → aa_type aa = AUTH_AREA_PRIMARY →
    primary_ok regexec (bool_decide (k ∈ dangling_areas cfg')) aa.
Proof.
  intros H [f Hf]. unfold read_auth_areas in H. rewrite Hf in H. apply bind_inv_Ret in H as (cfg0 & E0 & H).
  apply bind_inv_Ret in H as (ls & _ & H). apply read_area_lines_ok in H; [done|]. intros k aa Hk.
  assert (area_list cfg0 = []) as E; [|by rewrite E in Hk].
  unfold area_list, destroy_auth_area_list in *. destruct (areas cfg) as [l|] eqn:Ea; [|injection E0 as <-; by rewrite Ea].
  destruct (dangling_areas cfg); [by injection E0 as <-|done].
Qed.
End AreasOk.

Definition demo_areas_fs : filesystem := λ name,
  if bool_decide (name = $"areas") then
    Some (demo_disk_file ["type: primary"; "name: a.com"; "data-dir: data"; "schema-file: schema"; "soa-file: soa";
                          "guardian: g1"; "slave: 10.0.0.1 4321"; "---";
                          "type: slave"; "name: b.com"; "master: 10.0.0.2 4321"]%string)
  else if bool_decide (name = $"soa") then Some (text (soa_lines demo_soa))
  else demo_fs name.
Definition demo_config : config := Eval vm_compute in
  match read_auth_areas demo_areas_fs (λ _, true) (λ _, None) (λ _ _, true) (NetInfo 0 0 []) ($"areas") no_config with
  | Ret (_, cfg) => cfg
  | _ => no_config
  end.
Lemma read_auth_areas_ok_witness :
  read_auth_areas demo_areas_fs (λ _, true) (λ _, None) (λ _ _, true) (NetInfo 0 0 []) ($"areas") no_config = Ret (true, demo_config) ∧
  aa_name <$> area_list demo_config = [$"a.com"; $"b.com"] ∧
  dangling_areas demo_config = [] ∧
  ∀ aa, aa ∈ area_list demo_config → aa_type aa = AUTH_AREA_PRIMARY → primary_ok (λ _ _, true) false aa.
Proof.
  assert (read_auth_areas demo_areas_fs (λ _, true) (λ _, None) (λ _ _, true) (NetInfo 0 0 []) ($"areas") no_config
          = Ret (true, demo_config)) as H by (vm_compute; reflexivity).
  split; [exact H|]. split; [vm_compute; reflexivity|]. split; [vm_compute; reflexivity|].
  intros aa (k & Hk)%list_elem_of_lookup Ht.
  change false with (bool_decide (k ∈ ([] : list nat))).
  refine (read_auth_areas_ok demo_areas_fs (λ _, true) (λ _, None) (λ _ _, true) (NetInfo 0 0 []) ($"areas") no_config true demo_config
    H _ k aa Hk Ht).
  vm_compute. by eexists.
Defined.

(** The test for duplicates comes before the dots are taken off: an area stands
    twice in the list.  And areas of the same name may have different types;
    only the first one is ever found by its name. *)
Definition two_areas (first second : list string) : filesystem := λ name,
  if bool_decide (name = $"areas") then Some (demo_disk_file (first ++ ["---"%string] ++ second)) else demo_areas_fs name.
Example same_area_twice :
  let read fs := read_auth_areas fs (λ _, true) (λ _, None) (λ _ _, true) (NetInfo 0 0 []) ($"areas") no_config in
  (∃ cfg, read (two_areas ["type: slave"; "name: b.com"]%string ["type: slave"; "name: b.com."]%string) = Ret (true, cfg) ∧
          aa_name <$> area_list cfg = [$"b.com"; $"b.com"]) ∧
  (∃ cfg, read (two_areas ["type: slave"; "name: a.com"]%string
                 ["name: a.com"; "data-dir: data"; "schema-file: schema"; "soa-file: soa"]%string) = Ret (true, cfg) ∧
          (λ a, (aa_name a, aa_type a)) <$> area_list cfg = [($"a.com", AUTH_AREA_SECONDARY); ($"a.com", AUTH_AREA_PRIMARY)] ∧
          aa_type <$> find_auth_area_by_name (area_list cfg) (Some $"a.com") = Some AUTH_AREA_SECONDARY).
Proof. split; eexists; (split; [vm_compute; reflexivity|vm_compute; done]). Qed.

(** An area whose schema gives two classes the same name is listed, with both
    classes, of which the second has been destroyed.  It can neither be deleted
    nor checked, and the areas cannot be read again. *)
Example repeated_class_listed :
  let fs := λ name,
    if bool_decide (name = $"schema") then
      Some (demo_disk_file ["name: host"; "dbdir: data"; "attributedef: host.tmpl"; "---";
                            "name: Host"; "dbdir: data"; "attributedef: net.tmpl"]%string)
    else demo_areas_fs name in
  let read cfg := read_auth_areas fs (λ _, true) (λ _, None) (λ _ _, true) (NetInfo 0 0 []) ($"areas") cfg in
  match read no_config with
  | Ret (true, cfg) =>
      (λ a, class_name <$> from_option class_list [] (aa_schema a)) <$> area_list cfg = [[$"host"; $"Host"]; []] ∧
      dangling_areas cfg = [0%nat] ∧ read cfg = Fault ∧ delete_auth_area (Some $"a.com") cfg = Fault ∧
      verify_schema fs (λ _, true) (λ _, true) [] [] [] [] true (head (area_list cfg) ≫= aa_schema) = Fault
  | _ => False
  end.
Proof. vm_compute. by split_and!. Qed.

(** An area whose schema cannot be read to its end is destroyed, but the classes
    that were read point to it: the next area with such a class goes through the
    freed memory. *)
Example failed_schema_is_stale :
  let fs := λ name,
    if bool_decide (name = $"bad") then
      Some (demo_disk_file ["name: host"; "dbdir: data"; "---"; "name: net"; "attributedef: missing"]%string)
    else two_areas ["name: c.com"; "data-dir: data"; "schema-file: bad"; "soa-file: soa"]%string
                   ["name: a.com"; "data-dir: data"; "schema-file: schema"; "soa-file: soa"]%string name in
  read_auth_areas fs (λ _, true) (λ _, None) (λ _ _, true) (NetInfo 0 0 []) ($"areas") no_config = Fault.
Proof. by vm_compute. Qed.

(** ** What is written is noted *)

Section WriteAreasNoted.
Context (mkdir_ok open_ok : list cstr → cstr → bool) (regexec : cstr → cstr → bool) (ni0 : netinfo) (suffix : cstr).

Lemma need_dir_noted dir w ok left w' : need_dir mkdir_ok dir w = Ret (ok, left, w') → noted w w'.
Proof.
  unfold need_dir. intros H. destruct (has_dir w dir); [apply Ret_inj in H; by injection H as <- <- <-|].
  by apply make_config_dir_noted in H as [].
Qed.
Lemma write_new_soa_file_noted file aa w ok w' :
  write_new_soa_file mkdir_ok open_ok suffix file aa w = Ret (ok, w') → noted w w'.
Proof.
  unfold write_new_soa_file. intros H. destruct file as [[|c file]|]; try (apply Ret_inj in H; by injection H as <- <-).
  apply bind_inv_Ret in H as (name & _ & H). apply bind_inv_Ret in H as ([ok1 w1] & E & H).
  apply open_file_to_write_noted in E as [N _]. apply Ret_inj in H. destruct ok1; injection H as <- <-; [|done].
  etrans; [exact N|]. apply written_noted.
Qed.
Lemma write_schema_file_noted file type s w ok s' w' :
  write_schema_file mkdir_ok open_ok suffix file type s w = Ret (ok, s', w') → noted w w'.
Proof.
  intros H. destruct s as [s|]; [by apply write_schema_file_spec in H as []|]. unfold write_schema_file in H.
  destruct file as [[|c file]|]; try (apply Ret_inj in H; by injection H as <- <- <-).
  destruct (decide _); [apply Ret_inj in H; by injection H as <- <- <-|].
  apply bind_inv_Ret in H as (name & _ & H). apply bind_inv_Ret in H as ([ok1 w1] & E & H).
  apply open_file_to_write_noted in E as [N _]. destruct ok1; [discriminate H|]. apply Ret_inj in H. by injection H as <- <- <-.
Qed.

Lemma write_auth_area_noted aa w ok aa' w' :
  write_auth_area mkdir_ok open_ok regexec ni0 suffix aa w = Ret (ok, aa', w') → noted w w'.
Proof.
  unfold write_auth_area. intros H. apply bind_inv_Ret in H as ([[ok0 name] dir] & _ & H).
  destruct ok0; cbn [negb] in H; [|apply Ret_inj in H; by injection H as <- <- <-].
  apply bind_inv_Ret in H as ([[ok1 d1] w1] & E1 & H). apply need_dir_noted in E1.
  destruct ok1; cbn [negb] in H; [|apply Ret_inj in H; by injection H as <- <- <-].
  destruct (decide _); [|apply Ret_inj in H; by injection H as <- <- <-].
  apply bind_inv_Ret in H as ([[ok2 d2] w2] & E2 & H). apply need_dir_noted in E2.
  assert (noted w w2) as N2 by (by etrans).
  destruct ok2; cbn [negb] in H; [|apply Ret_inj in H; by injection H as <- <- <-].
  apply bind_inv_Ret in H as (attr_dir & _ & H).
  apply bind_inv_Ret in H as ([[ok3 d3] w3] & E3 & H). apply need_dir_noted in E3.
  assert (noted w w3) as N3 by (by etrans).
  destruct ok3; cbn [negb] in H; [|apply Ret_inj in H; by injection H as <- <- <-].
  apply bind_inv_Ret in H as ([ok4 w4] & E4 & H). apply write_new_soa_file_noted in E4.
  assert (noted w w4) as N4 by (by etrans).
  destruct ok4; cbn [negb] in H; [|apply Ret_inj in H; by injection H as <- <- <-].
  apply bind_inv_Ret in H as ([[ok5 s5] w5] & E5 & H). apply write_schema_file_noted in E5.
  apply Ret_inj in H. injection H as <- <- <-. by etrans.
Qed.

Lemma write_areas_noted l w ok ls l' w' :
  write_areas mkdir_ok open_ok regexec ni0 suffix l w = Ret (ok, ls, l', w') → noted w w'.
Proof.
  revert w ok ls l' w'. induction l as [|aa l IH]; intros w ok ls l' w' H; cbn [write_areas] in H.
  { apply Ret_inj in H. by injection H as <- <- <- <-. }
  apply bind_inv_Ret in H as ([[ok1 aa1] w1] & E & H). apply write_auth_area_noted in E.
  destruct ok1; [|apply Ret_inj in H; by injection H as <- <- <- <-].
  apply bind_inv_Ret in H as ([[[ok2 ls2] l2] w2] & E2 & H). apply Ret_inj in H. injection H as <- <- <- <-.
  apply IH in E2. by etrans.
Qed.

(** Writing a configuration leaves nothing behind unnoticed: every directory
    and every file that writing all areas makes is in the list of paths, by
    which the administration server removes them when it has to, also when
    writing fails half-way. *)
Theorem write_all_auth_areas_noted file l w ok l' w' :
  write_all_auth_areas mkdir_ok open_ok regexec ni0 suffix file l w = Ret (ok, l', w') →
  (∀ d, d ∈ w_dirs w' → d ∈ w_dirs w ∨ d ∈ w_paths w') ∧
  (∀ f, f ∈ w_files w' → f ∈ w_files w ∨ f.1 ∈ w_paths w') ∧ w_paths w `prefix_of` w_paths w'.
Proof.
  intros H. assert (noted w w') as (P & _ & _ & D & F); [|done].
  unfold write_all_auth_areas in H. destruct file as [[|c file]|]; try (apply Ret_inj in H; by injection H as <- <- <-).
  apply bind_inv_Ret in H as (name & _ & H). apply bind_inv_Ret in H as ([ok1 w1] & E & H).
  apply open_file_to_write_noted in E as [N _].
  destruct ok1; cbn [negb] in H; [|apply Ret_inj in H; by injection H as <- <- <-].
  apply bind_inv_Ret in H as ([[[ok2 ls] l2] w2] & E2 & H). apply write_areas_noted in E2.
  apply Ret_inj in H. injection H as <- <- <-. etrans; [exact N|]. etrans; [exact E2|]. apply written_noted.
Qed.
End WriteAreasNoted.

Lemma write_all_auth_areas_noted_witness :
  ∃ l' w', write_all_auth_areas (λ _ _, true) (λ _ f, negb (bool_decide (f = $"net.tmpl.new"))) (λ _ _, true) (NetInfo 0 0 [])
      ($".new") (Some $"areas") (area_list demo_config) (Writing [] [] []) = Ret (false, l', w') ∧
    w_dirs w' = [$"a.com"; $"data"; $"a.com/attribute_defs"] ∧ fst <$> w_files w' = [$"soa.new"; $"host.tmpl.new"; $"schema.new"; $"areas.new"] ∧
    (∀ d, d ∈ w_dirs w' → d ∈ ([] : list cstr) ∨ d ∈ w_paths w') ∧
    (∀ f, f ∈ w_files w' → f ∈ ([] : list (cstr * cstr)) ∨ f.1 ∈ w_paths w').
Proof.
  destruct (write_all_auth_areas (λ _ _, true) (λ _ f, negb (bool_decide (f = $"net.tmpl.new"))) (λ _ _, true) (NetInfo 0 0 [])
      ($".new") (Some $"areas") (area_list demo_config) (Writing [] [] [])) as [[[ok l'] w']| |] eqn:E;
    [|vm_compute in E; discriminate E..].
  assert (ok = false) as -> by (vm_compute in E; by injection E).
  exists l', w'. split; [reflexivity|].
  pose proof (write_all_auth_areas_noted (λ _ _, true) (λ _ f, negb (bool_decide (f = $"net.tmpl.new"))) (λ _ _, true)
    (NetInfo 0 0 []) ($".new") (Some $"areas") (area_list demo_config) (Writing [] [] []) false l' w' E) as (H1 & H2 & _).
  split; [|split; [|split; [exact H1|exact H2]]].
  - clear H1 H2. vm_compute in E. injection E as <- <-. reflexivity.
  - clear H1 H2. vm_compute in E. injection E as <- <-. reflexivity.
Defined.

(** ** No path is used twice *)

(** the paths that are checked, in order *)
Definition class_paths (c : class_struct) : list (option cstr) := [Some (db_dir c); attr_file c].
Definition area_paths (aa : auth_area_struct) : list (option cstr) :=
  [data_dir aa; schema_file aa; soa_file aa]
  ++ match aa_schema aa with Some s => class_list s ≫= class_paths | None => [] end.
(** empty paths are not looked at *)
Definition used_path (p : option cstr) : list cstr := match p with Some ((_ :: _) as p) => [p] | _ => [] end.

(** looking at paths one after the other *)
Fixpoint dup_paths (ps : list (option cstr)) (paths : list cstr) : nat * list cstr :=
  match ps with
  | [] => (0, paths)
  | p :: ps =>
      let '(d, paths) := dup_config_path_name paths p in
      let '(n, paths) := dup_paths ps paths in ((if d then 1 else 0) + n, paths)
  end%nat.

Lemma dup_paths_app ps qs paths :
  dup_paths (ps ++ qs) paths
  = let '(n, paths) := dup_paths ps paths in let '(m, paths) := dup_paths qs paths in ((n + m)%nat, paths).
Proof.
  revert paths. induction ps as [|p ps IH]; intros paths; cbn [app dup_paths].
  - by destruct (dup_paths qs paths).
  - destruct (dup_config_path_name paths p) as [d paths1]. rewrite IH.
    destruct (dup_paths ps paths1) as [n paths2]. destruct (dup_paths qs paths2) as [m paths3]. f_equal. lia.
Qed.

(** nothing is in use already exactly if all paths differ *)
Lemma dup_paths_spec ps paths n paths' :
  NoDup paths → dup_paths ps paths = (n, paths') →
  (n = 0%nat ↔ NoDup (paths ++ (ps ≫= used_path))) ∧ (n = 0%nat → paths' = paths ++ (ps ≫= used_path)).
Proof.
  revert paths n paths'. induction ps as [|p ps IH]; intros paths n paths' Hnd H; cbn [dup_paths] in H.
  { injection H as <- <-. by rewrite app_nil_r. }
  assert (∀ d paths1, dup_config_path_name paths p = (d, paths1) →
    NoDup paths1 ∧ (d = false → paths1 = paths ++ used_path p) ∧ (d = true → ¬ NoDup (paths ++ used_path p))) as Hd.
  { intros d paths1. unfold dup_config_path_name. destruct p as [[|c p]|]; try (intros [= <- <-]; by rewrite app_nil_r).
    destruct (existsb _ paths) eqn:E; intros [= <- <-]; split_and!; try done.
    - intros _ [_ [Hn _]]%NoDup_app. apply existsb_exists in E as (x & Hx%list_elem_of_In & E%Z.eqb_eq%strcmp_eq). subst x.
      apply (Hn _ Hx). by left.
    - apply NoDup_app. split; [done|]. split; [|apply NoDup_singleton]. intros x Hx ->%list_elem_of_singleton.
      apply not_true_iff_false in E. apply E, existsb_exists. exists (c :: p). rewrite strcmp_refl. split; [by apply list_elem_of_In|done]. }
  destruct (dup_config_path_name paths p) as [d paths1]. destruct (Hd _ _ eq_refl) as (Hnd1 & Hf & Ht). clear Hd.
  destruct (dup_paths ps paths1) as [m paths2] eqn:E2. injection H as <- <-.
  apply IH in E2 as [Hiff Hp]; [|done].
  assert ((p :: ps) ≫= used_path = used_path p ++ (ps ≫= used_path)) as -> by done. rewrite app_assoc. destruct d.
  - split; [|lia]. split; [lia|]. intros [Hbad _]%NoDup_app. by destruct (Ht eq_refl).
  - rewrite <-(Hf eq_refl). done.
Qed.

Lemma verify_all_class_paths_dup name l paths n paths' :
  verify_all_class_paths name l paths = Ret (n, paths') → dup_paths (l ≫= class_paths) paths = (n, paths').
Proof.
  revert paths n paths'. induction l as [|c l IH]; intros paths n paths' H; cbn [verify_all_class_paths] in H.
  { apply Ret_inj in H. by injection H as <- <-. }
  apply bind_inv_Ret in H as (? & _ & H). destruct (dup_config_path_name paths (Some (db_dir c))) as [d1 paths1] eqn:E1.
  apply bind_inv_Ret in H as (? & _ & H). destruct (dup_config_path_name paths1 (attr_file c)) as [d2 paths2] eqn:E2.
  apply bind_inv_Ret in H as ([m paths3] & E3 & H). apply IH in E3. apply Ret_inj in H. injection H as <- <-.
  assert ((c :: l) ≫= class_paths = [Some (db_dir c); attr_file c] ++ (l ≫= class_paths)) as -> by done.
  rewrite dup_paths_app. cbn [dup_paths]. rewrite E1, E2. cbv beta iota. rewrite E3. f_equal. lia.
Qed.
Lemma verify_all_auth_area_paths_dup l paths n paths' :
  verify_all_auth_area_paths l paths = Ret (n, paths') → dup_paths (l ≫= area_paths) paths = (n, paths').
Proof.
  revert paths n paths'. induction l as [|aa l IH]; intros paths n paths' H; cbn [verify_all_auth_area_paths] in H.
  { apply Ret_inj in H. by injection H as <- <-. }
  apply bind_inv_Ret in H as (? & _ & H). destruct (dup_config_path_name paths (data_dir aa)) as [d1 paths1] eqn:E1.
  apply bind_inv_Ret in H as (? & _ & H). destruct (dup_config_path_name paths1 (schema_file aa)) as [d2 paths2] eqn:E2.
  apply bind_inv_Ret in H as (? & _ & H). destruct (dup_config_path_name paths2 (soa_file aa)) as [d3 paths3] eqn:E3.
  apply bind_inv_Ret in H as (s & Es%of_option_Ret & H).
  apply bind_inv_Ret in H as ([m paths4] & E4 & H). apply verify_all_class_paths_dup in E4.
  apply bind_inv_Ret in H as ([k paths5] & E5 & H). apply IH in E5. apply Ret_inj in H. injection H as <- <-.
  assert ((aa :: l) ≫= area_paths = [data_dir aa; schema_file aa; soa_file aa] ++ (class_list s ≫= class_paths) ++ (l ≫= area_paths)) as ->.
  { cbn [mbind list_bind]. unfold area_paths at 1. by rewrite Es, <-app_assoc. }
  rewrite dup_paths_app. cbn [dup_paths]. rewrite E1, E2, E3. cbv beta iota.
  rewrite dup_paths_app, E4. cbv beta iota. rewrite E5. f_equal. lia.
Qed.

(** The check of the paths of a configuration counts nothing exactly if all
    directories and files of its areas and classes, and the paths noted before,
    are different from each other; the list then has all of them. *)
Theorem verify_all_auth_area_paths_correct l paths n paths' :
  NoDup paths → verify_all_auth_area_paths l paths = Ret (n, paths') →
  (n = 0%nat ↔ NoDup (paths ++ ((l ≫= area_paths) ≫= used_path))) ∧
  (n = 0%nat → paths' = paths ++ ((l ≫= area_paths) ≫= used_path)).
Proof. intros Hnd H%verify_all_auth_area_paths_dup. by apply dup_paths_spec. Qed.
Lemma verify_all_auth_area_paths_correct_witness :
  let aa := with_area_files (Some $"schema") (Some $"soa") (Some $"data") None schema_area in
  ∃ n paths', verify_all_auth_area_paths [aa] [$"areas"] = Ret (n, paths') ∧ n = 0%nat ∧
    paths' = [$"areas"] ++ (([aa] ≫= area_paths) ≫= used_path) ∧ paths' = [$"areas"; $"data"; $"schema"; $"soa"].
Proof.
  cbv zeta. set (aa := with_area_files _ _ _ _ _).
  destruct (verify_all_auth_area_paths_correct [aa] [$"areas"] 0 [$"areas"; $"data"; $"schema"; $"soa"]) as [_ H].
  - apply (bool_decide_unpack _). vm_compute. exact I.
  - vm_compute. reflexivity.
  - exists 0%nat, [$"areas"; $"data"; $"schema"; $"soa"]. split; [vm_compute; reflexivity|].
    split; [reflexivity|]. split; [exact (H eq_refl)|reflexivity].
Defined.
