(* ===== verification/RefLists.v ===== *)
(** * Lists of strings without duplicates (common/dir_security.c, common/punt_ref.c)

    The hosts of tcp wrappers that may use the security directive or may not,
    and the servers a client is sent to for what this server does not hold.
    Both are lists of strings that are distinct up to the case, with the same
    operations and a file with one entry in a line. *)

From stdpp Require Import relations.
From S2P Require Import Prelude CLib CString Misc DlList IpNetwork Types Stdio FileInfo ConfigFile FileNames.
From S2P Require Import Regexp RegexpSyntax RegexpMatch.

(** the lines that are entries *)
Definition is_entry (line : cstr) : bool := match line with [] => false | c :: _ => negb (c =c chr 35) end.
(** an entry that is read back as it is *)
Definition entry (s : cstr) : Prop := clean_datum s ∧ is_entry s = true ∧ (length s + 1 < BUFSIZ)%nat.
(** the lines that are entries, and strings up to the case *)
Definition entries (ls : list cstr) : list cstr := filter (λ s, is_entry s = true) ls.
Definition folded (s : cstr) : cstr := tolower <$> s.
#[export] Instance entry_dec s : Decision (entry s).
Proof. unfold entry. apply _. Defined.

Lemma entries_cons line ls : entries (line :: ls) = if is_entry line then line :: entries ls else entries ls.
Proof. unfold entries. rewrite filter_cons. by destruct (is_entry line). Qed.

(** ** Lists with a key *)

Section Keys.
Context {A : Type} (key : A → cstr).
Implicit Types (l : list A) (s : cstr).

(** is there an element with this key *)
Definition has_key l s : bool := existsb (λ a, STR_EQ (key a) s) l.
(** the keys are distinct up to the case *)
Definition distinct_keys l : Prop := NoDup ((λ a, folded (key a)) <$> l).
#[export] Instance distinct_keys_dec l : Decision (distinct_keys l).
Proof. unfold distinct_keys. apply _. Defined.
(** the first of them goes *)
Fixpoint del_key l s : list A :=
  match l with
  | [] => []
  | a :: l => if STR_EQ (key a) s then l else a :: del_key l s
  end.

Lemma has_key_true l s : has_key l s = true ↔ folded s ∈ ((λ a, folded (key a)) <$> l).
Proof.
  unfold has_key. rewrite existsb_exists, list_elem_of_fmap. split.
  - intros (a & Hin%list_elem_of_In & E%STR_EQ_iff). by exists a.
  - intros (a & E & Hin). exists a. split; [by apply list_elem_of_In|by apply STR_EQ_iff].
Qed.
Lemma distinct_keys_snoc l a : distinct_keys (l ++ [a]) ↔ distinct_keys l ∧ has_key l (key a) = false.
Proof.
  unfold distinct_keys. rewrite fmap_app, NoDup_app. rewrite <-not_true_iff_false, has_key_true. split.
  - intros (H & Hn & _). split; [done|]. intros Hin. by apply (Hn _ Hin), list_elem_of_singleton.
  - intros [H Hn]. split_and!; [done| |apply NoDup_singleton]. intros x Hin Hx%list_elem_of_singleton. cbn in Hx. by subst x.
Qed.
Lemma distinct_keys_cons l a : distinct_keys (a :: l) ↔ has_key l (key a) = false ∧ distinct_keys l.
Proof. unfold distinct_keys. by rewrite fmap_cons, NoDup_cons, <-not_true_iff_false, has_key_true. Qed.

(** an element that is there is the only one with its key *)
Lemma distinct_keys_mid l1 a l2 :
  distinct_keys (l1 ++ a :: l2) → has_key l1 (key a) = false ∧ has_key l2 (key a) = false ∧ distinct_keys (l1 ++ l2).
Proof.
  unfold distinct_keys. rewrite <-!not_true_iff_false, !has_key_true, !fmap_app, fmap_cons.
  rewrite !NoDup_app, NoDup_cons. intros (H1 & Hn & H2 & H3). split_and!; auto.
  - intros Hin. apply (Hn _ Hin). by left.
  - intros x Hin Hin'. apply (Hn _ Hin). by right.
Qed.
Lemma del_key_mid l1 a l2 s : has_key l1 s = false → STR_EQ (key a) s = true → del_key (l1 ++ a :: l2) s = l1 ++ l2.
Proof.
  intros H Ha. induction l1 as [|b l1 IH]; cbn [app del_key]; [by rewrite Ha|]. cbn in H.
  apply orb_false_iff in H as [-> H]. by rewrite IH.
Qed.
Lemma has_key_split l s :
  has_key l s = true → ∃ l1 a l2, l = l1 ++ a :: l2 ∧ has_key l1 s = false ∧ STR_EQ (key a) s = true.
Proof.
  induction l as [|a l IH]; [done|]. cbn. destruct (STR_EQ (key a) s) eqn:E; cbn.
  - intros _. by exists [], a, l.
  - intros (l1 & b & l2 & -> & H & Hb)%IH. exists (a :: l1), b, l2. cbn. by rewrite E.
Qed.
End Keys.

(** ** Directive security (dir_security.c) *)

Record dir_security_struct := DirSecurity { wrapper : cstr }.

(** [None] is a list that was not created *)
Definition examin_tcp_wrapper (wrapper : option cstr) : option examin_error :=
  if negb (STR_EXISTS wrapper) then Some ERW_EMTYSTR else None.
Fixpoint count_dir_security_loop (l : list dir_security_struct) (s : cstr) : nat :=
  match l with
  | [] => 0
  | wrap_item :: l => (if STR_EQ (wrapper wrap_item) s then 1 else 0) + count_dir_security_loop l s
  end.
Definition count_dir_security_entries (wrap_list : option (list dir_security_struct)) (s : cstr) : nat :=
  match wrap_list with None => 0 | Some l => count_dir_security_loop l s end.
Definition verify_dir_security (wrap_item : dir_security_struct) : bool :=
  fine (examin_tcp_wrapper (Some (wrapper wrap_item))).
Definition create_dir_security : option (list dir_security_struct) := Some [].

Fixpoint find_dir_security_loop (l : list dir_security_struct) (s : cstr) : option dir_security_struct :=
  match l with
  | [] => None
  | wrap_item :: l => if STR_EQ (wrapper wrap_item) s then Some wrap_item else find_dir_security_loop l s
  end.
Definition find_dir_security (wrap_list : option (list dir_security_struct)) (s : cstr) : option dir_security_struct :=
  wrap_list ≫= λ l, find_dir_security_loop l s.
Definition add_dir_security (wrap_list : option (list dir_security_struct)) (wrap_str : cstr) :
    bool * option (list dir_security_struct) :=
  match wrap_list with
  | None => (false, wrap_list)
  | Some l =>
      match find_dir_security wrap_list wrap_str with
      | Some _ => (false, wrap_list)
      | None => (true, Some (l ++ [DirSecurity wrap_str]))
      end
  end.
(** dl_list_delete at the place where the search has stopped *)
Definition del_dir_security (wrap_list : option (list dir_security_struct)) (wrap_str : cstr) :
    bool * option (list dir_security_struct) :=
  match wrap_str with
  | [] => (false, wrap_list)
  | _ =>
      match find_dir_security wrap_list wrap_str with
      | None => (false, wrap_list)
      | Some _ => (true, (λ l, del_key wrapper l wrap_str) <$> wrap_list)
      end
  end.
Definition def_dir_allow_security_list : bool * option (list dir_security_struct) := (true, create_dir_security).
Definition def_dir_deny_security_list : bool * option (list dir_security_struct) := (true, create_dir_security).

Fixpoint verify_dir_security_loop (all l : list dir_security_struct) : bool :=
  match l with
  | [] => true
  | wrap_item :: l =>
      if negb (verify_dir_security wrap_item) then false
      else if (1 <? count_dir_security_entries (Some all) (wrapper wrap_item))%nat then false
      else verify_dir_security_loop all l
  end.
Definition verify_dir_security_list (wrap_list : option (list dir_security_struct)) : bool :=
  match wrap_list with None => true | Some l => verify_dir_security_loop l l end.

Fixpoint read_dir_security_lines (ls : list cstr) (wrap_list : option (list dir_security_struct)) :
    bool * option (list dir_security_struct) :=
  match ls with
  | [] => (true, wrap_list)
  | line :: ls =>
      if negb (is_entry line) then read_dir_security_lines ls wrap_list
      else if negb (fine (examin_tcp_wrapper (Some line))) then (false, wrap_list)
      else
        let '(ok, wrap_list) := add_dir_security wrap_list line in
        if ok then read_dir_security_lines ls wrap_list else (false, wrap_list)
  end.
Definition read_dir_security_file (fs : filesystem) (file : option cstr) (wrap_list : option (list dir_security_struct)) :
    outcome (bool * option (list dir_security_struct)) :=
  match file with
  | Some ((_ :: _) as file) =>
      match fs file with
      | None => Ret (false, wrap_list)
      | Some f => ls ← lines_in BUFSIZ f; Ret (read_dir_security_lines ls create_dir_security)
      end
  | _ => Ret (false, wrap_list)
  end.

(** ** Punt referrals (punt_ref.c) *)

Record punt_ref_struct := PuntRef { punt : cstr }.

Definition ADMIN_PUNTREF_REGEXP : cstr := $"^([a-zA-Z0-9.-]+):([0-9]*):([a-zA-Z]+)".
Definition ADMIN_PUNTURL_REGEXP : cstr := $"^([a-zA-Z]+)://([a-zA-Z0-9.-]+):?([0-9]*)/?(.*)".

Definition examin_punt_ref (punt_str : option cstr) : option examin_error :=
  match punt_str with
  | Some ((_ :: _) as s) =>
      if re_match ADMIN_PUNTREF_REGEXP s && re_match ADMIN_PUNTURL_REGEXP s then Some ERW_PUNTSTR else None
  | _ => Some ERW_EMTYSTR
  end.
Definition create_punt_ref (ref_list : option (list punt_ref_struct)) : bool * option (list punt_ref_struct) :=
  match ref_list with Some _ => (false, ref_list) | None => (true, Some []) end.
Definition def_init_punt_ref : bool * option (list punt_ref_struct) := create_punt_ref None.
Definition verify_punt_ref (referral : punt_ref_struct) : bool := fine (examin_punt_ref (Some (punt referral))).
Fixpoint count_punt_ref_loop (l : list punt_ref_struct) (s : cstr) : nat :=
  match l with
  | [] => 0
  | referral :: l => (if STR_EQ (punt referral) s then 1 else 0) + count_punt_ref_loop l s
  end.
Definition count_punt_ref_entries (ref_list : option (list punt_ref_struct)) (s : cstr) : nat :=
  match ref_list with None => 0 | Some l => count_punt_ref_loop l s end.
Fixpoint find_punt_ref_loop (l : list punt_ref_struct) (s : cstr) : option punt_ref_struct :=
  match l with
  | [] => None
  | referral :: l => if STR_EQ (punt referral) s then Some referral else find_punt_ref_loop l s
  end.
Definition find_punt_ref (ref_list : option (list punt_ref_struct)) (s : cstr) : option punt_ref_struct :=
  ref_list ≫= λ l, find_punt_ref_loop l s.
Definition add_punt_ref (ref_list : option (list punt_ref_struct)) (punt_str : cstr) :
    bool * option (list punt_ref_struct) :=
  match ref_list with
  | None => (false, ref_list)
  | Some l =>
      if negb (fine (examin_punt_ref (Some punt_str))) then (false, ref_list)
      else
        match find_punt_ref ref_list punt_str with
        | Some _ => (false, ref_list)
        | None => (true, Some (l ++ [PuntRef punt_str]))
        end
  end.
Definition del_punt_ref (ref_list : option (list punt_ref_struct)) (s : cstr) : bool * option (list punt_ref_struct) :=
  match s with
  | [] => (false, ref_list)
  | _ =>
      match find_punt_ref ref_list s with
      | None => (false, ref_list)
      | Some _ => (true, (λ l, del_key punt l s) <$> ref_list)
      end
  end.

Fixpoint verify_punt_ref_loop (all l : list punt_ref_struct) : bool :=
  match l with
  | [] => true
  | referral :: l =>
      if negb (verify_punt_ref referral) then false
      else if (1 <? count_punt_ref_entries (Some all) (punt referral))%nat then false
      else verify_punt_ref_loop all l
  end.
Definition verify_punt_ref_list (ref_list : option (list punt_ref_struct)) : bool :=
  match ref_list with None => false | Some [] => true | Some l => verify_punt_ref_loop l l end.

Fixpoint read_punt_lines (ls : list cstr) (ref_list : option (list punt_ref_struct)) :
    bool * option (list punt_ref_struct) :=
  match ls with
  | [] => (true, ref_list)
  | line :: ls =>
      if negb (is_entry line) then read_punt_lines ls ref_list
      else
        let '(ok, ref_list) := add_punt_ref ref_list line in
        if ok then read_punt_lines ls ref_list else (false, ref_list)
  end.
Definition read_punt_file (fs : filesystem) (file : option cstr) (ref_list : option (list punt_ref_struct)) :
    outcome (bool * option (list punt_ref_struct)) :=
  match file ≫= fs with
  | None => Ret (false, ref_list)
  | Some f =>
      let '(ok, l) := create_punt_ref None in
      if ok then ls ← lines_in BUFSIZ f; Ret (read_punt_lines ls l) else Ret (false, l)
  end.

Section WriteLists.
Context (mkdir_ok open_ok : list cstr → cstr → bool) (suffix : cstr).

Definition write_dir_security_file (file : option cstr) (wrap_list : option (list dir_security_struct)) (w : writing) :
    outcome (bool * writing) :=
  match file, wrap_list with
  | Some ((_ :: _) as file), Some l =>
      name ← new_file file suffix;
      '(ok, w) ← open_file_to_write mkdir_ok open_ok name w;
      Ret (if ok : bool then (true, wrote_file name (text (wrapper <$> l)) w) else (false, w))
  | _, _ => Ret (false, w)
  end.
Definition write_punt_file (file : option cstr) (ref_list : option (list punt_ref_struct)) (w : writing) :
    outcome (bool * writing) :=
  match file, ref_list with
  | Some ((_ :: _) as file), Some l =>
      name ← new_file file suffix;
      '(ok, w) ← open_file_to_write mkdir_ok open_ok name w;
      Ret (if ok : bool then (true, wrote_file name (text (punt <$> l)) w) else (false, w))
  | _, _ => Ret (false, w)
  end.
End WriteLists.

(** ** Counting and verifying *)

Section Count.
Context {A : Type} (key : A → cstr).
Implicit Types (l : list A) (s : cstr).

Fixpoint count_key l s : nat :=
  match l with [] => 0%nat | a :: l => ((if STR_EQ (key a) s then 1 else 0) + count_key l s)%nat end.
Lemma count_key_app l l' s : count_key (l ++ l') s = (count_key l s + count_key l' s)%nat.
Proof. induction l as [|a l IH]; cbn; [done|]. rewrite IH. lia. Qed.
Lemma count_key_none l s : has_key key l s = false → count_key l s = 0%nat.
Proof. induction l as [|a l IH]; cbn; [done|]. intros [-> H]%orb_false_iff. by rewrite IH. Qed.
Lemma count_key_some l s : has_key key l s = true → (1 ≤ count_key l s)%nat.
Proof.
  intros (l1 & a & l2 & -> & _ & Ha)%has_key_split. rewrite count_key_app. cbn. rewrite Ha. lia.
Qed.
Lemma STR_EQ_refl_key a : STR_EQ (key a) (key a) = true.
Proof. by apply STR_EQ_iff. Qed.

(** no entry counts twice iff the keys are distinct *)
Lemma count_key_distinct l : distinct_keys key l ↔ ∀ a, a ∈ l → (count_key l (key a) ≤ 1)%nat.
Proof.
  split.
  - intros H a (l1 & l2 & ->)%list_elem_of_split. apply distinct_keys_mid in H as (H1 & H2 & _).
    rewrite count_key_app. cbn. rewrite STR_EQ_refl_key, !count_key_none by done. lia.
  - induction l as [|a l IH]; intros H; [by apply NoDup_nil|]. apply distinct_keys_cons. split.
    + specialize (H a ltac:(by left)). cbn in H. rewrite STR_EQ_refl_key in H. destruct (has_key key l (key a)) eqn:E; [|done].
      apply count_key_some in E. lia.
    + apply IH. intros b Hb. specialize (H b ltac:(by right)). cbn in H. lia.
Qed.
(** the loop of a verifier: every entry is examined and counted *)
Lemma verify_keys (ok : A → bool) (all l : list A) (loop : list A → bool) :
  loop [] = true →
  (∀ a l, loop (a :: l) = if negb (ok a) then false else if (1 <? count_key all (key a))%nat then false else loop l) →
  loop l = true ↔ Forall (λ a, ok a = true ∧ (count_key all (key a) ≤ 1)%nat) l.
Proof.
  intros H0 Hs. induction l as [|a l IH]; [by rewrite H0|]. rewrite Hs, Forall_cons. destruct (ok a); cbn [negb].
  - destruct (Nat.ltb_spec 1 (count_key all (key a))); [split; [done|intros [[_ ?] _]; lia]|]. rewrite IH. naive_solver.
  - split; [done|]. by intros [[? _] _].
Qed.

(** *** Reading *)

Context (mk : cstr → A) (key_mk : ∀ s, key (mk s) = s).
(** what is read is appended unless it is there already, and the first line
    that is not good stops the reader *)
Fixpoint read_keys (good : cstr → bool) (ls : list cstr) l : bool * list A :=
  match ls with
  | [] => (true, l)
  | line :: ls =>
      if negb (is_entry line) then read_keys good ls l
      else if negb (good line) || has_key key l line then (false, l)
      else read_keys good ls (l ++ [mk line])
  end.
Lemma read_keys_correct good : ∀ ls l, distinct_keys key l → Forall (λ a, is_entry (key a) = true ∧ good (key a) = true) l →
  let '(ok, l') := read_keys good ls l in
  distinct_keys key l' ∧ Forall (λ a, is_entry (key a) = true ∧ good (key a) = true) l' ∧
  if ok then key <$> l' = (key <$> l) ++ entries ls
  else ¬ (Forall (λ s, good s = true) (entries ls) ∧
          NoDup (folded <$> ((key <$> l) ++ entries ls))).
Proof.
  induction ls as [|line ls IH]; intros l Hl Hg; cbn [read_keys].
  { split_and!; [done..|]. by rewrite app_nil_r. }
  rewrite entries_cons. destruct (is_entry line) eqn:Ee; cbn [negb]; [|by apply IH]. destruct (good line) eqn:Eg; cbn [negb orb].
  2: { split_and!; [done..|]. intros [H _]. inversion H; subst. congruence. }
  destruct (has_key key l line) eqn:Eh.
  { split_and!; [done..|]. intros [_ H]. apply has_key_true in Eh. rewrite fmap_app, fmap_cons, NoDup_app, NoDup_cons in H.
    destruct H as (_ & H & _). apply (H (folded line)); [by rewrite <-list_fmap_compose|by left]. }
  specialize (IH (l ++ [mk line])). destruct (read_keys good ls (l ++ [mk line])) as [ok l'].
  destruct IH as (Hd & Hg' & H); [apply distinct_keys_snoc; by rewrite key_mk|apply Forall_app; split; [done|]; rewrite Forall_singleton; by rewrite key_mk|].
  split_and!; [done..|]. rewrite fmap_app, fmap_cons, fmap_nil, key_mk, <-app_assoc in H. destruct ok; [done|].
  intros [H1 H2]. apply H. split; [by inversion H1|done].
Qed.
(** a list whose entries are in a file reads back as it is *)
Lemma read_keys_same good l : Forall (λ a, is_entry (key a) = true ∧ good (key a) = true) l → distinct_keys key l →
  (∀ a, mk (key a) = a) → read_keys good (key <$> l) [] = (true, l).
Proof.
  intros Hg Hd Hmk. pose proof (read_keys_correct good (key <$> l) [] (NoDup_nil_2) (Forall_nil_2 _)) as H.
  assert (entries (key <$> l) = key <$> l) as Ef.
  { clear -Hg. induction Hg as [|a l [Ha _] _ IH]; [done|]. rewrite fmap_cons, entries_cons, Ha. by rewrite IH. }
  rewrite Ef in H. destruct (read_keys good (key <$> l) []) as [[] l'].
  - destruct H as (_ & _ & H). cbn in H. f_equal. clear -H Hmk. revert l' H.
    induction l as [|a l IH]; intros [|a' l'] H; try done. injection H as H1 H2. f_equal; [by rewrite <-(Hmk a'), H1|by apply IH].
  - destruct H as (_ & _ & H). exfalso. apply H. split.
    + apply Forall_fmap. eapply Forall_impl; [exact Hg|]. by intros a [_ ?].
    + cbn. unfold distinct_keys in Hd. by rewrite <-list_fmap_compose.
Qed.
End Count.

(** ** The operations on the lists *)

Lemma find_dir_security_key l s : is_Some (find_dir_security (Some l) s) ↔ has_key wrapper l s = true.
Proof.
  cbn. induction l as [|a l IH]; cbn; [split; [by intros [? ?]|done]|]. destruct (STR_EQ (wrapper a) s); cbn; [by split; [|eexists]|done].
Qed.
Lemma find_punt_ref_key l s : is_Some (find_punt_ref (Some l) s) ↔ has_key punt l s = true.
Proof.
  cbn. induction l as [|a l IH]; cbn; [split; [by intros [? ?]|done]|]. destruct (STR_EQ (punt a) s); cbn; [by split; [|eexists]|done].
Qed.
Lemma add_dir_security_key l s :
  add_dir_security (Some l) s = if has_key wrapper l s then (false, Some l) else (true, Some (l ++ [DirSecurity s])).
Proof.
  unfold add_dir_security. pose proof (find_dir_security_key l s) as H. destruct (find_dir_security _ _), (has_key wrapper l s); try done.
  - by pose proof (proj1 H ltac:(by eexists)).
  - by destruct (proj2 H eq_refl).
Qed.
Lemma add_punt_ref_key l s :
  add_punt_ref (Some l) s =
  if negb (fine (examin_punt_ref (Some s))) || has_key punt l s then (false, Some l) else (true, Some (l ++ [PuntRef s])).
Proof.
  unfold add_punt_ref. destruct (negb _); [done|]. pose proof (find_punt_ref_key l s) as H. destruct (find_punt_ref _ _), (has_key punt l s); try done.
  - by pose proof (proj1 H ltac:(by eexists)).
  - by destruct (proj2 H eq_refl).
Qed.

(** *** What a punt referral may look like *)

Definition HOST_CHARS : cstr := $"a-zA-Z0-9.-".
(** host:port:protocol *)
Definition puntref_syntax : alts :=
  One (Seq (Plain Bol) (Seq (group 1 (some_of HOST_CHARS)) (Seq (literal ($":")) (Seq (group 2 (any_of ($"0-9")))
    (Seq (literal ($":")) (Last (group 3 (some_of ($"a-zA-Z"))))))))).
(** protocol://host:port/rest *)
Definition punturl_syntax : alts :=
  One (Seq (Plain Bol) (Seq (group 1 (some_of ($"a-zA-Z"))) (Seq (literal ($"://")) (Seq (group 2 (some_of HOST_CHARS))
    (Seq (Mult (Exact ($":")) Opt) (Seq (group 3 (any_of ($"0-9"))) (Seq (Mult (Exact ($"/")) Opt) (Last (group 4 anything))))))))).
Lemma puntref_parsed : parse (aid_grep ADMIN_PUNTREF_REGEXP) = Ret (Some puntref_syntax).
Proof. by vm_compute. Qed.
Lemma punturl_parsed : parse (aid_grep ADMIN_PUNTURL_REGEXP) = Ret (Some punturl_syntax).
Proof. by vm_compute. Qed.

(** no string has both forms: behind the host and the colon of the one stand a
    digit or a colon, behind the protocol and the colon of the other a slash *)
Lemma punt_forms_disjoint s : ¬ (occurs puntref_syntax s ∧ occurs punturl_syntax s).
Proof.
  intros [(i & j & _ & H) (i' & j' & _ & H')]. cbn [puntref_syntax punturl_syntax alts_matches branch_matches] in H, H'.
  destruct H as (? & [-> ->] & h & Hh & c1 & Hc1 & d & Hd & e & He & _). destruct H' as (? & [-> ->] & p & Hp & c2 & Hc2 & _).
  apply some_of_matches in Hh as [Hh1 Hh2], Hp as [Hp1 Hp2]. apply any_of_matches in Hd as [Hd1 Hd2].
  apply literal_matches in Hc1 as [-> Hc1], Hc2 as [-> Hc2], He as [-> He].
  specialize (Hc1 0 _ eq_refl). pose proof (Hc2 0 _ eq_refl) as Hc20. pose proof (Hc2 1 _ eq_refl) as Hc21. rewrite Nat.add_0_r in *.
  assert (h = p) as ->.
  { eapply (runs_end s 0 h p (chr 58)); try done; [lia|lia|..]; by_decision. }
  change (length ($":")) with 1 in *. destruct (decide (p + 1 < d)) as [Hlt|Hge].
  - destruct (Hd2 (p + 1)) as (c & Hc & Hin); [lia|]. rewrite Hc21 in Hc. injection Hc as <-. revert Hin.
    by_decision.
  - specialize (He 0 _ eq_refl). replace (d + 0) with (p + 1) in He by lia. rewrite Hc21 in He. by vm_compute in He.
Qed.
Lemma punt_ref_fine s : NUL ∉ s → s ≠ [] → examin_punt_ref (Some s) = None.
Proof.
  intros HN Hs. destruct s as [|c s]; [done|]. cbn [examin_punt_ref].
  destruct (re_match ADMIN_PUNTREF_REGEXP (c :: s)) eqn:E1; [|done]. destruct (re_match ADMIN_PUNTURL_REGEXP (c :: s)) eqn:E2; [|done].
  exfalso. apply (punt_forms_disjoint (c :: s)). split.
  - refine (proj1 (re_match_parsed _ _ _ _ HN puntref_parsed _) E1); [by_decision|by vm_compute].
  - refine (proj1 (re_match_parsed _ _ _ _ HN punturl_parsed _) E2); [by_decision|by vm_compute].
Qed.

(** An entry that is added is found and the list stays free of duplicates;
    one that is there already, in any case of letters, is refused; deleting
    takes the entry out and nothing else. *)
Theorem dir_security_operations l s : distinct_keys wrapper l → s ≠ [] →
  (let '(ok, l') := add_dir_security (Some l) s in
   ok = negb (has_key wrapper l s) ∧ ∃ m, l' = Some m ∧ distinct_keys wrapper m ∧ has_key wrapper m s = true ∧
     m = if ok then l ++ [DirSecurity s] else l) ∧
  (let '(ok, l') := del_dir_security (Some l) s in
   ok = has_key wrapper l s ∧ ∃ m, l' = Some m ∧ distinct_keys wrapper m ∧ has_key wrapper m s = false ∧
     ∀ a, a ∈ m ↔ a ∈ l ∧ STR_EQ (wrapper a) s = false).
Proof.
  intros Hl Hs. split.
  - rewrite add_dir_security_key. destruct (has_key wrapper l s) eqn:E; (split; [done|]); eexists; (split_and!; [done|..]); try done.
    + by apply distinct_keys_snoc.
    + unfold has_key. rewrite existsb_app. cbn. rewrite (proj2 (STR_EQ_iff s s)) by done. by rewrite orb_true_r.
  - assert (∀ a m, has_key wrapper m s = false → a ∈ m → STR_EQ (wrapper a) s = false) as Hk.
    { intros a m H Hin. destruct (STR_EQ (wrapper a) s) eqn:E; [|done]. rewrite <-not_true_iff_false in H. exfalso. apply H.
      apply existsb_exists. exists a. split; [by apply list_elem_of_In|done]. }
    unfold del_dir_security. destruct s as [|c s]; [done|]. pose proof (find_dir_security_key l (c :: s)) as H.
    destruct (has_key wrapper l (c :: s)) eqn:E.
    + destruct (proj2 H eq_refl) as [? ->]. split; [done|]. eexists. split; [done|].
      apply has_key_split in E as (l1 & a & l2 & -> & H1 & Ha). rewrite del_key_mid by done.
      apply distinct_keys_mid in Hl as (D1 & D2 & D3). assert (has_key wrapper (l1 ++ l2) (c :: s) = false) as Hn.
      { unfold has_key in *. rewrite existsb_app, H1. cbn [orb]. apply STR_EQ_iff in Ha. rewrite <-D2. clear -Ha.
        induction l2 as [|b l2 IH]; cbn; [done|]. rewrite IH. f_equal. apply bool_decide_ext. by rewrite Ha. }
      split_and!; [done..|]. intros b. rewrite !elem_of_app, elem_of_cons. split.
      * intros Hb. split; [tauto|]. apply (Hk b (l1 ++ l2)); [done|by apply elem_of_app].
      * intros [[?|[->|?]] Hb]; [by left|congruence|by right].
    + destruct (find_dir_security (Some l) (c :: s)) eqn:Ef; [by pose proof (proj1 H ltac:(by eexists))|]. split; [done|]. exists l.
      split_and!; [done..|]. intros a. split; [|by intros [? _]]. intros Ha. split; [done|by apply (Hk a l)].
Qed.
Lemma dir_security_operations_witness :
  let l := [DirSecurity ($"10.0.0.1"); DirSecurity ($"Host")] in
  (add_dir_security (Some l) ($"host")).1 = false ∧ (del_dir_security (Some l) ($"host")).1 = true.
Proof.
  intros l. destruct (dir_security_operations l ($"host")) as [H1 H2]; [by_decision|done|].
  destruct (add_dir_security _ _) as [ok ?], (del_dir_security _ _) as [ok' ?]. cbn. destruct H1 as [-> _], H2 as [-> _]. split; by vm_compute.
Defined.

(** ** The files *)

Lemma read_dir_security_keys ls : ∀ l,
  read_dir_security_lines ls (Some l) =
  let '(ok, l) := read_keys wrapper DirSecurity (λ s, fine (examin_tcp_wrapper (Some s))) ls l in (ok, Some l).
Proof.
  induction ls as [|line ls IH]; intros l; cbn [read_dir_security_lines read_keys]; [done|]. destruct (is_entry line); cbn [negb]; [|apply IH].
  destruct (fine _); cbn [negb orb]; [|done]. rewrite add_dir_security_key. destruct (has_key wrapper l line); [done|apply IH].
Qed.
Lemma read_punt_keys ls : ∀ l,
  read_punt_lines ls (Some l) = let '(ok, l) := read_keys punt PuntRef (λ s, fine (examin_punt_ref (Some s))) ls l in (ok, Some l).
Proof.
  induction ls as [|line ls IH]; intros l; cbn [read_punt_lines read_keys]; [done|]. destruct (is_entry line); cbn [negb]; [|apply IH].
  rewrite add_punt_ref_key. destruct (negb _ || _); [done|apply IH].
Qed.

Lemma verify_dir_security_correct l :
  verify_dir_security_list (Some l) = true ↔ Forall (λ a, wrapper a ≠ []) l ∧ distinct_keys wrapper l.
Proof.
  assert (∀ m s, count_dir_security_loop m s = count_key wrapper m s) as Hc by (intros m s; induction m as [|a m IH]; cbn; [done|by rewrite IH]).
  cbn [verify_dir_security_list]. rewrite (verify_keys wrapper verify_dir_security l l); [|done|].
  2: { intros a m. cbn [verify_dir_security_loop count_dir_security_entries]. by rewrite Hc. }
  rewrite count_key_distinct, <-Forall_forall, <-Forall_and. apply Forall_proper; [|done]. intros a.
  assert (verify_dir_security a = true ↔ wrapper a ≠ []) as -> by (unfold verify_dir_security, fine, examin_tcp_wrapper; by destruct (wrapper a)).
  done.
Qed.
Lemma verify_punt_ref_correct l :
  verify_punt_ref_list (Some l) = true ↔ Forall (λ a, fine (examin_punt_ref (Some (punt a))) = true) l ∧ distinct_keys punt l.
Proof.
  assert (∀ m s, count_punt_ref_loop m s = count_key punt m s) as Hc by (intros m s; induction m as [|a m IH]; cbn; [done|by rewrite IH]).
  assert (verify_punt_ref_list (Some l) = verify_punt_ref_loop l l) as -> by by destruct l.
  rewrite (verify_keys punt verify_punt_ref l l); [|done|].
  2: { intros a m. cbn [verify_punt_ref_loop count_punt_ref_entries]. by rewrite Hc. }
  rewrite count_key_distinct, <-Forall_forall, <-Forall_and. by apply Forall_proper.
Qed.

(** The file of the hosts that may use a directive: reading succeeds
    exactly if no two entries are the same, and then the list holds the
    entries in order; in any case what is read passes the verifier.  The
    verifier accepts exactly the lists of entries that are not empty and
    distinct up to the case. *)
Theorem dir_security_file_correct fs file f wl ls : file ≠ [] → fs file = Some f → lines_in BUFSIZ f = Ret ls →
  ∃ ok l, read_dir_security_file fs (Some file) wl = Ret (ok, Some l) ∧
    verify_dir_security_list (Some l) = true ∧
    (ok = true ↔ NoDup (folded <$> entries ls)) ∧
    (ok = true → wrapper <$> l = entries ls).
Proof.
  intros Hf Hfs Hls. unfold read_dir_security_file, create_dir_security. destruct file; [done|]. rewrite Hfs, Hls. cbn [mbind outcome_bind].
  rewrite read_dir_security_keys. set (good := λ s, fine _).
  pose proof (read_keys_correct wrapper DirSecurity (λ _, eq_refl) good ls [] NoDup_nil_2 (Forall_nil_2 _)) as H.
  destruct (read_keys _ _ good ls []) as [ok l]. destruct H as (Hd & Hg & H). exists ok, l. split; [done|].
  assert (Forall (λ s, good s = true) (entries ls)) as Hgood.
  { apply Forall_forall. intros s [Hs _]%list_elem_of_filter. by destruct s. }
  split_and!.
  - apply verify_dir_security_correct. split; [|done]. eapply Forall_impl; [exact Hg|]. intros x [Ha _] E. by rewrite E in Ha.
  - destruct ok.
    + split; [|done]. intros _. cbn in H. rewrite <-H, <-list_fmap_compose. exact Hd.
    + split; [done|]. intros HD. destruct H. by split.
  - intros ->. exact H.
Qed.
Lemma dir_security_file_correct_witness :
  let f := $"# hosts" ++ [NL] ++ $"10.0.0.1" ++ [NL] ++ $"Host" ++ [NL] ++ $"hOST" ++ [NL] in
  ∃ ls l, lines_in BUFSIZ f = Ret ls ∧ read_dir_security_file (λ _, Some f) (Some ($"deny")) None = Ret (false, Some l) ∧
    verify_dir_security_list (Some l) = true.
Proof.
  intros f. destruct (lines_in_total BUFSIZ f) as [ls Els]; [unfold BUFSIZ; lia|].
  destruct (dir_security_file_correct (λ _, Some f) ($"deny") f None ls) as (ok & l & E & Hv & Hok & _); [done..|].
  exists ls, l. split; [done|]. split; [|done]. rewrite E. do 2 f_equal. destruct ok; [|done]. exfalso.
  vm_compute in Els. injection Els as <-. pose proof (proj1 Hok eq_refl) as H. revert H. by_decision.
Defined.

(** No string has both of the forms that the check asks for together, so
    that it passes every string that is not empty: the verifier of the punt
    referrals only asks for entries that are not empty and distinct. *)
Theorem punt_referrals_unchecked l : Forall (λ a, NUL ∉ punt a) l →
  (∀ s, NUL ∉ s → examin_punt_ref (Some s) = if decide (s = []) then Some ERW_EMTYSTR else None) ∧
  (verify_punt_ref_list (Some l) = true ↔ Forall (λ a, punt a ≠ []) l ∧ distinct_keys punt l).
Proof.
  intros HN. assert (∀ s, NUL ∉ s → examin_punt_ref (Some s) = if decide (s = []) then Some ERW_EMTYSTR else None) as H.
  { intros s Hs. case_decide as E; [by subst|by apply punt_ref_fine]. }
  split; [done|]. rewrite verify_punt_ref_correct.
  assert (Forall (λ a, fine (examin_punt_ref (Some (punt a))) = true) l ↔ Forall (λ a, punt a ≠ []) l) as ->; [|done].
  rewrite !Forall_forall. rewrite Forall_forall in HN. split; intros Hl a Ha; specialize (Hl a Ha); rewrite (H _ (HN a Ha)) in *.
  - intros E. by rewrite decide_True in Hl.
  - by rewrite decide_False.
Qed.
Lemma punt_referrals_unchecked_witness :
  verify_punt_ref_list (Some [PuntRef ($"no referral at all"); PuntRef ($"rwhois://root.rwhois.net:4321/")]) = true.
Proof. apply punt_referrals_unchecked; [by_decision|]. split; by_decision. Defined.

(** The file of the punt referrals that is written reads back as the list
    that was written, whatever the server held before. *)
Theorem punt_file_roundtrip mkdir_ok open_ok suffix file l w w' name txt fs path old :
  write_punt_file mkdir_ok open_ok suffix (Some file) (Some l) w = Ret (true, w') →
  last (w_files w') = Some (name, txt) → fs path = Some txt →
  Forall (λ a, entry (punt a)) l → distinct_keys punt l →
  read_punt_file fs (Some path) old = Ret (true, Some l) ∧ verify_punt_ref_list (Some l) = true.
Proof.
  intros Hw Hlast Hfs Hl Hd.
  assert (txt = text (punt <$> l)) as ->.
  { unfold write_punt_file in Hw. destruct file; [done|]. apply bind_inv_Ret in Hw as (n & _ & Hw).
    apply bind_inv_Ret in Hw as ([ok w1] & _ & Hw). apply Ret_inj in Hw. destruct ok; [|done]. injection Hw as <-.
    cbn [w_files wrote_file] in Hlast. rewrite last_snoc in Hlast. by injection Hlast as _ <-. }
  assert (Forall (λ a, is_entry (punt a) = true ∧ fine (examin_punt_ref (Some (punt a))) = true) l) as Hg.
  { eapply Forall_impl; [exact Hl|]. intros a ((Hne & Hc & _) & He & _). split; [done|].
    rewrite punt_ref_fine; [done| |done]. by apply cntrl_NUL_NL. }
  split.
  - unfold read_punt_file. cbn [mbind option_bind]. rewrite Hfs. cbn [create_punt_ref].
    rewrite lines_in_text.
    + cbn [mbind outcome_bind]. rewrite read_punt_keys.
      assert (clean <$> (punt <$> l) = punt <$> l) as ->.
      { clear -Hl. induction Hl as [|a l ((_ & Hc & H1 & H2) & _) _ IH]; [done|]. rewrite !fmap_cons, IH. f_equal.
        unfold clean. rewrite strip_control_clean by done. unfold trim_s. by rewrite H2. }
      rewrite (read_keys_same punt PuntRef (λ _, eq_refl)); [done..|]. by intros [].
    + apply Forall_fmap. eapply Forall_impl; [exact Hl|]. intros a ((_ & Hc & _) & _ & Hlen). split; [by apply cntrl_NUL_NL|done].
  - apply verify_punt_ref_correct. split; [|done]. eapply Forall_impl; [exact Hg|]. by intros a [_ ?].
Qed.
Lemma punt_file_roundtrip_witness :
  let l := [PuntRef ($"rwhois://root.rwhois.net:4321/auth-area=."); PuntRef ($"root2.rwhois.net:4321:rwhois")] in
  ∃ w' name txt, write_punt_file (λ _ _, true) (λ _ _, true) [] (Some ($"punt")) (Some l) (Writing [] [] []) = Ret (true, w') ∧
    last (w_files w') = Some (name, txt) ∧ read_punt_file (λ _, Some txt) (Some name) None = Ret (true, Some l).
Proof.
  intros l. set (r := write_punt_file _ _ _ _ _ _). assert (∃ w' name txt, r = Ret (true, w') ∧ last (w_files w') = Some (name, txt))
    as (w' & name & txt & E & Hlast) by (vm_compute; by do 3 eexists).
  exists w', name, txt. split; [done|]. split; [done|]. subst r.
  eapply punt_file_roundtrip; [exact E|exact Hlast|done|by_decision|by_decision].
Defined.
