(* ===== verification/RootReferral.v ===== *)
(** * The file of the root referrals (regexp/regsub.c, common/auth_area.c)

    The parts of a match that are taken out of a string, and the check of the
    file that names the root servers, which needs them. *)

From S2P Require Import Prelude CLib CString Misc Stdio ConfigFile Regexp RegexpSyntax RegexpMatch AuthArea.

(** ** The parts of a match *)

Section Parts.
(** the compiled pattern after a match, and the string that its places are in *)
Context (prog : regexp) (str : cstr).

(** a part that has both places *)
Definition part_places (no : nat) : option (nat * nat) :=
  match startp prog !! no, endp prog !! no with Some (Some a), Some (Some b) => Some (a, b) | _, _ => None end.

(** the loop of regsub over the source; [None] is the complaint about a
    damaged string, when the part goes beyond its end *)
Fixpoint regsub_loop (fuel : nat) (src : cstr) : outcome (option cstr) :=
  match fuel, src with
  | O, _ => NoFuel
  | S _, [] => Ret (Some [])
  | S fuel, c :: src =>
      let '(no, src') :=
        if c =c chr 38 then (Some 0%nat, src)
        else if (c =c chr 92) && isdigit (hd NUL src) then (Some (Z.to_nat (code (hd NUL src) - 48)), tl src)
        else (None, src) in
      match no with
      | None =>
          let '(c, src') := if (c =c chr 92) && ((hd NUL src' =c chr 92) || (hd NUL src' =c chr 38)) then (hd NUL src', tl src') else (c, src') in
          rest ← regsub_loop fuel src';
          Ret (option_map (cons c) rest)
      | Some no =>
          match part_places no with
          | None => regsub_loop fuel src'
          | Some (a, b) =>
              if (b <? a)%nat then Fault
              else if (length str <? b)%nat then Ret None
              else
                rest ← regsub_loop fuel src';
                Ret (option_map (app (take (b - a) (drop a str))) rest)
          end
      end
  end.
Definition regsub (source : cstr) : outcome (option cstr) :=
  magic ← rd (program prog) 0;
  if negb (code magic =? MAGIC)%Z then Ret None else regsub_loop (S (length source)) source.

(** misc.c: the part in an array of [len] bytes that holds NULs *)
Definition regncpy (item : nat) (len : nat) : outcome cstr :=
  match part_places item with
  | None => Fault
  | Some (a, b) => if (b <? a)%nat then Fault else Ret (take (min (b - a) len) (drop a str))
  end.
End Parts.

(** ** check_root_referral *)

Definition URL_REGEXP : cstr := $"^([a-zA-Z]+)://([a-zA-Z0-9-.]+):?([0-9]*)/?([^ " ++ [chr 9] ++ $"]*)".
Definition OLD_REF_REGEXP : cstr := $"^([a-zA-Z0-9-.]+):([0-9]+):([a-zA-Z]+)[ " ++ [chr 9] ++ $"]*(.*)".

Section RootReferral.
(** the patterns, compiled or not *)
Context (old_ref_exp url_exp : option regexp).

(** hostname, port and protocol of a line that has one of the forms *)
Definition referral_parts (line : cstr) : outcome (option (cstr * cstr * cstr)) :=
  '(ok, old) ← regexec old_ref_exp (Some line);
  match ok : bool, old with
  | true, Some old =>
      hostname ← regncpy old line 1 BUFSIZ;
      port ← regncpy old line 2 BUFSIZ;
      proto ← regncpy old line 3 BUFSIZ;
      Ret (Some (hostname, port, proto))
  | _, _ =>
      '(ok, url) ← regexec url_exp (Some line);
      match ok : bool, url with
      | true, Some url =>
          proto ← regncpy url line 1 BUFSIZ;
          hostname ← regncpy url line 2 BUFSIZ;
          port ← regncpy url line 3 BUFSIZ;
          Ret (Some (hostname, port, proto))
      | _, _ => Ret None
      end
  end.
Definition check_referral_line (line : cstr) : outcome bool :=
  parts ← referral_parts line;
  match parts with
  | None => Ret false
  | Some (hostname, port, proto) =>
      ok ← is_valid_hostname re_match hostname;
      if negb ok then Ret false
      else if (match port with [] => false | _ => true end) && negb (is_valid_port port) then Ret false
      else Ret (STRN_EQ proto ($"rwhois") 6)
  end.
(** an empty line or a comment *)
Definition no_referral (line : cstr) : bool :=
  match line with
  | [] => true
  | _ => (hd NUL (dropwhile isspace line) =c chr 35) || negb (STR_EXISTS (Some (trim_s line)))
  end.
Fixpoint check_referral_lines (ls : list cstr) : outcome bool :=
  match ls with
  | [] => Ret true
  | line :: ls =>
      if no_referral line then check_referral_lines ls
      else ok ← check_referral_line (trim_s line); if ok : bool then check_referral_lines ls else Ret false
  end.
End RootReferral.
Definition check_root_referral (fs : filesystem) (file : cstr) : outcome bool :=
  match fs file with
  | None => Ret false
  | Some f =>
      old_ref_exp ← regcomp (λ _, true) (Some OLD_REF_REGEXP);
      url_exp ← regcomp (λ _, true) (Some URL_REGEXP);
      ls ← lines_in BUFSIZ f;
      check_referral_lines old_ref_exp url_exp ls
  end.

(** ** Properties *)

(** neither pattern compiles: in the class of both the dash after the digits
    would be a range down to the dot *)
Lemma root_patterns_rejected :
  regcomp (λ _, true) (Some OLD_REF_REGEXP) = Ret None ∧ regcomp (λ _, true) (Some URL_REGEXP) = Ret None.
Proof. split; by vm_compute. Qed.

(** The check of the root referrals fails for every file that names a root
    server, in whatever form, since regcomp rejects both of its patterns; it
    succeeds for the files that hold nothing but comments. *)
Theorem check_root_referral_outcome fs file f ls : fs file = Some f → lines_in BUFSIZ f = Ret ls →
  check_root_referral fs file = Ret (forallb no_referral ls).
Proof.
  intros Hf Hls. unfold check_root_referral. rewrite Hf. destruct root_patterns_rejected as [-> ->]. cbn [mbind outcome_bind].
  rewrite Hls. cbn [mbind outcome_bind]. clear. induction ls as [|line ls IH]; [done|]. cbn [check_referral_lines forallb].
  by destruct (no_referral line).
Qed.
Lemma check_root_referral_outcome_witness :
  let f := $"# roots" ++ [NL] ++ $"rwhois://root.rwhois.net:4321/" ++ [NL] in check_root_referral (λ _, Some f) ($"rwhois.root") = Ret false.
Proof.
  intros f. destruct (lines_in_total BUFSIZ f) as [ls Els]; [unfold BUFSIZ; lia|].
  rewrite (check_root_referral_outcome (λ _, Some f) ($"rwhois.root") f ls eq_refl Els).
  vm_compute in Els. injection Els as <-. by vm_compute.
Defined.

(** regsub copies a source without escapes as it is, and puts the match where
    an ampersand is *)
Lemma regsub_loop_plain prog str src : ∀ fuel, chr 38 ∉ src → chr 92 ∉ src → length src < fuel →
  regsub_loop prog str fuel src = Ret (Some src).
Proof.
  induction src as [|c src IH]; intros [|fuel] H1 H2 Hf; try (cbn in Hf; lia); [done|]. cbn [regsub_loop].
  apply not_elem_of_cons in H1 as [Hc1 H1]. apply not_elem_of_cons in H2 as [Hc2 H2].
  rewrite (proj2 (char_eqb_neq c _)) by congruence. rewrite (proj2 (char_eqb_neq c (chr 92))) by congruence. cbn [andb].
  rewrite IH; [done..|]. cbn in Hf. lia.
Qed.
