(* ===== verification/IndexSort.v ===== *)
(** * Sorting the index files (mkdb/index.c)

    sort_index_files hands every temporary index file to the sort program,
    which orders its lines by fields that colons separate.  The program itself
    is outside of the repository: it is a function on lists of lines whose
    contract, the class [SortProgram], is that of its manual in the C locale.
    The two forms of SORT_COMMAND, chosen when index.c is compiled, name
    different keys. *)

From S2P Require Import Prelude CLib CString Misc DlList IpNetwork Types Stdio FilePath IndexLine.
From S2P Require Import BinSearch Records Index FileInfo.
From stdpp Require Import sorting.
Local Open Scope Z_scope.

(** ** Comparison functions *)

(** A comparison answers with the sign of the order, as strcmp does. *)
Class Comparison {A} (cmp : A → A → Z) : Prop := {
  cmp_opp a b : cmp b a = - cmp a b;
  cmp_trans a b c : cmp a b ≤ 0 → cmp b c ≤ 0 → cmp a c ≤ 0 }.

#[export] Instance strcmp_comparison : Comparison strcmp.
Proof. split; [intros; apply strcmp_opp|apply strcmp_le_trans]. Qed.
Definition num_cmp (a b : Z) : Z := Z.sgn (a - b).
#[export] Instance num_comparison : Comparison num_cmp.
Proof. unfold num_cmp. split; intros; lia. Qed.

(** a later key decides when the earlier one is equal *)
Definition then_by {A} (cmp1 cmp2 : A → A → Z) (a b : A) : Z :=
  if cmp1 a b =? 0 then cmp2 a b else cmp1 a b.
Definition by_key {A B} (f : A → B) (cmp : B → B → Z) (a b : A) : Z := cmp (f a) (f b).

#[export] Instance by_key_comparison {A B} (f : A → B) cmp :
  Comparison cmp → Comparison (by_key f cmp).
Proof. intros [H1 H2]. unfold by_key. split; intros; [apply H1|by eapply H2]. Qed.

#[export] Instance then_by_comparison {A} (cmp1 cmp2 : A → A → Z) :
  Comparison cmp1 → Comparison cmp2 → Comparison (then_by cmp1 cmp2).
Proof.
  intros [O1 T1] [O2 T2]. unfold then_by. split.
  - intros a b. rewrite (O1 a b), (O2 a b).
    destruct (Z.eqb_spec (cmp1 a b) 0), (Z.eqb_spec (- cmp1 a b) 0); lia.
  - intros a b c Hab Hbc.
    assert (cmp1 a b ≤ 0) as Ha by (destruct (Z.eqb_spec (cmp1 a b) 0); lia).
    assert (cmp1 b c ≤ 0) as Hb by (destruct (Z.eqb_spec (cmp1 b c) 0); lia).
    pose proof (T1 _ _ _ Ha Hb). destruct (Z.eqb_spec (cmp1 a c) 0) as [E|]; [|done].
    pose proof (O1 a c). pose proof (O1 a b). pose proof (O1 b c).
    pose proof (T1 b c a Hb ltac:(lia)). pose proof (T1 c a b ltac:(lia) Ha).
    rewrite (proj2 (Z.eqb_eq (cmp1 a b) 0)) in Hab by lia.
    rewrite (proj2 (Z.eqb_eq (cmp1 b c) 0)) in Hbc by lia. by eapply T2.
Qed.

Lemma cmp_total {A} (cmp : A → A → Z) `{!Comparison cmp} a b : cmp a b ≤ 0 ∨ cmp b a ≤ 0.
Proof. pose proof (cmp_opp a b). lia. Qed.

(** ** The order of the sort program *)

Fixpoint skip_field (line : cstr) : cstr :=
  match line with
  | [] => []
  | c :: line => if c =c COLON then line else skip_field line
  end.
(** from field [n], counted from 0, to the end of the line *)
Fixpoint from_field (n : nat) (line : cstr) : cstr :=
  match n with O => line | S n => from_field n (skip_field line) end.
Definition one_field (n : nat) (line : cstr) : cstr :=
  takewhile (λ c, negb (c =c COLON)) (from_field n line).
(** the value of a key with the flag n: blanks, a minus sign, digits *)
Definition sort_number (s : cstr) : Z :=
  match dropwhile isspace s with
  | c :: s' => if c =c chr 45 then - digits_val 0 s' else digits_val 0 (c :: s')
  | [] => 0
  end.

(** [NEW_STYLE_BIN_SORT]: -k 5,5 -k 4,4n; otherwise: +4 +3.  Lines with equal
    keys are ordered by all of their bytes. *)
Inductive sort_style := OLD_STYLE_SORT | NEW_STYLE_BIN_SORT.
Definition SORT_COMMAND (st : sort_style) : cstr → cstr → Z :=
  match st with
  | OLD_STYLE_SORT =>
      then_by (by_key (from_field 4) strcmp) (then_by (by_key (from_field 3) strcmp) strcmp)
  | NEW_STYLE_BIN_SORT =>
      then_by (by_key (one_field 4) strcmp)
        (then_by (by_key (λ l, sort_number (one_field 3 l)) num_cmp) strcmp)
  end.
#[export] Instance SORT_COMMAND_comparison st : Comparison (SORT_COMMAND st).
Proof. destruct st; apply _. Qed.

Definition in_order (st : sort_style) (a b : cstr) : Prop := SORT_COMMAND st a b ≤ 0.
#[export] Instance in_order_dec st a b : Decision (in_order st a b).
Proof. unfold in_order. apply _. Defined.
#[export] Instance in_order_trans st : Transitive (in_order st).
Proof. intros a b c. apply cmp_trans. Qed.
#[export] Instance in_order_total st : Total (in_order st).
Proof. intros a b. apply cmp_total, _. Qed.

(** What is relied on: when the program succeeds, its output holds the lines
    of its input in order. *)
Class SortProgram (st : sort_style) (run_sort : list cstr → option (list cstr)) : Prop := {
  sort_permutes ls ls' : run_sort ls = Some ls' → ls' ≡ₚ ls;
  sort_orders ls ls' : run_sort ls = Some ls' → StronglySorted (in_order st) ls' }.

(** a program that keeps the contract *)
Definition sort_lines (st : sort_style) (ls : list cstr) : option (list cstr) :=
  Some (merge_sort (in_order st) ls).
#[export] Instance sort_lines_program st : SortProgram st (sort_lines st).
Proof.
  split; intros ls ls' [= <-]; [apply merge_sort_Permutation|].
  apply Sorted_StronglySorted; [apply _|]. apply Sorted_merge_sort, _.
Qed.

(** ** sort_index_files *)

(** the lines of a file; a last line without a newline is one as well *)
Fixpoint lines_of (cur f : cstr) : list cstr :=
  match f with
  | [] => match cur with [] => [] | _ => [cur] end
  | c :: f => if c =c NL then cur :: lines_of [] f else lines_of (cur ++ [c]) f
  end.

Definition close_index (f : index_fp_struct) : index_fp_struct :=
  IndexFp (ifp_type f) false (real_filename f) (tmp_filename f) (ifp_prefix f) (ifp_text f).

Section SortFiles.
Context (run_sort : list cstr → option (list cstr)).

(** An open index file exists, and closing it writes out its text.  A file
    that has never been opened is skipped, unless there is one of its name:
    then fclose gets a null pointer. *)
Fixpoint sort_index_files (fs : filesystem) (files : list index_fp_struct) :
    outcome (bool * filesystem * list index_fp_struct) :=
  match files with
  | [] => Ret (true, fs, [])
  | f :: files =>
      if negb (ifp_open f) then
        if file_exists fs (tmp_filename f) then Fault
        else '(status, fs, files) ← sort_index_files fs files; Ret (status, fs, f :: files)
      else
        let fs := upd fs (tmp_filename f) (Some (ifp_text f)) in
        match run_sort (lines_of [] (ifp_text f)) with
        | None => Ret (false, fs, close_index f :: files)
        | Some ls =>
            let fs := upd fs (real_filename f) (Some (text ls)) in
            let fs := default fs (unlink fs (tmp_filename f)) in
            '(status, fs, files) ← sort_index_files fs files;
            Ret (status, fs, close_index f :: files)
        end
  end.
End SortFiles.

Lemma lines_of_line l f cur : NL ∉ l → lines_of cur (l ++ NL :: f) = (cur ++ l) :: lines_of [] f.
Proof.
  revert cur. induction l as [|c l IH]; intros cur Hl; cbn [app lines_of].
  - by rewrite char_eqb_refl, app_nil_r.
  - apply not_elem_of_cons in Hl as [Hc Hl].
    rewrite (proj2 (char_eqb_neq c NL)) by congruence. by rewrite IH, <-app_assoc.
Qed.

Lemma sorted_lines_of_text ls : Forall is_line ls → lines_of [] (text ls) = ls.
Proof.
  induction 1 as [|l ls [Hl _] _ IH]; [done|]. by rewrite text_cons, lines_of_line, IH.
Qed.

(** ** Sorted lines are sorted by value *)

(** the line of an item that has a value *)
Definition item_line (it : index_struct) : cstr :=
  match index_line it with Ret s => s | _ => [] end.
Lemma item_line_value it v :
  value it = Some v →
  item_line it = print_Z (offset it) ++ COLON :: print_Z (data_file_no it) ++ COLON ::
                 print_Z (deleted_flag it) ++ COLON :: print_Z (attribute_id it) ++ COLON :: v.
Proof. intros H. unfold item_line, index_line. by rewrite H. Qed.

Lemma skip_field_app u s : COLON ∉ u → skip_field (u ++ COLON :: s) = s.
Proof.
  induction u as [|c u IH]; intros Hu; cbn [app skip_field]; [by rewrite char_eqb_refl|].
  apply not_elem_of_cons in Hu as [Hc Hu].
  rewrite (proj2 (char_eqb_neq c COLON)) by congruence. by apply IH.
Qed.

Lemma from_field_4 it v : value it = Some v → from_field 4 (item_line it) = v.
Proof.
  intros Hv. rewrite (item_line_value _ _ Hv). cbn [from_field].
  by rewrite !skip_field_app by apply print_Z_no_colon.
Qed.

Lemma one_field_4 it v : value it = Some v → COLON ∉ v → one_field 4 (item_line it) = v.
Proof.
  intros Hv Hc. unfold one_field. rewrite (from_field_4 _ _ Hv).
  rewrite <-(app_nil_r v) at 1. rewrite takewhile_all; [simpl; by rewrite app_nil_r|].
  apply Forall_forall. intros c Hin. apply negb_true_iff, char_eqb_neq. congruence.
Qed.

(** the values that a style of SORT_COMMAND orders as a whole *)
Definition sortable (st : sort_style) (it : index_struct) : Prop :=
  ∃ v, value it = Some v ∧ (st = OLD_STYLE_SORT ∨ COLON ∉ v).

Lemma in_order_values st a b :
  sortable st a → sortable st b → in_order st (item_line a) (item_line b) →
  strcmp (it_value a) (it_value b) ≤ 0.
Proof.
  intros (v & Hv & Cv) (w & Hw & Cw). unfold in_order, it_value. rewrite Hv, Hw. simpl default.
  assert (∀ (k : cstr → cstr) cmp2, k (item_line a) = v → k (item_line b) = w →
    then_by (by_key k strcmp) cmp2 (item_line a) (item_line b) ≤ 0 → strcmp v w ≤ 0) as Hk.
  { intros k cmp2 Ka Kb. unfold then_by, by_key. rewrite Ka, Kb.
    destruct (Z.eqb_spec (strcmp v w) 0); lia. }
  destruct st; cbn [SORT_COMMAND]; apply Hk;
    by (apply from_field_4 || (apply one_field_4; [done|by destruct Cv, Cw])).
Qed.

Lemma sorted_lines_items st its :
  Forall (sortable st) its → StronglySorted (in_order st) (item_line <$> its) → sorted_items its.
Proof.
  intros Hs. induction Hs as [|it its Hit Hits IH]; intros Ho; [constructor|].
  rewrite fmap_cons in Ho. apply StronglySorted_cons in Ho as [Hx Ho]. constructor; [by apply IH|].
  rewrite Forall_fmap in Hx. rewrite Forall_forall in Hx, Hits |- *. intros it' Hin.
  apply (in_order_values st); [done|by apply Hits|by apply Hx].
Qed.

(** ** What sort_index_files leaves behind *)

(** a temporary file that holds the lines of [its], or was never opened *)
Definition holds_items (st : sort_style) (fs : filesystem) (f : index_fp_struct)
    (its : list index_struct) : Prop :=
  if ifp_open f
  then ifp_text f = text (item_line <$> its) ∧ Forall is_line (item_line <$> its) ∧
       Forall (sortable st) its
  else fs (tmp_filename f) = None.

(** an index file with these items, ordered by their values *)
Definition sorted_file (fs : filesystem) (name : cstr) (its : list index_struct) : Prop :=
  ∃ its', its' ≡ₚ its ∧ sorted_items its' ∧ fs name = Some (text (item_line <$> its')).

Lemma run_sort_items st run_sort its ls :
  SortProgram st run_sort → Forall (sortable st) its →
  run_sort (item_line <$> its) = Some ls →
  ∃ its', its' ≡ₚ its ∧ sorted_items its' ∧ ls = item_line <$> its'.
Proof.
  intros Hs Hits Hr. destruct (Permutation_map_inv _ _ (sort_permutes _ _ Hr)) as (its' & -> & Hp).
  exists its'. split; [done|]. split; [|done]. apply (sorted_lines_items st).
  - by rewrite <-Hp.
  - by apply (sort_orders _ _ Hr).
Qed.

Lemma sort_index_files_spec st run_sort fs files itss :
  SortProgram st run_sort → (∀ ls, is_Some (run_sort ls)) →
  NoDup (files ≫= index_names) → Forall2 (holds_items st fs) files itss →
  ∃ fs', sort_index_files run_sort fs files = Ret (true, fs', (λ f, if ifp_open f then close_index f else f) <$> files) ∧
    Forall2 (λ f its, ifp_open f = true → sorted_file fs' (real_filename f) its ∧
                                          fs' (tmp_filename f) = None) files itss ∧
    (∀ n, n ∉ files ≫= index_names → fs' n = fs n).
Proof.
  intros Hsort Hok. revert fs itss. induction files as [|f files IH]; intros fs itss Hnd Hf;
    inversion Hf as [|? its ? itss' Hi Hfs]; subst; [by exists fs|].
  cbn [mbind list_bind] in Hnd |- *. apply NoDup_app in Hnd as (Hn1 & Hn & Hnd).
  assert (real_filename f ≠ tmp_filename f) as Hrt.
  { apply NoDup_cons in Hn1 as [Hn1 _]. intros E. apply Hn1. rewrite E. left. }
  assert (∀ fs', (∀ n, n ∉ index_names f → fs' n = fs n) → Forall2 (holds_items st fs') files itss') as Hkeep.
  { intros fs' Hout. eapply Forall2_impl_in; [exact Hfs|]. intros g its2 Hg. unfold holds_items.
    destruct (ifp_open g); [done|]. intros <-. apply Hout. intros Hin. apply (Hn _ Hin).
    apply list_elem_of_bind. exists g. split; [right; left|done]. }
  cbn [sort_index_files]. unfold holds_items in Hi. destruct (ifp_open f) eqn:Eo; cbn [negb].
  - destruct Hi as (Ht & Hl & Hsb). rewrite Ht, sorted_lines_of_text by done.
    destruct (Hok (item_line <$> its)) as [ls Hls]. rewrite Hls.
    destruct (run_sort_items _ _ _ _ Hsort Hsb Hls) as (its' & Hp & Hso & ->).
    set (fs1 := upd fs (tmp_filename f) _). set (fs2 := upd fs1 (real_filename f) _).
    set (fs3 := default fs2 (unlink fs2 (tmp_filename f))).
    assert (fs3 = upd fs2 (tmp_filename f) None) as E3.
    { subst fs3. unfold unlink, file_exists. rewrite bool_decide_true; [done|].
      subst fs2 fs1. unfold upd. rewrite bool_decide_false, bool_decide_true by congruence. by eexists. }
    assert (fs3 (tmp_filename f) = None) as Et by (rewrite E3; unfold upd; by rewrite bool_decide_true).
    assert (fs3 (real_filename f) = Some (text (item_line <$> its'))) as Er.
    { rewrite E3. unfold fs2, upd. by rewrite bool_decide_false, bool_decide_true by congruence. }
    assert (∀ n, n ∉ index_names f → fs3 n = fs n) as Eo3.
    { intros n Hin. rewrite E3. unfold fs2, fs1, upd. unfold index_names in Hin.
      rewrite !not_elem_of_cons in Hin. by rewrite !bool_decide_false by naive_solver. }
    destruct (IH fs3 itss' Hnd (Hkeep _ Eo3)) as (fs' & -> & Hsf & Hout).
    cbn [mbind outcome_bind]. exists fs'. rewrite fmap_cons, Eo. split; [done|]. split.
    + constructor; [|done]. intros _. unfold sorted_file.
      rewrite (Hout (real_filename f)), (Hout (tmp_filename f)) by (apply Hn; unfold index_names; rewrite !elem_of_cons; auto). split; [|done]. by exists its'.
    + intros n Hin. apply not_elem_of_app in Hin as [Hin1 Hin2]. rewrite Hout by done. by apply Eo3.
  - assert (file_exists fs (tmp_filename f) = false) as ->.
    { unfold file_exists. rewrite Hi. by apply bool_decide_false; intros []. }
    destruct (IH fs itss' Hnd (Hkeep fs ltac:(done))) as (fs' & -> & Hsf & Hout).
    cbn [mbind outcome_bind]. exists fs'. rewrite fmap_cons, Eo. split; [done|]. split.
    + constructor; [|done]. congruence.
    + intros n Hin. apply not_elem_of_app in Hin as [Hin1 Hin2]. by apply Hout.
Qed.
