(* ===== verification/IndexFiles.v ===== *)
(** * Indexing data files (mkdb/index.c, mkdb/fileinfo.c, mkdb/index_file.c)

    index_files enters the data files in the master file list, locked, writes
    and sorts their index lines, and enters the index files; the entry points
    find the class and build the lists of files.  Whether the two changes of
    the master list get their lock are arguments, as are the directory listing
    and the sort program. *)

From S2P Require Import Prelude CLib CString Misc DlList IpNetwork Types Stdio ValidateRec FilePath IndexLine.
From S2P Require Import BinSearch Records Index FileInfo IndexSort.
Local Open Scope Z_scope.

(** ** File structs from the file system *)

(** stat gives the size of a file that exists *)
Definition build_base_file_struct (fs : filesystem) (file_name : cstr) (t : mkdb_file_type) (num_recs : Z) :
    option file_struct :=
  f ← fs file_name; Some (File t file_name 0 (Z.of_nat (length f)) num_recs false None).
Definition build_tmp_base_file_struct (fs : filesystem) (tmp_filename : cstr) (base_template : option cstr)
    (t : mkdb_file_type) (num_recs : Z) : option new_file :=
  f ← fs tmp_filename;
  Some (NewFile (File t [] 0 (Z.of_nat (length f)) num_recs false None) tmp_filename (default [] base_template)).

Fixpoint build_file_list_by_names (fs : filesystem) (path : buf) (t : mkdb_file_type)
    (base_dir : option cstr) (names : list (option cstr)) : outcome (bool * list file_struct) :=
  match names with
  | [] => Ret (false, [])
  | Some ((_ :: _) as name) :: names =>
      full ← path_rel_to_full path MAX_FILE name base_dir;
      let path := default path full in
      '(status, files) ← build_file_list_by_names fs path t base_dir names;
      match build_base_file_struct fs (cstring path) t 0 with
      | None => Ret (status, files)
      | Some df => Ret (true, df :: files)
      end
  | _ :: names => build_file_list_by_names fs path t base_dir names
  end.

(** [dir]: the names that readdir gives, [None] when opendir fails *)
Fixpoint suffix_files (fs : filesystem) (path : buf) (t : mkdb_file_type) (base_dir suffix : cstr)
    (names : list cstr) : outcome (list file_struct) :=
  match names with
  | [] => Ret []
  | name :: names =>
      if bool_decide (strncmp (reverse suffix) (reverse name) (length suffix) = 0) then
        full ← path_rel_to_full path MAX_FILE name (Some base_dir);
        let path := default path full in
        files ← suffix_files fs path t base_dir suffix names;
        match build_base_file_struct fs (cstring path) t 0 with
        | None => Ret files
        | Some fi => Ret (fi :: files)
        end
      else suffix_files fs path t base_dir suffix names
  end.
Definition build_file_list_by_suffix (fs : filesystem) (dir : cstr → option (list cstr)) (path : buf)
    (t : mkdb_file_type) (base_dir suffix : cstr) : outcome (bool * list file_struct) :=
  match base_dir, suffix with
  | [], _ | _, [] => Ret (false, [])
  | _, _ =>
      if decide (Z.of_nat (length suffix) < MAX_FILE) then
        match dir base_dir with
        | None => Ret (false, [])
        | Some names => files ← suffix_files fs path t base_dir suffix names; Ret (true, files)
        end
      else Fault
  end.

(** every file of the list that exists *)
Definition unlink_file_list (fs : filesystem) (file_list : list file_struct) : filesystem :=
  foldl (λ fs f, if file_exists fs (filename f) then default fs (unlink fs (filename f)) else fs) fs file_list.

Definition unlink_index_tmp_files (fs : filesystem) (index_file_list : list index_fp_struct) : filesystem :=
  foldl (λ fs f, default fs (unlink fs (tmp_filename f))) fs index_file_list.

(** ** index_files *)

Definition cursor_of {A} (l : list A) : DL.cursor A :=
  match l with [] => None | x :: r => Some ([], x, r) end.

Section IndexFiles.
Context (regexec : cstr → cstr → bool) (metaphone : cstr → cstr) (ni0 : netinfo)
        (fopen_ok : cstr → bool) (check_record : record_check)
        (run_sort : list cstr → option (list cstr)).
(** get_root_dir(), the uninitialised arrays for paths, the locks *)
Context (root_dir : option cstr) (file_path : buf) (lock_first lock_second : bool).

(** the index files that sorting has made, to be named and listed *)
Definition new_index_files (fs : filesystem) (c : class_struct) (index_num_recs : Z)
    (files : list index_fp_struct) : list new_file :=
  omap (λ f, nf ← build_tmp_base_file_struct fs (real_filename f) None (ifp_type f) index_num_recs;
             Some (NewFile (nf_file nf) (nf_tmp nf)
                     (generate_index_file_basename (ifp_type f) (db_dir c) (Some (ifp_prefix f))))) files.

(** The status, the files of the system and, when it is TRUE, what data_file_list
    is then: the files that gave index lines, with their numbers.  When indexing
    fails only the files that had nothing to index are taken out of the master
    list again: the call appends the wrong list to the other. *)
Definition index_files_run (fs : filesystem) (c : class_struct) (aa : auth_area_struct)
    (index_file_list : list index_fp_struct) (data_file_list : list file_struct)
    (validate_flag : Z) (hold_lock_flag : bool) : outcome (bool * filesystem * list file_struct) :=
  let modify lock fs add del md un := modify_file_list root_dir file_path lock fs c add del md un None in
  if bool_decide (data_file_list = []) || bool_decide (index_file_list = []) then
    '(_, fs, _) ← modify lock_first fs None None None None; Ret (true, fs, data_file_list)
  else
    '(status, fs, added) ← modify lock_first fs (Some ((λ f, NewFile f [] []) <$> data_file_list)) None None None;
    if negb status then Ret (false, fs, added)
    else
      '(status, s) ← index_files_loop regexec metaphone ni0 fopen_ok check_record
                       (S (length added)) fs c aa validate_flag (IfState (cursor_of added) [] 0 index_file_list);
      '(status, fs, files) ←
        (if negb status then Ret (false, fs, if_files s) else sort_index_files run_sort fs (if_files s));
      if negb status then
        let fs := unlink_index_tmp_files fs files in
        '(_, fs, _) ← modify lock_second fs None (Some (delete_list s)) None None;
        Ret (false, fs, z_list (data_files s) ++ delete_list s)
      else
        let add_list := new_index_files fs c (index_num_recs s) files in
        let ds := z_list (data_files s) in
        '(_, fs, _) ← modify lock_second fs (Some add_list) (Some (delete_list s)) (Some ds)
                        (if hold_lock_flag then None else Some ds);
        Ret (true, fs, ds).
Definition index_files (fs : filesystem) (c : class_struct) (aa : auth_area_struct)
    (index_file_list : list index_fp_struct) (data_file_list : list file_struct)
    (validate_flag : Z) (hold_lock_flag : bool) : outcome (bool * filesystem) :=
  '(status, fs, _) ← index_files_run fs c aa index_file_list data_file_list validate_flag hold_lock_flag; Ret (status, fs).

(** ** The entry points *)

Context (mktemp : cstr → cstr) (areas : list auth_area_struct).

Definition index_files_by_name (fs : filesystem) (class_name auth_area_name base_dir : option cstr)
    (file_names : list (option cstr)) (validate_flag : Z) : outcome (bool * filesystem) :=
  match auth_area_name, class_name with
  | Some (_ :: _), Some ((_ :: _) as name) =>
      match find_auth_area_by_name areas auth_area_name with
      | None => Ret (false, fs)
      | Some aa =>
          match find_class_by_name (aa_schema aa) name with
          | None => Ret (false, fs)
          | Some c =>
              '(status, data_file_list) ←
                build_file_list_by_names fs (replicate (Z.to_nat MAX_FILE + 1) NUL) MKDB_DATA_FILE base_dir file_names;
              if negb status then Ret (false, fs)
              else
                let '(status, index_file_list) := build_index_list mktemp c None [] in
                if negb status then Ret (false, fs)
                else index_files fs c aa index_file_list data_file_list validate_flag false
          end
      end
  | _, _ => Ret (false, fs)
  end.

Definition index_files_by_suffix (fs : filesystem) (dir : cstr → option (list cstr))
    (class_name : cstr) (auth_area_name : option cstr) (suffix : cstr) (validate_flag : Z) :
    outcome (bool * filesystem) :=
  match find_auth_area_by_name areas auth_area_name with
  | None => Ret (false, fs)
  | Some aa =>
      match aa_schema aa with
      | None => Ret (false, fs)
      | Some _ =>
          match find_class_by_name (aa_schema aa) class_name with
          | None => Ret (false, fs)
          | Some c =>
              '(status, data_file_list) ←
                build_file_list_by_suffix fs dir (replicate (Z.to_nat MAX_FILE + 1) NUL) MKDB_DATA_FILE (db_dir c) suffix;
              if negb status then Ret (false, fs)
              else
                let '(status, index_file_list) := build_index_list mktemp c None [] in
                if negb status then Ret (false, fs)
                else index_files fs c aa index_file_list data_file_list validate_flag false
          end
      end
  end.
End IndexFiles.

(** ** The entry of a file in the master list *)

Definition find_no (no : Z) (l : list file_struct) : option file_struct :=
  find_first (λ f, file_no f =? no) l.

Lemma find_no_change no k g l :
  (∀ f, file_no (g f) = file_no f) →
  find_no no (change_first (λ f, file_no f =? k) g l) =
  if no =? k then g <$> find_no no l else find_no no l.
Proof.
  intros Hg. unfold find_no. induction l as [|f l IH]; cbn [change_first find_first]; [by destruct (no =? k)|].
  destruct (Z.eqb_spec (file_no f) k) as [E|E]; cbn [find_first]; rewrite ?Hg.
  - destruct (Z.eqb_spec no k) as [->|Hn].
    + by rewrite E, Z.eqb_refl.
    + by rewrite (proj2 (Z.eqb_neq _ _)) by congruence.
  - destruct (Z.eqb_spec (file_no f) no) as [E'|E']; [|by rewrite IH].
    by rewrite (proj2 (Z.eqb_neq no k)) by congruence.
Qed.

Lemma find_no_found no l : with_file_no no l = bool_decide (is_Some (find_no no l)).
Proof.
  unfold find_no, with_file_no. induction l as [|f l IH]; cbn [existsb find_first].
  - symmetry. apply bool_decide_false. by intros [].
  - destruct (file_no f =? no); [|done]. symmetry. apply bool_decide_true. by eexists.
Qed.

Lemma mod_file_list_found ds : ∀ fuel full,
  (length ds < fuel)%nat → Forall (λ d, is_Some (find_no (file_no d) full)) ds →
  ∃ full', mod_file_list fuel ds full = Ret full' ∧
    (NoDup (file_no <$> ds) → ∀ d, d ∈ ds →
       find_no (file_no d) full' = with_stats d <$> find_no (file_no d) full) ∧
    (∀ no, no ∉ file_no <$> ds → find_no no full' = find_no no full) ∧
    (∀ no, is_Some (find_no no full') ↔ is_Some (find_no no full)).
Proof.
  induction ds as [|d ds IH]; intros fuel full Hf Hin; (destruct fuel as [|fuel]; [cbn in Hf; lia|]).
  { exists full. split; [done|]. split; [by intros _ d ?%elem_of_nil|]. by split. }
  apply Forall_cons in Hin as [Hd Hin]. cbn [mod_file_list]. unfold update_file_no.
  rewrite find_no_found, bool_decide_true by done.
  set (full1 := change_first _ _ _).
  assert (∀ no, find_no no full1 = if no =? file_no d then with_stats d <$> find_no no full else find_no no full) as E1.
  { intros no. by apply find_no_change. }
  assert (∀ no, is_Some (find_no no full1) ↔ is_Some (find_no no full)) as S1.
  { intros no. rewrite E1. destruct (no =? file_no d); [|done]. by rewrite fmap_is_Some. }
  destruct (IH fuel full1) as (full' & -> & H1 & H2 & H3); [cbn in Hf; lia| |].
  { eapply Forall_impl; [exact Hin|]. intros x Hx. by apply S1. }
  exists full'. split; [done|]. split; [|split].
  - rewrite fmap_cons, NoDup_cons. intros [Hnd Hnds] x [->|Hx]%elem_of_cons.
    + by rewrite H2, E1, Z.eqb_refl.
    + rewrite H1, E1 by done. rewrite (proj2 (Z.eqb_neq _ _)); [done|].
      intros E. apply Hnd. rewrite <-E. by apply list_elem_of_fmap_2.
  - intros no. rewrite fmap_cons, not_elem_of_cons. intros [Hn1 Hn2].
    rewrite H2, E1 by done. by rewrite (proj2 (Z.eqb_neq _ _)).
  - intros no. by rewrite H3, S1.
Qed.

Lemma unlock_found ds lock : ∀ full no,
  find_no no (lock_unlock_file_list ds full lock) =
  if bool_decide (no ∈ file_no <$> ds) then with_lock lock <$> find_no no full else find_no no full.
Proof.
  unfold lock_unlock_file_list. induction ds as [|d ds IH]; intros full no; cbn [foldl fmap list_fmap].
  - by rewrite bool_decide_false by apply not_elem_of_nil.
  - rewrite IH. unfold lock_unlock_file_no. cbn [fst]. rewrite find_no_change by done.
    destruct (Z.eqb_spec no (file_no d)) as [->|Hn].
    + rewrite (bool_decide_true (_ ∈ _ :: _)) by left. case_bool_decide; [|done].
      by destruct (find_no _ full).
    + rewrite (bool_decide_ext (no ∈ file_no d :: _) (no ∈ file_no <$> ds)); [done|].
      rewrite elem_of_cons. naive_solver.
Qed.

Lemma unlink_tmp_other fs files n :
  Forall (λ f, tmp_filename f ≠ n) files → unlink_index_tmp_files fs files n = fs n.
Proof.
  unfold unlink_index_tmp_files. intros H. revert fs. induction H as [|f files Hf _ IH]; intros fs; [done|].
  cbn [foldl]. rewrite IH. unfold unlink. destruct (file_exists fs (tmp_filename f)); [|reflexivity]. simpl default.
  by apply upd_other.
Qed.

Lemma unlinked fs l n : unlink_file_list fs l n = if bool_decide (n ∈ filename <$> l) then None else fs n.
Proof.
  unfold unlink_file_list. revert fs. induction l as [|f l IH]; intros fs; cbn [foldl]; [done|]. rewrite IH, fmap_cons.
  assert ((if file_exists fs (filename f) then default fs (unlink fs (filename f)) else fs) n = if bool_decide (n = filename f) then None else fs n) as ->.
  { unfold unlink. destruct (file_exists fs (filename f)) eqn:Ef; cbn [default from_option]; [done|].
    destruct (bool_decide_reflect (n = filename f)) as [->|]; [|done]. apply bool_decide_eq_false in Ef. by apply eq_None_not_Some. }
  destruct (bool_decide_reflect (n ∈ filename <$> l)) as [Hin|Hin].
  - rewrite bool_decide_true by by right. done.
  - destruct (bool_decide_reflect (n = filename f)) as [->|Hn]; [rewrite bool_decide_true by left; done|].
    rewrite bool_decide_false; [done|]. intros [|]%elem_of_cons; done.
Qed.
Lemma get_file_list_ext fs fs' c :
  dir_ok c → (∀ t, fs' (db_dir c ++ SLASH :: master_name t) = fs (db_dir c ++ SLASH :: master_name t)) →
  get_file_list fs' c [] = get_file_list fs c [].
Proof.
  intros Hd He. unfold get_file_list, is_area_indexed, file_exists. rewrite !master_index_file by done.
  cbn [mbind outcome_bind]. rewrite !He. unfold read_file_list. by rewrite He.
Qed.

Lemma index_each_length regexec metaphone ni0 fopen_ok check_record fs c aa flag ds : ∀ files ns ds' files',
  index_each regexec metaphone ni0 fopen_ok check_record fs c aa flag ds files = Ret (ns, ds', files') →
  length ds' = length ds.
Proof.
  induction ds as [|d ds IH]; intros files ns ds' files'; cbn [index_each]; [by intros [= _ <- _]|].
  intros H. apply bind_inv_Ret in H as ([[[n st] d'] f1] & _ & H). destruct st; [|done].
  apply bind_inv_Ret in H as ([[ns2 ds2] f2] & H2 & [= _ <- _]). cbn. by rewrite (IH _ _ _ _ H2).
Qed.

Section IndexFilesSpec.
Context (regexec : cstr → cstr → bool) (metaphone : cstr → cstr) (ni0 : netinfo)
        (fopen_ok : cstr → bool) (check_record : record_check)
        (run_sort : list cstr → option (list cstr)) (root_dir : option cstr) (file_path : buf).
Context (c : class_struct) (aa : auth_area_struct) (validate_flag : Z).
Context (data_file_list : list file_struct) (index_file_list : list index_fp_struct).
Context (Hdir : dir_ok c) (Hdata : data_file_list ≠ []) (Hindex : index_file_list ≠ []).

Abbreviation index_files := (index_files regexec metaphone ni0 fopen_ok check_record run_sort root_dir file_path true true).
Abbreviation index_each := (Index.index_each regexec metaphone ni0 fopen_ok check_record).
(** the data files enter the master list, locked, and get their numbers *)
Abbreviation enter fs := (modify_file_list root_dir file_path true fs c
  (Some ((λ f, NewFile f [] []) <$> data_file_list)) None None None None).

(** Index_files indexes, sorts and lists.  When the data files entered the
    master list, each gave index lines, and sorting made the index files, it
    returns TRUE, and the master file list that is read afterwards has every
    one of the data files under its number, no longer locked, with the size
    and the record count that indexing found. *)
Theorem index_files_lists fs fs1 fs2 fs3 d ds ns ds' files' files2 full full1 st added :
  enter fs = Ret (true, fs1, d :: ds) →
  index_each fs1 c aa validate_flag (d :: ds) index_file_list = Ret (ns, ds', files') →
  Forall (λ k, k ≠ 0) ns →
  sort_index_files run_sort fs1 files' = Ret (true, fs2, files2) →
  get_file_list fs2 c [] = Ret (true, full) →
  add_file_list root_dir file_path fs2 (new_index_files fs2 c (sum_Z ns) files2) full
    false = Ret (st, fs3, added, full1) →
  NoDup (file_no <$> ds') → Forall (λ d, is_Some (find_no (file_no d) full1)) ds' →
  ∃ full2, mod_file_list (S (length ds')) ds' full1 = Ret full2 ∧
  let result := lock_unlock_file_list ds' full2 false in
  (Forall file_ok result →
   ∃ fs', index_files fs c aa index_file_list data_file_list validate_flag false = Ret (true, fs') ∧
          get_file_list fs' c [] = Ret (true, result)) ∧
  ∀ d, d ∈ ds' → ∃ f, find_no (file_no d) result = Some f ∧ file_size f = file_size d ∧
                      num_recs f = num_recs d ∧ file_lock f = false.
Proof.
  intros He Hix Hns Hsort Hget Hadd Hnd Hin.
  destruct (mod_file_list_found ds' (S (length ds')) full1) as (full2 & Hm & M1 & _ & _); [lia|done|].
  exists full2. split; [done|]. intros result. split.
  - intros Hok. unfold IndexFiles.index_files, index_files_run.
    rewrite !bool_decide_false by done. cbn [orb]. rewrite He. cbn [mbind outcome_bind negb length].
    destruct (index_files_loop_each regexec metaphone ni0 fopen_ok check_record fs1 c aa validate_flag
      ds (S (length ds)) [] d [] 0 index_file_list ns ds' files') as (z & Hz & Hl); [lia|done|done|].
    cbn [cursor_of]. rewrite Hz. cbn [mbind outcome_bind negb if_files]. rewrite Hsort.
    cbn [mbind outcome_bind negb delete_list data_files index_num_recs]. rewrite Hl. cbn [app].
    rewrite Z.add_0_l.
    destruct (modify_installs root_dir file_path fs2 c (Some (new_index_files fs2 c (sum_Z ns) files2)) (Some [])
      (Some ds') (Some ds') None full fs3 added full1 full2 st) as (fs' & -> & Hg & _); [done|done| |done|done|].
    { cbn [default]. rewrite <- Hadd. f_equal. apply index_each_length in Hix. by destruct ds'. }
    exists fs'. split; [done|]. done.
  - intros x Hx. unfold result. rewrite unlock_found, bool_decide_true by (by apply list_elem_of_fmap_2).
    rewrite M1 by done. rewrite Forall_forall in Hin. destruct (Hin x Hx) as [f ->].
    eexists. by split_and!.
Qed.

(** Indexing that fails is not backed out.  When index_data_file refuses the
    first data file, index_files returns FALSE, but the data files it had
    entered stay in the master file list: the list that is read afterwards is
    the one with them, still locked. *)
Theorem index_files_keeps_failed fs fs1 d ds n d' files' full :
  enter fs = Ret (true, fs1, d :: ds) → get_file_list fs1 c [] = Ret (true, full) → Forall file_ok full →
  index_data_file regexec metaphone ni0 fopen_ok check_record fs1 c aa d index_file_list validate_flag
    = Ret (n, false, d', files') →
  Forall (λ f, ∀ t, tmp_filename f ≠ db_dir c ++ SLASH :: master_name t) files' →
  ∃ fs', index_files fs c aa index_file_list data_file_list validate_flag false = Ret (false, fs') ∧
         get_file_list fs' c [] = Ret (true, full).
Proof.
  intros He Hg Hok Hi Ht. unfold IndexFiles.index_files, index_files_run.
  rewrite !bool_decide_false by done. cbn [orb]. rewrite He. cbn [mbind outcome_bind negb length].
  cbn [Index.index_files_loop cursor_of data_files if_files]. rewrite Hi.
  cbn [mbind outcome_bind negb if_files delete_list].
  destruct (modify_installs root_dir file_path (unlink_index_tmp_files fs1 files') c None (Some []) None None None
    full (unlink_index_tmp_files fs1 files') [] full full true) as (fs' & -> & Hg' & _); [done| |done|done|done|].
  - rewrite <- Hg. apply get_file_list_ext; [done|]. intros t. apply unlink_tmp_other.
    eapply Forall_impl; [exact Ht|]. auto.
  - by exists fs'.
Qed.
End IndexFilesSpec.

(** ** A run on a small disk *)

Definition fresh_disk : filesystem := λ n,
  if decide (n = $"db/d.txt")
  then Some (text [$"Auth-Area:a.com"; $"Class-Name:host"; $"Host-Name:www"]) else None.
Definition fresh_data : file_struct := File MKDB_DATA_FILE ($"db/d.txt") 0 48 0 false None.
Definition fresh_index : list index_fp_struct := (build_index_list (λ s, s) demo_hosts None []).2.
Definition path_array : buf := replicate (Z.to_nat MAX_FILE + 1) NUL.
(** the files of a result, and the rest of it *)
Definition middle {A B C} (d : B) (r : outcome (A * B * C)) : B :=
  match r with Ret (_, b, _) => b | _ => d end.
Lemma ret_middle {A B C} d (r : outcome (A * B * C)) a c :
  match r with Ret (a', _, c') => (a', c') = (a, c) | _ => False end → r = Ret (a, middle d r, c).
Proof. destruct r as [[[a' b] c']| |]; [|done..]. by intros [= -> ->]. Qed.

Definition entered : filesystem :=
  middle (λ _, None)
    (modify_file_list (Some []) path_array true fresh_disk demo_hosts (Some [NewFile fresh_data [] []]) None None None None).
Definition written : list index_fp_struct :=
  match index_each (λ _ _, true) (λ w, w) demo_ni (λ _, true) no_check entered demo_hosts demo_aa 0
          [with_lock true fresh_data] fresh_index with
  | Ret (_, _, files) => files | _ => []
  end.
Definition sorted : filesystem := middle (λ _, None) (sort_index_files (sort_lines OLD_STYLE_SORT) entered written).
Definition indexed_data : file_struct := File MKDB_DATA_FILE ($"db/d.txt") 0 48 1 true None.
Definition listed : list file_struct :=
  [with_lock false indexed_data; File MKDB_EXACT_INDEX_FILE ($"db/index-exact-0.ndx") 1 39 3 false None].
Lemma listed_ok : Forall file_ok listed.
Proof.
  files_ok.
Qed.

Definition entries : list file_struct :=
  [with_lock true fresh_data; File MKDB_EXACT_INDEX_FILE ($"db/index-exact-0.ndx") 1 39 3 false None].

Lemma index_files_lists_witness :
  ∃ fs', index_files (λ _ _, true) (λ w, w) demo_ni (λ _, true) no_check (sort_lines OLD_STYLE_SORT)
           (Some []) path_array true true fresh_disk demo_hosts demo_aa fresh_index [fresh_data] 0 false
         = Ret (true, fs') ∧ get_file_list fs' demo_hosts [] = Ret (true, listed).
Proof.
  set (add := add_file_list (Some []) path_array sorted (new_index_files sorted demo_hosts 3 (close_index <$> written))
                [with_lock true fresh_data] false).
  destruct add as [[[[st fs3] added] full1]| |] eqn:Eadd; [|vm_compute in Eadd; discriminate Eadd..].
  assert (full1 = entries) as ->.
  { assert (match add with Ret (_, _, _, f) => f | _ => [] end = full1) as <- by by rewrite Eadd.
    vm_compute. reflexivity. }
  destruct (index_files_lists (λ _ _, true) (λ w, w) demo_ni (λ _, true) no_check (sort_lines OLD_STYLE_SORT)
    (Some []) path_array demo_hosts demo_aa 0 [fresh_data] fresh_index ltac:(vm_compute; congruence) ltac:(done)
    ltac:(vm_compute; congruence) fresh_disk entered sorted fs3 (with_lock true fresh_data) [] [3] [indexed_data]
    written (close_index <$> written) [with_lock true fresh_data] entries st added) as (full2 & Hm & Hres & _).
  - apply ret_middle. vm_compute. reflexivity.
  - vm_compute. reflexivity.
  - repeat constructor. done.
  - apply ret_middle. vm_compute. reflexivity.
  - vm_compute. reflexivity.
  - exact Eadd.
  - repeat constructor. by intros ?%elem_of_nil.
  - repeat constructor. by eexists.
  - vm_compute in Hm. injection Hm as <-. apply Hres. apply listed_ok.
Defined.

(** the same call when the data file cannot be opened *)
Definition empty_entered : filesystem :=
  middle (λ _, None)
    (modify_file_list (Some []) path_array true (λ _, None) demo_hosts (Some [NewFile fresh_data [] []]) None None None None).

Lemma index_files_keeps_failed_witness :
  ∃ fs', index_files (λ _ _, true) (λ w, w) demo_ni (λ _, true) no_check (sort_lines OLD_STYLE_SORT)
           (Some []) path_array true true (λ _, None) demo_hosts demo_aa fresh_index [fresh_data] 0 false
         = Ret (false, fs') ∧ get_file_list fs' demo_hosts [] = Ret (true, [with_lock true fresh_data]).
Proof.
  apply (index_files_keeps_failed (λ _ _, true) (λ w, w) demo_ni (λ _, true) no_check (sort_lines OLD_STYLE_SORT)
    (Some []) path_array demo_hosts demo_aa 0 [fresh_data] fresh_index ltac:(vm_compute; congruence) ltac:(done)
    ltac:(vm_compute; congruence) (λ _, None) empty_entered (with_lock true fresh_data) [] 0
    (with_lock true fresh_data) fresh_index).
  - apply ret_middle. vm_compute. reflexivity.
  - vm_compute. reflexivity.
  - files_ok.
  - vm_compute. reflexivity.
  - repeat constructor. intros []; vm_compute; congruence.
Defined.
