(* ===== verification/DataFile.v ===== *)
(** * Data files as sequences of records

    What a data file looks like that holds records, some of them deleted: the
    lines of each record, a separator behind it, and an underscore in place of
    the first byte of every line of a deleted one.  The readers of
    anon_record.c and records.c give exactly the records that are not deleted. *)

From S2P Require Import Prelude CLib CString Misc DlList IpNetwork Types Stdio Records.
Local Open Scope Z_scope.

Definition separator : cstr := $"---" ++ [NL].
Definition UNDERSCORE : ascii := chr 95.
Definition mark_line (l : cstr) : cstr := UNDERSCORE :: tail l.
(** the text of a deleted record *)
Definition dead_text (avs : list av_pair_struct) : cstr := text (mark_line ∘ av_line <$> avs).

Record stored := Stored { st_pairs : list av_pair_struct; st_live : bool }.
Definition stored_text (e : stored) : cstr :=
  (if st_live e then record_text (st_pairs e) else dead_text (st_pairs e)) ++ separator.
Definition data_text (es : list stored) : cstr := es ≫= stored_text.

(** a record as the writer makes it, whose attribute names are not empty and
    do not begin with a dash *)
Definition named_pair (av : av_pair_struct) : Prop :=
  ∃ x name, attr_name (av_attr av) = x :: name ∧ x ≠ chr 45.
Definition good_entry (c : class_struct) (e : stored) : Prop :=
  full_record c (st_pairs e) ∧ Forall named_pair (st_pairs e).

Lemma data_text_cons e es : data_text (e :: es) = stored_text e ++ data_text es.
Proof. done. Qed.
Lemma data_text_app es es' : data_text (es ++ es') = data_text es ++ data_text es'.
Proof. apply bind_app. Qed.

(** the records, the first one at [pos], and whether they are there *)
Fixpoint placed (c : class_struct) (aa : auth_area_struct) (no : Z) (pos : nat) (es : list stored) :
    list (record_struct * bool) :=
  match es with
  | [] => []
  | e :: es =>
      (Record_ c aa no 0 (Z.of_nat pos) (st_pairs e), st_live e)
        :: placed c aa no (pos + length (stored_text e)) es
  end.
Definition live_records (l : list (record_struct * bool)) : list record_struct :=
  (filter (λ x, x.2 = true) l).*1.

Lemma live_placed_cons c aa no pre e es :
  live_records (placed c aa no (length pre) (e :: es))
  = (if st_live e then [Record_ c aa no 0 (Z.of_nat (length pre)) (st_pairs e)] else [])
    ++ live_records (placed c aa no (length (pre ++ stored_text e)) es).
Proof.
  unfold live_records. cbn [placed]. rewrite filter_cons, length_app. cbn [snd].
  by destruct (st_live e).
Qed.

(** ** Deleted lines *)

Lemma elem_of_trim x l : isspace x = false → x ∈ l → x ∈ rtrim_s l.
Proof.
  intros Hx Hin. unfold rtrim_s. destruct (rdropwhile_split isspace l) as (t & E & Ht).
  rewrite E in Hin. apply elem_of_app in Hin as [|Hin]; [done|].
  rewrite Forall_forall in Ht. rewrite (Ht x Hin) in Hx. done.
Qed.

Lemma marked_line_read t :
  chr 58 ∈ t →
  ∃ u, new_record (Some (clean (UNDERSCORE :: t))) = (false, Some (UNDERSCORE :: u)).
Proof.
  intros Ht. assert (∃ u, clean (UNDERSCORE :: t) = UNDERSCORE :: u ∧ chr 58 ∈ u) as (u & -> & Hu).
  { unfold clean, trim_s. set (s := strip_control_s (UNDERSCORE :: t)).
    assert (s = UNDERSCORE :: strip_control_s t) as -> by done.
    assert (chr 58 ∈ strip_control_s t) as Hs by (apply list_elem_of_filter; done).
    unfold rtrim_s. destruct (rdropwhile_split isspace (UNDERSCORE :: strip_control_s t)) as (w & E & Hw).
    destruct (rdropwhile isspace (UNDERSCORE :: strip_control_s t)) as [|x v] eqn:Ev.
    { cbn in E. rewrite <-E in Hw. apply Forall_cons in Hw as [Hw _]. done. }
    injection E as <- E. exists v. split; [done|].
    rewrite E in Hs. apply elem_of_app in Hs as [|Hs]; [done|].
    rewrite Forall_forall in Hw. by specialize (Hw _ Hs). }
  unfold new_record.
  assert (stripchar_s NL (UNDERSCORE :: u) = UNDERSCORE :: stripchar_s NL u) as -> by done.
  exists (stripchar_s NL u). f_equal. apply orb_false_iff. split; [done|].
  apply not_true_iff_false. intros E%STR_EQ_iff.
  assert (chr 58 ∈ tolower <$> (UNDERSCORE :: stripchar_s NL u)) as Hin.
  { apply list_elem_of_fmap. exists (chr 58). split; [done|]. right. by apply list_elem_of_filter. }
  rewrite E in Hin. revert Hin. apply (bool_decide_unpack _). vm_compute. exact I.
Qed.

Lemma named_line av : named_pair av → ∃ x t, av_line av = x :: t ∧ x ≠ chr 45 ∧ chr 58 ∈ t.
Proof.
  intros (x & name & E & Hx). exists x, (name ++ chr 58 :: default [] (av_value av)).
  unfold av_line. rewrite E. split; [done|]. split; [done|]. apply elem_of_app. right. left.
Qed.

Lemma mark_line_length av : named_pair av → length (mark_line (av_line av)) = length (av_line av).
Proof. intros (x & t & E & _ & _)%named_line. unfold mark_line. by rewrite E. Qed.

Lemma mark_line_is_line l : is_line l → is_line (mark_line l).
Proof.
  intros [H1 H2]. unfold mark_line. split; apply not_elem_of_cons; (split; [done|]).
  all: destruct l as [|x l]; [apply not_elem_of_nil|]; cbn [tail];
    by (apply not_elem_of_cons in H1 as [_ H1] || idtac); apply not_elem_of_cons in H2 as [_ H2].
Qed.

Lemma dead_text_length avs :
  Forall named_pair avs → length (dead_text avs) = length (record_text avs).
Proof.
  unfold dead_text, record_text. induction 1 as [|av avs Hav _ IH]; [done|].
  rewrite !fmap_cons, !text_cons, !length_app. cbn [compose length].
  rewrite (mark_line_length av) by done. by rewrite IH.
Qed.

Lemma stored_text_length e :
  Forall named_pair (st_pairs e) →
  length (stored_text e) = (length (record_text (st_pairs e)) + 4)%nat.
Proof.
  intros H. unfold stored_text. rewrite length_app. change (length separator) with 4%nat.
  by destruct (st_live e); rewrite ?dead_text_length.
Qed.

(** ** Reading the records *)

Lemma read_dead_loop c avs : ∀ fuel pre rest acc,
  Forall (plain_pair c) avs → Forall named_pair avs → (length avs < fuel)%nat →
  read_anon_loop fuel (pre ++ dead_text avs ++ rest) (length pre) acc =
  read_anon_loop (fuel - length avs) (pre ++ dead_text avs ++ rest)
                 (length (pre ++ dead_text avs)) acc.
Proof.
  induction avs as [|av avs IH]; intros fuel pre rest acc Hav Hn Hf.
  { cbn. by rewrite app_nil_r, Nat.sub_0_r. }
  apply Forall_cons in Hav as [Hav Havs], Hn as [Hn Hns].
  destruct fuel as [|fuel]; [simpl in Hf; lia|].
  pose proof Hav as (_ & _ & _ & _ & _ & (Hline & _ & Hlen & _)).
  destruct (named_line av Hn) as (x & t & E & _ & Ht).
  cbn [read_anon_loop]. unfold dead_text. rewrite fmap_cons, text_cons. cbn [compose].
  set (l := mark_line (av_line av)).
  assert (is_line l) as Hl by by apply mark_line_is_line.
  assert (length l = length (av_line av)) as El by by apply mark_line_length.
  rewrite <-!app_assoc. cbn [app]. rewrite readline_at by (done || (rewrite El; lia)).
  destruct (marked_line_read t Ht) as (u & Eu).
  assert (l = UNDERSCORE :: t) as El2 by (unfold l, mark_line; by rewrite E).
  rewrite El2, Eu. simpl default.
  change (first_char_is (chr 95) (UNDERSCORE :: u)) with true. cbv iota. rewrite <-El2.
  assert (length pre + length l + 1 = length (pre ++ l ++ [NL]))%nat as ->
    by (rewrite !length_app; simpl; lia).
  assert (pre ++ l ++ NL :: text (mark_line ∘ av_line <$> avs) ++ rest
          = (pre ++ l ++ [NL]) ++ dead_text avs ++ rest) as E2
    by (unfold dead_text; by rewrite <-!app_assoc).
  rewrite E2, IH by (done || (simpl in Hf; lia)). f_equal.
  unfold dead_text. rewrite !length_app. simpl. lia.
Qed.

Lemma read_dead_text check c aa no flag pre avs post :
  full_record c avs → Forall named_pair avs →
  mkdb_read_record check c aa no flag (pre ++ dead_text avs ++ separator ++ post) (length pre)
  = Ret (None, REC_NULL, (length pre + length (record_text avs) + 4)%nat).
Proof.
  intros (_ & Hav & _ & _) Hn. unfold mkdb_read_record, mkdb_read_anon_record.
  set (f := pre ++ dead_text avs ++ separator ++ post).
  assert (length avs ≤ length (dead_text avs))%nat as Hlen.
  { unfold dead_text. rewrite <-(length_fmap (mark_line ∘ av_line) avs) at 1. apply text_length. }
  assert (length avs + 4 ≤ length f)%nat as Hf.
  { subst f. rewrite !length_app. change (length separator) with 4%nat. lia. }
  unfold f at 2. rewrite (read_dead_loop c) by (done || lia).
  destruct (S (length f) - length avs)%nat as [|fuel] eqn:Efuel; [lia|].
  cbn [read_anon_loop]. unfold separator. rewrite (app_assoc pre), <-(app_assoc ($"---")).
  cbn [app]. rewrite readline_at;
    [|split; apply (bool_decide_unpack _); vm_compute; exact I|vm_compute; lia].
  change (new_record (Some (clean ($"---")))) with (true, Some ($"---")). cbn [mbind outcome_bind].
  rewrite length_app, dead_text_length by done. f_equal. f_equal. simpl. lia.
Qed.

(** what the reader gives for an entry *)
Lemma read_entry check c aa no flag pre e post :
  good_entry c e →
  let rec := Record_ c aa no 0 (Z.of_nat (length pre)) (st_pairs e) in
  (st_live e = true → flag = 0 ∨ check rec flag = (true, rec)) →
  mkdb_read_record check c aa no flag (pre ++ stored_text e ++ post) (length pre)
  = Ret (if st_live e then Some rec else None, if st_live e then REC_OK else REC_NULL,
         length (pre ++ stored_text e)).
Proof.
  intros [Hf Hn] rec Hc. rewrite length_app, stored_text_length by done.
  unfold stored_text. destruct (st_live e); rewrite <-app_assoc.
  - unfold separator. rewrite <-app_assoc. cbn [app].
    rewrite (read_record_text check c aa no flag pre _ post Hf (Hc eq_refl)). f_equal. f_equal. lia.
  - rewrite (read_dead_text check c aa no flag pre _ post Hf Hn). f_equal. f_equal. lia.
Qed.

(** every record of the text reads back from its offset, unless it is deleted *)
Lemma read_placed check c aa no es : ∀ pre post rec (live : bool),
  Forall (good_entry c) es → (rec, live) ∈ placed c aa no (length pre) es →
  rec_class rec = c ∧ rec_auth_area rec = aa ∧ rec_data_file_no rec = no ∧
  Z.of_nat (length pre) ≤ rec_offset rec ∧
  ∃ pos', mkdb_read_record check c aa no 0 (pre ++ data_text es ++ post) (Z.to_nat (rec_offset rec))
          = Ret (if live then Some rec else None, if live then REC_OK else REC_NULL, pos').
Proof.
  induction es as [|e es IH]; intros pre post rec live Hf Hin; [by apply elem_of_nil in Hin|].
  apply Forall_cons in Hf as [He Hf]. cbn [placed] in Hin.
  apply elem_of_cons in Hin as [[= -> ->]|Hin].
  - cbn [rec_class rec_auth_area rec_data_file_no rec_offset]. split_and!; [done..|lia|].
    rewrite Nat2Z.id, data_text_cons, <-app_assoc. eexists.
    by rewrite (read_entry check c aa no 0 pre e) by (done || (intros _; by left)).
  - rewrite <-length_app in Hin. destruct (IH _ post rec live Hf Hin) as (? & ? & ? & Hge & p & Hp).
    rewrite length_app in Hge. split_and!; [done..|lia|]. exists p. by rewrite <-Hp, data_text_cons, !app_assoc.
Qed.

Lemma placed_ge c aa no es : ∀ pos rec live,
  (rec, live) ∈ placed c aa no pos es → Z.of_nat pos ≤ rec_offset rec.
Proof.
  induction es as [|e es IH]; intros pos rec live Hin; [by apply elem_of_nil in Hin|].
  cbn [placed] in Hin. apply elem_of_cons in Hin as [[= -> _]|Hin%IH]; cbn; lia.
Qed.

Lemma stored_text_pos e : (0 < length (stored_text e))%nat.
Proof. unfold stored_text. rewrite length_app. change (length separator) with 4%nat. lia. Qed.

Lemma placed_inj c aa no es : ∀ pos x y,
  x ∈ placed c aa no pos es → y ∈ placed c aa no pos es → rec_offset x.1 = rec_offset y.1 → x = y.
Proof.
  induction es as [|e es IH]; intros pos x y Hx Hy E; [by apply elem_of_nil in Hx|].
  cbn [placed] in Hx, Hy. pose proof (stored_text_pos e).
  apply elem_of_cons in Hx as [->|Hx], Hy as [->|Hy]; [done| | |by eapply IH].
  - destruct y as [r b]. apply placed_ge in Hy. cbn in *. lia.
  - destruct x as [r b]. apply placed_ge in Hx. cbn in *. lia.
Qed.

Lemma data_text_length es : (length es ≤ length (data_text es))%nat.
Proof.
  induction es as [|e es IH]; [done|]. rewrite data_text_cons, length_app.
  pose proof (stored_text_pos e). cbn [length]. lia.
Qed.

(** ** Reading on to the next record *)

(** what mkdb_read_next_record gives at the start of the entries, and the
    entries behind it *)
Fixpoint next_entry (c : class_struct) (aa : auth_area_struct) (no : Z) (pos : nat) (es : list stored) :
    option record_struct * rec_parse_result * nat * list stored :=
  match es with
  | [] => (None, REC_EOF, pos, [])
  | e :: es =>
      if st_live e
      then (Some (Record_ c aa no 0 (Z.of_nat pos) (st_pairs e)), REC_OK,
            (pos + length (stored_text e))%nat, es)
      else next_entry c aa no (pos + length (stored_text e)) es
  end.

Lemma read_next_entry check c aa no flag es : ∀ fuel pre,
  Forall (good_entry c) es → (length es < fuel)%nat →
  Forall (λ rec, flag = 0 ∨ check rec flag = (true, rec)) (live_records (placed c aa no (length pre) es)) →
  read_next_loop check fuel c aa no flag (pre ++ data_text es) (length pre)
  = Ret (next_entry c aa no (length pre) es).1.
Proof.
  induction es as [|e es IH]; intros fuel pre Hf Hfuel Hc; (destruct fuel as [|fuel]; [cbn in Hfuel; lia|]);
    cbn [read_next_loop next_entry].
  - change (data_text []) with (@nil ascii). rewrite app_nil_r.
    unfold mkdb_read_record, mkdb_read_anon_record.
    cbn [read_anon_loop]. unfold readline, fgets. rewrite drop_all. done.
  - apply Forall_cons in Hf as [He Hf]. rewrite data_text_cons.
    rewrite live_placed_cons in Hc. apply Forall_app in Hc as [Hc1 Hc].
    rewrite (read_entry check c aa no flag pre e) by (done || by intros E; rewrite E in Hc1; apply Forall_cons in Hc1 as [? _]).
    cbn [mbind outcome_bind]. destruct (st_live e) eqn:El.
    + rewrite decide_False by (intros [? ?]; done). by rewrite length_app.
    + rewrite decide_True by done. rewrite (app_assoc pre). rewrite IH; [by rewrite length_app|done| |].
      * cbn in Hfuel. lia.
      * done.
Qed.

Lemma mkdb_read_next_entry check c aa no flag es pre :
  Forall (good_entry c) es →
  Forall (λ rec, flag = 0 ∨ check rec flag = (true, rec)) (live_records (placed c aa no (length pre) es)) →
  mkdb_read_next_record check c aa no flag (pre ++ data_text es) (length pre)
  = Ret (next_entry c aa no (length pre) es).1.
Proof.
  intros Hf Hc. apply read_next_entry; [done| |done]. rewrite length_app. pose proof (data_text_length es). lia.
Qed.

(** ** Files that lose records *)

(** the same records, fewer of them live *)
Definition aged (es es' : list stored) : Prop :=
  Forall2 (λ e e', st_pairs e' = st_pairs e ∧ (st_live e' = true → st_live e = true)) es es'.

#[export] Instance aged_preorder : PreOrder aged.
Proof.
  split.
  - intros es. by apply Forall_Forall2_diag, Forall_true.
  - intros es1 es2 es3 H. revert es3. induction H as [|e1 e2 l1 l2 [E1 L1] _ IH]; intros es3 H3;
      inversion H3 as [|? e3 ? l3 [E2 L2] H3']; subst; constructor; [|by apply IH].
    split; [congruence|auto].
Qed.

Definition kill (e : stored) : stored := Stored (st_pairs e) false.
Definition kill_at (i : nat) (es : list stored) : list stored := alter kill i es.

Lemma kill_at_aged i es : aged es (kill_at i es).
Proof.
  unfold aged, kill_at. revert i. induction es as [|e es IH]; intros [|i]; try constructor; try done.
Qed.

Lemma aged_good c es es' : aged es es' → Forall (good_entry c) es → Forall (good_entry c) es'.
Proof.
  induction 1 as [|e e' l l' [E _] _ IH]; [done|]. intros [He Hl]%Forall_cons.
  constructor; [|by apply IH]. unfold good_entry. by rewrite E.
Qed.

Lemma aged_placed c aa no es es' : ∀ pos,
  Forall (good_entry c) es → aged es es' →
  Forall2 (λ x y, y.1 = x.1 ∧ (y.2 = true → x.2 = true)) (placed c aa no pos es) (placed c aa no pos es').
Proof.
  intros pos Hg H. revert pos Hg. induction H as [|e e' l l' [E L] _ IH]; intros pos Hg; cbn [placed];
    [constructor|]. apply Forall_cons in Hg as [[_ Hn] Hg]. constructor; [cbn; by rewrite E|].
  rewrite !stored_text_length by (rewrite ?E; done). rewrite E. by apply IH.
Qed.

Lemma aged_text_length c es es' :
  Forall (good_entry c) es → aged es es' → length (data_text es') = length (data_text es).
Proof.
  intros Hg H. induction H as [|e e' l l' [E _] _ IH]; [done|]. apply Forall_cons in Hg as [[_ Hn] Hg].
  rewrite !data_text_cons, !length_app, IH by done. rewrite !stored_text_length by (rewrite ?E; done).
  by rewrite E.
Qed.

(** killing a live record takes it, and only it, from the live ones *)
Lemma live_records_kill c aa no es i e rec :
  Forall (good_entry c) es → es !! i = Some e → st_live e = true →
  let hit := Record_ c aa no 0 (Z.of_nat (length (data_text (take i es)))) (st_pairs e) in
  rec ∈ live_records (placed c aa no 0 (kill_at i es)) ↔
  rec ∈ live_records (placed c aa no 0 es) ∧ rec ≠ hit.
Proof.
  intros Hg Hi Hl hit.
  assert (∀ (pre : cstr) es i, Forall (good_entry c) es → es !! i = Some e →
    let hit := Record_ c aa no 0 (Z.of_nat (length pre + length (data_text (take i es)))) (st_pairs e) in
    rec ∈ live_records (placed c aa no (length pre) (kill_at i es)) ↔
    rec ∈ live_records (placed c aa no (length pre) es) ∧ rec ≠ hit) as H; [|by apply (H [])].
  clear hit es i Hg Hi. intros pre es. revert pre. induction es as [|e' es IH]; intros pre i Hg Hi hit; [done|].
  apply Forall_cons in Hg as [[Hf Hn] Hg]. destruct i as [|i].
  - injection Hi as ->. subst hit. cbn [take]. change (data_text []) with (@nil ascii). cbn [length].
    rewrite Nat.add_0_r. change (kill_at 0 (e :: es)) with (kill e :: es).
    rewrite !live_placed_cons, Hl. cbn [kill st_live st_pairs app].
    assert (length (pre ++ stored_text (kill e)) = length (pre ++ stored_text e)) as ->
      by (by rewrite !length_app, !stored_text_length).
    rewrite elem_of_cons. split; [|naive_solver]. intros Hin. split; [by right|]. intros ->.
    unfold live_records in Hin. apply list_elem_of_fmap in Hin as ([r b] & E & [_ Hin]%list_elem_of_filter).
    cbn in E. subst r. apply placed_ge in Hin. cbn in Hin. rewrite length_app in Hin.
    pose proof (stored_text_pos e). lia.
  - change (kill_at (S i) (e' :: es)) with (e' :: kill_at i es).
    rewrite !live_placed_cons, !elem_of_app, (IH (pre ++ stored_text e') i Hg Hi).
    assert (Z.of_nat (length (pre ++ stored_text e') + length (data_text (take i es)))
            = Z.of_nat (length pre + length (data_text (take (S i) (e' :: es))))) as ->.
    { cbn [take]. rewrite data_text_cons, !length_app. lia. }
    fold hit. split; [|naive_solver]. intros [Hin|]; [|naive_solver]. split; [by left|]. intros ->.
    destruct (st_live e'); [|by apply elem_of_nil in Hin]. apply list_elem_of_singleton in Hin.
    apply (f_equal rec_offset) in Hin. subst hit. cbn [rec_offset take] in Hin.
    rewrite data_text_cons, length_app in Hin. pose proof (stored_text_pos e'). lia.
Qed.

Definition demo_pairs2 : list av_pair_struct :=
  [AvPair (demo_attr 1 ($"Auth-Area")) (Some $"a.com");
   AvPair (demo_attr 0 ($"Class-Name")) (Some $"host");
   AvPair (demo_attr 2 ($"Host-Name")) (Some $"mail")].
Definition demo_records : list stored := [Stored demo_pairs true; Stored demo_pairs false; Stored demo_pairs2 true].
Lemma demo_full_records : Forall (good_entry demo_class) demo_records.
Proof.
  assert (∀ b, good_entry demo_class (Stored demo_pairs b)) as H1.
  { intros b. split; [apply demo_full_record|].
    repeat (constructor; [by do 2 eexists|]). constructor. }
  constructor; [apply H1|]. constructor; [apply H1|]. constructor; [|constructor]. clear H1.
  split; [split; [discriminate|]; split|].
  - pose proof demo_plain as H. do 2 (apply Forall_cons in H as [? H]; constructor; [done|]).
    constructor; [|constructor].
    split; [eexists; split; [reflexivity|split; [discriminate|vm_compute; reflexivity]]|].
    split; [vm_compute; reflexivity|]. apply (bool_decide_unpack _). vm_compute. exact I.
  - split; [left|right; left]; (split; [discriminate|vm_compute; reflexivity]).
  - repeat (constructor; [by do 2 eexists|]). constructor.
Qed.
