(* ===== verification/Delete.v ===== *)
(** * Deleting records (mkdb/delete.c)

    A record is deleted in its data file: the first byte of each of its lines
    becomes an underscore, which the reader takes for a deleted line.  The
    file keeps its size, so that the offsets in the index files stay valid.
    The function for index entries is not called and not modelled. *)

From S2P Require Import Prelude CLib CString Misc DlList IpNetwork Types Stdio FilePath IndexLine.
From S2P Require Import BinSearch Records Index FileInfo DataFile.
Local Open Scope Z_scope.

(** ** Writing to a file in place *)

Definition overwrite (f : cstr) (pos : nat) (s : cstr) : cstr :=
  take pos f ++ s ++ drop (pos + length s) f.
(** the length of the part without a character of [reject] *)
Definition strcspn (s reject : cstr) : nat := length (takewhile (λ c, negb (bool_decide (c ∈ reject))) s).

(** ** mkdb_delete_data_entry *)

(** [buffer] holds what fgets has read at [pos] *)
Fixpoint mark_loop (fuel : nat) (f : cstr) (pos : nat) (buffer : cstr) : outcome cstr :=
  match fuel with
  | O => NoFuel
  | S fuel =>
      if (strcspn (cstring buffer) ($"---") =? 0)%nat then Ret f
      else
        let line := UNDERSCORE :: tail (cstring buffer) in
        let f := overwrite f pos line in
        let pos := (pos + length line)%nat in
        match fgets f pos MAX_LINE with
        | None => Ret f
        | Some (buffer, _) => mark_loop fuel f pos buffer
        end
  end.

(** The new contents of the data file.  When there is nothing at the offset
    the loop starts from an uninitialised buffer. *)
Definition mark_record (f : cstr) (offset : Z) : outcome cstr :=
  match fgets f (Z.to_nat offset) MAX_LINE with
  | None => Fault
  | Some (buffer, _) => mark_loop (S (length f)) f (Z.to_nat offset) buffer
  end.

Definition count_down (f : file_struct) : file_struct :=
  File (file_type f) (filename f) (file_no f) (file_size f) (Types.num_recs f - 1) (file_lock f) None.

(** The status, the files of the system and the list of changed files.  For a
    file that is not in the list the log call prints a number as a string. *)
Definition mkdb_delete_data_entry (fs : filesystem) (fi_list : list file_struct)
    (hit_item : record_struct) (changed_fi_list : list file_struct) :
    outcome (bool * filesystem * list file_struct) :=
  match find_file_by_id fi_list (rec_data_file_no hit_item) MKDB_DATA_FILE with
  | None => Fault
  | Some fi =>
      match fs (filename fi) with
      | None => Ret (false, fs, changed_fi_list)
      | Some f =>
          f ← mark_record f (rec_offset hit_item);
          Ret (true, upd fs (filename fi) (Some f), changed_fi_list ++ [count_down fi])
      end
  end.
Definition mkdb_delete_record := mkdb_delete_data_entry.

Section DeleteList.
Context (root_dir : option cstr) (file_path : buf) (lock_obtained : bool).

(** the status is that of the last record *)
Fixpoint mkdb_delete_records (fs : filesystem) (record_list : list record_struct) (status : bool) :
    outcome (bool * filesystem) :=
  match record_list with
  | [] => Ret (status, fs)
  | record :: record_list =>
      '(ok, all_file_list) ← get_file_list fs (rec_class record) [];
      if negb ok then Ret (false, fs)
      else
        '(status, fs, changed) ← mkdb_delete_record fs all_file_list record [];
        fs ← match changed with
             | [] => Ret fs
             | _ => '(_, fs, _) ← modify_file_list root_dir file_path lock_obtained fs (rec_class record)
                                    None None (Some changed) None None;
                    Ret fs
             end;
        mkdb_delete_records fs record_list status
  end.
Definition mkdb_delete_record_list (fs : filesystem) (record_list : list record_struct) :
    outcome (bool * filesystem) := mkdb_delete_records fs record_list false.
End DeleteList.

(** ** Marked lines *)

Lemma overwrite_at pre l l' post :
  length l' = length l → overwrite (pre ++ l ++ post) (length pre) l' = pre ++ l' ++ post.
Proof.
  intros E. unfold overwrite. rewrite take_app_length, E. do 2 f_equal.
  by rewrite <-length_app, app_assoc, drop_app_length.
Qed.

Lemma fgets_line pre l post size :
  NL ∉ l → (length l + 1 < size)%nat →
  fgets (pre ++ l ++ NL :: post) (length pre) size = Some (l ++ [NL], (length pre + (length l + 1))%nat).
Proof.
  intros Hl Hs. unfold fgets. rewrite drop_app_length.
  destruct (l ++ NL :: post) eqn:E; [by destruct l|]. rewrite <-E, line_of_line by (done || lia).
  by rewrite length_app.
Qed.

Lemma strcspn_dash s : (strcspn s ($"---") =? 0)%nat = match s with [] => true | c :: _ => c =c chr 45 end.
Proof.
  destruct s as [|c s]; [done|]. unfold strcspn. cbn [takewhile].
  destruct (c =c chr 45) eqn:E.
  - apply char_eqb_eq in E as ->. done.
  - apply char_eqb_neq in E. rewrite bool_decide_false; [done|].
    change ($"---") with [chr 45; chr 45; chr 45]. rewrite !elem_of_cons, elem_of_nil. naive_solver.
Qed.

(** a line that marking marks: it starts with something other than a dash *)
Definition markable (l : cstr) : Prop :=
  is_line l ∧ l ≠ [] ∧ (length l + 1 < MAX_LINE)%nat ∧ head l ≠ Some (chr 45).

Lemma mark_loop_lines ls : ∀ fuel pre l post,
  Forall markable (l :: ls) → (length (l :: ls) < fuel)%nat →
  mark_loop fuel (pre ++ text (l :: ls) ++ $"---" ++ NL :: post) (length pre) (l ++ [NL])
  = Ret (pre ++ text (mark_line <$> l :: ls) ++ $"---" ++ NL :: post).
Proof.
  induction ls as [|l2 ls IH]; intros fuel pre l post H Hf;
    (destruct fuel as [|fuel]; [cbn in Hf; lia|]); apply Forall_cons in H as [[[Hnl Hnul] [Hne [Hlen Hd]]] H];
    cbn [mark_loop]; rewrite cstring_no_nul by (rewrite not_elem_of_app, list_elem_of_singleton; done);
    (destruct l as [|c l]; [done|]); cbn [app tail];
    rewrite strcspn_dash, (proj2 (char_eqb_neq c (chr 45))) by (intros ->; by apply Hd);
    rewrite (text_cons (c :: l)), <-!app_assoc, fmap_cons, (text_cons (mark_line _)); cbn [app].
  - assert (pre ++ c :: l ++ NL :: text [] ++ $"---" ++ NL :: post
            = pre ++ ((c :: l) ++ [NL]) ++ $"---" ++ NL :: post) as ->
      by (by rewrite <-!app_assoc).
    rewrite overwrite_at by (rewrite !length_app; cbn; rewrite !length_app; cbn; lia).
    cbn [fmap list_fmap text mbind list_bind]. unfold mark_line. cbn [tail].
    set (l' := UNDERSCORE :: l ++ [NL]).
    assert (length pre + length l' = length (pre ++ l'))%nat as -> by (by rewrite length_app).
    rewrite (app_assoc pre l'), fgets_line; [|apply (bool_decide_unpack _); vm_compute; exact I|vm_compute; lia].
    destruct fuel as [|fuel]; [cbn in Hf; lia|]. cbn [mark_loop].
    subst l'. rewrite <-!app_assoc. cbn. by rewrite <-!app_assoc.
  - set (post' := text ls ++ $"---" ++ NL :: post).
    assert (pre ++ c :: l ++ NL :: text (l2 :: ls) ++ $"---" ++ NL :: post
            = pre ++ ((c :: l) ++ [NL]) ++ l2 ++ NL :: post') as ->
      by (subst post'; by rewrite (text_cons l2 ls), <-!app_assoc).
    rewrite overwrite_at by (rewrite !length_app; cbn; rewrite !length_app; cbn; lia).
    set (l' := UNDERSCORE :: l ++ [NL]).
    assert (length pre + length l' = length (pre ++ l'))%nat as -> by (by rewrite length_app).
    pose proof H as H2. apply Forall_cons in H2 as [[[Hnl2 _] [_ [Hlen2 _]]] _].
    rewrite (app_assoc pre l'), fgets_line by done. subst post'.
    specialize (IH fuel (pre ++ l') l2 post H ltac:(cbn in *; lia)).
    rewrite (text_cons l2 ls), <-!app_assoc in IH. cbn [app] in IH. rewrite <-!app_assoc. cbn [app]. rewrite IH.
    subst l'. f_equal. unfold mark_line. rewrite !fmap_cons, !text_cons. cbn [app tail]. by rewrite <-!app_assoc.
Qed.

Lemma plain_markable c av : plain_pair c av → named_pair av → markable (av_line av).
Proof.
  intros (_ & _ & _ & _ & _ & (Hl & _ & Hlen & _)) (x & t & E & Hx & _)%named_line.
  rewrite E in *. split_and!; try done. intros [= Ex]. by apply Hx.
Qed.

Lemma mark_record_entry c pre e post :
  good_entry c e → st_live e = true →
  mark_record (pre ++ stored_text e ++ post) (Z.of_nat (length pre))
  = Ret (pre ++ stored_text (kill e) ++ post).
Proof.
  intros [(Hne & Hp & _) Hn] Hl. unfold mark_record. rewrite Nat2Z.id.
  unfold stored_text, separator. rewrite Hl. cbn [kill st_live st_pairs]. rewrite <-!app_assoc.
  cbn [app]. unfold record_text, dead_text.
  assert (Forall markable (av_line <$> st_pairs e)) as Hm.
  { rewrite Forall_fmap. rewrite Forall_forall in *. intros av Hav.
    by apply (plain_markable c); [apply Hp|apply Hn]. }
  rewrite list_fmap_compose. destruct (av_line <$> st_pairs e) as [|l ls] eqn:El.
  { by destruct (st_pairs e). }
  set (f := pre ++ text (l :: ls) ++ _).
  assert (length (l :: ls) < S (length f))%nat as Hfuel.
  { subst f. rewrite !length_app. pose proof (text_length (l :: ls)). lia. }
  pose proof Hm as Hm'. apply Forall_cons in Hm' as [((Hnl & _) & _ & Hlen & _) _].
  assert (f = pre ++ l ++ NL :: text ls ++ $"---" ++ NL :: post) as Ef.
  { subst f. by rewrite text_cons, <-app_assoc. }
  rewrite Ef at 1. rewrite fgets_line by done. subst f. by apply mark_loop_lines.
Qed.

Lemma delete_entry c es i e fs fi_list fi hit changed :
  find_file_by_id fi_list (rec_data_file_no hit) MKDB_DATA_FILE = Some fi →
  fs (filename fi) = Some (data_text es) → Forall (good_entry c) es →
  es !! i = Some e → st_live e = true →
  rec_offset hit = Z.of_nat (length (data_text (take i es))) →
  mkdb_delete_data_entry fs fi_list hit changed
  = Ret (true, upd fs (filename fi) (Some (data_text (kill_at i es))), changed ++ [count_down fi]) ∧
  length (data_text (kill_at i es)) = length (data_text es).
Proof.
  intros Hfi Hfs Hg Hi Hl Ho. split; [|by eapply aged_text_length, kill_at_aged].
  unfold mkdb_delete_data_entry. rewrite Hfi, Hfs, Ho.
  assert (data_text es = data_text (take i es) ++ stored_text e ++ data_text (drop (S i) es)) as ->.
  { rewrite <-(take_drop_middle es i e Hi) at 1. by rewrite data_text_app, data_text_cons. }
  rewrite (mark_record_entry c) by (done || by eapply Forall_lookup_1).
  cbn [mbind outcome_bind]. do 5 f_equal.
  assert (kill_at i es = take i es ++ kill e :: drop (S i) es) as ->.
  { unfold kill_at. rewrite <-(take_drop_middle es i e Hi) at 1.
    rewrite alter_app_r_alt by (rewrite length_take; lia).
    rewrite length_take, Nat.min_l by (apply lookup_lt_Some in Hi; lia). by rewrite Nat.sub_diag. }
  by rewrite data_text_app, data_text_cons.
Qed.

(** C31: deleting a record keeps every other record.  In a data file of good
    records, mkdb_delete_data_entry turns the live record at the offset of the
    hit into a deleted one and changes nothing else: no other record, no
    offset, no other file; the file's entry, with one record less, is added to
    the list of changed files. *)
Theorem mkdb_delete_data_entry_correct c es i e fs fi_list fi hit changed :
  find_file_by_id fi_list (rec_data_file_no hit) MKDB_DATA_FILE = Some fi →
  fs (filename fi) = Some (data_text es) → Forall (good_entry c) es →
  es !! i = Some e → st_live e = true →
  rec_offset hit = Z.of_nat (length (data_text (take i es))) →
  mkdb_delete_data_entry fs fi_list hit changed
  = Ret (true, upd fs (filename fi) (Some (data_text (kill_at i es))), changed ++ [count_down fi]) ∧
  length (data_text (kill_at i es)) = length (data_text es).
Proof. apply delete_entry. Qed.

Lemma mkdb_delete_data_entry_correct_witness :
  let fi := File MKDB_DATA_FILE ($"d.txt") 1 0 3 false None in
  let fs : filesystem := λ _, Some (data_text demo_records) in
  let hit := Record_ demo_class demo_area 1 0 (Z.of_nat (length (data_text (take 2 demo_records)))) [] in
  mkdb_delete_data_entry fs [fi] hit []
  = Ret (true, upd fs ($"d.txt") (Some (data_text (kill_at 2 demo_records))), [] ++ [count_down fi]) ∧
  length (data_text (kill_at 2 demo_records)) = length (data_text demo_records).
Proof.
  intros fi fs hit.
  apply (mkdb_delete_data_entry_correct demo_class demo_records 2 (Stored demo_pairs2 true) fs [fi] fi hit []);
    try reflexivity. apply demo_full_records.
Defined.

(** The reject set of strcspn is one dash, not a run of three, so the loop
    stops at a line that begins with a dash: a record with such a line keeps
    its pairs from there on. *)
Theorem deletion_stops_at_dash :
  mark_record ($"Class-Name:host" ++ NL :: $"-note:x" ++ NL :: $"Host-Name:a" ++ NL :: separator) 0
  = Ret ($"_lass-Name:host" ++ NL :: $"-note:x" ++ NL :: $"Host-Name:a" ++ NL :: separator).
Proof. vm_compute. reflexivity. Qed.
