(* ===== verification/Search.v ===== *)
(** * Searching (mkdb/search.c)

    A query is run on every index file that can answer it, of every class of
    every authority area that it covers.  The hits are passed along as the hit
    list and the hit count.  The query is a global object: rebuild_query writes
    the attribute ids of an area into it, and search_cidr_index_file replaces
    the value of a term for a while.  [dangling] lists the terms (by their place
    in the or list) whose value it has left pointing to its own dead buffer. *)

From S2P Require Import Prelude CLib CString Misc DlList IpNetwork Types Stdio IndexLine BinSearch Records.
From S2P Require Import SearchPrim Index FilePath FileInfo.
From Stdlib Require Import Sorted.
Local Open Scope Z_scope.

Definition with_id (id : Z) (t : query_term) : query_term :=
  QueryTerm (qt_attribute_name t) id (search_type t) (comp_type t) (search_value t) (and_list t) (or_list t).
Definition with_value (v : cstr) (t : query_term) : query_term :=
  QueryTerm (qt_attribute_name t) (qt_attribute_id t) (search_type t) (comp_type t) v (and_list t) (or_list t).

(** ** rebuild_query

    The inner loop sets the ids of a term and of its and list; it stops at an
    attribute that the area does not have. *)
Fixpoint rebuild_and (refs : list attribute_ref_struct) (t : query_term) : bool * query_term :=
  match t with
  | QueryTerm name id st ct v al ol =>
      let id' := match name with
                 | None => Some (-2)
                 | Some n => option_map ar_global_id (find_global_attr_by_name refs n)
                 end in
      match id' with
      | None => (false, t)
      | Some id =>
          match al with
          | None => (true, QueryTerm name id st ct v None ol)
          | Some a => let '(ok, a) := rebuild_and refs a in
                      (ok, QueryTerm name id st ct v (Some a) ol)
          end
      end
  end.
Definition with_or (o : option query_term) (t : query_term) : query_term :=
  QueryTerm (qt_attribute_name t) (qt_attribute_id t) (search_type t) (comp_type t) (search_value t)
            (and_list t) o.
Fixpoint rebuild_or (refs : list attribute_ref_struct) (t : query_term) : bool * query_term :=
  let '(ok, t') := rebuild_and refs t in
  match t with
  | QueryTerm _ _ _ _ _ _ (Some o) =>
      if ok then let '(ok, o) := rebuild_or refs o in (ok, with_or (Some o) t') else (false, t')
  | _ => (ok, t')
  end.
Definition with_tree (t : option query_term) (q : query_struct) : query_struct :=
  Query (q_class_name q) (q_auth_area_name q) t.
Definition rebuild_query (aa : auth_area_struct) (query : query_struct) : bool * query_struct :=
  match aa_schema aa with
  | None => (false, query)
  | Some s =>
      match attribute_ref_list s, query_tree query with
      | [], _ | _, None => (false, query)
      | refs, Some t => let '(ok, t) := rebuild_or refs t in (ok, with_tree (Some t) query)
      end
  end.

(** ** Index files *)

Abbreviation hits := (list record_struct * Z)%type.

Section Search.
Context (fs : filesystem) (check_record : record_check).
Context (regexec : cstr → cstr → bool) (metaphone : cstr → cstr).
(** the uninitialised netinfo and buffer of search_cidr_index_file *)
Context (ni0 : netinfo) (buf0 : buf).

Section Class.
Context (c : class_struct) (aa : auth_area_struct) (data_fi_list : list file_struct) (max_hits : Z).

Definition search_exact_index_file (file : file_struct) (q : query_term) (h : hits) :
    outcome (ret_code_type * hits) :=
  match search_type q with
  | MKDB_BINARY_SEARCH =>
      '(fposition, file) ← binary_search fs file q;
      if fposition =? -1 then Ret (SEARCH_SUCCESSFUL, h)
      else full_scan fs check_record c aa file data_fi_list q h max_hits fposition false
  | MKDB_FULL_SCAN => full_scan fs check_record c aa file data_fi_list q h max_hits 0 true
  | _ => Ret (INVALID_SEARCH_TYPE, h)
  end.

(** the code of an empty value is read from an array that nothing has filled *)
Definition search_soundex_index_file (file : file_struct) (q : query_term) (h : hits) :
    outcome (ret_code_type * hits) :=
  if negb (is_soundexable (Some (search_value q))) then Ret (SEARCH_SUCCESSFUL, h)
  else
    code ← soundex_index_to_var metaphone (Some (search_value q));
    match code with
    | None => Fault
    | Some [] => Ret (SEARCH_SUCCESSFUL, h)
    | Some code => search_exact_index_file file (with_value code q) h
    end.

(** the string that write_network leaves in the buffer *)
Definition network_string (prefix : netinfo) : outcome cstr :=
  '(_, b) ← write_network (Some buf0) prefix; Ret (cstring (default [] b)).

(** One step for each prefix length, down to 0: [fuel] is masklen + 1.  The
    last component: whether the value of the term is left dangling. *)
Fixpoint cidr_loop (fuel : nat) (file : file_struct) (q : query_term) (prefix : netinfo)
    (ret : ret_code_type) (h : hits) : outcome (ret_code_type * hits * bool) :=
  match fuel with
  | O => NoFuel
  | S fuel =>
      let prefix := mask_addr_to_len prefix (masklen prefix) in
      value ← network_string prefix;
      match search_type q with
      | MKDB_BINARY_SEARCH =>
          '(fposition, file) ← binary_search fs file (with_value value q);
          '(ret, h) ← (if fposition =? -1 then Ret (ret, h)
                       else full_scan fs check_record c aa file data_fi_list (with_value value q) h
                                      max_hits fposition false);
          let prefix := NetInfo (af prefix) (masklen prefix - 1) (IpNetwork.prefix prefix) in
          if masklen prefix <? 0 then Ret (ret, h, false)
          else cidr_loop fuel file q prefix ret h
      | _ => Ret (INVALID_SEARCH_TYPE, h, true)
      end
  end.
Definition search_cidr_index_file (file : file_struct) (q : query_term) (h : hits) :
    outcome (ret_code_type * hits * bool) :=
  match get_network_prefix_and_len (Some (search_value q)) ni0 with
  | None => Ret (SEARCH_SUCCESSFUL, h, false)
  | Some prefix => cidr_loop (S (Z.to_nat (masklen prefix))) file q prefix SEARCH_SUCCESSFUL h
  end.

(** the loop over the index files; a file that is searched through a dangling
    value is a fault *)
Fixpoint search_index_file (files : list file_struct) (q : query_term) (index_type : attr_index_type)
    (ret : ret_code_type) (h : hits) (dangling : bool) : outcome (ret_code_type * hits * bool) :=
  match files with
  | [] => Ret (ret, h, dangling)
  | file :: files =>
      if negb (bool_decide (index_type = INDEX_ALL))
         && negb (bool_decide (file_type file = convert_file_type index_type))
      then search_index_file files q index_type ret h dangling
      else if dangling then Fault
      else
        '(ret, h, dangling) ←
          match file_type file with
          | MKDB_EXACT_INDEX_FILE => '(ret, h) ← search_exact_index_file file q h; Ret (Some ret, h, false)
          | MKDB_SOUNDEX_INDEX_FILE => '(ret, h) ← search_soundex_index_file file q h; Ret (Some ret, h, false)
          | MKDB_CIDR_INDEX_FILE =>
              if is_network_valid_for_searching regexec (search_value q)
              then '(ret, h, dangling) ← search_cidr_index_file file q h; Ret (Some ret, h, dangling)
              else Ret (Some ret, h, false)
          | _ => Ret (None, h, false)
          end;
        match ret with
        | None => Ret (INVALID_SEARCH_TYPE, h, dangling)
        | Some HIT_LIMIT_EXCEEDED => Ret (HIT_LIMIT_EXCEEDED, h, dangling)
        | Some ret => search_index_file files q index_type ret h dangling
        end
  end.

(** ** Classes, areas *)

(** the loop over the or list, from the term at place [i] on *)
Fixpoint search_terms (index_files : list file_struct) (t : query_term) (i : nat)
    (ret : ret_code_type) (h : hits) (dangling : list nat) : outcome (ret_code_type * hits * list nat) :=
  match t with
  | QueryTerm name id st ct v al ol =>
      if negb (max_hits =? 0) && (max_hits <? h.2) then Ret (ret, h, dangling)
      else
        let index_type := if 0 <? id then option_map attr_index (find_attribute_by_global_id c id)
                          else Some INDEX_ALL in
        match index_type with
        | None => Ret (SEARCH_SUCCESSFUL, h, dangling)
        | Some index_type =>
            '(ret, h, d) ← search_index_file index_files t index_type SEARCH_SUCCESSFUL h
                             (bool_decide (i ∈ dangling));
            let dangling := if d : bool then i :: dangling else dangling in
            if bool_decide (ret = SEARCH_SUCCESSFUL) then
              match ol with
              | None => Ret (ret, h, dangling)
              | Some o => search_terms index_files o (S i) ret h dangling
              end
            else Ret (ret, h, dangling)
        end
  end.
End Class.

Definition search_class (t : option query_term) (aa : auth_area_struct) (c : class_struct)
    (max_hits : Z) (h : hits) (dangling : list nat) : outcome (ret_code_type * hits * list nat) :=
  '(status, master) ← get_file_list fs c [];
  if negb status then Ret (UNKNOWN_SEARCH_ERROR, h, dangling)
  else
    let index_fi_list := filter_file_list MKDB_ALL_INDEX_FILES master in
    let data_fi_list := filter_file_list MKDB_DATA_FILE master in
    match t with
    | None => Ret (SEARCH_SUCCESSFUL, h, dangling)
    | Some t => search_terms c aa data_fi_list max_hits index_fi_list t 0 SEARCH_SUCCESSFUL h dangling
    end.

(** every class but the referrals *)
Fixpoint search_classes (cs : list class_struct) (t : option query_term) (aa : auth_area_struct)
    (max_hits : Z) (h : hits) (dangling : list nat) : outcome (ret_code_type * hits * list nat) :=
  match cs with
  | [] => Ret (SEARCH_SUCCESSFUL, h, dangling)
  | c :: cs =>
      if STR_EQ (class_name c) ($"referral") then search_classes cs t aa max_hits h dangling
      else
        '(ret, h, dangling) ← search_class t aa c max_hits h dangling;
        if bool_decide (ret = SEARCH_SUCCESSFUL) then search_classes cs t aa max_hits h dangling
        else Ret (ret, h, dangling)
  end.

(** the query comes back with the ids of the area *)
Definition search_auth_area (aa : auth_area_struct) (class_name : option cstr) (query : query_struct)
    (max_hits : Z) (h : hits) (dangling : list nat) :
    outcome (ret_code_type * hits * list nat * query_struct) :=
  match aa_schema aa with
  | None => Ret (UNKNOWN_SEARCH_ERROR, h, dangling, query)
  | Some schema =>
      let query := (rebuild_query aa query).2 in
      match class_name with
      | Some ((_ :: _) as name) =>
          match find_class_by_name (aa_schema aa) name with
          | None => Ret (UNKNOWN_SEARCH_ERROR, h, dangling, query)
          | Some c => '(ret, h, dangling) ← search_class (query_tree query) aa c max_hits h dangling;
                      Ret (ret, h, dangling, query)
          end
      | _ => '(ret, h, dangling) ← search_classes (class_list schema) (query_tree query) aa max_hits h dangling;
             Ret (ret, h, dangling, query)
      end
  end.

Fixpoint search_areas (aas : list auth_area_struct) (class_name : option cstr) (query : query_struct)
    (max_hits : Z) (ret : ret_code_type) (h : hits) (dangling : list nat) :
    outcome (ret_code_type * hits) :=
  match aas with
  | [] => Ret (ret, h)
  | aa :: aas =>
      '(ret, h, dangling, query) ← search_auth_area aa class_name query max_hits h dangling;
      search_areas aas class_name query max_hits ret h dangling
  end.

(** [areas] and [class_refs] are the global lists of the configuration.  The
    result: the returned number, the return code and the hit list. *)
Definition search (areas : option (list auth_area_struct)) (class_refs : list class_ref_struct)
    (query : option query_struct) (record_list : option (list record_struct)) (max_hits : Z) :
    outcome (Z * ret_code_type * option (list record_struct)) :=
  if max_hits <? 0 then Ret (0, SEARCH_SUCCESSFUL, record_list)
  else
    match record_list, query with
    | None, _ | _, None => Ret (-1, UNKNOWN_SEARCH_ERROR, record_list)
    | Some l, Some query =>
        let unknown := Ret (-1, UNKNOWN_SEARCH_ERROR, record_list) in
        let over (aas : list auth_area_struct) :=
          '(ret, h) ← search_areas aas (q_class_name query) query max_hits SEARCH_SUCCESSFUL (l, 0) [];
          Ret (h.2, ret, Some h.1) in
        match q_auth_area_name query, q_class_name query with
        | Some ((_ :: _) as a), _ =>
            match find_auth_area_by_name (default [] areas) (Some a) with
            | None => unknown
            | Some aa => over [aa]
            end
        | _, Some ((_ :: _) as name) =>
            match find_global_class_by_name class_refs name with
            | None => unknown
            | Some r => over (cr_auth_area_list r)
            end
        | _, _ => match areas with None => unknown | Some aas => over aas end
        end
    end.
End Search.

(** ** check_query_complexity *)

(** [comp_type >= MKDB_NEGATION_OFFSET] *)
Definition is_negation (t : mkdb_compare_type) : bool :=
  match t with MKDB_FULL_COMPARE | MKDB_PARTIAL_COMPARE | MKDB_SUBSTR_COMPARE => false | _ => true end.

Section Complexity.
(** the settings query-allow-wild and query-allow-substr *)
Context (allow_wild allow_substr : bool).

Definition check_term (t : query_term) : bool :=
  if negb allow_wild && (negb (bool_decide (search_type t = MKDB_BINARY_SEARCH))
                         || negb (bool_decide (comp_type t = MKDB_FULL_COMPARE))) then false
  else if negb allow_substr && negb (bool_decide (search_type t = MKDB_BINARY_SEARCH)) then false
  else negb (is_negation (comp_type t)).
Fixpoint check_and (t : query_term) : bool :=
  check_term t && match t with QueryTerm _ _ _ _ _ (Some a) _ => check_and a | _ => true end.
Fixpoint check_or (t : query_term) : bool :=
  check_and t && match t with QueryTerm _ _ _ _ _ _ (Some o) => check_or o | _ => true end.
Definition check_query_complexity (query : option query_struct) : bool :=
  match query with
  | Some q => match query_tree q with None => false | Some t => check_or t end
  | None => false
  end.
End Complexity.

(** ** Binary search and linear scan *)

Section Linear.
Context (fs : filesystem) (check_record : record_check).
Context (c : class_struct) (aa : auth_area_struct) (dfl : list file_struct) (max_hits : Z).
Context (file : file_struct) (ls : list cstr) (its : list index_struct).
Context (Hdisk : on_disk fs file ls) (Hindex : index_file ls its) (Hsorted : sorted_items its).

(** every item of an index file can be compared *)
Lemma index_file_compares q : ordered_compare q → Forall (compares q) its.
Proof.
  intros Hq. destruct Hindex as [_ _ H3]. apply Forall_forall. intros it Hin.
  apply list_elem_of_lookup in Hin as [k Hk].
  destruct (Forall2_lookup_r _ _ _ _ _ H3 Hk) as (l & _ & Hd).
  destruct (decodes_value _ _ Hd) as [v Hv]. exists (sign q v). rewrite Hv.
  by apply search_compare_sign.
Qed.

Lemma compares_value q it : ordered_compare q → compares q it → ∃ v, value it = Some v.
Proof.
  intros Hq [y Hy]. unfold search_compare in Hy.
  destruct (value it) as [v|]; [by eexists|]. by destruct Hq as [E|E]; rewrite E in Hy.
Qed.

(** from the first hit on, the hits of a sorted list come first *)
Lemma hits_then_misses q l :
  ordered_compare q → sorted_items l → Forall (compares q) l →
  Forall (λ it, ∃ v, value it = Some v ∧ sign q v ≤ 0) l →
  ∃ mid post, l = mid ++ post ∧ Forall (hit q) mid ∧ Forall (λ it, ¬ hit q it) post.
Proof.
  intros Hq Hs Hc Hle. induction Hs as [|it l Hs IH Hx]; [by exists [], []|].
  apply Forall_cons in Hc as [_ Hc]. apply Forall_cons in Hle as [(v & Hv & Hsv) Hle].
  destruct (decide (hit q it)) as [Hh|Hh].
  - destruct (IH Hc Hle) as (mid & post & -> & H1 & H2). exists (it :: mid), post. split; [done|].
    split; [by constructor|done].
  - exists [], (it :: l). split; [done|]. split; [constructor|]. constructor; [done|].
    apply Forall_forall. intros it' Hin. rewrite Forall_forall in Hx, Hle.
    destruct (Hle it' Hin) as (v' & Hv' & _). specialize (Hx it' Hin).
    unfold hit in *. rewrite Hv, search_compare_sign in Hh by done.
    rewrite Hv', search_compare_sign by done. intros [= E]. apply Hh. f_equal.
    unfold it_value in Hx. rewrite Hv, Hv' in Hx. pose proof (sign_antitone q v v' Hq Hx). lia.
Qed.

Lemma sorted_drop k : sorted_items (drop k its).
Proof.
  unfold sorted_items in *. rewrite <-(take_drop k its) in Hsorted.
  clear Hindex. induction (take k its) as [|x l IH]; [done|].
  apply IH. by apply StronglySorted_inv in Hsorted as [? _].
Qed.

Lemma linear_scan q h :
  full_scan fs check_record c aa file dfl q h max_hits 0 true =
  ('(r, s) ← scan_items fs check_record c aa dfl q max_hits (file_no file) true its
                        (ScanState None h.1 h.2);
   Ret (r, (record_list s, hit_count s))).
Proof.
  change 0 with (Z.of_nat (start ls 0)).
  rewrite (full_scan_items _ _ _ _ _ _ _ _ _ _ ls its 0) by (done || lia). by rewrite drop_0.
Qed.

Lemma exact_linear q h :
  ordered_compare q → search_type q = MKDB_BINARY_SEARCH →
  search_exact_index_file fs check_record c aa dfl max_hits file q h
  = full_scan fs check_record c aa file dfl q h max_hits 0 true.
Proof.
  intros Hq Ht. pose proof (index_file_compares q Hq) as Hc. pose proof Hdisk as (Hd1 & Hd2 & Hd3).
  unfold search_exact_index_file. rewrite Ht.
  rewrite (binary_search_sorted fs file q ls its) by done. cbn [mbind outcome_bind].
  rewrite linear_scan. unfold first_hit. destruct (list_find (hit q) its) as [[k it]|] eqn:E; cbn [fmap option_fmap option_map fst].
  - apply list_find_Some in E as (Hk & Hhit & Hbefore).
    rewrite (proj2 (Z.eqb_neq _ _)) by lia.
    pose proof (Forall2_length _ _ _ (if_items _ _ Hindex)) as Hlen.
    rewrite (full_scan_items _ _ _ _ _ _ _ _ _ _ ls its k) by (done || (apply lookup_lt_Some in Hk; lia)).
    rewrite <-(take_drop k its) at 2.
    assert (Forall (compares q) (take k its) ∧ Forall (compares q) (drop k its)) as [Hc1 Hc2]
      by (by apply Forall_app; rewrite take_drop).
    rewrite scan_items_app_misses; [|done|].
    2:{ apply Forall_forall. intros x Hx. apply list_elem_of_lookup in Hx as [j Hj].
        apply lookup_take_Some in Hj as [Hj Hjk]. by eapply Hbefore. }
    destruct (hits_then_misses q (drop k its) Hq (sorted_drop k) Hc2) as (mid & post & El & H1 & H2).
    + apply Forall_forall. intros x Hx. rewrite Forall_forall in Hc2.
      destruct (compares_value q x Hq (Hc2 x Hx)) as (v & Hv). exists v. split; [done|].
      apply list_elem_of_lookup in Hx as [j Hj]. rewrite lookup_drop in Hj.
      pose proof (sorted_lookup its k (k + j) it x Hsorted ltac:(lia) Hk Hj) as Hle.
      unfold hit in Hhit. destruct (value it) as [w|] eqn:Ew.
      * rewrite search_compare_sign in Hhit by done. injection Hhit as Hw.
        unfold it_value in Hle. rewrite Ew, Hv in Hle. pose proof (sign_antitone q w v Hq Hle). lia.
      * unfold search_compare in Hhit. by destruct Hq as [E|E]; rewrite E in Hhit.
    + rewrite El in *. apply Forall_app in Hc2 as [_ Hc2]. by rewrite scan_items_stop by done.
  - apply list_find_None in E. cbn. rewrite scan_items_misses by done. by destruct h.
Qed.
End Linear.

(** C3: the search of a sorted index file by bisection, which stops at the
    first line that does not match, gives the code, the hits and the count of a
    scan of the whole file, for exact and prefix queries with any AND terms. *)
Theorem search_exact_index_file_correct fs check c aa dfl max_hits file ls its q h :
  on_disk fs file ls → index_file ls its → sorted_items its →
  ordered_compare q → search_type q = MKDB_BINARY_SEARCH →
  search_exact_index_file fs check c aa dfl max_hits file q h
  = full_scan fs check c aa file dfl q h max_hits 0 true.
Proof. intros. by eapply exact_linear. Qed.

Lemma demo_world_sorted : sorted_items demo_world_items.
Proof. repeat (constructor; [|repeat (constructor; [vm_compute; done|]); constructor]). constructor. Qed.
Lemma search_exact_index_file_correct_witness :
  search_exact_index_file demo_world no_check demo_class demo_area [demo_data_file] 10 demo_index
    (demo_query ($"BETA")) ([], 0)
  = full_scan demo_world no_check demo_class demo_area demo_index [demo_data_file]
      (demo_query ($"BETA")) ([], 0) 10 0 true.
Proof.
  apply (search_exact_index_file_correct demo_world _ _ _ _ _ demo_index
           [$"35:1:0:2:ALPHA"; $"0:1:0:2:BETA"] demo_world_items).
  - split_and!; reflexivity.
  - apply demo_world_index.
  - apply demo_world_sorted.
  - by left.
  - reflexivity.
Defined.

(** ** Networks: the enclosing networks *)

(** the networks that enclose a prefix, from itself to the one of length 0 *)
Fixpoint supernets (n : nat) (prefix : netinfo) : list netinfo :=
  let prefix := mask_addr_to_len prefix (masklen prefix) in
  match n with
  | O => [prefix]
  | S n => prefix :: supernets n (NetInfo (af prefix) (masklen prefix - 1) (IpNetwork.prefix prefix))
  end.

Section Cidr.
Context (fs : filesystem) (check_record : record_check) (buf0 : buf).
Context (c : class_struct) (aa : auth_area_struct) (dfl : list file_struct) (max_hits : Z).
Context (file : file_struct) (ls : list cstr) (its : list index_struct).

(** a linear scan for each value; the code is that of the last value found *)
Fixpoint scan_values (q : query_term) (values : list cstr) (ret : ret_code_type) (h : hits) :
    outcome (ret_code_type * hits) :=
  match values with
  | [] => Ret (ret, h)
  | v :: values =>
      '(r, h) ← full_scan fs check_record c aa file dfl (with_value v q) h max_hits 0 true;
      scan_values q values
        (match first_hit (with_value v q) its with Some _ => r | None => ret end) h
  end.

Context (Hdisk : on_disk fs file ls) (Hindex : index_file ls its) (Hsorted : sorted_items its).

Lemma mask_keeps p l : af (mask_addr_to_len p l) = af p ∧ masklen (mask_addr_to_len p l) = masklen p.
Proof. unfold mask_addr_to_len. by case_match. Qed.

(** one step of the loop, from where the binary search has ended *)
Lemma cidr_step q ret h :
  ordered_compare q → search_type q = MKDB_BINARY_SEARCH →
  ∃ fposition, binary_search fs file q = Ret (fposition, file) ∧
  (if fposition =? -1 then Ret (ret, h)
   else full_scan fs check_record c aa file dfl q h max_hits fposition false)
  = ('(r, h) ← full_scan fs check_record c aa file dfl q h max_hits 0 true;
     Ret (match first_hit q its with Some _ => r | None => ret end, h)).
Proof.
  intros Hq Ht. pose proof Hdisk as (Hd1 & Hd2 & Hd3).
  pose proof (exact_linear fs check_record c aa dfl max_hits file ls its Hdisk Hindex Hsorted q h Hq Ht) as E.
  unfold search_exact_index_file in E. rewrite Ht, (binary_search_sorted fs file q ls its) in E by done.
  cbn [mbind outcome_bind] in E. eexists. split; [by apply (binary_search_sorted fs file q ls its)|].
  rewrite <-E. destruct (first_hit q its) as [k|]; [|done].
  rewrite (proj2 (Z.eqb_neq _ _)) by lia. by destruct (full_scan _ _ _ _ _ _ _ _ _ _ _) as [[r h']| |].
Qed.

Lemma cidr_loop_values q n : ∀ fuel prefix values ret h,
  ordered_compare q → search_type q = MKDB_BINARY_SEARCH → masklen prefix = Z.of_nat n →
  mapM (network_string buf0) (supernets n prefix) = Ret values → (n < fuel)%nat →
  cidr_loop fs check_record buf0 c aa dfl max_hits fuel file q prefix ret h
  = ('(ret, h) ← scan_values q values ret h; Ret (ret, h, false)).
Proof.
  induction n as [|n IH]; intros [|fuel] prefix values ret h Hq Ht Hm Hv Hf; try lia;
    destruct (mask_keeps prefix (masklen prefix)) as [Ea El];
    cbn [supernets mapM] in Hv; cbn [cidr_loop]; set (p := mask_addr_to_len prefix (masklen prefix)) in *;
    (destruct (network_string buf0 p) as [v| |]; [|done..]); cbn [mbind outcome_bind] in Hv |- *;
    rewrite Ht; destruct (cidr_step (with_value v q) ret h Hq Ht) as (pos & -> & Hstep);
    cbn [mbind outcome_bind]; rewrite Hstep; clear Hstep.
  - injection Hv as <-. rewrite El, Hm. cbn [scan_values].
    by destruct (full_scan _ _ _ _ _ _ _ _ _ _ _) as [[r h']| |].
  - destruct (mapM _ _) as [vs| |] eqn:Evs; try done. injection Hv as <-. cbn [scan_values].
    destruct (full_scan _ _ _ _ _ _ _ _ _ _ _) as [[r h']| |]; try done. cbn [mbind outcome_bind masklen].
    rewrite (proj2 (Z.ltb_ge _ _)) by lia. apply IH; [done..|cbn; lia|done|lia].
Qed.
End Cidr.

(** C9: the search of a CIDR index file visits every enclosing network.  It
    ends, leaves the value of the term as it was, and gives the hits of one
    linear scan of the file for each of the networks that enclose the address
    asked for, from its own prefix length down to 0. *)
Theorem search_cidr_index_file_correct fs check ni0 buf0 c aa dfl max_hits file ls its q prefix values h :
  on_disk fs file ls → index_file ls its → sorted_items its →
  ordered_compare q → search_type q = MKDB_BINARY_SEARCH →
  get_network_prefix_and_len (Some (search_value q)) ni0 = Some prefix → 0 ≤ masklen prefix →
  mapM (network_string buf0) (supernets (Z.to_nat (masklen prefix)) prefix) = Ret values →
  search_cidr_index_file fs check ni0 buf0 c aa dfl max_hits file q h
  = ('(ret, h) ← scan_values fs check c aa dfl max_hits file its q values SEARCH_SUCCESSFUL h;
     Ret (ret, h, false)).
Proof.
  intros Hd Hi Hs Hq Ht Hp Hm Hv. unfold search_cidr_index_file. rewrite Hp.
  by eapply cidr_loop_values; try done; lia.
Qed.

(** an index of two networks; the search for a host finds both *)
Definition demo_nets : list cstr := [$"0:1:0:2:010.000.000.000/8"; $"35:1:0:2:010.001.000.000/16"; $"0:1:0:2:011.000.000.000/8"].
Definition demo_net_items : list index_struct :=
  [IndexItem 0 1 0 2 (Some $"010.000.000.000/8"); IndexItem 35 1 0 2 (Some $"010.001.000.000/16");
   IndexItem 0 1 0 2 (Some $"011.000.000.000/8")].
Definition demo_cidr_world : filesystem := λ n,
  if bool_decide (n = $"c.ndx") then Some (text demo_nets)
  else if bool_decide (n = $"d.txt") then Some demo_data else None.
Definition demo_cidr_index : file_struct :=
  File MKDB_CIDR_INDEX_FILE ($"c.ndx") 7 (Z.of_nat (length (text demo_nets))) 3 false None.
Definition demo_values : list cstr :=
  match get_network_prefix_and_len (Some $"10.1.2.3") (NetInfo 0 0 (replicate 16 0)) with
  | Some prefix =>
      match mapM (network_string (replicate 512 NUL)) (supernets (Z.to_nat (masklen prefix)) prefix) with
      | Ret vs => vs | _ => [] end
  | None => []
  end.

Lemma search_cidr_index_file_correct_witness :
  length demo_values = 33%nat ∧
  let run := search_cidr_index_file demo_cidr_world no_check (NetInfo 0 0 (replicate 16 0))
               (replicate 512 NUL) demo_class demo_area [demo_data_file] 0 demo_cidr_index
               (demo_query ($"10.1.2.3")) ([], 0) in
  ((λ r, (r.1.1, r.1.2.2)) <$> run) = Ret (SEARCH_SUCCESSFUL, 2) ∧
  run = ('(ret, h) ← scan_values demo_cidr_world no_check demo_class demo_area [demo_data_file] 0
                       demo_cidr_index demo_net_items (demo_query ($"10.1.2.3")) demo_values
                       SEARCH_SUCCESSFUL ([], 0);
         Ret (ret, h, false)).
Proof.
  split; [vm_compute; reflexivity|]. intros run. split; [vm_compute; reflexivity|].
  destruct (get_network_prefix_and_len (Some $"10.1.2.3") (NetInfo 0 0 (replicate 16 0))) as [prefix|] eqn:E;
    [|vm_compute in E; discriminate E].
  apply (search_cidr_index_file_correct _ _ _ _ _ _ _ _ _ demo_nets demo_net_items _ prefix).
  - split_and!; reflexivity.
  - split.
    + repeat (constructor; [split; apply (bool_decide_unpack _); vm_compute; exact I|]). constructor.
    + repeat (constructor; [vm_compute; lia|]). constructor.
    + repeat (constructor; [intros it0; vm_compute; reflexivity|]). constructor.
  - repeat (constructor; [|repeat (constructor; [vm_compute; done|]); constructor]). constructor.
  - by left.
  - reflexivity.
  - exact E.
  - vm_compute in E. injection E as <-. vm_compute. congruence.
  - vm_compute in E. injection E as <-. vm_compute. reflexivity.
Defined.

(** ** Query trees *)

Fixpoint and_chain (t : query_term) : list query_term :=
  match t with
  | QueryTerm _ _ _ _ _ al _ => t :: match al with None => [] | Some a => and_chain a end
  end.
Fixpoint or_chain (t : query_term) : list query_term :=
  match t with
  | QueryTerm _ _ _ _ _ _ ol => t :: match ol with None => [] | Some o => or_chain o end
  end.
(** the terms that the nested loops over or_list and and_list visit *)
Definition all_terms (t : query_term) : list query_term := or_chain t ≫= and_chain.

Lemma check_and_chain w s : ∀ n t, (length (and_chain t) ≤ n)%nat →
  check_and w s t = forallb (check_term w s) (and_chain t).
Proof.
  induction n as [|n IH]; intros [nm id st ct v al ol] Hn; [simpl in Hn; lia|].
  cbn [check_and and_chain forallb]. f_equal. destruct al as [a|]; [|done].
  apply IH. simpl in Hn. lia.
Qed.
Lemma check_or_chain w s : ∀ n t, (length (or_chain t) ≤ n)%nat →
  check_or w s t = forallb (check_term w s) (all_terms t).
Proof.
  induction n as [|n IH]; intros [nm id st ct v al ol] Hn; [simpl in Hn; lia|].
  cbn [check_or]. unfold all_terms. cbn [or_chain]. rewrite bind_cons, forallb_app.
  rewrite (check_and_chain w s _ _ (le_n _)). f_equal. destruct ol as [o|]; [|done].
  apply IH. simpl in Hn. lia.
Qed.

(** Check_query_complexity accepts a query exactly when no term of it is
    negated, every term is exact unless wild cards are allowed, and no term is
    a substring search unless these are allowed too. *)
Theorem check_query_complexity_correct w s q :
  check_query_complexity w s (Some q) = true ↔
  ∃ t, query_tree q = Some t ∧
    Forall (λ t, is_negation (comp_type t) = false ∧
                 (w = true ∨ (search_type t = MKDB_BINARY_SEARCH ∧ comp_type t = MKDB_FULL_COMPARE)) ∧
                 (s = true ∨ search_type t = MKDB_BINARY_SEARCH)) (all_terms t).
Proof.
  unfold check_query_complexity. destruct (query_tree q) as [t|]; [|by split; [|intros (? & ? & _)]].
  rewrite (check_or_chain w s _ _ (le_n _)), forallb_forall.
  assert (∀ x, check_term w s x = true ↔ is_negation (comp_type x) = false ∧
    (w = true ∨ (search_type x = MKDB_BINARY_SEARCH ∧ comp_type x = MKDB_FULL_COMPARE)) ∧
    (s = true ∨ search_type x = MKDB_BINARY_SEARCH)) as Hx.
  { intros x. unfold check_term. destruct w, s, (search_type x), (comp_type x); cbn; naive_solver. }
  split.
  - intros H. exists t. split; [done|]. apply Forall_forall. intros x Hin. apply Hx, H. by apply list_elem_of_In.
  - intros (? & [= <-] & H) x Hin%list_elem_of_In. rewrite Forall_forall in H. by apply Hx, H.
Qed.

(** ** rebuild_query *)

(** the ids that the attributes of a term have in an area *)
Definition id_in (refs : list attribute_ref_struct) (name : option cstr) : option Z :=
  match name with
  | None => Some (-2)
  | Some n => option_map ar_global_id (find_global_attr_by_name refs n)
  end.
Definition shape (t : query_term) : option cstr * mkdb_search_type * mkdb_compare_type * cstr :=
  (qt_attribute_name t, search_type t, comp_type t, search_value t).

Lemma rebuild_and_ok refs n : ∀ t, (length (and_chain t) ≤ n)%nat →
  ((rebuild_and refs t).1 = true ↔ Forall (λ x, is_Some (id_in refs (qt_attribute_name x))) (and_chain t)) ∧
  (shape <$> and_chain (rebuild_and refs t).2) = (shape <$> and_chain t) ∧
  or_list (rebuild_and refs t).2 = or_list t ∧
  ((rebuild_and refs t).1 = true →
   Forall (λ x, id_in refs (qt_attribute_name x) = Some (qt_attribute_id x)) (and_chain (rebuild_and refs t).2)).
Proof.
  induction n as [|n IH]; intros [nm id st ct v al ol] Hn; [simpl in Hn; lia|].
  cbn [rebuild_and and_chain]. change (match nm with None => Some (-2) | Some n0 => _ end) with (id_in refs nm).
  destruct (id_in refs nm) as [id'|] eqn:Eid.
  2:{ rewrite Forall_cons. cbn. rewrite Eid. split_and!; [|done..]. split; [done|]. by intros [[] _]. }
  destruct al as [a|]; cbn [fst snd].
  - destruct (IH a) as (H1 & H2 & H3 & H4); [simpl in Hn; lia|].
    destruct (rebuild_and refs a) as [ok a'] eqn:Ea. cbn [fst snd and_chain or_list] in *. split_and!.
    + rewrite Forall_cons. cbn. rewrite Eid, H1. naive_solver.
    + rewrite !fmap_cons. cbn [shape qt_attribute_name search_type comp_type search_value]. by rewrite H2.
    + done.
    + intros E. constructor; [done|]. by apply H4.
  - split_and!; [|done|done|by repeat constructor]. rewrite Forall_singleton. cbn. rewrite Eid. by split.
Qed.

Lemma and_chain_with_or o t : ∃ l, and_chain t = t :: l ∧ and_chain (with_or o t) = with_or o t :: l.
Proof. destruct t as [nm id st ct v al ol]. by eexists. Qed.

Lemma all_terms_cons t :
  all_terms t = and_chain t ++ match or_list t with None => [] | Some o => all_terms o end.
Proof.
  destruct t as [nm id st ct v al [o|]]; unfold all_terms; cbn [or_chain or_list]; by rewrite bind_cons.
Qed.

Lemma rebuild_or_ok refs n : ∀ t, (length (or_chain t) ≤ n)%nat →
  ((rebuild_or refs t).1 = true ↔ Forall (λ x, is_Some (id_in refs (qt_attribute_name x))) (all_terms t)) ∧
  (shape <$> all_terms (rebuild_or refs t).2) = (shape <$> all_terms t) ∧
  ((rebuild_or refs t).1 = true →
   Forall (λ x, id_in refs (qt_attribute_name x) = Some (qt_attribute_id x)) (all_terms (rebuild_or refs t).2)).
Proof.
  induction n as [|n IH]; intros t Hn; [destruct t; simpl in Hn; lia|].
  destruct (rebuild_and_ok refs _ t (le_n _)) as (A1 & A2 & A3 & A4).
  assert (rebuild_or refs t = match or_list t with
    | Some o => if (rebuild_and refs t).1
                then ((rebuild_or refs o).1, with_or (Some (rebuild_or refs o).2) (rebuild_and refs t).2)
                else (false, (rebuild_and refs t).2)
    | None => rebuild_and refs t end) as ->.
  { destruct t as [nm id st ct v al [o|]]; cbn [rebuild_or or_list];
      destruct (rebuild_and refs _) as [ok t'], (rebuild_or refs o) as [ok2 o'] || destruct (rebuild_and refs _); done. }
  rewrite (all_terms_cons t), Forall_app, fmap_app.
  destruct (rebuild_and refs t) as [ok t'] eqn:Et. cbn [fst snd] in *.
  destruct (or_list t) as [o|] eqn:Eo.
  2:{ cbn [fst snd]. rewrite (all_terms_cons t'), A3, !app_nil_r. cbn [fmap list_fmap]. split_and!; [|by rewrite ?app_nil_r|done].
      rewrite A1, Forall_nil. tauto. }
  destruct (IH o) as (O1 & O2 & O3); [destruct t; cbn in Eo; subst; simpl in Hn; lia|].
  destruct ok; cbn [fst snd].
  - destruct (and_chain_with_or (Some (rebuild_or refs o).2) t') as (l & E1 & E2).
    rewrite (all_terms_cons (with_or _ _)), E2, fmap_app. cbn [with_or or_list].
    rewrite E1 in A2, A4. split_and!.
    + rewrite O1, <-A1. tauto.
    + rewrite O2. f_equal. rewrite <-A2. done.
    + intros Hok. apply Forall_app. split; [|by apply O3]. specialize (A4 eq_refl).
      apply Forall_cons in A4 as [H1 H2]. by constructor.
  - rewrite (all_terms_cons t'), A3, fmap_app. split_and!; [|by rewrite A2|done].
    split; [done|]. intros [H _]. by apply A1 in H.
Qed.

(** Rebuild_query changes only the attribute ids of a query.  It returns
    TRUE exactly when the area has every attribute that the query names, and
    then each term has the id of its attribute in that area, or -2 if it names
    none. *)
Theorem rebuild_query_correct aa q s t :
  aa_schema aa = Some s → attribute_ref_list s ≠ [] → query_tree q = Some t →
  let known x := is_Some (id_in (attribute_ref_list s) (qt_attribute_name x)) in
  ∃ ok t', rebuild_query aa q = (ok, with_tree (Some t') q) ∧
    (ok = true ↔ Forall known (all_terms t)) ∧
    (shape <$> all_terms t') = (shape <$> all_terms t) ∧
    (ok = true → Forall (λ x, id_in (attribute_ref_list s) (qt_attribute_name x) = Some (qt_attribute_id x))
                        (all_terms t')).
Proof.
  intros Hs Hr Ht known. unfold rebuild_query. rewrite Hs, Ht.
  destruct (rebuild_or_ok (attribute_ref_list s) _ t (le_n _)) as (H1 & H2 & H3).
  destruct (rebuild_or (attribute_ref_list s) t) as [ok t'] eqn:E. cbn [fst snd] in *.
  exists ok, t'. destruct (attribute_ref_list s); [done|]. by rewrite E.
Qed.

Definition demo_refs : list attribute_ref_struct :=
  [AttributeRef 1 ($"Class-Name") []; AttributeRef 5 ($"Name") [$"Host-Name"]].
Definition demo_tree (name : cstr) : query_term :=
  QueryTerm (Some $"host-name") (-2) MKDB_BINARY_SEARCH MKDB_FULL_COMPARE ($"A") None
    (Some (QueryTerm (Some name) (-2) MKDB_BINARY_SEARCH MKDB_FULL_COMPARE ($"B") None None)).
Lemma rebuild_query_correct_witness :
  let aa := AuthArea ($"a.com") (Some (Schema [] demo_refs)) AUTH_AREA_PRIMARY None no_soa None None None None 0 None None in
  let q := Query None None (Some (demo_tree ($"Phone"))) in
  let known x := is_Some (id_in demo_refs (qt_attribute_name x)) in
  ∃ ok t', rebuild_query aa q = (ok, with_tree (Some t') q) ∧
    (ok = true ↔ Forall known (all_terms (demo_tree ($"Phone")))) ∧
    (shape <$> all_terms t') = (shape <$> all_terms (demo_tree ($"Phone"))) ∧
    (ok = true → Forall (λ x, id_in demo_refs (qt_attribute_name x) = Some (qt_attribute_id x)) (all_terms t')).
Proof.
  intros aa q. apply (rebuild_query_correct aa q (Schema [] demo_refs) (demo_tree ($"Phone"))); done.
Defined.

(** ** Where searches go wrong *)

Section Failures.
Context (fs : filesystem) (check_record : record_check).
Context (regexec : cstr → cstr → bool) (metaphone : cstr → cstr) (ni0 : netinfo) (buf0 : buf).

(** A class without the attribute of one OR term is not searched for the
    terms that follow it: the loop returns success instead of going on. *)
Theorem search_terms_missing_attribute c aa dfl max_hits files t i ret h dangling :
  0 < qt_attribute_id t → find_attribute_by_global_id c (qt_attribute_id t) = None →
  max_hits = 0 ∨ h.2 ≤ max_hits →
  search_terms fs check_record regexec metaphone ni0 buf0 c aa dfl max_hits files t i ret h dangling
  = Ret (SEARCH_SUCCESSFUL, h, dangling).
Proof.
  intros Hid Hno Hm. destruct t as [nm id st ct v al ol]. cbn [search_terms qt_attribute_id] in *.
  assert (negb (max_hits =? 0) && (max_hits <? h.2) = false) as ->.
  { destruct Hm as [-> |Hm]; [done|]. rewrite (proj2 (Z.ltb_ge _ _)) by done. apply andb_false_r. }
  rewrite (proj2 (Z.ltb_lt _ _)), Hno by done. done.
Qed.

(** A substring search for an address stops at the CIDR index file with the
    value of its term pointing to a dead buffer; when another index file of the
    class follows, as the soundex file does, it is searched through it. *)
Theorem search_index_file_dangling c aa dfl max_hits cidr next files q ret h prefix value :
  search_type q = MKDB_FULL_SCAN →
  is_network_valid_for_searching regexec (search_value q) = true →
  get_network_prefix_and_len (Some (search_value q)) ni0 = Some prefix →
  network_string buf0 (mask_addr_to_len prefix (masklen prefix)) = Ret value →
  file_type cidr = MKDB_CIDR_INDEX_FILE →
  search_cidr_index_file fs check_record ni0 buf0 c aa dfl max_hits cidr q h
    = Ret (INVALID_SEARCH_TYPE, h, true) ∧
  search_index_file fs check_record regexec metaphone ni0 buf0 c aa dfl max_hits
    (cidr :: next :: files) q INDEX_ALL ret h false = Fault.
Proof.
  intros Ht Hv Hp Hn Hc.
  assert (search_cidr_index_file fs check_record ni0 buf0 c aa dfl max_hits cidr q h
    = Ret (INVALID_SEARCH_TYPE, h, true)) as E.
  { unfold search_cidr_index_file. rewrite Hp. cbn [cidr_loop]. rewrite Hn. cbn [mbind outcome_bind].
    by rewrite Ht. }
  split; [done|]. cbn [search_index_file]. rewrite Hc, Hv, E. cbn. done.
Qed.
End Failures.

Lemma search_terms_missing_attribute_witness :
  search_terms (λ _, None) no_check (λ _ _, true) (λ w, w) (NetInfo 0 0 []) [] demo_class demo_area [] 0
    [demo_index] (with_id 9 (demo_tree ($"Host-Name"))) 0 SEARCH_SUCCESSFUL ([], 0) []
  = Ret (SEARCH_SUCCESSFUL, ([], 0), []).
Proof.
  apply (search_terms_missing_attribute _ _ _ _ _ _ demo_class demo_area [] 0 [demo_index]
           (with_id 9 (demo_tree ($"Host-Name"))) 0 SEARCH_SUCCESSFUL ([], 0) []);
    [reflexivity|reflexivity|by left].
Defined.

Lemma search_index_file_dangling_witness :
  let q := QueryTerm None (-2) MKDB_FULL_SCAN MKDB_SUBSTR_COMPARE ($"10.1.2.3") None None in
  search_cidr_index_file demo_cidr_world no_check (NetInfo 0 0 (replicate 16 0)) (replicate 512 NUL)
    demo_class demo_area [] 0 demo_cidr_index q ([], 0) = Ret (INVALID_SEARCH_TYPE, ([], 0), true) ∧
  search_index_file demo_cidr_world no_check (λ _ _, true) (λ w, w) (NetInfo 0 0 (replicate 16 0))
    (replicate 512 NUL) demo_class demo_area [] 0 [demo_cidr_index; demo_index] q INDEX_ALL
    SEARCH_SUCCESSFUL ([], 0) false = Fault.
Proof.
  intros q.
  destruct (get_network_prefix_and_len (Some $"10.1.2.3") (NetInfo 0 0 (replicate 16 0))) as [prefix|] eqn:E;
    [|vm_compute in E; discriminate E].
  apply (search_index_file_dangling demo_cidr_world no_check (λ _ _, true) (λ w, w)
    (NetInfo 0 0 (replicate 16 0)) (replicate 512 NUL) demo_class demo_area [] 0 demo_cidr_index demo_index []
    q SEARCH_SUCCESSFUL ([], 0) prefix ($"010.001.002.003/32")).
  - reflexivity.
  - reflexivity.
  - exact E.
  - vm_compute in E. injection E as <-. vm_compute. reflexivity.
  - reflexivity.
Defined.
