(* ===== verification/Query.v ===== *)
(** * Building queries (mkdb/parse.y)

    The actions of the grammar, in the order in which the parser runs them: a
    query is an optional class and a first term, followed by terms that AND or
    OR joins.  The lexer gives each value a string of its own, which
    set_query_term edits. *)

From S2P Require Import Prelude CLib CString Types Stdio Search.
Local Open Scope Z_scope.

Inductive mkdb_operator_type := MKDB_EQ_OP | MKDB_NOT_EQ_OP.
Definition QUOTE : ascii := chr 34.
Definition STAR : ascii := chr 42.

(** [comp_type + MKDB_NEGATION_OFFSET] for the types that set_query_term sets *)
Definition negate (t : mkdb_compare_type) : mkdb_compare_type :=
  match t with
  | MKDB_FULL_COMPARE => MKDB_NOT_FULL_COMPARE
  | MKDB_PARTIAL_COMPARE => MKDB_NOT_PARTIAL_COMPARE
  | _ => MKDB_NOT_SUBSTR_COMPARE
  end.

Definition set_query_term (attribute_name : option cstr) (value : option buf)
    (op : mkdb_operator_type) : outcome (option query_term) :=
  match value with
  | None => Ret None
  | Some b =>
      c ← rd b 0;
      if c =c NUL then Ret None
      else
        let name := match attribute_name with Some (_ :: _) => attribute_name | _ => None end in
        v ← stripchar (Some b) QUOTE;
        v ← trim v;
        v ← of_option v;
        len ← strlen v;
        c ← rdz v (Z.of_nat len - 1);
        '(comp, v) ← (if c =c STAR
                      then v ← strip_trailing (Some v) STAR; v ← of_option v;
                           Ret (MKDB_PARTIAL_COMPARE, v)
                      else Ret (MKDB_FULL_COMPARE, v));
        c ← rd v 0;
        '(search, comp, v) ← (if c =c STAR
                              then v ← strip_leading (Some v) STAR; v ← of_option v;
                                   Ret (MKDB_FULL_SCAN, MKDB_SUBSTR_COMPARE, v)
                              else Ret (MKDB_BINARY_SEARCH, comp, v));
        let comp := match op with MKDB_NOT_EQ_OP => negate comp | MKDB_EQ_OP => comp end in
        Ret (Some (QueryTerm name (-2) search comp (cstring v) None None))
  end.

(** ** The tree

    The tree is a matrix: the rows are joined by or_list, the terms of a row by
    and_list.  [current_or] points to the first term of the last row and
    [current_and] to its last term, unless it is null. *)
Record parse_state := ParseState {
  rows : list (list query_term); current_or : bool; current_and : bool;
  working_term : option query_term }.

(** query_tree is null *)
Definition no_tree (s : parse_state) : bool := bool_decide (rows s = []).

Definition add_term (term : option query_term) (s : parse_state) : parse_state :=
  if no_tree s
  then match term with
       | Some t => ParseState [[t]] true true (working_term s)
       | None => ParseState [] false false (working_term s)
       end
  else ParseState (rows s) (current_or s) (current_and s) term.

Fixpoint append_to_last (t : query_term) (rows : list (list query_term)) : list (list query_term) :=
  match rows with
  | [] => []
  | [row] => [row ++ [t]]
  | row :: rows => row :: append_to_last t rows
  end.
(** The null pointer is logged and then followed. *)
Definition add_and_term (s : parse_state) : outcome parse_state :=
  if current_and s
  then Ret (match working_term s with
            | Some t => ParseState (append_to_last t (rows s)) (current_or s) true None
            | None => ParseState (rows s) (current_or s) false None
            end)
  else Fault.
Definition add_or_term (s : parse_state) : outcome parse_state :=
  if current_or s
  then Ret (match working_term s with
            | Some t => ParseState (rows s ++ [[t]]) true true None
            | None => ParseState (rows s) false false None
            end)
  else Fault.

Fixpoint link_and (row : list query_term) : option query_term :=
  match row with
  | [] => None
  | QueryTerm n id st ct v _ ol :: row => Some (QueryTerm n id st ct v (link_and row) ol)
  end.
Fixpoint link_or (rows : list (list query_term)) : option query_term :=
  match rows with
  | [] => None
  | row :: rows => option_map (with_or (link_or rows)) (link_and row)
  end.

(** ** The grammar *)

(** querystr: an attribute with a value, or a value alone (an attribute name on
    its own is a value) *)
Record querystr := QueryStr { qs_attr : option cstr; qs_value : buf; qs_op : mkdb_operator_type }.
Inductive conj := AND | OR.

Definition querystr_term (q : querystr) : outcome (option query_term) :=
  set_query_term (qs_attr q) (Some (qs_value q)) (qs_op q).

Fixpoint parse_rest (l : list (conj * querystr)) (s : parse_state) : outcome parse_state :=
  match l with
  | [] => Ret s
  | (k, q) :: l =>
      t ← querystr_term q;
      let s := add_term t s in
      s ← match k with AND => add_and_term s | OR => add_or_term s end;
      parse_rest l s
  end.

Definition set_query (class_name auth_area_name : option cstr) (q : query_struct) : query_struct :=
  Query (match class_name with Some (_ :: _) => class_name | _ => q_class_name q end)
        (match auth_area_name with Some (_ :: _) => auth_area_name | _ => q_auth_area_name q end)
        (query_tree q).

Definition parse_query (class_name : option cstr) (first : querystr) (rest : list (conj * querystr)) :
    outcome query_struct :=
  t ← querystr_term first;
  s ← parse_rest rest (add_term t (ParseState [] false false None));
  let q := Query None None (link_or (rows s)) in
  Ret (match class_name with Some _ => set_query class_name None q | None => q end).

(** ** set_query_term *)

(** the value without its quotes and the white space around it *)
Definition bare (v : cstr) : cstr := trim_s (stripchar_s QUOTE v).
Definition all_stars (s : cstr) : Prop := Forall (λ c, c = STAR) s.

(** what the stars at the ends of a value ask for *)
Definition wild_type (w : cstr) : mkdb_search_type * mkdb_compare_type :=
  if bool_decide (head w = Some STAR) then (MKDB_FULL_SCAN, MKDB_SUBSTR_COMPARE)
  else if bool_decide (last w = Some STAR) then (MKDB_BINARY_SEARCH, MKDB_PARTIAL_COMPARE)
  else (MKDB_BINARY_SEARCH, MKDB_FULL_COMPARE).
Definition core (w : cstr) : cstr := strip_leading_s STAR (strip_trailing_s STAR w).
Definition leading_stars (w : cstr) : nat := length (takewhile (λ c, c =c STAR) w).

Lemma strip_trailing_ok ch s b :
  holds b s → s ≠ [] → ¬ Forall (λ c, c = ch) s →
  ∃ b', strip_trailing (Some b) ch = Ret (Some b') ∧ holds b' (strip_trailing_s ch s) ∧ length b' = length b.
Proof.
  intros [Hn [rest ->]] Hne Ha. destruct s as [|x s]; [done|]. unfold strip_trailing.
  change (rd ((x :: s) ++ NUL :: rest) 0) with (Ret x).
  pose proof Hn as [Hx _]%not_elem_of_cons. cbn [mbind outcome_bind].
  rewrite (proj2 (char_eqb_neq x NUL)), strlen_app by (done || congruence).
  cbn [mbind outcome_bind]. rewrite strip_trailing_loop_spec by lia.
  destruct (rdropwhile_split (λ c, c =c ch) (x :: s)) as (t & E & Ht). fold (strip_trailing_s ch (x :: s)) in E.
  destruct (strip_trailing_s ch (x :: s)) as [|y s'] eqn:Es.
  - destruct Ha. rewrite E. eapply Forall_impl; [exact Ht|]. intros c. apply char_eqb_eq.
  - cbn zeta. cbn [mbind outcome_bind]. eexists. split; [done|].
    assert (NUL ∉ y :: s') as Hn' by (rewrite E in Hn; apply not_elem_of_app in Hn; tauto).
    apply (f_equal length) in E. rewrite length_app in E. split.
    + split; [done|]. destruct (length (x :: s) - length (y :: s'))%nat; simpl; eauto.
    + repeat (rewrite ?length_app, ?length_replicate; cbn [length] in *). lia.
Qed.

Lemma strip_trailing_stars ch s b :
  holds b s → s ≠ [] → Forall (λ c, c = ch) s → strip_trailing (Some b) ch = Fault.
Proof.
  intros [Hn [rest ->]] Hne Ha. destruct s as [|x s]; [done|]. unfold strip_trailing.
  change (rd ((x :: s) ++ NUL :: rest) 0) with (Ret x).
  pose proof Hn as [Hx _]%not_elem_of_cons. cbn [mbind outcome_bind].
  rewrite (proj2 (char_eqb_neq x NUL)), strlen_app by (done || congruence).
  cbn [mbind outcome_bind]. rewrite strip_trailing_loop_spec by lia.
  destruct (rdropwhile_split (λ c, c =c ch) (x :: s)) as (t & E & _). fold (strip_trailing_s ch (x :: s)) in E.
  destruct (strip_trailing_s ch (x :: s)) as [|y s' _] eqn:Es using rev_ind; [done|].
  exfalso. assert (y = ch) as ->.
  { rewrite Forall_forall in Ha. apply Ha. rewrite E, !elem_of_app. left. right. left. }
  unfold strip_trailing_s in Es. pose proof (rdropwhile_split (λ c, c =c ch) (x :: s)) as _.
  assert (∀ l : cstr, last (rdropwhile (λ c, c =c ch) l) ≠ Some ch) as Hl.
  { intros l. induction l as [|z l IH] using rev_ind; [done|]. rewrite rdropwhile_snoc.
    destruct (z =c ch) eqn:Ez; [done|]. rewrite last_snoc. apply char_eqb_neq in Ez. congruence. }
  destruct (Hl (x :: s)). rewrite Es. by rewrite last_snoc.
Qed.

Lemma last_read s b : holds b s → s ≠ [] → rdz b (Z.of_nat (length s) - 1) = of_option (last s).
Proof.
  intros [_ [rest ->]] Hne. destruct s as [|x s _] using rev_ind; [done|].
  rewrite length_app, last_snoc. cbn [length]. replace (Z.of_nat (length s + 1) - 1) with (Z.of_nat (length s)) by lia.
  rewrite rdz_nat, <-app_assoc. by apply rd_app.
Qed.

Lemma head_read s b : holds b s → rd b 0 = Ret (default NUL (head s)).
Proof. intros [_ [rest ->]]. by destruct s. Qed.

Lemma holds_cstring b s : holds b s → cstring b = s.
Proof.
  intros [H [rest ->]]. unfold cstring. rewrite takewhile_all; [by rewrite app_nil_r|].
  apply Forall_forall. intros c Hc. apply negb_true_iff, char_eqb_neq. by intros ->.
Qed.

Lemma strip_trailing_head s c : head s = Some c → c ≠ STAR → head (strip_trailing_s STAR s) = Some c.
Proof.
  intros Hh Hc. destruct (rdropwhile_split (λ c, c =c STAR) s) as (t & E & Ht).
  fold (strip_trailing_s STAR s) in E. destruct (strip_trailing_s STAR s) as [|x s'].
  - cbn in E. subst. destruct t; [done|]. apply Forall_cons in Ht as [Ht _]. injection Hh as ->.
    by apply char_eqb_eq in Ht.
  - rewrite E in Hh. done.
Qed.
Lemma strip_trailing_head_star s :
  ¬ all_stars s → head s = Some STAR → head (strip_trailing_s STAR s) = Some STAR ∧
  takewhile (λ c, c =c STAR) (strip_trailing_s STAR s) = takewhile (λ c, c =c STAR) s.
Proof.
  intros Ha Hh. destruct (rdropwhile_split (λ c, c =c STAR) s) as (t & E & Ht).
  fold (strip_trailing_s STAR s) in E.
  assert (¬ all_stars (strip_trailing_s STAR s)) as Ha'.
  { intros H. apply Ha. rewrite E. apply Forall_app. split; [done|].
    eapply Forall_impl; [exact Ht|]. intros c. apply char_eqb_eq. }
  set (u := strip_trailing_s STAR s) in *. clearbody u. subst s. split.
  - destruct u; [|done]. destruct Ha'. constructor.
  - clear Hh Ha. induction u as [|x u IH]; [destruct Ha'; constructor|]. cbn [takewhile app]. destruct (x =c STAR) eqn:Ex; [|done].
    f_equal. apply IH. intros H. apply Ha'. constructor; [by apply char_eqb_eq|done].
Qed.

Lemma bare_buffer b v :
  holds b v → ∃ b1 b2, stripchar (Some b) QUOTE = Ret (Some b1) ∧ trim (Some b1) = Ret (Some b2) ∧
  holds b2 (bare v) ∧ length b2 = length b.
Proof.
  intros Hb. destruct (stripchar_InPlace QUOTE b v Hb) as (b1 & E1 & H1 & L1).
  destruct (trim_InPlace b1 _ H1) as (b2 & E2 & H2 & L2). exists b1, b2. split_and!; [done..|lia].
Qed.

(** the buffer after the trailing stars are gone, if there are any *)
Lemma strip_stars w b :
  holds b w → w ≠ [] → ¬ all_stars w →
  ∃ b', (if bool_decide (last w = Some STAR) then strip_trailing (Some b) STAR else Ret (Some b)) = Ret (Some b') ∧
        holds b' (strip_trailing_s STAR w) ∧ length b' = length b.
Proof.
  intros Hb Hne Ha. case_bool_decide as Hl; [by apply strip_trailing_ok|].
  exists b. split; [done|]. split; [|done]. unfold strip_trailing_s.
  destruct w as [|x w _] using rev_ind; [done|]. rewrite last_snoc in Hl.
  rewrite rdropwhile_snoc, (proj2 (char_eqb_neq _ _)); [done|congruence].
Qed.

Lemma strip_leading_ok s b :
  holds b s → (length (takewhile (λ c, c =c STAR) s) + length s ≤ length b)%nat →
  ∃ b', strip_leading (Some b) STAR = Ret (Some b') ∧ holds b' (strip_leading_s STAR s).
Proof.
  intros [Hn [rest ->]] Hl. pose proof (strip_leading_spec STAR s rest Hn ltac:(done)) as H. cbn zeta in H.
  pose proof (takewhile_dropwhile (λ c, c =c STAR) s) as E. apply (f_equal length) in E.
  rewrite length_app in *. cbn [length] in *. unfold strip_leading_s in H.
  rewrite decide_True in H by lia. destruct H as (b' & H1 & H2 & _). by exists b'.
Qed.

(** Set_query_term reads the wild cards of a value.  Of the value without
    its quotes and outer blanks, a leading * asks for a substring scan, a
    trailing * alone for a prefix search, and the term gets what is left when
    the stars at its ends are gone.  A value that holds nothing but stars, or
    nothing at all, makes it read the byte before its buffer; so would too many
    leading stars read past the end. *)
Theorem set_query_term_correct attr b v op :
  holds b v → v ≠ [] →
  let w := bare v in
  (all_stars w → set_query_term attr (Some b) op = Fault) ∧
  (¬ all_stars w → (leading_stars w + length (strip_trailing_s STAR w) ≤ length b)%nat →
   set_query_term attr (Some b) op =
   Ret (Some (QueryTerm (match attr with Some (_ :: _) => attr | _ => None end) (-2) (wild_type w).1
      (match op with MKDB_NOT_EQ_OP => negate (wild_type w).2 | MKDB_EQ_OP => (wild_type w).2 end)
      (if bool_decide (head w = Some STAR) then core w else strip_trailing_s STAR w) None None))).
Proof.
  intros Hb Hv w. destruct (bare_buffer b v Hb) as (b1 & b2 & E1 & E2 & Hw & Hlb). fold w in Hw.
  unfold set_query_term. rewrite (head_read v b Hb). cbn [mbind outcome_bind].
  assert ((default NUL (head v) =c NUL) = false) as ->.
  { apply char_eqb_neq. destruct Hb as [Hn _], v as [|x v]; [done|]. intros E. change (x = NUL) in E. subst x. apply Hn. left. }
  rewrite E1. cbn [mbind outcome_bind]. rewrite E2. cbn [mbind outcome_bind of_option].
  rewrite (strlen_holds _ _ Hw). cbn [mbind outcome_bind]. split.
  - intros Ha. destruct w as [|x w'] eqn:Ew; [done|]. rewrite <-Ew in *.
    rewrite (last_read w b2 Hw) by (by rewrite Ew).
    destruct (last w) as [l|] eqn:El; [|by rewrite last_None, Ew in El].
    assert (l = STAR) as -> by (unfold all_stars in Ha; rewrite Forall_forall in Ha; by apply Ha, last_Some_elem_of).
    cbn [of_option mbind outcome_bind]. rewrite char_eqb_refl.
    by rewrite (strip_trailing_stars STAR w b2 Hw) by (done || by rewrite Ew).
  - intros Ha Hl. assert (w ≠ []) as Hne by (intros E; apply Ha; rewrite E; constructor).
    rewrite (last_read w b2 Hw Hne). destruct (last w) as [l|] eqn:El; [|by rewrite last_None in El].
    cbn [of_option mbind outcome_bind].
    destruct (strip_stars w b2 Hw Hne Ha) as (b3 & Hstrip & Hs & Hl3).
    assert ((if l =c STAR then v0 ← strip_trailing (Some b2) STAR; v1 ← of_option v0; Ret (MKDB_PARTIAL_COMPARE, v1)
             else Ret (MKDB_FULL_COMPARE, b2))
            = Ret (if bool_decide (last w = Some STAR) then MKDB_PARTIAL_COMPARE else MKDB_FULL_COMPARE, b3)) as ->.
    { rewrite El in *. destruct (decide (l = STAR)) as [->|Hc].
      - rewrite char_eqb_refl. rewrite !bool_decide_true in * by done. by rewrite Hstrip.
      - rewrite (proj2 (char_eqb_neq l STAR) Hc). rewrite !bool_decide_false in * by congruence.
        by injection Hstrip as ->. }
    cbn [mbind outcome_bind]. rewrite (head_read _ _ Hs). cbn [mbind outcome_bind].
    destruct (head w) as [h|] eqn:Eh; [|by destruct w].
    unfold wild_type. rewrite Eh. destruct (decide (h = STAR)) as [->|Hh].
    + destruct (strip_trailing_head_star w Ha Eh) as [Eh' Et]. rewrite Eh'. cbn [default]. unfold id.
      rewrite char_eqb_refl, !bool_decide_true by done.
      destruct (strip_leading_ok (strip_trailing_s STAR w) b3 Hs) as (b4 & -> & H4).
      { unfold leading_stars in Hl. rewrite Et. lia. }
      cbn. rewrite (holds_cstring _ _ H4). by destruct op.
    + rewrite (strip_trailing_head w h Eh Hh). cbn [default]. unfold id.
      rewrite (proj2 (char_eqb_neq h STAR)), !(bool_decide_false (Some h = _)) by congruence.
      cbn [mbind outcome_bind]. rewrite (holds_cstring _ _ Hs). by destruct op, (bool_decide (last w = _)).
Qed.

Lemma set_query_term_correct_witness :
  set_query_term (Some $"Name") (Some ($"foo*" ++ [NUL])) MKDB_EQ_OP
  = Ret (Some (QueryTerm (Some $"Name") (-2) MKDB_BINARY_SEARCH MKDB_PARTIAL_COMPARE ($"foo") None None)) ∧
  set_query_term None (Some (chr 34 :: SP :: chr 34 :: [NUL])) MKDB_EQ_OP = Fault.
Proof.
  split.
  - apply (set_query_term_correct (Some $"Name") _ ($"foo*")).
    + apply holds_intro. apply (bool_decide_unpack _). vm_compute. exact I.
    + discriminate.
    + apply (bool_decide_unpack _). vm_compute. exact I.
    + vm_compute. lia.
  - apply (set_query_term_correct None _ [chr 34; SP; chr 34]).
    + apply (holds_intro [chr 34; SP; chr 34] []). apply (bool_decide_unpack _). vm_compute. exact I.
    + discriminate.
    + vm_compute. constructor.
Defined.

(** ** The shape of the tree *)

(** AND binds more tightly than OR: the rows of a list of terms *)
Fixpoint group (row : list query_term) (l : list (conj * query_term)) : list (list query_term) :=
  match l with
  | [] => [row]
  | (AND, t) :: l => group (row ++ [t]) l
  | (OR, t) :: l => row :: group [t] l
  end.

Lemma append_to_last_snoc t done_ row : append_to_last t (done_ ++ [row]) = done_ ++ [row ++ [t]].
Proof.
  induction done_ as [|r rs IH]; [done|]. cbn [app append_to_last]. rewrite IH.
  by destruct (rs ++ [row]) eqn:E; [destruct rs|].
Qed.

Lemma parse_rest_group l : ∀ ts done_ row,
  row ≠ [] → mapM (λ x, t ← querystr_term x.2; of_option t) l = Ret ts →
  ∃ s, parse_rest l (ParseState (done_ ++ [row]) true true None) = Ret s ∧
       rows s = done_ ++ group row (zip (fst <$> l) ts).
Proof.
  induction l as [|[k q] l IH]; intros ts done_ row Hrow Hm; cbn [mapM] in Hm.
  { injection Hm as <-. by eexists. }
  cbn [parse_rest snd] in *. destruct (querystr_term q) as [[t|]| |]; try done.
  cbn [mbind outcome_bind of_option] in *. destruct (mapM _ l) as [ts'| |]; try done.
  injection Hm as <-. unfold add_term, no_tree. cbn [rows].
  rewrite bool_decide_false by (by destruct done_). rewrite fmap_cons. cbn [fst zip group].
  destruct k; cbn [current_or current_and add_and_term add_or_term working_term rows mbind outcome_bind].
  - rewrite append_to_last_snoc. destruct (IH ts' done_ (row ++ [t])) as (s & Hs & Hr); [by destruct row|done|].
    by exists s.
  - destruct (IH ts' (done_ ++ [row]) [t]) as (s & Hs & Hr); [done|done|]. exists s.
    split; [done|]. by rewrite Hr, <-app_assoc.
Qed.

Lemma link_and_chain row : row ≠ [] →
  ∃ t, link_and row = Some t ∧ (shape <$> and_chain t) = (shape <$> row).
Proof.
  induction row as [|[n id st ct v al ol] row IH]; [done|]. intros _. cbn [link_and].
  eexists. split; [done|]. cbn [and_chain]. rewrite !fmap_cons. f_equal.
  destruct row as [|t row]; [done|]. destruct IH as (t' & -> & E); [done|]. done.
Qed.

Lemma link_or_chain rs : rs ≠ [] → Forall (λ r, r ≠ []) rs →
  ∃ t, link_or rs = Some t ∧ ((λ x, shape <$> and_chain x) <$> or_chain t) = ((λ r, shape <$> r) <$> rs).
Proof.
  induction rs as [|r rs IH]; [done|]. intros _ [Hr Hrs]%Forall_cons. cbn [link_or].
  destruct (link_and_chain r Hr) as (t & -> & Et). cbn [option_map]. eexists. split; [done|].
  destruct (and_chain_with_or (link_or rs) t) as (l & E1 & E2).
  assert (or_chain (with_or (link_or rs) t)
    = with_or (link_or rs) t :: match link_or rs with None => [] | Some o => or_chain o end) as -> by done.
  rewrite !fmap_cons. f_equal.
  - rewrite E2, <-Et, E1. done.
  - destruct rs as [|r' rs]; [done|]. destruct IH as (o & -> & Eo); done.
Qed.

Lemma group_ok l : ∀ row, row ≠ [] → group row l ≠ [] ∧ Forall (λ r, r ≠ []) (group row l).
Proof.
  induction l as [|[[] t] l IH]; intros row Hr; cbn [group].
  - split; [done|]. by constructor.
  - apply IH. by destruct row.
  - destruct (IH [t]) as [_ H]; [done|]. split; [done|]. by constructor.
Qed.

(** The parser never follows its null pointers when every term is one, and
    builds the disjunction of the conjunctions that the text means: the rows of
    the tree, from the first to the last, are the runs of terms joined by AND. *)
Theorem parse_query_correct class first rest t ts :
  querystr_term first = Ret (Some t) →
  mapM (λ x, t ← querystr_term x.2; of_option t) rest = Ret ts →
  ∃ q tree, parse_query class first rest = Ret q ∧ query_tree q = Some tree ∧
    q_auth_area_name q = None ∧
    q_class_name q = match class with Some (_ :: _) => class | _ => None end ∧
    ((λ x, shape <$> and_chain x) <$> or_chain tree)
    = ((λ r, shape <$> r) <$> group [t] (zip (fst <$> rest) ts)).
Proof.
  intros Hf Hr. unfold parse_query. rewrite Hf. cbn [mbind outcome_bind].
  destruct (parse_rest_group rest ts [] [t]) as (s & Hs & Hrows); [done|done|].
  cbn [app] in Hs. change (add_term (Some t) (ParseState [] false false None)) with (ParseState [[t]] true true None).
  rewrite Hs. cbn [mbind outcome_bind]. cbn [app] in Hrows. rewrite Hrows.
  destruct (group_ok (zip (fst <$> rest) ts) [t]) as [H1 H2]; [done|].
  destruct (link_or_chain _ H1 H2) as (tree & E & Etree). rewrite E.
  eexists _, tree. split; [done|]. by destruct class as [[|]|].
Qed.

Definition demo_str (v : cstr) : querystr := QueryStr None (v ++ [NUL]) MKDB_EQ_OP.
Lemma parse_query_correct_witness :
  let tm v := QueryTerm None (-2) MKDB_BINARY_SEARCH MKDB_FULL_COMPARE v None None in
  ∃ q tree, parse_query (Some $"HOST") (demo_str ($"A")) [(OR, demo_str ($"B")); (AND, demo_str ($"C"))] = Ret q ∧
    query_tree q = Some tree ∧ q_auth_area_name q = None ∧ q_class_name q = Some $"HOST" ∧
    ((λ x, shape <$> and_chain x) <$> or_chain tree)
    = ((λ r, shape <$> r) <$> [[tm ($"A")]; [tm ($"B"); tm ($"C")]]).
Proof.
  intros tm. apply (parse_query_correct (Some $"HOST") (demo_str ($"A"))
    [(OR, demo_str ($"B")); (AND, demo_str ($"C"))] (tm ($"A")) [tm ($"B"); tm ($"C")]); vm_compute; reflexivity.
Defined.
