(* ===== verification/QueryText.v ===== *)
(** * The text of queries (mkdb/parse.l, the grammar of mkdb/parse.y)

    The lexer cuts a line into tokens, by the longest match of its patterns and
    the first of the longest; a word is looked up among the classes (at the
    start of the line) and the attributes.  The grammar is read by descent; the
    actions run as soon as a term is complete, as in the generated parser,
    which reduces before it looks at the next token where it has no choice.
    The tables of the generated code (lex.yy.c, y.tab.c) are not modelled. *)

From S2P Require Import Prelude CLib CString Types Stdio Search Query.
Local Open Scope Z_scope.

(** ** Patterns *)

Definition TAB : ascii := chr 9.
Definition is_value_char (c : ascii) : bool := negb (bool_decide (c ∈ [SP; TAB; chr 61; STAR; NL])).
Definition is_quoted_char (c : ascii) : bool := negb (bool_decide (c ∈ [QUOTE; STAR; NL])).

(** what a pattern matches at the start of a text, and the rest *)
Definition opt_star (s : cstr) : cstr * cstr :=
  match s with c :: s' => if c =c STAR then ([c], s') else ([], s) | [] => ([], []) end.
Definition match_chars (p : ascii → bool) (s : cstr) : option (cstr * cstr) :=
  match takewhile p s with [] => None | b => Some (b, dropwhile p s) end.
Definition match_char (ch : ascii) (s : cstr) : option (cstr * cstr) :=
  match s with c :: s => if c =c ch then Some ([c], s) else None | [] => None end.
Fixpoint match_text (t : cstr) (s : cstr) : option (cstr * cstr) :=
  match t with
  | [] => Some ([], s)
  | c :: t => '(_, s) ← match_char c s; '(x, s) ← match_text t s; Some (c :: x, s)
  end.
Definition match_VALUE (s : cstr) : option (cstr * cstr) :=
  let '(a, s) := opt_star s in
  '(b, s) ← match_chars is_value_char s;
  let '(c, s) := opt_star s in Some (a ++ b ++ c, s).
Definition match_QUOTEDVALUE (s : cstr) : option (cstr * cstr) :=
  let '(a, s) := opt_star s in
  '(_, s) ← match_char QUOTE s;
  let '(b, s) := opt_star s in
  '(body, s) ← match_chars is_quoted_char s;
  let '(c, s) := opt_star s in
  '(_, s) ← match_char QUOTE s;
  let '(d, s) := opt_star s in Some (a ++ [QUOTE] ++ b ++ body ++ c ++ [QUOTE] ++ d, s).

Inductive rule := R_AND | R_OR | R_EQ | R_NEQ | R_QUOTEDVALUE | R_VALUE | R_WILD | R_WSP.
Definition rule_match (r : rule) (s : cstr) : option (cstr * cstr) :=
  match r with
  | R_AND => match_text ($"AND") s
  | R_OR => match_text ($"OR") s
  | R_EQ => match_text ($"=") s
  | R_NEQ => match_text ($"!=") s
  | R_QUOTEDVALUE => match_QUOTEDVALUE s
  | R_VALUE => match_VALUE s
  | R_WILD => match_char STAR s
  | R_WSP => match s with
             | c :: s' => if bool_decide (c ∈ [SP; TAB; NL]) then Some ([c], s') else None
             | [] => None
             end
  end.
Definition lex_rules : list rule := [R_AND; R_OR; R_EQ; R_NEQ; R_QUOTEDVALUE; R_VALUE; R_WILD; R_WSP].

(** the longest match of the rules, the first of several *)
Fixpoint longest (rs : list rule) (s : cstr) : option (rule * cstr * cstr) :=
  match rs with
  | [] => None
  | r :: rs =>
      match rule_match r s, longest rs s with
      | Some (t, rest), Some (r', t', rest') =>
          if (length t <? length t')%nat then Some (r', t', rest') else Some (r, t, rest)
      | Some (t, rest), None => Some (r, t, rest)
      | None, b => b
      end
  end.

Inductive token :=
| T_AND | T_OR | T_EQ | T_NEQ | T_WILD
| T_QUOTEDVALUE (v : cstr) | T_CLASS (v : cstr) | T_ATTR (v : cstr) | T_VALUE (v : cstr).
#[export] Instance token_eq : EqDecision token.
Proof. solve_decision. Defined.

(** ** The lexer *)

(** the names of the global lists of the configuration *)
Definition find_truly_global_attr_by_name (areas : option (list auth_area_struct)) (name : cstr) :
    option attribute_ref_struct :=
  match name with
  | [] => None
  | _ => head (omap (λ aa, schema ← aa_schema aa; find_global_attr_by_name (attribute_ref_list schema) name)
                    (default [] areas))
  end.

Section Lexer.
Context (is_class is_attr : cstr → bool).

(** [bol]: the text is at the start of a line *)
Definition rule_token (bol : bool) (r : rule) (text : cstr) : option token :=
  match r with
  | R_AND => Some T_AND
  | R_OR => Some T_OR
  | R_EQ => Some T_EQ
  | R_NEQ => Some T_NEQ
  | R_QUOTEDVALUE => Some (T_QUOTEDVALUE text)
  | R_VALUE => Some (if bol && is_class text then T_CLASS text
                     else if is_attr text then T_ATTR text else T_VALUE text)
  | R_WILD => Some T_WILD
  | R_WSP => None
  end.

(** a byte that no rule matches is written to the standard output *)
Fixpoint lex (fuel : nat) (bol : bool) (s : cstr) : outcome (list token) :=
  match fuel, s with
  | _, [] => Ret []
  | O, _ => NoFuel
  | S fuel, c :: s' =>
      match longest lex_rules s with
      | None => lex fuel (c =c NL) s'
      | Some (r, text, rest) =>
          ts ← lex fuel (bool_decide (last text = Some NL)) rest;
          Ret (match rule_token bol r text with Some t => t :: ts | None => ts end)
      end
  end.

(** ** The grammar *)

(** the lexer hands out values in buffers of their own *)
Definition yylval (v : cstr) : buf := v ++ [NUL].

Definition parse_value (ts : list token) : option (cstr * list token) :=
  match ts with
  | T_VALUE v :: ts | T_QUOTEDVALUE v :: ts => Some (v, ts)
  | _ => None
  end.
Definition parse_querystr (ts : list token) : option (querystr * list token) :=
  match ts with
  | T_ATTR a :: T_EQ :: ts =>
      '(v, ts) ← parse_value ts; Some (QueryStr (Some a) (yylval v) MKDB_EQ_OP, ts)
  | T_ATTR a :: T_NEQ :: ts =>
      '(v, ts) ← parse_value ts; Some (QueryStr (Some a) (yylval v) MKDB_NOT_EQ_OP, ts)
  | T_ATTR a :: ts => Some (QueryStr None (yylval a) MKDB_EQ_OP, ts)
  | _ => '(v, ts) ← parse_value ts; Some (QueryStr None (yylval v) MKDB_EQ_OP, ts)
  end.

Definition parse_conj (ts : list token) : option (conj * list token) :=
  match ts with T_AND :: ts => Some (AND, ts) | T_OR :: ts => Some (OR, ts) | _ => None end.

(** [None] is a syntax error *)
Fixpoint parse_terms (fuel : nat) (ts : list token) (s : parse_state) : outcome (option parse_state) :=
  match fuel, ts with
  | _, [] => Ret (Some s)
  | O, _ => NoFuel
  | S fuel, _ =>
      match parse_conj ts with
      | None => Ret None
      | Some (k, ts) =>
          match parse_querystr ts with
          | None => Ret None
          | Some (q, ts) =>
              t ← querystr_term q;
              s ← match k with AND => add_and_term (add_term t s) | OR => add_or_term (add_term t s) end;
              parse_terms fuel ts s
          end
      end
  end.

Definition parse_tokens (ts : list token) : outcome (option query_struct) :=
  let '(class_name, ts) := match ts with T_CLASS c :: ts => (Some c, ts) | _ => (None, ts) end in
  match parse_querystr ts with
  | None => Ret None
  | Some (q, ts) =>
      t ← querystr_term q;
      s ← parse_terms (length ts) ts (add_term t (ParseState [] false false None));
      Ret (match s with
           | None => None
           | Some s =>
               let q := Query None None (link_or (rows s)) in
               Some (match class_name with Some _ => set_query class_name None q | None => q end)
           end)
  end.

(** parse_query of parse.y, on the text of the line: the query, [None] after a
    syntax error, which is reported to the client *)
Definition parse_line_query (line : cstr) : outcome (option query_struct) :=
  ts ← lex (length line) true (strupr_s line); parse_tokens ts.
End Lexer.

(** ** The longest match *)

Lemma match_char_split ch s t r : match_char ch s = Some (t, r) → t = [ch] ∧ s = t ++ r.
Proof. destruct s as [|c s]; cbn; [done|]. destruct (c =c ch) eqn:E; [|done]. apply char_eqb_eq in E. by intros [= <- <-]; subst. Qed.
Lemma match_chars_split p s t r : match_chars p s = Some (t, r) → t ≠ [] ∧ s = t ++ r.
Proof.
  unfold match_chars. pose proof (takewhile_dropwhile p s) as E.
  destruct (takewhile p s); [done|]. by intros [= <- <-].
Qed.
Lemma opt_star_split s : s = (opt_star s).1 ++ (opt_star s).2.
Proof. destruct s as [|c s]; [done|]. unfold opt_star. by destruct (c =c STAR). Qed.
Lemma match_text_split t : ∀ s x r, match_text t s = Some (x, r) → x = t ∧ s = t ++ r.
Proof.
  induction t as [|c t IH]; intros s x r; cbn [match_text]; [by intros [= <- <-]|].
  destruct (match_char c s) as [[y s']|] eqn:E; [|done]. apply match_char_split in E as [-> ->].
  cbn. destruct (match_text t s') as [[x' r']|] eqn:E'; [|done]. intros [= <- <-].
  by destruct (IH s' x' r' E') as [-> ->].
Qed.

(** a rule takes a part of the text, and not nothing *)
Lemma rule_match_split r s t rest : rule_match r s = Some (t, rest) → t ≠ [] ∧ s = t ++ rest.
Proof.
  assert (∀ w, w ≠ [] → match_text w s = Some (t, rest) → t ≠ [] ∧ s = t ++ rest) as Hw.
  { intros w Hw E. by apply match_text_split in E as [-> ->]. }
  destruct r; cbn [rule_match]; try (by apply Hw).
  - unfold match_QUOTEDVALUE. pose proof (opt_star_split s) as Ea.
    destruct (opt_star s) as [a s1]. cbn [fst snd] in Ea. cbn [mbind option_bind].
    destruct (match_char QUOTE s1) as [[q s2]|] eqn:Eq; [|done]. apply match_char_split in Eq as [-> ->].
    cbn [mbind option_bind]. pose proof (opt_star_split s2) as Eb. destruct (opt_star s2) as [b s3]. cbn [fst snd] in Eb.
    destruct (match_chars _ s3) as [[body s4]|] eqn:Ec; [|done]. apply match_chars_split in Ec as [_ ->].
    cbn [mbind option_bind]. pose proof (opt_star_split s4) as Ed. destruct (opt_star s4) as [c s5]. cbn [fst snd] in Ed.
    destruct (match_char QUOTE s5) as [[q s6]|] eqn:Eq; [|done]. apply match_char_split in Eq as [-> ->].
    cbn [mbind option_bind]. pose proof (opt_star_split s6) as Ee. destruct (opt_star s6) as [d s7]. cbn [fst snd] in Ee.
    intros [= <- <-]. subst. split; [by destruct a|]. by repeat (rewrite <-app_assoc || cbn [app]).
  - unfold match_VALUE. pose proof (opt_star_split s) as Ea.
    destruct (opt_star s) as [a s1]. cbn [fst snd] in Ea. cbn [mbind option_bind].
    destruct (match_chars _ s1) as [[b s2]|] eqn:Eb; [|done]. apply match_chars_split in Eb as [Hne ->].
    cbn [mbind option_bind]. pose proof (opt_star_split s2) as Ec. destruct (opt_star s2) as [c s3]. cbn [fst snd] in Ec.
    intros [= <- <-]. subst. split; [by destruct a, b|]. by rewrite <-!app_assoc.
  - intros H. by apply match_char_split in H as [-> ->].
  - destruct s as [|c s]; [done|]. case_bool_decide; [|done]. by intros [= <- <-].
Qed.

Lemma longest_split rs s r t rest : longest rs s = Some (r, t, rest) → rule_match r s = Some (t, rest).
Proof.
  revert r t rest. induction rs as [|r' rs IH]; intros r t rest; cbn [longest]; [done|].
  destruct (rule_match r' s) as [[t' rest']|] eqn:E; [|apply IH].
  destruct (longest rs s) as [[[r2 t2] rest2]|]; [|by intros [= <- <- <-]].
  destruct (_ <? _)%nat; [|by intros [= <- <- <-]]. intros H. by apply IH.
Qed.

(** a rule wins when those before it match less and those after it no more *)
Lemma longest_wins rs1 r rs2 s t rest :
  rule_match r s = Some (t, rest) →
  (∀ r' t' rest', r' ∈ rs1 → rule_match r' s = Some (t', rest') → (length t' < length t)%nat) →
  (∀ r' t' rest', r' ∈ rs2 → rule_match r' s = Some (t', rest') → (length t' ≤ length t)%nat) →
  longest (rs1 ++ r :: rs2) s = Some (r, t, rest).
Proof.
  intros Hr H1 H2. induction rs1 as [|r1 rs1 IH]; cbn [app longest].
  - rewrite Hr. destruct (longest rs2 s) as [[[r' t'] rest']|] eqn:E; [|done].
    assert (∀ rs, longest rs s = Some (r', t', rest') → r' ∈ rs) as Hin.
    { clear. induction rs as [|x rs IH]; cbn [longest]; [done|].
      destruct (rule_match x s) as [[a b]|]; destruct (longest rs s) as [[[c d] e]|]; try done.
      - destruct (_ <? _)%nat; intros [= -> -> ->]; [right; auto|left].
      - intros [= -> -> ->]. left.
      - intros [= -> -> ->]. right. auto. }
    pose proof (H2 r' t' rest' (Hin _ E) (longest_split _ _ _ _ _ E)).
    by rewrite (proj2 (Nat.ltb_ge _ _)).
  - rewrite IH by (intros; eapply H1; [by right|done]).
    destruct (rule_match r1 s) as [[t1 rest1]|] eqn:E; [|done].
    rewrite (proj2 (Nat.ltb_lt _ _)); [done|]. eapply H1; [left|done].
Qed.

(** ** The lexer takes all of a line *)

Lemma lex_total is_class is_attr fuel : ∀ bol s,
  (length s ≤ fuel)%nat → returns (λ ts, (length ts ≤ length s)%nat) (lex is_class is_attr fuel bol s).
Proof.
  induction fuel as [|fuel IH]; intros bol s Hs.
  { destruct s; [by apply returns_Ret|cbn in Hs; lia]. }
  destruct s as [|c s']; [by apply returns_Ret|]. cbn [lex].
  destruct (longest lex_rules (c :: s')) as [[[r t] rest]|] eqn:E.
  - apply longest_split, rule_match_split in E as [Hne E]. apply (f_equal length) in E.
    rewrite length_app in E. cbn [length] in *.
    assert (0 < length t)%nat by (destruct t; [done|cbn; lia]).
    eapply returns_bind; [apply IH; lia|]. intros ts Hts. apply returns_Ret.
    cbn beta in *. destruct (rule_token _ _ _ _ _); cbn [length]; lia.
  - apply (returns_impl (λ ts, (length ts ≤ length s')%nat)); [apply IH; cbn in Hs; lia|]. intros ts Hts. cbn. lia.
Qed.

(** ** Printing tokens *)

Definition star_or_none (s : cstr) : Prop := s = [] ∨ s = [STAR].

(** a word: a body of ordinary characters that may have a star at each end *)
Definition word (v : cstr) : Prop :=
  ∃ pre body post, v = pre ++ body ++ post ∧ star_or_none pre ∧ star_or_none post ∧
    Forall (λ c, is_value_char c = true) body ∧ body ≠ [] ∧ head body ≠ Some QUOTE ∧
    v ≠ $"AND" ∧ v ≠ $"OR" ∧ v ≠ $"!".
Definition quoted (v : cstr) : Prop :=
  ∃ body, v = QUOTE :: body ++ [QUOTE] ∧ Forall (λ c, is_quoted_char c = true) body ∧ body ≠ [].

Definition token_text (t : token) : cstr :=
  match t with
  | T_AND => $"AND" | T_OR => $"OR" | T_EQ => $"=" | T_NEQ => $"!=" | T_WILD => $"*"
  | T_QUOTEDVALUE v | T_CLASS v | T_ATTR v | T_VALUE v => v
  end.
Definition token_rule (t : token) : rule :=
  match t with
  | T_AND => R_AND | T_OR => R_OR | T_EQ => R_EQ | T_NEQ => R_NEQ | T_WILD => R_WILD
  | T_QUOTEDVALUE _ => R_QUOTEDVALUE | T_CLASS _ | T_ATTR _ | T_VALUE _ => R_VALUE
  end.
Definition token_shape (t : token) : Prop :=
  match t with
  | T_QUOTEDVALUE v => quoted v
  | T_CLASS v | T_ATTR v | T_VALUE v => word v
  | _ => True
  end.

(** what may follow a token: nothing, a blank or an equals sign; after an
    operator anything *)
Definition stops (rest : cstr) : Prop := rest = [] ∨ head rest = Some SP ∨ head rest = Some (chr 61).
Definition follows (t : token) (rest : cstr) : Prop :=
  t = T_EQ ∨ t = T_NEQ ∨ stops rest.

Lemma stops_head rest (p : ascii → bool) :
  stops rest → p SP = false → p (chr 61) = false → takewhile p rest = [] ∧ dropwhile p rest = rest.
Proof.
  intros [->|H] H1 H2; [done|]. destruct rest as [|c rest]; [by destruct H|].
  cbn in *. assert (p c = false) as -> by (destruct H as [[= ->]|[= ->]]; done). done.
Qed.

Lemma takewhile_app_stop (p : ascii → bool) l k :
  Forall (λ c, p c = true) l → takewhile p k = [] → takewhile p (l ++ k) = l ∧ dropwhile p (l ++ k) = k.
Proof.
  intros Hl Hk. induction Hl as [|c l Hc _ IH]; cbn.
  - split; [done|]. pose proof (takewhile_dropwhile p k) as E. by rewrite Hk in E.
  - rewrite Hc. destruct IH as [-> ->]. done.
Qed.

Lemma value_char_star : is_value_char STAR = false. Proof. done. Qed.

Lemma opt_star_none s : head s ≠ Some STAR → opt_star s = ([], s).
Proof.
  destruct s as [|c s]; [done|]. intros H. unfold opt_star.
  rewrite (proj2 (char_eqb_neq c STAR)); [done|]. by intros ->.
Qed.

Lemma stops_no_star rest : stops rest → head rest ≠ Some STAR.
Proof. by intros [->|[->| ->]]. Qed.

Lemma body_no_star body rest :
  Forall (λ c, is_value_char c = true) body → body ≠ [] → head (body ++ rest) ≠ Some STAR.
Proof. destruct 1 as [|c l Hc]; [done|]. cbn. by intros _ [= ->]. Qed.

Lemma value_matches pre body post rest :
  star_or_none pre → star_or_none post → Forall (λ c, is_value_char c = true) body → body ≠ [] → stops rest →
  match_VALUE ((pre ++ body ++ post) ++ rest) = Some (pre ++ body ++ post, rest).
Proof.
  intros Hpre Hpost Hb Hne Hs. unfold match_VALUE.
  assert (opt_star ((pre ++ body ++ post) ++ rest) = (pre, body ++ post ++ rest)) as ->.
  { rewrite <-!app_assoc. destruct Hpre as [-> | ->]; [|done]. cbn [app].
    apply opt_star_none. by apply body_no_star. }
  unfold match_chars.
  destruct (takewhile_app_stop is_value_char body (post ++ rest)) as [-> ->]; [done| |].
  { destruct Hpost as [-> | ->]; [|done]. by apply stops_head. }
  destruct body as [|c body]; [done|]. cbn [mbind option_bind].
  assert (opt_star (post ++ rest) = (post, rest)) as ->; [|done].
  destruct Hpost as [-> | ->]; [|done]. by apply opt_star_none, stops_no_star.
Qed.

Lemma quoted_matches v rest : quoted v → stops rest → match_QUOTEDVALUE (v ++ rest) = Some (v, rest).
Proof.
  intros (body & -> & Hb & Hne) Hs. unfold match_QUOTEDVALUE.
  rewrite opt_star_none by done. cbn [mbind option_bind].
  assert (match_char QUOTE ((QUOTE :: body ++ [QUOTE]) ++ rest) = Some ([QUOTE], body ++ QUOTE :: rest)) as ->.
  { change ((QUOTE :: body ++ [QUOTE]) ++ rest) with (QUOTE :: ((body ++ [QUOTE]) ++ rest)).
    rewrite <- app_assoc. unfold match_char. by rewrite char_eqb_refl. }
  cbn [mbind option_bind]. rewrite opt_star_none.
  2: { destruct Hb as [|c l Hc]; [done|]. cbn. by intros [= ->]. }
  unfold match_chars. destruct (takewhile_app_stop is_quoted_char body (QUOTE :: rest)) as [-> ->]; [done|done|].
  destruct body as [|c body]; [done|]. cbn [mbind option_bind].
  rewrite opt_star_none by done. cbn [mbind option_bind match_char]. rewrite char_eqb_refl.
  cbn [mbind option_bind]. by rewrite opt_star_none by (by apply stops_no_star).
Qed.

Lemma takewhile_stop_app (p : ascii → bool) v rest :
  takewhile p rest = [] →
  takewhile p (v ++ rest) = takewhile p v ∧ dropwhile p (v ++ rest) = dropwhile p v ++ rest.
Proof.
  intros Hr. induction v as [|c v IH]; simpl.
  - split; [done|]. pose proof (takewhile_dropwhile p rest) as E. by rewrite Hr in E.
  - destruct (p c); [|done]. by destruct IH as [-> ->].
Qed.

(** without stars in it a text gives a value no longer than itself *)
Lemma value_within v rest t r :
  STAR ∉ v → stops rest → match_VALUE (v ++ rest) = Some (t, r) → (length t ≤ length v)%nat.
Proof.
  intros Hv Hs. assert (∀ l, (∀ c, c ∈ l → c ∈ v) → opt_star (l ++ rest) = ([], l ++ rest)) as Hstar.
  { intros l Hl. apply opt_star_none. destruct l as [|c l]; [by apply stops_no_star|].
    intros [= ->]. apply Hv, Hl. left. }
  unfold match_VALUE. rewrite Hstar by done. unfold match_chars.
  destruct (takewhile_stop_app is_value_char v rest) as [E1 E2]; [by apply stops_head|].
  rewrite E1, E2. destruct (takewhile is_value_char v) as [|c b] eqn:Eb; [done|]. cbn [mbind option_bind].
  rewrite Hstar by (intros c' Hc'; by eapply elem_of_dropwhile). intros [= <- _].
  pose proof (takewhile_dropwhile is_value_char v) as E. rewrite Eb in E. apply (f_equal length) in E.
  rewrite length_app in *. rewrite app_nil_r in *. cbn [length] in *. lia.
Qed.

Lemma text_before w v rest x r :
  stops rest → SP ∉ w → chr 61 ∉ w → v ≠ w → match_text w (v ++ rest) = Some (x, r) → (length x < length v)%nat.
Proof.
  intros Hs H1 H2 Hne E. apply match_text_split in E as [-> E].
  destruct (decide (length w < length v)%nat) as [|Hl]; [done|]. exfalso.
  apply (f_equal (take (length w))) in E as E'. rewrite take_app_length in E'.
  assert (w = v ++ take (length w - length v) rest) as Hw by (by rewrite <-E' at 1; rewrite take_app_ge by lia).
  destruct (length w - length v)%nat as [|k] eqn:Ek.
  - rewrite take_0, app_nil_r in Hw. congruence.
  - destruct rest as [|c rest].
    + rewrite take_nil, app_nil_r in Hw. congruence.
    + cbn in Hw. assert (c ∈ w) as Hc by (rewrite Hw; apply elem_of_app; right; left).
      destruct Hs as [|[[= ->]|[= ->]]]; done.
Qed.

Lemma word_chars v c : word v → c ∈ v → c = STAR ∨ is_value_char c = true.
Proof.
  intros (pre & body & post & -> & Hpre & Hpost & Hb & _). rewrite !elem_of_app. rewrite Forall_forall in Hb.
  intros [Hc|[Hc|Hc]]; [|right; auto|]; left.
  - destruct Hpre as [-> | ->]; [by apply elem_of_nil in Hc|by apply list_elem_of_singleton in Hc].
  - destruct Hpost as [-> | ->]; [by apply elem_of_nil in Hc|by apply list_elem_of_singleton in Hc].
Qed.

Lemma word_not_in v c : word v → c ≠ STAR → is_value_char c = false → c ∉ v.
Proof. intros Hv Hs Hf Hc. destruct (word_chars v c Hv Hc); congruence. Qed.

Lemma word_longest v rest : word v → stops rest → longest lex_rules (v ++ rest) = Some (R_VALUE, v, rest).
Proof.
  intros Hv Hs. pose proof (word_not_in v (chr 61) Hv ltac:(done) ltac:(done)) as Heq.
  pose proof Hv as (pre & body & post & Ev & Hpre & Hpost & Hb & Hne & Hq & Hand & Hor & Hbang).
  assert (v ≠ []) as Hv0 by (rewrite Ev; by destruct pre, body).
  apply (longest_wins [R_AND; R_OR; R_EQ; R_NEQ; R_QUOTEDVALUE] R_VALUE [R_WILD; R_WSP]).
  - cbn [rule_match]. rewrite Ev. by apply value_matches.
  - intros r' t' rest' Hr'. rewrite !elem_of_cons, elem_of_nil in Hr'.
    destruct Hr' as [->|[->|[->|[->|[->|[]]]]]]; cbn [rule_match].
    + eapply text_before; [done|apply (bool_decide_unpack _); vm_compute; exact I..|done].
    + eapply text_before; [done|apply (bool_decide_unpack _); vm_compute; exact I..|done].
    + intros E. apply match_text_split in E as [_ E]. destruct v as [|c v]; [done|].
      injection E as -> _. destruct Heq. left.
    + intros E. apply match_text_split in E as [_ E]. destruct v as [|c v]; [done|].
      injection E as -> E. destruct v as [|c v]; [done|]. injection E as -> _. destruct Heq. right. left.
    + intros E. exfalso. revert E. unfold match_QUOTEDVALUE.
      assert (opt_star (v ++ rest) = (pre, body ++ post ++ rest)) as ->.
      { rewrite Ev, <-!app_assoc. destruct Hpre as [-> | ->]; [|done]. cbn [app].
        apply opt_star_none. by apply body_no_star. }
      destruct body as [|c body]; [done|]. cbn [app match_char].
      rewrite (proj2 (char_eqb_neq c QUOTE)); [done|]. intros ->. by apply Hq.
  - intros r' t' rest' Hr'. rewrite !elem_of_cons, elem_of_nil in Hr'.
    destruct v as [|c v]; [done|]. cbn [length].
    destruct Hr' as [->|[->|[]]]; cbn [rule_match app match_char].
    + destruct (c =c STAR); [|done]. intros [= <- _]. cbn. lia.
    + case_bool_decide; [|done]. intros [= <- _]. cbn. lia.
Qed.

Lemma quoted_longest v rest : quoted v → stops rest → longest lex_rules (v ++ rest) = Some (R_QUOTEDVALUE, v, rest).
Proof.
  intros Hv Hs. pose proof Hv as (body & Ev & Hb & Hne).
  apply (longest_wins [R_AND; R_OR; R_EQ; R_NEQ] R_QUOTEDVALUE [R_VALUE; R_WILD; R_WSP]).
  - by apply quoted_matches.
  - intros r' t' rest' Hr'. rewrite !elem_of_cons, elem_of_nil in Hr'.
    destruct Hr' as [->|[->|[->|[->|[]]]]]; cbn [rule_match]; intros E;
      apply match_text_split in E as [_ E]; by rewrite Ev in E.
  - intros r' t' rest' Hr'. rewrite !elem_of_cons, elem_of_nil in Hr'.
    destruct Hr' as [->|[->|[->|[]]]]; cbn [rule_match]; [|by rewrite Ev|by rewrite Ev].
    apply value_within; [|done]. rewrite Ev. intros [?|[Hc|?%list_elem_of_singleton]%elem_of_app]%elem_of_cons; [done| |done].
    rewrite Forall_forall in Hb. by specialize (Hb _ Hc).
Qed.

Lemma plain_value v rest :
  Forall (λ c, is_value_char c = true) v → v ≠ [] → stops rest → match_VALUE (v ++ rest) = Some (v, rest).
Proof.
  intros Hv Hne Hs. pose proof (value_matches [] v [] rest) as E. cbn [app] in E. rewrite app_nil_r in E.
  apply E; [by left|by left|done..].
Qed.

Lemma token_longest t rest :
  token_shape t → follows t rest → longest lex_rules (token_text t ++ rest) = Some (token_rule t, token_text t, rest).
Proof.
  intros Ht Hf. destruct t; cbn [token_shape token_text token_rule] in *;
    try (destruct Hf as [Hf|[Hf|Hs]]; [done..|]); [| | | | |by apply quoted_longest|by apply word_longest..].
  - apply (longest_wins [] R_AND); [done|by intros ??? []%elem_of_nil|].
    intros r' t' rest' Hr' Hm. cbn. rewrite !elem_of_cons, elem_of_nil in Hr'.
    destruct Hr' as [->|[->|[->|[->|[->|[->|[->|[]]]]]]]]; try done.
    cbn [rule_match] in Hm. change 3%nat with (length ($"AND")).
    rewrite (plain_value ($"AND") rest) in Hm by (try done; repeat constructor). by injection Hm as <- _.
  - apply (longest_wins [R_AND] R_OR); [done|by intros ??? ->%list_elem_of_singleton|].
    intros r' t' rest' Hr' Hm. cbn. rewrite !elem_of_cons, elem_of_nil in Hr'.
    destruct Hr' as [->|[->|[->|[->|[->|[->|[]]]]]]]; try done.
    cbn [rule_match] in Hm. change 2%nat with (length ($"OR")).
    rewrite (plain_value ($"OR") rest) in Hm by (try done; repeat constructor). by injection Hm as <- _.
  - done.
  - done.
  - apply (longest_wins [R_AND; R_OR; R_EQ; R_NEQ; R_QUOTEDVALUE; R_VALUE] R_WILD [R_WSP]); [done| |].
    + intros r' t' rest' Hr' Hm. rewrite !elem_of_cons, elem_of_nil in Hr'.
      destruct Hr' as [->|[->|[->|[->|[->|[->|[]]]]]]]; try done; cbn [rule_match app] in Hm.
      * unfold match_QUOTEDVALUE in Hm. change (opt_star ($"*" ++ rest)) with ([STAR], rest) in Hm.
        destruct rest as [|c rest]; [done|]. by destruct Hs as [|[[= ->]|[= ->]]].
      * unfold match_VALUE in Hm. change (opt_star ($"*" ++ rest)) with ([STAR], rest) in Hm.
        unfold match_chars in Hm. cbv beta iota in Hm. destruct (stops_head rest is_value_char Hs) as [E _]; [done..|]. by rewrite E in Hm.
    + by intros r' t' rest' ->%list_elem_of_singleton.
Qed.

(** ** Lexing printed tokens *)

(** tokens with the number of blanks behind each *)
Fixpoint tokens_text (ts : list (token * nat)) : cstr :=
  match ts with [] => [] | (t, k) :: ts => token_text t ++ replicate k SP ++ tokens_text ts end.
Fixpoint spaced (ts : list (token * nat)) : Prop :=
  match ts with
  | [] => True
  | (t, k) :: ts => token_shape t ∧ follows t (replicate k SP ++ tokens_text ts) ∧ spaced ts
  end.

Section LexTokens.
Context (is_class is_attr : cstr → bool).

(** what the look-ups make of a word *)
Definition kind (bol : bool) (t : token) : Prop :=
  match t with
  | T_CLASS v => bol && is_class v = true
  | T_ATTR v => bol && is_class v = false ∧ is_attr v = true
  | T_VALUE v => bol && is_class v = false ∧ is_attr v = false
  | _ => True
  end.
Fixpoint kinds (bol : bool) (ts : list (token * nat)) : Prop :=
  match ts with [] => True | (t, _) :: ts => kind bol t ∧ kinds false ts end.

Lemma token_text_ne t : token_shape t → token_text t ≠ [].
Proof.
  destruct t; cbn; try done.
  - by intros (body & -> & _).
  - intros (pre & body & post & -> & _ & _ & _ & H & _). by destruct pre, body.
  - intros (pre & body & post & -> & _ & _ & _ & H & _). by destruct pre, body.
  - intros (pre & body & post & -> & _ & _ & _ & H & _). by destruct pre, body.
Qed.

Lemma token_text_last t : token_shape t → last (token_text t) ≠ Some NL.
Proof.
  intros Ht Hl. apply last_Some_elem_of in Hl. destruct t; cbn [token_text token_shape] in *;
    try (revert Hl; apply (bool_decide_unpack _); vm_compute; exact I).
  - destruct Ht as (body & -> & Hb & _). rewrite elem_of_cons, elem_of_app, list_elem_of_singleton in Hl.
    destruct Hl as [|[Hl|]]; [done| |done]. rewrite Forall_forall in Hb. by specialize (Hb _ Hl).
  - by apply (word_not_in v NL Ht).
  - by apply (word_not_in v NL Ht).
  - by apply (word_not_in v NL Ht).
Qed.

Lemma lex_blanks k : ∀ fuel bol rest,
  (k + length rest ≤ fuel)%nat → (k = O → bol = false) →
  lex is_class is_attr fuel bol (replicate k SP ++ rest)
  = lex is_class is_attr (fuel - k) false rest.
Proof.
  induction k as [|k IH]; intros fuel bol rest Hf Hb.
  { rewrite Nat.sub_0_r, Hb by done. done. }
  destruct fuel as [|fuel]; [lia|]. cbn [replicate app lex].
  change (longest lex_rules (SP :: replicate k SP ++ rest)) with (Some (R_WSP, [SP], replicate k SP ++ rest)).
  cbn [rule_token]. rewrite IH by (done || lia). cbn [Nat.sub]. by destruct (lex _ _ _ _ _).
Qed.

Lemma lex_tokens ts : ∀ fuel bol,
  (length (tokens_text ts) ≤ fuel)%nat → spaced ts → kinds bol ts →
  lex is_class is_attr fuel bol (tokens_text ts) = Ret (fst <$> ts).
Proof.
  induction ts as [|[t k] ts IH]; intros fuel bol Hf Hs Hk; [by destruct fuel|].
  destruct Hs as (Ht & Hfo & Hs). destruct Hk as [Hk Hks]. cbn [tokens_text] in *.
  pose proof (token_text_ne t Ht) as Hne. destruct (token_text t) as [|c x] eqn:Ex; [done|].
  cbn [app] in Hf |- *. destruct fuel as [|fuel]; [cbn in Hf; lia|]. cbn [lex].
  change (c :: x ++ replicate k SP ++ tokens_text ts) with ((c :: x) ++ replicate k SP ++ tokens_text ts).
  rewrite <-Ex, (token_longest t) by done. rewrite (bool_decide_false (last _ = _)) by (by apply token_text_last).
  cbn [length] in Hf. rewrite !length_app, length_replicate in Hf.
  rewrite lex_blanks by (done || lia). rewrite IH by (done || lia). cbn [mbind outcome_bind].
  rewrite fmap_cons. f_equal. destruct t; cbn [token_rule rule_token token_text kind] in *; try done.
  - by rewrite Hk.
  - by destruct Hk as [-> ->].
  - by destruct Hk as [-> ->].
Qed.
End LexTokens.

(** ** Reading the terms *)

(** a term as it is written: an attribute with an operator and a value, or a
    value alone, which may be the name of an attribute *)
Record term_text := TermText { tt_attr : option cstr; tt_op : mkdb_operator_type; tt_value : token }.
Definition op_token (op : mkdb_operator_type) : token :=
  match op with MKDB_EQ_OP => T_EQ | MKDB_NOT_EQ_OP => T_NEQ end.
Definition term_tokens (t : term_text) : list token :=
  match tt_attr t with Some a => [T_ATTR a; op_token (tt_op t); tt_value t] | None => [tt_value t] end.
Definition term_querystr (t : term_text) : querystr :=
  QueryStr (tt_attr t) (yylval (token_text (tt_value t))) (tt_op t).
Definition proper_term (t : term_text) : Prop :=
  match tt_value t with
  | T_VALUE _ | T_QUOTEDVALUE _ => tt_attr t = None → tt_op t = MKDB_EQ_OP
  | T_ATTR _ => tt_attr t = None ∧ tt_op t = MKDB_EQ_OP
  | _ => False
  end.
Definition conj_token (k : conj) : token := match k with AND => T_AND | OR => T_OR end.
Definition query_tokens (class_name : option cstr) (first : term_text) (rest : list (conj * term_text)) : list token :=
  match class_name with Some c => [T_CLASS c] | None => [] end
  ++ term_tokens first ++ (rest ≫= λ x, conj_token x.1 :: term_tokens x.2).

Lemma parse_querystr_term t ts :
  proper_term t → (ts = [] ∨ is_Some (parse_conj ts)) →
  parse_querystr (term_tokens t ++ ts) = Some (term_querystr t, ts).
Proof.
  destruct t as [[a|] op v]; unfold proper_term, term_tokens, term_querystr; cbn [tt_attr tt_op tt_value].
  - intros Hv _. destruct op, v; try done; by destruct Hv.
  - intros Hv Hts. destruct v; try done; cbn [app parse_querystr parse_value mbind option_bind token_text].
    + by rewrite Hv.
    + destruct Hv as [_ ->]. destruct Hts as [->|[x Hx]]; [done|]. by destruct ts as [|[] ts].
    + by rewrite Hv.
Qed.

Lemma rest_tokens_conj (rest : list (conj * term_text)) :
  let ts := rest ≫= λ x, conj_token x.1 :: term_tokens x.2 in ts = [] ∨ is_Some (parse_conj ts).
Proof. destruct rest as [|[k t] rest]; [by left|right]. destruct k; cbn; by eexists. Qed.

Lemma parse_terms_rest rest : ∀ fuel s,
  Forall (λ x, proper_term x.2) rest →
  let ts := rest ≫= λ x, conj_token x.1 :: term_tokens x.2 in
  (length ts ≤ fuel)%nat →
  parse_terms fuel ts s = (s ← parse_rest (prod_map id term_querystr <$> rest) s; Ret (Some s)).
Proof.
  induction rest as [|[k t] rest IH]; intros fuel s Hp ts Hf; [by destruct fuel|].
  apply Forall_cons in Hp as [Ht Hp]. subst ts. rewrite bind_cons in *. cbn [fst snd app length] in *.
  rewrite length_app in Hf. destruct fuel as [|fuel]; [lia|]. cbn [parse_terms].
  assert (∀ l, parse_conj (conj_token k :: l) = Some (k, l)) as -> by by destruct k.
  rewrite parse_querystr_term by (done || apply rest_tokens_conj).
  rewrite fmap_cons. cbn [prod_map fst snd parse_rest]. unfold id at 1.
  destruct (querystr_term (term_querystr t)) as [o| |]; [|done..]. cbn [mbind outcome_bind].
  destruct k.
  - destruct (add_and_term _); [|done..]. cbn [mbind outcome_bind]. apply IH; [done|lia].
  - destruct (add_or_term _); [|done..]. cbn [mbind outcome_bind]. apply IH; [done|lia].
Qed.

Lemma parse_tokens_query class_name first rest :
  proper_term first → Forall (λ x, proper_term x.2) rest →
  parse_tokens (query_tokens class_name first rest)
  = (q ← Query.parse_query class_name (term_querystr first) (prod_map id term_querystr <$> rest); Ret (Some q)).
Proof.
  intros Hf Hr. unfold parse_tokens, query_tokens.
  set (ts := rest ≫= λ x, conj_token x.1 :: term_tokens x.2).
  assert (∀ cn : option cstr,
    let l := (match cn with Some c => [T_CLASS c] | None => [] end) ++ term_tokens first ++ ts in
    (match l with T_CLASS c :: ts => (Some c, ts) | _ => (None, l) end) = (cn, term_tokens first ++ ts)) as E.
  { intros [cn|]; [done|]. destruct first as [[a|] op v]; [done|]. cbn. unfold proper_term in Hf. cbn in Hf. by destruct v. }
  specialize (E class_name). cbv zeta in E. rewrite E. rewrite parse_querystr_term by (done || apply rest_tokens_conj).
  unfold Query.parse_query. destruct (querystr_term (term_querystr first)); [|done..]. cbn [mbind outcome_bind].
  subst ts. rewrite parse_terms_rest by done.
  destruct (parse_rest _ _); [|done..]. by destruct class_name.
Qed.

(** C37: the text of a query reads as the query.  A line that is made of the
    tokens of an optional class name and of terms joined by AND and OR, with
    blanks between the tokens that need them and in any case, lexes to these
    tokens, each word looked up as a class at the start of the line and as an
    attribute elsewhere, and gives the query that the actions of the grammar
    build of the terms in their order. *)
Theorem query_text_reads is_class is_attr line gaps class_name first rest :
  strupr_s line = tokens_text gaps → spaced gaps → kinds is_class is_attr true gaps →
  fst <$> gaps = query_tokens class_name first rest →
  proper_term first → Forall (λ x, proper_term x.2) rest →
  parse_line_query is_class is_attr line
  = (q ← Query.parse_query class_name (term_querystr first) (prod_map id term_querystr <$> rest); Ret (Some q)).
Proof.
  intros Hl Hs Hk Ht Hf Hr. unfold parse_line_query. rewrite Hl.
  assert (length line = length (tokens_text gaps)) as ->.
  { rewrite <-Hl. unfold strupr_s. by rewrite length_fmap. }
  rewrite lex_tokens by done. cbn [mbind outcome_bind]. rewrite Ht. by apply parse_tokens_query.
Qed.

Definition demo_class_name (s : cstr) : bool := bool_decide (s = $"HOST").
Definition demo_attr_name (s : cstr) : bool := bool_decide (s ∈ [$"NAME"; $"ID"]).
Lemma bool_word v :
  existsb (λ p, existsb (λ q, let b := drop p (take (length v - q) v) in
    bool_decide (take p v = [] ∨ take p v = [STAR]) && bool_decide (drop (length v - q) v = [] ∨ drop (length v - q) v = [STAR])
    && (p + q <=? length v)%nat
    && forallb is_value_char b && negb (bool_decide (b = [])) && negb (bool_decide (head b = Some QUOTE))
    && negb (bool_decide (v ∈ [$"AND"; $"OR"; $"!"]))) [0; 1]%nat) [0; 1]%nat = true → word v.
Proof.
  intros (p & _ & (q & _ & H)%existsb_exists)%existsb_exists. cbv zeta in H.
  repeat (apply andb_true_iff in H as [H ?]).
  repeat match goal with H : negb _ = true |- _ => apply negb_true_iff in H end.
  repeat match goal with
  | H : bool_decide _ = false |- _ => apply bool_decide_eq_false in H
  | H : bool_decide _ = true |- _ => apply bool_decide_eq_true in H
  end.
  exists (take p v), (drop p (take (length v - q) v)), (drop (length v - q) v).
  rewrite !not_elem_of_cons in *. unfold star_or_none. split_and!; try tauto.
  - rewrite app_assoc. rewrite <-(take_drop (length v - q) v) at 1. f_equal.
    rewrite <-(take_drop p (take (length v - q) v)) at 1. f_equal. rewrite take_take. f_equal.
    match goal with H : (_ <=? _)%nat = true |- _ => apply Nat.leb_le in H end. lia.
  - apply Forall_forall. intros c Hc. match goal with H : forallb _ _ = true |- _ => rewrite forallb_forall in H; apply H end.
    by apply list_elem_of_In.
Qed.

(** host Name=foo AND id != *x* OR bar, with the class host, the attributes
    name and id *)
Definition demo_gaps : list (token * nat) :=
  [(T_CLASS ($"HOST"), 1); (T_ATTR ($"NAME"), 0); (T_EQ, 0); (T_VALUE ($"FOO"), 1); (T_AND, 1);
   (T_ATTR ($"ID"), 1); (T_NEQ, 1); (T_VALUE ($"*X*"), 1); (T_OR, 2); (T_VALUE ($"BAR"), 0)]%nat.
Definition demo_first : term_text := TermText (Some $"NAME") MKDB_EQ_OP (T_VALUE ($"FOO")).
Definition demo_rest : list (conj * term_text) :=
  [(AND, TermText (Some $"ID") MKDB_NOT_EQ_OP (T_VALUE ($"*X*")));
   (OR, TermText None MKDB_EQ_OP (T_VALUE ($"BAR")))].

Lemma query_text_reads_witness :
  parse_line_query demo_class_name demo_attr_name ($"host Name=foo AND id != *x* or  bar")
  = (q ← Query.parse_query (Some $"HOST") (term_querystr demo_first) (prod_map id term_querystr <$> demo_rest);
     Ret (Some q)).
Proof.
  apply (query_text_reads _ _ _ demo_gaps (Some $"HOST") demo_first demo_rest).
  - vm_compute. reflexivity.
  - repeat (split; [first [exact I | apply bool_word; vm_compute; reflexivity]|
      split; [first [by left | by right; left | right; right; right; left; reflexivity
                    | right; right; right; right; reflexivity | right; right; left; reflexivity]|]]).
    exact I.
  - vm_compute. repeat split; reflexivity.
  - reflexivity.
  - done.
  - repeat constructor; done.
Defined.

(** An operator != that follows its attribute without a blank is not seen:
    the value pattern takes the exclamation mark, and the line is refused. *)
Theorem not_equal_needs_blank is_class is_attr a v :
  word (a ++ [chr 33]) → word v → kind is_class is_attr true (T_VALUE (a ++ [chr 33])) →
  lex is_class is_attr (length (a ++ $"!=" ++ v)) true (a ++ $"!=" ++ v)
  = Ret [T_VALUE (a ++ [chr 33]); T_EQ; if is_attr v then T_ATTR v else T_VALUE v].
Proof.
  intros Ha Hv Hk.
  set (t := if is_attr v then T_ATTR v else T_VALUE v).
  assert (token_text t = v) as Ht by (subst t; by destruct (is_attr v)).
  assert (a ++ $"!=" ++ v = tokens_text [(T_VALUE (a ++ [chr 33]), O); (T_EQ, O); (t, O)]) as ->.
  { cbn [tokens_text token_text replicate app]. by rewrite Ht, app_nil_r, <-app_assoc. }
  rewrite lex_tokens; [done|done| |].
  - cbn [spaced tokens_text replicate app]. split_and!; try done.
    + right. right. right. right. done.
    + by left.
    + subst t. by destruct (is_attr v).
    + right. right. by left.
  - cbn [kinds]. split; [done|]. split; [done|]. split; [|done]. subst t. by destruct (is_attr v) eqn:E.
Qed.

(** An attribute name is no value behind an equals sign. *)
Theorem attribute_name_no_value a v rest :
  parse_tokens (T_ATTR a :: T_EQ :: T_ATTR v :: rest) = Ret None.
Proof. done. Qed.
