(* ===== verification/Guardian.v ===== *)
(** * Guardians (server/guardian.c)

    A record may name guardians, records of the class Guardian; so may its
    authority area, and a guardian without guardians of its own guards itself.
    Changing a guarded record takes the credentials of one of them, which the
    client has given with the security directive.  Guardians are looked up by a
    search of the database, which is an argument here, as crypt is. *)

From S2P Require Import Prelude CLib CString Misc DlList IpNetwork Types Stdio ValidateRec Records.
From S2P Require Import Search Query QueryText FileInfo.
Local Open Scope Z_scope.

(** the search that the server runs: a query and a limit; the number of hits,
    the return code and the hit list *)
Definition database := query_struct → Z → outcome (Z * ret_code_type * option (list record_struct)).

(** the credentials of a session; the strings may be null *)
Record auth_struct := AuthStruct {
  auth_mode : option cstr; auth_scheme : option cstr; auth_info : option cstr; auth_type : option cstr }.

Definition looks_like_id (id : cstr) : bool := bool_decide (id ≠ []) && bool_decide (chr 46 ∈ id).
Definition is_guardian_record (rec : record_struct) : bool := STR_EQ (class_name (rec_class rec)) ($"Guardian").
(** the names of the cleartext scheme *)
Definition is_pw (scheme : cstr) : bool :=
  STR_EQ scheme ($"pw") || STR_EQ scheme ($"passwd") || STR_EQ scheme ($"password").

Section Guardian.
Context (search : database) (is_class is_attr : cstr → bool) (crypt : cstr → cstr → option cstr).

(** the query is printed to an array of MAX_LINE bytes *)
Definition build_guardian_query (id : cstr) : outcome (option query_struct) :=
  let query_str := if looks_like_id id then $"ID=" ++ id else id in
  if decide (length query_str < MAX_LINE)%nat then parse_line_query is_class is_attr query_str else Fault.

Definition check_credentials (guard : record_struct) (request : option auth_struct) : outcome bool :=
  match request with
  | None => Ret false
  | Some request =>
      id ← find_attr_in_record_by_name (Some guard) (Some $"ID");
      match id with
      | None => Ret false
      | Some _ =>
          av ← find_attr_in_record_by_name (Some guard) (Some $"Guard-Scheme");
          match av with
          | None => Ret false
          | Some av =>
              v ← of_option (av_value av);
              let guard_scheme := if is_pw v then $"pw" else v in
              scheme ← of_option (auth_scheme request);
              if negb (STR_EQ scheme guard_scheme) then Ret false
              else
                av ← find_attr_in_record_by_name (Some guard) (Some $"Guard-Info");
                match av with
                | None => Ret false
                | Some av =>
                    if STR_EQ scheme ($"pw") then
                      info ← of_option (auth_info request); guard_info ← of_option (av_value av);
                      Ret (bool_decide (info = guard_info))
                    else if STR_EQ scheme ($"crypt-pw") then
                      info ← of_option (auth_info request); guard_info ← of_option (av_value av);
                      h ← of_option (crypt info guard_info);
                      Ret (bool_decide (guard_info = h))
                    else Ret false
                end
          end
      end
  end.

Definition lookup_guardian_record (guard_id : option cstr) : outcome (option record_struct) :=
  match guard_id with
  | Some ((_ :: _) as id) =>
      query ← build_guardian_query id;
      match query with
      | None => Ret None
      | Some query =>
          '(_, ret_code, new_rec_list) ← search query 2;
          if negb (bool_decide (ret_code = SEARCH_SUCCESSFUL)) then Ret None
          else match new_rec_list with
               | Some (guard :: _) => Ret (Some (copy_record guard))
               | _ => Ret None
               end
      end
  | _ => Ret None
  end.

Definition is_record_guarded (rec : record_struct) : outcome bool :=
  if bool_decide (av_pair_list rec = []) then Ret false
  else if is_guardian_record rec then Ret true
  else if bool_decide (guardian_list (rec_auth_area rec) ≠ None) then Ret true
  else
    av ← find_attr_in_record_by_name (Some rec) (Some $"Guardian");
    Ret (bool_decide (av ≠ None)).

(** get_rwhois_secure_mode() and get_request_auth_struct() *)
Context (secure_mode : bool) (request : option auth_struct).

Definition malformed_request : bool :=
  match request with
  | None => true
  | Some r => bool_decide (auth_mode r = None) || bool_decide (auth_scheme r = None)
              || bool_decide (auth_info r = None) || bool_decide (auth_type r = None)
  end.

(** A loop over the names of guardians: what it returns from within, if it
    does, and whether it has found a guardian. *)
Fixpoint check_guards (ids : list (option cstr)) (found : bool) : outcome (option bool * bool) :=
  match ids with
  | [] => Ret (None, found)
  | guard_id :: ids =>
      guard ← lookup_guardian_record guard_id;
      match guard with
      | None => check_guards ids found
      | Some guard =>
          if negb secure_mode then Ret (Some false, true)
          else
            status ← check_credentials guard request;
            if status : bool then Ret (Some true, true) else check_guards ids true
      end
  end.

(** the values of the Guardian attributes, in their order *)
Definition guardian_attrs (rec : record_struct) : list (option cstr) :=
  omap (λ av, if STR_EQ (attr_name (av_attr av)) ($"Guardian") then Some (av_value av) else None) (av_pair_list rec).

Definition check_guardian (rec : record_struct) : outcome bool :=
  if bool_decide (av_pair_list rec = []) then Ret false
  else if secure_mode && malformed_request then Ret false
  else
    guarded ← is_record_guarded rec;
    if negb guarded then Ret true
    else
      '(r, found_guard_attr) ← check_guards (guardian_attrs rec) false;
      match r with
      | Some r => Ret r
      | None =>
          '(r, _) ← check_guards (Some <$> default [] (guardian_list (rec_auth_area rec))) false;
          match r with
          | Some r => Ret r
          | None =>
              if negb found_guard_attr && STR_EQ (class_name (rec_class rec)) ($"Guardian") then
                if negb secure_mode then Ret false
                else
                  status ← check_credentials rec request;
                  Ret (if status : bool then true else false)
              else Ret false
          end
      end.

(** ** transform_guardian_record *)

(** the first pair with this attribute gets the value [v] *)
Fixpoint set_value (name : cstr) (v : option cstr) (avs : list av_pair_struct) : list av_pair_struct :=
  match avs with
  | [] => []
  | av :: avs => if STR_EQ (attr_name (av_attr av)) name then AvPair (av_attr av) v :: avs
                 else av :: set_value name v avs
  end.

(** [salt]: what generate_salt gives *)
Definition transform_guardian_record (salt : cstr) (rec : record_struct) : outcome (bool * record_struct) :=
  if negb (is_guardian_record rec) then Ret (true, rec)
  else
    av ← find_attr_in_record_by_name (Some rec) (Some $"Guard-Scheme");
    match av with
    | None => Ret (false, rec)
    | Some av =>
        let is_clear := match av_value av with Some ((_ :: _) as s) => is_pw s | _ => false end in
        let rec := if is_clear
                   then with_av_pairs (set_value ($"Guard-Scheme") (Some $"pw") (av_pair_list rec)) rec
                   else rec in
        let scheme := if is_clear then Some $"pw" else av_value av in
        av ← find_attr_in_record_by_name (Some rec) (Some $"Guard-Info");
        match av with
        | None => Ret (false, rec)
        | Some av =>
            match av_value av, scheme with
            | Some ((_ :: _) as info), Some ((_ :: _) as s) =>
                if STR_EQ s ($"crypt-pw")
                then Ret (true, with_av_pairs (set_value ($"Guard-Info") (crypt info salt) (av_pair_list rec)) rec)
                else Ret (true, rec)
            | _, _ => Ret (true, rec)
            end
        end
    end.
End Guardian.

(** ** The first pair of a name *)

Lemma find_set_same name v avs :
  find_first (λ av, STR_EQ (attr_name (av_attr av)) name) (set_value name v avs)
  = (λ av, AvPair (av_attr av) v) <$> find_first (λ av, STR_EQ (attr_name (av_attr av)) name) avs.
Proof.
  induction avs as [|av avs IH]; cbn [set_value find_first]; [done|].
  destruct (STR_EQ (attr_name (av_attr av)) name) eqn:E; cbn [find_first av_attr]; by rewrite E.
Qed.

Lemma find_set_other name name' v avs :
  STR_EQ name name' = false →
  find_first (λ av, STR_EQ (attr_name (av_attr av)) name') (set_value name v avs)
  = find_first (λ av, STR_EQ (attr_name (av_attr av)) name') avs.
Proof.
  intros Hn. induction avs as [|av avs IH]; cbn [set_value find_first]; [done|].
  destruct (STR_EQ (attr_name (av_attr av)) name) eqn:E; cbn [find_first av_attr].
  - by rewrite <- (STR_EQ_trans _ _ name' E), Hn.
  - by rewrite IH.
Qed.

Lemma find_attr_first rec name :
  name ≠ [] → find_attr_in_record_by_name (Some rec) (Some name)
              = Ret (find_first (λ av, STR_EQ (attr_name (av_attr av)) name) (av_pair_list rec)).
Proof. by destruct name. Qed.
Lemma find_attr_inv rec name o :
  name ≠ [] → find_attr_in_record_by_name (Some rec) (Some name) = Ret o →
  find_first (λ av, STR_EQ (attr_name (av_attr av)) name) (av_pair_list rec) = o.
Proof. destruct name; [done|]. by intros _ [= ->]. Qed.

Lemma guardian_attrs_named rec :
  find_first (λ av, STR_EQ (attr_name (av_attr av)) ($"Guardian")) (av_pair_list rec) ≠ None ↔ guardian_attrs rec ≠ [].
Proof.
  unfold guardian_attrs. induction (av_pair_list rec) as [|av avs IH]; cbn [find_first omap list_omap]; [done|].
  by destruct (STR_EQ _ _).
Qed.

(** ** Who may change a record *)

Section GuardianSpec.
Context (search : database) (is_class is_attr : cstr → bool) (crypt : cstr → cstr → option cstr).
Context (secure_mode : bool) (request : option auth_struct).
(** what the look-ups find and which credentials match *)
Context (lk : option cstr → option record_struct) (cr : record_struct → bool).

Abbreviation lookup := (lookup_guardian_record search is_class is_attr).
Abbreviation check_guards := (Guardian.check_guards search is_class is_attr crypt secure_mode request).

(** the records behind the names, stale names left out *)
Definition live : list (option cstr) → list record_struct := omap lk.
Definition area_guardians (rec : record_struct) : list (option cstr) :=
  Some <$> default [] (guardian_list (rec_auth_area rec)).
(** the guardians of a record *)
Definition guards (rec : record_struct) : list record_struct :=
  live (guardian_attrs rec) ++ live (area_guardians rec)
  ++ (if bool_decide (live (guardian_attrs rec) = []) && is_guardian_record rec then [rec] else []).
Definition guarded (rec : record_struct) : bool :=
  is_guardian_record rec || bool_decide (guardian_list (rec_auth_area rec) ≠ None)
  || bool_decide (guardian_attrs rec ≠ []).

Definition looked_up (ids : list (option cstr)) : Prop :=
  Forall (λ id, lookup id = Ret (lk id)) ids.
Definition checked (recs : list record_struct) : Prop :=
  secure_mode = true → Forall (λ g, check_credentials crypt g request = Ret (cr g)) recs.

Lemma check_guards_spec ids found :
  looked_up ids → checked (live ids) →
  check_guards ids found = Ret (
    if secure_mode && existsb cr (live ids) then (Some true, true)
    else if secure_mode then (None, found || bool_decide (live ids ≠ []))
    else if bool_decide (live ids = []) then (None, found) else (Some false, true)).
Proof.
  intros Hl Hc. revert found. unfold live in *.
  induction Hl as [|id ids Hid Hl IH]; intros found; cbn [Guardian.check_guards omap list_omap existsb].
  { rewrite andb_false_r, bool_decide_false, orb_false_r by auto. by destruct secure_mode. }
  rewrite Hid. cbn [mbind outcome_bind]. cbn [omap list_omap] in Hc.
  destruct (lk id) as [g|]; [|by apply IH]. unfold checked in *.
  destruct secure_mode; cbn [negb andb]; [|by rewrite bool_decide_false].
  destruct (Forall_cons_1 _ _ _ (Hc eq_refl)) as [Hg Hgs].
  rewrite Hg. cbn [mbind outcome_bind existsb]. destruct (cr g); [done|]. cbn [orb].
  rewrite IH by done. rewrite (bool_decide_true (_ :: _ ≠ _)), orb_true_r by done. done.
Qed.

Lemma is_record_guarded_spec rec :
  av_pair_list rec ≠ [] → is_record_guarded rec = Ret (guarded rec).
Proof.
  intros Hp. unfold is_record_guarded, guarded. rewrite bool_decide_false by done.
  destruct (is_guardian_record rec); [done|]. destruct (bool_decide (guardian_list _ ≠ None)); [done|]. cbn [orb].
  rewrite find_attr_first by done. cbn [mbind outcome_bind]. f_equal. apply bool_decide_ext, guardian_attrs_named.
Qed.

(** C8: who may change a record.  When the look-ups and the checks of
    credentials do not fault, check_guardian accepts a record exactly if it has
    attributes, the security data of a secure session are complete, and either
    nothing guards the record or the session is secure and its credentials are
    those of one of the guardians: the live guardians that the record names,
    those of its authority area and, for a guardian that names no live one,
    the record itself.  A name that no longer resolves guards nothing, but a
    record whose names are all stale cannot be changed. *)
Theorem check_guardian_correct rec :
  looked_up (guardian_attrs rec) → looked_up (area_guardians rec) → checked (guards rec) →
  check_guardian search is_class is_attr crypt secure_mode request rec = Ret (
    bool_decide (av_pair_list rec ≠ []) && negb (secure_mode && malformed_request request)
    && (negb (guarded rec) || (secure_mode && existsb cr (guards rec)))).
Proof.
  intros Ha Hb Hc. unfold check_guardian, guards in *.
  destruct (decide (av_pair_list rec = [])) as [Hp|Hp]; [by rewrite Hp|].
  rewrite bool_decide_false, (bool_decide_true (_ ≠ _)) by done. cbn [andb].
  destruct (secure_mode && malformed_request request); [done|].
  rewrite is_record_guarded_spec by done. cbn [mbind outcome_bind negb andb].
  destruct (guarded rec); [|done]. cbn [negb orb].
  assert (checked (live (guardian_attrs rec))) as H1 by (intros E; apply Hc in E; by apply Forall_app in E as [? _]).
  assert (checked (live (area_guardians rec))) as H2
    by (intros E; apply Hc in E; by do 2 apply Forall_app in E as [? E]).
  fold (area_guardians rec). rewrite !check_guards_spec, !existsb_app by done.
  unfold checked in Hc. destruct secure_mode; cbn [andb].
  - specialize (Hc eq_refl). destruct (existsb cr (live (guardian_attrs rec))); [done|]. cbn [mbind outcome_bind orb].
    destruct (existsb cr (live (area_guardians rec))); [done|].
    cbn [mbind outcome_bind orb andb]. rewrite bool_decide_not, negb_involutive.
    fold (is_guardian_record rec). destruct (_ && is_guardian_record rec) eqn:E; [|done].
    do 2 apply Forall_app in Hc as [_ Hc]. apply Forall_cons in Hc as [-> _]. cbn. by destruct (cr rec).
  - destruct (bool_decide (live (guardian_attrs rec) = [])); [|done]. cbn [mbind outcome_bind].
    destruct (bool_decide _); [|done]. cbn [mbind outcome_bind negb andb]. by destruct (STR_EQ _ _).
Qed.
End GuardianSpec.

(** A registered guardian accepts its password.  transform_guardian_record
    gives the scheme its plain name and encrypts the password of the scheme
    crypt-pw; the record it leaves accepts the credentials with that scheme and
    the password as it was registered, provided that crypt with the encrypted
    password as its salt gives the encrypted password again. *)
Theorem registered_guardian_accepts crypt salt rec id av_s av_i s pw :
  is_guardian_record rec = true →
  find_attr_in_record_by_name (Some rec) (Some $"ID") = Ret (Some id) →
  find_attr_in_record_by_name (Some rec) (Some $"Guard-Scheme") = Ret (Some av_s) → av_value av_s = Some s →
  find_attr_in_record_by_name (Some rec) (Some $"Guard-Info") = Ret (Some av_i) → av_value av_i = Some pw →
  pw ≠ [] → is_pw s || STR_EQ s ($"crypt-pw") = true →
  (∃ h, crypt pw salt = Some h ∧ crypt pw h = Some h) →
  ∃ rec', transform_guardian_record crypt salt rec = Ret (true, rec') ∧
  ∀ scheme mode typ, STR_EQ scheme (if is_pw s then $"pw" else s) = true →
    check_credentials crypt rec' (Some (AuthStruct mode (Some scheme) (Some pw) typ)) = Ret true.
Proof.
  intros Hg Hid Hs Vs Hi Vi Hpw Hsch (h & Hh & Hhh).
  apply find_attr_inv in Hid, Hs, Hi; [|done..].
  assert (s ≠ []) as Hs0 by (by intros ->).
  unfold transform_guardian_record. rewrite Hg. cbn [negb].
  rewrite find_attr_first, Hs by done. cbn [mbind outcome_bind]. rewrite Vs.
  destruct s as [|s0 s]; [done|]. destruct pw as [|p0 pw]; [done|].
  destruct (is_pw (s0 :: s)) eqn:Epw; cbn [orb] in Hsch;
    rewrite find_attr_first by done; cbn [av_pair_list with_av_pairs].
  - rewrite find_set_other, Hi by done. cbn [mbind outcome_bind]. rewrite Vi.
    eexists. split; [reflexivity|]. intros scheme mode typ Hsc.
    unfold check_credentials. rewrite !find_attr_first by done. cbn [av_pair_list with_av_pairs].
    rewrite (find_set_other _ ($"ID")), Hid by done. cbn [mbind outcome_bind].
    rewrite find_set_same, Hs. cbn [mbind outcome_bind fmap option_fmap option_map av_value of_option auth_scheme].
    change (is_pw ($"pw")) with true. cbn iota. rewrite Hsc. cbn [negb].
    rewrite find_set_other, Hi by done. cbn [mbind outcome_bind auth_info of_option]. rewrite Vi.
    cbn [mbind outcome_bind of_option]. by rewrite bool_decide_true.
  - rewrite Hi. cbn [mbind outcome_bind]. rewrite Vi, Hsch, Hh.
    eexists. split; [reflexivity|]. intros scheme mode typ Hsc.
    unfold check_credentials. rewrite !find_attr_first by done. cbn [av_pair_list with_av_pairs].
    rewrite (find_set_other _ ($"ID")), (find_set_other _ ($"Guard-Scheme")), Hid, Hs by done. cbn [mbind outcome_bind of_option auth_scheme]. rewrite Vs.
    cbn [mbind outcome_bind of_option]. rewrite Epw, Hsc. cbn [negb].
    rewrite find_set_same, Hi. cbn [mbind outcome_bind fmap option_fmap option_map av_value of_option auth_info].
    rewrite <- !(STR_EQ_trans _ _ _ Hsc).
    assert (STR_EQ (s0 :: s) ($"pw") = false) as -> by (by apply orb_false_iff in Epw as [[? ?]%orb_false_iff ?]).
    rewrite Hsch. cbn [mbind outcome_bind of_option]. rewrite Hhh.
    cbn [mbind outcome_bind of_option]. by rewrite bool_decide_true.
Qed.

(** ** Runs on two guardians *)

Definition guard_attr (id : Z) (name : string) : attribute_struct :=
  Attribute id id false false true false false false [] ($name) None INDEX_NONE TYPE_TEXT None.
Definition guardian_class : class_struct := Class_ 0 ($"Guardian") [] ($"db") None [] None None None.
Definition demo_pair (id : Z) (name v : string) : av_pair_struct := AvPair (guard_attr id name) (Some $v).
Definition demo_guardian (name scheme info : string) : record_struct :=
  Record_ guardian_class (AuthArea ($"a.com") None AUTH_AREA_PRIMARY None no_soa None None None None 0 None None) 0 0 0
    [demo_pair 0 "ID" name; demo_pair 3 "Guard-Scheme" scheme; demo_pair 4 "Guard-Info" info].
(** a record with a stale guardian and a live one *)
Definition demo_guarded : record_struct :=
  Record_ (Class_ 1 ($"host") [] ($"db") None [] None None None) (AuthArea ($"a.com") None AUTH_AREA_PRIMARY (Some [$"g2"]) no_soa None None None None 0 None None) 0 0 0
    [demo_pair 0 "ID" "h1"; demo_pair 5 "Guardian" "gone"; demo_pair 5 "Guardian" "g1"].
Definition demo_database : database := λ query _,
  Ret (1, SEARCH_SUCCESSFUL, Some (match query_tree query with
    | Some t => if bool_decide (search_value t = $"G1") then [demo_guardian "g1" "pw" "sesame"]
                else if bool_decide (search_value t = $"G2") then [demo_guardian "g2" "passwd" "open"] else []
    | None => [] end)).
Definition demo_lk (id : option cstr) : option record_struct :=
  match lookup_guardian_record demo_database (λ _, false) (λ _, false) id with Ret r => r | _ => None end.
Definition demo_request : auth_struct := AuthStruct (Some $"on") (Some $"pw") (Some $"open") (Some $"0").

Ltac decided := unfold looked_up; apply (bool_decide_unpack _); vm_compute.
Lemma check_guardian_correct_witness :
  check_guardian demo_database (λ _, false) (λ _, false) (λ _ _, None) true (Some demo_request) demo_guarded = Ret true
  ∧ check_guardian demo_database (λ _, false) (λ _, false) (λ _ _, None) false (Some demo_request) demo_guarded = Ret false.
Proof.
  split.
  - rewrite (check_guardian_correct demo_database (λ _, false) (λ _, false) (λ _ _, None) true (Some demo_request)
      demo_lk (λ g, bool_decide (g = demo_guardian "g2" "passwd" "open")) demo_guarded);
      [vm_compute; reflexivity| | |intros _]; by decided.
  - rewrite (check_guardian_correct demo_database (λ _, false) (λ _, false) (λ _ _, None) false (Some demo_request)
      demo_lk (λ _, false) demo_guarded); [vm_compute; reflexivity| | |done]; by decided.
Defined.

Lemma registered_guardian_accepts_witness :
  ∃ rec', transform_guardian_record (λ _ _, Some $"abXYZ") ($"ab") (demo_guardian "g1" "crypt-pw" "sesame") = Ret (true, rec')
  ∧ check_credentials (λ _ _, Some $"abXYZ") rec'
      (Some (AuthStruct None (Some $"CRYPT-PW") (Some $"sesame") None)) = Ret true.
Proof.
  destruct (registered_guardian_accepts (λ _ _, Some $"abXYZ") ($"ab") (demo_guardian "g1" "crypt-pw" "sesame")
    (demo_pair 0 "ID" "g1") (demo_pair 3 "Guard-Scheme" "crypt-pw") (demo_pair 4 "Guard-Info" "sesame")
    ($"crypt-pw") ($"sesame")) as (rec' & Ht & Hc); [reflexivity..|done|reflexivity|eexists; split; reflexivity|].
  exists rec'. split; [done|]. by apply Hc.
Defined.
