(* ===== verification/Referral.v ===== *)
(** * Referrals (server/referral.c)

    What the server answers to a query that it does not hold itself: the
    servers of the authority areas below, which are records of the class
    Referral, or those of the root, which a file names.  A search value is a
    network or a domain; the database is asked for a referral record of the
    value itself, then of what is above it, as long as that is inside of the
    authority area. *)

From stdpp Require Import relations.
From S2P Require Import Regexp RegexpSyntax RegexpMatch.
From S2P Require Import Prelude CLib CString Misc DlList IpNetwork Types ClientMsgs Stdio ValidateRec Records.
From S2P Require Import FilePath ConfigFile AuthArea RefLists Search Query QueryText Guardian.
Local Open Scope Z_scope.

Definition DOMAIN_REGEXP : cstr := $"^(([.]?[a-zA-Z0-9-]+)+|.+([.][a-zA-Z0-9-]+)*[.][a-zA-Z]+)$|^[.]$".
Definition EMAIL_REGEXP : cstr := $"^(.+@[a-zA-Z0-9-]+([.][a-zA-Z0-9-]+)*[.][a-zA-Z]+)$".

Inductive hierarchy_type := NETWORK | DOMAIN.
#[export] Instance hierarchy_type_eq : EqDecision hierarchy_type.
Proof. solve_decision. Defined.
Inductive referral_type := UP_HIERARCHICAL | DOWN_HIERARCHICAL | NON_HIERARCHICAL.
(** the strings may be null *)
Record referral_struct := ReferralTo { to : option cstr; ref_aa_name : option cstr; ref_type : referral_type }.

(** ** Values of a hierarchy *)

Definition is_net (str : cstr) : bool := match str with [] => false | _ => bool_decide (is_Some (strchr str SLASH)) end.
Definition is_domain (str : cstr) : bool :=
  match str with
  | [] => false
  | _ => bool_decide (is_Some (strchr str DOT)) || bool_decide (is_Some (strSTR (Some ($"EDU GOV COM NET ORG")) (Some str)))
         || is_country_code str
  end.

(** the part of a string behind the last of a character *)
Definition behind (ch : ascii) (s : cstr) : cstr := match strrchr s ch with Some p => drop (S p) s | None => s end.
(** strcpy to an array of MAX_LINE bytes *)
Definition copy_line (s : cstr) : outcome cstr := if decide (length s < MAX_LINE)%nat then Ret s else Fault.

Definition hierarchical_value_domain (value : cstr) : outcome (option cstr) :=
  match value with
  | [] => Ret None
  | _ =>
      let p := behind DOT value in
      if negb ((length p =? 3)%nat && bool_decide (is_Some (strSTR (Some ($"EDU GOV COM NET ORG MIL INT")) (Some p))))
         && negb (length p =? 2)%nat
      then Ret None
      else v ← copy_line (behind (chr 64) value); Ret (Some v)
  end.

Section Networks.
(** the struct on the stack, not initialised *)
Context (ni0 : netinfo).

Definition hierarchical_value_network (value : cstr) : outcome (option cstr) :=
  match value with
  | [] => Ret None
  | _ =>
      match get_network_prefix_and_len (Some value) ni0 with
      | None => Ret None
      | Some value_info =>
          r ← write_network (Some (replicate MAX_LINE NUL)) value_info;
          Ret (option_map (λ b, string_at b 0) r.2)
      end
  end.

(** the type of the value and the value; [None] if it is neither *)
Definition parse_hierarchical_value (value : cstr) : outcome (option (hierarchy_type * cstr)) :=
  let with_type t v := v ← v; Ret (option_map (pair t) v) in
  match value with
  | [] => Ret None
  | _ =>
      if re_match NETWORK_REGEXP value then with_type NETWORK (hierarchical_value_network value)
      else if re_match DOMAIN_REGEXP value then with_type DOMAIN (hierarchical_value_domain value)
      else if re_match EMAIL_REGEXP value then with_type DOMAIN (hierarchical_value_domain value)
      else Ret None
  end.

Definition within_domain (subdomain domain : cstr) : bool :=
  match subdomain, domain with
  | [], _ | _, [] => false
  | _, _ =>
      re_match DOMAIN_REGEXP domain
      && (STRN_EQ (reverse subdomain) (reverse domain) (length domain) || STR_EQ (reverse domain) [DOT])
  end.
Definition within_network (subnetwork network : cstr) : bool :=
  match subnetwork, network with
  | [], _ | _, [] => false
  | _, _ =>
      re_match NETWORK_REGEXP network
      && match get_network_prefix_and_len (Some subnetwork) ni0, get_network_prefix_and_len (Some network) ni0 with
         | Some subnetwork_info, Some network_info =>
             compare_addr (mask_addr_to_len subnetwork_info (masklen network_info)) network_info =? 0
         | _, _ => false
         end
  end.
Definition hierarchical_value_within_aa (hvalue : cstr) (htype : hierarchy_type) (aa_name : cstr) : bool :=
  match hvalue, aa_name with
  | [], _ | _, [] => false
  | _, _ => match htype with NETWORK => within_network hvalue aa_name | DOMAIN => within_domain hvalue aa_name end
  end.

(** the leftmost label goes, in place *)
Definition reduce_domain (domain : buf) : outcome (bool * buf) :=
  match string_at domain 0 with
  | [] => Ret (false, domain)
  | _ =>
      b ← strrev (Some domain);
      b ← of_option b;
      '(rval, b) ← (match strrchr (string_at b 0) DOT with Some p => b ← wr b p NUL; Ret (true, b) | None => Ret (false, b) end);
      b ← strrev (Some b);
      b ← of_option b;
      Ret (rval, b)
  end.
(** one bit less, to the buffer that held the longer prefix *)
Definition reduce_network (network : buf) : outcome (bool * buf) :=
  match string_at network 0 with
  | [] => Ret (false, network)
  | s =>
      match get_network_prefix_and_len (Some s) ni0 with
      | None => Ret (false, network)
      | Some ni =>
          let ni := NetInfo (af ni) (masklen ni - 1) (prefix ni) in
          r ← write_network (Some network) (mask_addr_to_len ni (masklen ni));
          b ← of_option r.2;
          Ret (true, b)
      end
  end.
Definition reduce (htype : hierarchy_type) (hvalue : buf) : outcome (bool * buf) :=
  match htype with NETWORK => reduce_network hvalue | DOMAIN => reduce_domain hvalue end.

(** ** Looking for referrals *)

(** the search of the server, the lexer's names, the global lists, the punt
    file and whether this is a root server *)
Context (search : database) (is_class is_attr : cstr → bool).
Context (class_refs : list class_ref_struct) (areas : option (list auth_area_struct)).
Context (fs : filesystem) (punt_file : cstr) (is_root_server : bool).

(** the query text is printed to an array of MAX_LINE bytes; a syntax error is
    printed to the client *)
Definition build_referral_query (search_value aa_name : cstr) : outcome (option query_struct * list message) :=
  match search_value with
  | [] => Ret (None, [])
  | _ =>
      query_str ← copy_line ($"referral Referred-Auth-Area=" ++ search_value);
      query ← parse_line_query is_class is_attr query_str;
      Ret match query with
          | None => (None, [print_error INVALID_QUERY_SYNTAX []])
          | Some q => (Some (match aa_name with [] => q | _ => Query (q_class_name q) (Some aa_name) (query_tree q) end), [])
          end
  end.

(** The referrals of a record.  [stale]: the name of the referred area points
    into a record of an earlier turn, which has been freed. *)
Definition record_referrals (rec : record_struct) (stale : bool) : outcome (list referral_struct * bool) :=
  pair ← find_attr_in_record_by_name (Some rec) (Some ($"Referred-Auth-Area"));
  let name := match pair ≫= av_value with Some (_ :: _) as v => v | _ => None end in
  let avs := filter (λ av, STR_EQ (attr_name (av_attr av)) ($"Referral") = true) (av_pair_list rec) in
  match name, stale, avs with
  | None, true, _ :: _ => Fault
  | _, _, _ => Ret ((λ av, ReferralTo (av_value av) name DOWN_HIERARCHICAL) <$> avs, stale || bool_decide (is_Some name))
  end.

Definition referral_query_result := outcome (bool * list referral_struct * list message).

Fixpoint down_loop (fuel : nat) (htype : hierarchy_type) (aa_name : cstr) (hvalue : buf) (stale : bool)
    (l : list referral_struct) : referral_query_result :=
  match fuel with
  | O => NoFuel
  | S fuel =>
      '(query, ms) ← build_referral_query (string_at hvalue 0) aa_name;
      match query with
      | None => Ret (false, l, ms)
      | Some query =>
          '(_, _, record_list) ← search query 1;
          '(rs, stale) ← (match default [] record_list with [] => Ret ([], stale) | rec :: _ => record_referrals rec stale end);
          let l := l ++ rs in
          match l with
          | _ :: _ => Ret (true, l, [])
          | [] =>
              '(ok, hvalue) ← reduce htype hvalue;
              if negb ok then Ret (false, l, [])
              else if negb (hierarchical_value_within_aa (string_at hvalue 0) htype aa_name) then Ret (false, l, [])
              else down_loop fuel htype aa_name hvalue stale l
          end
      end
  end.
(** [hvalue]: a copy in a buffer of its length *)
Definition get_down_referral (fuel : nat) (hvalue : cstr) (htype : hierarchy_type) (aa_name : cstr) (l : list referral_struct) :
    referral_query_result :=
  match hvalue, aa_name with
  | [], _ | _, [] => Ret (true, l, [])
  | _, _ => down_loop fuel htype aa_name (hvalue ++ [NUL]) false l
  end.

Definition get_up_referral (l : list referral_struct) : outcome (bool * list referral_struct) :=
  if is_root_server then Ret (false, l)
  else
    match fs punt_file with
    | None => Ret (false, l)
    | Some f =>
        ls ← lines_of f;
        let l := l ++ ((λ line, ReferralTo (Some line) None UP_HIERARCHICAL) <$> entries ls) in
        Ret (match l with [] => false | _ => true end, l)
    end.

(** is there a class of referrals anywhere *)
Definition aa_has_referrals : bool := bool_decide (is_Some (find_global_class_by_name class_refs ($"Referral"))).

(** the loop over the areas: was the value within one, was a referral found *)
Fixpoint areas_loop (fuel : nat) (hvalue : cstr) (htype : hierarchy_type) (aas : list auth_area_struct) (within found : bool)
    (l : list referral_struct) : outcome (bool * bool * list referral_struct * list message) :=
  match aas with
  | [] => Ret (within, found, l, [])
  | aa :: aas =>
      if hierarchical_value_within_aa hvalue htype (aa_name aa) then
        if negb aa_has_referrals then Ret (true, found, l, [])
        else
          '(ok, l, ms) ← get_down_referral fuel hvalue htype (aa_name aa) l;
          '(within, found, l, ms') ← areas_loop fuel hvalue htype aas true (found || ok) l;
          Ret (within, found, l, ms ++ ms')
      else areas_loop fuel hvalue htype aas within found l
  end.
Definition refer_query_term (fuel : nat) (search_value : cstr) (l : list referral_struct) : referral_query_result :=
  v ← parse_hierarchical_value search_value;
  match v, areas with
  | None, _ | _, None => Ret (false, l, [])
  | Some (htype, hvalue), Some aas =>
      '(within, found, l, ms) ← areas_loop fuel hvalue htype aas false false l;
      if found : bool then Ret (true, l, ms)
      else if within : bool then Ret (false, l, ms)
      else '(ok, l) ← get_up_referral l; Ret (ok, l, ms)
  end.

(** ** Answering *)

Definition print_referral (r : referral_struct) : outcome (list message) :=
  match to r with
  | Some ((_ :: _) as s) =>
      b ← trim (Some (s ++ [NUL]));
      stripped ← strip_trailing b SLASH;
      b ← of_option (match stripped with Some _ => stripped | None => b end);
      let text := string_at b 0 in
      let aa := match ref_aa_name r with Some ((_ :: _) as n) => Some n | _ => None end in
      Ret [print_response RESP_REFERRAL
             (match strSTR (Some text) (Some ($"auth-area=")), aa with
              | None, Some n => text ++ $"/auth-area=" ++ n
              | _, _ => text
              end)]
  | _ => Ret []
  end.
Fixpoint print_referral_list (l : list referral_struct) : outcome (list message) :=
  match l with
  | [] => Ret []
  | r :: l => ms ← print_referral r; ms' ← print_referral_list l; Ret (ms ++ ms')
  end.

(** the terms that are joined by AND, up to the first one with a referral *)
Fixpoint ver_loop (fuel : nat) (ver : query_term) (l : list referral_struct) : referral_query_result :=
  match ver with
  | QueryTerm _ _ _ _ v next _ =>
      '(ok, l, ms) ← refer_query_term fuel v l;
      if ok : bool then Ret (true, l, ms)
      else
        match next with
        | None => Ret (false, l, ms)
        | Some ver => '(ok, l, ms') ← ver_loop fuel ver l; Ret (ok, l, ms ++ ms')
        end
  end.
Fixpoint hor_loop (fuel : nat) (hor : query_term) (rval : bool) (l : list referral_struct) : referral_query_result :=
  match hor with
  | QueryTerm _ _ _ _ _ _ next =>
      '(ok, l, ms) ← ver_loop fuel hor l;
      match next with
      | None => Ret (rval || ok, l, ms)
      | Some hor => '(rval, l, ms') ← hor_loop fuel hor (rval || ok) l; Ret (rval, l, ms ++ ms')
      end
  end.
Definition refer_query (fuel : nat) (query : query_struct) : outcome (bool * list message) :=
  match query_tree query with
  | None => Ret (false, [])
  | Some t =>
      '(rval, l, ms) ← hor_loop fuel t false [];
      printed ← (if rval : bool then print_referral_list l else Ret []);
      Ret (rval, ms ++ printed)
  end.

(** ** Checking a referral record *)

(** the loop over the attributes does not go on to the next one *)
Fixpoint rec_check_loop (fuel : nat) (rec : record_struct) : outcome (bool * list message) :=
  match fuel with
  | O => NoFuel
  | S fuel =>
      match av_pair_list rec with
      | [] => Ret (false, [])
      | av :: _ =>
          if STR_EQ (attr_name (av_attr av)) ($"Referred-Auth-Area") then
            match av_value av with
            | None => Ret (false, [print_error INVALID_ATTR_SYNTAX ($"attribute missing value")])
            | Some v =>
                let aa := aa_name (rec_auth_area rec) in
                Ret ((if is_net v then within_network v aa else if is_domain v then within_domain v aa else false), [])
            end
          else rec_check_loop fuel rec
      end
  end.
Definition referral_rec_check (fuel : nat) (rec : option record_struct) : outcome (bool * list message) :=
  match rec with None => Ret (false, []) | Some rec => rec_check_loop fuel rec end.
End Networks.

(** ** What is within what *)

Lemma folded_take n s : tolower <$> take n s = take n (tolower <$> s).
Proof. apply fmap_take. Qed.
(** the end of one string is another, up to the case *)
Lemma reverse_prefix s d : STRN_EQ (reverse s) (reverse d) (length d) = true ↔ folded d `suffix_of` folded s.
Proof.
  unfold STRN_EQ. rewrite STR_EQ_iff, !folded_take, !fmap_reverse. fold (folded s) (folded d).
  assert (take (length d) (reverse (folded d)) = reverse (folded d)) as ->.
  { apply take_ge. unfold folded. by rewrite length_reverse, length_fmap. }
  split.
  - intros E. exists (reverse (drop (length d) (reverse (folded s)))).
    rewrite <-(reverse_involutive (folded d)), <-E, <-reverse_app, take_drop. by rewrite reverse_involutive.
  - intros [k Hk]. rewrite Hk, reverse_app. apply take_app_length'. unfold folded. by rewrite length_reverse, length_fmap.
Qed.

(** the network [sub] has the first bits of the network [ni] *)
Definition in_network (sub ni : netinfo) : Prop :=
  af sub = af ni ∧ addr_val sub / 2 ^ (bits ni - masklen ni) = addr_val ni / 2 ^ (bits ni - masklen ni).

Lemma masked_val ni : ni_ok ni → masked ni →
  addr_val ni = addr_val ni / 2 ^ (bits ni - masklen ni) * 2 ^ (bits ni - masklen ni).
Proof.
  intros Hok [Hm E]. pose proof (mask_addr_to_len_correct ni (masklen ni) Hok Hm) as (H & _).
  unfold addr_val in H at 1. rewrite mask_addr_bytes, E in H by done. exact H.
Qed.
Lemma compare_in_network sub ni : ni_ok sub → ni_ok ni → masked ni →
  (compare_addr (mask_addr_to_len sub (masklen ni)) ni =? 0) = true ↔ in_network sub ni.
Proof.
  intros Hs Hn Hm. destruct (mask_addr_fields sub (masklen ni)) as [Haf _]. unfold compare_addr, in_network. rewrite Haf.
  destruct (Z.eqb_spec (af sub) (af ni)) as [E|E]; [|split; [done|by intros [? _]]].
  assert (numbytes sub = numbytes ni) as Enb by (unfold numbytes; by rewrite E).
  assert (bits sub = bits ni) as Eb by (unfold bits; by rewrite Enb).
  assert (numbytes (mask_addr_to_len sub (masklen ni)) = numbytes sub) as En by (unfold numbytes; by rewrite Haf).
  rewrite En, Enb. fold (addr_bytes ni). replace (take (numbytes ni) (prefix (mask_addr_to_len sub (masklen ni))))
    with (addr_bytes (mask_addr_to_len sub (masklen ni))) by (unfold addr_bytes; by rewrite En, Enb).
  destruct (addr_bytes_ok _ Hn) as [Hb1 Hl1]. destruct (addr_bytes_ok _ (mask_addr_ok sub (masklen ni) Hs)) as [Hb2 Hl2].
  rewrite compare_bytes_val by (done || congruence). fold (addr_val ni) (addr_val (mask_addr_to_len sub (masklen ni))).
  destruct (mask_addr_to_len_correct sub (masklen ni) Hs) as (Hv & _); [rewrite Eb; apply Hm|]. rewrite Hv, Eb.
  rewrite (masked_val ni Hn Hm) at 1. set (k := 2 ^ (bits ni - masklen ni)). assert (0 < k) by (apply Z.pow_pos_nonneg; destruct Hm; lia).
  rewrite Z.eqb_eq, Z.sgn_null_iff. split; [intros H'; split; [done|nia]|intros [_ ->]; lia].
Qed.

Lemma within_network_iff ni0 value aa : value ≠ [] → aa ≠ [] → length (prefix ni0) = 16%nat → bytes_ok (prefix ni0) →
  hierarchical_value_within_aa ni0 value NETWORK aa = true ↔
     re_match NETWORK_REGEXP aa = true ∧
     ∃ sub ni, get_network_prefix_and_len (Some value) ni0 = Some sub ∧ get_network_prefix_and_len (Some aa) ni0 = Some ni ∧
       in_network sub ni.
Proof.
  intros Hv Ha Hl Hb. destruct value as [|c v] eqn:Ev; [done|]. destruct aa as [|d a] eqn:Ea; [done|]. rewrite <-Ev, <-Ea.
  assert (hierarchical_value_within_aa ni0 value NETWORK aa = re_match NETWORK_REGEXP aa
    && match get_network_prefix_and_len (Some value) ni0, get_network_prefix_and_len (Some aa) ni0 with
       | Some sub, Some ni => compare_addr (mask_addr_to_len sub (masklen ni)) ni =? 0 | _, _ => false end) as -> by by rewrite Ev, Ea.
  rewrite andb_true_iff. apply and_iff_compat_l.
  destruct (get_network_prefix_and_len (Some value) ni0) as [sub|] eqn:Es; [|split; [done|by intros (? & ? & ? & _)]].
  destruct (get_network_prefix_and_len (Some aa) ni0) as [ni|] eqn:En; [|split; [done|by intros (? & ? & _ & ? & _)]].
  apply get_network_ok in Es as [Hs _], En as [Hn Hm]; [|done..]. rewrite compare_in_network by done.
  split; [intros H; by exists sub, ni|by intros (? & ? & [= <-] & [= <-] & H)].
Qed.

(** What is within what: a domain is within another one if its name ends
    with it, in whatever case, with or without a dot in between, and every
    domain is within the dot; a network is within another one of the same
    family if it has the first bits of that one, even when it is the larger of
    the two. *)
Theorem within_correct ni0 value aa : value ≠ [] → aa ≠ [] → length (prefix ni0) = 16%nat → bytes_ok (prefix ni0) →
  (hierarchical_value_within_aa ni0 value DOMAIN aa = true ↔
     re_match DOMAIN_REGEXP aa = true ∧ (folded aa `suffix_of` folded value ∨ aa = [DOT])) ∧
  (hierarchical_value_within_aa ni0 value NETWORK aa = true ↔
     re_match NETWORK_REGEXP aa = true ∧
     ∃ sub ni, get_network_prefix_and_len (Some value) ni0 = Some sub ∧ get_network_prefix_and_len (Some aa) ni0 = Some ni ∧
       in_network sub ni).
Proof.
  intros Hv Ha Hl Hb. split; [|by apply within_network_iff].
  destruct value as [|c v] eqn:Ev; [done|]. destruct aa as [|d a] eqn:Ea; [done|]. rewrite <-Ev, <-Ea.
  assert (hierarchical_value_within_aa ni0 value DOMAIN aa = re_match DOMAIN_REGEXP aa
    && (STRN_EQ (reverse value) (reverse aa) (length aa) || STR_EQ (reverse aa) [DOT])) as -> by by rewrite Ev, Ea.
  rewrite andb_true_iff, orb_true_iff, reverse_prefix, STR_EQ_iff.
  assert (tolower <$> reverse aa = tolower <$> [DOT] ↔ aa = [DOT]) as ->; [|done].
  split; [|by intros ->]. destruct aa as [|x [|y aa]]; try done.
  - cbn. intros [= H]. f_equal. revert H. clear. revert x. by_ascii. all: done.
  - rewrite reverse_cons, reverse_cons. intros H. apply (f_equal length) in H. cbn in H. rewrite !length_fmap, !length_app in H. cbn in H. lia.
Qed.

(** ** The values that are asked for *)

Section Search.
Context (ni0 : netinfo) (search : database) (is_class is_attr : cstr → bool) (aa_name : cstr).

(** the referrals of the first value that has any; a value whose query is not
    well formed ends the search *)
Fixpoint first_referral (stale : bool) (vs : list cstr) : referral_query_result :=
  match vs with
  | [] => Ret (false, [], [])
  | v :: vs =>
      '(query, ms) ← build_referral_query is_class is_attr v aa_name;
      match query with
      | None => Ret (false, [], ms)
      | Some query =>
          '(_, _, record_list) ← search query 1;
          '(rs, stale) ← (match default [] record_list with [] => Ret ([], stale) | rec :: _ => record_referrals rec stale end);
          match rs with
          | _ :: _ => Ret (true, rs, [])
          | [] => first_referral stale vs
          end
      end
  end.

(** the values from one buffer on *)
Inductive values_from (htype : hierarchy_type) : buf → list cstr → Prop :=
| values_end b b' : reduce ni0 htype b = Ret (false, b') → values_from htype b [string_at b 0]
| values_out b b' : reduce ni0 htype b = Ret (true, b') →
    hierarchical_value_within_aa ni0 (string_at b' 0) htype aa_name = false → values_from htype b [string_at b 0]
| values_next b b' vs : reduce ni0 htype b = Ret (true, b') →
    hierarchical_value_within_aa ni0 (string_at b' 0) htype aa_name = true →
    values_from htype b' vs → values_from htype b (string_at b 0 :: vs).

Lemma down_loop_values htype b vs : values_from htype b vs → ∀ fuel stale, (length vs ≤ fuel)%nat →
  down_loop ni0 search is_class is_attr fuel htype aa_name b stale [] = first_referral stale vs.
Proof.
  assert (∀ (o : outcome (list referral_struct * bool)) (f g : list referral_struct * bool → referral_query_result),
    (∀ x, f x = g x) → o ≫= f = o ≫= g) as Hext by (intros o f g Hfg; destruct o; [apply Hfg|done..]).
  assert (∀ (o : outcome (Z * ret_code_type * option (list record_struct))) (f g : _ → referral_query_result),
    (∀ x, f x = g x) → o ≫= f = o ≫= g) as Hext' by (intros o f g Hfg; destruct o; [apply Hfg|done..]).
  induction 1 as [b b' Hr|b b' Hr Hw|b b' vs Hr Hw _ IH]; intros [|fuel] stale Hf; try (cbn in Hf; lia);
    cbn [down_loop first_referral]; (destruct (build_referral_query _ _ _ _) as [[[q|] ms]| |]; [|done..]);
    cbn [mbind outcome_bind]; apply Hext'; intros [[n code] rl]; apply Hext; intros [rs st]; (destruct rs as [|r rs]; [|done]);
    cbn [app]; rewrite Hr; cbn [mbind outcome_bind negb]; [done| |]; rewrite Hw; cbn [negb]; [done|].
  apply IH. cbn in Hf. lia.
Qed.

(** *** Domains *)

(** the domain above one *)
Definition parent (s : cstr) : option cstr := (λ p, drop (S p) s) <$> strchr s DOT.
Fixpoint domain_values (fuel : nat) (s : cstr) : list cstr :=
  s :: match fuel, parent s with
       | S fuel, Some p => if hierarchical_value_within_aa ni0 p DOMAIN aa_name then domain_values fuel p else []
       | _, _ => []
       end.

Lemma strrchr_reverse s ch : strrchr (reverse s) ch = (λ p, (length s - S p)%nat) <$> strchr s ch.
Proof.
  destruct (strchr s ch) as [p|] eqn:E.
  - apply strchr_Some in E as [Hp Hn]. pose proof (lookup_lt_Some _ _ _ Hp). rewrite <-(take_drop_middle s p ch Hp) at 1.
    rewrite reverse_app, reverse_cons, <-app_assoc. cbn [app]. rewrite strrchr_app by (by rewrite elem_of_reverse).
    cbn. by rewrite length_reverse, length_drop.
  - apply strchr_None in E. apply strrchr_None. by rewrite elem_of_reverse.
Qed.
Lemma reduce_domain_holds b s : holds b s → s ≠ [] →
  ∃ b', reduce_domain b = Ret (bool_decide (is_Some (parent s)), b') ∧ holds b' (default s (parent s)).
Proof.
  intros Hb Hne. pose proof Hb as [HN [rest Er]].
  assert (string_at b 0 = s) as Es by (rewrite Er; by apply string_at_app). unfold reduce_domain. rewrite Es. destruct s as [|c s0] eqn:E; [done|]. rewrite <-E in *.
  destruct (in_place (f := strrev) (g := reverse) b s Hb) as (b1 & -> & Hb1 & Hl1). cbn [mbind outcome_bind of_option].
  pose proof Hb1 as [HN1 [rest1 Er1]]. rewrite (holds_string_at b1 _ Hb1), strrchr_reverse. unfold parent.
  destruct (strchr s DOT) as [p|] eqn:Ep; cbn [fmap option_fmap option_map default].
  - apply strchr_Some in Ep as [Hp Hn]. pose proof (lookup_lt_Some _ _ _ Hp).
    assert (reverse s = reverse (drop (S p) s) ++ DOT :: reverse (take p s)) as Erev.
    { rewrite <-(take_drop_middle s p DOT Hp) at 1. rewrite reverse_app, reverse_cons, <-app_assoc. done. }
    assert (∃ b2, wr b1 (length s - S p) NUL = Ret b2 ∧ holds b2 (reverse (drop (S p) s))) as (b2 & -> & Hb2).
    { rewrite Er1, Erev, <-app_assoc. cbn [app]. eexists. split; [apply wr_app; by rewrite length_reverse, length_drop|].
      apply holds_intro. rewrite elem_of_reverse. intros Hin. apply HN. rewrite <-(take_drop (S p) s). apply elem_of_app. by right. }
    cbn [mbind outcome_bind]. destruct (in_place (f := strrev) (g := reverse) b2 _ Hb2) as (b3 & -> & Hb3 & _).
    rewrite reverse_involutive in Hb3. by exists b3.
  - cbn [mbind outcome_bind]. destruct (in_place (f := strrev) (g := reverse) b1 _ Hb1) as (b3 & -> & Hb3 & _).
    rewrite reverse_involutive in Hb3. by exists b3.
Qed.

Lemma domain_values_from fuel : ∀ b s, holds b s → s ≠ [] → (length s ≤ fuel)%nat → values_from DOMAIN b (domain_values fuel s).
Proof.
  induction fuel as [|fuel IH]; intros b s Hb Hne Hf; [destruct s; cbn in Hf; [done|lia]|].
  destruct (reduce_domain_holds b s Hb Hne) as (b' & Hr & Hb'). pose proof (holds_string_at b s Hb) as Esb.
  cbn [domain_values]. destruct (parent s) as [p|] eqn:Ep; cbn [default is_Some] in *.
  - rewrite bool_decide_true in Hr by done. assert (length p < length s)%nat as Hlt.
    { unfold parent in Ep. apply fmap_Some in Ep as (k & [Hk _]%strchr_Some & ->). apply lookup_lt_Some in Hk. rewrite length_drop. lia. }
    assert (string_at b' 0 = p) as Es by by apply holds_string_at.
    destruct (hierarchical_value_within_aa ni0 p DOMAIN aa_name) eqn:Hw; rewrite <-Esb.
    + eapply values_next; [exact Hr|by rewrite Es|]. apply IH; [done| |lia].
      intros ->. by destruct aa_name.
    + eapply values_out; [exact Hr|by rewrite Es].
  - rewrite <-Esb. by eapply values_end.
Qed.
Lemma domain_values_length fuel : ∀ s, (length (domain_values fuel s) ≤ S fuel)%nat.
Proof.
  induction fuel as [|fuel IH]; intros s; cbn; [lia|]. destruct (parent s) as [p|]; [|cbn; lia].
  destruct (hierarchical_value_within_aa _ _ _ _); [|cbn; lia]. specialize (IH p). lia.
Qed.
End Search.

(** For a domain the server finds the referrals of the name itself or, if
    it has none, of the name without its first label and so on, up to the
    first name outside of the authority area: the search ends, and what it
    finds are the referrals of the closest name above that has any. *)
Theorem down_referral_domain ni0 search is_class is_attr hvalue aa fuel :
  NUL ∉ hvalue → hvalue ≠ [] → aa ≠ [] → (length hvalue < fuel)%nat →
  get_down_referral ni0 search is_class is_attr fuel hvalue DOMAIN aa [] =
  first_referral search is_class is_attr aa false (domain_values ni0 aa (length hvalue) hvalue).
Proof.
  intros HN Hv Ha Hf. unfold get_down_referral. destruct hvalue as [|c v] eqn:E; [done|]. destruct aa as [|d a] eqn:Ea; [done|].
  rewrite <-E, <-Ea in *. apply down_loop_values.
  - apply domain_values_from; [|done|lia]. by apply holds_intro.
  - pose proof (domain_values_length ni0 aa (length hvalue) hvalue). lia.
Qed.
Lemma within_correct_witness :
  let ni0 := NetInfo 0 0 (replicate 16 0) in
  (hierarchical_value_within_aa ni0 ($"barFOO.com") DOMAIN ($"foo.com") = true ↔
     re_match DOMAIN_REGEXP ($"foo.com") = true ∧ (folded ($"foo.com") `suffix_of` folded ($"barFOO.com") ∨ $"foo.com" = [DOT])) ∧
  (hierarchical_value_within_aa ni0 ($"barFOO.com") NETWORK ($"foo.com") = true ↔
     re_match NETWORK_REGEXP ($"foo.com") = true ∧
     ∃ sub ni, get_network_prefix_and_len (Some ($"barFOO.com")) ni0 = Some sub ∧
       get_network_prefix_and_len (Some ($"foo.com")) ni0 = Some ni ∧ in_network sub ni).
Proof. intros ni0. apply (within_correct ni0 ($"barFOO.com") ($"foo.com")); [discriminate|discriminate|reflexivity|]. repeat constructor; discriminate. Defined.

Definition demo_class (s : cstr) : bool := bool_decide (s = $"REFERRAL").
Definition demo_attr (s : cstr) : bool := bool_decide (s = $"REFERRED-AUTH-AREA").
Lemma down_referral_domain_witness :
  let search : database := λ _ _, Ret (0, SEARCH_SUCCESSFUL, None) in
  get_down_referral (NetInfo 0 0 []) search demo_class demo_attr 20 ($"www.foo.com") DOMAIN ($"com") [] =
  first_referral search demo_class demo_attr ($"com") false (domain_values (NetInfo 0 0 []) ($"com") 11 ($"www.foo.com")).
Proof.
  intros search. apply (down_referral_domain (NetInfo 0 0 []) search demo_class demo_attr ($"www.foo.com") ($"com") 20);
    [by_decision|discriminate|discriminate|cbn; lia].
Defined.

(** *** The query for a referral *)

Lemma bare_plain v : Forall (λ c, c ≠ QUOTE ∧ isspace c = false) v → bare v = v.
Proof.
  intros H. rewrite Forall_forall in H. unfold bare, trim_s.
  assert (stripchar_s QUOTE v = v) as ->.
  { unfold stripchar_s. apply filter_all, Forall_forall. intros c Hc. apply negb_true_iff, char_eqb_neq, H, Hc. }
  assert (rtrim_s v = v) as ->.
  { apply rdropwhile_fix. intros c Hc. by apply last_Some_elem_of, H in Hc as [_ ?]. }
  destruct v as [|c v]; [done|]. unfold ltrim_s. cbn [dropwhile]. by rewrite (proj2 (H c ltac:(left))).
Qed.

(** a value that is a word by itself: no blank, star, quote or equals sign *)
Definition plain (c : ascii) : bool := is_value_char (toupper c) && negb (c =c QUOTE) && negb (isspace c) && negb (c =c NUL).
Definition plain_value (v : cstr) : Prop := Forall (λ c, plain c = true) v ∧ (2 < length v)%nat ∧ strupr_s v ≠ $"AND".

Lemma plain_upper c : plain c = true →
  is_value_char (toupper c) = true ∧ toupper c ≠ QUOTE ∧ isspace (toupper c) = false ∧ toupper c ≠ NUL ∧ toupper c ≠ STAR.
Proof. revert c. by_ascii. all: intros; split_and!; discriminate || done. Qed.

(** the query that it is *)
Definition referral_query (v aa_name : cstr) : query_struct :=
  Query (Some ($"REFERRAL")) (match aa_name with [] => None | _ => Some aa_name end)
    (Some (QueryTerm (Some ($"REFERRED-AUTH-AREA")) (-2) MKDB_BINARY_SEARCH MKDB_FULL_COMPARE (strupr_s v) None None)).

Lemma plain_term v : plain_value v →
  querystr_term (QueryStr (Some ($"REFERRED-AUTH-AREA")) (yylval (strupr_s v)) MKDB_EQ_OP) =
  Ret (Some (QueryTerm (Some ($"REFERRED-AUTH-AREA")) (-2) MKDB_BINARY_SEARCH MKDB_FULL_COMPARE (strupr_s v) None None)).
Proof.
  intros (Hp & Hl & _). set (u := strupr_s v).
  assert (Forall (λ c, c ≠ QUOTE ∧ isspace c = false ∧ c ≠ NUL ∧ c ≠ STAR) u) as Hu.
  { unfold u, strupr_s. apply Forall_fmap. eapply Forall_impl; [exact Hp|]. intros c Hc. cbn. by apply plain_upper in Hc as (_ & ? & ? & ? & ?). }
  rewrite Forall_forall in Hu. assert (bare u = u) as Eb.
  { apply bare_plain, Forall_forall. intros c Hc. by destruct (Hu c Hc) as (? & ? & _). }
  assert (length u = length v) as Elu by (unfold u, strupr_s; by rewrite length_fmap).
  assert (u ≠ []) as Hne by (intros E; rewrite E in Elu; cbn in Elu; lia).
  assert (head u ≠ Some STAR) as Hh.
  { intros E. destruct u as [|c u']; [done|]. injection E as ->. by destruct (Hu STAR ltac:(left)) as (_ & _ & _ & ?). }
  assert (last u ≠ Some STAR) as Hla by (intros E; by apply last_Some_elem_of, Hu in E as (_ & _ & _ & ?)).
  assert (strip_trailing_s STAR u = u) as Est.
  { apply rdropwhile_fix. intros c Hc. apply char_eqb_neq. intros ->. done. }
  assert (holds (yylval u) u) as Hb by (apply holds_intro; intros Hc; by apply Hu in Hc as (_ & _ & ? & _)).
  unfold querystr_term. cbn [qs_attr qs_value qs_op].
  destruct (set_query_term_correct (Some ($"REFERRED-AUTH-AREA")) (yylval u) u MKDB_EQ_OP Hb Hne) as [_ H].
  cbv zeta in H. rewrite Eb, Est in H. rewrite H; clear H.
  - unfold wild_type. rewrite !bool_decide_false by done. done.
  - intros Ha. unfold all_stars in Ha. destruct u as [|c u']; [done|]. apply Forall_cons in Ha as [-> _]. done.
  - unfold leading_stars, yylval. rewrite length_app. cbn [length].
    assert (takewhile (λ c, c =c STAR) u = []) as ->; [|cbn; lia].
    destruct u as [|c u']; [done|]. cbn [takewhile]. rewrite (proj2 (char_eqb_neq c STAR)); [done|]. intros ->. done.
Qed.

Definition referral_tokens (v : cstr) : list (token * nat) :=
  [(T_CLASS ($"REFERRAL"), 1%nat); (T_ATTR ($"REFERRED-AUTH-AREA"), O); (T_EQ, O); (T_VALUE (strupr_s v), O)].
Lemma referral_text v : strupr_s ($"referral Referred-Auth-Area=" ++ v) = tokens_text (referral_tokens v).
Proof.
  unfold referral_tokens, strupr_s. rewrite fmap_app. fold (strupr_s v). generalize (strupr_s v). intros u. cbn [tokens_text token_text replicate]. rewrite app_nil_r. reflexivity.
Qed.
Lemma plain_word v : plain_value v → word (strupr_s v).
Proof.
  intros (Hp & Hl & Hand). assert (length (strupr_s v) = length v) as El by (unfold strupr_s; by rewrite length_fmap).
  assert (Forall (λ c, is_value_char c = true ∧ c ≠ QUOTE) (strupr_s v)) as Hu.
  { unfold strupr_s. apply Forall_fmap. eapply Forall_impl; [exact Hp|]. intros x Hx. by apply plain_upper in Hx as (? & ? & _). }
  exists [], (strupr_s v), []. rewrite app_nil_r. split_and!; try done; try (by left).
  - eapply Forall_impl; [exact Hu|]. by intros x [? _].
  - intros E. rewrite E in El. cbn in El. lia.
  - intros E. destruct (strupr_s v) as [|c u]; [done|]. injection E as ->. apply Forall_cons in Hu as [[_ []] _]. done.
  - intros E. rewrite E in El. cbn in El. lia.
  - intros E. rewrite E in El. cbn in El. lia.
Qed.
Lemma referral_spaced v : plain_value v → spaced (referral_tokens v).
Proof.
  intros Hv%plain_word. unfold referral_tokens. cbn [spaced token_shape tokens_text token_text replicate app]. split_and!; try done.
  - apply bool_word. by vm_compute.
  - right. right. right. by left.
  - apply bool_word. by vm_compute.
  - right. right. right. by right.
  - by left.
  - right. right. by left.
Qed.
Lemma referral_parsed v : plain_value v →
  parse_tokens (fst <$> referral_tokens v) = Ret (Some (set_query (Some ($"REFERRAL")) None
    (Query None None (Some (QueryTerm (Some ($"REFERRED-AUTH-AREA")) (-2) MKDB_BINARY_SEARCH MKDB_FULL_COMPARE (strupr_s v) None None))))).
Proof.
  intros Hv.
  pose proof (parse_tokens_query (Some ($"REFERRAL")) (TermText (Some ($"REFERRED-AUTH-AREA")) MKDB_EQ_OP (T_VALUE (strupr_s v))) []) as H.
  specialize (H ltac:(done) ltac:(constructor)). etransitivity; [exact H|]. clear H.
  unfold Query.parse_query, term_querystr. cbn [tt_attr tt_op tt_value token_text]. rewrite plain_term by done.
  cbn [mbind outcome_bind fmap list_fmap parse_rest add_term no_tree rows link_or link_and option_map with_or]. reflexivity.
Qed.
Lemma referral_line is_class is_attr v : plain_value v →
  is_class ($"REFERRAL") = true → is_attr ($"REFERRED-AUTH-AREA") = true → is_attr (strupr_s v) = false →
  parse_line_query is_class is_attr ($"referral Referred-Auth-Area=" ++ v) = parse_tokens (fst <$> referral_tokens v).
Proof.
  intros Hv Hc Ha Hn. unfold parse_line_query. rewrite referral_text, lex_tokens; [done| |by apply referral_spaced|].
  - rewrite <-referral_text. unfold strupr_s. by rewrite length_fmap.
  - unfold referral_tokens. cbn [kinds kind]. by rewrite Hc, Ha, Hn.
Qed.
Lemma referral_line_copied v : (length v < 484)%nat ↔ (length ($"referral Referred-Auth-Area=" ++ v) < MAX_LINE)%nat.
Proof. rewrite length_app. change (length ($"referral Referred-Auth-Area=")) with 28%nat. unfold MAX_LINE. lia. Qed.
Lemma build_plain is_class is_attr v aa : plain_value v → (length v < 484)%nat →
  is_class ($"REFERRAL") = true → is_attr ($"REFERRED-AUTH-AREA") = true → is_attr (strupr_s v) = false →
  build_referral_query is_class is_attr v aa = Ret (Some (referral_query v aa), []).
Proof.
  intros Hv Hl Hc Ha Hn. pose proof (referral_line is_class is_attr v Hv Hc Ha Hn) as E1.
  rewrite referral_parsed in E1 by done.
  apply referral_line_copied in Hl. pose proof Hv as (_ & Hl2 & _). unfold build_referral_query, copy_line.
  revert E1. generalize (parse_line_query is_class is_attr) as pq. intros pq E1.
  destruct v as [|c v']; [cbn in Hl2; lia|]. rewrite decide_True by exact Hl.
  cbn [mbind outcome_bind]. rewrite E1. by destruct aa.
Qed.

(** C38: the query by which a referral is looked for.  For a value that is one
    word it is the search of the class Referral, in the authority area, for an
    attribute Referred-Auth-Area that is equal to the value in capital letters;
    a value of 484 characters or more, which the client chooses, runs over the
    array that the text of the query is printed to. *)
Theorem referral_query_built is_class is_attr v aa :
  is_class ($"REFERRAL") = true → is_attr ($"REFERRED-AUTH-AREA") = true → is_attr (strupr_s v) = false →
  (plain_value v → (length v < 484)%nat → build_referral_query is_class is_attr v aa = Ret (Some (referral_query v aa), [])) ∧
  ((484 ≤ length v)%nat → build_referral_query is_class is_attr v aa = Fault).
Proof.
  intros Hc Ha Hn. split; [intros Hv Hl; by apply build_plain|]. intros Hl. unfold build_referral_query.
  destruct v as [|c v'] eqn:E; [cbn in Hl; lia|]. rewrite <-E in *. unfold copy_line.
  rewrite decide_False; [done|]. rewrite <-referral_line_copied. lia.
Qed.
Lemma referral_query_built_witness :
  build_referral_query demo_class demo_attr ($"foo.com") ($"com") = Ret (Some (referral_query ($"foo.com") ($"com")), []).
Proof.
  apply (referral_query_built demo_class demo_attr ($"foo.com") ($"com")); [reflexivity..| |cbn; lia].
  split; [by_decision|]. split; [cbn; lia|discriminate].
Defined.

(** *** Networks *)

Definition network_text (ni : netinfo) : cstr := default [] (addrstring ni) ++ SLASH :: print_Z (masklen ni).
Definition with_len (ni : netinfo) (len : Z) : netinfo := NetInfo (af ni) len (prefix ni).
(** the first [len] bits of a network *)
Definition cut (ni : netinfo) (len : Z) : netinfo := mask_addr_to_len (with_len ni len) len.
Definition same_network (a b : netinfo) : Prop := af a = af b ∧ masklen a = masklen b ∧ addr_bytes a = addr_bytes b.

Lemma cut_ok ni len : ni_ok ni → ni_ok (cut ni len).
Proof. intros H. by apply mask_addr_ok. Qed.
Lemma cut_fields ni len : af (cut ni len) = af ni ∧ masklen (cut ni len) = len.
Proof. exact (mask_addr_fields (with_len ni len) len). Qed.
Lemma cut_bytes ni len : ni_ok ni → addr_bytes (cut ni len) = mask_bytes (addr_bytes ni) len.
Proof. intros H. unfold cut. rewrite mask_addr_bytes by exact H. done. Qed.
Lemma cut_masked ni len : ni_ok ni → 0 ≤ len ≤ bits ni → masked (cut ni len).
Proof. intros H Hl. apply (mask_addr_masked (with_len ni len)); [exact H|exact Hl]. Qed.
Lemma cut_text a b len : ni_ok a → ni_ok b → af a = af b → addr_bytes a = addr_bytes b → network_text (cut a len) = network_text (cut b len).
Proof.
  intros Ha Hb Haf Hby. unfold network_text. rewrite !addrstring_Some by (by apply cut_ok). rewrite !cut_bytes, Hby by done.
  destruct (cut_fields a len) as [-> ->], (cut_fields b len) as [-> ->]. by rewrite Haf.
Qed.

(** the length that is read; -1 is read as that of an address *)
Definition read_len (ni : netinfo) : Z := if masklen ni <? 0 then bits ni else masklen ni.
(** the value of the next turn *)
Definition shorter (m : netinfo) : netinfo := cut m (read_len m - 1).
Lemma read_len_range m : ni_ok m → -1 ≤ masklen m ≤ bits m → 0 ≤ read_len m ≤ bits m.
Proof. intros _ Hl. unfold read_len. destruct (bits_af m) as [[_ ?]|[_ ?]]; destruct (Z.ltb_spec (masklen m) 0); lia. Qed.
Lemma ref_text_length m : ni_ok m → length (network_text m) = ((if (af m =? AF_INET)%Z then 15 else 39) + 1 + length (print_Z (masklen m)))%nat.
Proof.
  intros Hok. destruct (addrstring_canonical m Hok) as (s & Hs & [Hl _ _]). unfold network_text. rewrite Hs. cbn [default].
  unfold id. rewrite length_app, Hl. cbn [length]. lia.
Qed.
Lemma text_no_nul m : ni_ok m → NUL ∉ network_text m.
Proof.
  intros Hok. destruct (addrstring_canonical m Hok) as (s & Hs & [_ [HN _] _]). unfold network_text. rewrite Hs. cbn [default].
  unfold id. rewrite not_elem_of_app, not_elem_of_cons. split_and!; [done|done|]. by apply print_Z_notin.
Qed.
Lemma text_ne m : network_text m ≠ [].
Proof. unfold network_text. by destruct (default [] (addrstring m)). Qed.
Lemma digits_check : forallb (λ b, bool_decide (length (print_Z b) ≤ length (print_Z (b + 1)))%nat) all_bytes = true.
Proof. by vm_compute. Qed.

Lemma shorter_facts m : ni_ok m → -1 ≤ masklen m ≤ bits m →
  ni_ok (shorter m) ∧ af (shorter m) = af m ∧ bits (shorter m) = bits m ∧ masklen (shorter m) = read_len m - 1 ∧
  -1 ≤ masklen (shorter m) ≤ bits (shorter m) ∧ (0 ≤ masklen (shorter m) → masked (shorter m)).
Proof.
  intros Hok Hl. pose proof (read_len_range m Hok Hl). destruct (cut_fields m (read_len m - 1)) as [Haf Hm]. fold (shorter m) in *.
  assert (bits (shorter m) = bits m) as Eb by (unfold bits, numbytes; by rewrite Haf).
  split; [by apply cut_ok|]. split_and!; try done; [lia..|]. intros H0. apply cut_masked; [done|]. lia.
Qed.

Definition width (k : Z) : nat := length (print_Z k).
Lemma shorter_digits m : ni_ok m → -1 ≤ masklen m ≤ bits m → (width (masklen (shorter m)) ≤ width (bits m))%nat ∧ width (bits m - 1) = width (bits m).
Proof.
  intros Hok Hl. destruct (shorter_facts m Hok Hl) as (_ & _ & _ & -> & _ & _). pose proof (read_len_range m Hok Hl) as Hr.
  assert (is_byte (read_len m)) as Hb by (destruct (bits_af m) as [[_ ?]|[_ ?]]; split; lia).
  destruct (bits_af m) as [[_ Eb]|[_ Eb]]; rewrite Eb in *; (split; [|done]).
  - assert (forallb (λ k, bool_decide (k ≤ 32 → (width (k - 1) ≤ width 32)%nat)) all_bytes = true) as H by by vm_compute.
    apply (bytes_check _ _ Hb), bool_decide_eq_true in H. apply H. lia.
  - assert (forallb (λ k, bool_decide (k ≤ 128 → (width (k - 1) ≤ width 128)%nat)) all_bytes = true) as H by by vm_compute.
    apply (bytes_check _ _ Hb), bool_decide_eq_true in H. apply H. lia.
Qed.

Lemma cut_zero m len : ni_ok m → len ≤ 0 → addr_val (cut m len) = 0.
Proof. intros Hok Hl. unfold addr_val. rewrite cut_bytes by done. by apply mask_bytes_zero. Qed.


Section NetworkValues.
Context (ni0 : netinfo) (ni0_length : length (prefix ni0) = 16%nat) (ni0_bytes : bytes_ok (prefix ni0)).
Lemma network_text_read m : ni_ok m → -1 ≤ masklen m ≤ bits m → (0 ≤ masklen m → masked m) →
  ∃ m', get_network_prefix_and_len (Some (network_text m)) ni0 = Some m' ∧ ni_ok m' ∧ same_network m' (with_len m (read_len m)).
Proof.
  intros Hok Hl Hm. destruct (addrstring_canonical m Hok) as (s & Hs & Hc). unfold network_text, read_len. rewrite Hs. cbn [default].
  assert (∀ m', get_network_prefix_and_len (Some (s ++ SLASH :: print_Z (masklen m))) ni0 = Some m' → ni_ok m') as Hok'.
  { intros m' E. by apply get_network_ok in E as [? _]. }
  destruct (Z.ltb_spec (masklen m) 0) as [Hneg|Hpos].
  - assert (masklen m = -1) as El by lia. rewrite El in *.
    assert (∃ m', get_network_prefix_and_len (Some (s ++ SLASH :: print_Z (-1))) ni0 = Some m' ∧ same_network m' (with_len m (bits m)))
      as (m' & E & Hsame); [|exists m'; split_and!; eauto].
    destruct Hc as [Hlen _ Hread]. destruct (Hread ni0) as (p & Ea & Hp). destruct s as [|c s]; [by destruct (af m =? AF_INET)|].
    unfold get_network_prefix_and_len. cbn [app]. change (print_Z (-1)) with ($"-1").
    rewrite app_comm_cons, strrchr_app by (by apply (bool_decide_unpack _); vm_compute).
    rewrite take_app_length, <-(Nat.add_1_r (length (c :: s))), drop_succ_app, Ea. change (atoi _) with (-1).
    cbn [Z.eqb negb Z.leb Z.compare af prefix]. eexists. split; [done|].
    assert (numbytes (NetInfo (af m) (bits m) p) = numbytes m) as En by done.
    assert ((if af m =? AF_INET then 32 else 128) = bits m) as -> by (unfold bits, numbytes; by destruct (af m =? AF_INET)).
    unfold same_network. rewrite !(proj1 (mask_addr_fields _ _)), !(proj2 (mask_addr_fields _ _)). split_and!; [done..|].
    unfold mask_addr_to_len. cbn [masklen]. rewrite En. rewrite (proj2 (Z.eqb_eq _ _)) by (unfold bits; lia).
    unfold addr_bytes. cbn [prefix]. rewrite En. done.
  - destruct (network_text_reads m ni0 s Hok (Hm Hpos) Hs) as (p & E & Hp). eexists. split; [exact E|]. split; [by eapply Hok'|].
    unfold same_network, addr_bytes. cbn. done.
Qed.

Lemma reduce_network_text b m : ni_ok m → -1 ≤ masklen m ≤ bits m → (0 ≤ masklen m → masked m) → string_at b 0 = network_text m →
  reduce_network ni0 b = (b' ← put_str b (network_text (shorter m)); Ret (true, b')).
Proof.
  intros Hok Hl Hm Hs. destruct (network_text_read m Hok Hl Hm) as (m' & E & Hok' & Hsame). unfold reduce_network. rewrite Hs.
  destruct (network_text m) as [|c s] eqn:Et; [unfold network_text in Et; by destruct (default [] (addrstring m))|]. rewrite E.
  cbv zeta. cbn [masklen]. change (mask_addr_to_len (NetInfo (af m') (masklen m' - 1) (prefix m')) (masklen m' - 1)) with (cut m' (masklen m' - 1)).
  destruct Hsame as (Haf & Hml & Hby). cbn [af masklen with_len] in Haf, Hml. change (addr_bytes (with_len m (read_len m))) with (addr_bytes m) in Hby.
  unfold shorter. rewrite Hml, (cut_text m m' _) by done. pose proof (cut_ok m' (read_len m - 1) Hok') as Hok2.
  destruct (addrstring_canonical _ Hok2) as (s2 & Hs2 & _). unfold write_network. rewrite (natop_ok _ s2) by done.
  unfold network_text. rewrite Hs2. cbn [mbind outcome_bind default]. destruct (put_str _ _); done.
Qed.

Context (search : database) (is_class is_attr : cstr → bool) (aa : cstr) (nia : netinfo).
Context (aa_net : re_match NETWORK_REGEXP aa = true) (aa_read : get_network_prefix_and_len (Some aa) ni0 = Some nia).

Lemma within_text m : ni_ok m → -1 ≤ masklen m ≤ bits m → (0 ≤ masklen m → masked m) →
  hierarchical_value_within_aa ni0 (network_text m) NETWORK aa = true ↔ in_network m nia.
Proof.
  intros Hok Hl Hm. rewrite within_network_iff; [|apply text_ne|by destruct aa|done..].
  destruct (network_text_read m Hok Hl Hm) as (m' & E & Hok' & (Haf & _ & Hby)). rewrite E, aa_read.
  change (af (with_len m (read_len m))) with (af m) in Haf. change (addr_bytes (with_len m (read_len m))) with (addr_bytes m) in Hby.
  assert (in_network m' nia ↔ in_network m nia) as Hiff.
  { unfold in_network, addr_val. by rewrite Haf, Hby. }
  split; [intros (_ & ? & ? & [= <-] & [= <-] & H); by apply Hiff|]. intros H. split; [done|]. exists m', nia. split_and!; [done..|by apply Hiff].
Qed.

(** the values from a network on: it and the networks around it, within the
    area *)
Fixpoint network_values (n : nat) (m : netinfo) : list cstr :=
  network_text m :: match n with
                    | O => []
                    | S n => if hierarchical_value_within_aa ni0 (network_text (shorter m)) NETWORK aa then network_values n (shorter m) else []
                    end.

Lemma nia_ok : ni_ok nia ∧ masked nia.
Proof. by apply get_network_ok in aa_read. Qed.
Lemma in_network_zero m : ni_ok m → addr_val m = 0 → in_network m nia → addr_val nia = 0.
Proof.
  intros Hok H0 [_ H]. destruct nia_ok as [Hn Hm]. rewrite (masked_val nia Hn Hm), <-H, H0. by rewrite Zdiv_0_l.
Qed.
Lemma network_values_from n : ∀ b m, ni_ok m → masked m → masklen m = Z.of_nat n → addr_val nia ≠ 0 →
  in_network m nia → string_at b 0 = network_text m → (length (network_text m) < length b)%nat →
  values_from ni0 aa NETWORK b (network_values n m).
Proof.
  induction n as [|n IH]; intros b m Hok Hm Hn Hz Hin Hs Hb.
  - destruct Hz. apply (in_network_zero m Hok); [|done]. rewrite (masked_val m Hok Hm), Hn. unfold addr_val.
    destruct (addr_bytes_ok m Hok) as [Hby Hlen]. pose proof (be_val_range _ Hby) as Hr. rewrite Hlen in Hr.
    rewrite Z.sub_0_r. unfold bits. rewrite Z.div_small by exact Hr. lia.
  - assert (-1 ≤ masklen m ≤ bits m) as Hl by (destruct Hm; lia).
    destruct (shorter_facts m Hok Hl) as (Hok' & Haf & _ & Hml & Hl' & Hm').
    assert (masklen (shorter m) = Z.of_nat n) as Hn'.
    { rewrite Hml. unfold read_len. destruct (Z.ltb_spec (masklen m) 0); lia. }
    assert (length (network_text (shorter m)) ≤ length (network_text m))%nat as Hlen.
    { rewrite !ref_text_length, Haf, Hn', Hn by done. assert (is_byte (Z.of_nat n)) as Hbyte.
      { split; [lia|]. destruct (bits_af m) as [[_ ?]|[_ ?]]; lia. }
      pose proof (bytes_check _ _ Hbyte digits_check) as H%bool_decide_eq_true.
      replace (Z.of_nat n + 1) with (Z.of_nat (S n)) in H by lia. lia. }
    pose proof (reduce_network_text b m Hok Hl ltac:(done) Hs) as Hred. rewrite put_str_ok in Hred by lia. cbn [mbind outcome_bind] in Hred.
    assert (NUL ∉ network_text (shorter m)) as HN by apply text_no_nul, Hok'.
    set (b' := network_text (shorter m) ++ NUL :: drop (S (length (network_text (shorter m)))) b) in *.
    assert (string_at b' 0 = network_text (shorter m)) as Hs' by by apply string_at_app.
    cbn [network_values]. rewrite <-Hs. destruct (hierarchical_value_within_aa ni0 (network_text (shorter m)) NETWORK aa) eqn:Hw.
    + eapply values_next; [exact Hred|rewrite Hs'; exact Hw|]. apply IH; try assumption.
      * apply Hm'. lia.
      * by apply within_text in Hw.
      * unfold b'. rewrite length_app. cbn [length]. rewrite length_drop. lia.
    + eapply values_out; [exact Hred|rewrite Hs'; exact Hw].
Qed.
Lemma network_values_length n : ∀ m, (length (network_values n m) ≤ S n)%nat.
Proof.
  induction n as [|n IH]; intros m; cbn [network_values length]; [lia|].
  destruct (hierarchical_value_within_aa _ _ _ _); [|cbn; lia]. specialize (IH (shorter m)). lia.
Qed.

(** an area whose network has the address zero *)
Context (aa_zero : addr_val nia = 0).
Context (well_formed : ∀ m, ni_ok m → -1 ≤ masklen m ≤ bits m →
  build_referral_query is_class is_attr (network_text m) aa = Ret (Some (referral_query (network_text m) aa), [])).

(** no record for a value *)
Definition unreferred (v : cstr) : Prop := ∃ r, search (referral_query v aa) 1 = Ret r ∧ default [] r.2 = [].
(** nor for the values of the turns after it *)
Definition never_referred (m : netinfo) : Prop := ∀ i, unreferred (network_text (Nat.iter i shorter m)).
Lemma never_referred_shorter m : never_referred m → never_referred (shorter m).
Proof. intros H i. specialize (H (S i)). by rewrite Nat.iter_succ_r in H. Qed.

Lemma shorter_within m : ni_ok m → -1 ≤ masklen m ≤ bits m → in_network m nia → in_network (shorter m) nia.
Proof.
  intros Hok Hl [Haf Hv]. destruct (shorter_facts m Hok Hl) as (Hok' & Haf' & _ & Hml & Hl' & _). split; [congruence|].
  rewrite aa_zero, Zdiv_0_l in *. set (k := 2 ^ (bits nia - masklen nia)) in *.
  assert (0 < k) as Hk by (apply Z.pow_pos_nonneg; destruct nia_ok as [_ [? _]]; lia).
  assert (0 ≤ addr_val (shorter m) ≤ addr_val m) as Hle.
  { destruct (addr_bytes_ok _ Hok') as [Hb' _]. destruct (addr_bytes_ok m Hok) as [Hb _].
    pose proof (be_val_range _ Hb'). pose proof (be_val_range _ Hb) as Hr. split; [unfold addr_val; lia|].
    destruct (Z.leb_spec (read_len m - 1) 0).
    - unfold shorter. rewrite cut_zero by done. unfold addr_val. lia.
    - destruct (mask_addr_to_len_correct (with_len m (read_len m - 1)) (read_len m - 1) Hok) as (H' & _).
      { pose proof (read_len_range m Hok Hl). change (bits (with_len m (read_len m - 1))) with (bits m). lia. }
      change (addr_val (shorter m) = addr_val m / 2 ^ (bits m - (read_len m - 1)) * 2 ^ (bits m - (read_len m - 1))) in H'. rewrite H'.
      set (d := 2 ^ (bits m - (read_len m - 1))). assert (0 < d) by (apply Z.pow_pos_nonneg; pose proof (read_len_range m Hok Hl); lia).
      pose proof (Z.mul_div_le (addr_val m) d). lia. }
  apply Z.div_small. apply Z.div_small_iff in Hv as [?|?]; lia.
Qed.

Lemma down_step fuel b m stale : ni_ok m → -1 ≤ masklen m ≤ bits m → (0 ≤ masklen m → masked m) → in_network m nia →
  never_referred m → string_at b 0 = network_text m →
  down_loop ni0 search is_class is_attr (S fuel) NETWORK aa b stale [] =
  (b' ← put_str b (network_text (shorter m)); down_loop ni0 search is_class is_attr fuel NETWORK aa b' stale []).
Proof.
  intros Hok Hl Hm Hin Hq Hs. cbn [down_loop]. rewrite Hs, (well_formed m Hok Hl). cbn [mbind outcome_bind].
  destruct (Hq O) as ([[n code] rl] & E & Hrl). cbn [Nat.iter nat_rect] in E. rewrite E. cbn [mbind outcome_bind snd] in *. rewrite Hrl. cbn [app].
  cbn [mbind outcome_bind]. unfold reduce. rewrite (reduce_network_text b m Hok Hl Hm Hs).
  destruct (shorter_facts m Hok Hl) as (Hok' & _ & _ & _ & Hl' & Hm').
  destruct (put_str b (network_text (shorter m))) as [b'| |] eqn:Ep; [|done..]. cbn [mbind outcome_bind negb].
  assert (string_at b' 0 = network_text (shorter m)) as ->.
  { unfold put_str in Ep. destruct (decide _); [|done]. injection Ep as <-. by apply string_at_app, text_no_nul. }
  rewrite (proj2 (within_text (shorter m) Hok' Hl' Hm')); [done|by apply shorter_within].
Qed.

(** room for the longest text of a network of the family *)
Definition room (m : netinfo) : nat := ((if (af m =? AF_INET)%Z then 15 else 39) + 1 + width (bits m))%nat.
Lemma loops fuel : ∀ b m stale, ni_ok m → -1 ≤ masklen m ≤ bits m → (0 ≤ masklen m → masked m) → in_network m nia →
  never_referred m → string_at b 0 = network_text m → (room m < length b)%nat →
  down_loop ni0 search is_class is_attr fuel NETWORK aa b stale [] = NoFuel.
Proof.
  induction fuel as [|fuel IH]; intros b m stale Hok Hl Hm Hin Hq Hs Hb; [done|]. rewrite (down_step fuel b m stale Hok Hl Hm Hin Hq Hs).
  destruct (shorter_facts m Hok Hl) as (Hok' & Haf & Ebits & _ & Hl' & Hm'). destruct (shorter_digits m Hok Hl) as [Hd _].
  assert (length (network_text (shorter m)) < length b)%nat as Hlen.
  { rewrite ref_text_length, Haf by done. fold (width (masklen (shorter m))). unfold room in Hb. lia. }
  rewrite put_str_ok by exact Hlen. cbn [mbind outcome_bind]. apply (IH _ (shorter m)); try assumption.
  - by apply shorter_within.
  - by apply never_referred_shorter.
  - by apply string_at_app, text_no_nul.
  - unfold room. rewrite Haf, Ebits, length_app. cbn [length]. rewrite length_drop. unfold room in Hb. lia.
Qed.
Lemma overflows k : ∀ fuel b m stale, ni_ok m → -1 ≤ masklen m ≤ bits m → (0 ≤ masklen m → masked m) → in_network m nia →
  never_referred m → string_at b 0 = network_text m → (length b ≤ room m)%nat → masklen m = Z.of_nat k - 1 → (k < fuel)%nat →
  down_loop ni0 search is_class is_attr fuel NETWORK aa b stale [] = Fault.
Proof.
  induction k as [|k IH]; intros [|fuel] b m stale Hok Hl Hm Hin Hq Hs Hb Hk Hf; try lia; rewrite (down_step fuel b m stale Hok Hl Hm Hin Hq Hs);
    destruct (shorter_facts m Hok Hl) as (Hok' & Haf & Ebits & Eml & Hl' & Hm'); destruct (shorter_digits m Hok Hl) as [_ Hd].
  - unfold put_str. rewrite decide_False; [done|]. rewrite ref_text_length, Haf, Eml by done. unfold read_len.
    destruct (Z.ltb_spec (masklen m) 0); [|lia]. fold (width (bits m - 1)). rewrite Hd. unfold room in Hb. lia.
  - unfold put_str. destruct (decide _) as [Hlen|]; [|done]. cbn [mbind outcome_bind]. apply (IH fuel _ (shorter m)); try assumption.
    + by apply shorter_within.
    + by apply never_referred_shorter.
    + by apply string_at_app, text_no_nul.
    + unfold room. rewrite Haf, Ebits, length_app. cbn [length]. rewrite length_drop. unfold room in Hb. lia.
    + rewrite Eml. unfold read_len. destruct (Z.ltb_spec (masklen m) 0); lia.
    + lia.
Qed.

End NetworkValues.

(** The values of all turns: the network and those around it, down to the length
    0 and to -1, then the network of the address zero with every length. *)
Definition tried (m : netinfo) : list cstr :=
  ((λ k, network_text (cut m k)) <$> seqZ (-1) (masklen m + 2))
  ++ ((λ k, network_text (cut (cut m 0) k)) <$> seqZ (-1) (bits m + 1)).
Definition on_the_way (m n : netinfo) : Prop :=
  ni_ok n ∧ af n = af m ∧ -1 ≤ masklen n ≤ bits m ∧
  ((masklen n ≤ masklen m ∧ addr_bytes n = mask_bytes (addr_bytes m) (masklen n)) ∨ (addr_val n = 0 ∧ masklen n < bits m)).

Lemma same_text a b : ni_ok a → ni_ok b → same_network a b → network_text a = network_text b.
Proof.
  intros Ha Hb (Haf & Hl & Hby). unfold network_text. by rewrite !addrstring_Some, Haf, Hl, Hby by done.
Qed.
Lemma addr_val_inj a b : ni_ok a → ni_ok b → af a = af b → addr_val a = addr_val b → addr_bytes a = addr_bytes b.
Proof.
  intros [Ha Hla]%addr_bytes_ok [Hb Hlb]%addr_bytes_ok Haf Hv. apply (be_val_inj _ _ Ha Hb); [|exact Hv].
  rewrite Hla, Hlb. unfold numbytes. by rewrite Haf.
Qed.
Lemma cut_zero_val n k : ni_ok n → k ≤ bits n → addr_val n = 0 → addr_val (cut n k) = 0.
Proof.
  intros Hok Hk Hz. destruct (Z.leb_spec k 0); [by apply cut_zero|]. destruct (addr_bytes_ok n Hok) as [Hb Hl].
  assert (k ≤ 8 * Z.of_nat (length (addr_bytes n))) as Hk' by (rewrite Hl; exact Hk).
  unfold addr_val in Hz. pose proof (mask_bytes_val (addr_bytes n) k Hb ltac:(lia)) as E. rewrite Hz, Zdiv_0_l in E.
  unfold addr_val. rewrite (cut_bytes n k Hok). exact E.
Qed.
Lemma on_the_way_shorter m n : ni_ok m → masked m → on_the_way m n → on_the_way m (shorter n).
Proof.
  intros Hm [Hml _] (Hok & Haf & Hl & Hor). assert (bits n = bits m) as Eb by (unfold bits, numbytes; by rewrite Haf).
  rewrite <-Eb in Hl. destruct (shorter_facts n Hok Hl) as (Hok' & Haf' & Eb' & El & Hl' & _).
  split; [done|]. split; [congruence|]. split; [lia|]. unfold read_len in El.
  assert (addr_val n = 0 → addr_val (shorter n) = 0) as Hzero.
  { intros Hz. apply cut_zero_val; [done| |done]. pose proof (read_len_range n Hok Hl). lia. }
  destruct Hor as [[Hle Hby]|[Hz _]]; [|right; split; [by apply Hzero|destruct (Z.ltb_spec (masklen n) 0); lia]].
  destruct (Z.ltb_spec 0 (masklen n)).
  - left. rewrite (proj2 (Z.ltb_ge _ _)) in El by lia. split; [lia|].
    rewrite El. unfold shorter. rewrite (cut_bytes n _ Hok). unfold read_len. rewrite (proj2 (Z.ltb_ge (masklen n) 0)) by lia. rewrite Hby.
    destruct (addr_bytes_ok m Hm) as [Hb Hlen]. apply mask_bytes_mask; [done|lia|]. rewrite Hlen. unfold bits in Hml. lia.
  - right. split; [|destruct (Z.ltb_spec (masklen n) 0); lia]. apply Hzero. unfold addr_val. rewrite Hby. apply mask_bytes_zero. lia.
Qed.
Lemma on_the_way_tried m n : ni_ok m → on_the_way m n → network_text n ∈ tried m.
Proof.
  intros Hm (Hok & Haf & Hl & Hor). apply elem_of_app. destruct Hor as [[Hle Hby]|[Hz Hlt]].
  - left. apply list_elem_of_fmap. exists (masklen n). split; [|apply elem_of_seqZ; lia].
    apply same_text; [done|by apply cut_ok|]. destruct (cut_fields m (masklen n)) as [E1 E2]. split; [congruence|]. split; [done|].
    by rewrite cut_bytes.
  - right. apply list_elem_of_fmap. exists (masklen n). split; [|apply elem_of_seqZ; lia].
    destruct (cut_fields (cut m 0) (masklen n)) as [E1 E2], (cut_fields m 0) as [E3 _].
    assert (ni_ok (cut m 0)) as Hok0 by by apply cut_ok.
    apply same_text; [done|by apply cut_ok|]. split; [congruence|]. split; [done|].
    apply addr_val_inj; [done|by apply cut_ok|congruence|]. rewrite Hz. symmetry.
    assert (bits (cut m 0) = bits m) as Eb by (unfold bits, numbytes; by rewrite E3).
    apply (cut_zero_val _ _ Hok0); [rewrite Eb; apply Hl|]. apply (cut_zero m 0 Hm). lia.
Qed.
Lemma tried_never_referred search aa m :
  ni_ok m → masked m → (∀ v, v ∈ tried m → unreferred search aa v) → never_referred search aa m.
Proof.
  intros Hok Hm H i. apply H, on_the_way_tried; [done|]. induction i as [|i IH]; [|by apply on_the_way_shorter].
  cbn. destruct Hm as [Hl Hby]. split; [exact Hok|]. split; [reflexivity|]. split; [lia|]. left. split; [lia|exact (eq_sym Hby)].
Qed.

(** the texts of networks are words *)
Definition text_char (c : ascii) : bool := plain c && bool_decide (c ≠ SLASH).
Lemma text_char_facts c : (numeral_char c = true ∨ isdigit c = true ∨ c = DOT ∨ c = chr 58) → plain c = true.
Proof. revert c. by_ascii. all: intros [?|[?|[?|?]]]; done. Qed.
Lemma hexdigit_plain d : 0 ≤ d < 16 → plain (hexdigit d) = true.
Proof.
  intros Hd. assert (forallb (λ d, bool_decide (d < 16 → plain (hexdigit d) = true)) all_bytes = true) as H by by vm_compute.
  apply (bytes_check _ d) in H; [apply bool_decide_eq_true in H; apply H; lia|split; lia].
Qed.
Lemma text_plain m : ni_ok m → plain_value (network_text m) ∧ SLASH ∈ strupr_s (network_text m).
Proof.
  intros Hok. assert (SLASH ∈ strupr_s (network_text m)) as Hs.
  { unfold strupr_s, network_text. apply list_elem_of_fmap. exists SLASH. split; [done|]. apply elem_of_app. right. left. }
  split; [|exact Hs]. split_and!.
  - unfold network_text. rewrite (addrstring_Some m Hok). cbn [default]. unfold id. destruct (addr_bytes_ok m Hok) as [Hb _].
    rewrite Forall_app, Forall_cons. split_and!; [|by vm_compute|].
    + apply Forall_forall. intros c Hc. destruct (af m =? AF_INET).
      * apply quad_chars in Hc; [|done]. apply text_char_facts. destruct Hc as [->|Hc]; auto.
      * apply groups_chars in Hc; [|done]. destruct Hc as [->|(d & Hd & ->)]; [apply text_char_facts; auto|by apply hexdigit_plain].
    + eapply Forall_impl; [apply print_Z_chars|]. intros c Hc. apply text_char_facts. by left.
  - rewrite ref_text_length by done. destruct (af m =? AF_INET); lia.
  - intros E. rewrite E in Hs. revert Hs. apply (bool_decide_unpack _). by vm_compute.
Qed.
Lemma network_query is_class is_attr aa m : is_class ($"REFERRAL") = true → is_attr ($"REFERRED-AUTH-AREA") = true →
  (∀ v, is_attr v = true → SLASH ∉ v) → ni_ok m → -1 ≤ masklen m ≤ bits m →
  build_referral_query is_class is_attr (network_text m) aa = Ret (Some (referral_query (network_text m) aa), []).
Proof.
  intros Hc Ha Hn Hok Hl. destruct (text_plain m Hok) as [Hp Hs]. apply build_plain; try assumption.
  - rewrite ref_text_length by done. assert (length (print_Z (masklen m)) ≤ 3)%nat; [|clear -H; destruct (af m =? AF_INET); cbn [Nat.add]; lia].
    destruct (Z.ltb_spec (masklen m) 0); [assert (masklen m = -1) as -> by lia; change (length (print_Z (-1))) with 2%nat; lia|].
    assert (is_byte (masklen m)) as Hb by (destruct (bits_af m) as [[_ ?]|[_ ?]]; split; lia).
    by pose proof (bytes_check _ _ Hb print_len_check) as H'%bool_decide_eq_true.
  - destruct (is_attr (strupr_s (network_text m))) eqn:E; [|done]. by destruct (Hn _ E).
Qed.

(** C13: for a network the server finds the referrals of the network itself or,
    if it has none, of the network that is one bit shorter and so on, up to the
    first one outside of the authority area.  This needs an area whose network
    does not start with the address zero: the length 0 is else followed by -1,
    which reads as that of an address (see the next theorem). *)
Theorem down_referral_network ni0 search is_class is_attr m aa nia fuel :
  length (prefix ni0) = 16%nat → bytes_ok (prefix ni0) → ni_ok m → masked m →
  re_match NETWORK_REGEXP aa = true → get_network_prefix_and_len (Some aa) ni0 = Some nia →
  hierarchical_value_within_aa ni0 (network_text m) NETWORK aa = true → addr_val nia ≠ 0 → masklen m < Z.of_nat fuel →
  get_down_referral ni0 search is_class is_attr fuel (network_text m) NETWORK aa [] =
  first_referral search is_class is_attr aa false (network_values ni0 aa (Z.to_nat (masklen m)) m).
Proof.
  intros Hl Hb Hok Hm Hre Hg Hw Hz Hf. assert (0 ≤ masklen m ≤ bits m) as Hr by by destruct Hm.
  pose proof (text_ne m) as Hne. unfold get_down_referral. destruct (network_text m) as [|c s] eqn:Et; [done|].
  destruct aa as [|d a] eqn:Ea; [done|]. rewrite <-Et, <-Ea in *. apply down_loop_values.
  - apply (network_values_from ni0 Hl Hb aa nia Hre Hg); try assumption.
    + lia.
    + apply (within_text ni0 Hl Hb aa nia Hre Hg); [done|lia|done|exact Hw].
    + by apply string_at_app, text_no_nul.
    + rewrite length_app. cbn [length]. lia.
  - pose proof (network_values_length ni0 Hl aa (Z.to_nat (masklen m)) m). lia.
Qed.

(** C14: in an area whose network starts with the address zero, as 0.0.0.0/0
    does, a network of the area is never answered if there is no referral
    record for it, for a network around it, or for one that starts with the
    address zero (see [tried]); whatever other records the server holds.  The
    length goes down to 0 and to -1, which reads as that of an address, and the
    search starts again, for ever; if the length of the value has fewer digits
    than that of an address, the text of the next network runs over the end of
    the copy of the value instead. *)
Theorem down_referral_zero_network ni0 search is_class is_attr m aa nia :
  length (prefix ni0) = 16%nat → bytes_ok (prefix ni0) → ni_ok m → masked m →
  re_match NETWORK_REGEXP aa = true → get_network_prefix_and_len (Some aa) ni0 = Some nia →
  hierarchical_value_within_aa ni0 (network_text m) NETWORK aa = true → addr_val nia = 0 →
  is_class ($"REFERRAL") = true → is_attr ($"REFERRED-AUTH-AREA") = true → (∀ v, is_attr v = true → SLASH ∉ v) →
  (∀ v, v ∈ tried m → ∃ r, search (referral_query v aa) 1 = Ret r ∧ default [] r.2 = []) →
  (width (masklen m) = width (bits m) →
     ∀ fuel, get_down_referral ni0 search is_class is_attr fuel (network_text m) NETWORK aa [] = NoFuel) ∧
  ((width (masklen m) < width (bits m))%nat →
     ∀ fuel, masklen m + 1 < Z.of_nat fuel →
       get_down_referral ni0 search is_class is_attr fuel (network_text m) NETWORK aa [] = Fault).
Proof.
  intros Hl Hb Hok Hm Hre Hg Hw Hz Hc Ha Hn Hs. assert (-1 ≤ masklen m ≤ bits m) as Hr by (destruct Hm; lia).
  assert (in_network m nia) as Hin by (apply (within_text ni0 Hl Hb aa nia Hre Hg); [done|lia|done|exact Hw]).
  apply (tried_never_referred search aa m Hok Hm) in Hs.
  assert (∀ m, ni_ok m → -1 ≤ masklen m ≤ bits m →
    build_referral_query is_class is_attr (network_text m) aa = Ret (Some (referral_query (network_text m) aa), [])) as Hwf
    by (intros m' Hm' Hl'; by apply network_query).
  assert (∀ fuel, get_down_referral ni0 search is_class is_attr fuel (network_text m) NETWORK aa [] =
    down_loop ni0 search is_class is_attr fuel NETWORK aa (network_text m ++ [NUL]) false []) as E.
  { intros fuel. pose proof (text_ne m). unfold get_down_referral. destruct (network_text m); [done|]. by destruct aa. }
  assert (string_at (network_text m ++ [NUL]) 0 = network_text m) as Et by by apply string_at_app, text_no_nul.
  assert (length (network_text m ++ [NUL]) = S ((if (af m =? AF_INET)%Z then 15 else 39) + 1 + width (masklen m))) as El.
  { rewrite length_app, ref_text_length by done. cbn [length]. unfold width. lia. }
  split; intros Hd fuel; [|intros Hf]; rewrite E.
  - apply (loops ni0 Hl Hb search is_class is_attr aa nia Hre Hg Hz Hwf fuel _ m); try assumption; [done|].
    rewrite El. unfold room. lia.
  - apply (overflows ni0 Hl Hb search is_class is_attr aa nia Hre Hg Hz Hwf (Z.to_nat (masklen m + 1)) fuel _ m); try assumption.
    + intros _. exact Hm.
    + rewrite El. unfold room. lia.
    + lia.
    + lia.
Qed.

(** the value that is looked for is such a text *)
Lemma hierarchical_value_network_text ni0 value m : value ≠ [] → length (prefix ni0) = 16%nat → bytes_ok (prefix ni0) →
  get_network_prefix_and_len (Some value) ni0 = Some m →
  ni_ok m ∧ masked m ∧ hierarchical_value_network ni0 value = Ret (Some (network_text m)).
Proof.
  intros Hv Hl Hb Hg. pose proof Hg as [Hok Hm]%get_network_ok; [|done..]. split; [exact Hok|]. split; [exact Hm|].
  destruct (addrstring_canonical m Hok) as (s & Hs & [Hlen _ _]). pose proof (text_no_nul m Hok) as HN. pose proof (ref_text_length m Hok) as Htl.
  unfold hierarchical_value_network. destruct value as [|c v]; [done|]. rewrite Hg. unfold write_network. rewrite (natop_ok m s Hok Hs).
  cbn [mbind outcome_bind]. assert (s ++ chr 47 :: print_Z (masklen m) = network_text m) as -> by (unfold network_text; by rewrite Hs).
  assert (is_byte (masklen m)) as Hby by (destruct Hm as [? _]; destruct (bits_af m) as [[_ ?]|[_ ?]]; split; lia).
  pose proof (bytes_check _ _ Hby print_len_check) as Hp%bool_decide_eq_true.
  rewrite put_str_ok; [|rewrite length_replicate; unfold MAX_LINE; destruct (af m =? AF_INET); cbn [Nat.add] in Htl; lia].
  cbn [mbind outcome_bind snd option_map]. by rewrite string_at_app.
Qed.

Definition demo_area : cstr := $"0.0.0.0/0".
Definition demo_uninit : netinfo := NetInfo 0 0 (replicate 16 0).
Definition demo_host : netinfo := NetInfo AF_INET 32 ([10; 1; 2; 3] ++ replicate 12 0).
Definition demo_net : netinfo := NetInfo AF_INET 8 ([10; 0; 0; 0] ++ replicate 12 0).
Definition demo_zero : netinfo := NetInfo AF_INET 0 (replicate 16 0).
Definition demo_empty : database := λ _ _, Ret (0, SEARCH_SUCCESSFUL, None).

(** a referral record for 192.168.0.0/16; queries of other classes find it, too *)
Definition demo_attribute (i : Z) (name : cstr) : attribute_struct :=
  Attribute i i false false false false false false [] name None INDEX_NONE TYPE_TEXT None.
Definition demo_record : record_struct :=
  Record_ (Class_ 0 ($"referral") [] ($"data") None [] None None None)
    (AuthArea demo_area None AUTH_AREA_PRIMARY None (Soa None None [] 0 0 0 0) None None None None 0 None None) 0 0 0
    [AvPair (demo_attribute 0 ($"Referred-Auth-Area")) (Some $"192.168.0.0/16");
     AvPair (demo_attribute 1 ($"Referral")) (Some $"rwhois://rwhois.a.net:4321")].
Definition demo_elsewhere : database := λ q _,
  if bool_decide (q_class_name q = Some $"REFERRAL")
     && negb (bool_decide (search_value <$> query_tree q = Some $"192.168.0.0/16"))
  then Ret (0, SEARCH_SUCCESSFUL, None) else Ret (1, SEARCH_SUCCESSFUL, Some [demo_record]).

Lemma down_referral_network_witness :
  get_down_referral demo_uninit demo_empty demo_class demo_attr 33 (network_text demo_host) NETWORK ($"10.0.0.0/8") [] =
  first_referral demo_empty demo_class demo_attr ($"10.0.0.0/8") false (network_values demo_uninit ($"10.0.0.0/8") 32 demo_host).
Proof.
  apply (down_referral_network demo_uninit demo_empty demo_class demo_attr demo_host ($"10.0.0.0/8") demo_net 33).
  - reflexivity.
  - by_decision.
  - by_decision.
  - split; [split; discriminate|vm_compute; reflexivity].
  - vm_compute. reflexivity.
  - vm_compute. reflexivity.
  - vm_compute. reflexivity.
  - discriminate.
  - reflexivity.
Defined.

Lemma down_referral_zero_network_witness :
  demo_elsewhere (referral_query ($"192.168.0.0/16") demo_area) 1 = Ret (1, SEARCH_SUCCESSFUL, Some [demo_record]) ∧
  ∀ fuel, get_down_referral demo_uninit demo_elsewhere demo_class demo_attr fuel (network_text demo_host) NETWORK demo_area [] = NoFuel.
Proof.
  split; [vm_compute; reflexivity|]. apply (down_referral_zero_network demo_uninit demo_elsewhere demo_class demo_attr demo_host demo_area demo_zero).
  - reflexivity.
  - by_decision.
  - by_decision.
  - split; [split; discriminate|vm_compute; reflexivity].
  - vm_compute. reflexivity.
  - vm_compute. reflexivity.
  - vm_compute. reflexivity.
  - vm_compute. reflexivity.
  - reflexivity.
  - reflexivity.
  - intros v Hv. apply bool_decide_eq_true in Hv. subst v. by_decision.
  - intros v Hv. exists (0, SEARCH_SUCCESSFUL, None). split; [|reflexivity].
    assert (forallb (λ v, negb (bool_decide (strupr_s v = $"192.168.0.0/16"))) (tried demo_host) = true) as H by (vm_compute; reflexivity).
    rewrite forallb_forall in H. specialize (H v (proj1 (list_elem_of_In _ _) Hv)). apply negb_true_iff, bool_decide_eq_false in H.
    unfold demo_elsewhere. cbn [referral_query q_class_name query_tree fmap option_fmap option_map search_value].
    rewrite (bool_decide_true (Some $"REFERRAL" = Some $"REFERRAL")) by done. rewrite bool_decide_false; [done|congruence].
  - reflexivity.
Defined.

(** ** The check of a referral record *)

(** The check of a referral record looks at its first attribute only: if that
    is the name of the referred area, the record passes if the area is within
    the one of the record; if it is any other, the check never ends. *)
Theorem referral_rec_check_first ni0 rec av avs : av_pair_list rec = av :: avs →
  (STR_EQ (attr_name (av_attr av)) ($"Referred-Auth-Area") = false → ∀ fuel, referral_rec_check ni0 fuel (Some rec) = NoFuel) ∧
  (∀ v fuel, STR_EQ (attr_name (av_attr av)) ($"Referred-Auth-Area") = true → av_value av = Some v →
     referral_rec_check ni0 (S fuel) (Some rec) =
     Ret (if is_net v then within_network ni0 v (aa_name (rec_auth_area rec))
          else if is_domain v then within_domain v (aa_name (rec_auth_area rec)) else false, [])).
Proof.
  intros Hav. split.
  - intros Hn fuel. cbn [referral_rec_check]. induction fuel as [|fuel IH]; [done|]. cbn [rec_check_loop]. by rewrite Hav, Hn.
  - intros v fuel Hn Hv. cbn [referral_rec_check rec_check_loop]. by rewrite Hav, Hn, Hv.
Qed.

(** ** What a term is answered *)

(** the areas that a value is not within do not count; a value outside of all
    of them is referred to what the punt file names *)
Lemma refer_outside ni0 search is_class is_attr class_refs aas fs punt_file is_root_server fuel value htype hvalue :
  parse_hierarchical_value ni0 value = Ret (Some (htype, hvalue)) →
  Forall (λ aa, hierarchical_value_within_aa ni0 hvalue htype (aa_name aa) = false) aas →
  refer_query_term ni0 search is_class is_attr class_refs (Some aas) fs punt_file is_root_server fuel value [] =
  ('(ok, l) ← get_up_referral fs punt_file is_root_server []; Ret (ok, l, [])).
Proof.
  intros Hp Ha. unfold refer_query_term. rewrite Hp. cbn [mbind outcome_bind].
  assert (areas_loop ni0 search is_class is_attr class_refs fuel hvalue htype aas false false [] = Ret (false, false, [], [])) as ->; [|done].
  induction Ha as [|aa aas Hw _ IH]; [done|]. cbn [areas_loop]. by rewrite Hw.
Qed.
