(* ===== verification/MainConfig.v ===== *)
(** * The configuration of the server (common/main_config.c)

    The struct of the data that the configuration file holds, with what sets
    and gets its parts; reading the file, the compiled defaults, the checks and
    writing it. *)

From stdpp Require Import functions.
From S2P Require Import Prelude CLib CString Misc IpNetwork Types ClientMsgs Stdio Records FilePath FileInfo ConfigFile FileNames Attributes Schema AuthArea Query.
Local Open Scope Z_scope.

(** ** Tags of the file (main_config.h) *)

Definition I_DEFAULT_DIR : cstr := $"default-dir".
Definition I_ROOT_DIR : cstr := $"root-dir".
Definition I_BIN_LOC : cstr := $"bin-loc".
Definition I_BIN_PATH : cstr := $"bin-path".
Definition I_NOTIFY_LOG : cstr := $"notify-log".
Definition I_DIRECTIVE_FILE : cstr := $"directive-file".
Definition I_X_DIRECTIVE_FILE : cstr := $"x-directive-file".
Definition I_AUTH_AREA_FILE : cstr := $"auth-area-file".
Definition I_REGISTER_LOG : cstr := $"register-log".
Definition I_REGISTER_SPOOL : cstr := $"register-spool".
Definition I_PUNT_FILE : cstr := $"punt-file".
Definition I_SECURITY_ALLOW : cstr := $"security-allow".
Definition I_SECURITY_DENY : cstr := $"security-deny".
Definition I_HOSTNAME : cstr := $"local-host".
Definition I_PROC_USERID : cstr := $"userid".
Definition I_CHROOTED : cstr := $"chrooted".
Definition I_DEADMAN : cstr := $"deadman-time".
Definition I_MAX_HITS_CEILING : cstr := $"max-hits-ceiling".
Definition I_MAX_HITS_DEFAULT : cstr := $"max-hits-default".
Definition I_PORT : cstr := $"local-port".
Definition I_IS_ROOT_SERVER : cstr := $"root-server".
Definition I_SERVER_TYPE : cstr := $"server-type".
Definition I_BACKGROUND : cstr := $"background".
Definition I_VERBOSITY : cstr := $"verbosity".
Definition I_PID_FILE : cstr := $"pid-file".
Definition I_SERVER_CONTACT : cstr := $"server-contact".
Definition I_USE_SYSLOG : cstr := $"use-syslog".
Definition I_SYSLOG_FACILITY : cstr := $"syslog-facility".
Definition I_LOG_DEFAULT_FILE : cstr := $"default-log-file".
Definition I_LOG_EMERG : cstr := $"emergency-log-file".
Definition I_LOG_ALERT : cstr := $"alert-log-file".
Definition I_LOG_CRIT : cstr := $"crit-log-file".
Definition I_LOG_ERR : cstr := $"err-log-file".
Definition I_LOG_WARN : cstr := $"warn-log-file".
Definition I_LOG_NOTICE : cstr := $"notice-log-file".
Definition I_LOG_INFO : cstr := $"info-log-file".
Definition I_LOG_DEBUG : cstr := $"debug-log-file".
Definition I_QUERY_ALLOW_WILD : cstr := $"query-allow-wildcard".
Definition I_QUERY_ALLOW_SUBSTR : cstr := $"query-allow-substr".
Definition I_MAX_CHILDREN : cstr := $"max-children".
Definition I_CIDR_SEARCH_DIR : cstr := $"cidr-search-direction".
Definition I_SKIP_REFERAL_SEARCH : cstr := $"skip-referral-search".
Definition I_LISTEN_QUEUE : cstr := $"listen-queue-length".
Definition I_CHILD_PRIORITY : cstr := $"child-priority-offset".

(** ** The struct *)

(** the character arrays of the struct, in its order *)
Inductive str_field :=
  | root_dir | bin_path | notify_log | directive_file | x_directive_file | auth_area_file | register_log
  | register_spool | punt_file | security_allow | security_deny | hostname | process_userid | pid_file
  | log_default_file | log_emerg_file | log_alert_file | log_crit_file | log_err_file | log_warn_file
  | log_notice_file | log_info_file | log_debug_file | server_contact.
(** its integers *)
Inductive int_field :=
  | use_syslog | log_facility | chrooted | default_deadman_time | max_hits_ceiling | max_hits_default | port
  | root_server | server_type | background | verbose | query_allow_wild | query_allow_substr | max_children
  | skip_referral_search | listen_queue_length | child_priority_offset.
#[export] Instance str_field_eq : EqDecision str_field.
Proof. solve_decision. Defined.
#[export] Instance int_field_eq : EqDecision int_field.
Proof. solve_decision. Defined.
(** an array holds a string *)
Record server_config_struct := ServerConfig { strs : str_field → cstr; ints : int_field → Z }.
(** the sizes of the arrays *)
Definition array_size (f : str_field) : nat :=
  match f with hostname | process_userid | server_contact => MAX_LINE | _ => Z.to_nat MAX_FILE end.

Definition DAEMON_SERVER : Z := 0.
Definition INETD_SERVER : Z := 1.
(** the state of the session *)
Record server_state_struct := ServerState { limit : Z; holdconnect : bool; forward : bool; display : cstr }.

(** ** Getting and setting *)

(** strncpy to the array; a longer string would leave it without an end *)
Definition set_str (f : str_field) (v : cstr) (c : server_config_struct) : outcome server_config_struct :=
  if decide (length v < array_size f)%nat then Ret (ServerConfig (<[f:=v]> (strs c)) (ints c)) else Fault.
Definition set_int (i : int_field) (v : Z) (c : server_config_struct) : server_config_struct :=
  ServerConfig (strs c) (<[i:=v]> (ints c)).
Definition int_of (b : bool) : Z := if b then 1 else 0.

Definition set_bin_path (v : cstr) : server_config_struct → outcome server_config_struct := set_str bin_path v.
Definition set_notify_log (v : cstr) : server_config_struct → outcome server_config_struct := set_str notify_log v.
Definition set_log_default (v : cstr) : server_config_struct → outcome server_config_struct := set_str log_default_file v.
Definition set_log_emerg (v : cstr) : server_config_struct → outcome server_config_struct := set_str log_emerg_file v.
Definition set_log_alert (v : cstr) : server_config_struct → outcome server_config_struct := set_str log_alert_file v.
Definition set_log_crit (v : cstr) : server_config_struct → outcome server_config_struct := set_str log_crit_file v.
Definition set_log_err (v : cstr) : server_config_struct → outcome server_config_struct := set_str log_err_file v.
Definition set_log_warn (v : cstr) : server_config_struct → outcome server_config_struct := set_str log_warn_file v.
Definition set_log_notice (v : cstr) : server_config_struct → outcome server_config_struct := set_str log_notice_file v.
Definition set_log_info (v : cstr) : server_config_struct → outcome server_config_struct := set_str log_info_file v.
Definition set_log_debug (v : cstr) : server_config_struct → outcome server_config_struct := set_str log_debug_file v.
Definition set_directive_file (v : cstr) : server_config_struct → outcome server_config_struct := set_str directive_file v.
Definition set_x_directive_file (v : cstr) : server_config_struct → outcome server_config_struct := set_str x_directive_file v.
Definition set_auth_area_file (v : cstr) : server_config_struct → outcome server_config_struct := set_str auth_area_file v.
Definition set_register_log (v : cstr) : server_config_struct → outcome server_config_struct := set_str register_log v.
Definition set_register_spool (v : cstr) : server_config_struct → outcome server_config_struct := set_str register_spool v.
Definition set_punt_file (v : cstr) : server_config_struct → outcome server_config_struct := set_str punt_file v.
Definition set_security_allow (v : cstr) : server_config_struct → outcome server_config_struct := set_str security_allow v.
Definition set_security_deny (v : cstr) : server_config_struct → outcome server_config_struct := set_str security_deny v.
Definition set_local_hostname (v : cstr) : server_config_struct → outcome server_config_struct := set_str hostname v.
Definition set_process_userid (v : cstr) : server_config_struct → outcome server_config_struct := set_str process_userid v.
Definition set_pid_file (v : cstr) : server_config_struct → outcome server_config_struct := set_str pid_file v.
Definition set_server_contact (v : cstr) : server_config_struct → outcome server_config_struct := set_str server_contact v.
Definition set_default_deadman_time (v : Z) : server_config_struct → server_config_struct := set_int default_deadman_time v.
Definition set_max_hits_ceiling (v : Z) : server_config_struct → server_config_struct := set_int max_hits_ceiling v.
Definition set_max_hits_default (v : Z) : server_config_struct → server_config_struct := set_int max_hits_default v.
Definition set_port (v : Z) : server_config_struct → server_config_struct := set_int port v.
Definition set_server_type (v : Z) : server_config_struct → server_config_struct := set_int server_type v.
Definition set_verbosity (v : Z) : server_config_struct → server_config_struct := set_int verbose v.
Definition set_max_children (v : Z) : server_config_struct → server_config_struct := set_int max_children v.
Definition set_listen_queue_length (v : Z) : server_config_struct → server_config_struct := set_int listen_queue_length v.
Definition set_child_priority (v : Z) : server_config_struct → server_config_struct := set_int child_priority_offset v.
Definition set_chrooted (b : bool) : server_config_struct → server_config_struct := set_int chrooted (int_of b).
Definition set_root_server (b : bool) : server_config_struct → server_config_struct := set_int root_server (int_of b).
Definition set_background (b : bool) : server_config_struct → server_config_struct := set_int background (int_of b).
Definition set_query_allow_wild (b : bool) : server_config_struct → server_config_struct := set_int query_allow_wild (int_of b).
Definition set_query_allow_substr (b : bool) : server_config_struct → server_config_struct := set_int query_allow_substr (int_of b).
Definition set_skip_referral_search (b : bool) : server_config_struct → server_config_struct := set_int skip_referral_search (int_of b).
Definition set_chrooted_str (str : cstr) : server_config_struct → server_config_struct := set_chrooted (true_false str).
Definition set_root_server_str (str : cstr) : server_config_struct → server_config_struct := set_root_server (true_false str).
Definition set_use_syslog (str : cstr) : server_config_struct → server_config_struct := set_int use_syslog (int_of (true_false str)).
Definition set_server_type_str (str : cstr) : server_config_struct → server_config_struct :=
  set_int server_type (if STR_EQ str ($"INETD") then INETD_SERVER else DAEMON_SERVER).

Definition get_root_dir (c : server_config_struct) : cstr := strs c root_dir.
Definition get_bin_path (c : server_config_struct) : cstr := strs c bin_path.
Definition get_notify_log (c : server_config_struct) : cstr := strs c notify_log.
Definition get_log_default (c : server_config_struct) : cstr := strs c log_default_file.
Definition get_log_emerg (c : server_config_struct) : cstr := strs c log_emerg_file.
Definition get_log_alert (c : server_config_struct) : cstr := strs c log_alert_file.
Definition get_log_crit (c : server_config_struct) : cstr := strs c log_crit_file.
Definition get_log_err (c : server_config_struct) : cstr := strs c log_err_file.
Definition get_log_warn (c : server_config_struct) : cstr := strs c log_warn_file.
Definition get_log_notice (c : server_config_struct) : cstr := strs c log_notice_file.
Definition get_log_info (c : server_config_struct) : cstr := strs c log_info_file.
Definition get_log_debug (c : server_config_struct) : cstr := strs c log_debug_file.
Definition get_directive_file (c : server_config_struct) : cstr := strs c directive_file.
Definition get_x_directive_file (c : server_config_struct) : cstr := strs c x_directive_file.
Definition get_auth_area_file (c : server_config_struct) : cstr := strs c auth_area_file.
Definition get_register_log (c : server_config_struct) : cstr := strs c register_log.
Definition get_register_spool (c : server_config_struct) : cstr := strs c register_spool.
Definition get_punt_file (c : server_config_struct) : cstr := strs c punt_file.
Definition get_security_allow (c : server_config_struct) : cstr := strs c security_allow.
Definition get_security_deny (c : server_config_struct) : cstr := strs c security_deny.
Definition get_local_hostname (c : server_config_struct) : cstr := strs c hostname.
Definition get_process_userid (c : server_config_struct) : cstr := strs c process_userid.
Definition get_pid_file (c : server_config_struct) : cstr := strs c pid_file.
Definition get_server_contact (c : server_config_struct) : cstr := strs c server_contact.
Definition get_log_facility (c : server_config_struct) : Z := ints c log_facility.
Definition is_chrooted (c : server_config_struct) : Z := ints c chrooted.
Definition is_syslog_used (c : server_config_struct) : Z := ints c use_syslog.
Definition get_default_deadman_time (c : server_config_struct) : Z := ints c default_deadman_time.
Definition get_max_hits_ceiling (c : server_config_struct) : Z := ints c max_hits_ceiling.
Definition get_max_hits_default (c : server_config_struct) : Z := ints c max_hits_default.
Definition get_port (c : server_config_struct) : Z := ints c port.
Definition is_root_server (c : server_config_struct) : Z := ints c root_server.
Definition get_server_type (c : server_config_struct) : Z := ints c server_type.
Definition get_background (c : server_config_struct) : Z := ints c background.
Definition get_verbosity (c : server_config_struct) : Z := ints c verbose.
Definition get_query_allow_wild (c : server_config_struct) : Z := ints c query_allow_wild.
Definition get_query_allow_substr (c : server_config_struct) : Z := ints c query_allow_substr.
Definition get_max_children (c : server_config_struct) : Z := ints c max_children.
Definition get_skip_referral_search (c : server_config_struct) : Z := ints c skip_referral_search.
Definition get_listen_queue_length (c : server_config_struct) : Z := ints c listen_queue_length.
Definition get_child_priority (c : server_config_struct) : Z := ints c child_priority_offset.
Definition is_daemon_server (c : server_config_struct) : bool := get_server_type c =? DAEMON_SERVER.

(** the values of syslog.h *)
Definition LOG_KERN : Z := 0.
Definition LOG_USER : Z := 8.
Definition LOG_MAIL : Z := 16.
Definition LOG_DAEMON : Z := 24.
Definition LOG_AUTH : Z := 32.
Definition LOG_LPR : Z := 48.
Definition LOG_NEWS : Z := 56.
Definition LOG_UUCP : Z := 64.
Definition LOG_CRON : Z := 72.
Definition LOG_LOCAL0 : Z := 128.
Definition LOG_LOCAL1 : Z := 136.
Definition LOG_LOCAL2 : Z := 144.
Definition LOG_LOCAL3 : Z := 152.
Definition LOG_LOCAL4 : Z := 160.
Definition LOG_LOCAL5 : Z := 168.
Definition LOG_LOCAL6 : Z := 176.
Definition LOG_LOCAL7 : Z := 184.
(** an unknown facility changes nothing; -1 *)
Definition set_log_facility (facility : cstr) (c : server_config_struct) : Z * server_config_struct :=
  let named t := STR_EQ facility (lit t) in
  let set v := (1, set_int log_facility v c) in
  if named "LOG_KERN" then set LOG_KERN
  else if named "LOG_USER" then set LOG_USER
  else if named "LOG_MAIL" then set LOG_MAIL
  else if named "LOG_DAEMON" then set LOG_DAEMON
  else if named "LOG_AUTH" then set LOG_AUTH
  else if named "LOG_LPR" then set LOG_LPR
  else if named "LOG_NEWS" then set LOG_NEWS
  else if named "LOG_UUCP" then set LOG_UUCP
  else if named "LOG_CRON" then set LOG_CRON
  else if named "LOG_LOCAL0" then set LOG_LOCAL0
  else if named "LOG_LOCAL1" then set LOG_LOCAL1
  else if named "LOG_LOCAL2" then set LOG_LOCAL2
  else if named "LOG_LOCAL3" then set LOG_LOCAL3
  else if named "LOG_LOCAL4" then set LOG_LOCAL4
  else if named "LOG_LOCAL5" then set LOG_LOCAL5
  else if named "LOG_LOCAL6" then set LOG_LOCAL6
  else if named "LOG_LOCAL7" then set LOG_LOCAL7
  else (-1, c).
Definition get_log_facility_str (facility_val : Z) : cstr :=
  if facility_val =? LOG_KERN then $"log_kern"
  else if facility_val =? LOG_USER then $"log_user"
  else if facility_val =? LOG_MAIL then $"log_mail"
  else if facility_val =? LOG_DAEMON then $"log_daemon"
  else if facility_val =? LOG_AUTH then $"log_auth"
  else if facility_val =? LOG_LPR then $"log_lpr"
  else if facility_val =? LOG_NEWS then $"log_news"
  else if facility_val =? LOG_UUCP then $"log_uucp"
  else if facility_val =? LOG_CRON then $"log_cron"
  else if facility_val =? LOG_LOCAL0 then $"log_local0"
  else if facility_val =? LOG_LOCAL1 then $"log_local1"
  else if facility_val =? LOG_LOCAL2 then $"log_local2"
  else if facility_val =? LOG_LOCAL3 then $"log_local3"
  else if facility_val =? LOG_LOCAL4 then $"log_local4"
  else if facility_val =? LOG_LOCAL5 then $"log_local5"
  else if facility_val =? LOG_LOCAL6 then $"log_local6"
  else if facility_val =? LOG_LOCAL7 then $"log_local7"
  else $"unknown".
Definition get_server_type_str (serv_type : Z) : cstr :=
  if serv_type =? INETD_SERVER then $"inetd" else if serv_type =? DAEMON_SERVER then $"daemon" else [].

(** the state: a wrong value changes nothing *)
Definition set_hit_limit (v : Z) (s : server_state_struct) : server_state_struct := ServerState v (holdconnect s) (forward s) (display s).
Definition get_hit_limit (s : server_state_struct) : Z := limit s.
Definition set_holdconnect (val : cstr) (s : server_state_struct) : bool * server_state_struct :=
  if STR_EQ val ($"OFF") then (true, ServerState (limit s) false (forward s) (display s))
  else if STR_EQ val ($"ON") then (true, ServerState (limit s) true (forward s) (display s))
  else (false, s).
Definition get_holdconnect (s : server_state_struct) : bool := holdconnect s.
Definition set_forward (val : cstr) (s : server_state_struct) : bool * server_state_struct :=
  if STR_EQ val ($"OFF") then (true, ServerState (limit s) (holdconnect s) false (display s))
  else if STR_EQ val ($"ON") then (true, ServerState (limit s) (holdconnect s) true (display s))
  else (false, s).
Definition get_forward (s : server_state_struct) : bool := forward s.
Definition set_display (mode : cstr) (s : server_state_struct) : outcome server_state_struct :=
  if decide (length mode < MAX_LINE)%nat then Ret (ServerState (limit s) (holdconnect s) (forward s) mode) else Fault.
Definition get_display (s : server_state_struct) : cstr := display s.

Section Server.
(** the directories, the files, what can be executed; the arrays on the stack,
    not initialised *)
Context (directory_exists : cstr → bool) (fs : filesystem) (executable : cstr → bool) (junk junk' : buf).

(** the status is false if there is no such directory *)
Definition set_root_dir (dir : option cstr) (c : server_config_struct) : outcome (bool * server_config_struct) :=
  match dir with
  | Some ((_ :: _) as d) =>
      if directory_exists d then
        c ← set_str root_dir d c;
        b ← trim (Some (d ++ replicate (array_size root_dir - length d) NUL));
        b ← (if (1 <? length d)%nat then strip_trailing b SLASH else Ret b);
        b ← of_option b;
        c ← set_str root_dir (string_at b 0) c;
        Ret (true, c)
      else Ret (false, c)
  | _ => Ret (true, c)
  end.

(** ** The compiled defaults (conf.h) *)

Definition init_server_config_data (sys_gethostname : cstr) : outcome server_config_struct :=
  let c := ServerConfig (λ _, []) (λ _, 0) in
  '(_, c) ← set_root_dir (Some []) c;
  c ← set_bin_path ($"bin") c;
  c ← set_directive_file ($"rwhoisd.dir") c;
  c ← set_x_directive_file ($"rwhoisd.x.dir") c;
  c ← set_punt_file ($"rwhoisd.root") c;
  c ← set_auth_area_file ($"rwhoisd.auth_area") c;
  c ← set_register_spool ($"register_spool") c;
  c ← set_security_allow ($"hosts.allow") c;
  c ← set_security_deny ($"hosts.deny") c;
  c ← set_local_hostname sys_gethostname c;
  let c := set_chrooted false c in
  let c := set_default_deadman_time 200 c in
  let c := set_max_hits_ceiling 2048 c in
  let c := set_max_hits_default 20 c in
  let c := set_port 4321 c in
  let c := set_server_type DAEMON_SERVER c in
  let c := set_background true c in
  let c := set_verbosity 6 c in
  c ← set_pid_file ($"rwhoisd.pid") c;
  c ← set_server_contact [SP] c;
  let c := set_query_allow_wild true c in
  let c := set_query_allow_substr false c in
  let c := set_max_children 0 c in
  let c := set_skip_referral_search false c in
  let c := set_listen_queue_length 5 c in
  let c := set_child_priority 0 c in
  let c := set_use_syslog ($"YES") c in
  let '(_, c) := set_log_facility ($"LOG_DAEMON") c in
  c ← set_log_default ($"rwhoisd.log") c;
  c ← set_log_emerg [] c;
  c ← set_log_alert [] c;
  c ← set_log_crit [] c;
  c ← set_log_err [] c;
  c ← set_log_warn [] c;
  c ← set_log_notice [] c;
  c ← set_log_info [] c;
  set_log_debug [] c.

Definition init_server_state : outcome server_state_struct :=
  let s := ServerState 0 false false [] in
  let s := set_hit_limit 20 s in
  let '(_, s) := set_holdconnect ($"OFF") s in
  let '(_, s) := set_forward ($"OFF") s in
  set_display ($"DUMP") s.

(** ** Reading the file *)

(** a line of the file: is it a fatal error *)
Definition read_config_field (chrooted : bool) (tag datum : cstr) (c : server_config_struct) : outcome (bool * server_config_struct) :=
  let named t := STR_EQ tag t in
  let str (c : outcome server_config_struct) := c ← c; Ret (false, c) in
  let num (c : server_config_struct) := Ret (false, c) in
  if named I_DEFAULT_DIR || named I_ROOT_DIR then
    if negb chrooted then '(ok, c) ← set_root_dir (Some datum) c; Ret (negb ok, c)
    else '(_, c) ← set_root_dir (Some [SLASH]) c; Ret (false, c)
  else if named I_BIN_LOC || named I_BIN_PATH then str (set_bin_path datum c)
  else if named I_NOTIFY_LOG then str (set_notify_log datum c)
  else if named I_DIRECTIVE_FILE then str (set_directive_file datum c)
  else if named I_X_DIRECTIVE_FILE then str (set_x_directive_file datum c)
  else if named I_AUTH_AREA_FILE then str (set_auth_area_file datum c)
  else if named I_REGISTER_LOG then str (set_register_log datum c)
  else if named I_REGISTER_SPOOL then str (set_register_spool datum c)
  else if named I_PUNT_FILE then str (set_punt_file datum c)
  else if named I_SECURITY_ALLOW then str (set_security_allow datum c)
  else if named I_SECURITY_DENY then str (set_security_deny datum c)
  else if named I_HOSTNAME then str (set_local_hostname datum c)
  else if named I_PROC_USERID then str (set_process_userid datum c)
  else if named I_CHROOTED then num (set_chrooted_str datum c)
  else if named I_DEADMAN then num (set_default_deadman_time (atoi datum) c)
  else if named I_MAX_HITS_CEILING then num (set_max_hits_ceiling (atoi datum) c)
  else if named I_MAX_HITS_DEFAULT then num (set_max_hits_default (atoi datum) c)
  else if named I_PORT then num (set_port (atoi datum) c)
  else if named I_SERVER_TYPE then num (set_server_type_str datum c)
  else if named I_BACKGROUND then num (set_background (true_false datum) c)
  else if named I_VERBOSITY then num (set_verbosity (atoi datum) c)
  else if named I_PID_FILE then str (set_pid_file datum c)
  else if named I_SERVER_CONTACT then str (set_server_contact datum c)
  else if named I_LOG_DEFAULT_FILE then str (set_log_default datum c)
  else if named I_LOG_EMERG then str (set_log_emerg datum c)
  else if named I_LOG_ALERT then str (set_log_alert datum c)
  else if named I_LOG_CRIT then str (set_log_crit datum c)
  else if named I_LOG_ERR then str (set_log_err datum c)
  else if named I_LOG_WARN then str (set_log_warn datum c)
  else if named I_LOG_NOTICE then str (set_log_notice datum c)
  else if named I_LOG_INFO then str (set_log_info datum c)
  else if named I_LOG_DEBUG then str (set_log_debug datum c)
  else if named I_USE_SYSLOG then num (set_use_syslog datum c)
  else if named I_SYSLOG_FACILITY then num (set_log_facility datum c).2
  else if named I_QUERY_ALLOW_WILD then num (set_query_allow_wild (true_false datum) c)
  else if named I_QUERY_ALLOW_SUBSTR then num (set_query_allow_substr (true_false datum) c)
  else if named I_MAX_CHILDREN then num (set_max_children (atoi datum) c)
  else if named I_CIDR_SEARCH_DIR then num c
  else if named I_SKIP_REFERAL_SEARCH then num (set_skip_referral_search (true_false datum) c)
  else if named I_LISTEN_QUEUE then num (set_listen_queue_length (atoi datum) c)
  else if named I_CHILD_PRIORITY then num (set_child_priority (atoi datum) c)
  else num c.

Fixpoint read_config_lines (chrooted : bool) (ls : list cstr) (c : server_config_struct) : outcome (bool * server_config_struct) :=
  match ls with
  | [] => Ret (true, c)
  | line :: ls =>
      r ← config_line line;
      match r with
      | None => read_config_lines chrooted ls c
      | Some (tag, datum) =>
          '(fatal, c) ← read_config_field chrooted tag datum c;
          if fatal : bool then Ret (false, c) else read_config_lines chrooted ls c
      end
  end.
Definition read_main_config_file (config_file : cstr) (chrooted : bool) (c : server_config_struct) : outcome (bool * server_config_struct) :=
  match fs config_file with
  | None => Ret (false, c)
  | Some f => ls ← lines_in BUFSIZ f; read_config_lines chrooted ls c
  end.

(** ** Checks behind the reading *)

(** the string in an array *)
Definition string_of (b : buf) : outcome cstr := _ ← strlen b; Ret (cstring b).
(** A path of the configuration, in place.  canonicalize_path does not write
    the new path if the old one is empty. *)
Definition canonicalize_conf_path (path : str_field) (is_file null_allowed : bool) (c : server_config_struct) :
    outcome (bool * server_config_struct) :=
  let size := array_size path in
  '(status, p, canon_path) ← canonicalize_path junk (MAX_FILE + 1) (Some (strs c path ++ replicate (size - length (strs c path)) NUL))
    (Some (get_root_dir c)) (negb (is_chrooted c =? 0)) null_allowed;
  p ← of_option p;
  c ← set_str path (string_at p 0) c;
  if negb status then Ret (false, c)
  else
    canon ← string_of canon_path;
    the_full_path ← (if is_rel_path (Some canon)
                     then b ← path_rel_to_full junk' (MAX_FILE + 1) canon (Some (get_root_dir c)); b ← of_option b; string_of b
                     else Ret canon);
    if negb null_allowed && (if is_file then negb (file_exists fs the_full_path) else negb (directory_exists the_full_path))
    then Ret (false, c)
    else c ← set_str path canon c; Ret (true, c).

Fixpoint canonicalize_conf_paths (l : list (str_field * bool * bool)) (c : server_config_struct) : outcome (bool * server_config_struct) :=
  match l with
  | [] => Ret (true, c)
  | (path, is_file, null_allowed) :: l =>
      '(status, c) ← canonicalize_conf_path path is_file null_allowed c;
      if status : bool then canonicalize_conf_paths l c else Ret (false, c)
  end.
(** [cwd]: what getcwd gives *)
Definition default_root_dir (cwd : cstr) (c : server_config_struct) : outcome server_config_struct :=
  '(_, c) ← (match get_root_dir c with [] => set_root_dir (Some cwd) c | _ => Ret (true, c) end); Ret c.
(** the paths that verify_server_config_data goes through, in front of the look
    at the punt file and behind it *)
Definition verified_paths : list (str_field * bool * bool) :=
  [(bin_path, false, true); (directive_file, true, true); (x_directive_file, true, true); (auth_area_file, true, false); (punt_file, true, false)].
Definition verified_paths_behind : list (str_field * bool * bool) :=
  [(register_spool, false, true); (security_allow, true, false); (security_deny, true, false)].

(** ** Writing the file *)

Definition str_line (f : str_field) (tag : cstr) (c : server_config_struct) : list (cstr * cstr) :=
  match strs c f with [] => [] | s => [(tag, s)] end.
Definition int_line (i : int_field) (tag : cstr) (c : server_config_struct) : list (cstr * cstr) := [(tag, print_Z (ints c i))].
Definition yes_no (b : bool) : cstr := if b then $"YES" else $"NO".
Definition flag_line (i : int_field) (tag : cstr) (c : server_config_struct) : list (cstr * cstr) := [(tag, yes_no (negb (ints c i =? 0)))].
(** what is written, tags and values *)
Definition main_config_fields (c : server_config_struct) : list (cstr * cstr) :=
  str_line root_dir I_ROOT_DIR c ++ str_line bin_path I_BIN_PATH c ++ str_line auth_area_file I_AUTH_AREA_FILE c
  ++ str_line directive_file I_DIRECTIVE_FILE c ++ str_line x_directive_file I_X_DIRECTIVE_FILE c
  ++ int_line max_hits_default I_MAX_HITS_DEFAULT c ++ int_line max_hits_ceiling I_MAX_HITS_CEILING c
  ++ str_line notify_log I_NOTIFY_LOG c ++ str_line register_log I_REGISTER_LOG c ++ str_line register_spool I_REGISTER_SPOOL c
  ++ str_line punt_file I_PUNT_FILE c ++ str_line hostname I_HOSTNAME c ++ int_line port I_PORT c
  ++ str_line security_allow I_SECURITY_ALLOW c ++ str_line security_deny I_SECURITY_DENY c
  ++ int_line default_deadman_time I_DEADMAN c
  ++ [(I_SERVER_TYPE, get_server_type_str (get_server_type c))]
  ++ flag_line chrooted I_CHROOTED c ++ flag_line query_allow_wild I_QUERY_ALLOW_WILD c
  ++ flag_line query_allow_substr I_QUERY_ALLOW_SUBSTR c
  ++ str_line process_userid I_PROC_USERID c ++ str_line pid_file I_PID_FILE c
  ++ int_line verbose I_VERBOSITY c ++ str_line log_default_file I_LOG_DEFAULT_FILE c
  ++ (if is_syslog_used c =? 0 then [(I_USE_SYSLOG, $"YES")] else [(I_USE_SYSLOG, $"NO")])
  ++ str_line log_emerg_file I_LOG_EMERG c ++ str_line log_alert_file I_LOG_ALERT c ++ str_line log_crit_file I_LOG_CRIT c
  ++ str_line log_err_file I_LOG_ERR c ++ str_line log_warn_file I_LOG_WARN c ++ str_line log_notice_file I_LOG_NOTICE c
  ++ str_line log_info_file I_LOG_INFO c ++ str_line log_debug_file I_LOG_DEBUG c
  ++ str_line server_contact I_SERVER_CONTACT c.
Definition main_config_text (c : server_config_struct) : cstr := text ((λ td, field td.1 1 td.2) <$> main_config_fields c).

Definition write_main_config_file (mkdir_ok open_ok : list cstr → cstr → bool) (file : option cstr) (suffix : cstr)
    (c : server_config_struct) (w : writing) : outcome (bool * writing) :=
  match file with
  | Some ((_ :: _) as file) =>
      name ← new_file file suffix;
      '(ok, w) ← open_file_to_write mkdir_ok open_ok name w;
      Ret (if ok : bool then (true, wrote_file name (main_config_text c) w) else (false, w))
  | _ => Ret (false, w)
  end.

(** ** The formats of the values *)

Definition examin_userid (uid : option cstr) : option examin_error :=
  match uid with Some (_ :: _) => if is_id_str uid then None else Some ERW_IDSTR | _ => Some ERW_EMTYSTR end.
(** [fullpath]: the array of path_under_root_dir, not initialised *)
Definition examin_rooted (examin : option cstr → option examin_error) (fullpath : buf) (c : server_config_struct) (path : option cstr) :
    outcome (option examin_error) :=
  match examin path with
  | Some e => Ret (Some e)
  | None => b ← path_under_root_dir fullpath path (Some (get_root_dir c)); Ret (if b : bool then None else Some ERW_UNDROOT)
  end.
Definition examin_rwlog_file := examin_rooted (examin_file_name directory_exists).
Definition examin_rwconf_file := examin_rooted (examin_file_name directory_exists).
Definition examin_rwconf_dir := examin_rooted (examin_directory_name fs).
Definition examin_rwexe_file (file : option cstr) : option examin_error :=
  match examin_file_name directory_exists file with
  | Some e => Some e
  | None => examin_executable_name fs directory_exists executable file
  end.
Definition examin_server_contact (contact : option cstr) : option examin_error :=
  match contact with Some (_ :: _) => examin_email_address contact | _ => Some ERW_EMTYSTR end.
(** [access]: can the path be written *)
Definition examin_directory_writable (access : cstr → bool) (path : option cstr) : outcome (option examin_error) :=
  match path with
  | None => Ret (Some ERW_NDEF)
  | Some p =>
      if access p then Ret None
      else
        df ← split_path path;
        Ret match df with
            | None => Some ERW_WTRDIR
            | Some ((_ :: _) as dir, _) => if access dir then None else Some ERW_WTRDIR
            | Some ([], _) => if access (if is_rel_path path then [DOT] else [SLASH]) then None else Some ERW_WTRDIR
            end
  end.

(** ** Checking the configuration *)

Section Verify.
Context (access : cstr → bool) (regexec : cstr → cstr → bool) (fullpath : buf).

(** the checks in their order: the first that finds an error ends them *)
Fixpoint all_fine (checks : list (outcome (option examin_error))) : outcome bool :=
  match checks with
  | [] => Ret true
  | e :: checks => e ← e; if fine e then all_fine checks else Ret false
  end.
Definition verify_main_config (c : server_config_struct) : outcome bool :=
  let the f := Some (strs c f) in
  let unless_empty f (e : outcome (option examin_error)) := match strs c f with [] => Ret None | _ => e end in
  let conf_file f := examin_rwconf_file fullpath c (the f) in
  let conf_dir f := examin_rwconf_dir fullpath c (the f) in
  let log_file f g := unless_empty f (examin_rwlog_file fullpath c (the g)) in
  let refuse (b : bool) e := Ret (if b then Some e else None) in
  all_fine
    [unless_empty root_dir (examin_directory_writable access (the root_dir));
     conf_dir bin_path; conf_file directive_file; conf_file x_directive_file; conf_file auth_area_file; conf_file punt_file;
     conf_file security_allow; conf_file security_deny; conf_file pid_file; conf_dir register_spool;
     examin_hostname regexec (the hostname);
     unless_empty process_userid (Ret (examin_userid (the process_userid)));
     unless_empty server_contact (Ret (examin_server_contact (the server_contact)));
     refuse (ints c port <=? 0) ERW_NUMVAL; refuse (ints c default_deadman_time <? 1) ERW_NUMVAL;
     refuse (ints c max_hits_ceiling <? 1) ERW_NUMVAL; refuse (ints c max_hits_default <? 1) ERW_NUMVAL;
     refuse (ints c max_hits_ceiling <? ints c max_hits_default) ERW_NUMRANGE;
     log_file notify_log notify_log; log_file register_log register_log; log_file register_log log_default_file;
     log_file log_emerg_file log_emerg_file; log_file log_alert_file log_alert_file; log_file log_crit_file log_crit_file;
     log_file log_err_file log_err_file; log_file log_warn_file log_warn_file; log_file log_notice_file log_notice_file;
     log_file log_info_file log_info_file; log_file log_debug_file log_debug_file].
End Verify.

(** the paths that have to be different: how many are in use already *)
Fixpoint dup_config_paths (fields : list str_field) (c : server_config_struct) (paths : list cstr) : nat * list cstr :=
  match fields with
  | [] => (0%nat, paths)
  | f :: fields =>
      let '(d, paths) := dup_config_path_name paths (Some (strs c f)) in
      let '(n, paths) := dup_config_paths fields c paths in
      ((if d then 1 else 0) + n, paths)%nat
  end.
Definition verify_main_config_paths (c : server_config_struct) : list cstr → nat * list cstr :=
  dup_config_paths [root_dir; bin_path; notify_log; directive_file; x_directive_file; auth_area_file; register_log; register_spool;
    punt_file; security_allow; security_deny; pid_file] c.
(** the logs and the programs must not be among them *)
Definition verify_non_admin_paths (areas : list auth_area_struct) (c : server_config_struct) (paths : list cstr) : outcome nat :=
  let logs := filter (λ f, in_config_path_list paths (Some (strs c f)) = true)
    [log_default_file; log_emerg_file; log_alert_file; log_crit_file; log_err_file; log_warn_file; log_notice_file; log_info_file; log_debug_file] in
  n ← verify_aa_parse_progs areas paths;
  Ret (length logs + n)%nat.
End Server.

(** ** Setting *)

Definition with_str (f : str_field) (v : cstr) (c : server_config_struct) : server_config_struct := ServerConfig (<[f:=v]> (strs c)) (ints c).
(** a value that is empty leaves what there was *)
Definition kept (f : str_field) (v : cstr) (c : server_config_struct) : server_config_struct := match v with [] => c | _ => with_str f v c end.

Lemma array_size_512 f : array_size f = 512%nat.
Proof. by destruct f. Qed.
Lemma set_str_Ret f v c : (length v < 512)%nat → set_str f v c = Ret (with_str f v c).
Proof. intros H. unfold set_str. rewrite array_size_512. by rewrite decide_True. Qed.
Lemma set_str_inv f v c c' : set_str f v c = Ret c' → c' = with_str f v c ∧ (length v < 512)%nat.
Proof. unfold set_str. rewrite array_size_512. by destruct (decide _) as [H|]; [intros [= <-]|]. Qed.
Lemma strs_kept f v c g : strs (kept f v c) g = match (if decide (g = f) then v else []) with [] => strs c g | s => s end.
Proof.
  destruct v as [|x v]; cbn [kept]; [by destruct (decide _)|]. unfold with_str. cbn [strs].
  destruct (decide (g = f)) as [->|H]; [apply fn_lookup_insert|by apply fn_lookup_insert_ne].
Qed.
Lemma ints_kept f v c i : ints (kept f v c) i = ints c i.
Proof. by destruct v. Qed.
Lemma strs_set_int i v c f : strs (set_int i v c) f = strs c f.
Proof. done. Qed.
Lemma ints_set_int i v c j : ints (set_int i v c) j = if decide (j = i) then v else ints c j.
Proof.
  unfold set_int. cbn [ints]. destruct (decide (j = i)) as [->|H]; [apply fn_lookup_insert|by apply fn_lookup_insert_ne].
Qed.

(** a path without blanks around it and slashes at its end *)
Definition tidy (d : cstr) : Prop := trim_s d = d ∧ NUL ∉ d ∧ (length d < 512)%nat ∧ ((1 < length d)%nat → last d ≠ Some SLASH).
#[export] Instance tidy_dec d : Decision (tidy d).
Proof. unfold tidy. apply _. Defined.

Lemma set_root_dir_tidy directory_exists d c : d ≠ [] → tidy d → directory_exists d = true →
  set_root_dir directory_exists (Some d) c = Ret (true, with_str root_dir d (with_str root_dir d c)).
Proof.
  intros Hne (Ht & HN & Hl & Hs) Hd. unfold set_root_dir. destruct d as [|x d0] eqn:E; [done|]. rewrite <-E in *. rewrite Hd.
  rewrite set_str_Ret by done. cbn [mbind outcome_bind]. rewrite array_size_512.
  assert (holds (d ++ replicate (512 - length d) NUL) d) as Hb.
  { destruct (512 - length d)%nat as [|k] eqn:Ek; [lia|]. cbn [replicate]. by apply holds_intro. }
  destruct (in_place (f := trim) (g := trim_s) _ d Hb) as (b1 & -> & Hb1 & _). rewrite Ht in Hb1. cbn [mbind outcome_bind].
  assert (∃ b2, (if (1 <? length d)%nat then strip_trailing (Some b1) SLASH else Ret (Some b1)) = Ret (Some b2) ∧ holds b2 d) as (b2 & -> & Hb2).
  { destruct (Nat.ltb_spec 1 (length d)) as [H1|]; [|by exists b1]. specialize (Hs H1).
    destruct (strip_trailing_ok SLASH d b1 Hb1) as (b2 & -> & Hb2 & _); [done| |].
    - intros Ha. apply Hs. destruct (last d) as [y|] eqn:El; [|by apply last_None in El].
      rewrite Forall_forall in Ha. by rewrite (Ha y (last_Some_elem_of _ _ El)).
    - exists b2. split; [done|]. assert (strip_trailing_s SLASH d = d) as <-; [|done].
      apply rdropwhile_fix. intros y Hy. apply char_eqb_neq. intros ->. done. }
  cbn [mbind outcome_bind of_option]. rewrite (holds_string_at b2 d Hb2), set_str_Ret by done. done.
Qed.

(** a name of two slashes or more is stripped beyond its start *)
Lemma set_root_dir_slashes directory_exists d c : Forall (λ c, c = SLASH) d → (2 ≤ length d < 512)%nat → directory_exists d = true →
  set_root_dir directory_exists (Some d) c = Fault.
Proof.
  intros Ha Hn Hd. pose proof Ha as Hin. rewrite Forall_forall in Hin. assert (NUL ∉ d) as HN by (intros HN%Hin; done).
  unfold set_root_dir. destruct d as [|x d0] eqn:E; [cbn in Hn; lia|]. rewrite <-E in *. rewrite Hd.
  rewrite set_str_Ret by lia. cbn [mbind outcome_bind]. rewrite array_size_512.
  assert (holds (d ++ replicate (512 - length d) NUL) d) as Hb.
  { destruct (512 - length d)%nat as [|k] eqn:Ek; [lia|]. cbn [replicate]. by apply holds_intro. }
  destruct (in_place (f := trim) (g := trim_s) _ d Hb) as (b1 & -> & Hb1 & _).
  assert (trim_s d = d) as Ht.
  { unfold trim_s, ltrim_s. assert (rtrim_s d = d) as ->.
    - apply rdropwhile_fix. intros y Hy%last_Some_elem_of%Hin. by rewrite Hy.
    - assert (x = SLASH) as Ex by (apply Hin; rewrite E; left). by rewrite E, Ex. }
  rewrite Ht in Hb1. cbn [mbind outcome_bind]. rewrite (proj2 (Nat.ltb_lt _ _)) by lia.
  by rewrite (strip_trailing_stars SLASH d b1 Hb1) by (done || by rewrite E).
Qed.

(** ** What is written is read back *)

Section Written.
Context (directory_exists : cstr → bool).
Notation read := (read_config_lines directory_exists false).
Notation field_of := (read_config_field directory_exists false).

Definition written_lines (l : list (cstr * cstr)) : list cstr := (λ td, field td.1 1 td.2) <$> l.
Lemma read_written tag d l c c' : good_tag tag = true → (length tag < 30)%nat → short_datum d →
  field_of tag d c = Ret (false, c') → read (written_lines ((tag, d) :: l)) c = read (written_lines l) c'.
Proof.
  intros Ht Hl [Hd Hdl] Hr. unfold written_lines. cbn [fmap list_fmap fst snd read_config_lines].
  destruct (field_read tag 1 d Ht Hd) as (_ & _ & ->); [unfold MAX_TEMPLATE_DESC; lia|done|].
  cbn [mbind outcome_bind]. rewrite Hr. done.
Qed.
Lemma read_str_line f tag c1 l c : good_tag tag = true → (length tag < 30)%nat → (strs c1 f = [] ∨ short_datum (strs c1 f)) →
  (∀ d, field_of tag d c = (c ← set_str f d c; Ret (false, c))) →
  read (written_lines (str_line f tag c1 ++ l)) c = read (written_lines l) (kept f (strs c1 f) c).
Proof.
  intros Ht Hl Hd Hr. unfold str_line. destruct (strs c1 f) as [|x d] eqn:E; [done|]. destruct Hd as [Hd|Hd]; [done|].
  cbn [app]. apply read_written; [done..|]. rewrite Hr, set_str_Ret; [done|]. destruct Hd as [_ Hd]. unfold MAX_TEMPLATE_DESC in Hd. lia.
Qed.
Lemma read_root_line c1 l c : (strs c1 root_dir = [] ∨ short_datum (strs c1 root_dir)) → tidy (strs c1 root_dir) →
  (strs c1 root_dir ≠ [] → directory_exists (strs c1 root_dir) = true) →
  read (written_lines (str_line root_dir I_ROOT_DIR c1 ++ l)) c =
  read (written_lines l) (kept root_dir (strs c1 root_dir) (kept root_dir (strs c1 root_dir) c)).
Proof.
  intros Hd Ht He. unfold str_line. destruct (strs c1 root_dir) as [|x d] eqn:E; [done|]. destruct Hd as [Hd|Hd]; [done|].
  cbn [app]. apply read_written; [done| |done|]; [vm_compute; lia|].
  change (field_of I_ROOT_DIR (x :: d) c) with ('(ok, c) ← set_root_dir directory_exists (Some (x :: d)) c; Ret (negb ok, c)).
  by rewrite set_root_dir_tidy by (done || by apply He).
Qed.
Lemma read_int_line i tag c1 l c : good_tag tag = true → (length tag < 30)%nat → int32 (ints c1 i) →
  (∀ d, field_of tag d c = Ret (false, set_int i (atoi d) c)) →
  read (written_lines (int_line i tag c1 ++ l)) c = read (written_lines l) (set_int i (ints c1 i) c).
Proof.
  intros Ht Hl Hi Hr. unfold int_line. cbn [app]. apply read_written; [done..| |].
  - split; [apply clean_numeral|]. pose proof (numeral_length (ints c1 i)) as H. unfold in_int in *. simpl Z.sub in *.
    unfold MAX_TEMPLATE_DESC. lia.
  - rewrite Hr. do 2 f_equal. rewrite <-(app_nil_r (print_Z _)). by rewrite atoi_print.
Qed.
Lemma read_flag_line i tag c1 l c : good_tag tag = true → (length tag < 30)%nat →
  (∀ d, field_of tag d c = Ret (false, set_int i (int_of (true_false d)) c)) →
  read (written_lines (flag_line i tag c1 ++ l)) c = read (written_lines l) (set_int i (int_of (negb (ints c1 i =? 0))) c).
Proof.
  intros Ht Hl Hr. unfold flag_line. cbn [app]. apply read_written; [done|done| |]; [|rewrite Hr; by destruct (negb _)].
  destruct (negb _); apply (bool_decide_unpack _); vm_compute; exact I.
Qed.
Lemma read_type_line c1 l c : (ints c1 server_type = DAEMON_SERVER ∨ ints c1 server_type = INETD_SERVER) →
  read (written_lines ([(I_SERVER_TYPE, get_server_type_str (get_server_type c1))] ++ l)) c =
  read (written_lines l) (set_int server_type (ints c1 server_type) c).
Proof.
  intros Ht. cbn [app]. unfold get_server_type.
  destruct Ht as [E|E]; rewrite E; (apply read_written; [done|vm_compute; lia|apply (bool_decide_unpack _); vm_compute; exact I|reflexivity]).
Qed.
Lemma read_syslog_line c1 l c :
  read (written_lines ((if is_syslog_used c1 =? 0 then [(I_USE_SYSLOG, $"YES")] else [(I_USE_SYSLOG, $"NO")]) ++ l)) c =
  read (written_lines l) (set_int use_syslog (int_of (ints c1 use_syslog =? 0)) c).
Proof.
  unfold is_syslog_used. destruct (ints c1 use_syslog =? 0); cbn [app];
    (apply read_written; [done|vm_compute; lia|apply (bool_decide_unpack _); vm_compute; exact I|reflexivity]).
Qed.
End Written.

(** a configuration whose strings fit into lines *)
Definition writable (directory_exists : cstr → bool) (c : server_config_struct) : Prop :=
  (∀ f, strs c f = [] ∨ short_datum (strs c f)) ∧ (∀ i, int32 (ints c i)) ∧
  (ints c server_type = DAEMON_SERVER ∨ ints c server_type = INETD_SERVER) ∧
  tidy (strs c root_dir) ∧ (strs c root_dir ≠ [] → directory_exists (strs c root_dir) = true).

(** the integers after reading over what there was *)
Definition reread (c c0 : server_config_struct) (i : int_field) : Z :=
  match i with
  | use_syslog => int_of (ints c use_syslog =? 0)
  | chrooted | query_allow_wild | query_allow_substr => int_of (negb (ints c i =? 0))
  | log_facility | root_server | background | max_children | skip_referral_search | listen_queue_length | child_priority_offset => ints c0 i
  | _ => ints c i
  end.

Ltac read_line :=
  first [ rewrite read_str_line; [|reflexivity|vm_compute; lia|by auto|intros; reflexivity]
        | rewrite read_int_line; [|reflexivity|vm_compute; lia|by auto|intros; reflexivity]
        | rewrite read_flag_line; [|reflexivity|vm_compute; lia|intros; reflexivity]
        | rewrite read_type_line by done
        | rewrite read_syslog_line ].

Lemma read_written_config directory_exists c c0 : writable directory_exists c →
  ∃ c', read_config_lines directory_exists false (written_lines (main_config_fields c)) c0 = Ret (true, c') ∧
    (∀ f, strs c' f = match strs c f with [] => strs c0 f | s => s end) ∧ (∀ i, ints c' i = reread c c0 i).
Proof.
  intros (Hs & Hi & Ht & Htidy & Hd). unfold main_config_fields. rewrite <-(app_nil_r (str_line server_contact _ _)).
  rewrite read_root_line by auto. do 33 read_line. eexists. split; [reflexivity|]. split.
  - intros f. repeat (rewrite strs_kept || rewrite strs_set_int). destruct f; cbn; try reflexivity. by destruct (strs c root_dir).
  - intros i. repeat (rewrite ints_kept || rewrite ints_set_int). by destruct i.
Qed.

(** what is written are fields of lines *)
Definition line_field (td : cstr * cstr) : Prop := good_tag td.1 = true ∧ (length td.1 < 30)%nat ∧ short_datum td.2.
Lemma written_fields directory_exists c : writable directory_exists c → Forall line_field (main_config_fields c).
Proof.
  intros (Hs & Hi & Ht & _).
  assert (∀ f tag, good_tag tag = true → (length tag < 30)%nat → Forall line_field (str_line f tag c)) as H1.
  { intros f tag Hg Hl. unfold str_line. destruct (Hs f) as [->|Hd]; [done|]. destruct (strs c f); [done|]. constructor; [|done]. by split_and!. }
  assert (∀ i tag, good_tag tag = true → (length tag < 30)%nat → Forall line_field (int_line i tag c)) as H2.
  { intros i tag Hg Hl. constructor; [|done]. split; [done|]. split; [done|]. split; [apply clean_numeral|].
    pose proof (numeral_length (ints c i)) as H. specialize (Hi i). cbn [snd]. unfold in_int in *. simpl Z.sub in *. unfold MAX_TEMPLATE_DESC. lia. }
  assert (∀ b, short_datum (yes_no b)) as Hyn by (intros []; apply (bool_decide_unpack _); vm_compute; exact I).
  assert (∀ i tag, good_tag tag = true → (length tag < 30)%nat → Forall line_field (flag_line i tag c)) as H3.
  { intros i tag Hg Hl. constructor; [|done]. split; [done|]. split; [done|]. apply Hyn. }
  unfold main_config_fields. repeat (apply Forall_app; split);
    first [apply H1; [reflexivity|vm_compute; lia] | apply H2; [reflexivity|vm_compute; lia] | apply H3; [reflexivity|vm_compute; lia] | idtac].
  - constructor; [|done]. split; [reflexivity|]. split; [vm_compute; lia|]. cbn [snd]. unfold get_server_type.
    destruct Ht as [-> | ->]; apply (bool_decide_unpack _); vm_compute; exact I.
  - destruct (is_syslog_used c =? 0); (constructor; [|done]); (split; [reflexivity|]; split; [vm_compute; lia|]); [exact (Hyn true)|exact (Hyn false)].
Qed.
Lemma written_clean l : Forall line_field l → clean <$> ((λ td, field td.1 1 td.2) <$> l) = written_lines l.
Proof.
  induction 1 as [|[t d] l (Hg & Hl & Hd & Hdl) _ IH]; [done|]. cbn [fst snd] in *. unfold written_lines. cbn [fmap list_fmap fst snd].
  destruct (field_read t 1 d Hg Hd) as (-> & _); [unfold MAX_TEMPLATE_DESC; lia|done|]. f_equal. exact IH.
Qed.
Lemma written_fit l : Forall line_field l → Forall (λ l, is_line l ∧ (length l + 1 < BUFSIZ)%nat) ((λ td, field td.1 1 td.2) <$> l).
Proof.
  intros H. apply Forall_fmap. eapply Forall_impl; [exact H|]. intros [t d] (Hg & Hl & Hd & Hdl). cbn [fst snd] in *.
  split; [by apply field_line|]. cbn [fst snd]. unfold field. rewrite length_app. cbn [length]. rewrite length_app, length_replicate.
  unfold MAX_TEMPLATE_DESC in Hdl. unfold BUFSIZ. lia.
Qed.

(** C33: the configuration file that is written reads back, but not as it was.
    The paths, names, numbers and flags that are written are those that are
    read, an empty string leaves what there was; use-syslog is written as its
    opposite, and the facility of the log, whether this is a root server, the
    background flag, the number of children, the search for referrals, the
    queue length and the priority are not written at all: the reader keeps its
    own. *)
Theorem main_config_roundtrip mkdir_ok open_ok directory_exists fs suffix file c c0 w w' name txt :
  write_main_config_file mkdir_ok open_ok (Some file) suffix c w = Ret (true, w') →
  last (w_files w') = Some (name, txt) → fs name = Some txt → writable directory_exists c →
  ∃ c', read_main_config_file directory_exists fs name false c0 = Ret (true, c') ∧
    (∀ f, strs c' f = match strs c f with [] => strs c0 f | s => s end) ∧
    (∀ i, ints c' i = reread c c0 i).
Proof.
  intros Hw Hlast Hfs Hc.
  assert (txt = main_config_text c) as ->.
  { unfold write_main_config_file in Hw. destruct file; [done|]. apply bind_inv_Ret in Hw as (n & _ & Hw).
    apply bind_inv_Ret in Hw as ([ok w1] & _ & Hw). apply Ret_inj in Hw. destruct ok; [|done]. injection Hw as <-.
    unfold wrote_file in Hlast. cbn [w_files] in Hlast. rewrite last_snoc in Hlast. by injection Hlast as _ <-. }
  unfold read_main_config_file. rewrite Hfs. unfold main_config_text. rewrite lines_in_text.
  - cbn [mbind outcome_bind]. rewrite written_clean by (by eapply written_fields). by apply read_written_config.
  - by eapply written_fit, written_fields.
Qed.
Definition demo_config : server_config_struct :=
  ServerConfig (λ f, match f with
                     | root_dir => $"/rwhois" | bin_path => $"bin" | auth_area_file => $"areas" | hostname => $"a.com"
                     | log_default_file => $"log file" | _ => [] end)
    (λ i, match i with use_syslog | query_allow_wild | root_server => 1 | port => 4321 | max_hits_default => 20 | max_hits_ceiling => 200
          | max_children => 7 | _ => 0 end).
Lemma main_config_roundtrip_witness :
  let c0 := ServerConfig (λ _, $"default") (λ _, 5) in
  ∃ w' name txt c', write_main_config_file (λ _ _, true) (λ _ _, true) (Some ($"rwhois.conf")) ($".new") demo_config (Writing [] [] []) = Ret (true, w') ∧
    last (w_files w') = Some (name, txt) ∧ read_main_config_file (λ _, true) (λ _, Some txt) name false c0 = Ret (true, c') ∧
    strs c' log_default_file = $"log file" ∧ strs c' pid_file = $"default" ∧
    ints c' port = 4321 ∧ ints c' use_syslog = 0 ∧ ints c' root_server = 5 ∧ ints c' max_children = 5.
Proof.
  intros c0. set (r := write_main_config_file _ _ _ _ _ _). assert (∃ w' name txt, r = Ret (true, w') ∧ last (w_files w') = Some (name, txt))
    as (w' & name & txt & E & Hlast) by (vm_compute; by do 3 eexists).
  destruct (main_config_roundtrip (λ _ _, true) (λ _ _, true) (λ _, true) (λ _, Some txt) ($".new") ($"rwhois.conf") demo_config c0 (Writing [] [] []) w' name txt)
    as (c' & Hr & Hs & Hi); [exact E|exact Hlast|reflexivity| |].
  - split_and!.
    + intros f. destruct f; first [left; reflexivity | right; apply (bool_decide_unpack _); vm_compute; exact I].
    + intros i. destruct i; unfold in_int; cbn; lia.
    + left. reflexivity.
    + apply (bool_decide_unpack _). vm_compute. exact I.
    + reflexivity.
  - exists w', name, txt, c'. split; [exact E|]. split; [exact Hlast|]. split; [exact Hr|]. rewrite !Hs, !Hi. by split_and!.
Defined.

(** ** The tag of root servers *)

Lemma root_server_kept directory_exists chrooted tag datum c fatal c' :
  read_config_field directory_exists chrooted tag datum c = Ret (fatal, c') → ints c' root_server = ints c root_server.
Proof.
  assert (∀ f v c c', set_str f v c = Ret c' → ints c' root_server = ints c root_server) as Hstr.
  { intros f v c1 c2 H. by apply set_str_inv in H as [-> _]. }
  assert (∀ dir c ok c', set_root_dir directory_exists dir c = Ret (ok, c') → ints c' root_server = ints c root_server) as Hroot.
  { intros dir c1 ok c2 H. unfold set_root_dir in H. destruct dir as [[|x d]|]; try (apply Ret_inj in H; by injection H as _ <-).
    destruct (directory_exists _); [|apply Ret_inj in H; by injection H as _ <-].
    apply bind_inv_Ret in H as (c3 & E1%Hstr & H). apply bind_inv_Ret in H as (? & _ & H). apply bind_inv_Ret in H as (? & _ & H).
    apply bind_inv_Ret in H as (? & _ & H). apply bind_inv_Ret in H as (c4 & E2%Hstr & H). apply Ret_inj in H. injection H as _ <-. congruence. }
  intros H. unfold read_config_field in H. cbv zeta in H.
  repeat (match type of H with (if ?b then _ else _) = _ => destruct b end;
    [first [ apply bind_inv_Ret in H as (c1 & E%Hstr & H); apply Ret_inj in H; by injection H as _ <-
           | apply Ret_inj in H; injection H as _ <-; first [reflexivity | unfold set_log_facility; cbv zeta; by repeat case_match]
           | idtac ]|]).
  - apply bind_inv_Ret in H as ([ok c1] & E%Hroot & H). apply Ret_inj in H. by injection H as _ <-.
  - apply bind_inv_Ret in H as ([ok c1] & E%Hroot & H). apply Ret_inj in H. by injection H as _ <-.
  - apply Ret_inj in H. by injection H as _ <-.
Qed.

(** No configuration file makes a root server.  The reader has no case
    for the tag root-server, and nothing else sets the flag: after the defaults
    and a file, whatever it holds, is_root_server is false. *)
Theorem root_server_never_set directory_exists fs hostname config_file chrooted c0 ok c :
  init_server_config_data directory_exists hostname = Ret c0 →
  read_main_config_file directory_exists fs config_file chrooted c0 = Ret (ok, c) → is_root_server c = 0.
Proof.
  intros Hi Hr. assert (ints c0 root_server = 0) as H0.
  { unfold init_server_config_data in Hi. cbv zeta in Hi. cbn [set_root_dir mbind outcome_bind] in Hi.
    repeat (apply bind_inv_Ret in Hi as (? & [-> _]%set_str_inv & Hi)). apply set_str_inv in Hi as [-> _]. reflexivity. }
  unfold is_root_server. rewrite <-H0. clear Hi H0. unfold read_main_config_file in Hr.
  destruct (fs config_file) as [f|]; [|apply Ret_inj in Hr; by injection Hr as _ <-].
  apply bind_inv_Ret in Hr as (ls & _ & Hr). revert c0 Hr. induction ls as [|line ls IH]; intros c0 Hr; cbn [read_config_lines] in Hr.
  - apply Ret_inj in Hr. by injection Hr as _ <-.
  - apply bind_inv_Ret in Hr as ([[tag datum]|] & _ & Hr); [|by apply IH].
    apply bind_inv_Ret in Hr as ([fatal c1] & E%root_server_kept & Hr). rewrite <-E.
    destruct fatal; [apply Ret_inj in Hr; by injection Hr as _ <-|by apply IH].
Qed.
Definition demo_defaults : server_config_struct :=
  match init_server_config_data (λ _, true) ($"a.com") with Ret c => c | _ => demo_config end.
Definition demo_read : server_config_struct :=
  match read_main_config_file (λ _, true) (λ _, Some ($"root-server: YES")) ($"rwhois.conf") false demo_defaults with Ret (_, c) => c | _ => demo_config end.
Lemma root_server_never_set_witness :
  read_main_config_file (λ _, true) (λ _, Some ($"root-server: YES")) ($"rwhois.conf") false demo_defaults = Ret (true, demo_read) ∧
  is_root_server demo_read = 0.
Proof.
  assert (init_server_config_data (λ _, true) ($"a.com") = Ret demo_defaults) as E1 by (vm_compute; reflexivity).
  assert (read_main_config_file (λ _, true) (λ _, Some ($"root-server: YES")) ($"rwhois.conf") false demo_defaults = Ret (true, demo_read)) as E2
    by (vm_compute; reflexivity).
  split; [exact E2|]. exact (root_server_never_set _ _ _ _ _ _ _ _ E1 E2).
Defined.

(** ** Paths that are empty *)

Lemma string_of_holds b s : holds b s → string_of b = Ret s.
Proof. intros H. unfold string_of. by rewrite (strlen_holds b s H), (holds_cstring b s H). Qed.

(** A path of the configuration that is left empty, as register-spool
    without a value, and that may be empty, passes the check of the
    configuration, but gets the bytes that were on the stack: canonicalize_path
    leaves the array for the new path as it was, and that is copied back. *)
Theorem empty_path_uninitialised directory_exists fs junk junk' path is_file c s :
  path ≠ root_dir → Forall (λ c, isspace c = true) (strs c path) → (length (strs c path) < 512)%nat →
  holds junk s → length junk' = 513%nat → NUL ∉ get_root_dir c →
  (length (get_root_dir c) + 1 + length s < 513)%nat → (length s < 512)%nat →
  ∃ c', canonicalize_conf_path directory_exists fs junk junk' path is_file true c = Ret (true, c') ∧ strs c' path = s.
Proof.
  intros Hp Hblank Hlen Hj Hj' Hroot Hfit Hs. set (p := strs c path) in *. unfold canonicalize_conf_path. rewrite array_size_512. fold p.
  assert (NUL ∉ p) as HN by (rewrite Forall_forall in Hblank; intros H%Hblank; done).
  assert (holds (p ++ replicate (512 - length p) NUL) p) as Hb.
  { destruct (512 - length p)%nat as [|k] eqn:Ek; [lia|]. by apply holds_intro. }
  destruct (in_place (f := trim) (g := trim_s) _ p Hb) as (b & Eb & Hb1 & _).
  assert (trim_s p = []) as Et.
  { unfold trim_s. assert (rtrim_s p = []) as ->; [|done]. unfold rtrim_s.
    clear -Hblank. induction p as [|x p IH] using rev_ind; [done|]. apply Forall_app in Hblank as [H1 H2].
    rewrite rdropwhile_snoc. apply Forall_cons in H2 as [-> _]. by apply IH. }
  rewrite Et in Hb1. unfold canonicalize_path. rewrite Eb. cbn [mbind outcome_bind default]. unfold id.
  rewrite (strlen_holds b [] Hb1). cbn [mbind outcome_bind length Nat.ltb Nat.leb]. rewrite (head_read [] b Hb1).
  cbn [mbind outcome_bind head default]. unfold id. rewrite char_eqb_refl. cbn [mbind outcome_bind of_option negb andb].
  rewrite (holds_string_at b [] Hb1), set_str_Ret by (cbn; lia). cbn [mbind outcome_bind]. rewrite (string_of_holds junk s Hj).
  cbn [mbind outcome_bind]. assert (get_root_dir (with_str path [] c) = get_root_dir c) as ->.
  { unfold get_root_dir, with_str. cbn [strs]. by apply fn_lookup_insert_ne. }
  assert (∃ q, (if is_rel_path (Some s) then b ← path_rel_to_full junk' (MAX_FILE + 1) s (Some (get_root_dir c)); b ← of_option b; string_of b
    else Ret s) = Ret q) as (q & ->).
  { destruct (is_rel_path (Some s)) eqn:Er; [|by eexists].
    destruct (path_rel_to_full_ok junk' s (get_root_dir c)) as (m & E & _); [done|done|lia|].
    rewrite Hj' in E. change (MAX_FILE + 1) with (Z.of_nat 513). rewrite E. cbn [mbind outcome_bind of_option].
    eexists. apply string_of_holds, holds_intro. rewrite not_elem_of_app, not_elem_of_cons. split_and!; [done|done|by destruct Hj]. }
  cbn [mbind outcome_bind]. rewrite set_str_Ret by done. eexists. split; [done|]. apply fn_lookup_insert.
Qed.
Lemma empty_path_uninitialised_witness :
  let c := with_str register_spool [] demo_config in
  let junk := $"rwhoisd.root" ++ replicate 501 NUL in
  ∃ c', canonicalize_conf_path (λ _, false) (λ _, None) junk (replicate 513 (chr 88)) register_spool false true c = Ret (true, c') ∧
    strs c' register_spool = $"rwhoisd.root".
Proof.
  intros c junk. apply (empty_path_uninitialised (λ _, false) (λ _, None) junk (replicate 513 (chr 88)) register_spool false c ($"rwhoisd.root")).
  - discriminate.
  - constructor.
  - apply (bool_decide_unpack _). vm_compute. exact I.
  - split; [apply (bool_decide_unpack _); vm_compute; exact I|]. exists (replicate 500 NUL). reflexivity.
  - reflexivity.
  - apply (bool_decide_unpack _); vm_compute; exact I.
  - apply (bool_decide_unpack _). vm_compute. exact I.
  - apply (bool_decide_unpack _). vm_compute. exact I.
Defined.

(** ** A configuration that passes the checks *)

Lemma all_fine_true checks : all_fine checks = Ret true ↔ Forall (λ e, e = Ret None) checks.
Proof.
  induction checks as [|e checks IH]; [done|]. cbn [all_fine]. rewrite Forall_cons, <-IH.
  destruct e as [[e|]| |]; cbn [mbind outcome_bind]; [| |split; [discriminate|intros [? _]; discriminate]..].
  - unfold fine. rewrite bool_decide_false by done. split; [discriminate|intros [? _]; discriminate].
  - unfold fine. rewrite bool_decide_true by done. split; [done|by intros [_ ?]].
Qed.
Lemma examin_rooted_fine examin fullpath c path : examin_rooted examin fullpath c path = Ret None →
  examin path = None ∧ path_under_root_dir fullpath path (Some (get_root_dir c)) = Ret true.
Proof.
  unfold examin_rooted. destruct (examin path); [done|]. intros H. apply bind_inv_Ret in H as ([|] & -> & H); [done|].
  by apply Ret_inj in H.
Qed.

(** a name of a file or a directory under the root directory *)
Definition rooted_path (fullpath : buf) (c : server_config_struct) (f : str_field) : Prop :=
  strs c f ≠ [] ∧ Forall (λ c, isspace c = false) (strs c f) ∧ path_under_root_dir fullpath (Some (strs c f)) (Some (get_root_dir c)) = Ret true.
Lemma file_rooted directory_exists fullpath c f : examin_rooted (examin_file_name directory_exists) fullpath c (Some (strs c f)) = Ret None → rooted_path fullpath c f.
Proof.
  intros [He Hr]%examin_rooted_fine. unfold rooted_path. destruct (strs c f) as [|x p]; [done|]. split; [done|]. split; [|exact Hr].
  unfold examin_file_name in He. destruct (is_no_whitespace_str (Some (x :: p))) eqn:E; [|done]. cbn [is_no_whitespace_str] in E.
  apply Forall_forall. intros y Hy%list_elem_of_In. rewrite forallb_forall in E. by apply negb_true_iff, E.
Qed.
Lemma dir_rooted fs fullpath c f : examin_rooted (examin_directory_name fs) fullpath c (Some (strs c f)) = Ret None → rooted_path fullpath c f.
Proof.
  intros [He Hr]%examin_rooted_fine. unfold rooted_path. destruct (strs c f) as [|x p]; [done|]. split; [done|]. split; [|exact Hr].
  unfold examin_directory_name in He. destruct (is_no_whitespace_str (Some (x :: p))) eqn:E; [|done]. cbn [is_no_whitespace_str] in E.
  apply Forall_forall. intros y Hy%list_elem_of_In. rewrite forallb_forall in E. by apply negb_true_iff, E.
Qed.

(** C26: a configuration that passes the checks has its files and directories
    under the root directory, without blanks in their names, a port and a time
    out that are positive, and a default limit of hits between 1 and the
    ceiling.  The name of the default log is not checked, whatever it is, if
    there is no register log: the check asks whether the wrong name is there. *)
Theorem verified_config directory_exists fs access regexec fullpath c :
  verify_main_config directory_exists fs access regexec fullpath c = Ret true →
  Forall (rooted_path fullpath c) [bin_path; directive_file; x_directive_file; auth_area_file; punt_file; security_allow; security_deny; pid_file; register_spool] ∧
  Forall (λ f, strs c f = [] ∨ rooted_path fullpath c f)
    [notify_log; register_log; log_emerg_file; log_alert_file; log_crit_file; log_err_file; log_warn_file; log_notice_file; log_info_file; log_debug_file] ∧
  0 < ints c port ∧ 1 ≤ ints c default_deadman_time ∧ 1 ≤ ints c max_hits_default ≤ ints c max_hits_ceiling ∧
  (strs c register_log = [] →
   ∀ v, verify_main_config directory_exists fs access regexec fullpath (with_str log_default_file v c) = Ret true).
Proof.
  unfold verify_main_config. rewrite !all_fine_true. cbv zeta.
  intros H. repeat rewrite Forall_cons in H. destruct H as (H1 & H2 & H3 & H4 & H5 & H6 & H7 & H8 & H9 & H10 & H11 & H12 & H13 & H14 & H15 & H16 & H17 & H18
    & H19 & H20 & H21 & H22 & H23 & H24 & H25 & H26 & H27 & H28 & H29 & _).
  assert (∀ f, match strs c f with [] => Ret None | _ => examin_rwlog_file directory_exists fullpath c (Some (strs c f)) end = Ret None →
    strs c f = [] ∨ rooted_path fullpath c f) as Hlog.
  { intros f Hf. destruct (strs c f) as [|x p] eqn:E; [by left|right]. rewrite <-E in Hf. by eapply file_rooted. }
  assert (∀ (b : bool) (e : examin_error), Ret (if b then Some e else None) = Ret None → b = false) as Hnum by by intros [].
  split; [|split; [|split_and!]].
  - repeat (constructor; [first [by eapply file_rooted | by eapply dir_rooted]|]). constructor.
  - repeat (constructor; [by apply Hlog|]). constructor.
  - apply Hnum, Z.leb_gt in H14. lia.
  - apply Hnum, Z.ltb_ge in H15. lia.
  - apply Hnum, Z.ltb_ge in H17. lia.
  - apply Hnum, Z.ltb_ge in H18. lia.
  - intros He v. rewrite all_fine_true.
    assert (∀ f, f ≠ log_default_file → strs (with_str log_default_file v c) f = strs c f) as Hs by (intros f Hf; by apply fn_lookup_insert_ne).
    assert (∀ examin path, examin_rooted examin fullpath (with_str log_default_file v c) path = examin_rooted examin fullpath c path) as Hr.
    { intros examin path. unfold examin_rooted, get_root_dir. by rewrite Hs. }
    unfold examin_rwconf_dir, examin_rwconf_file, examin_rwlog_file in *. rewrite !Hr, !Hs by discriminate. rewrite He.
    repeat (constructor; [first [assumption|reflexivity]|]). constructor.
Qed.
Definition demo_verified : server_config_struct :=
  ServerConfig (λ f, match f with
                     | root_dir => $"/rwhois" | bin_path => $"bin" | directive_file => $"dir" | x_directive_file => $"xdir"
                     | auth_area_file => $"areas" | punt_file => $"punt" | security_allow => $"allow" | security_deny => $"deny"
                     | pid_file => $"/rwhois/pid" | register_spool => $"spool/new" | hostname => $"localhost"
                     | log_default_file => $"../../etc/passwd" | _ => [] end)
    (λ i, match i with port => 4321 | default_deadman_time => 200 | max_hits_default => 20 | max_hits_ceiling => 200 | _ => 0 end).
Lemma verified_config_witness :
  let passes := verify_main_config (λ _, false) (λ _, None) (λ _, true) (λ _ _, true) (replicate 512 NUL) in
  passes demo_verified = Ret true ∧ 20 ≤ 200 ∧ rooted_path (replicate 512 NUL) demo_verified register_spool ∧
  passes (with_str log_default_file ($"/etc/shadow") demo_verified) = Ret true.
Proof.
  intros passes. assert (passes demo_verified = Ret true) as E by (vm_compute; reflexivity). split; [exact E|].
  destruct (verified_config (λ _, false) (λ _, None) (λ _, true) (λ _ _, true) (replicate 512 NUL) demo_verified E) as (H1 & _ & _ & _ & H2 & H3).
  split; [exact (proj2 H2)|]. split; [|exact (H3 eq_refl ($"/etc/shadow"))].
  rewrite Forall_forall in H1. apply H1. do 8 right. left.
Defined.

(** ** Paths that differ *)

Lemma dup_config_paths_dup fields c paths : dup_config_paths fields c paths = dup_paths ((λ f, Some (strs c f)) <$> fields) paths.
Proof.
  revert paths. induction fields as [|f fields IH]; intros paths; [done|]. cbn [dup_config_paths fmap list_fmap dup_paths].
  destruct (dup_config_path_name paths (Some (strs c f))) as [d paths1]. by rewrite IH.
Qed.
(** the paths of the configuration *)
Definition config_paths (c : server_config_struct) : list cstr :=
  ((λ f, Some (strs c f)) <$> [root_dir; bin_path; notify_log; directive_file; x_directive_file; auth_area_file; register_log; register_spool;
    punt_file; security_allow; security_deny; pid_file]) ≫= used_path.
Definition log_files (c : server_config_struct) : list cstr :=
  strs c <$> [log_default_file; log_emerg_file; log_alert_file; log_crit_file; log_err_file; log_warn_file; log_notice_file; log_info_file; log_debug_file].
