(* ===== verification/ReadConfig.v ===== *)
(** * All configuration files (common/read_config.c)

    Reading, checking and writing the configuration as a whole: the main file,
    the directives, the authority areas with their schemas, the punt referrals
    and the lists of the security of directives.  New files are written under
    names with a suffix first, then moved to where the old ones are. *)

From stdpp Require Import functions.
From S2P Require Import Prelude CLib CString Misc IpNetwork Types ClientMsgs Stdio Records FilePath FileInfo ConfigFile Directives FileNames.
From S2P Require Import Attributes Schema AuthArea RefLists Query MainConfig.
Local Open Scope Z_scope.

(** ** The working directory (fileutils.c)

    Files and directories are known by their full paths; a relative path is
    looked up in the working directory.  There is one place to store it in. *)
Record workdir := Workdir { wd : cstr; stored : cstr }.
Definition seen (files : filesystem) (w : workdir) : filesystem := λ p, files (full_path p (wd w)).
Definition seen_dir (dirs : list cstr) (w : workdir) (p : cstr) : bool := bool_decide (full_path p (wd w) ∈ dirs).

Definition store_current_wd (w : workdir) : workdir := Workdir (wd w) (wd w).
(** chdir, which leaves the directory if there is no such one *)
Definition chdir (dirs : list cstr) (d : cstr) (w : workdir) : workdir :=
  if seen_dir dirs w d then Workdir (full_path d (wd w)) (stored w) else w.
Definition restore_current_wd (dirs : list cstr) (w : workdir) : workdir := chdir dirs (stored w) w.
Definition chdir_root_dir (dirs : list cstr) (c : server_config_struct) (w : workdir) : workdir := chdir dirs (get_root_dir c) w.

(** ** The configuration *)

Record rwhois_configs_struct := RwhoisConfigs {
  ref_list : option (list punt_ref_struct); dir_allow : option (list dir_security_struct); dir_deny : option (list dir_security_struct) }.
Record configuration := Configuration {
  server : server_config_struct; directives : directive_list; zone : config; rwconf : rwhois_configs_struct }.
Definition with_server c s := Configuration c (directives s) (zone s) (rwconf s).
Definition with_directives l s := Configuration (server s) l (zone s) (rwconf s).
Definition with_zone z s := Configuration (server s) (directives s) z (rwconf s).
Definition with_rwconf r s := Configuration (server s) (directives s) (zone s) r.

Section Read.
(** the files and directories, the arrays on the stack, name resolution, the
    host name, what can be executed and written, where programs of extended
    directives are found *)
Context (files : filesystem) (dirs : list cstr) (junk junk' fullpath new_path : buf) (resolve : cstr → option addrinfo).
Context (regexec : cstr → cstr → bool) (ni0 : netinfo) (sys_gethostname : cstr).
Context (executable access : cstr → bool) (examin_program : option cstr → bool).

Definition verify_server_config_data (w : workdir) (c : server_config_struct) : outcome (bool * server_config_struct * workdir) :=
  c ← default_root_dir (seen_dir dirs w) (wd w) c;
  '(ok, c) ← canonicalize_conf_paths (seen_dir dirs w) (seen files w) junk junk' verified_paths c;
  if negb ok then Ret (false, c, w)
  else
    let w := restore_current_wd dirs (chdir_root_dir dirs c (store_current_wd w)) in
    '(ok, c) ← canonicalize_conf_paths (seen_dir dirs w) (seen files w) junk junk' verified_paths_behind c;
    Ret (ok, c, w).

Definition read_all_config_files (config_file : cstr) (chrooted : bool) (s : configuration) (w : workdir) :
    outcome (bool * configuration * workdir) :=
  '(ok, c) ← read_main_config_file (seen_dir dirs w) (seen files w) config_file chrooted (server s);
  let s := with_server c s in
  if negb ok then Ret (false, s, w)
  else
    '(ok, c, w) ← verify_server_config_data w c;
    let s := with_server c s in
    if negb ok then Ret (false, s, w)
    else
      let w := chdir_root_dir dirs c (store_current_wd w) in
      '(ok, l) ← read_directive_file (seen files w) (Some (get_directive_file c));
      let s := with_directives l s in
      if negb ok then Ret (false, s, restore_current_wd dirs w)
      else
        '(ok, l) ← read_extended_directive_file (seen files w) (Some (get_x_directive_file c)) l;
        let s := with_directives l s in
        if negb ok then Ret (false, s, restore_current_wd dirs w)
        else
          '(ok, z) ← read_auth_areas (seen files w) (seen_dir dirs w) resolve regexec ni0 (get_auth_area_file c) (zone s);
          Ret (ok, with_zone z s, restore_current_wd dirs w).

(** ** Checking *)

Definition verify_all_path_names (s : configuration) : outcome bool :=
  let '(n, paths) := verify_main_config_paths (server s) [] in
  '(m, paths) ← verify_all_auth_area_paths (area_list (zone s)) paths;
  k ← verify_non_admin_paths (area_list (zone s)) (server s) paths;
  Ret (n + m + k =? 0)%nat.

(** the checks take paths of the areas apart in place *)
Definition verify_all_config (s : configuration) (w : workdir) : outcome (bool * configuration * workdir) :=
  let c := server s in
  let w := chdir_root_dir dirs c (store_current_wd w) in
  let back ok s := Ret (ok, s, restore_current_wd dirs w) in
  ok ← verify_main_config (seen_dir dirs w) (seen files w) access regexec fullpath c;
  if negb ok then back false s
  else
    ok ← verify_all_directives examin_program (directives s);
    if negb ok then back false s
    else
      '(ok, l) ← verify_all_auth_areas regexec ni0 (seen files w) (seen_dir dirs w) executable (get_root_dir c) (get_bin_path c) fullpath new_path
                   (dangling_areas (zone s)) 0 (area_list (zone s));
      let z := zone s in
      let s := with_zone (Config (match areas z with Some _ => Some l | None => None end) (class_refs z) (AuthArea.stale z) (dangling_areas z)) s in
      if negb ok then back false s
      else if negb (verify_punt_ref_list (ref_list (rwconf s))) then back false s
      else if negb (verify_dir_security_list (dir_allow (rwconf s))) then back false s
      else if negb (verify_dir_security_list (dir_deny (rwconf s))) then back false s
      else ok ← verify_all_path_names s; back ok s.

(** ** Reading everything *)

(** a class that has been destroyed already is a fault *)
Definition destroy_all_config (s : configuration) : outcome configuration :=
  z ← destroy_auth_area_list (zone s); Ret (Configuration (server s) [] z (RwhoisConfigs None None None)).

Definition read_rwhois_config_files (config_file : cstr) (chrooted : bool) (s : configuration) (w : workdir) :
    outcome (bool * configuration * workdir) :=
  c ← init_server_config_data (seen_dir dirs w) sys_gethostname;
  '(ok, s, w) ← read_all_config_files config_file chrooted (with_server c s) w;
  if negb ok then Ret (false, s, w)
  else
    let c := server s in
    let w := chdir_root_dir dirs c (store_current_wd w) in
    let r := rwconf s in
    '(ok, l) ← read_punt_file (seen files w) (Some (get_punt_file c)) (ref_list r);
    let r := RwhoisConfigs l (dir_allow r) (dir_deny r) in
    if negb ok then Ret (false, with_rwconf r s, restore_current_wd dirs w)
    else
      '(ok, l) ← read_dir_security_file (seen files w) (Some (get_security_allow c)) (dir_allow r);
      let r := RwhoisConfigs (ref_list r) l (dir_deny r) in
      if negb ok then Ret (false, with_rwconf r s, restore_current_wd dirs w)
      else
        '(ok, l) ← read_dir_security_file (seen files w) (Some (get_security_deny c)) (dir_deny r);
        let r := RwhoisConfigs (ref_list r) (dir_allow r) l in
        if negb ok then Ret (false, with_rwconf r s, restore_current_wd dirs w)
        else
          '(ok, s, w) ← verify_all_config (with_rwconf r s) w;
          if ok : bool then Ret (true, s, restore_current_wd dirs w)
          else s ← destroy_all_config s; Ret (false, s, restore_current_wd dirs w).

Definition def_init_all_config (s : configuration) (w : workdir) : outcome (bool * configuration) :=
  s ← destroy_all_config s;
  c ← init_server_config_data (seen_dir dirs w) sys_gethostname;
  let s := with_server c s in
  '(ok, l) ← default_directive_list;
  let s := with_directives l s in
  if negb ok then Ret (false, s)
  else
    let '(ok, allow) := def_dir_allow_security_list in
    let s := with_rwconf (RwhoisConfigs None allow None) s in
    if negb ok then Ret (false, s)
    else
      let '(ok, deny) := def_dir_deny_security_list in
      let s := with_rwconf (RwhoisConfigs None allow deny) s in
      if negb ok then Ret (false, s)
      else let '(ok, l) := def_init_punt_ref in Ret (ok, with_rwconf (RwhoisConfigs l allow deny) s).
End Read.

(** ** Writing *)

(** the files and directories, by their full paths *)
Record world := World { w_fs : filesystem; w_dirs' : list cstr }.
(** the names by which directories are seen from the working directory *)
Definition names_in (w : workdir) (dirs : list cstr) : list cstr := dirs ++ omap (λ d, path_full_to_rel d (wd w)) dirs.
(** what was written and made *)
Definition put_files (w : workdir) (l : list (cstr * cstr)) (fs : filesystem) : filesystem :=
  foldl (λ fs f, upd fs (full_path f.1 (wd w)) (Some f.2)) fs l.
Definition after_writing (w : workdir) (x : world) (wr : writing) : world :=
  World (put_files w (w_files wr) (w_fs x))
        (w_dirs' x ++ ((λ d, full_path d (wd w)) <$> drop (length (names_in w (w_dirs' x))) (FileNames.w_dirs wr))).

Fixpoint file_cmpr_loop (fuel : nat) (f1 f2 : cstr) (p1 p2 : nat) : outcome bool :=
  match fuel with
  | O => NoFuel
  | S fuel =>
      match fgets f1 p1 MAX_LINE, fgets f2 p2 MAX_LINE with
      | Some (l1, p1), Some (l2, p2) =>
          if strcmp (cstring l1) (cstring l2) =? 0 then file_cmpr_loop fuel f1 f2 p1 p2 else Ret false
      | None, None => Ret true
      | _, _ => Ret false
      end
  end.
Definition file_cmpr (fs : filesystem) (file1 file2 : cstr) : outcome bool :=
  match file1, file2 with
  | [], _ | _, [] => Ret false
  | _, _ =>
      match fs file1, fs file2 with
      | Some f1, Some f2 => if (length f1 =? length f2)%nat then file_cmpr_loop (S (length f1)) f1 f2 0 0 else Ret false
      | _, _ => Ret false
      end
  end.

Section Write.
(** [mkdir_ok], [open_ok]: of the directories there are and a name;
    [rename_ok], [rmdir_ok]: do rename and rmdir succeed *)
Context (mkdir_ok open_ok : list cstr → cstr → bool) (rename_ok : filesystem → cstr → cstr → bool) (rmdir_ok : world → cstr → bool).
Context (regexec : cstr → cstr → bool) (ni0 : netinfo) (suffix : cstr).

Definition write_opened (file : option cstr) (txt : outcome (option cstr)) (w : writing) : outcome (bool * writing) :=
  match file with
  | Some ((_ :: _) as file) =>
      txt ← txt;
      match txt with
      | None => Ret (false, w)
      | Some txt =>
          name ← new_file file suffix;
          '(ok, w) ← open_file_to_write mkdir_ok open_ok name w;
          Ret (if ok : bool then (true, wrote_file name txt w) else (false, w))
      end
  | _ => Ret (false, w)
  end.

(** the files are written in turn, up to the first that fails *)
Fixpoint write_in_turn (l : list (writing → outcome (bool * writing))) (w : writing) : outcome (bool * writing) :=
  match l with
  | [] => Ret (true, w)
  | write :: l => '(ok, w) ← write w; if ok : bool then write_in_turn l w else Ret (false, w)
  end.
Definition write_new_files (config_file : cstr) (s : configuration) (w : writing) : outcome (bool * configuration * writing) :=
  let c := server s in
  '(ok, w) ← write_in_turn
    [write_main_config_file mkdir_ok open_ok (Some config_file) suffix c;
     write_opened (Some (get_directive_file c)) (write_directive_file (Some (get_directive_file c)) (directives s));
     write_opened (Some (get_x_directive_file c)) (write_extended_directive_file (Some (get_x_directive_file c)) (directives s))] w;
  if negb ok then Ret (false, s, w)
  else
    '(ok, l, w) ← write_all_auth_areas mkdir_ok open_ok regexec ni0 suffix (Some (get_auth_area_file c)) (area_list (zone s)) w;
    let z := zone s in
    let s := with_zone (Config (match areas z with Some _ => Some l | None => None end) (class_refs z) (AuthArea.stale z) (dangling_areas z)) s in
    if negb ok then Ret (false, s, w)
    else
      '(ok, w) ← write_in_turn
        [write_punt_file mkdir_ok open_ok suffix (Some (get_punt_file c)) (ref_list (rwconf s));
         write_dir_security_file mkdir_ok open_ok suffix (Some (get_security_allow c)) (dir_allow (rwconf s));
         write_dir_security_file mkdir_ok open_ok suffix (Some (get_security_deny c)) (dir_deny (rwconf s))] w;
      Ret (ok, s, w).

(** does a path end with the suffix: it is a new file, else a directory *)
Definition is_new_file (path : cstr) : bool :=
  let idx := (length path - length suffix)%nat in
  (length suffix <? length path)%nat && (strncmp suffix (drop idx path) (length suffix) =? 0).
(** the name in an array of MAX_FILE bytes *)
Definition current_name (path : cstr) : cstr :=
  let idx := (length path - length suffix)%nat in if (idx <? 512)%nat then take idx path else take 511 path.
Definition backup_name (file : cstr) : outcome cstr :=
  let name := take 511 file ++ $".old" in if (length name <? 512)%nat then Ret name else Fault.

Definition rename (fs : filesystem) (old new : cstr) : option filesystem :=
  if file_exists fs old && rename_ok fs old new then Some (upd (upd fs old None) new (fs old)) else None.

(** the message about a directory that is gone lacks an argument *)
Fixpoint moveto_new_configuration (w : workdir) (dirs : list cstr) (paths_list : list cstr) (fs : filesystem) : outcome (bool * filesystem) :=
  match paths_list with
  | [] => Ret (true, fs)
  | path :: paths_list =>
      let full p := full_path p (wd w) in
      if is_new_file path then
        let file := current_name path in
        if file_exists fs (full file) then
          same ← file_cmpr (seen fs w) file path;
          if negb same then
            bkp_file ← backup_name file;
            match rename fs (full file) (full bkp_file) with
            | None => Ret (false, fs)
            | Some fs =>
                match rename fs (full path) (full file) with
                | None => Ret (false, fs)
                | Some fs => moveto_new_configuration w dirs paths_list fs
                end
            end
          else moveto_new_configuration w dirs paths_list (default fs (unlink fs (full path)))
        else
          match rename fs (full path) (full file) with
          | None => Ret (false, fs)
          | Some fs => moveto_new_configuration w dirs paths_list fs
          end
      else if seen_dir dirs w path then moveto_new_configuration w dirs paths_list fs
      else Fault
  end.

(** from the last path to the first *)
Definition remove_path (w : workdir) (path : cstr) (x : world) : world :=
  let full := full_path path (wd w) in
  if is_new_file path then
    if file_exists (w_fs x) full then World (default (w_fs x) (unlink (w_fs x) full)) (w_dirs' x) else x
  else if seen_dir (w_dirs' x) w path && rmdir_ok x full then World (w_fs x) (filter (λ d, d ≠ full) (w_dirs' x)) else x.
Definition remove_tmp_config (w : workdir) (paths_list : list cstr) (x : world) : world := foldr (remove_path w) x paths_list.

Definition write_all_config_files (config_file : cstr) (s : configuration) (w : workdir) (x : world) :
    outcome (bool * configuration * workdir * world) :=
  let w := chdir_root_dir (w_dirs' x) (server s) (store_current_wd w) in
  '(ok, s, wr) ← write_new_files config_file s (Writing (names_in w (w_dirs' x)) [] []);
  let x := after_writing w x wr in
  let back := restore_current_wd (w_dirs' x) w in
  if negb ok then Ret (false, s, back, remove_tmp_config back (w_paths wr) x)
  else
    match w_paths wr with
    | [] => Ret (false, s, back, x)
    | _ =>
        '(ok, fs) ← moveto_new_configuration w (w_dirs' x) (w_paths wr) (w_fs x);
        let x := World fs (w_dirs' x) in
        Ret (ok, s, back, if ok : bool then x else remove_tmp_config back (w_paths wr) x)
    end.
End Write.

(** ** Where the process ends up *)

Lemma full_path_abs p d : is_rel_path (Some p) = false → full_path p d = p.
Proof. unfold full_path. by intros ->. Qed.
Lemma chdir_abs dirs d w : is_rel_path (Some d) = false → d ∈ dirs → chdir dirs d w = Workdir d (stored w).
Proof. intros Hr Hd. unfold chdir, seen_dir. rewrite full_path_abs by done. by rewrite bool_decide_true. Qed.

(** the root directory is not one of the paths that are taken apart *)
Lemma canonicalize_conf_path_root dex fs junk junk' path is_file null c ok c' : path ≠ root_dir →
  canonicalize_conf_path dex fs junk junk' path is_file null c = Ret (ok, c') → get_root_dir c' = get_root_dir c.
Proof.
  intros Hp H. assert (∀ v c1 c2, set_str path v c1 = Ret c2 → get_root_dir c2 = get_root_dir c1) as Hset.
  { intros v c1 c2 [-> _]%set_str_inv. unfold get_root_dir, with_str. cbn [strs]. by apply fn_lookup_insert_ne. }
  unfold canonicalize_conf_path in H. apply bind_inv_Ret in H as ([[st p] canon] & _ & H).
  apply bind_inv_Ret in H as (p' & _ & H). apply bind_inv_Ret in H as (c1 & E1%Hset & H).
  destruct st; cbn [negb] in H; [|apply Ret_inj in H; injection H as _ <-; done].
  apply bind_inv_Ret in H as (s & _ & H). apply bind_inv_Ret in H as (q & _ & H).
  destruct (negb null && _); [apply Ret_inj in H; by injection H as _ <-|].
  apply bind_inv_Ret in H as (c2 & E2%Hset & H). apply Ret_inj in H. injection H as _ <-. congruence.
Qed.
Lemma canonicalize_conf_paths_root dex fs junk junk' l : Forall (λ x, x.1.1 ≠ root_dir) l → ∀ c ok c',
  canonicalize_conf_paths dex fs junk junk' l c = Ret (ok, c') → get_root_dir c' = get_root_dir c.
Proof.
  induction 1 as [|[[path is_file] null] l Hp _ IH]; intros c ok c' H; cbn [canonicalize_conf_paths] in H.
  - apply Ret_inj in H. by injection H as _ <-.
  - apply bind_inv_Ret in H as ([st c1] & E%canonicalize_conf_path_root & H); [|done].
    destruct st; [|apply Ret_inj in H; by injection H as _ <-]. apply IH in H. congruence.
Qed.

Section Where.
Context (files : filesystem) (dirs : list cstr) (junk junk' fullpath new_path : buf) (resolve : cstr → option addrinfo).
Context (regexec : cstr → cstr → bool) (ni0 : netinfo) (sys_gethostname : cstr).
Context (executable access : cstr → bool) (examin_program : option cstr → bool).

(** a directory that there is, by its full path *)
Definition there (d : cstr) : Prop := is_rel_path (Some d) = false ∧ d ∈ dirs.
Lemma chdir_there d w : there d → chdir dirs d w = Workdir d (stored w).
Proof. intros [Hr Hd]. by apply chdir_abs. Qed.

Lemma restore_root c w : there (wd w) → restore_current_wd dirs (chdir_root_dir dirs c (store_current_wd w)) = Workdir (wd w) (wd w).
Proof.
  intros Hw. unfold restore_current_wd. assert (stored (chdir_root_dir dirs c (store_current_wd w)) = wd w) as ->.
  { unfold chdir_root_dir, chdir. by destruct (seen_dir _ _ _). }
  rewrite chdir_there by done. f_equal. unfold chdir_root_dir, chdir. by destruct (seen_dir _ _ _).
Qed.
Lemma verify_server_wd w c ok c' w' : there (wd w) →
  verify_server_config_data files dirs junk junk' w c = Ret (ok, c', w') → wd w' = wd w.
Proof.
  intros Hw H. unfold verify_server_config_data in H. apply bind_inv_Ret in H as (c1 & _ & H).
  apply bind_inv_Ret in H as ([st c2] & _ & H). destruct st; cbn [negb] in H; [|apply Ret_inj in H; by injection H as _ _ <-].
  apply bind_inv_Ret in H as ([st c3] & _ & H). apply Ret_inj in H. injection H as _ _ <-.
  by rewrite restore_root.
Qed.
Lemma read_all_wd config_file chrooted s w ok s' w' : there (wd w) →
  read_all_config_files files dirs junk junk' resolve regexec ni0 config_file chrooted s w = Ret (ok, s', w') → wd w' = wd w.
Proof.
  intros Hw H. unfold read_all_config_files in H. apply bind_inv_Ret in H as ([st c] & _ & H).
  destruct st; cbn [negb] in H; [|apply Ret_inj in H; by injection H as _ _ <-].
  apply bind_inv_Ret in H as ([[st c1] w1] & E%verify_server_wd & H); [|done].
  destruct st; cbn [negb] in H; [|apply Ret_inj in H; by injection H as _ _ <-].
  assert (there (wd w1)) as Hw1 by by rewrite E.
  apply bind_inv_Ret in H as ([st l] & _ & H).
  destruct st; cbn [negb] in H; [|apply Ret_inj in H; injection H as _ _ <-; by rewrite restore_root].
  apply bind_inv_Ret in H as ([st l1] & _ & H).
  destruct st; cbn [negb] in H; [|apply Ret_inj in H; injection H as _ _ <-; by rewrite restore_root].
  apply bind_inv_Ret in H as ([st z] & _ & H). apply Ret_inj in H. injection H as _ _ <-. by rewrite restore_root.
Qed.

Ltac each_step H := repeat match type of H with
  | (_ ≫= _) = _ => apply bind_inv_Ret in H as ([? ?] & _ & H) || apply bind_inv_Ret in H as (? & _ & H)
  | (if ?b then _ else _) = _ => destruct b
  end.
Lemma verify_all_config_server s w ok s' w' :
  verify_all_config files dirs fullpath new_path regexec ni0 executable access examin_program s w = Ret (ok, s', w') → server s' = server s.
Proof.
  intros H. unfold verify_all_config in H. cbv zeta in H. each_step H; apply Ret_inj in H; by injection H as _ <- _.
Qed.
Lemma verify_all_config_wd s w ok s' w' : there (wd w) →
  verify_all_config files dirs fullpath new_path regexec ni0 executable access examin_program s w = Ret (ok, s', w') →
  w' = Workdir (wd w) (wd w).
Proof.
  intros Hw H. unfold verify_all_config in H. cbv zeta in H. rewrite restore_root in H by done.
  each_step H; apply Ret_inj in H; by injection H as _ _ <-.
Qed.
End Where.

(** C40: reading the configuration does not give the working directory back.
    The check of the configuration stores the working directory where the
    reader has stored its own: the process that has read everything stays in
    the root directory of the server, wherever it came from. *)
Theorem config_read_wd files dirs junk junk' fullpath new_path resolve regexec ni0 host executable access examin_program config_file chrooted s w s' w' :
  there dirs (wd w) → there dirs (get_root_dir (server s')) →
  read_rwhois_config_files files dirs junk junk' fullpath new_path resolve regexec ni0 host executable access examin_program config_file chrooted s w
  = Ret (true, s', w') → wd w' = get_root_dir (server s').
Proof.
  intros Hw Hroot H. unfold read_rwhois_config_files in H. apply bind_inv_Ret in H as (c & _ & H).
  apply bind_inv_Ret in H as ([[st s1] w1] & E%read_all_wd & H); [|done].
  destruct st; cbn [negb] in H; [|by apply Ret_inj in H].
  cbv zeta in H. set (w2 := chdir_root_dir dirs (server s1) (store_current_wd w1)) in *.
  apply bind_inv_Ret in H as ([st l1] & _ & H). destruct st; cbn [negb] in H; [|by apply Ret_inj in H].
  apply bind_inv_Ret in H as ([st l2] & _ & H). destruct st; cbn [negb] in H; [|by apply Ret_inj in H].
  apply bind_inv_Ret in H as ([st l3] & _ & H). destruct st; cbn [negb] in H; [|by apply Ret_inj in H].
  apply bind_inv_Ret in H as ([[st s2] w3] & E3 & H). destruct st; [|by apply bind_inv_Ret in H as (? & _ & ?)].
  apply Ret_inj in H. injection H as <- <-.
  pose proof (verify_all_config_server _ _ _ _ _ _ _ _ _ _ _ _ _ _ E3) as Es. cbn [server with_rwconf] in Es. rewrite Es in Hroot.
  assert (w2 = Workdir (get_root_dir (server s1)) (wd w1)) as E2 by (unfold w2, chdir_root_dir; by rewrite (chdir_there dirs)).
  rewrite E2 in E3. apply verify_all_config_wd in E3; [|exact Hroot]. cbn [wd] in E3. subst w3.
  unfold restore_current_wd. cbn [stored]. rewrite (chdir_there dirs) by exact Hroot. cbn [wd]. by rewrite Es.
Qed.

Definition demo_files : filesystem := λ p,
  if bool_decide (p = $"/etc/rwhoisd.conf") then Some (text [$"root-dir: /r"])
  else if bool_decide (p ∈ [$"/r/rwhoisd.dir"; $"/r/rwhoisd.x.dir"; $"/r/rwhoisd.auth_area"; $"/r/hosts.allow"; $"/r/hosts.deny"]) then Some []
  else if bool_decide (p = $"/r/rwhoisd.root") then Some (text [$"root.rwhois.net:4321:rwhois"])
  else None.
Definition demo_start : configuration := Configuration demo_config [] no_config (RwhoisConfigs None None None).
Definition demo_reading :=
  read_rwhois_config_files demo_files [$"/etc"; $"/r"] (replicate 513 NUL) (replicate 513 NUL) (replicate 512 NUL) (replicate 512 NUL) (λ _, None)
    (λ _ _, true) (NetInfo 0 0 (replicate 16 0)) ($"localhost") (λ _, true) (λ _, true) (λ _, true) ($"rwhoisd.conf") false demo_start
    (Workdir ($"/etc") []).
Definition demo_end : configuration * workdir := match demo_reading with Ret (_, s, w) => (s, w) | _ => (demo_start, Workdir [] []) end.
Lemma config_read_wd_witness : demo_reading = Ret (true, demo_end.1, demo_end.2) ∧ wd demo_end.2 = $"/r" ∧ get_root_dir (server demo_end.1) = $"/r".
Proof.
  assert (demo_reading = Ret (true, demo_end.1, demo_end.2)) as E by (vm_compute; reflexivity).
  assert (get_root_dir (server demo_end.1) = $"/r") as Er by (vm_compute; reflexivity).
  split; [exact E|]. split; [|exact Er]. rewrite <-Er.
  refine (config_read_wd _ _ _ _ _ _ _ _ _ _ _ _ _ _ _ _ _ _ _ _ _ E).
  - apply (bool_decide_unpack _). vm_compute. exact I.
  - rewrite Er. apply (bool_decide_unpack _). vm_compute. exact I.
Defined.

(** ** Paths that differ *)

(** the programs of the classes of areas *)
Definition class_programs (aa : auth_area_struct) : list (option cstr) :=
  match aa_schema aa with Some s => parse_program <$> class_list s | None => [] end.
Lemma in_list_false paths p : in_config_path_list paths p = false ↔ ∀ q, q ∈ used_path p → q ∉ paths.
Proof.
  unfold in_config_path_list, used_path. destruct p as [[|c p]|]; try (split; [|done]; intros _ q Hq; by apply elem_of_nil in Hq).
  rewrite <-not_true_iff_false, existsb_exists. split.
  - intros H q Hq%list_elem_of_singleton Hin. apply H. exists q. split; [by apply list_elem_of_In|]. subst q. by rewrite strcmp_refl.
  - intros H (q & Hq%list_elem_of_In & E%Z.eqb_eq%strcmp_eq). subst q. by apply (H (c :: p) ltac:(left)).
Qed.
Lemma class_programs_free name l paths n : verify_class_parse_progs name l paths = Ret n →
  n = 0%nat ↔ Forall (λ p, in_config_path_list paths p = false) (parse_program <$> l).
Proof.
  revert n. induction l as [|c l IH]; intros n H; cbn [verify_class_parse_progs] in H; [apply Ret_inj in H; subst; by split|].
  apply bind_inv_Ret in H as (? & _ & H). apply bind_inv_Ret in H as (m & E%IH & H). apply Ret_inj in H. subst n.
  rewrite fmap_cons, Forall_cons, <-E. destruct (in_config_path_list _ _); (split; [|by intros [? ?]; try done; lia]); intros ?; (split; [|lia]); [lia|done].
Qed.
Lemma programs_free l paths n : verify_aa_parse_progs l paths = Ret n →
  n = 0%nat ↔ Forall (λ p, in_config_path_list paths p = false) (l ≫= class_programs).
Proof.
  revert n. induction l as [|aa l IH]; intros n H; cbn [verify_aa_parse_progs] in H; [apply Ret_inj in H; subst; by split|].
  apply bind_inv_Ret in H as (s & Es%of_option_Ret & H). apply bind_inv_Ret in H as (k & E1%class_programs_free & H).
  apply bind_inv_Ret in H as (m & E%IH & H). apply Ret_inj in H. subst n.
  cbn [mbind list_bind]. rewrite Forall_app, <-E. unfold class_programs at 1. rewrite Es, <-E1. lia.
Qed.
Lemma filter_nil {A} (P : A → Prop) `{∀ x, Decision (P x)} l : length (filter P l) = 0%nat ↔ Forall (λ x, ¬ P x) l.
Proof.
  induction l as [|x l IH]; [done|]. rewrite Forall_cons, <-IH, filter_cons. destruct (decide (P x)); cbn [length]; split; try done; try lia; tauto.
Qed.

(** all paths of the configuration: files that the server writes *)
Definition all_paths (s : configuration) : list cstr := config_paths (server s) ++ ((area_list (zone s) ≫= area_paths) ≫= used_path).

(** The check of the names passes exactly if all files and directories of
    the configuration, of its areas and classes differ, and none of them is a
    log or a program of a class: what is written does not destroy one of its
    own files. *)
Theorem path_names_verified s b : verify_all_path_names s = Ret b →
  b = true ↔ NoDup (all_paths s) ∧
    Forall (λ f, ∀ q, q ∈ used_path (Some f) → q ∉ all_paths s) (log_files (server s)) ∧
    Forall (λ p, ∀ q, q ∈ used_path p → q ∉ all_paths s) (area_list (zone s) ≫= class_programs).
Proof.
  intros H. unfold verify_all_path_names, verify_main_config_paths in H. rewrite dup_config_paths_dup in H.
  set (mains := (λ f, Some (strs (server s) f)) <$> _) in H.
  destruct (dup_paths mains []) as [n paths] eqn:E1. apply bind_inv_Ret in H as ([m paths'] & E2%verify_all_auth_area_paths_dup & H).
  apply bind_inv_Ret in H as (k & E3 & H). apply Ret_inj in H. subst b.
  assert (dup_paths (mains ++ (area_list (zone s) ≫= area_paths)) [] = ((n + m)%nat, paths')) as E by by rewrite dup_paths_app, E1, E2.
  apply dup_paths_spec in E as [Hd Hp]; [|apply NoDup_nil_2]. cbn [app] in Hd, Hp. rewrite bind_app in Hd, Hp.
  change (mains ≫= used_path) with (config_paths (server s)) in *. fold (all_paths s) in Hd, Hp.
  unfold verify_non_admin_paths in E3. apply bind_inv_Ret in E3 as (j & Ej%programs_free & E3). apply Ret_inj in E3. subst k.
  rewrite Nat.eqb_eq.
  assert (log_files (server s) = strs (server s) <$> [log_default_file; log_emerg_file; log_alert_file; log_crit_file; log_err_file; log_warn_file;
    log_notice_file; log_info_file; log_debug_file]) as El by done. set (logs := [log_default_file; _; _; _; _; _; _; _; _]) in *.
  assert (paths' = all_paths s →
    length (filter (λ f, in_config_path_list paths' (Some (strs (server s) f)) = true) logs) = 0%nat ↔
    Forall (λ f, ∀ q, q ∈ used_path (Some f) → q ∉ all_paths s) (log_files (server s))) as Hlogs.
  { intros ->. rewrite filter_nil, El, Forall_fmap. apply Forall_iff. intros f. unfold compose. rewrite not_true_iff_false. apply in_list_false. }
  assert (paths' = all_paths s → j = 0%nat ↔ Forall (λ p, ∀ q, q ∈ used_path p → q ∉ all_paths s) (area_list (zone s) ≫= class_programs)) as Hprogs.
  { intros ->. rewrite Ej. apply Forall_iff. intros p. apply in_list_false. }
  split.
  - intros H0. assert (n + m = 0)%nat as Hz by lia. specialize (Hp Hz). split_and!; [by apply Hd|apply Hlogs; [done|lia]|apply Hprogs; [done|lia]].
  - intros (Hnd%Hd & Hl%Hlogs & Hq%Hprogs); [lia|by apply Hp..].
Qed.
Lemma path_names_verified_witness :
  let s := Configuration demo_verified [] no_config (RwhoisConfigs None None None) in
  verify_all_path_names s = Ret true ∧ NoDup (all_paths s) ∧ $"/rwhois/pid" ∈ all_paths s.
Proof.
  intros s. assert (verify_all_path_names s = Ret true) as E by (vm_compute; reflexivity). split; [exact E|].
  split; [exact (proj1 (proj1 (path_names_verified s true E) eq_refl))|]. apply (bool_decide_unpack _). vm_compute. exact I.
Defined.

(** ** New files have names of their own *)

Section Suffixed.
Context (mkdir_ok open_ok : list cstr → cstr → bool) (regexec : cstr → cstr → bool) (ni0 : netinfo) (suffix : cstr).

(** what is written between has a name with the suffix *)
Definition suffixed (w w' : writing) : Prop := ∀ f, f ∈ w_files w' → f ∈ w_files w ∨ ∃ file, new_file file suffix = Ret f.1.
#[local] Instance suffixed_preorder : PreOrder suffixed.
Proof. split; [intros w f; auto|]. intros w1 w2 w3 H1 H2 f [?|?]%H2; auto. Qed.
Lemma same_suffixed w w' : w_files w' = w_files w → suffixed w w'.
Proof. intros E f. rewrite E. auto. Qed.
Lemma wrote_suffixed name file txt w w' : new_file file suffix = Ret name → w_files w' = w_files w → suffixed w (wrote_file name txt w').
Proof. intros Hn E f. cbn [w_files wrote_file]. rewrite E, elem_of_app, list_elem_of_singleton. intros [?| ->]; eauto. Qed.

Lemma opened_suffixed name file txt w ok w1 : new_file file suffix = Ret name → open_file_to_write mkdir_ok open_ok name w = Ret (ok, w1) →
  suffixed w w1 ∧ suffixed w (wrote_file name txt w1).
Proof. intros Hn [_ F]%open_file_to_write_noted. split; [by apply same_suffixed|by eapply wrote_suffixed]. Qed.

Lemma write_class_attributes_suffixed file c w ok c' w' :
  write_class_attributes mkdir_ok open_ok file suffix c w = Ret (ok, c', w') → suffixed w w'.
Proof.
  unfold write_class_attributes. intros H. destruct file as [[|ch file]|]; try (apply Ret_inj in H; by injection H as <- <- <-).
  apply bind_inv_Ret in H as ([[ok1 c1] w1] & E & H). assert (suffixed w w1) as N1.
  { destruct (has_dir w (db_dir c)); [apply Ret_inj in E; by injection E as <- <- <-|].
    apply bind_inv_Ret in E as ([[ok2 dir] w2] & E & H2). apply Ret_inj in H2. injection H2 as <- <- <-.
    apply make_config_dir_noted in E as [_ F]. by apply same_suffixed. }
  destruct ok1; cbn [negb] in H; [|apply Ret_inj in H; by injection H as <- <- <-].
  destruct (attribute_list c1) as [|a l] eqn:El; [apply Ret_inj in H; by injection H as <- <- <-|].
  apply bind_inv_Ret in H as (name & En & H). apply bind_inv_Ret in H as ([ok2 w2] & E2 & H). apply Ret_inj in H.
  eapply opened_suffixed in E2 as [N2 N3]; [|exact En]. destruct ok2; injection H as <- <- <-; (etrans; [exact N1|]); [exact N3|exact N2].
Qed.
Lemma write_classes_suffixed l : ∀ w ok ls l' w', write_classes mkdir_ok open_ok suffix l w = Ret (ok, ls, l', w') → suffixed w w'.
Proof.
  induction l as [|c l IH]; intros w ok ls l' w' H; cbn [write_classes] in H; [apply Ret_inj in H; by injection H as <- <- <- <-|].
  apply bind_inv_Ret in H as ([[ok1 c1] w1] & E%write_class_attributes_suffixed & H).
  destruct ok1; [|apply Ret_inj in H; by injection H as <- <- <- <-].
  apply bind_inv_Ret in H as ([[[ok2 ls2] l2] w2] & E2%IH & H). apply Ret_inj in H. injection H as <- <- <- <-. by etrans.
Qed.
Lemma write_schema_file_suffixed file type s w ok s' w' :
  write_schema_file mkdir_ok open_ok suffix file type s w = Ret (ok, s', w') → suffixed w w'.
Proof.
  unfold write_schema_file. intros H. destruct file as [[|c file]|]; try (apply Ret_inj in H; by injection H as <- <- <-).
  destruct (decide _); [apply Ret_inj in H; by injection H as <- <- <-|].
  apply bind_inv_Ret in H as (name & En & H). apply bind_inv_Ret in H as ([ok1 w1] & E & H).
  eapply (opened_suffixed _ _ []) in E as [N _]; [|exact En]. destruct ok1; cbn [negb] in H; [|apply Ret_inj in H; by injection H as <- <- <-].
  apply bind_inv_Ret in H as (s0 & _ & H). apply bind_inv_Ret in H as ([[[ok2 ls] l] w2] & E2%write_classes_suffixed & H).
  apply Ret_inj in H. injection H as <- <- <-. etrans; [exact N|]. etrans; [exact E2|]. by eapply wrote_suffixed.
Qed.
Lemma write_new_soa_file_suffixed file aa w ok w' :
  write_new_soa_file mkdir_ok open_ok suffix file aa w = Ret (ok, w') → suffixed w w'.
Proof.
  unfold write_new_soa_file. intros H. destruct file as [[|c file]|]; try (apply Ret_inj in H; by injection H as <- <-).
  apply bind_inv_Ret in H as (name & En & H). apply bind_inv_Ret in H as ([ok1 w1] & E & H).
  eapply opened_suffixed in E as [N2 N3]; [|exact En]. apply Ret_inj in H. by destruct ok1; injection H as <- <-.
Qed.
Lemma need_dir_suffixed dir w ok left w' : need_dir mkdir_ok dir w = Ret (ok, left, w') → suffixed w w'.
Proof.
  unfold need_dir. intros H. destruct (has_dir w dir); [apply Ret_inj in H; by injection H as <- <- <-|].
  apply make_config_dir_noted in H as [_ F]. by apply same_suffixed.
Qed.
Lemma write_auth_area_suffixed aa w ok aa' w' :
  write_auth_area mkdir_ok open_ok regexec ni0 suffix aa w = Ret (ok, aa', w') → suffixed w w'.
Proof.
  unfold write_auth_area. intros H. apply bind_inv_Ret in H as ([[ok0 name] dir] & _ & H).
  destruct ok0; cbn [negb] in H; [|apply Ret_inj in H; by injection H as <- <- <-].
  apply bind_inv_Ret in H as ([[ok1 d1] w1] & E1%need_dir_suffixed & H).
  destruct ok1; cbn [negb] in H; [|apply Ret_inj in H; by injection H as <- <- <-].
  destruct (decide _); [|apply Ret_inj in H; by injection H as <- <- <-].
  apply bind_inv_Ret in H as ([[ok2 d2] w2] & E2%need_dir_suffixed & H). assert (suffixed w w2) as N2 by (by etrans).
  destruct ok2; cbn [negb] in H; [|apply Ret_inj in H; by injection H as <- <- <-].
  apply bind_inv_Ret in H as (attr_dir & _ & H).
  apply bind_inv_Ret in H as ([[ok3 d3] w3] & E3%need_dir_suffixed & H). assert (suffixed w w3) as N3 by (by etrans).
  destruct ok3; cbn [negb] in H; [|apply Ret_inj in H; by injection H as <- <- <-].
  apply bind_inv_Ret in H as ([ok4 w4] & E4%write_new_soa_file_suffixed & H). assert (suffixed w w4) as N4 by (by etrans).
  destruct ok4; cbn [negb] in H; [|apply Ret_inj in H; by injection H as <- <- <-].
  apply bind_inv_Ret in H as ([[ok5 s5] w5] & E5%write_schema_file_suffixed & H). apply Ret_inj in H. injection H as <- <- <-. by etrans.
Qed.
Lemma write_areas_suffixed l : ∀ w ok ls l' w', write_areas mkdir_ok open_ok regexec ni0 suffix l w = Ret (ok, ls, l', w') → suffixed w w'.
Proof.
  induction l as [|aa l IH]; intros w ok ls l' w' H; cbn [write_areas] in H; [apply Ret_inj in H; by injection H as <- <- <- <-|].
  apply bind_inv_Ret in H as ([[ok1 aa1] w1] & E%write_auth_area_suffixed & H).
  destruct ok1; [|apply Ret_inj in H; by injection H as <- <- <- <-].
  apply bind_inv_Ret in H as ([[[ok2 ls2] l2] w2] & E2%IH & H). apply Ret_inj in H. injection H as <- <- <- <-. by etrans.
Qed.
Lemma write_all_auth_areas_suffixed file l w ok l' w' :
  write_all_auth_areas mkdir_ok open_ok regexec ni0 suffix file l w = Ret (ok, l', w') → suffixed w w'.
Proof.
  intros H. unfold write_all_auth_areas in H. destruct file as [[|c file]|]; try (apply Ret_inj in H; by injection H as <- <- <-).
  apply bind_inv_Ret in H as (name & En & H). apply bind_inv_Ret in H as ([ok1 w1] & E & H).
  eapply (opened_suffixed _ _ []) in E as [N _]; [|exact En]. destruct ok1; cbn [negb] in H; [|apply Ret_inj in H; by injection H as <- <- <-].
  apply bind_inv_Ret in H as ([[[ok2 ls] l2] w2] & E2%write_areas_suffixed & H).
  apply Ret_inj in H. injection H as <- <- <-. etrans; [exact N|]. etrans; [exact E2|]. by eapply wrote_suffixed.
Qed.

(** one file of the configuration: its name, and that it is noted *)
Definition one_file (write : writing → outcome (bool * writing)) : Prop :=
  ∀ w ok w', write w = Ret (ok, w') → suffixed w w' ∧ noted w w'.
Lemma opened_one_file name file txt w ok w1 r : new_file file suffix = Ret name → open_file_to_write mkdir_ok open_ok name w = Ret (ok, w1) →
  Ret (if ok : bool then (true, wrote_file name txt w1) else (false, w1)) = Ret r → suffixed w r.2 ∧ noted w r.2.
Proof.
  intros Hn Ho Hr. pose proof Ho as [N _]%open_file_to_write_noted. eapply (opened_suffixed _ _ txt) in Ho as [S1 S2]; [|exact Hn].
  apply Ret_inj in Hr. subst r. destruct ok; cbn [snd]; (split; [done|]); [|done]. etrans; [exact N|]. apply written_noted.
Qed.
Lemma main_one_file file c : one_file (write_main_config_file mkdir_ok open_ok file suffix c).
Proof.
  intros w ok w' H. unfold write_main_config_file in H. destruct file as [[|x file]|]; try (apply Ret_inj in H; by injection H as _ <-).
  apply bind_inv_Ret in H as (name & En & H). apply bind_inv_Ret in H as ([ok1 w1] & E & H). by eapply (opened_one_file _ _ _ _ _ _ (ok, w')).
Qed.
Lemma opened_file file txt : one_file (write_opened mkdir_ok open_ok suffix file txt).
Proof.
  intros w ok w' H. unfold write_opened in H. destruct file as [[|x file]|]; try (apply Ret_inj in H; by injection H as _ <-).
  apply bind_inv_Ret in H as ([t|] & _ & H); [|apply Ret_inj in H; by injection H as _ <-].
  apply bind_inv_Ret in H as (name & En & H). apply bind_inv_Ret in H as ([ok1 w1] & E & H). by eapply (opened_one_file _ _ _ _ _ _ (ok, w')).
Qed.
Lemma punt_one_file file l : one_file (write_punt_file mkdir_ok open_ok suffix file l).
Proof.
  intros w ok w' H. unfold write_punt_file in H. destruct file as [[|x file]|], l as [l|]; try (apply Ret_inj in H; by injection H as _ <-).
  apply bind_inv_Ret in H as (name & En & H). apply bind_inv_Ret in H as ([ok1 w1] & E & H). by eapply (opened_one_file _ _ _ _ _ _ (ok, w')).
Qed.
Lemma security_one_file file l : one_file (write_dir_security_file mkdir_ok open_ok suffix file l).
Proof.
  intros w ok w' H. unfold write_dir_security_file in H. destruct file as [[|x file]|], l as [l|]; try (apply Ret_inj in H; by injection H as _ <-).
  apply bind_inv_Ret in H as (name & En & H). apply bind_inv_Ret in H as ([ok1 w1] & E & H). by eapply (opened_one_file _ _ _ _ _ _ (ok, w')).
Qed.
Lemma in_turn_files l : Forall one_file l → one_file (write_in_turn l).
Proof.
  induction 1 as [|f l Hf _ IH]; intros w ok w' H; cbn [write_in_turn] in H; [apply Ret_inj in H; by injection H as _ <-|].
  apply bind_inv_Ret in H as ([ok1 w1] & [S1 N1]%Hf & H). destruct ok1; [|apply Ret_inj in H; by injection H as _ <-].
  apply IH in H as [S2 N2]. split; by etrans.
Qed.

(** all new files have the suffix and are in the list of paths *)
Lemma write_new_files_noted config_file s w ok s' w' : w_files w = [] →
  write_new_files mkdir_ok open_ok regexec ni0 suffix config_file s w = Ret (ok, s', w') →
  ∀ f, f ∈ w_files w' → (∃ file, new_file file suffix = Ret f.1) ∧ f.1 ∈ w_paths w'.
Proof.
  intros Hw H. unfold write_new_files in H. apply bind_inv_Ret in H as ([ok1 w1] & E1 & H).
  apply in_turn_files in E1 as [S1 N1]; [|repeat (constructor; [first [apply main_one_file | apply opened_file]|]); constructor].
  assert (∀ w2, suffixed w w2 → (∀ f, f ∈ w_files w2 → f ∈ w_files w ∨ f.1 ∈ w_paths w2) →
    ∀ f, f ∈ w_files w2 → (∃ file, new_file file suffix = Ret f.1) ∧ f.1 ∈ w_paths w2) as Hend.
  { intros w2 S N f Hf. specialize (S f Hf). specialize (N f Hf). rewrite Hw in *.
    split; [destruct S as [Hn|]|destruct N as [Hn|]]; try done; by apply elem_of_nil in Hn. }
  destruct N1 as (P1 & _ & _ & _ & F1).
  destruct ok1; cbn [negb] in H; [|apply Ret_inj in H; injection H as _ _ <-; by apply Hend].
  apply bind_inv_Ret in H as ([[ok2 l2] w2] & E2 & H). pose proof E2 as S2%write_all_auth_areas_suffixed.
  apply write_all_auth_areas_noted in E2 as (_ & F2 & P2). assert (suffixed w w2) as S12 by by etrans.
  assert (∀ f, f ∈ w_files w2 → f ∈ w_files w ∨ f.1 ∈ w_paths w2) as F12.
  { intros f [[?|?]%F1|?]%F2; auto. right. by eapply elem_of_prefix. }
  destruct ok2; cbn [negb] in H; [|apply Ret_inj in H; injection H as _ _ <-; by apply Hend].
  apply bind_inv_Ret in H as ([ok3 w3] & E3 & H). apply Ret_inj in H. injection H as _ _ <-.
  apply in_turn_files in E3 as [S3 (P3 & _ & _ & _ & F3)];
    [|repeat (constructor; [first [apply punt_one_file | apply security_one_file]|]); constructor].
  apply Hend; [by etrans|]. intros f [[?|?]%F12|?]%F3; auto. right. by eapply elem_of_prefix.
Qed.
End Suffixed.

(** ** A configuration that cannot be written *)

Lemma upd_eq fs n f : upd fs n f n = f.
Proof. unfold upd. by rewrite bool_decide_true. Qed.
Lemma upd_ne fs n f m : m ≠ n → upd fs n f m = fs m.
Proof. intros H. unfold upd. by rewrite bool_decide_false. Qed.
Lemma put_files_other w l : ∀ fs p, (∀ f, f ∈ l → full_path f.1 (wd w) ≠ p) → put_files w l fs p = fs p.
Proof.
  unfold put_files. induction l as [|f l IH]; intros fs p H; [done|]. cbn [foldl]. rewrite IH; [|intros g Hg; apply H; by right].
  apply upd_ne. intros E. apply (H f ltac:(left)). done.
Qed.
Lemma put_files_keeps w l : ∀ fs p, is_Some (fs p) → is_Some (put_files w l fs p).
Proof.
  unfold put_files. induction l as [|f l IH]; intros fs p H; [done|]. cbn [foldl]. apply IH.
  unfold upd. case_bool_decide; [by eexists|done].
Qed.
Lemma put_files_there w l : ∀ fs f, f ∈ l → is_Some (put_files w l fs (full_path f.1 (wd w))).
Proof.
  induction l as [|g l IH]; intros fs f Hf; [by apply elem_of_nil in Hf|]. cbn [put_files foldl].
  apply elem_of_cons in Hf as [->|Hf]; [|by apply IH]. apply put_files_keeps. rewrite upd_eq. by eexists.
Qed.

Section Failed.
Context (mkdir_ok open_ok : list cstr → cstr → bool) (rename_ok : filesystem → cstr → cstr → bool) (rmdir_ok : world → cstr → bool).
Context (regexec : cstr → cstr → bool) (ni0 : netinfo) (suffix : cstr).
Context (suffix_short : (length suffix < 512)%nat) (suffix_ne : suffix ≠ []).

Lemma full_path_suffix p d t : t `suffix_of` p → t ≠ [] → t `suffix_of` full_path p d.
Proof.
  intros [k ->] Ht. unfold full_path. case_match; [|by exists k]. exists (d ++ SLASH :: k). by rewrite <-app_assoc.
Qed.
Lemma new_file_suffix file name : new_file file suffix = Ret name → suffix `suffix_of` name.
Proof.
  unfold new_file. destruct (_ <? _)%nat; [|done]. intros [= <-]. rewrite (take_ge suffix) by lia. by eexists.
Qed.
Lemma is_new_file_suffix path : is_new_file suffix path = true → suffix `suffix_of` path.
Proof.
  unfold is_new_file. intros [Hl%Nat.ltb_lt E%Z.eqb_eq]%andb_true_iff. unfold strncmp in E. apply strcmp_eq in E.
  rewrite (take_ge suffix) in E by lia. rewrite take_ge in E by (rewrite length_drop; lia).
  exists (take (length path - length suffix) path). rewrite E at 2. by rewrite take_drop.
Qed.

Lemma remove_path_other w path x p : (suffix `suffix_of` path → full_path path (wd w) ≠ p) → w_fs (remove_path rmdir_ok suffix w path x) p = w_fs x p.
Proof.
  intros H. unfold remove_path. destruct (is_new_file suffix path) eqn:E.
  - destruct (file_exists (w_fs x) (full_path path (wd w))) eqn:Ef; [|done]. cbn [w_fs]. unfold unlink. rewrite Ef. cbn [default]. unfold id.
    apply upd_ne. apply not_eq_sym, H. by apply is_new_file_suffix.
  - by destruct (_ && _).
Qed.
Lemma remove_tmp_other w paths x p : (∀ path, path ∈ paths → suffix `suffix_of` path → full_path path (wd w) ≠ p) →
  w_fs (remove_tmp_config rmdir_ok suffix w paths x) p = w_fs x p.
Proof.
  unfold remove_tmp_config. induction paths as [|path paths IH]; intros H; [done|]. cbn [foldr]. rewrite remove_path_other.
  - apply IH. intros q Hq. apply H. by right.
  - apply H. by left.
Qed.
End Failed.

(** C20: writing the configuration is all or nothing in its first phase: if one
    of the files cannot be written, no file whose name does not have the suffix
    of the new ones is touched. *)
Theorem failed_write_keeps_config mkdir_ok open_ok rename_ok rmdir_ok regexec ni0 suffix config_file s w x ok s' w' x' s1 wr :
  suffix ≠ [] → (length suffix < 512)%nat →
  let w0 := chdir_root_dir (w_dirs' x) (server s) (store_current_wd w) in
  write_new_files mkdir_ok open_ok regexec ni0 suffix config_file s (Writing (names_in w0 (w_dirs' x)) [] []) = Ret (false, s1, wr) →
  write_all_config_files mkdir_ok open_ok rename_ok rmdir_ok regexec ni0 suffix config_file s w x = Ret (ok, s', w', x') →
  ok = false ∧ ∀ p, ¬ suffix `suffix_of` p → w_fs x' p = w_fs x p.
Proof.
  intros Hne Hlen w0 Hw H. unfold write_all_config_files in H. cbv zeta in H. fold w0 in H. rewrite Hw in H. cbn [mbind outcome_bind negb] in H.
  apply Ret_inj in H. injection H as <- _ _ <-. split; [done|]. intros p Hp.
  rewrite remove_tmp_other; [|done|].
  - unfold after_writing. cbn [w_fs]. apply put_files_other. intros f Hf E. apply Hp. rewrite <-E.
    eapply write_new_files_noted in Hw as Hw'; [|reflexivity|exact Hf]. destruct Hw' as [[file Hn] _].
    apply full_path_suffix; [|done]. by eapply new_file_suffix.
  - intros path _ Hs E. apply Hp. rewrite <-E. by apply full_path_suffix.
Qed.

Definition demo_writable (dirs : list cstr) (name : cstr) : bool := bool_decide (name ≠ $"/r/rwhoisd.dir.new" ∧ name ≠ $"rwhoisd.dir.new").
Definition demo_world : world := World demo_files [$"/etc"; $"/r"].
Definition demo_first : outcome (bool * configuration * writing) :=
  write_new_files (λ _ _, true) demo_writable (λ _ _, true) (NetInfo 0 0 (replicate 16 0)) ($".new") ($"rwhoisd.conf") demo_end.1
    (Writing (names_in (Workdir ($"/r") ($"/etc")) [$"/etc"; $"/r"]) [] []).
Definition demo_written : configuration * writing :=
  match demo_first with Ret (_, s, wr) => (s, wr) | _ => (demo_start, Writing [] [] []) end.
Definition demo_all (dirs_ok : world → cstr → bool) : outcome (bool * configuration * workdir * world) :=
  write_all_config_files (λ _ _, true) demo_writable (λ _ _ _, true) dirs_ok (λ _ _, true) (NetInfo 0 0 (replicate 16 0)) ($".new") ($"rwhoisd.conf")
    demo_end.1 (Workdir ($"/etc") []) demo_world.
Lemma demo_first_fails : demo_first = Ret (false, demo_written.1, demo_written.2).
Proof.
  assert (match demo_first with Ret (ok, _, _) => negb ok | _ => false end = true) as H by (vm_compute; reflexivity).
  unfold demo_written. destruct demo_first as [[[ok s] wr]| |]; [|discriminate H..]. destruct ok; [discriminate H|reflexivity].
Qed.
Lemma demo_all_returns : ∃ ok s w x, demo_all (λ _ _, true) = Ret (ok, s, w, x).
Proof.
  assert (match demo_all (λ _ _, true) with Ret _ => true | _ => false end = true) as H by (vm_compute; reflexivity).
  destruct (demo_all (λ _ _, true)) as [[[[ok s] w] x]| |]; [by do 4 eexists|discriminate H..].
Qed.
Lemma demo_first_chdir : chdir_root_dir (w_dirs' demo_world) (server demo_end.1) (store_current_wd (Workdir ($"/etc") [])) = Workdir ($"/r") ($"/etc").
Proof. vm_compute. reflexivity. Qed.
Lemma failed_write_keeps_config_witness : ∃ s' w' x', demo_all (λ _ _, true) = Ret (false, s', w', x') ∧
  w_fs x' ($"/etc/rwhoisd.conf") = Some (text [$"root-dir: /r"]) ∧ w_fs x' ($"/r/hosts.allow") = Some [].
Proof.
  destruct demo_all_returns as (ok & s & w & x & E).
  destruct (failed_write_keeps_config (λ _ _, true) demo_writable (λ _ _ _, true) (λ _ _, true) (λ _ _, true) (NetInfo 0 0 (replicate 16 0)) ($".new")
    ($"rwhoisd.conf") demo_end.1 (Workdir ($"/etc") []) demo_world ok s w x demo_written.1 demo_written.2) as [-> H].
  - discriminate.
  - apply (bool_decide_unpack _). vm_compute. exact I.
  - rewrite demo_first_chdir. exact demo_first_fails.
  - exact E.
  - exists s, w, x. split; [exact E|]. split.
    + rewrite H; [vm_compute; reflexivity|]. apply (bool_decide_unpack _). vm_compute. exact I.
    + rewrite H; [vm_compute; reflexivity|]. apply (bool_decide_unpack _). vm_compute. exact I.
Defined.

(** What a configuration that could not be written leaves behind: the
    reader goes back to where it came from before it removes the new files, so
    that those with relative names stay in the root directory of the server,
    unless that is where it came from. *)
Theorem failed_write_leaves_files mkdir_ok open_ok rename_ok rmdir_ok regexec ni0 suffix config_file s w x ok s' w' x' s1 wr :
  suffix ≠ [] → (length suffix < 512)%nat →
  there (w_dirs' x) (wd w) → there (w_dirs' x) (get_root_dir (server s)) →
  let w0 := Workdir (get_root_dir (server s)) (wd w) in
  write_new_files mkdir_ok open_ok regexec ni0 suffix config_file s (Writing (names_in w0 (w_dirs' x)) [] []) = Ret (false, s1, wr) →
  write_all_config_files mkdir_ok open_ok rename_ok rmdir_ok regexec ni0 suffix config_file s w x = Ret (ok, s', w', x') →
  Forall (λ p, is_rel_path (Some p) = true) (w_paths wr) →
  ∀ f, f ∈ w_files wr → ¬ (wd w ++ [SLASH]) `prefix_of` full_path f.1 (get_root_dir (server s)) →
    is_Some (w_fs x' (full_path f.1 (get_root_dir (server s)))).
Proof.
  intros Hne Hlen Hwd Hroot w0 Hw H Hrel f Hf Hpre. unfold write_all_config_files in H. cbv zeta in H.
  assert (chdir_root_dir (w_dirs' x) (server s) (store_current_wd w) = w0) as E0 by (unfold chdir_root_dir; by rewrite (chdir_there (w_dirs' x))).
  rewrite E0, Hw in H. cbn [mbind outcome_bind negb] in H. apply Ret_inj in H. injection H as _ _ _ <-.
  assert (∀ more, wd (restore_current_wd (w_dirs' x ++ more) w0) = wd w) as Eb.
  { intros more. unfold restore_current_wd. cbn [stored w0]. rewrite chdir_abs; [done|apply Hwd|]. apply elem_of_app. left. apply Hwd. }
  rewrite remove_tmp_other; [|done|].
  - unfold after_writing. cbn [w_fs]. by apply (put_files_there w0).
  - rewrite Eb. intros path Hpath _ E. apply Hpre. rewrite <-E. unfold full_path. rewrite Forall_forall in Hrel. rewrite (Hrel path Hpath).
    exists path. by rewrite <-app_assoc.
Qed.
Lemma failed_write_leaves_files_witness : ∃ ok s' w' x', demo_all (λ _ _, true) = Ret (ok, s', w', x') ∧ is_Some (w_fs x' ($"/r/rwhoisd.conf.new")).
Proof.
  destruct demo_all_returns as (ok & s & w & x & E). exists ok, s, w, x. split; [exact E|].
  assert (get_root_dir (server demo_end.1) = $"/r") as Er by (vm_compute; reflexivity).
  assert (w_paths demo_written.2 = [$"rwhoisd.conf.new"]) as Ep by (vm_compute; reflexivity).
  assert ((w_files demo_written.2).*1 = [$"rwhoisd.conf.new"]) as Ef by (vm_compute; reflexivity).
  assert (∃ txt, ($"rwhoisd.conf.new", txt) ∈ w_files demo_written.2) as [txt Hin].
  { destruct (w_files demo_written.2) as [|[n txt] l]; [discriminate Ef|]. cbn [fmap list_fmap fst] in Ef. injection Ef as -> _. exists txt. left. }
  pose proof (failed_write_leaves_files (λ _ _, true) demo_writable (λ _ _ _, true) (λ _ _, true) (λ _ _, true) (NetInfo 0 0 (replicate 16 0)) ($".new")
    ($"rwhoisd.conf") demo_end.1 (Workdir ($"/etc") []) demo_world ok s w x demo_written.1 demo_written.2) as H.
  cbv zeta in H. rewrite Er in H. apply (λ h1 h2 h3 h4 h5 h6, H h1 h2 h3 h4 h5 E h6 _ Hin).
  - discriminate.
  - apply (bool_decide_unpack _). vm_compute. exact I.
  - apply (bool_decide_unpack _). vm_compute. exact I.
  - apply (bool_decide_unpack _). vm_compute. exact I.
  - exact demo_first_fails.
  - rewrite Ep. apply (bool_decide_unpack _). vm_compute. exact I.
  - apply (bool_decide_unpack _). vm_compute. exact I.
Defined.

(** ** The new configuration in place *)

(** what fgets reads is there, up to a position that the line alone determines *)
Lemma line_of_prefix n s : line_of n s `prefix_of` s.
Proof.
  revert s. induction n as [|n IH]; intros [|c s]; cbn [line_of]; try apply prefix_nil. apply prefix_cons.
  destruct (c =c NL); [apply prefix_nil|apply IH].
Qed.
Lemma fgets_split f pos size l pos' : fgets f pos size = Some (l, pos') →
  take pos' f = take pos f ++ l ∧ pos' = (pos + length l)%nat ∧ l = line_of (size - 1) (drop pos f).
Proof.
  unfold fgets. destruct (drop pos f) as [|c rest] eqn:E; [done|]. intros [= <- <-].
  split; [|done]. rewrite <-E. destruct (line_of_prefix (size - 1) (drop pos f)) as [k Hk].
  assert (f = take pos f ++ line_of (size - 1) (drop pos f) ++ k) as Ef by (by rewrite <-Hk, take_drop).
  assert (pos ≤ length f)%nat as Hpos.
  { destruct (decide (pos ≤ length f)%nat); [done|]. rewrite drop_ge in E by lia. done. }
  remember (line_of (size - 1) (drop pos f)) as l eqn:El. clear El Hk. rewrite app_assoc in Ef. rewrite Ef at 1.
  apply take_app_length'. rewrite length_app, length_take. lia.
Qed.
Lemma fgets_None f pos size : fgets f pos size = None → (length f ≤ pos)%nat.
Proof.
  unfold fgets. destruct (drop pos f) as [|c rest] eqn:E; [|done]. intros _.
  assert (length (drop pos f) = 0)%nat as El by by rewrite E. rewrite length_drop in El. lia.
Qed.
Lemma cstring_sub (f s : cstr) : NUL ∉ f → (∀ c, c ∈ s → c ∈ f) → cstring s = s.
Proof. intros Hf Hs. apply cstring_no_nul. auto. Qed.

(** files without NUL are the same exactly if they are equal *)
Lemma file_cmpr_loop_eq f1 f2 : NUL ∉ f1 → NUL ∉ f2 → ∀ fuel pos, (pos ≤ length f1 < fuel + pos)%nat → take pos f1 = take pos f2 →
  file_cmpr_loop fuel f1 f2 pos pos = Ret (bool_decide (f1 = f2)).
Proof.
  intros H1 H2. induction fuel as [|fuel IH]; intros pos Hf Ht; [lia|]. cbn [file_cmpr_loop].
  destruct (fgets f1 pos MAX_LINE) as [[l1 p1]|] eqn:E1, (fgets f2 pos MAX_LINE) as [[l2 p2]|] eqn:E2.
  - apply fgets_progress in E1 as Hp1; [|unfold MAX_LINE; lia].
    assert (cstring l1 = l1) as ->.
    { apply (cstring_sub f1); [done|]. intros c Hc. apply fgets_split in E1 as (_ & _ & ->).
      eapply elem_of_prefix in Hc; [|apply line_of_prefix]. by eapply subseteq_drop. }
    assert (cstring l2 = l2) as ->.
    { apply (cstring_sub f2); [done|]. intros c Hc. apply fgets_split in E2 as (_ & _ & ->).
      eapply elem_of_prefix in Hc; [|apply line_of_prefix]. by eapply subseteq_drop. }
    destruct (Z.eqb_spec (strcmp l1 l2) 0) as [E%strcmp_eq|E].
    + subst l2. apply fgets_split in E1 as (T1 & -> & _). apply fgets_split in E2 as (T2 & -> & _). apply IH; [lia|]. by rewrite T1, T2, Ht.
    + rewrite bool_decide_false; [done|]. intros ->. rewrite E1 in E2. injection E2 as <- <-. by rewrite strcmp_refl in E.
  - rewrite bool_decide_false; [done|]. intros ->. congruence.
  - rewrite bool_decide_false; [done|]. intros ->. congruence.
  - apply fgets_None in E1, E2. rewrite !take_ge in Ht by done. by rewrite bool_decide_true.
Qed.
Lemma file_cmpr_eq fs file1 file2 f1 f2 : file1 ≠ [] → file2 ≠ [] → fs file1 = Some f1 → fs file2 = Some f2 → NUL ∉ f1 → NUL ∉ f2 →
  file_cmpr fs file1 file2 = Ret (bool_decide (f1 = f2)).
Proof.
  intros H1 H2 E1 E2 N1 N2. unfold file_cmpr. destruct file1, file2; try done. rewrite E1, E2.
  destruct (Nat.eqb_spec (length f1) (length f2)) as [E|E].
  - apply file_cmpr_loop_eq; [done..|lia|done].
  - rewrite bool_decide_false; [done|]. by intros ->.
Qed.

Section Moved.
Context (rename_ok : filesystem → cstr → cstr → bool) (suffix : cstr) (w : workdir) (dirs : list cstr).
Context (suffix_old : suffix ≠ $".old") (suffix_ne : suffix ≠ []).

(** the files that a new file can change: itself, the current one, the backup *)
Definition installs (path : cstr) : list cstr :=
  let file := current_name suffix path in (λ p, full_path p (wd w)) <$> [path; file; file ++ $".old"].

Lemma current_prefix path : is_new_file suffix path = true → ∃ n, current_name suffix path = take n path ∧ (0 < n < length path)%nat ∧ (n ≤ 511)%nat ∧
  ((n < 511)%nat → n = (length path - length suffix)%nat).
Proof.
  unfold is_new_file, current_name. intros [Hl%Nat.ltb_lt _]%andb_true_iff.
  assert (length suffix ≠ 0)%nat by (by destruct suffix). destruct (Nat.ltb_spec (length path - length suffix) 512).
  - exists (length path - length suffix)%nat. split_and!; [done|lia..].
  - exists 511%nat. split_and!; [done|lia..].
Qed.
Lemma full_path_inj p q d : head p = head q → full_path p d = full_path q d → p = q.
Proof.
  unfold full_path, is_rel_path. intros ->. case_match; [|done]. intros E%app_inv_head. by injection E.
Qed.
Lemma rename_inv fs old new fs' : rename rename_ok fs old new = Some fs' → is_Some (fs old) ∧ fs' = upd (upd fs old None) new (fs old).
Proof.
  unfold rename, file_exists. destruct (bool_decide _ && _) eqn:E; [|done]. intros [= <-].
  apply andb_true_iff in E as [E%bool_decide_eq_true _]. done.
Qed.

(** one new file: it replaces the current one, whatever that was *)
Lemma moved_one path paths fs fs' : is_new_file suffix path = true →
  (∀ p txt, p ∈ installs path → fs p = Some txt → NUL ∉ txt) →
  moveto_new_configuration rename_ok suffix w dirs (path :: paths) fs = Ret (true, fs') →
  ∃ fs1, moveto_new_configuration rename_ok suffix w dirs paths fs1 = Ret (true, fs') ∧
    fs1 (full_path (current_name suffix path) (wd w)) = fs (full_path path (wd w)) ∧ ∀ p, p ∉ installs path → fs1 p = fs p.
Proof.
  intros Hnew Hnul H. cbn [moveto_new_configuration] in H. rewrite Hnew in H.
  destruct (current_prefix path Hnew) as (n & En & Hn & Hn' & Hidx). set (file := current_name suffix path) in *.
  assert (head file = head path) as Hhead by (rewrite En; destruct path, n; cbn [length] in Hn; [lia..|done]).
  assert (file ≠ []) as Hfile by (intros E; rewrite E in Hhead; destruct path; [cbn in Hn; lia|done]).
  assert (file ≠ path) as Hfp by (intros E; apply (f_equal length) in E; rewrite En, length_take in E; lia).
  assert (full_path file (wd w) ≠ full_path path (wd w)) as Hffp by (by intros E%full_path_inj).
  assert (∀ p, p ∉ installs path → p ≠ full_path path (wd w) ∧ p ≠ full_path file (wd w) ∧ p ≠ full_path (file ++ $".old") (wd w)) as Hout.
  { intros p Hp. unfold installs in Hp. cbn [fmap list_fmap] in Hp. fold file in Hp. rewrite !not_elem_of_cons in Hp. tauto. }
  destruct (file_exists fs (full_path file (wd w))) eqn:Ex.
  - apply bind_inv_Ret in H as (same & Es & H). destruct same; cbn [negb] in H.
    + eexists. split; [exact H|]. unfold unlink. destruct (file_exists fs (full_path path (wd w))) eqn:Ep; cbn [default]; unfold id.
      * apply bool_decide_eq_true in Ex as [old Ex]. apply bool_decide_eq_true in Ep as [new Ep].
        erewrite file_cmpr_eq in Es; [| | |exact Ex|exact Ep|eapply Hnul, Ex; right; left|eapply Hnul, Ep; left].
        -- apply Ret_inj, bool_decide_eq_true in Es. subst new. split; [by rewrite upd_ne, Ex|]. intros p (Hp & _)%Hout. by apply upd_ne.
        -- exact Hfile.
        -- intros ->. cbn in Hn. lia.
      * split; [|done]. exfalso. unfold file_cmpr in Es. apply bool_decide_eq_false in Ep. apply Ep.
        destruct file as [|a file0]; [done|]. destruct path as [|b path]; [done|]. unfold seen in Es.
        destruct (fs (full_path (b :: path) (wd w))); [by eexists|]. by destruct (fs (full_path (a :: file0) (wd w))).
    + apply bind_inv_Ret in H as (bkp & Eb & H). unfold backup_name in Eb. rewrite take_ge in Eb by (rewrite En, length_take; lia).
      destruct (Nat.ltb_spec (length (file ++ $".old")) 512) as [Hl|]; [|done]. apply Ret_inj in Eb. subst bkp.
      assert (n = length path - length suffix)%nat as Hn3.
      { apply Hidx. rewrite length_app, En, length_take in Hl. cbn in Hl. lia. }
      assert (path = file ++ suffix) as Epath.
      { unfold is_new_file in Hnew. apply andb_true_iff in Hnew as [_ E%Z.eqb_eq]. unfold strncmp in E. apply strcmp_eq in E.
        rewrite (take_ge suffix) in E by lia. rewrite take_ge in E by (rewrite length_drop; lia).
        rewrite <-(take_drop (length path - length suffix) path) at 1. rewrite <-E, En. by rewrite <-Hn3. }
      assert (full_path (file ++ $".old") (wd w) ≠ full_path path (wd w)) as Hbp.
      { intros E%full_path_inj; [|rewrite <-Hhead; by destruct file].
        rewrite Epath in E. apply app_inv_head in E. by apply suffix_old. }
      destruct (rename rename_ok fs _ _) as [fs1|] eqn:R1; [|by apply Ret_inj in H]. apply rename_inv in R1 as [_ ->].
      destruct (rename rename_ok _ (full_path path _) _) as [fs2|] eqn:R2; [|by apply Ret_inj in H]. apply rename_inv in R2 as [_ ->].
      eexists. split; [exact H|]. split.
      * rewrite upd_eq. rewrite upd_ne by done. by rewrite upd_ne.
      * intros p (H1 & H2 & H3)%Hout. by rewrite !upd_ne.
  - destruct (rename rename_ok fs _ _) as [fs1|] eqn:R1; [|by apply Ret_inj in H]. apply rename_inv in R1 as [_ ->].
    eexists. split; [exact H|]. split; [by rewrite upd_eq|]. intros p (H1 & H2 & H3)%Hout. by rewrite !upd_ne.
Qed.
Lemma moved_dir path paths fs fs' : is_new_file suffix path = false →
  moveto_new_configuration rename_ok suffix w dirs (path :: paths) fs = Ret (true, fs') →
  moveto_new_configuration rename_ok suffix w dirs paths fs = Ret (true, fs').
Proof. cbn [moveto_new_configuration]. intros ->. by destruct (seen_dir _ _ _). Qed.
End Moved.

(** the new files of a list of paths do not get into each other's way *)
Definition new_paths (suffix : cstr) (paths : list cstr) : list cstr := filter (λ p, is_new_file suffix p = true) paths.
Definition apart (suffix : cstr) (w : workdir) (paths : list cstr) : Prop :=
  ForallOrdPairs (λ p q, Forall (λ n, n ∉ installs suffix w q) (installs suffix w p)) (new_paths suffix paths).

(** C19: a configuration that was moved is in place: every current file has
    what was written to its new file, whether there was one before, with the
    same text or another, or not. *)
Theorem configuration_moved rename_ok suffix w dirs paths fs fs' : suffix ≠ [] → suffix ≠ $".old" → apart suffix w paths →
  (∀ path p txt, path ∈ new_paths suffix paths → p ∈ installs suffix w path → fs p = Some txt → NUL ∉ txt) →
  moveto_new_configuration rename_ok suffix w dirs paths fs = Ret (true, fs') →
  (∀ path, path ∈ new_paths suffix paths → fs' (full_path (current_name suffix path) (wd w)) = fs (full_path path (wd w))) ∧
  (∀ p, (∀ path, path ∈ new_paths suffix paths → p ∉ installs suffix w path) → fs' p = fs p).
Proof.
  intros Hne Hold. unfold apart, new_paths. revert fs. induction paths as [|path paths IH]; intros fs Hap Hnul H.
  { cbn in H. apply Ret_inj in H. injection H as <-. split; [by intros path Hp%elem_of_nil|done]. }
  rewrite filter_cons in Hap, Hnul |- *. destruct (decide (is_new_file suffix path = true)) as [Hnew|Hnew].
  - apply moved_one in H as (fs1 & H & E & Hout); [|done..|intros p txt Hp; apply (Hnul path); [left|done]].
    inversion_clear Hap as [|? ? Hdis Hap']. setoid_rewrite Forall_forall in Hdis. setoid_rewrite Forall_forall in Hdis.
    assert (∀ q p, q ∈ filter (λ p, is_new_file suffix p = true) paths → p ∈ installs suffix w q → fs1 p = fs p) as Hsame.
    { intros q p Hq Hp. apply Hout. intros Hp'. by apply (Hdis q Hq p). }
    destruct (IH fs1 Hap') as [I1 I2]; [|exact H|].
    { intros q p txt Hq Hp. rewrite (Hsame q p Hq Hp). apply (Hnul q); [by right|done]. }
    split.
    + intros q [->|Hq]%elem_of_cons.
      * rewrite I2; [done|]. intros r Hr. specialize (Hdis r Hr). intros Hin. apply (Hdis (full_path (current_name suffix path) (wd w))); [|done].
        right. left.
      * rewrite I1 by done. apply (Hsame q); [done|]. left.
    + intros p Hp. rewrite I2; [apply Hout, Hp; left|]. intros q Hq. apply Hp. by right.
  - apply not_true_iff_false in Hnew. apply moved_dir in H; [|done]. by apply IH.
Qed.
Definition demo_moving : filesystem := λ p,
  if bool_decide (p = $"/r/a") then Some ($"old") else if bool_decide (p = $"/r/a.new") then Some ($"new")
  else if bool_decide (p = $"/r/b.new" ∨ p = $"/r/b") then Some ($"same") else if bool_decide (p = $"/r/d/c.new") then Some ($"first") else None.
Definition demo_moves : outcome (bool * filesystem) :=
  moveto_new_configuration (λ _ _ _, true) ($".new") (Workdir ($"/r") []) [$"/r/d"] [$"a.new"; $"d"; $"b.new"; $"d/c.new"] demo_moving.
Lemma configuration_moved_witness : ∃ fs', demo_moves = Ret (true, fs') ∧
  fs' ($"/r/a") = Some ($"new") ∧ fs' ($"/r/b") = Some ($"same") ∧ fs' ($"/r/d/c") = Some ($"first") ∧ fs' ($"/r/a.old") = Some ($"old").
Proof.
  assert (match demo_moves with Ret (ok, _) => ok | _ => false end = true) as H by (vm_compute; reflexivity).
  assert (match demo_moves with Ret (_, fs) => fs ($"/r/a.old") | _ => None end = Some ($"old")) as Hold by (vm_compute; reflexivity).
  destruct demo_moves as [[[] fs']| |] eqn:E; [|discriminate H..]. exists fs'. split; [reflexivity|].
  destruct (configuration_moved (λ _ _ _, true) ($".new") (Workdir ($"/r") []) [$"/r/d"] [$"a.new"; $"d"; $"b.new"; $"d/c.new"] demo_moving fs')
    as [M _].
  - discriminate.
  - discriminate.
  - unfold apart. assert (new_paths ($".new") [$"a.new"; $"d"; $"b.new"; $"d/c.new"] = [$"a.new"; $"b.new"; $"d/c.new"]) as -> by (vm_compute; reflexivity).
    repeat first [apply FOP_nil | apply FOP_cons]; apply (bool_decide_unpack _); vm_compute; exact I.
  - intros path p txt _ _. unfold demo_moving. repeat case_bool_decide; intros [= <-]; apply (bool_decide_unpack _); vm_compute; exact I.
  - exact E.
  - split_and!; [apply (M ($"a.new"))|apply (M ($"b.new"))|apply (M ($"d/c.new"))|exact Hold]; apply (bool_decide_unpack _); vm_compute; exact I.
Defined.
