(* ===== verification/RegUtils.v ===== *)
(** * Reading registrations (server/reg_utils.c)

    A registration is a file in the spool directory: one record to add, the
    identity of a record to delete, or both, with a separator between them, to
    modify one. *)

From S2P Require Import Prelude CLib CString Misc DlList IpNetwork Types Stdio ValidateRec Records.
From S2P Require Import Search Query QueryText FileInfo Guardian Checks.
Local Open Scope Z_scope.

(** ** Actions *)

Inductive register_action_type := UNKNOWN_ACTION | ADD | MOD | DEL.
#[export] Instance register_action_type_eq : EqDecision register_action_type.
Proof. solve_decision. Defined.

Definition translate_action_str (action : cstr) : register_action_type :=
  if STR_EQ action ($"ADD") then ADD
  else if STR_EQ action ($"MOD") then MOD
  else if STR_EQ action ($"DEL") then DEL
  else UNKNOWN_ACTION.
Definition action_to_string (action : register_action_type) : cstr :=
  match action with ADD => $"ADD" | MOD => $"MOD" | DEL => $"DEL" | UNKNOWN_ACTION => $"UNKNOWN" end.

(** [stamp]: what strftime gives for the time, [pid]: getpid() *)
Definition generate_id (stamp : cstr) (pid : Z) (auth_area_name : cstr) : outcome cstr :=
  let id := stamp ++ print_Z pid ++ chr 46 :: auth_area_name in
  if decide (length id < MAX_LINE)%nat then Ret id else Fault.

(** ** Records of the spool file *)

Definition report_rec_parse_error (status : rec_parse_result) : list message :=
  match status with
  | REC_NULL | REC_EOF => [print_error INVALID_DIRECTIVE_PARAM ($"record to be registered not found")]
  | REC_INVAL => [print_error INVALID_DIRECTIVE_PARAM ($"record to be registered was invalid")]
  | REC_FATAL => [print_error UNIDENT_ERROR ($"fatal error reading spool")]
  | _ => []
  end.

Definition get_classname_from_anon_rec (anon_rec : anon_record_struct) : option cstr :=
  anon_value <$> find_anon_class_in_rec anon_rec.
Definition get_aaname_from_anon_rec (anon_rec : anon_record_struct) : option cstr :=
  anon_value <$> find_anon_auth_area_in_rec anon_rec.

Definition get_class_and_aa_from_anon_rec (areas : list auth_area_struct) (anon_rec : anon_record_struct) :
    check (class_struct * auth_area_struct) :=
  match get_aaname_from_anon_rec anon_rec with
  | Some ((_ :: _) as aa_str) =>
      match get_classname_from_anon_rec anon_rec with
      | Some ((_ :: _) as class_str) =>
          match find_auth_area_by_name areas (Some aa_str) with
          | None => reject [print_error INVALID_AUTH_AREA aa_str]
          | Some aa =>
              match find_class_by_name (aa_schema aa) class_str with
              | None => reject [print_error INVALID_CLASS class_str]
              | Some c => pass (c, aa)
              end
          end
      | _ => reject [print_error MISSING_REQ_ATTRIB ($"Class-Name")]
      end
  | _ => reject [print_error MISSING_REQ_ATTRIB ($"Auth-Area")]
  end.

(** whether a line from the position on is a separator *)
Fixpoint separator_loop (fuel : nat) (f : cstr) (pos : nat) : outcome bool :=
  match fuel with
  | O => NoFuel
  | S fuel =>
      match readline f pos MAX_LINE with
      | None => Ret false
      | Some (line, pos) =>
          if bool_decide (line ≠ []) && (new_record (Some line)).1 then Ret true else separator_loop fuel f pos
      end
  end.
Definition has_record_separator (f : cstr) : outcome bool := separator_loop (S (length f)) f 0.

(** the errors that translating a record prints for the pairs it drops *)
Definition translate_errors (anon : anon_record_struct) (c : class_struct) (validate_flag : Z) : list message :=
  omap (λ av, print_error INVALID_ATTRIBUTE <$> (translate_anon_av_pair av c validate_flag).2) (anon_av_pair_list anon).

(** quiet mode off, protocol errors on, find all errors off *)
Definition val_flag : Z := encode_validate_flag false true false.

(** an anonymous record at the position of the stream, and the next position *)
Definition read_anon (f : cstr) (pos : nat) : check (anon_record_struct * nat) :=
  '(anon_rec, status, pos) ← lift (mkdb_read_anon_record 0 f pos);
  match anon_rec with
  | None => reject (report_rec_parse_error status)
  | Some anon_rec => pass (anon_rec, pos)
  end.

Definition translate_spooled (areas : list auth_area_struct) (anon_rec : anon_record_struct) : check record_struct :=
  '(c, aa) ← get_class_and_aa_from_anon_rec areas anon_rec;
  _ ← tell (translate_errors anon_rec c val_flag);
  pass (mkdb_translate_anon_record anon_rec c aa val_flag).

(** [spool]: the text of the spool file, [None] when it is not open *)
Definition read_add_spool (areas : list auth_area_struct) (spool : option cstr) : check record_struct :=
  match spool with
  | None => reject []
  | Some f =>
      sep ← lift (has_record_separator f);
      _ ← require (negb sep) [print_error INVALID_DIRECTIVE_PARAM ($"too many records")];
      '(anon_rec, _) ← read_anon f 0;
      translate_spooled areas anon_rec
  end.

Definition read_mod_spool (areas : list auth_area_struct) (spool : option cstr) :
    check (record_struct * anon_record_struct) :=
  match spool with
  | None => reject []
  | Some f =>
      sep ← lift (has_record_separator f);
      _ ← require sep [print_error NO_OBJECT_FOUND []];
      '(old_anon_rec, pos) ← read_anon f 0;
      '(new_anon_rec, _) ← read_anon f pos;
      new_rec ← translate_spooled areas new_anon_rec;
      pass (new_rec, old_anon_rec)
  end.

Definition read_del_spool (spool : option cstr) : check anon_record_struct :=
  match spool with
  | None => reject []
  | Some f => '(old_rec, _) ← read_anon f 0; pass old_rec
  end.

(** ** Attributes *)

Definition set_updated_attr (rec : record_struct) (updated_str : cstr) : outcome record_struct :=
  av ← find_attr_in_record_by_name (Some rec) (Some $"Updated");
  Ret (match av with
       | None => (append_attribute_to_record rec (rec_class rec) ($"Updated") updated_str).2
       | Some _ => with_av_pairs (set_value ($"Updated") (Some updated_str) (av_pair_list rec)) rec
       end).

Definition compare_record_attr_by_name (rec1 rec2 : record_struct) (attr_name : cstr) : outcome bool :=
  match attr_name with
  | [] => Ret false
  | _ =>
      av1 ← find_attr_in_record_by_name (Some rec1) (Some attr_name);
      av2 ← find_attr_in_record_by_name (Some rec2) (Some attr_name);
      match av1, av2 with
      | Some av1, Some av2 =>
          match av_value av1, av_value av2 with
          | Some ((_ :: _) as v1), Some ((_ :: _) as v2) => Ret (STR_EQ v1 v2)
          | _, _ => Ret false
          end
      | _, _ => Ret false
      end
  end.

(** the status, id and updated *)
Definition get_id_and_updated_from_anon (anon_rec : anon_record_struct) : bool * option cstr * option cstr :=
  match find_anon_attr_in_rec anon_rec ($"ID") with
  | None => (false, None, None)
  | Some id =>
      match find_anon_updated_in_rec anon_rec with
      | None => (false, Some (anon_value id), None)
      | Some updated => (true, Some (anon_value id), Some (anon_value updated))
      end
  end.

(** ** Queries *)

Section Queries.
Context (is_class is_attr : cstr → bool).

(** sprintf to an array of MAX_LINE bytes *)
Definition sprintf_line (s : cstr) : outcome cstr := if decide (length s < MAX_LINE)%nat then Ret s else Fault.

(** a syntax error is printed to the client *)
Definition parse_query_line (query_str : cstr) : check query_struct :=
  query ← lift (parse_line_query is_class is_attr query_str);
  match query with
  | None => reject [print_error INVALID_QUERY_SYNTAX []]
  | Some query => pass query
  end.

Definition build_object_query (id updated : option cstr) : check query_struct :=
  match id with
  | Some ((_ :: _) as id) =>
      query_str ← lift (sprintf_line (match updated with
                                      | Some ((_ :: _) as u) => $"ID=" ++ id ++ $" and Updated=" ++ u ++ [STAR]
                                      | _ => $"ID=" ++ id
                                      end));
      parse_query_line query_str
  | _ => reject []
  end.

(** [found]: a primary key besides the ID; the text has something in it once
    [count] is not zero *)
Fixpoint primary_key_loop (rec : record_struct) (attrs : list attribute_struct) (query_str : cstr)
    (count : nat) (found : bool) : outcome (cstr * bool) :=
  match attrs with
  | [] => Ret (query_str, found)
  | attr :: attrs =>
      if is_primary_key attr && negb (STR_EQ (attr_name attr) ($"ID")) then
        match find_attr_in_record_by_id (Some rec) (attr_local_id attr) with
        | None => primary_key_loop rec attrs query_str count true
        | Some av =>
            v ← of_option (av_value av);
            tmp_str ← sprintf_line (attr_name attr ++ [chr 61; QUOTE] ++ v ++ [QUOTE]);
            query_str ← sprintf_line (query_str ++ (if (count =? 0)%nat then [] else $" AND ") ++ tmp_str);
            primary_key_loop rec attrs query_str (S count) true
        end
      else primary_key_loop rec attrs query_str count found
  end.

Definition build_primary_key_query (rec : record_struct) : check query_struct :=
  '(query_str, found) ← lift (primary_key_loop rec (attribute_list (rec_class rec)) [] 0 false);
  if negb found then pass (Query None None None)
  else
    query ← parse_query_line query_str;
    pass (Query (Some (class_name (rec_class rec))) (Some (aa_name (rec_auth_area rec))) (query_tree query)).
End Queries.
