(* ===== verification/Answers.v ===== *)
(** * What directives answer (server/)

    The directives that only print: -class, -schema, -directive, -status,
    -notify, -rwhois and -display, and the display of the records of a query
    (dump.c).  The settings of the session that they show are arguments. *)

From S2P Require Import Prelude CLib CString Misc DlList IpNetwork Types Checks Stdio ValidateRec Records.
From S2P Require Import Search Query QueryText FileInfo ConfigFile Directives Guardian RegUtils.
Local Open Scope Z_scope.

Definition SAFE_STR (s : option cstr) (def : cstr) : cstr := default def s.
Definition SAFE_STR_NONE (s : option cstr) : cstr := SAFE_STR s ($"none").

(** the arguments of a directive; split_arg_list sets argc to 0 when it fails *)
Definition arguments (str : cstr) : check (list cstr) :=
  argv ← lift (split_args (Some str)); pass (default [] argv).
Definition invalid_param : list message := [print_error INVALID_DIRECTIVE_PARAM []].

(** ** -class (class_directive.c) *)

(** dl_list_insert puts each class behind the current one, the first *)
Fixpoint insert_classes (schema : option schema_struct) (names : list cstr) (z : DL.cursor class_struct) :
    check (DL.cursor class_struct) :=
  match names with
  | [] => pass z
  | name :: names =>
      match schema with
      | None => insert_classes schema names z
      | Some _ =>
          match find_class_by_name schema name with
          | Some c => insert_classes schema names (DL.z_insert c z)
          | None => reject [print_error INVALID_CLASS []]
          end
      end
  end.

Section Answers.
Context (areas : list auth_area_struct).

(** the area and the list of classes, which is empty without names *)
Definition class_parse_args (str : cstr) : check (auth_area_struct * list class_struct) :=
  argv ← arguments str;
  match argv with
  | [] => reject invalid_param
  | name :: names =>
      match find_auth_area_by_name areas (Some name) with
      | None => reject [print_error INVALID_AUTH_AREA []]
      | Some aa => z ← insert_classes (aa_schema aa) names None; pass (aa, DL.elems z)
      end
  end.

(** the classes to show: all those of the area when none were named *)
Definition classes_shown (x : auth_area_struct * list class_struct) : outcome (list class_struct) :=
  match x.2 with
  | [] => s ← of_option (aa_schema x.1); Ret (class_list s)
  | l => Ret l
  end.

Definition display_one_class (c : class_struct) : list message :=
  let line (field : string) (v : cstr) := print_response RESP_CLASS (class_name c ++ lit field ++ v) in
  [line ":description:" (SAFE_STR (class_description c) ($"0")); line ":version:" (SAFE_STR (class_version c) ($"0"));
   print_response RESP_CLASS []].
Definition display_classes (l : list class_struct) : list message := l ≫= display_one_class.

Definition run_class_directive (str : cstr) : check unit :=
  x ← class_parse_args str; l ← lift (classes_shown x); tell (display_classes l).

(** ** -schema (schema_directive.c) *)

(** schema_parse_args is class_parse_args over again *)
Definition schema_parse_args (str : cstr) : check (auth_area_struct * list class_struct) := class_parse_args str.

Definition attr_type_line (type : attr_type) : string :=
  match type with TYPE_TEXT => ":type:Text" | TYPE_ID => ":type:ID" | TYPE_SEE_ALSO => ":type:See-Also" end.
Definition schema_display_attribute (name : cstr) (attr : attribute_struct) : list message :=
  let line (field : string) (v : cstr) := print_response RESP_SCHEMA (name ++ lit field ++ v) in
  [line ":attribute:" (attr_name attr); line ":format:" (SAFE_STR_NONE (attr_format attr));
   line ":description:" (SAFE_STR_NONE (attr_description attr));
   line ":indexed:" (if decide (attr_index attr = INDEX_NONE) then $"OFF" else $"ON");
   line ":required:" (on_off (is_required attr)); line ":multi-line:" (on_off (is_multi_line attr));
   line ":repeatable:" (on_off (is_repeatable attr)); line ":hierarchical:" (on_off (is_hierarchical attr));
   line ":private:" (on_off (is_private attr)); line (attr_type_line (attr_kind attr)) [];
   line ":primary:" (on_off (is_primary_key attr)); print_response RESP_SCHEMA []].
Definition schema_display_class (c : class_struct) : list message :=
  match attribute_list c with
  | [] => [print_error UNIDENT_ERROR ($"No attributes in class")]
  | l => l ≫= schema_display_attribute (class_name c)
  end.
Definition run_schema_directive (str : cstr) : check unit :=
  x ← schema_parse_args str; l ← lift (classes_shown x); tell (l ≫= schema_display_class).

(** ** -directive (directive.c) *)

(** a null description is printed, an unknown directive followed *)
Definition show_directive (d : option directive_struct) : outcome (list message) :=
  d ← of_option d;
  description ← of_option (d_description d);
  Ret [print_response RESP_DIRECTIVE ($"directive:" ++ d_name d);
       print_response RESP_DIRECTIVE ($"description:" ++ description); print_response RESP_DIRECTIVE []].
Fixpoint show_directives (l : directive_list) : outcome (list message) :=
  match l with
  | [] => Ret []
  | d :: l => m ← show_directive d; ms ← show_directives l; Ret (m ++ ms)
  end.
Definition run_directive_directive (l : directive_list) (str : cstr) : check unit :=
  argv ← arguments str;
  match argv with
  | [] => ms ← lift (show_directives l); tell ms
  | [name] => d ← lift (find_directive l (Some name)); ms ← lift (show_directive d); tell ms
  | _ => reject invalid_param
  end.

(** ** -status, -display, -notify, -rwhois *)

(** the settings of the session and of the server that are shown *)
Definition run_status_directive (hit_limit : Z) (holdconnect forward : bool) (rec_num : Z) (display contact : cstr)
    (str : cstr) : check unit :=
  _ ← require (bool_decide (str = [])) invalid_param;
  let line (name : string) (v : cstr) := print_response RESP_STATUS (lit name ++ v) in
  tell [line "limit:" (print_Z hit_limit); line "holdconnect:" (on_off holdconnect); line "forward:" (on_off forward);
        line "objects:" (print_Z rec_num); line "display:" display; line "contact:" contact].

(** the new display mode *)
Definition run_display_directive (display : cstr) (str : cstr) : check cstr :=
  argv ← arguments str;
  match argv with
  | [] =>
      let line (name : string) (v : cstr) := print_response RESP_DISPLAY (lit name ++ v) in
      _ ← tell [line "name:" display; line "length:" (print_Z (Z.of_nat (length display)));
                line "description:display in " (display ++ $" format"); print_response RESP_DISPLAY []];
      pass display
  | [mode] => _ ← require (STR_EQ mode ($"dump")) [print_error UNAUTH_DISPLAY []]; pass mode
  | _ => reject invalid_param
  end.

(** the notification is only logged *)
Definition run_notify_directive (str : cstr) : check unit :=
  match get_word str with
  | Some (word, (_ :: _)) =>
      require (existsb (λ w, STR_EQ word (lit w)) ["badref"; "recurref"; "update"; "inssec"; "delsec"]%string)
              invalid_param
  | _ => reject invalid_param
  end.

Definition print_06x (z : Z) : cstr := (λ i, hexdigit (z / 16 ^ i mod 16)) <$> [5; 4; 3; 2; 1; 0].
Definition RWHOIS_PROTOCOL_VERSION : cstr := $"1.5".

(** a node of the list that has been destroyed is followed *)
Definition print_welcome_header (hostname server_version : cstr) (l : directive_list) : outcome (list message) :=
  l ← of_option (mapM (M := option) id l);
  Ret [print_response RESP_RWHOIS
         ($"V-" ++ RWHOIS_PROTOCOL_VERSION ++ $":" ++ print_06x (capabilities l) ++ $":00 " ++ hostname
          ++ $" (by Network Solutions, Inc. V-" ++ server_version ++ $")")].

(** the implementation string that the client gives, if any *)
Definition rwhois_parse_args (str : cstr) : check (option cstr) :=
  argv ← arguments str;
  match argv with
  | [] => reject invalid_param
  | version :: rest =>
      _ ← require (STR_EQ version ($"V-" ++ RWHOIS_PROTOCOL_VERSION)) [print_error UNCOMPAT_VERSION []];
      pass (match rest with [] => None | _ => Some (trim_s (drop (length version) str)) end)
  end.
Definition run_rwhois_directive (hostname server_version : cstr) (l : directive_list) (str : cstr) : check (option cstr) :=
  _ ← require (bool_decide (str ≠ [])) invalid_param;
  impl ← rwhois_parse_args str;
  ms ← lift (print_welcome_header hostname server_version l);
  _ ← tell ms; pass impl.
End Answers.

(** ** Displaying records (dump.c) *)

Section Dump.
(** check_guardian for the session *)
Context (check_guardian : record_struct → outcome bool).

Definition dump_field (c : class_struct) (av : av_pair_struct) : outcome message :=
  v ← of_option (av_value av);
  Ret (print_response RESP_QUERY
         (class_name c ++ $":" ++ attr_name (av_attr av)
          ++ (match attr_kind (av_attr av) with TYPE_SEE_ALSO => $";S:" | TYPE_ID => $";I:" | TYPE_TEXT => $":" end)
          ++ v)).
Fixpoint field_lines (have_permission : bool) (c : class_struct) (l : list av_pair_struct) : outcome (list message) :=
  match l with
  | [] => Ret []
  | av :: l =>
      if is_private (av_attr av) && negb have_permission then field_lines have_permission c l
      else m ← dump_field c av; ms ← field_lines have_permission c l; Ret (m :: ms)
  end.

(** true_false trims the value of Private in the record *)
Definition display_dump_format (rec : record_struct) : outcome (list message) :=
  have_permission ← check_guardian rec;
  av ← find_attr_in_record_by_name (Some rec) (Some $"Private");
  private ← match av with None => Ret None | Some av => v ← of_option (av_value av); Ret (Some v) end;
  let fields := match private with
                | None => av_pair_list rec
                | Some v => set_value ($"Private") (Some (trim_s v)) (av_pair_list rec)
                end in
  if match private with Some v => true_false v | None => false end && negb have_permission then Ret []
  else ms ← field_lines have_permission (rec_class rec) fields; Ret (ms ++ [print_response RESP_QUERY []]).

Fixpoint display_records (l : list record_struct) : outcome (list message) :=
  match l with
  | [] => Ret []
  | rec :: l => ms ← display_dump_format rec; ms' ← display_records l; Ret (ms ++ ms')
  end.

(** the record is marked as private *)
Definition marked_private (rec : record_struct) : bool :=
  match find_first (λ av, STR_EQ (attr_name (av_attr av)) ($"Private")) (av_pair_list rec) ≫= av_value with
  | Some v => true_false v
  | None => false
  end.
(** the pairs of the record, the white space around the value of Private cut off *)
Definition trim_private (rec : record_struct) : list av_pair_struct :=
  match find_first (λ av, STR_EQ (attr_name (av_attr av)) ($"Private")) (av_pair_list rec) ≫= av_value with
  | Some v => set_value ($"Private") (Some (trim_s v)) (av_pair_list rec)
  | None => av_pair_list rec
  end.
Definition dump_line (c : class_struct) (av : av_pair_struct) : message :=
  print_response RESP_QUERY
    (class_name c ++ $":" ++ attr_name (av_attr av)
     ++ (match attr_kind (av_attr av) with TYPE_SEE_ALSO => $";S:" | TYPE_ID => $";I:" | TYPE_TEXT => $":" end)
     ++ default [] (av_value av)).

Lemma set_value_values name v avs :
  Forall (λ av, av_value av ≠ None) avs → v ≠ None → Forall (λ av, av_value av ≠ None) (set_value name v avs).
Proof.
  intros H Hv. induction H as [|av avs Hav H IH]; cbn [set_value]; [done|].
  destruct (STR_EQ _ _); by constructor.
Qed.

Lemma field_lines_spec b c l :
  Forall (λ av, av_value av ≠ None) l →
  field_lines b c l = Ret (dump_line c <$> filter (λ av, b || negb (is_private (av_attr av))) l).
Proof.
  induction 1 as [|av l Hv H IH]; [done|]. cbn [field_lines].
  assert (is_private (av_attr av) && negb b = negb (b || negb (is_private (av_attr av)))) as ->
      by (destruct b, (is_private _); done).
  destruct (b || negb (is_private (av_attr av))) eqn:E; cbn [negb].
  - rewrite filter_cons_True by (by rewrite E). unfold dump_field. destruct (av_value av) as [v|] eqn:Ev; [|done].
    cbn [of_option mbind outcome_bind]. rewrite IH. cbn [mbind outcome_bind]. rewrite fmap_cons.
    unfold dump_line at 2. by rewrite Ev.
  - rewrite filter_cons_False by (rewrite E; tauto). apply IH.
Qed.

(** Private data is shown to guardians only.  For a record whose values are
    not null, the display of a query gives one line per pair, in order, with the
    class, the attribute, the mark of its type and the value, and an empty line;
    the pairs of private attributes are among them only if check_guardian
    accepts the session for the record, and without that a record whose Private
    attribute says so is not shown at all. *)
Theorem display_dump_correct rec b :
  check_guardian rec = Ret b → Forall (λ av, av_value av ≠ None) (av_pair_list rec) →
  display_dump_format rec =
    Ret (if marked_private rec && negb b then []
         else (dump_line (rec_class rec) <$>
                 filter (λ av, b || negb (is_private (av_attr av))) (trim_private rec))
              ++ [print_response RESP_QUERY []]).
Proof.
  intros Hg Hv. unfold display_dump_format, marked_private, trim_private. rewrite Hg. cbn [mbind outcome_bind].
  change (find_attr_in_record_by_name (Some rec) (Some $"Private"))
    with (Ret (find_first (λ av, STR_EQ (attr_name (av_attr av)) ($"Private")) (av_pair_list rec))).
  cbn [mbind outcome_bind].
  destruct (find_first _ (av_pair_list rec)) as [av|] eqn:E; cbn [mbind option_bind].
  - apply find_first_Some in E as [Hin _]. rewrite Forall_forall in Hv. pose proof (Hv _ Hin) as Hav.
    destruct (av_value av) as [v|]; [|done]. cbn [of_option mbind outcome_bind].
    destruct (true_false v && negb b); [done|]. rewrite field_lines_spec; [done|].
    apply set_value_values; [by apply Forall_forall|done].
  - cbn [mbind outcome_bind andb]. by rewrite field_lines_spec.
Qed.
End Dump.

Lemma display_dump_correct_witness :
  let secret := Attribute 3 3 false false false false false true [] ($"Phone") None INDEX_NONE TYPE_TEXT None in
  let rec := with_av_pairs [demo_pair 0 "ID" "h.a"; AvPair secret (Some $"555")] demo_guarded in
  display_dump_format (λ _, Ret false) rec
  = Ret [print_response RESP_QUERY ($"host:ID:h.a"); print_response RESP_QUERY []].
Proof.
  intros secret rec. rewrite (display_dump_correct (λ _, Ret false) rec false eq_refl); [vm_compute; reflexivity|].
  repeat constructor; done.
Defined.
