(* ===== verification/Xfer.v ===== *)
(** * Transfer of an area (server/xfer.c)

    The -xfer directive: its arguments, an area and, after it, classes with
    attributes and the serial number from which on records are wanted; and what
    it prints, the pairs of the records in the data files of the classes. *)

From S2P Require Import Prelude CLib CString Misc IpNetwork Types ClientMsgs Checks Stdio Records DataFile FileInfo Guardian RegUtils Answers.
Local Open Scope Z_scope.

(** ** The arguments *)

Record xfer_class_struct := XferClass { xc_class : class_struct; xc_attrs : list attribute_struct }.
Record xfer_arg_struct := XferArg { xs_auth_area : auth_area_struct; xs_serial_no : option cstr; xs_classes : list xfer_class_struct }.

(** strcpy to one of the arrays of MAX_LINE bytes *)
Definition line_copy (s : cstr) : outcome cstr := if decide (length s < MAX_LINE)%nat then Ret s else Fault.
(** the attribute, empty without an equals sign, and the value *)
Definition xfer_split_av (in_str : cstr) : outcome (cstr * cstr) :=
  match strchr in_str (chr 61) with
  | None => value ← line_copy in_str; Ret ([], value)
  | Some eq =>
      attr ← line_copy (take eq in_str);
      value ← line_copy (drop (S eq) in_str);
      Ret (trim_s attr, trim_s value)
  end.

Definition wrong_version {A} : check A := reject [print_error INVALID_DIRECTIVE_PARAM ($"Wrong Version Number Format")].
Definition is_version (value : cstr) : bool := (length value =? 17)%nat && forallb isdigit value.

Section Xfer.
(** the areas, the files, the check that the reader does not ask for *)
Context (areas : list auth_area_struct) (fs : filesystem) (check_record : record_check).

(** [cur]: the class that was named last, which is in the list already,
    behind [classes].  A number that is none destroys the class and then the
    list with it. *)
Fixpoint xfer_args_loop (aa : auth_area_struct) (argv : list cstr) (serial : option cstr) (classes : list xfer_class_struct)
    (cur : option xfer_class_struct) : check xfer_arg_struct :=
  match argv with
  | [] => pass (XferArg aa serial (classes ++ option_list cur))
  | arg :: argv =>
      '(attr, value) ← lift (xfer_split_av arg);
      match attr with
      | [] =>
          if is_version value then xfer_args_loop aa argv (Some value) classes cur
          else match cur with None => wrong_version | Some _ => Fault end
      | _ =>
          if STR_EQ attr ($"class") then
            match find_class_by_name (aa_schema aa) value with
            | None => reject [print_error INVALID_CLASS []]
            | Some c => xfer_args_loop aa argv serial (classes ++ option_list cur) (Some (XferClass c []))
            end
          else if STR_EQ attr ($"attr") then
            match cur with
            | None => reject [print_error INVALID_DIRECTIVE_PARAM []]
            | Some xc =>
                match find_attribute_by_name (xc_class xc) value with
                | None => reject [print_error INVALID_ATTRIBUTE []]
                | Some a => xfer_args_loop aa argv serial classes (Some (XferClass (xc_class xc) (xc_attrs xc ++ [a])))
                end
            end
          else xfer_args_loop aa argv serial classes cur
      end
  end.

Definition xfer_parse_args (str : cstr) : check xfer_arg_struct :=
  argv ← arguments str;
  match argv with
  | [] => reject [print_error INVALID_DIRECTIVE_PARAM []]
  | name :: argv =>
      if STR_EQ ($"0.0.0.0/0") name then reject [print_error INVALID_AUTH_AREA ($"No world dumps allowed")]
      else
        match find_auth_area_by_name areas (Some name) with
        | None => reject [print_error INVALID_AUTH_AREA []]
        | Some aa =>
            if decide (aa_type aa = AUTH_AREA_SECONDARY) then reject [print_error NOT_MASTER_AUTH_AREA []]
            else xfer_args_loop aa argv None [] None
        end
  end.

(** ** The records *)

Definition attr_in_xfer_class (attr : attribute_struct) (xc : xfer_class_struct) : bool :=
  match xc_attrs xc with [] => true | l => existsb (λ a, attr_local_id attr =? attr_local_id a) l end.

Definition is_record_new (rec : record_struct) (serial : cstr) : outcome bool :=
  match serial with
  | [] => Ret false
  | _ =>
      av ← find_attr_in_record_by_name (Some rec) (Some $"updated");
      Ret match av with
          | Some av => match av_value av with Some v => 0 <=? strcmp v serial | None => false end
          | None => false
          end
  end.

(** the number of the pairs that are printed, and what is printed *)
Definition xfer_display_record (rec : record_struct) (cur : option xfer_class_struct) : Z * list message :=
  let shown := filter (λ av, match cur with None => true | Some xc => attr_in_xfer_class (av_attr av) xc end = true) (av_pair_list rec) in
  let line av := print_response RESP_XFER (class_name (rec_class rec) ++ $":" ++ attr_name (av_attr av) ++ $":" ++ SAFE_STR (av_value av) []) in
  (Z.of_nat (length shown), (line <$> shown) ++ match shown with [] => [] | _ => [print_response RESP_XFER []] end).

(** [found]: the number of pairs so far *)
Fixpoint xfer_records (fuel : nat) (aa : auth_area_struct) (file_no : Z) (f : cstr) (c : class_struct) (cur : option xfer_class_struct)
    (serial : option cstr) (pos : nat) : outcome (Z * list message) :=
  match fuel with
  | O => NoFuel
  | S fuel =>
      '(rec, _, pos) ← mkdb_read_next_record check_record c aa file_no 0 f pos;
      match rec with
      | None => Ret (0, [])
      | Some rec =>
          wanted ← match serial with None => Ret true | Some serial => is_record_new rec serial end;
          let '(n, ms) := if wanted : bool then xfer_display_record rec cur else (0, []) in
          '(n', ms') ← xfer_records fuel aa file_no f c cur serial pos;
          Ret (n + n', ms ++ ms')
      end
  end.
Definition xfer_file_xfer (aa : auth_area_struct) (file : file_struct) (c : class_struct) (cur : option xfer_class_struct)
    (serial : option cstr) : outcome (Z * list message) :=
  match fs (filename file) with
  | None => Ret (0, [])
  | Some f => xfer_records (S (length f)) aa (file_no file) f c cur serial 0
  end.

(** a file that is not there ends the class: its count is 0 then, whatever was
    printed *)
Fixpoint xfer_files (aa : auth_area_struct) (files : list file_struct) (c : class_struct) (cur : option xfer_class_struct)
    (serial : option cstr) : outcome (option Z * list message) :=
  match files with
  | [] => Ret (Some 0, [])
  | file :: files =>
      if negb (file_exists fs (filename file)) then Ret (None, [])
      else
        '(n, ms) ← xfer_file_xfer aa file c cur serial;
        '(n', ms') ← xfer_files aa files c cur serial;
        Ret (match n' with Some n' => Some (n + n') | None => None end, ms ++ ms')
  end.
Definition xfer_class (aa : auth_area_struct) (c : class_struct) (cur : option xfer_class_struct) (serial : option cstr) :
    outcome (Z * list message) :=
  '(ok, master) ← get_file_list fs c [];
  if negb ok then Ret (0, [])
  else '(n, ms) ← xfer_files aa (filter_file_list MKDB_DATA_FILE master) c cur serial; Ret (default 0 n, ms).

Fixpoint xfer_each (aa : auth_area_struct) (l : list (class_struct * option xfer_class_struct)) (serial : option cstr) : outcome (Z * list message) :=
  match l with
  | [] => Ret (0, [])
  | (c, cur) :: l =>
      '(n, ms) ← xfer_class aa c cur serial;
      '(n', ms') ← xfer_each aa l serial;
      Ret (n + n', ms ++ ms')
  end.
Definition xfer_all_classes (aa : auth_area_struct) (serial : option cstr) : outcome (Z * list message) :=
  s ← of_option (aa_schema aa); xfer_each aa ((λ c, (c, None)) <$> class_list s) serial.
Definition xfer_some_classes (xs : xfer_arg_struct) : outcome (Z * list message) :=
  xfer_each (xs_auth_area xs) ((λ xc, (xc_class xc, Some xc)) <$> xs_classes xs) (xs_serial_no xs).

Definition xfer_directive (str : cstr) : check unit :=
  xs ← xfer_parse_args str;
  '(found, ms) ← lift match xs_classes xs with
                      | [] => xfer_all_classes (xs_auth_area xs) (xs_serial_no xs)
                      | _ => xfer_some_classes xs
                      end;
  _ ← tell ms;
  require (negb (found =? 0)) [print_error NO_TRANSFER []].
End Xfer.

(** ** Arguments that are read back *)

(** the arguments that ask for a class and some of its attributes *)
Definition class_args (xc : xfer_class_struct) : list cstr :=
  ($"class=" ++ class_name (xc_class xc)) :: ((λ a, $"attr=" ++ attr_name a) <$> xc_attrs xc).
(** a name that is found and survives the reading *)
Definition plain_name (s : cstr) : Prop := trim_s s = s ∧ (length s < MAX_LINE)%nat.
#[export] Instance plain_name_dec s : Decision (plain_name s).
Proof. unfold plain_name. apply _. Defined.
Definition found_class (aa : auth_area_struct) (xc : xfer_class_struct) : Prop :=
  plain_name (class_name (xc_class xc)) ∧ find_class_by_name (aa_schema aa) (class_name (xc_class xc)) = Some (xc_class xc) ∧
  Forall (λ a, plain_name (attr_name a) ∧ find_attribute_by_name (xc_class xc) (attr_name a) = Some a) (xc_attrs xc).

Lemma line_copy_short s : (length s < MAX_LINE)%nat → line_copy s = Ret s.
Proof. intros H. unfold line_copy. by rewrite decide_True. Qed.
Lemma split_av_tag (tag : cstr) value : chr 61 ∉ tag → plain_name tag → plain_name value → xfer_split_av (tag ++ chr 61 :: value) = Ret (tag, value).
Proof.
  intros Ht [Et Hlt] [Ev Hlv]. unfold xfer_split_av. rewrite strchr_app by done.
  assert (drop (S (length tag)) (tag ++ chr 61 :: value) = value) as ->.
  { change (tag ++ chr 61 :: value) with (tag ++ [chr 61] ++ value). rewrite (app_assoc tag).
    replace (S (length tag)) with (length (tag ++ [chr 61])) by (rewrite length_app; cbn; lia). apply drop_app_length. }
  rewrite take_app_length, (line_copy_short tag), (line_copy_short value) by done. cbn [mbind outcome_bind]. by rewrite Et, Ev.
Qed.
Lemma split_av_value s : chr 61 ∉ s → (length s < MAX_LINE)%nat → xfer_split_av s = Ret ([], s).
Proof. intros H Hl. unfold xfer_split_av. rewrite (proj2 (strchr_None _ _) H). by rewrite line_copy_short. Qed.

Lemma tag_class : chr 61 ∉ $"class" ∧ plain_name ($"class").
Proof. apply (bool_decide_unpack _). vm_compute. exact I. Qed.
Lemma tag_attr : chr 61 ∉ $"attr" ∧ plain_name ($"attr").
Proof. apply (bool_decide_unpack _). vm_compute. exact I. Qed.

Lemma args_loop_attrs aa rest serial classes c l : ∀ l0,
  Forall (λ a, plain_name (attr_name a) ∧ find_attribute_by_name c (attr_name a) = Some a) l →
  xfer_args_loop aa (((λ a, $"attr=" ++ attr_name a) <$> l) ++ rest) serial classes (Some (XferClass c l0))
  = xfer_args_loop aa rest serial classes (Some (XferClass c (l0 ++ l))).
Proof.
  induction l as [|a l IH]; intros l0 H; [by rewrite app_nil_r|]. apply Forall_cons in H as [[Hn Hf] H].
  rewrite fmap_cons. cbn [app xfer_args_loop]. change ($"attr=" ++ attr_name a) with ($"attr" ++ chr 61 :: attr_name a).
  destruct tag_attr as [T1 T2]. rewrite split_av_tag by done. cbn [mbind check_bind lift xc_class].
  change (STR_EQ ($"attr") ($"class")) with false. change (STR_EQ ($"attr") ($"attr")) with true. cbv iota.
  cbn [xc_class xc_attrs]. rewrite Hf. change (match $"attr" with [] => _ | _ => ?x end) with x.
  rewrite IH by done. rewrite <-app_assoc.
  set (r := xfer_args_loop _ _ _ _ _). by destruct r as [[v ms]| |].
Qed.

Lemma args_loop_class aa rest serial classes cur xc : found_class aa xc →
  xfer_args_loop aa (class_args xc ++ rest) serial classes cur = xfer_args_loop aa rest serial (classes ++ option_list cur) (Some xc).
Proof.
  intros (Hn & Hf & Ha). unfold class_args. cbn [app xfer_args_loop].
  change ($"class=" ++ class_name (xc_class xc)) with ($"class" ++ chr 61 :: class_name (xc_class xc)).
  destruct tag_class as [T1 T2]. rewrite split_av_tag by done. cbn [mbind check_bind lift].
  change (STR_EQ ($"class") ($"class")) with true. cbv iota. rewrite Hf.
  change (match $"class" with [] => _ | _ => ?x end) with x. rewrite args_loop_attrs by done.
  cbn [app]. replace (XferClass (xc_class xc) (xc_attrs xc)) with xc by by destruct xc.
  set (r := xfer_args_loop _ _ _ _ _). by destruct r as [[v ms]| |].
Qed.
Lemma args_loop_classes aa rest serial l : Forall (found_class aa) l → ∀ classes cur, ∃ classes' cur',
  xfer_args_loop aa ((l ≫= class_args) ++ rest) serial classes cur = xfer_args_loop aa rest serial classes' cur' ∧
  classes' ++ option_list cur' = classes ++ option_list cur ++ l ∧ (l ≠ [] → cur' ≠ None) ∧ (l = [] → cur' = cur).
Proof.
  induction 1 as [|xc l Hxc _ IH]; intros classes cur.
  { exists classes, cur. by rewrite app_nil_r. }
  destruct (IH (classes ++ option_list cur) (Some xc)) as (classes' & cur' & E & El & Hn & He). exists classes', cur'.
  split_and!; [|rewrite El; cbn [option_list]; by rewrite <-!app_assoc| |done].
  - cbn [mbind list_bind]. rewrite <-app_assoc, args_loop_class by done. exact E.
  - intros _. destruct l; [by rewrite He|by apply Hn].
Qed.
Lemma args_loop_number aa argv serial classes cur n : is_version n = true →
  xfer_args_loop aa (n :: argv) serial classes cur = xfer_args_loop aa argv (Some n) classes cur.
Proof.
  intros Hn. pose proof Hn as [Hl%Nat.eqb_eq Hd]%andb_true_iff. cbn [xfer_args_loop]. rewrite split_av_value.
  - cbn [mbind check_bind lift]. rewrite Hn. set (r := xfer_args_loop _ _ _ _ _). by destruct r as [[v ms]| |].
  - intros Hin. rewrite forallb_forall in Hd. apply list_elem_of_In in Hin. by specialize (Hd _ Hin).
  - rewrite Hl. vm_compute. lia.
Qed.

Section Arguments.
Context (areas : list auth_area_struct) (str name : cstr) (aa : auth_area_struct).
Context (area_found : find_auth_area_by_name areas (Some name) = Some aa).
Context (not_world : STR_EQ ($"0.0.0.0/0") name = false) (is_master : aa_type aa ≠ AUTH_AREA_SECONDARY).

Lemma parse_area argv : split_args (Some str) = Ret (Some (name :: argv)) →
  xfer_parse_args areas str = xfer_args_loop aa argv None [] None.
Proof.
  intros E. unfold xfer_parse_args, arguments. rewrite E. cbn [lift mbind check_bind pass mret check_ret default]. unfold id.
  rewrite not_world, area_found. rewrite decide_False by done. set (r := xfer_args_loop _ _ _ _ _). by destruct r as [[v ms]| |].
Qed.
End Arguments.

(** The arguments of -xfer say what is asked for: an area that the server
    is the master of, a version number and classes with attributes, all known
    there, are read back as they were put together. *)
Theorem xfer_args_parsed areas str name aa n l :
  find_auth_area_by_name areas (Some name) = Some aa → STR_EQ ($"0.0.0.0/0") name = false → aa_type aa ≠ AUTH_AREA_SECONDARY →
  split_args (Some str) = Ret (Some (name :: option_list n ++ (l ≫= class_args))) →
  (∀ v, n = Some v → is_version v = true) → Forall (found_class aa) l →
  xfer_parse_args areas str = pass (XferArg aa n l).
Proof.
  intros Ha Hw Hm E Hn Hl. rewrite (parse_area areas str name aa Ha Hw Hm _ E).
  destruct (args_loop_classes aa [] n l Hl [] None) as (classes & cur & El & Ec & _). rewrite app_nil_r in El.
  destruct n as [n|].
  - change (option_list (Some n) ++ (l ≫= class_args)) with (n :: (l ≫= class_args)). rewrite args_loop_number by by apply Hn. rewrite El. cbn [xfer_args_loop]. by rewrite Ec.
  - change (option_list None ++ (l ≫= class_args)) with (l ≫= class_args). rewrite El. cbn [xfer_args_loop]. by rewrite Ec.
Qed.

Definition demo_master_area : auth_area_struct :=
  AuthArea ($"a.com") (Some (Schema [demo_class] [])) AUTH_AREA_PRIMARY None no_soa None None None None 0 None None.
Definition demo_wanted : xfer_class_struct := XferClass demo_class [demo_attr 2 ($"Host-Name")].
Lemma demo_found : found_class demo_master_area demo_wanted.
Proof.
  split; [apply (bool_decide_unpack _); vm_compute; exact I|]. split; [reflexivity|].
  constructor; [|constructor]. split; [apply (bool_decide_unpack _); vm_compute; exact I|reflexivity].
Qed.
Lemma xfer_args_parsed_witness :
  xfer_parse_args [demo_master_area] ($"a.com 20260101000000000 class=host attr=Host-Name")
  = pass (XferArg demo_master_area (Some $"20260101000000000") [demo_wanted]).
Proof.
  apply (xfer_args_parsed [demo_master_area] ($"a.com 20260101000000000 class=host attr=Host-Name") ($"a.com")).
  - reflexivity.
  - reflexivity.
  - discriminate.
  - vm_compute. reflexivity.
  - intros v [= <-]. reflexivity.
  - constructor; [apply demo_found|constructor].
Defined.

(** A word that is no version number is refused, but behind the name of a
    class the refusal destroys the class twice: the client ends the server. *)
Theorem xfer_bad_number areas str name aa l bad more :
  find_auth_area_by_name areas (Some name) = Some aa → STR_EQ ($"0.0.0.0/0") name = false → aa_type aa ≠ AUTH_AREA_SECONDARY →
  split_args (Some str) = Ret (Some (name :: (l ≫= class_args) ++ bad :: more)) → Forall (found_class aa) l →
  chr 61 ∉ bad → (length bad < MAX_LINE)%nat → is_version bad = false →
  xfer_parse_args areas str = match l with [] => wrong_version | _ => Fault end.
Proof.
  intros Ha Hw Hm E Hl Hb Hlen Hv. rewrite (parse_area areas str name aa Ha Hw Hm _ E).
  destruct (args_loop_classes aa (bad :: more) None l Hl [] None) as (classes & cur & -> & _ & Hsome & Hnone).
  cbn [xfer_args_loop]. rewrite split_av_value by done. cbn [lift mbind check_bind]. rewrite Hv.
  destruct l; [by rewrite (Hnone eq_refl)|]. destruct cur; [done|]. by destruct (Hsome ltac:(done)).
Qed.
Lemma xfer_bad_number_witness :
  xfer_parse_args [demo_master_area] ($"a.com class=host attr=Host-Name 1") = Fault ∧ xfer_parse_args [demo_master_area] ($"a.com 1") = wrong_version.
Proof.
  assert (chr 61 ∉ $"1" ∧ (length ($"1") < MAX_LINE)%nat) as [H1 H2] by (apply (bool_decide_unpack _); vm_compute; exact I).
  split.
  - apply (xfer_bad_number [demo_master_area] ($"a.com class=host attr=Host-Name 1") ($"a.com") demo_master_area [demo_wanted] ($"1") []);
      [reflexivity|reflexivity|discriminate|vm_compute; reflexivity|constructor; [apply demo_found|constructor]|exact H1|exact H2|reflexivity].
  - apply (xfer_bad_number [demo_master_area] ($"a.com 1") ($"a.com") demo_master_area [] ($"1") []);
      [reflexivity|reflexivity|discriminate|vm_compute; reflexivity|constructor|exact H1|exact H2|reflexivity].
Defined.

(** ** What is sent *)

(** a record that is at least as new as asked for *)
Definition recent (serial : option cstr) (rec : record_struct) : bool :=
  match serial with
  | None => true
  | Some s =>
      match find_first (λ av, STR_EQ (attr_name (av_attr av)) ($"updated")) (av_pair_list rec) ≫= av_value with
      | Some v => negb (bool_decide (s = [])) && (0 <=? strcmp v s)
      | None => false
      end
  end.
(** the lines of a record: one for each pair of the attributes that were asked
    for, and an empty one *)
Definition asked (cur : option xfer_class_struct) (av : av_pair_struct) : bool :=
  match cur with None => true | Some xc => attr_in_xfer_class (av_attr av) xc end.
Definition pair_line (c : class_struct) (av : av_pair_struct) : message :=
  print_response RESP_XFER (class_name c ++ $":" ++ attr_name (av_attr av) ++ $":" ++ default [] (av_value av)).
Definition record_lines (cur : option xfer_class_struct) (rec : record_struct) : list message :=
  match filter (λ av, asked cur av = true) (av_pair_list rec) with
  | [] => []
  | shown => (pair_line (rec_class rec) <$> shown) ++ [print_response RESP_XFER []]
  end.
Definition sent (serial : option cstr) (cur : option xfer_class_struct) (recs : list record_struct) : list message :=
  filter (λ rec, recent serial rec = true) recs ≫= record_lines cur.

(** the count and the lines agree *)
Definition counted (x : Z * list message) : Prop := 0 ≤ x.1 ∧ (x.1 = 0 ↔ x.2 = []).
Lemma counted_nil : counted (0, []).
Proof. done. Qed.
Lemma counted_app n ms n' ms' : counted (n, ms) → counted (n', ms') → counted (n + n', ms ++ ms').
Proof.
  intros [H1 H2] [H3 H4]. cbn [fst snd] in *. split; cbn [fst snd]; [lia|]. split.
  - intros E. rewrite (proj1 H2), (proj1 H4) by lia. done.
  - intros [E1 E2]%app_nil. apply H2 in E1. apply H4 in E2. lia.
Qed.

Lemma display_lines rec cur : ∃ n, xfer_display_record rec cur = (n, record_lines cur rec) ∧ counted (n, record_lines cur rec).
Proof.
  unfold xfer_display_record, record_lines.
  change (filter (λ av, match cur with None => true | Some xc => attr_in_xfer_class (av_attr av) xc end = true) (av_pair_list rec))
    with (filter (λ av, asked cur av = true) (av_pair_list rec)).
  destruct (filter _ (av_pair_list rec)) as [|av l]; (eexists; split; [reflexivity|]); (split; [cbn [fst length]; lia|]); [done|].
  split; [cbn [fst length]; lia|done].
Qed.
Lemma is_record_new_recent rec s : is_record_new rec s = Ret (recent (Some s) rec).
Proof.
  unfold is_record_new, recent. destruct s as [|c s].
  - by destruct (find_first _ _ ≫= av_value).
  - rewrite find_attr_first by done. cbn [mbind outcome_bind].
    destruct (find_first _ _) as [av|]; cbn [mbind option_bind]; [|done]. by destruct (av_value av).
Qed.

Section Sent.
Context (fs : filesystem) (check_record : record_check) (aa : auth_area_struct) (serial : option cstr).

Lemma xfer_records_sent no c cur es : ∀ fuel pre, Forall (good_entry c) es → (length es < fuel)%nat → ∃ n,
  let ms := sent serial cur (live_records (placed c aa no (length pre) es)) in
  xfer_records check_record fuel aa no (pre ++ data_text es) c cur serial (length pre) = Ret (n, ms) ∧ counted (n, ms).
Proof.
  induction es as [|e es IH]; intros fuel pre Hg Hf; (destruct fuel as [|fuel]; [cbn in Hf; lia|]).
  - exists 0. cbn [xfer_records]. rewrite mkdb_read_next_entry by (done || constructor). done.
  - pose proof Hg as [He Hg']%Forall_cons. rewrite live_placed_cons.
    assert (pre ++ data_text (e :: es) = (pre ++ stored_text e) ++ data_text es) as Etext by by rewrite data_text_cons, app_assoc.
    destruct (st_live e) eqn:El.
    + destruct (IH fuel (pre ++ stored_text e) Hg') as (n & E & Hc); [cbn in Hf; lia|].
      set (rec := Record_ c aa no 0 (Z.of_nat (length pre)) (st_pairs e)).
      destruct (display_lines rec cur) as (k & Ek & Hk). cbn [xfer_records].
      rewrite mkdb_read_next_entry; [|done|apply Forall_true; by left]. cbn [next_entry]. rewrite El. cbn [fst mbind outcome_bind].
      fold rec. rewrite Etext, <-length_app.
      assert (match serial with None => Ret true | Some s => is_record_new rec s end = Ret (recent serial rec)) as ->.
      { destruct serial; [apply is_record_new_recent|done]. }
      cbn [mbind outcome_bind]. unfold sent. cbn [app]. rewrite filter_cons.
      destruct (recent serial rec) eqn:Er.
      * rewrite decide_True by done. rewrite Ek. cbn beta iota. rewrite E. cbn [mbind outcome_bind]. eexists. split; [reflexivity|].
        cbn [mbind list_bind]. by apply counted_app.
      * rewrite decide_False by done. cbn beta iota. rewrite E. cbn [mbind outcome_bind]. eexists. split; [reflexivity|]. exact Hc.
    + destruct (IH (S fuel) (pre ++ stored_text e) Hg') as (n & E & Hc); [cbn in Hf |- *; lia|].
      exists n. cbn [app]. split; [|exact Hc]. rewrite <-E, Etext. cbn [xfer_records]. rewrite <-Etext.
      rewrite mkdb_read_next_entry; [|done|apply Forall_true; by left]. cbn [next_entry]. rewrite El, Etext.
      rewrite mkdb_read_next_entry; [|done|apply Forall_true; by left]. by rewrite length_app.
Qed.

(** the records in the data files of a class *)
Definition stored_file (c : class_struct) (file : file_struct) (es : list stored) : Prop :=
  fs (filename file) = Some (data_text es) ∧ Forall (good_entry c) es.
Definition file_records (c : class_struct) (files : list file_struct) (ess : list (list stored)) : list record_struct :=
  concat (zip_with (λ file es, live_records (placed c aa (file_no file) 0 es)) files ess).
Definition holds_records (c : class_struct) (recs : list record_struct) : Prop :=
  ∃ master ess, get_file_list fs c [] = Ret (true, master) ∧
    Forall2 (stored_file c) (filter_file_list MKDB_DATA_FILE master) ess ∧
    recs = file_records c (filter_file_list MKDB_DATA_FILE master) ess.

Lemma sent_app cur l l' : sent serial cur (l ++ l') = sent serial cur l ++ sent serial cur l'.
Proof. unfold sent. by rewrite filter_app, bind_app. Qed.
Lemma xfer_file_sent c cur file es : stored_file c file es → ∃ n,
  let ms := sent serial cur (live_records (placed c aa (file_no file) 0 es)) in
  xfer_file_xfer fs check_record aa file c cur serial = Ret (n, ms) ∧ counted (n, ms).
Proof.
  intros [Hf Hg]. unfold xfer_file_xfer. rewrite Hf.
  apply (xfer_records_sent (file_no file) c cur es _ [] Hg). pose proof (data_text_length es). lia.
Qed.
Lemma xfer_files_sent c cur files ess : Forall2 (stored_file c) files ess → ∃ n,
  let ms := sent serial cur (file_records c files ess) in
  xfer_files fs check_record aa files c cur serial = Ret (Some n, ms) ∧ counted (n, ms).
Proof.
  induction 1 as [|file es files ess Hf _ (n & E & Hc)]; [by exists 0|]. cbn [xfer_files].
  destruct (xfer_file_sent c cur file es Hf) as (k & Ek & Hk). destruct Hf as [Hf _].
  assert (file_exists fs (filename file) = true) as -> by (apply bool_decide_eq_true; by eexists).
  cbn [negb]. rewrite Ek. cbn [mbind outcome_bind]. rewrite E. cbn [mbind outcome_bind].
  exists (k + n). unfold file_records. cbn [zip_with concat]. rewrite sent_app. split; [done|]. by apply counted_app.
Qed.
Lemma xfer_class_sent c cur recs : holds_records c recs → ∃ n,
  xfer_class fs check_record aa c cur serial = Ret (n, sent serial cur recs) ∧ counted (n, sent serial cur recs).
Proof.
  intros (master & ess & El & Hf & ->). destruct (xfer_files_sent c cur _ _ Hf) as (n & E & Hc).
  exists n. unfold xfer_class. rewrite El. cbn [mbind outcome_bind negb]. rewrite E. done.
Qed.
Lemma xfer_each_sent l rss : Forall2 (λ x, holds_records x.1) l rss → ∃ n,
  let ms := concat (zip_with (λ x, sent serial x.2) l rss) in
  xfer_each fs check_record aa l serial = Ret (n, ms) ∧ counted (n, ms).
Proof.
  induction 1 as [|[c cur] recs l rss Hc _ (n & E & Hn)]; [by exists 0|]. cbn [xfer_each].
  destruct (xfer_class_sent c cur recs Hc) as (k & Ek & Hk). rewrite Ek. cbn [mbind outcome_bind]. rewrite E.
  exists (k + n). split; [done|]. by apply counted_app.
Qed.
End Sent.

(** the classes that are asked for, all those of the area if none is named *)
Definition targets (xs : xfer_arg_struct) (s : schema_struct) : list (class_struct * option xfer_class_struct) :=
  match xs_classes xs with
  | [] => (λ c, (c, None)) <$> class_list s
  | l => (λ xc, (xc_class xc, Some xc)) <$> l
  end.

(** words that the loop goes over: a tag that is neither class nor attr *)
Definition passed_over (word : cstr) : Prop :=
  ∃ tag value, xfer_split_av word = Ret (tag, value) ∧ tag ≠ [] ∧ STR_EQ tag ($"class") = false ∧ STR_EQ tag ($"attr") = false.
Lemma args_loop_passed_over aa word argv' : passed_over word → ∀ argv serial classes cur,
  xfer_args_loop aa (argv ++ word :: argv') serial classes cur = xfer_args_loop aa (argv ++ argv') serial classes cur.
Proof.
  intros (tag & value & E & Hne & Hc & Ha). induction argv as [|arg argv IH]; intros serial classes cur; cbn [app xfer_args_loop].
  - rewrite E. cbn [lift mbind check_bind]. rewrite Hc, Ha. destruct tag; [done|].
    set (r := xfer_args_loop _ _ _ _ _). by destruct r as [[v ms]| |].
  - destruct (lift (xfer_split_av arg)) as [[[[attr v]|x] ms]| |]; try done. unfold mbind, check_bind.
    destruct attr as [|c attr]; [destruct (is_version v); [by rewrite IH|done]|].
    destruct (STR_EQ (c :: attr) ($"class")); [destruct (find_class_by_name _ _); [by rewrite IH|done]|].
    destruct (STR_EQ (c :: attr) ($"attr")); [|by rewrite IH].
    destruct cur as [xc|]; [|done]. destruct (find_attribute_by_name _ _); [by rewrite IH|done].
Qed.
Lemma attribute_passed_over name : (length name < MAX_LINE)%nat → passed_over ($"attribute=" ++ name).
Proof.
  intros Hn. exists ($"attribute"), (trim_s name). split; [|by split_and!].
  change ($"attribute=" ++ name) with ($"attribute" ++ chr 61 :: name). unfold xfer_split_av. rewrite strchr_app by (apply (bool_decide_unpack _); by vm_compute).
  change (drop _ _) with name. change (take _ _) with ($"attribute"). rewrite (line_copy_short name) by done. reflexivity.
Qed.
Lemma parse_words areas str str' ws ws' : split_args (Some str) = Ret (Some ws) → split_args (Some str') = Ret (Some ws') →
  head ws = head ws' → (∀ aa, xfer_args_loop aa (tail ws) None [] None = xfer_args_loop aa (tail ws') None [] None) →
  xfer_parse_args areas str = xfer_parse_args areas str'.
Proof.
  intros E E' Hh Hl. unfold xfer_parse_args, arguments. rewrite E, E'. cbn [lift mbind check_bind pass mret check_ret default]. unfold id.
  destruct ws as [|w ws], ws' as [|w' ws']; try done. injection Hh as <-. cbn [tail] in Hl.
  destruct (STR_EQ _ w); [done|]. destruct (find_auth_area_by_name _ _); [|done]. by rewrite Hl.
Qed.

(** C17: -xfer sends what was asked for, whole and in order: for every class,
    the records of its data files that are not deleted and, with a version, not
    older than it, each with the pairs of the attributes that were named; all
    pairs without one, those of private attributes and of private records among
    them, whoever asks.  The answer is an error only if nothing was sent.
    Attributes are named by words attr=<name>.  The words attribute=<name> of
    RFC 2167 are passed over without an error: a line with such a word is
    answered as the line without it, with all pairs if it names no attribute
    otherwise.  The classes and attributes that a line asks for are those of
    [xfer_parse_args].  Records that were deleted since the version, which the
    RFC wants too, are not sent. *)
Theorem xfer_directive_correct areas fs check_record str xs s rss :
  xfer_parse_args areas str = pass xs → aa_schema (xs_auth_area xs) = Some s →
  Forall2 (λ x, holds_records fs (xs_auth_area xs) x.1) (targets xs s) rss →
  let ms := concat (zip_with (λ x, sent (xs_serial_no xs) x.2) (targets xs s) rss) in
  let answer := match ms with [] => reject [print_error NO_TRANSFER []] | _ => tell ms end in
  xfer_directive areas fs check_record str = answer ∧
  ∀ rfc_str area ws name ws', (length name < MAX_LINE)%nat →
    split_args (Some str) = Ret (Some (area :: ws ++ ws')) →
    split_args (Some rfc_str) = Ret (Some (area :: ws ++ ($"attribute=" ++ name) :: ws')) →
    xfer_directive areas fs check_record rfc_str = answer.
Proof.
  intros Hp Hs Hr ms answer.
  assert (∀ str, xfer_parse_args areas str = pass xs → xfer_directive areas fs check_record str = answer) as Hanswer; last first.
  { split; [by apply Hanswer|]. intros rfc_str area ws name ws' Hn E E'. apply Hanswer. rewrite <-Hp.
    apply (parse_words _ _ _ _ _ E' E); [done|]. intros aa. by apply args_loop_passed_over, attribute_passed_over. }
  clear str Hp. intros str Hp. unfold answer.
  unfold xfer_directive. rewrite Hp. cbn [pass mret check_ret mbind check_bind].
  destruct (xfer_each_sent fs check_record (xs_auth_area xs) (xs_serial_no xs) _ _ Hr) as (n & E & Hc). fold ms in E, Hc.
  assert (match xs_classes xs with
          | [] => xfer_all_classes fs check_record (xs_auth_area xs) (xs_serial_no xs)
          | _ => xfer_some_classes fs check_record xs
          end = Ret (n, ms)) as ->.
  { rewrite <-E. unfold targets, xfer_all_classes, xfer_some_classes. destruct (xs_classes xs); [by rewrite Hs|done]. }
  destruct Hc as [_ Hc]. cbn [fst snd] in Hc. unfold lift, tell, mbind, check_bind. destruct (Z.eqb_spec n 0) as [E0|E0].
  - by rewrite (proj1 Hc E0).
  - destruct ms as [|m ms']; [by destruct E0; apply Hc|]. cbn [negb require pass mret check_ret app]. by rewrite !app_nil_r.
Qed.

Definition demo_served : filesystem := λ n,
  if bool_decide (n = $"d.txt") then Some (data_text demo_records)
  else if bool_decide (n = $"db/local.db") then Some (list_text [File MKDB_DATA_FILE ($"d.txt") 1 0 0 false None])
  else None.
Lemma demo_served_records : holds_records demo_served demo_master_area demo_class (live_records (placed demo_class demo_master_area 1 0 demo_records)).
Proof.
  exists [File MKDB_DATA_FILE ($"d.txt") 1 0 0 false None], [demo_records]. split_and!.
  - vm_compute. reflexivity.
  - constructor; [|constructor]. split; [reflexivity|apply demo_full_records].
  - symmetry. exact (app_nil_r _).
Qed.
Lemma xfer_directive_correct_witness :
  let lines := [print_response RESP_XFER ($"host:Host-Name:www: the host"); print_response RESP_XFER [];
                print_response RESP_XFER ($"host:Host-Name:mail"); print_response RESP_XFER []] in
  xfer_directive [demo_master_area] demo_served no_check ($"a.com class=host attr=Host-Name") = tell lines ∧
  xfer_directive [demo_master_area] demo_served no_check ($"a.com class=host attribute=Updated attr=Host-Name") = tell lines.
Proof.
  cbv zeta. destruct (xfer_directive_correct [demo_master_area] demo_served no_check ($"a.com class=host attr=Host-Name")
    (XferArg demo_master_area None [demo_wanted]) (Schema [demo_class] [])
    [live_records (placed demo_class demo_master_area 1 0 demo_records)]) as [E1 E2].
  - vm_compute. reflexivity.
  - reflexivity.
  - constructor; [apply demo_served_records|constructor].
  - split; [rewrite E1; vm_compute; reflexivity|].
    rewrite (E2 ($"a.com class=host attribute=Updated attr=Host-Name") ($"a.com") [$"class=host"] ($"Updated") [$"attr=Host-Name"]).
    + vm_compute. reflexivity.
    + apply (bool_decide_unpack _). vm_compute. exact I.
    + vm_compute. reflexivity.
    + vm_compute. reflexivity.
Defined.
