(* ===== verification/Register.v ===== *)
(** * Registration (server/register.c, server/reg_ext.c)

    process_registration reads a registration from the spool file, checks it
    and applies it to the database.  The database is an interface: a search,
    the deletion of records, the addition of one (index_new_record) and the
    serial number of an area.  RegisterFiles implements it on files. *)

From S2P Require Import Prelude CLib CString Misc DlList IpNetwork Types Stdio ValidateRec Records.
From S2P Require Import Search Query QueryText FileInfo Guardian Checks RegUtils.
Local Open Scope Z_scope.

(** what registration uses of the database *)
Class Database (D : Type) := {
  db_search : D → database;
  db_delete : D → list record_struct → outcome (bool * D);
  index_new_record : D → record_struct → outcome (bool * D);
  db_update_soa : D → auth_area_struct → cstr → outcome (bool * D) }.

(** ** External parsers *)

(** The result of the program, given its command, the action, the email address
    and the text of the temporary file, with the text that the file has after
    it; [None] when it cannot be opened any more. *)
Definition parse_programs := cstr → register_action_type → cstr → cstr → Z * option cstr.

Section Register.
Context {D : Type} `{Database D}.
(** the configuration and the state of the session *)
Context (areas : list auth_area_struct) (is_class is_attr : cstr → bool) (max_hits_ceiling : Z).
Context (crypt : cstr → cstr → option cstr) (salt : cstr) (check_record : record_check).
Context (secure_mode : bool) (request : option auth_struct).
Context (run_env_program : parse_programs) (tmp_fname : cstr) (tmp_ok : bool) (reg_email : cstr).

(** run_external_parser for the actions ADD and MOD, which read the new record
    back after they have destroyed it.  A temporary file that cannot be opened
    is used all the same. *)
Definition run_external_parser (parse_prog : cstr) (action : register_action_type)
    (old_rec : option record_struct) (new_rec : option record_struct) : check (option record_struct) :=
  if negb tmp_ok then lift Fault
  else
    old_text ← lift (match old_rec with None => Ret [] | Some r => mkdb_write_record r end);
    new_text ← lift (match new_rec with None => Ret [] | Some r => mkdb_write_record r end);
    let sep := match old_rec, new_rec with Some _, Some _ => $"_NEW_" ++ [NL] | _, _ => [] end in
    command ← lift (sprintf_line (parse_prog ++ SP :: tmp_fname));
    let '(result, text) := run_env_program command action reg_email (old_text ++ sep ++ new_text) in
    if result =? 0 then
      match text, action with
      | Some text, ADD | Some text, MOD =>
          match (if bool_decide (action = ADD) then read_add_spool areas (Some text)
                 else '(new_rec, _) ← read_mod_spool areas (Some text); pass new_rec) with
          | Ret (Accepted rec, l) => Ret (Accepted (Some rec), l)
          | Ret (Rejected _, l) => Ret (Rejected true, l ++ [print_error UNIDENT_ERROR []])
          | Fault => Fault
          | NoFuel => NoFuel
          end
      (* the status is not initialised, or the null stream is closed *)
      | _, _ => lift Fault
      end
    else reject (if 2 <? result then [print_error UNIDENT_ERROR []] else []).

Definition external_parser (rec : record_struct) (action : register_action_type)
    (old_rec : option record_struct) (new_rec : option record_struct) : check (option record_struct) :=
  match parse_program (rec_class rec) with
  | Some ((_ :: _) as prog) => run_external_parser prog action old_rec new_rec
  | _ => pass new_rec
  end.

(** ** Finding the record *)

(** the records whose Updated is another are deleted, and the next is skipped *)
Fixpoint drop_outdated (fuel : nat) (z : DL.cursor record_struct) (updated : cstr) :
    outcome (DL.cursor record_struct) :=
  match fuel, z with
  | O, _ => NoFuel
  | _, None => Fault
  | S fuel, Some (_, rec, _) =>
      av ← find_attr_in_record_by_name (Some rec) (Some $"Updated");
      av ← of_option av;
      v ← of_option (av_value av);
      let z := if STR_EQ updated v then z else DL.z_delete z in
      match z with
      | Some (_, _, _ :: _) => drop_outdated fuel (DL.z_next z) updated
      | _ => Ret z
      end
  end.

Definition get_real_object_from_anon (d : D) (anon_rec : anon_record_struct) : check (list record_struct) :=
  let '(_, id, updated) := get_id_and_updated_from_anon anon_rec in
  match id, updated with
  | None, _ => reject [print_error MISSING_REQ_ATTRIB ($"ID")]
  | Some _, None => reject [print_error MISSING_REQ_ATTRIB ($"Updated")]
  | Some id, Some updated =>
      match build_object_query is_class is_attr (Some id) None with
      | Ret (Rejected b, l) =>
          Ret (Rejected b, l ++ [print_error UNIDENT_ERROR ($"could not generate query to find object")])
      | m =>
          query ← m;
          '(num_recs, _, record_list) ← lift (db_search d query max_hits_ceiling);
          match default [] record_list with
          | [] => reject [print_error NO_OBJECT_FOUND []]
          | rec :: r =>
              _ ← require (negb (num_recs =? 0)) [print_error NO_OBJECT_FOUND []];
              z ← lift (drop_outdated (S (length r)) (Some ([], rec, r)) updated);
              _ ← require (bool_decide (DL.elems z ≠ [])) [print_error OUTDATED_OBJ []];
              pass (DL.elems z)
          end
      end
  end.

(** no record with the same primary keys *)
Definition check_uniq_record (d : D) (rec : record_struct) : check bool :=
  match build_primary_key_query is_class is_attr rec with
  | Ret (Rejected _, l) => Ret (Accepted false, l)
  | m =>
      query ← m;
      match query_tree query with
      | None => pass true
      | Some _ =>
          '(num_recs, _, record_list) ← lift (db_search d query 1);
          pass ((num_recs =? 0) || bool_decide (default [] record_list = []))
      end
  end.

(** whether the new record may replace the old one; it gets the old ID and
    Updated when it has none *)
Definition ensure_match (new_record old_record : record_struct) (name : cstr) (l : list message) :
    check record_struct :=
  new_av ← lift (find_attr_in_record_by_name (Some new_record) (Some name));
  old_av ← lift (find_attr_in_record_by_name (Some old_record) (Some name));
  old_av ← lift (of_option old_av);
  old ← lift (of_option (av_value old_av));
  match new_av with
  | None => pass (append_attribute_to_record new_record (rec_class new_record) name old).2
  | Some new_av =>
      new ← lift (of_option (av_value new_av));
      _ ← require (STR_EQ new old) l;
      pass new_record
  end.
Definition ensure_objects_match (new_record old_record : record_struct) : check record_struct :=
  new_record ← ensure_match new_record old_record ($"ID") [print_error INVALID_DIRECTIVE_PARAM ($"ID's must match")];
  ensure_match new_record old_record ($"Updated") [print_error OUTDATED_OBJ []].

Definition authorised (d : D) (rec : record_struct) : check unit :=
  ok ← lift (check_guardian (db_search d) is_class is_attr crypt secure_mode request rec);
  require ok [print_error UNAUTH_REGIST []].
Definition master (rec : record_struct) : check unit :=
  require (bool_decide (aa_type (rec_auth_area rec) = AUTH_AREA_PRIMARY))
          [print_error NOT_MASTER_AUTH_AREA (aa_name (rec_auth_area rec))].

(** ** The checks *)

Definition validated (rec : record_struct) : check record_struct :=
  let '(valid, rec) := check_record rec val_flag in _ ← require valid []; pass rec.

Definition check_add (d : D) (rec : record_struct) : check record_struct :=
  _ ← master rec;
  '(_, rec) ← lift (delete_attribute_from_record rec ($"ID"));
  rec ← validated rec;
  uniq ← check_uniq_record d rec;
  _ ← require uniq [print_error NON_UNIQ_KEY []];
  '(_, rec) ← lift (transform_guardian_record crypt salt rec);
  new ← external_parser rec ADD None (Some rec);
  lift (of_option new).

(** the records to delete come with the new one *)
Definition check_mod (d : D) (new_rec : record_struct) (old_anon_rec : anon_record_struct) :
    check (record_struct * list record_struct) :=
  _ ← master new_rec;
  old_record_list ← get_real_object_from_anon d old_anon_rec;
  old_rec ← lift (of_option (head old_record_list));
  new_rec ← validated new_rec;
  new_rec ← ensure_objects_match new_rec old_rec;
  _ ← authorised d old_rec;
  same_scheme ← lift (compare_record_attr_by_name old_rec new_rec ($"Guard-Scheme"));
  same_info ← lift (compare_record_attr_by_name old_rec new_rec ($"Guard-Info"));
  '(_, new_rec) ← lift (if same_scheme && same_info then Ret (true, new_rec)
                        else transform_guardian_record crypt salt new_rec);
  new ← external_parser new_rec MOD (Some old_rec) (Some new_rec);
  new ← lift (of_option new);
  pass (new, old_record_list).

Definition check_del (d : D) (old_rec : anon_record_struct) : check (list record_struct) :=
  record_list ← get_real_object_from_anon d old_rec;
  rec ← lift (of_option (head record_list));
  _ ← master rec;
  _ ← authorised d rec;
  _ ← external_parser rec DEL (Some rec) None;
  pass record_list.

(** ** The changes *)

(** the time as strftime formats it, the process id, and what generate_updated
    gives, in its first and its second call *)
Context (stamp : cstr) (pid : Z) (updated updated' : cstr).

Definition add_record (d : D) (rec : record_struct) (updated : cstr) : outcome (bool * D * record_struct) :=
  av ← find_attr_in_record_by_name (Some rec) (Some $"ID");
  rec ← match av with
        | Some _ => Ret rec
        | None => id ← generate_id stamp pid (aa_name (rec_auth_area rec));
                  Ret (append_attribute_to_record rec (rec_class rec) ($"ID") id).2
        end;
  rec ← set_updated_attr rec updated;
  '(_, d) ← db_update_soa d (rec_auth_area rec) updated;
  '(status, d) ← index_new_record d rec;
  Ret (status, d, rec).

Definition del_record (d : D) (record_list : list record_struct) (update_soa : bool) : outcome (bool * D) :=
  match record_list with
  | [] => Ret (true, d)
  | rec :: _ =>
      '(_, d) ← db_delete d record_list;
      d ← (if update_soa then '(_, d) ← db_update_soa d (rec_auth_area rec) updated; Ret d else Ret d);
      Ret (true, d)
  end.

Definition mod_record (d : D) (new_record : record_struct) (old_record_list : list record_struct) :
    outcome (bool * D * record_struct) :=
  '(_, d) ← del_record d old_record_list false;
  new_record ← set_updated_attr new_record updated;
  '(_, d) ← db_update_soa d (rec_auth_area new_record) updated;
  add_record d new_record updated'.

Definition print_add_result (rec : record_struct) : outcome (bool * list message) :=
  id ← find_attr_in_record_by_name (Some rec) (Some $"ID");
  updated ← find_attr_in_record_by_name (Some rec) (Some $"Updated");
  match id ≫= av_value with
  | Some ((_ :: _) as id) =>
      match updated ≫= av_value with
      | Some ((_ :: _) as updated) =>
          Ret (true, [print_response RESP_REGISTER ($"ID: " ++ id); print_response RESP_REGISTER ($"Updated: " ++ updated)])
      | _ => Ret (false, [])
      end
  | _ => Ret (false, [])
  end.

(** ** process_registration *)

(** what a checked registration will do *)
Inductive registration := Add (rec : record_struct) | Mod (rec : record_struct) (old : list record_struct)
                        | Del (old : list record_struct).

Definition read_and_check (d : D) (action : register_action_type) (spool : cstr) : check registration :=
  match action with
  | ADD => rec ← read_add_spool areas (Some spool); rec ← check_add d rec; pass (Add rec)
  | MOD => '(rec, old) ← read_mod_spool areas (Some spool);
           '(rec, old) ← check_mod d rec old; pass (Mod rec old)
  | DEL => old ← read_del_spool (Some spool); old ← check_del d old; pass (Del old)
  | UNKNOWN_ACTION => reject []
  end.
Definition commit (d : D) (r : registration) : outcome (bool * D * list message) :=
  match r with
  | Add rec => '(status, d, rec) ← add_record d rec updated;
               if status : bool then '(status, l) ← print_add_result rec; Ret (status, d, l) else Ret (false, d, [])
  | Mod rec old => '(status, d, _) ← mod_record d rec old; Ret (status, d, [])
  | Del old => '(status, d) ← del_record d old true; Ret (status, d, [])
  end.

(** A check that fails after the new record was destroyed is followed by its
    destruction once more. *)
Definition process_registration (d : D) (action : register_action_type) (spool : option cstr) :
    outcome (bool * D * list message) :=
  match spool with
  | None => Ret (false, d, [print_error UNIDENT_ERROR []])
  | Some spool =>
      '(r, l) ← read_and_check d action spool;
      match r with
      | Rejected freed => if freed : bool then Fault else Ret (false, d, l)
      | Accepted r => '(status, d, l') ← commit d r; Ret (status, d, l ++ l')
      end
  end.

(** ** The records that a registration is about *)

Definition updated_of (rec : record_struct) : option cstr :=
  find_first (λ av, STR_EQ (attr_name (av_attr av)) ($"Updated")) (av_pair_list rec) ≫= av_value.
Definition up_to_date (u : cstr) (rec : record_struct) : bool :=
  match updated_of rec with Some v => STR_EQ u v | None => false end.

(** what drop_outdated keeps *)
Fixpoint survivors (u : cstr) (l : list record_struct) : list record_struct :=
  match l with
  | [] => []
  | rec :: l =>
      if up_to_date u rec then rec :: survivors u l
      else match l with [] => [] | next :: l => next :: survivors u l end
  end.

Lemma drop_outdated_step fuel pre rec r u :
  is_Some (updated_of rec) →
  drop_outdated (S fuel) (Some (pre, rec, r)) u
  = if up_to_date u rec
    then match r with [] => Ret (Some (pre, rec, [])) | x :: r => drop_outdated fuel (Some (pre ++ [rec], x, r)) u end
    else match r with
         | [] => Ret (DL.z_delete (Some (pre, rec, [])))
         | x :: [] => Ret (Some (pre, x, []))
         | x :: y :: r => drop_outdated fuel (Some (pre ++ [x], y, r)) u
         end.
Proof.
  intros [v Hv]. unfold up_to_date. rewrite Hv. unfold updated_of in Hv. cbn [drop_outdated].
  rewrite find_attr_first by done. destruct (find_first _ _) as [av|]; [|done].
  cbn [mbind outcome_bind option_bind of_option] in *. rewrite Hv. cbn [mbind outcome_bind of_option].
  destruct (STR_EQ u v); [by destruct r|]. destruct r as [|x [|y r]]; [|done..].
  cbn [DL.z_delete]. by destruct (reverse pre).
Qed.

Lemma z_delete_last {X} (pre : list X) (x : X) : DL.elems (DL.z_delete (Some (pre, x, []))) = pre.
Proof.
  cbn [DL.z_delete]. destruct (reverse pre) as [|y l] eqn:E; cbn [DL.elems];
    rewrite <-(reverse_involutive pre), E; [done|]. by rewrite reverse_cons.
Qed.

(** Which records an outdated registration meets.  Of the records with the
    ID it keeps those with the Updated of the registration, and of the others
    the one behind each record that it drops: two outdated copies in a row
    leave the second, so that the registration is not refused. *)
Theorem drop_outdated_correct u l : ∀ fuel pre rec,
  Forall (λ rec, is_Some (updated_of rec)) (rec :: l) → (length l < fuel)%nat →
  ∃ z, drop_outdated fuel (Some (pre, rec, l)) u = Ret z ∧ DL.elems z = pre ++ survivors u (rec :: l).
Proof.
  induction l as [l IH] using (induction_ltof1 _ length). unfold ltof in IH. intros fuel pre rec Hu Hf.
  destruct fuel as [|fuel]; [lia|]. apply Forall_cons in Hu as [Hr Hu].
  rewrite drop_outdated_step by done. cbn [survivors]. destruct (up_to_date u rec) eqn:Er.
  - destruct l as [|x l]; [by eexists|]. cbn [length] in Hf.
    destruct (IH l ltac:(cbn; lia) fuel (pre ++ [rec]) x) as (z & -> & Ez); [done|lia|].
    exists z. by rewrite Ez, <-app_assoc.
  - destruct l as [|x [|y l]].
    + eexists. split; [done|]. rewrite z_delete_last. by rewrite app_nil_r.
    + by eexists.
    + apply Forall_cons in Hu as [_ Hu]. cbn [length] in Hf.
      destruct (IH l ltac:(cbn; lia) fuel (pre ++ [x]) y) as (z & -> & Ez); [done|lia|].
      exists z. by rewrite Ez, <-app_assoc.
Qed.

Lemma z_delete_sublist {X} (z : DL.cursor X) : DL.elems (DL.z_delete z) `sublist_of` DL.elems z.
Proof.
  destruct z as [[[pre x] [|y r]]|]; [|by apply sublist_app; [|apply sublist_cons]|done].
  rewrite z_delete_last. cbn [DL.elems]. by apply sublist_inserts_r.
Qed.
Lemma z_next_elems {X} (z : DL.cursor X) : DL.elems (DL.z_next z) = DL.elems z.
Proof. destruct z as [[[pre x] [|y r]]|]; [done| |done]. cbn. by rewrite <-app_assoc. Qed.

Lemma drop_outdated_sublist u : ∀ fuel z z',
  drop_outdated fuel z u = Ret z' → DL.elems z' `sublist_of` DL.elems z.
Proof.
  induction fuel as [|fuel IH]; intros z z'; [done|]. destruct z as [[[pre rec] r]|]; [|done].
  cbn [drop_outdated]. intros H'. apply bind_inv_Ret in H' as (? & _ & H').
  apply bind_inv_Ret in H' as (? & _ & H'). apply bind_inv_Ret in H' as (v & _ & H').
  set (z := if STR_EQ u v then _ else _) in H'.
  trans (DL.elems z); [|subst z; destruct (STR_EQ u v); [done|apply z_delete_sublist]].
  destruct z as [[[pre' rec'] [|next r']]|] eqn:E; [by injection H' as <-| |by injection H' as <-].
  apply IH in H'. by rewrite z_next_elems in H'.
Qed.

(** the records come from the search for the ID *)
Definition found_by_id (d : D) (old : list record_struct) : Prop :=
  ∃ id query n code found, build_object_query is_class is_attr (Some id) None = Ret (Accepted query, [])
    ∧ db_search d query max_hits_ceiling = Ret (n, code, Some found) ∧ old `sublist_of` found ∧ old ≠ [].

(** ** Who may change the database *)

Abbreviation guardian_accepts d rec :=
  (check_guardian (db_search d) is_class is_attr crypt secure_mode request rec = Ret true).
Definition in_primary_area (rec : record_struct) : Prop := aa_type (rec_auth_area rec) = AUTH_AREA_PRIMARY.

(** What the registrations that are carried out have in common.  [rec0] is the
    record as it was registered, [rec1] what validation has made of it. *)
Definition permitted (d : D) (r : registration) : Prop :=
  match r with
  | Add _ => ∃ rec0 rec1, in_primary_area rec0 ∧ check_record rec0 val_flag = (true, rec1)
                          ∧ ∃ l, check_uniq_record d rec1 = Ret (Accepted true, l)
  | Mod _ old => ∃ rec0 rec1 o, in_primary_area rec0 ∧ check_record rec0 val_flag = (true, rec1)
                                ∧ head old = Some o ∧ guardian_accepts d o ∧ found_by_id d old
  | Del old => ∃ o, head old = Some o ∧ in_primary_area o ∧ guardian_accepts d o ∧ found_by_id d old
  end.

Lemma parse_query_line_quiet text query l :
  parse_query_line is_class is_attr text = Ret (Accepted query, l) → l = [].
Proof. intros H'. unfold parse_query_line in H'. accepted H'. destruct x; [|done]. accepted H'. done. Qed.
Lemma build_object_query_quiet id u query l :
  build_object_query is_class is_attr id u = Ret (Accepted query, l) → l = [].
Proof.
  destruct id as [[|c id]|]; [done| |done]. intros H'. unfold build_object_query in H'. accepted H'.
  by apply parse_query_line_quiet in H'.
Qed.

Lemma real_object_found d anon_rec old l :
  get_real_object_from_anon d anon_rec = Ret (Accepted old, l) → found_by_id d old.
Proof.
  unfold get_real_object_from_anon. destruct (get_id_and_updated_from_anon anon_rec) as [[st [id|]] [u|]]; [|done..].
  destruct (build_object_query _ _ (Some id) None) as [[[query|] lq]| |] eqn:Eq; [|done..].
  pose proof (build_object_query_quiet _ _ _ _ Eq) as ->. intros H'. accepted H'.
  destruct o as [found|]; [|done]. destruct found as [|rec1 found]; [done|]. cbn [default from_option Datatypes.id] in H'. accepted H'. subst.
  injection H0 as <- _.
  eexists _, _, _, _, _. split_and!; [exact Eq|eassumption| |by eapply bool_decide_eq_true].
  by eapply (drop_outdated_sublist _ _ (Some ([], _, _))).
Qed.

Lemma delete_attribute_area rec name st rec' :
  delete_attribute_from_record rec name = Ret (st, rec') → rec_auth_area rec' = rec_auth_area rec.
Proof.
  unfold delete_attribute_from_record. destruct (av_pair_list rec); [by intros [= _ <-]|].
  intros H'. apply bind_inv_Ret in H' as ([? ?] & _ & H'). by injection H' as _ <-.
Qed.

Lemma validated_accepted rec rec' l : validated rec = Ret (Accepted rec', l) → check_record rec val_flag = (true, rec').
Proof.
  unfold validated. destruct (check_record rec val_flag) as [valid rec1]. intros H'. accepted H'. by subst.
Qed.

Lemma read_and_check_permitted d action spool r l :
  read_and_check d action spool = Ret (Accepted r, l) → permitted d r.
Proof.
  unfold read_and_check. intros Hr. destruct action; [done|..]; accepted Hr.
  - unfold check_add, master in H1. accepted H1. subst.
    eexists _, _. split_and!; [|by eapply validated_accepted|by eexists]. red.
    erewrite delete_attribute_area by done. by eapply bool_decide_eq_true.
  - unfold check_mod, master, authorised in H1. accepted H1. subst. eexists _, _, _.
    split_and!; [by eapply bool_decide_eq_true|by eapply validated_accepted|by apply of_option_Ret|done|by eapply real_object_found].
  - unfold check_del, master, authorised in H1. accepted H1. subst.
    eexists. split_and!; [by apply of_option_Ret|by eapply bool_decide_eq_true|done|by eapply real_object_found].
Qed.

(** Who may change the database.  A registration either leaves the database
    as it was and fails, or commits one that is permitted: an addition only of
    a valid record without a duplicate of its primary keys, to an area of which
    the server is the master; a change only of such a record, and only when the
    guardians of the first record with the old ID accept the session; a
    deletion only when that record is in such an area and its guardians accept. *)
Theorem registration_permitted d action spool status d' l :
  process_registration d action spool = Ret (status, d', l) →
  (status = false ∧ d' = d) ∨ ∃ r l', permitted d r ∧ commit d r = Ret (status, d', l').
Proof.
  unfold process_registration. destruct spool as [spool|]; [|intros [= <- <- _]; by left].
  intros H1. apply bind_inv_Ret in H1 as ([[r|freed] l1] & Hc & H1).
  - apply bind_inv_Ret in H1 as ([[? ?] l2] & H1 & [= -> -> _]). right. exists r, l2.
    split; [by eapply read_and_check_permitted|done].
  - destruct freed; [done|]. injection H1 as <- <- _. by left.
Qed.

(** After a successful run for a deletion the parser's result depends on a
    variable that was never set. *)
Theorem parser_delete_undefined prog rec t text :
  mkdb_write_record rec = Ret t →
  run_env_program (prog ++ SP :: tmp_fname) DEL reg_email (t ++ [] ++ []) = (0, text) →
  run_external_parser prog DEL (Some rec) None = Fault.
Proof.
  intros Ht Hr. unfold run_external_parser. destruct tmp_ok; [|done]. cbn [negb]. rewrite Ht.
  unfold sprintf_line. cbn [lift mbind check_bind]. case_decide; [|done]. cbn [lift mbind check_bind].
  rewrite Hr. by destruct text.
Qed.

(** ** The identity of an added record *)

(** the values of the attribute, in their order *)
Definition attr_values (name : cstr) (rec : record_struct) : list (option cstr) :=
  omap (λ av : av_pair_struct, if STR_EQ (attr_name (av_attr av)) name then Some (av_value av) else None) (av_pair_list rec).
Definition attrs_of (rec : record_struct) : list attribute_struct := av_attr <$> av_pair_list rec.
Definition lacks (name : cstr) (rec : record_struct) : Prop :=
  Forall (λ a, STR_EQ (attr_name a) name = false) (attrs_of rec).
(** the pairs besides the identity *)
Definition contents (rec : record_struct) : list av_pair_struct :=
  filter (λ av : av_pair_struct, keeps_attr ($"ID") av ∧ keeps_attr ($"Updated") av) (av_pair_list rec).

(** an edit that may change values, but neither attributes nor the class *)
Definition same_shape (rec rec' : record_struct) : Prop :=
  rec_class rec' = rec_class rec ∧ rec_auth_area rec' = rec_auth_area rec ∧ attrs_of rec' = attrs_of rec.
(** the class knows the attribute under this name *)
Definition knows (c : class_struct) (name : cstr) : Prop :=
  ∃ a, find_attribute_by_name c name = Some a ∧ STR_EQ (attr_name a) name = true.

Lemma set_value_attrs name v avs : av_attr <$> set_value name v avs = av_attr <$> avs.
Proof. induction avs as [|av avs IH]; [done|]. cbn [set_value]. destruct (STR_EQ _ _); cbn; by rewrite ?IH. Qed.

Lemma transform_same_shape rec b rec' : transform_guardian_record crypt salt rec = Ret (b, rec') → same_shape rec rec'.
Proof.
  unfold transform_guardian_record. destruct (negb _); [by intros [= _ <-]|]. rewrite find_attr_first by done.
  cbn [mbind outcome_bind]. destruct (find_first _ _) as [av|]; [|by intros [= _ <-]].
  match goal with |- context [if ?b then with_av_pairs ?p rec else rec] =>
    set (rec1 := if b then with_av_pairs p rec else rec) end.
  assert (same_shape rec rec1) as S1 by (subst rec1; case_match; [repeat split; apply set_value_attrs|done]).
  rewrite find_attr_first by done. cbn [mbind outcome_bind].
  destruct (find_first _ (av_pair_list rec1)) as [av1|]; [|by intros [= _ <-]].
  assert (∀ v, same_shape rec (with_av_pairs (set_value ($"Guard-Info") v (av_pair_list rec1)) rec1)) as S2.
  { intros v. destruct S1 as (? & ? & ?). split_and!; [done..|]. unfold attrs_of. cbn. by rewrite set_value_attrs. }
  repeat case_match; intros [= _ <-]; done || apply S2.
Qed.

Lemma delete_attribute_lacks rec name st rec' :
  delete_attribute_from_record rec name = Ret (st, rec') → lacks name rec' ∧ rec_class rec' = rec_class rec.
Proof.
  unfold delete_attribute_from_record, lacks, attrs_of. destruct (av_pair_list rec) as [|av r] eqn:E.
  { intros [= _ <-]. by rewrite E. }
  destruct (delete_attribute_loop_spec name (3 * length (av :: r)) [] av r false)
    as [[_ ->]|(_ & z & Hz & ->)]; [constructor|cbn; lia|done|]. cbn [mbind outcome_bind].
  intros [= _ <-]. split; [|done]. cbn [av_pair_list with_av_pairs]. rewrite Hz. cbn [app].
  apply Forall_fmap, Forall_forall. intros x [Hx _]%list_elem_of_filter. exact Hx.
Qed.

Lemma lacks_values name rec : lacks name rec → attr_values name rec = [].
Proof.
  unfold lacks, attrs_of, attr_values. intros Hl. apply Forall_fmap in Hl.
  induction Hl as [|av avs Hav _ IH]; [done|]. cbn [omap list_omap]. cbn in Hav. by rewrite Hav.
Qed.

Lemma attr_values_snoc name rec av :
  attr_values name (with_av_pairs (av_pair_list rec ++ [av]) rec)
  = attr_values name rec ++ (if STR_EQ (attr_name (av_attr av)) name then [av_value av] else []).
Proof. unfold attr_values. cbn [av_pair_list with_av_pairs]. rewrite omap_app. cbn. by destruct (STR_EQ _ _). Qed.

Lemma contents_snoc rec av :
  contents (with_av_pairs (av_pair_list rec ++ [av]) rec)
  = contents rec ++ filter (λ av : av_pair_struct, keeps_attr ($"ID") av ∧ keeps_attr ($"Updated") av) [av].
Proof. unfold contents. cbn [av_pair_list with_av_pairs]. by rewrite filter_app. Qed.

Lemma append_known rec name v :
  knows (rec_class rec) name →
  ∃ a, STR_EQ (attr_name a) name = true ∧
    (append_attribute_to_record rec (rec_class rec) name v).2 = with_av_pairs (av_pair_list rec ++ [AvPair a (Some v)]) rec.
Proof. intros (a & Ha & Hn). exists a. split; [done|]. unfold append_attribute_to_record. by rewrite Ha. Qed.

Lemma set_updated_spec rec u rec' :
  knows (rec_class rec) ($"Updated") → set_updated_attr rec u = Ret rec' →
  updated_of rec' = Some u ∧ attr_values ($"ID") rec' = attr_values ($"ID") rec ∧ contents rec' = contents rec.
Proof.
  intros Hkn. unfold set_updated_attr. rewrite find_attr_first by done. cbn [mbind outcome_bind].
  destruct (find_first _ _) as [av|] eqn:Ef; intros <-%Ret_inj.
  - unfold updated_of. cbn [av_pair_list with_av_pairs]. rewrite find_set_same, Ef. split; [done|].
    unfold attr_values, contents. cbn [av_pair_list with_av_pairs]. clear Ef.
    induction (av_pair_list rec) as [|x avs [IH1 IH2]]; [done|]. cbn [set_value].
    destruct (STR_EQ (attr_name (av_attr x)) _) eqn:Ex; cbn [omap list_omap].
    + assert (STR_EQ (attr_name (av_attr x)) ($"ID") = false) as Hn by (by rewrite <-(STR_EQ_trans _ _ ($"ID") Ex)).
      cbn [av_attr]. rewrite !Hn. split; [done|].
      by rewrite !filter_cons_False by (intros [_ Hk]; unfold keeps_attr in Hk; cbn [av_attr] in Hk; congruence).
    + rewrite IH1. split; [done|]. rewrite !(filter_cons _ x). by rewrite IH2.
  - destruct (append_known rec ($"Updated") u Hkn) as (a & Ha & ->).
    rewrite attr_values_snoc, contents_snoc, filter_cons_False by (intros [_ Hk]; unfold keeps_attr in Hk; cbn [av_attr] in Hk; congruence).
    cbn [av_attr av_value]. rewrite <-(STR_EQ_trans _ _ ($"ID") Ha), filter_nil, !app_nil_r.
    split; [|done]. unfold updated_of. cbn [av_pair_list with_av_pairs].
    clear -Ef Ha. induction (av_pair_list rec) as [|x avs IH]; cbn [app find_first av_attr] in *; [by rewrite Ha|].
    destruct (STR_EQ _ _); [done|auto].
Qed.

Lemma add_record_spec d rec u status d' rec' :
  lacks ($"ID") rec → knows (rec_class rec) ($"ID") → knows (rec_class rec) ($"Updated") →
  add_record d rec u = Ret (status, d', rec') →
  ∃ id d1, generate_id stamp pid (aa_name (rec_auth_area rec)) = Ret id ∧ index_new_record d1 rec' = Ret (status, d') ∧
    attr_values ($"ID") rec' = [Some id] ∧ updated_of rec' = Some u ∧ contents rec' = contents rec.
Proof.
  intros Hl Hi Hu. unfold add_record. rewrite find_attr_first by done. cbn [mbind outcome_bind].
  destruct (find_first _ _) as [av|] eqn:Ef.
  { exfalso. apply find_first_Some in Ef as [Hin Hn]. unfold lacks, attrs_of in Hl. apply Forall_fmap in Hl.
    rewrite Forall_forall in Hl. apply Hl in Hin. cbn [compose] in Hin. congruence. }
  intros E. apply bind_inv_Ret in E as (rec1 & E1 & E). apply bind_inv_Ret in E1 as (id & Hid & <-%Ret_inj).
  destruct (append_known rec ($"ID") id Hi) as (a & Ha & Erec). rewrite Erec in E.
  apply bind_inv_Ret in E as (rec2 & E2 & E). apply set_updated_spec in E2 as (U1 & U2 & U3); [|done].
  apply bind_inv_Ret in E as ([? d1] & _ & E). apply bind_inv_Ret in E as ([? d2] & E4 & [= -> -> ->]).
  exists id, d1. split_and!; [done|done| |done|].
  - rewrite U2, attr_values_snoc, lacks_values by done. cbn [av_attr av_value]. by rewrite Ha.
  - rewrite U3, contents_snoc, filter_cons_False by (intros [Hk _]; unfold keeps_attr in Hk; cbn [av_attr] in Hk; congruence).
    by rewrite filter_nil, app_nil_r.
Qed.

Lemma attr_values_first name rec :
  head (attr_values name rec) = av_value <$> find_first (λ av, STR_EQ (attr_name (av_attr av)) name) (av_pair_list rec).
Proof.
  unfold attr_values. induction (av_pair_list rec) as [|av avs IH]; [done|]. cbn [omap list_omap find_first].
  by destruct (STR_EQ _ _).
Qed.

Lemma print_added rec id u :
  av_value <$> find_first (λ av, STR_EQ (attr_name (av_attr av)) ($"ID")) (av_pair_list rec) = Some (Some id) →
  updated_of rec = Some u → id ≠ [] → u ≠ [] →
  print_add_result rec = Ret (true, [print_response RESP_REGISTER ($"ID: " ++ id); print_response RESP_REGISTER ($"Updated: " ++ u)]).
Proof.
  intros Ei Eu Hi Hu. unfold print_add_result. rewrite !find_attr_first by done. cbn [mbind outcome_bind].
  unfold updated_of in Eu. cbn [mbind] in Eu |- *. rewrite Eu.
  destruct (find_first _ _) as [av|]; [|done]. cbn in Ei. injection Ei as Ei.
  cbn [mbind option_bind]. rewrite Ei.
  destruct id; [done|]. by destruct u.
Qed.

Lemma generate_id_nonempty name id : generate_id stamp pid name = Ret id → id ≠ [].
Proof. unfold generate_id. case_decide; [|done]. intros [= <-]. by destruct stamp, (print_Z pid). Qed.

(** C23: the identity of an added record.  When a record of a class without a
    parser program has passed the checks and adding it succeeds, the record
    that enters the database has one ID, the one that the server generated
    whatever the client sent, and the server's time as its Updated; its other
    pairs are those that the checks left; and the client is told both. *)
Theorem added_record_identity d rec0 rec l0 d' l :
  (∀ r flag r', check_record r flag = (true, r') → same_shape r r') →
  (∀ c, c = rec_class rec0 → parse_program c = None ∧ knows c ($"ID") ∧ knows c ($"Updated")) →
  updated ≠ [] →
  check_add d rec0 = Ret (Accepted rec, l0) → commit d (Add rec) = Ret (true, d', l) →
  ∃ id d1 rec', generate_id stamp pid (aa_name (rec_auth_area rec)) = Ret id ∧
    index_new_record d1 rec' = Ret (true, d') ∧
    attr_values ($"ID") rec' = [Some id] ∧ updated_of rec' = Some updated ∧ contents rec' = contents rec ∧
    l = [print_response RESP_REGISTER ($"ID: " ++ id); print_response RESP_REGISTER ($"Updated: " ++ updated)].
Proof.
  intros Hsame Hclass Hupd Hc Hr. destruct (Hclass _ eq_refl) as (Hp & Hi & Hu).
  unfold check_add, master in Hc. accepted Hc. subst.
  apply delete_attribute_lacks in H1 as [Hl Hcl1].
  match goal with Hv : validated _ = _ |- _ => apply validated_accepted, Hsame in Hv as (Hcl2 & _ & Ha2) end.
  match goal with Ht : transform_guardian_record _ _ _ = _ |- _ => apply transform_same_shape in Ht as (Hcl3 & _ & Ha3) end.
  unfold external_parser in H6. rewrite Hcl3, Hcl2, Hcl1, Hp in H6. accepted H6. injection Hc as ->.
  unfold commit in Hr. apply bind_inv_Ret in Hr as ([[status d1] rec'] & E & Hr).
  apply add_record_spec in E as (id & d2 & Eid & Eix & Vid & Vu & Vc);
    [|unfold lacks; by rewrite Ha3, Ha2|by rewrite Hcl3, Hcl2, Hcl1..].
  destruct status; [|done]. apply bind_inv_Ret in Hr as ([st l'] & Er & [= -> -> ->]).
  exists id, d2, rec'. split_and!; [done..|].
  rewrite print_added with (id := id) (u := updated) in Er;
    [by injection Er as <-|by rewrite <-attr_values_first, Vid|done| |done].
  by eapply generate_id_nonempty.
Qed.
End Register.

(** ** A database in memory *)

Section Memory.
Definition term_holds (t : query_term) (rec : record_struct) : bool :=
  existsb (λ av, match qt_attribute_name t with None => true | Some n => STR_EQ (attr_name (av_attr av)) n end
                 && match comp_type t with
                    | MKDB_PARTIAL_COMPARE => STRN_EQ (search_value t) (default [] (av_value av)) (length (search_value t))
                    | _ => STR_EQ (search_value t) (default [] (av_value av))
                    end) (av_pair_list rec).
Fixpoint and_holds (t : query_term) (rec : record_struct) : bool :=
  term_holds t rec && match and_list t with None => true | Some a => and_holds a rec end.
Fixpoint query_holds (t : query_term) (rec : record_struct) : bool :=
  and_holds t rec || match or_list t with None => false | Some o => query_holds o rec end.
(** every record of the list that the query describes *)
#[local] Instance memory : Database (list record_struct) := {
  db_search d q _ :=
    let hits := match query_tree q with None => [] | Some t => List.filter (query_holds t) d end in
    Ret (Z.of_nat (length hits), SEARCH_SUCCESSFUL, Some hits);
  db_delete d l := Ret (true, filter (λ rec, rec ∉ l) d);
  index_new_record d rec := Ret (true, d ++ [rec]);
  db_update_soa d _ _ := Ret (true, d) }.

Definition key_attr (id : Z) (name : string) : attribute_struct :=
  Attribute id id false true false false false false [] ($name) None INDEX_NONE TYPE_TEXT None.
Definition reg_class : class_struct :=
  Class_ 1 ($"host") [] ($"db") None
    [guard_attr 0 "ID"; guard_attr 1 "Auth-Area"; guard_attr 2 "Class-Name"; guard_attr 3 "Updated";
     guard_attr 4 "Guardian"; key_attr 5 "Host-Name"] None None None.
Definition reg_area : auth_area_struct :=
  AuthArea ($"a.com") (Some (Schema [reg_class] [])) AUTH_AREA_PRIMARY None no_soa None None None None 0 None None.
Definition reg_record (id guardian host : string) : record_struct :=
  Record_ reg_class reg_area 1 0 0
    [demo_pair 0 "ID" id; AvPair (key_attr 5 "Host-Name") (Some $host); demo_pair 3 "Updated" "20260101";
     demo_pair 4 "Guardian" guardian].
Definition reg_attr (s : cstr) : bool := bool_decide (s ∈ [$"ID"; $"UPDATED"; $"HOST-NAME"]).
Definition mine : record_struct := reg_record "h1" "g1.a" "www".
Definition victim : record_struct := reg_record "h2" "g2.a" "mail".
Definition guardian1 : record_struct := demo_guardian "g1.a" "pw" "sesame".
Definition guardian2 : record_struct := demo_guardian "g2.a" "pw" "open".
Definition reg_disk : list record_struct := [mine; victim; guardian1; guardian2].
(** a session that has given the password of the first guardian *)
Definition reg_request : option auth_struct := Some (AuthStruct (Some $"on") (Some $"pw") (Some $"sesame") (Some $"0")).
Definition no_parser : parse_programs := λ _ _ _ _, (2, None).
Definition reg (action : register_action_type) (lines : list string) : outcome (bool * list record_struct * list message) :=
  process_registration [reg_area] (λ _, false) reg_attr 20 (λ _ _, None) [] no_check true reg_request no_parser [] true []
    ($"20260202") 7 ($"20260202") ($"20260203") reg_disk action (Some (text (lit <$> lines))).

(** the answer and the records afterwards *)
Definition answers (r : outcome (bool * list record_struct * list message)) (status : bool)
    (d : list record_struct) (l : list message) : Prop := r = Ret (status, d, l).

(** A deletion can reach records of others.  The ID of the registration goes
    into the text of a query as it is, and only the guardians of the first
    record that the query finds are asked: a client that may not delete the
    record h2 deletes it together with its own record h1 by asking for the
    record with the ID: h1 OR ID=h2. *)
Theorem delete_reaches_others :
  answers (reg DEL ["ID: h2"; "Updated: 20260101"]) false reg_disk [print_error UNAUTH_REGIST []] ∧
  answers (reg DEL ["ID: h1 OR ID=h2"; "Updated: 20260101"]) true [guardian1; guardian2] [].
Proof. unfold answers. split; vm_compute; reflexivity. Qed.

(** an attribute that the class does not have is reported to the client as an
    error, but the record is added without it *)
Theorem invalid_attribute_added :
  ∃ d l, reg ADD ["Auth-Area: a.com"; "Class-Name: host"; "Colour: red"; "Host-Name: ftp"]
         = Ret (true, d, print_error INVALID_ATTRIBUTE ($"Colour") :: l) ∧ length d = 5%nat.
Proof. do 2 eexists. split; vm_compute; reflexivity. Qed.

(** the texts of two primary keys do not fit in the array for the query *)
Theorem primary_key_query_overflows :
  let long c := Some (replicate 260 c) in
  build_primary_key_query (λ _, false) reg_attr
    (Record_ (Class_ 1 ($"host") [] ($"db") None [key_attr 5 "Host-Name"; key_attr 6 "Domain"] None None None) reg_area 0 0 0
       [AvPair (key_attr 5 "Host-Name") (long (chr 97)); AvPair (key_attr 6 "Domain") (long (chr 98))]) = Fault.
Proof. vm_compute. reflexivity. Qed.

Lemma registration_permitted_witness :
  ∃ r l', permitted (λ _, false) reg_attr 20 (λ _ _, None) no_check true reg_request reg_disk r
  ∧ commit ($"20260202") 7 ($"20260202") ($"20260203") reg_disk r = Ret (true, [victim; guardian1; guardian2], l').
Proof.
  destruct (registration_permitted [reg_area] (λ _, false) reg_attr 20 (λ _ _, None) [] no_check true reg_request no_parser []
    true [] ($"20260202") 7 ($"20260202") ($"20260203") reg_disk DEL (Some (text [$"ID: h1"; $"Updated: 20260101"]))
    true [victim; guardian1; guardian2] []) as [[? _]|(r & l' & Hp & Hc)].
  - vm_compute. reflexivity.
  - discriminate.
  - exists r, l'. split; [exact Hp|exact Hc].
Defined.

Definition checked_host : record_struct :=
  Record_ reg_class reg_area 0 0 0 [demo_pair 0 "ID" "mine"; AvPair (key_attr 5 "Host-Name") (Some $"ftp")].
Lemma added_record_identity_witness :
  ∃ id d1 rec', generate_id ($"20260202") 7 ($"a.com") = Ret id ∧
    index_new_record d1 rec' = Ret (true, reg_disk ++ [rec']) ∧ attr_values ($"ID") rec' = [Some id].
Proof.
  set (rec := with_av_pairs [AvPair (key_attr 5 "Host-Name") (Some $"ftp")] checked_host).
  set (rec' := with_av_pairs (av_pair_list rec ++ [demo_pair 0 "ID" "202602027.a.com"; demo_pair 3 "Updated" "20260202"]) rec).
  destruct (added_record_identity [reg_area] (λ _, false) reg_attr (λ _ _, None) [] no_check no_parser []
    true [] ($"20260202") 7 ($"20260202") ($"20260203") reg_disk checked_host rec [] (reg_disk ++ [rec'])
    [print_response RESP_REGISTER ($"ID: 202602027.a.com"); print_response RESP_REGISTER ($"Updated: 20260202")])
    as (id & d1 & rec1 & H1 & H2 & H3 & _).
  - intros r flag r' [= <-]. by split_and!.
  - intros c ->. split; [done|]. split; eexists; split; reflexivity.
  - done.
  - vm_compute. reflexivity.
  - vm_compute. reflexivity.
  - exists id, d1, rec1. split; [exact H1|]. split; [|exact H3].
    pose proof H2 as E. change (Ret (true, d1 ++ [rec1]) = Ret (true, reg_disk ++ [rec'])) in E.
    apply Ret_inj in E. assert (d1 ++ [rec1] = reg_disk ++ [rec']) as [-> ->]%app_inj_tail by congruence. done.
Defined.
End Memory.
