(* ===== verification/RegisterFiles.v ===== *)
(** * Registration on files (index_new_record of server/register.c)

    An added record becomes a data file of its own, which is indexed and
    listed.  With the search of mkdb/search.c, the deletion of mkdb/delete.c
    and the file of the area this implements the database of Register. *)

From S2P Require Import Prelude CLib CString Misc DlList IpNetwork Types Stdio ValidateRec FilePath IndexLine Records.
From S2P Require Import Index FileInfo IndexSort IndexFiles Delete Search Query QueryText Guardian Checks RegUtils Register DataFile.
Local Open Scope Z_scope.

Section RegisterFiles.
(** the configuration *)
Context (regexec : cstr → cstr → bool) (metaphone : cstr → cstr) (ni0 : netinfo) (check_record : record_check).
Context (areas : list auth_area_struct) (class_refs : list class_ref_struct) (root_dir : option cstr).
(** the system: uninitialised arrays, sort, mktemp, fopen, locks, make_timestamp *)
Context (file_path buf0 : buf) (run_sort : list cstr → option (list cstr)) (mktemp : cstr → cstr)
        (fopen_ok : cstr → bool) (lock_first lock_second : bool) (stamp : cstr).
(** write_soa_file for the area with this serial number *)
Context (write_soa : filesystem → auth_area_struct → cstr → bool * filesystem).

(** create_filename with the template of data files, in an array of MAX_FILE *)
Definition create_filename (spool_directory : cstr) : outcome cstr :=
  let fname := spool_directory ++ SLASH :: stamp ++ $".XXXXXX" in
  if decide (Z.of_nat (length fname) < MAX_FILE) then Ret (mktemp fname) else Fault.

Definition index_new_record_file (fs : filesystem) (rec : record_struct) : outcome (bool * filesystem) :=
  let c := rec_class rec in
  store_fname ← create_filename (db_dir c);
  let '(status, index_file_list) := build_index_list mktemp c (Some $"addind") [] in
  if negb status then Ret (false, fs)
  else
    let store_fname := store_fname ++ $".txt" in
    if decide (Z.of_nat (length store_fname) < MAX_FILE) then
      if negb (fopen_ok store_fname) then Ret (false, fs)
      else
        t ← mkdb_write_record rec;
        let fs := upd fs store_fname (Some (default [] (fs store_fname) ++ t)) in
        file_ptr ← of_option (build_base_file_struct fs store_fname MKDB_DATA_FILE 1);
        index_files regexec metaphone ni0 fopen_ok check_record run_sort root_dir file_path lock_first lock_second
          fs c (rec_auth_area rec) index_file_list [file_ptr] val_flag false
    else Fault.

#[local] Instance files_database : Database filesystem := {
  db_search fs query max_hits :=
    search fs check_record regexec metaphone ni0 buf0 (Some areas) class_refs (Some query) (Some []) max_hits;
  db_delete fs l := mkdb_delete_record_list root_dir file_path lock_second fs l;
  index_new_record := index_new_record_file;
  db_update_soa fs aa updated := Ret (write_soa fs aa updated) }.

(** ** The data file of a new record *)

(** reading a record that ends with the file, and then the end *)
Lemma read_last_record c aa no flag avs :
  full_record c avs →
  let rec := Record_ c aa no 0 0 avs in
  flag = 0 ∨ check_record rec flag = (true, rec) →
  mkdb_read_next_record check_record c aa no flag (record_text avs) 0
  = Ret (Some rec, REC_OK, length (record_text avs)) ∧
  mkdb_read_next_record check_record c aa no flag (record_text avs) (length (record_text avs))
  = Ret (None, REC_EOF, length (record_text avs)).
Proof.
  intros (Hne & Hav & Haa & Hcl) rec Hcheck. set (f := record_text avs).
  assert (length avs ≤ length f)%nat as Hlen.
  { unfold f, record_text. rewrite <-(length_fmap av_line avs) at 1. apply text_length. }
  assert (readline f (length f) MAX_LINE = None) as Hend by (unfold readline, fgets; by rewrite drop_all).
  unfold mkdb_read_next_record. cbn [read_next_loop]. unfold mkdb_read_record, mkdb_read_anon_record. split.
  - pose proof (read_record_loop c avs (S (length f)) [] [] [] Hav ltac:(lia)) as E.
    rewrite app_nil_r in E. cbn [app length] in E. fold f in E. rewrite E, app_nil_r.
    destruct (S (length f) - length avs)%nat as [|fuel] eqn:Ef; [lia|]. cbn [read_anon_loop]. rewrite Hend.
    cbn [mbind outcome_bind]. destruct (reverse (anon_of <$> avs)) as [|a l] eqn:El.
    { apply (f_equal length) in El. rewrite length_reverse, length_fmap in El. by destruct avs. }
    rewrite <-El, reverse_involutive. cbn [mbind outcome_bind].
    assert (mkdb_translate_anon_record (AnonRecord no (Z.of_nat 0) (anon_of <$> avs)) c aa flag = rec) as ->
      by (by apply translate_full).
    destruct Hcheck as [-> | ->]; [done|]. by destruct (flag =? 0).
  - destruct (length f) as [|n] eqn:En; [destruct avs; [done|cbn in Hlen; lia]|].
    cbn [read_anon_loop]. by rewrite Hend.
Qed.

(** C25: the data file of a new record.  For a record of plain pairs that names its
    area and class, index_new_record writes a file of its own and has it indexed;
    what a reader finds in that file is the record, and nothing behind it. *)
Theorem new_record_stored fs rec base files no :
  let c := rec_class rec in
  let name := base ++ $".txt" in
  let t := record_text (av_pair_list rec) in
  full_record c (av_pair_list rec) → check_record (Record_ c (rec_auth_area rec) no 0 0 (av_pair_list rec)) val_flag
                                     = (true, Record_ c (rec_auth_area rec) no 0 0 (av_pair_list rec)) →
  create_filename (db_dir c) = Ret base → Z.of_nat (length name) < MAX_FILE → fopen_ok name = true → fs name = None →
  build_index_list mktemp c (Some $"addind") [] = (true, files) →
  let fs1 := upd fs name (Some t) in
  index_new_record_file fs rec
  = index_files regexec metaphone ni0 fopen_ok check_record run_sort root_dir file_path lock_first lock_second
      fs1 c (rec_auth_area rec) files [File MKDB_DATA_FILE name 0 (Z.of_nat (length t)) 1 false None] val_flag false ∧
  mkdb_read_next_record check_record c (rec_auth_area rec) no val_flag t 0
  = Ret (Some (Record_ c (rec_auth_area rec) no 0 0 (av_pair_list rec)), REC_OK, length t) ∧
  mkdb_read_next_record check_record c (rec_auth_area rec) no val_flag t (length t) = Ret (None, REC_EOF, length t).
Proof.
  intros c name t Hf Hc Hn Hlen Hop Hnew Hix fs1.
  split; [|apply read_last_record; [done|by right]].
  unfold index_new_record_file. fold c. rewrite Hn. cbn [mbind outcome_bind]. rewrite Hix. cbn [negb].
  fold name. rewrite decide_True, Hop by done. cbn [negb].
  assert (mkdb_write_record rec = Ret t) as -> by (destruct Hf as (_ & Hav & _); by eapply write_loop_plain).
  cbn [mbind outcome_bind]. rewrite Hnew. cbn [default app]. fold fs1.
  unfold build_base_file_struct. by rewrite (upd_same fs name (Some t) : fs1 name = Some t).
Qed.

(** A new record counts twice.  index_new_record says that its data file has
    one record, and index_data_file adds those that it reads, so the file is
    listed with two. *)
Theorem new_record_counted_twice fs c aa no name size avs files n files' :
  full_record c avs → fs name = Some (record_text avs) →
  check_record (Record_ c aa no 0 0 avs) val_flag = (true, Record_ c aa no 0 0 avs) →
  index_record regexec metaphone ni0 fopen_ok (Record_ c aa no 0 0 avs) aa files = Ret (n, true, files') →
  index_data_file regexec metaphone ni0 fopen_ok check_record fs c aa (File MKDB_DATA_FILE name no size 1 true None) files val_flag
  = Ret (n, true, File MKDB_DATA_FILE name no size 2 true None, files').
Proof.
  intros Hf Hfs Hc Hi. destruct (read_last_record c aa no val_flag avs Hf (or_intror Hc)) as [R1 R2].
  unfold index_data_file. cbn [filename file_no]. rewrite Hfs.
  assert (∃ k, S (length (record_text avs)) = S (S k)) as [k ->].
  { destruct Hf as (Hne & _). exists (length (record_text avs) - 1)%nat.
    destruct avs as [|av avs]; [done|]. unfold record_text. rewrite fmap_cons, text_cons, length_app. cbn. lia. }
  cbn [index_data_loop]. rewrite R1. cbn [mbind outcome_bind]. rewrite Hi. cbn [mbind outcome_bind negb].
  rewrite R2. by rewrite Z.add_0_l.
Qed.
End RegisterFiles.

(** ** A run on a small disk *)

Definition added : record_struct := Record_ demo_class demo_aa 0 0 0 demo_pairs.
Definition added_index : list index_fp_struct := (build_index_list (λ s, s) demo_class (Some $"addind") []).2.
Definition added_files : list index_fp_struct :=
  match index_record (λ _ _, true) (λ w, w) demo_ni (λ _, true) added demo_aa added_index with
  | Ret (_, _, f) => f | _ => []
  end.

Lemma new_record_stored_witness :
  let t := record_text demo_pairs in
  index_new_record_file (λ _ _, true) (λ w, w) demo_ni no_check (Some []) path_array (sort_lines OLD_STYLE_SORT)
    (λ s, s) (λ _, true) true true ($"2026") (λ _, None) added
  = index_files (λ _ _, true) (λ w, w) demo_ni (λ _, true) no_check (sort_lines OLD_STYLE_SORT) (Some []) path_array true true
      (upd (λ _, None) ($"db/2026.XXXXXX.txt") (Some t)) demo_class demo_aa added_index
      [File MKDB_DATA_FILE ($"db/2026.XXXXXX.txt") 0 (Z.of_nat (length t)) 1 false None] val_flag false ∧
  mkdb_read_next_record no_check demo_class demo_aa 0 val_flag t 0 = Ret (Some added, REC_OK, length t) ∧
  mkdb_read_next_record no_check demo_class demo_aa 0 val_flag t (length t) = Ret (None, REC_EOF, length t).
Proof.
  intros t. apply (new_record_stored (λ _ _, true) (λ w, w) demo_ni no_check (Some []) path_array (sort_lines OLD_STYLE_SORT)
    (λ s, s) (λ _, true) true true ($"2026") (λ _, None) added ($"db/2026.XXXXXX") added_index 0);
    [apply demo_full_record|done|vm_compute; reflexivity..].
Defined.

Lemma new_record_counted_twice_witness :
  index_data_file (λ _ _, true) (λ w, w) demo_ni (λ _, true) no_check
    (upd (λ _, None) ($"d.txt") (Some (record_text demo_pairs))) demo_class demo_aa
    (File MKDB_DATA_FILE ($"d.txt") 0 48 1 true None) added_index val_flag
  = Ret (3, true, File MKDB_DATA_FILE ($"d.txt") 0 48 2 true None, added_files).
Proof.
  apply (new_record_counted_twice (λ _ _, true) (λ w, w) demo_ni no_check (λ _, true) _ demo_class demo_aa 0 _ 48 demo_pairs);
    [apply demo_full_record|vm_compute; reflexivity..].
Defined.
