(* ===== verification/Session.v ===== *)
(** * Sessions (server/session.c, state.c, security_directive.c, limit.c,
      register_directive.c, holdconnect.c, forward.c)

    A client sends lines; each is a directive, a line of a registration while
    one is being spooled, or a query.  The state of a session is what these
    functions keep in static variables: the state machine of -register with its
    spool file, the credentials of -security, and the settings.  The database
    is that of Register. *)

From S2P Require Import Prelude CLib CString Misc DlList IpNetwork Types ClientMsgs Checks Stdio ValidateRec Records.
From S2P Require Import Search Query QueryText FileInfo ConfigFile Directives Guardian RegUtils Register Answers.
Local Open Scope Z_scope.

(** ** The state *)

Inductive rwhois_state_type := QUERY_STATE | SPOOL_STATE.
#[export] Instance rwhois_state_type_eq : EqDecision rwhois_state_type.
Proof. solve_decision. Defined.

(** The static pointer to the credentials: null, to a live struct, whose mode
    may have been freed, or to one that has been freed. *)
Inductive auth_ptr := AuthNull | AuthLive (a : auth_struct) (mode_freed : bool) | AuthFreed.
Definition get_request_auth_struct (p : auth_ptr) : option auth_struct :=
  match p with AuthLive a _ => Some a | _ => None end.

(** [spool_file]: the text of the file with the name of the spool file, if it
    exists; [spool_fp]: whether it is open *)
Record session D := Session {
  db : D;
  state : rwhois_state_type; spool_file : option cstr; spool_fp : bool;
  spool_dir_exists : bool;
  secure_mode : bool; request : auth_ptr;
  client_vendor_id : cstr; register_email : cstr; register_action : register_action_type;
  hit_limit : Z; holdconnect : bool; forward : bool; display : cstr }.
Arguments Session {D}.
Arguments db {D}. Arguments state {D}. Arguments spool_file {D}. Arguments spool_fp {D}.
Arguments spool_dir_exists {D}. Arguments secure_mode {D}. Arguments request {D}. Arguments client_vendor_id {D}.
Arguments register_email {D}. Arguments register_action {D}. Arguments hit_limit {D}. Arguments holdconnect {D}.
Arguments forward {D}. Arguments display {D}.

Section Setters.
Context {D : Type}.
Definition with_db (d : D) (s : session D) := Session d (state s) (spool_file s) (spool_fp s) (spool_dir_exists s) (secure_mode s) (request s)
  (client_vendor_id s) (register_email s) (register_action s) (hit_limit s) (holdconnect s) (forward s) (display s).
Definition with_spool st file fp dir (s : session D) := Session (db s) st file fp dir (secure_mode s) (request s)
  (client_vendor_id s) (register_email s) (register_action s) (hit_limit s) (holdconnect s) (forward s) (display s).
Definition with_security mode req (s : session D) := Session (db s) (state s) (spool_file s) (spool_fp s) (spool_dir_exists s) mode req
  (client_vendor_id s) (register_email s) (register_action s) (hit_limit s) (holdconnect s) (forward s) (display s).
Definition with_register email action (s : session D) := Session (db s) (state s) (spool_file s) (spool_fp s) (spool_dir_exists s)
  (secure_mode s) (request s) (client_vendor_id s) email action (hit_limit s) (holdconnect s) (forward s) (display s).
Definition with_settings id limit hold fwd mode (s : session D) := Session (db s) (state s) (spool_file s) (spool_fp s)
  (spool_dir_exists s) (secure_mode s) (request s) id (register_email s) (register_action s) limit hold fwd mode.
End Setters.

(** init_server_state and the zeroed statics *)
Definition new_session {D} (d : D) (dir_exists : bool) : session D :=
  Session d QUERY_STATE None false dir_exists false AuthNull [] [] UNKNOWN_ACTION 20 false false ($"DUMP").

(** ** -security (security_directive.c) *)

Record security_arg_struct := SecurityArgs {
  sa_mode : cstr; sa_direction : option cstr; sa_scheme : option cstr; sa_data_list : list cstr }.

Definition security_parse_args (str : cstr) : check security_arg_struct :=
  _ ← require (bool_decide (str ≠ [])) [];
  argv ← arguments str;
  match argv with
  | [] => reject []
  | mode :: argv =>
      _ ← require (STR_EQ mode ($"off") || STR_EQ mode ($"on")) [];
      if STR_EQ mode ($"off") then pass (SecurityArgs mode None None [])
      else
        match argv with
        | direction :: scheme :: data =>
            _ ← require (STR_EQ direction ($"request") || STR_EQ direction ($"response")) [];
            scheme ← (if STR_EQ scheme ($"pw") || STR_EQ scheme ($"password") || STR_EQ scheme ($"passwd")
                      then pass ($"pw")
                      else _ ← require (STR_EQ scheme ($"crypt-pw")) [print_error INVALID_SECURITY []]; pass scheme);
            pass (SecurityArgs mode (Some direction) (Some scheme)
                    (DL.elems (foldl (λ z x, DL.z_insert x z) None data)))
        | _ => reject []
        end
  end.

(** The credentials; [None] when the function fails, and has freed the mode
    that it shares with its argument. *)
Definition security_store_auth (prs : security_arg_struct) : outcome (option auth_struct) :=
  scheme ← of_option (sa_scheme prs);
  direction ← of_option (sa_direction prs);
  if STR_EQ scheme ($"pw") || STR_EQ scheme ($"crypt-pw") then
    if STR_EQ direction ($"response") then Ret None
    else
      match sa_data_list prs with
      | [] => Ret None
      | info :: _ => Ret (Some (AuthStruct (Some (sa_mode prs)) (Some scheme) (Some info) (Some $"auth")))
      end
  else Ret None.

(** The mode of the arguments is freed behind each call, with the mode of the
    credentials, which is the same string; the credentials of the responses are
    always null, since storing them fails. *)
Definition run_security_directive {D} (str : cstr) (s : session D) : outcome (bool * session D * list message) :=
  '(prs, l) ← security_parse_args str;
  match prs with
  | Rejected _ => Ret (false, s, l ++ invalid_param)
  | Accepted prs =>
      if STR_EQ (sa_mode prs) ($"off") then
        match request s with
        | AuthNull => Ret (false, s, l ++ invalid_param)
        | AuthLive _ false => Ret (true, with_security false AuthFreed s, l)
        | AuthLive _ true | AuthFreed => Fault
        end
      else
        auth ← security_store_auth prs;
        auth ← of_option auth;
        Ret (true, with_security true (AuthLive auth true) s, l)
  end.

(** ** -limit (limit.c), -holdconnect, -forward *)

Definition limit_directive_hits (ceiling : Z) (str : cstr) : check Z :=
  argv ← arguments str;
  match argv with
  | [v] =>
      let hits := atoi v in
      _ ← require (((ceiling =? 0) && (0 <=? hits)) || ((0 <? ceiling) && (0 <? hits) && (hits <=? ceiling)))
                  [print_error INVALID_LIMIT []];
      pass hits
  | _ => reject invalid_param
  end.

(** set_holdconnect and set_forward *)
Definition set_flag (val : cstr) : check bool :=
  if STR_EQ val ($"OFF") then pass false else if STR_EQ val ($"ON") then pass true else reject invalid_param.

(** ** The server *)

(** what the system and the clock give while one line is served: the array of
    run_session before the line is read, the results of mkdir, create_filename
    and fopen for the spool file, and what a registration uses *)
Record moment := Moment {
  array : buf; mkdir_ok : bool; spool_name_ok : bool; spool_fopen_ok : bool;
  salt : cstr; tmp_fname : cstr; tmp_ok : bool; stamp : cstr; pid : Z; updated : cstr; updated' : cstr }.

Inductive directive_status := D_FALSE | D_TRUE | D_QUIT.
#[export] Instance directive_status_eq : EqDecision directive_status.
Proof. solve_decision. Defined.
Definition to_status (b : bool) : directive_status := if b then D_TRUE else D_FALSE.

Section Server.
Context {D : Type} `{Database D}.
(** the configuration: the areas, the attribute and class names of the lexer,
    limits, the spool directory, and whether it is a file *)
Context (areas : list auth_area_struct) (is_class is_attr : cstr → bool) (max_hits_ceiling : Z).
Context (allow_wild allow_substr skip_referral_search : bool) (directives : directive_list).
Context (spool_dir : option cstr) (spool_dir_is_file : bool) (hostname server_version server_contact : cstr).
(** the functions of the system and of libraries: crypt, regexec with
    EMAIL_REGEXP, programs, tcp wrappers *)
Context (crypt : cstr → cstr → option cstr) (valid_registration_email_address : cstr → bool).
Context (run_env_program : parse_programs) (run_program : cstr → cstr → Z * cstr) (authorized : cstr → bool).
(** the validation of records, the referrals of a query, the number of records,
    -soa and -xfer *)
Context (check_record : record_check) (refer_query : D → query_struct → outcome (bool * list message)).
Context (rec_num : D → Z) (other_directive : directive_function → D → cstr → outcome (bool * list message)).

Implicit Types (s : session D) (m : moment).

(** ** -register (register_directive.c, state.c) *)

(** the file is created when it is not open *)
Definition open_spool_file m s : option (session D) :=
  if spool_fp s then Some s
  else if spool_fopen_ok m then Some (with_spool (state s) (Some []) true (spool_dir_exists s) s) else None.

(** the action and the email address *)
Definition handle_registration_header (argv : list cstr) : check (cstr * cstr) :=
  match argv with
  | action :: email :: _ =>
      _ ← require (bool_decide (translate_action_str action ≠ UNKNOWN_ACTION)) invalid_param;
      _ ← require (bool_decide (email ≠ []) && valid_registration_email_address email) invalid_param;
      pass (action, email)
  | _ => reject invalid_param
  end.

(** mkdir gives 0 when it succeeds, which is taken for a failure *)
Definition register_on m (argv : list cstr) s : outcome (bool * session D * list message) :=
  if decide (state s = SPOOL_STATE) then Ret (false, s, [print_error INVALID_DIRECTIVE []])
  else
    match spool_dir with
    | Some (_ :: _) =>
        '(r, l) ← handle_registration_header argv;
        match r with
        | Rejected _ => Ret (false, s, l)
        | Accepted (action, email) =>
            let s := with_register email (translate_action_str action) s in
            let failed s := Ret (false, s, [print_error UNIDENT_ERROR []]) in
            if negb (spool_dir_exists s) && spool_dir_is_file then failed s
            else if negb (spool_dir_exists s) && mkdir_ok m then
              failed (with_spool (state s) (spool_file s) (spool_fp s) true s)
            else if negb (spool_name_ok m) then failed s
            else
              let s := with_spool (state s) None (spool_fp s) (spool_dir_exists s) s in
              match open_spool_file m s with
              | None => failed s
              | Some s => Ret (true, with_spool SPOOL_STATE (spool_file s) (spool_fp s) (spool_dir_exists s) s, [])
              end
        end
    | _ => Ret (false, s, [print_error INVALID_DIRECTIVE []])
    end.

Definition register_off m s : outcome (bool * session D * list message) :=
  if decide (state s = SPOOL_STATE) then
    let s := with_spool QUERY_STATE (spool_file s) false (spool_dir_exists s) s in
    match spool_file s with
    | None => Ret (false, s, [print_error UNIDENT_ERROR ($"spool file missing")])
    | Some _ =>
        '(status, d, l) ← process_registration areas is_class is_attr max_hits_ceiling crypt (salt m) check_record
                            (secure_mode s) (get_request_auth_struct (request s)) run_env_program (tmp_fname m) (tmp_ok m)
                            (register_email s) (stamp m) (pid m) (updated m) (updated' m)
                            (db s) (register_action s) (spool_file s);
        Ret (status, with_db d s, l)
    end
  else Ret (false, s, invalid_param).

Definition run_register_directive m (str : cstr) s : outcome (bool * session D * list message) :=
  argv ← split_args (Some str);
  match default [] argv with
  | [] => Ret (false, s, invalid_param)
  | word :: argv =>
      if STR_EQ word ($"ON") then register_on m argv s
      else if STR_EQ word ($"OFF") then register_off m s
      else Ret (false, s, invalid_param)
  end.

(** ** Directives *)

(** a directive that changes the session only when it succeeds *)
Definition answer {A} (x : check A) (f : A → session D) s : outcome (directive_status * session D * list message) :=
  '(r, l) ← x;
  Ret (match r with Accepted a => (D_TRUE, f a, l) | Rejected _ => (D_FALSE, s, l) end).
Definition changed (x : outcome (bool * session D * list message)) :
    outcome (directive_status * session D * list message) :=
  '(b, s, l) ← x; Ret (to_status b, s, l).

Definition call m (f : directive_function) (str : cstr) s : outcome (directive_status * session D * list message) :=
  let set id limit hold fwd mode := with_settings id limit hold fwd mode s in
  match f with
  | class_directive => answer (run_class_directive areas str) (λ _, s) s
  | directive_directive => answer (run_directive_directive directives str) (λ _, s) s
  | display_directive =>
      answer (run_display_directive (display s) str)
             (λ mode, set (client_vendor_id s) (hit_limit s) (holdconnect s) (forward s) mode) s
  | forward_directive =>
      answer (set_flag str) (λ b, set (client_vendor_id s) (hit_limit s) (holdconnect s) b (display s)) s
  | holdconnect_directive =>
      answer (set_flag str) (λ b, set (client_vendor_id s) (hit_limit s) b (forward s) (display s)) s
  | limit_directive =>
      answer (limit_directive_hits max_hits_ceiling str)
             (λ hits, set (client_vendor_id s) hits (holdconnect s) (forward s) (display s)) s
  | security_directive => changed (run_security_directive str s)
  | notify_directive => answer (run_notify_directive str) (λ _, s) s
  | quit_directive => Ret (D_QUIT, s, [print_ok])
  | register_directive => changed (run_register_directive m str s)
  | rwhois_directive =>
      answer (run_rwhois_directive hostname server_version directives str)
             (λ impl, match impl with
                      | Some ((_ :: _) as id) => set id (hit_limit s) (holdconnect s) (forward s) (display s)
                      | _ => s
                      end) s
  | schema_directive => answer (run_schema_directive areas str) (λ _, s) s
  | status_directive =>
      answer (run_status_directive (hit_limit s) (holdconnect s) (forward s) (rec_num (db s)) (display s) server_contact str)
             (λ _, s) s
  | soa_directive | xfer_directive => '(b, l) ← other_directive f (db s) str; Ret (to_status b, s, l)
  end.

Definition run_line m (b : buf) s : outcome (directive_status * session D * list message) :=
  d ← run_directive authorized directives b;
  match d with
  | Call f value => call m f value s
  | Run program value =>
      let '(status, text) := run_program program value in
      Ret (to_status (status =? 0), s, [program_output text])
  | Refuse code => Ret (D_FALSE, s, [print_error code []])
  end.

(** ** Queries (session.c) *)

(** the guardian check of the session *)
Definition session_guardian s (rec : record_struct) : outcome bool :=
  check_guardian (db_search (db s)) is_class is_attr crypt (secure_mode s) (get_request_auth_struct (request s)) rec.

(** the class name of a query with an area is compared even when it is null *)
Definition wants_referrals (query : query_struct) : outcome bool :=
  if skip_referral_search then Ret false
  else
    match q_auth_area_name query with
    | Some (_ :: _) => c ← of_option (q_class_name query); Ret (negb (STR_EQ c ($"Referral")))
    | _ => Ret true
    end.

Definition run_query (str : cstr) s : outcome (list message) :=
  match str with
  | [] => Ret [print_error INVALID_QUERY_SYNTAX []]
  | _ =>
      query ← parse_line_query is_class is_attr str;
      match query with
      | None => Ret [print_error INVALID_QUERY_SYNTAX []]
      | Some query =>
          if negb (check_query_complexity allow_wild allow_substr (Some query))
          then Ret (match query_tree query with None => [] | Some _ => [print_error QUERY_TOO_COMPLEX []] end)
          else
            '(_, ret_code, record_list) ← db_search (db s) query (hit_limit s);
            let records := default [] record_list in
            ms ← display_records (session_guardian s) records;
            wants ← wants_referrals query;
            '(referred, rs) ← (if wants : bool then refer_query (db s) query else Ret (false, []));
            Ret (ms ++ rs
                 ++ [match ret_code with
                     | SEARCH_SUCCESSFUL =>
                         if bool_decide (records ≠ []) || referred then print_ok else print_error NO_OBJECTS_FOUND []
                     | HIT_LIMIT_EXCEEDED => print_error EXCEEDED_MAXOBJ []
                     | _ => print_error UNIDENT_ERROR []
                     end])
      end
  end.

(** ** Lines *)

(** whether the session goes on *)
Definition processline m (b : buf) s : outcome (bool * session D * list message) :=
  c ← rd b 0;
  if c =c NUL then Ret (true, s, [])
  else
    b ← trim (Some b);
    b ← of_option b;
    n ← strlen b;
    let str := take n b in
    if is_directive str then
      '(status, s, l) ← run_line m b s;
      Ret (match status with
           | D_TRUE => (true, s, l ++ [print_ok])
           | D_FALSE => (true, s, l)
           | D_QUIT => (false, s, l)
           end)
    else if decide (state s = SPOOL_STATE) then
      Ret (match open_spool_file m s with
           | None => (true, s, [])
           | Some s =>
               (true, with_spool (state s) (Some (default [] (spool_file s) ++ str ++ [NL])) (spool_fp s)
                        (spool_dir_exists s) s, [])
           end)
    else ms ← run_query str s; Ret (holdconnect s, s, ms).

(** readline on the array, which keeps what it held behind the line *)
Definition read_target (b : buf) (raw : cstr) : outcome buf :=
  b ← strip_control (Some (raw ++ NUL :: drop (S (length raw)) b));
  b ← trim b;
  of_option b.

(** one turn of the loop of run_session *)
Definition serve m (raw : cstr) s : outcome (bool * session D * list message) :=
  b ← read_target (array m) raw; processline m b s.

(** the session after the input [f] from the position on, and what is printed;
    [clock] gives the moments of its lines *)
Fixpoint session_loop (fuel : nat) (clock : nat → moment) (f : cstr) (pos n : nat) s : outcome (session D * cstr) :=
  match fuel with
  | O => NoFuel
  | S fuel =>
      match fgets f pos MAX_LINE with
      | None => Ret (s, [])
      | Some (raw, pos) =>
          '(not_finished, s, l) ← serve (clock n) raw s;
          let out := print_messages false l in
          if not_finished : bool then '(s, out') ← session_loop fuel clock f pos (S n) s; Ret (s, out ++ out')
          else Ret (s, out)
      end
  end.
Definition run_session (real_flag : bool) (clock : nat → moment) (f : cstr) s : outcome (session D * cstr) :=
  header ← print_welcome_header hostname server_version directives;
  if negb real_flag then
    Ret (s, print_messages false (header ++ [print_error SERVICE_NOT_AVAIL ($"exceeded max client sessions")]))
  else
    '(s, out) ← session_loop (S (length f)) clock f 0 0 s;
    Ret (s, print_messages false header ++ out).

(** ** What holds of every session *)

Inductive reachable : session D → Prop :=
| reachable_new d dir_exists : reachable (new_session d dir_exists)
| reachable_serve m raw s s' b l : reachable s → serve m raw s = Ret (b, s', l) → reachable s'.

(** credentials that can be compared: nothing in them is null *)
Definition complete (a : auth_struct) : Prop :=
  ∃ mode scheme info, a = AuthStruct (Some mode) (Some scheme) (Some info) (Some $"auth")
    ∧ (STR_EQ scheme ($"pw") = true ∨ STR_EQ scheme ($"crypt-pw") = true).
(** a limit that -limit accepts *)
Definition limit_allowed (hits : Z) : Prop := (max_hits_ceiling = 0 ∧ 0 ≤ hits) ∨ 0 < hits ≤ max_hits_ceiling.

(** what a registration that is carried out in the session may do *)
Definition session_permitted s (r : registration) : Prop :=
  permitted is_class is_attr max_hits_ceiling crypt check_record (secure_mode s)
    (get_request_auth_struct (request s)) (db s) r.
Definition session_commit m s (r : registration) : outcome (bool * D * list message) :=
  commit (stamp m) (pid m) (updated m) (updated' m) (db s) r.

(** The session as a state machine: everything that a line can do to it. *)
Inductive transition m s : session D → Prop :=
| keeps : transition m s s
| sets id limit hold fwd mode : limit = hit_limit s ∨ limit_allowed limit →
    transition m s (with_settings id limit hold fwd mode s)
| authenticates a : complete a → transition m s (with_security true (AuthLive a true) s)
| starts email action dir : state s = QUERY_STATE →
    transition m s (with_register email action (with_spool SPOOL_STATE (Some []) true dir s))
| start_fails email action file dir : state s = QUERY_STATE →
    transition m s (with_register email action (with_spool QUERY_STATE file false dir s))
| spools line : state s = SPOOL_STATE →
    transition m s (with_spool SPOOL_STATE (Some (default [] (spool_file s) ++ line ++ [NL])) true (spool_dir_exists s) s)
| registers t d : state s = SPOOL_STATE → spool_file s = Some t →
    (d = db s ∨ ∃ r status l, session_permitted s r ∧ session_commit m s r = Ret (status, d, l)) →
    transition m s (with_db d (with_spool QUERY_STATE (Some t) false (spool_dir_exists s) s)).

(** what ties the parts of the state together *)
Record consistent s : Prop := {
  spooling : state s = SPOOL_STATE ↔ spool_fp s = true;
  spool_there : spool_fp s = true → spool_file s ≠ None;
  secured : match request s with AuthNull => secure_mode s = false
                               | AuthLive a freed => secure_mode s = true ∧ freed = true ∧ complete a
                               | AuthFreed => False
                               end;
  limited : hit_limit s = 20 ∨ limit_allowed (hit_limit s) }.

Lemma consistent_new d dir_exists : consistent (new_session d dir_exists).
Proof. by split; [..|left]. Qed.

Lemma transition_consistent m s s' : transition m s s' → consistent s → consistent s'.
Proof.
  intros Ht Hs. destruct Hs as [H1 H2 H3 H4]. destruct Ht; split; cbn; try done; try naive_solver.
Qed.

(** ** Lines are transitions *)

Lemma limit_directive_bounds str hits l :
  limit_directive_hits max_hits_ceiling str = Ret (Accepted hits, l) → limit_allowed hits.
Proof.
  unfold limit_directive_hits, limit_allowed. intros Hx. accepted Hx. destruct x as [|v [|]]; [done| |done]. accepted Hx. subst.
  apply orb_true_iff in H1 as [H1|H1]; rewrite !andb_true_iff in H1; lia.
Qed.

Lemma store_auth_complete prs a : security_store_auth prs = Ret (Some a) → complete a.
Proof.
  unfold security_store_auth. intros Hx. apply bind_inv_Ret in Hx as (scheme & _ & Hx).
  apply bind_inv_Ret in Hx as (direction & _ & Hx).
  destruct (STR_EQ scheme ($"pw") || STR_EQ scheme ($"crypt-pw")) eqn:E; [|done]. apply orb_true_iff in E.
  destruct (STR_EQ direction _); [done|]. destruct (sa_data_list prs) as [|info r]; [done|].
  injection Hx as <-. by eexists _, _, _.
Qed.

Lemma security_transition m str s b s' l :
  consistent s → run_security_directive str s = Ret (b, s', l) → transition m s s'.
Proof.
  intros Hs Hx. unfold run_security_directive in Hx. apply bind_inv_Ret in Hx as ([[prs|] l1] & _ & Hx);
    [|injection Hx as _ <- _; constructor].
  destruct (STR_EQ _ _).
  - pose proof (secured _ Hs) as Hr. destruct (request s) as [|a freed|]; [injection Hx as _ <- _; constructor| |done].
    by destruct Hr as (_ & -> & _).
  - apply bind_inv_Ret in Hx as ([a|] & Ha & Hx); [|done]. injection Hx as _ <- _.
    constructor. by eapply store_auth_complete.
Qed.

Lemma querying s : consistent s → state s ≠ SPOOL_STATE → state s = QUERY_STATE ∧ spool_fp s = false.
Proof.
  intros [H1 _ _ _] Hs. split; [by destruct (state s)|]. destruct (spool_fp s); [|done]. destruct Hs. by apply H1.
Qed.

Lemma register_on_transition m argv s b s' l :
  consistent s → register_on m argv s = Ret (b, s', l) → transition m s s'.
Proof.
  intros Hs Hx. unfold register_on in Hx. destruct (decide _) as [|Hq]; [injection Hx as _ <- _; constructor|].
  apply (querying _ Hs) in Hq as [Hq Hfp].
  destruct spool_dir as [[|c dir]|]; [injection Hx as _ <- _; constructor| |injection Hx as _ <- _; constructor].
  apply bind_inv_Ret in Hx as ([[[action email]|] l1] & _ & Hx); [|injection Hx as _ <- _; constructor].
  destruct s as [d st file fp dirx sm rq id em ac lim hc fw di]. cbn in Hq, Hfp. subst st fp.
  assert (∀ x file' dir', x = with_register email (translate_action_str action)
      (with_spool QUERY_STATE file' false dir' (Session d QUERY_STATE file false dirx sm rq id em ac lim hc fw di)) →
    transition m (Session d QUERY_STATE file false dirx sm rq id em ac lim hc fw di) x) as Hf.
  { intros x file' dir' ->. by apply start_fails. }
  cbn in Hx. destruct (negb dirx && spool_dir_is_file); [injection Hx as _ <- _; by eapply Hf|].
  destruct (negb dirx && mkdir_ok m); [injection Hx as _ <- _; by eapply Hf|].
  destruct (negb (spool_name_ok m)); [injection Hx as _ <- _; by eapply Hf|].
  unfold open_spool_file in Hx. cbn in Hx. destruct (spool_fopen_ok m); cbn in Hx; injection Hx as _ <- _.
  - by apply (starts m _ email (translate_action_str action) dirx).
  - by eapply Hf.
Qed.

Lemma register_off_transition m s b s' l :
  consistent s → register_off m s = Ret (b, s', l) → transition m s s'.
Proof.
  intros Hs Hx. unfold register_off in Hx. destruct (decide _) as [Hp|]; [|injection Hx as _ <- _; constructor].
  pose proof (spool_there _ Hs (proj1 (spooling _ Hs) Hp)) as Ht. cbn in Hx.
  destruct (spool_file s) as [t|] eqn:Et; [|done]. apply bind_inv_Ret in Hx as ([[st d] l1] & Hx & [= _ <- _]).
  apply registers; [done|done|]. apply registration_permitted in Hx as [[_ ->]|(r & l' & Hr & Hc)]; [by left|].
  right. by exists r, st, l'.
Qed.

Lemma register_transition m str s b s' l :
  consistent s → run_register_directive m str s = Ret (b, s', l) → transition m s s'.
Proof.
  intros Hs Hx. unfold run_register_directive in Hx. apply bind_inv_Ret in Hx as (argv & _ & Hx).
  destruct (default [] argv) as [|w ws]; [injection Hx as _ <- _; constructor|].
  destruct (STR_EQ w _); [by eapply register_on_transition|].
  destruct (STR_EQ w _); [by eapply register_off_transition|]. injection Hx as _ <- _. constructor.
Qed.

Lemma answer_transition {A} (x : check A) f m s st s' l :
  (∀ a l, x = Ret (Accepted a, l) → transition m s (f a)) → answer x f s = Ret (st, s', l) → transition m s s'.
Proof.
  intros Hf Hx. unfold answer in Hx. apply bind_inv_Ret in Hx as ([[a|] l1] & Ex & [= _ <- _]); [by eapply Hf|constructor].
Qed.
Lemma changed_transition x m s st s' l :
  (∀ b s' l, x = Ret (b, s', l) → transition m s s') → changed x = Ret (st, s', l) → transition m s s'.
Proof. intros Hf Hx. unfold changed in Hx. apply bind_inv_Ret in Hx as ([[b s1] l1] & Ex & [= _ <- _]). by eapply Hf. Qed.

Lemma call_transition m f str s st s' l : consistent s → call m f str s = Ret (st, s', l) → transition m s s'.
Proof.
  intros Hs Hx. destruct f; cbn [call] in Hx;
    try (eapply answer_transition; [intros a l1 Ha|exact Hx]);
    try (eapply changed_transition; [intros b s1 l1 Ha|exact Hx]).
  all: try (constructor; by left).
  - apply sets. right. by eapply limit_directive_bounds.
  - by eapply security_transition.
  - injection Hx as _ <- _. constructor.
  - by eapply register_transition.
  - destruct a as [[|c id]|]; constructor; by left.
  - apply bind_inv_Ret in Hx as ([b l1] & _ & [= _ <- _]). constructor.
  - apply bind_inv_Ret in Hx as ([b l1] & _ & [= _ <- _]). constructor.
Qed.

Lemma processline_transition m b s go s' l :
  consistent s → processline m b s = Ret (go, s', l) → transition m s s'.
Proof.
  intros Hs Hx. unfold processline in Hx. apply bind_inv_Ret in Hx as (c & _ & Hx).
  destruct (c =c NUL); [injection Hx as _ <- _; constructor|].
  apply bind_inv_Ret in Hx as (b1 & _ & Hx). apply bind_inv_Ret in Hx as (b2 & _ & Hx).
  apply bind_inv_Ret in Hx as (n & _ & Hx). cbn zeta in Hx. destruct (is_directive _).
  - apply bind_inv_Ret in Hx as ([[st s1] l1] & Hx & E).
    assert (s' = s1) as -> by (by destruct st; injection E). unfold run_line in Hx.
    apply bind_inv_Ret in Hx as ([f v|prog v|code] & _ & Hx); [by eapply call_transition| |].
    + destruct (run_program prog v). injection Hx as _ <- _. constructor.
    + injection Hx as _ <- _. constructor.
  - destruct (decide _) as [Hp|].
    + injection Hx as Hx. unfold open_spool_file in Hx. rewrite (proj1 (spooling _ Hs) Hp) in Hx.
      injection Hx as _ <- _. rewrite Hp. pose proof (proj1 (spooling _ Hs) Hp) as ->. by apply spools.
    + apply bind_inv_Ret in Hx as (ms & _ & [= _ <- _]). constructor.
Qed.

Lemma serve_transition m raw s go s' l : consistent s → serve m raw s = Ret (go, s', l) → transition m s s'.
Proof. intros Hs Hx. unfold serve in Hx. apply bind_inv_Ret in Hx as (b & _ & Hx). by eapply processline_transition. Qed.

Lemma reachable_consistent s : reachable s → consistent s.
Proof.
  induction 1 as [d dir|m raw s s' b l _ IH Hx]; [apply consistent_new|].
  eapply transition_consistent; [by eapply serve_transition|done].
Qed.

(** ** Spooling *)

(** a line of a registration that fits the array and is not taken for a directive *)
Definition spoolable (l : cstr) : Prop :=
  is_line l ∧ (length l + 1 < MAX_LINE)%nat ∧ is_directive (clean l) = false.
(** what arrives in the spool file: empty lines do not *)
Definition spooled (ls : list cstr) : cstr := text (filter (λ l, l ≠ []) (clean <$> ls)).

Lemma read_target_line (b : buf) l : is_line l → ∃ b', read_target b (l ++ [NL]) = Ret b' ∧ holds b' (clean l).
Proof.
  intros [Hn H0]. unfold read_target.
  assert (holds ((l ++ [NL]) ++ NUL :: drop (S (length (l ++ [NL]))) b) (l ++ [NL])) as Hb.
  { apply holds_intro. rewrite not_elem_of_app, list_elem_of_singleton. done. }
  destruct (in_place (f := strip_control) _ _ Hb) as (b1 & -> & Hb1 & _). cbn [mbind outcome_bind].
  assert (strip_control_s (l ++ [NL]) = strip_control_s l) as E1.
  { unfold strip_control_s. rewrite filter_app. simpl. by rewrite app_nil_r. }
  destruct (in_place (f := trim) _ _ Hb1) as (b2 & -> & Hb2 & _). cbn [mbind outcome_bind of_option].
  exists b2. split; [done|]. by rewrite E1 in Hb2.
Qed.

Lemma spooled_cons l ls : spooled (l :: ls) = spooled [l] ++ spooled ls.
Proof.
  unfold spooled. rewrite !fmap_cons, !filter_cons. destruct (decide (clean l ≠ [])); [|done].
  rewrite !text_cons, <-app_assoc. reflexivity.
Qed.

Lemma serve_spooled m l s t :
  spoolable l → state s = SPOOL_STATE → spool_fp s = true → spool_file s = Some t →
  serve m (l ++ [NL]) s = Ret (true, with_spool SPOOL_STATE (Some (t ++ spooled [l])) true (spool_dir_exists s) s, []).
Proof.
  intros (Hl & _ & Hd) Hs Hfp Hf. unfold serve. destruct (read_target_line (array m) l Hl) as (b & -> & Hb).
  cbn [mbind outcome_bind]. unfold processline, spooled. change (clean <$> [l]) with [clean l].
  destruct (clean l) as [|c r] eqn:E.
  - destruct Hb as [_ [rest ->]]. change (rd ([] ++ NUL :: rest) 0) with (Ret NUL).
    cbn [mbind outcome_bind]. rewrite char_eqb_refl. do 3 f_equal. destruct s. cbn in Hs, Hfp, Hf |- *. subst.
    unfold with_spool. cbn. by rewrite app_nil_r.
  - assert (rd b 0 = Ret c ∧ c ≠ NUL) as [-> Hc].
    { destruct Hb as [Hn [rest ->]]. split; [done|]. by apply not_elem_of_cons in Hn as [? _]. }
    cbn [mbind outcome_bind]. rewrite (proj2 (char_eqb_neq c NUL)) by done.
    destruct (in_place (f := trim) _ _ Hb) as (b2 & -> & Hb2 & _). cbn [mbind outcome_bind of_option].
    rewrite <-E in Hb2. unfold clean in Hb2. rewrite trim_s_twice in Hb2. fold (clean l) in Hb2. rewrite E in Hb2.
    destruct Hb2 as [Hn [rest ->]]. rewrite strlen_app by done. cbn [mbind outcome_bind]. cbn zeta.
    rewrite take_app_length, Hd, decide_True by done. unfold open_spool_file. rewrite Hfp, Hf, Hs.
    rewrite filter_cons_True, filter_nil by done. unfold text. cbn [mbind list_bind].
    rewrite Hfp, app_nil_r. reflexivity.
Qed.

(** lines one after the other, as long as the session goes on *)
Fixpoint serve_lines (ms : list (moment * cstr)) s : outcome (session D * list message) :=
  match ms with
  | [] => Ret (s, [])
  | (m, raw) :: ms =>
      '(go, s, l) ← serve m raw s;
      if go : bool then '(s, l') ← serve_lines ms s; Ret (s, l ++ l') else Ret (s, l)
  end.

Lemma serve_lines_spooled ms ls : ∀ s t,
  Forall spoolable ls → length ms = length ls → state s = SPOOL_STATE → spool_fp s = true → spool_file s = Some t →
  serve_lines (zip ms ((λ l, l ++ [NL]) <$> ls)) s
  = Ret (with_spool SPOOL_STATE (Some (t ++ spooled ls)) true (spool_dir_exists s) s, []).
Proof.
  revert ms. induction ls as [|l ls IH]; intros [|m ms] s t Hl Hlen Hs Hfp Hf; try done.
  - cbn. destruct s. cbn in *. subst. unfold with_spool, spooled. cbn. by rewrite app_nil_r.
  - apply Forall_cons in Hl as [Hl Hls]. rewrite fmap_cons. cbn [zip zip_with serve_lines].
    rewrite (serve_spooled _ _ _ t) by done. cbn [mbind outcome_bind].
    rewrite (IH _ _ (t ++ spooled [l])) by (try done; injection Hlen; done). cbn [mbind outcome_bind].
    by rewrite (spooled_cons l ls), app_assoc.
Qed.

Lemma register_on_spools m argv s s1 l :
  consistent s → register_on m argv s = Ret (true, s1, l) →
  state s1 = SPOOL_STATE ∧ spool_fp s1 = true ∧ spool_file s1 = Some [] ∧ db s1 = db s ∧ l = [] ∧
  ∃ action email rest, argv = action :: email :: rest ∧ register_email s1 = email
    ∧ register_action s1 = translate_action_str action ∧ register_action s1 ≠ UNKNOWN_ACTION.
Proof.
  intros Hs Hx. unfold register_on in Hx. destruct (decide _) as [|Hq]; [done|].
  apply (querying _ Hs) in Hq as [Hq Hfp].
  destruct spool_dir as [[|c dir]|]; [done| |done].
  apply bind_inv_Ret in Hx as ([[[action email]|] l1] & Hh & Hx); [|done].
  assert (∃ rest, argv = action :: email :: rest ∧ translate_action_str action ≠ UNKNOWN_ACTION) as (rest & -> & Ha).
  { unfold handle_registration_header in Hh. destruct argv as [|a [|e rest]]; [done|done|]. accepted Hh.
    exists rest. split; [done|]. by eapply bool_decide_eq_true. }
  cbn in Hx. destruct (negb _ && spool_dir_is_file); [done|]. destruct (negb _ && mkdir_ok m); [done|].
  destruct (negb (spool_name_ok m)); [done|]. unfold open_spool_file in Hx. cbn in Hx. rewrite Hfp in Hx.
  destruct (spool_fopen_ok m); [|done]. cbn in Hx. injection Hx as <- <-. cbn. split_and!; try done. by eexists _, _, _.
Qed.

(** ** Runs *)

Lemma session_loop_reachable fuel clock f : ∀ pos n s s' out,
  reachable s → session_loop fuel clock f pos n s = Ret (s', out) → reachable s'.
Proof.
  induction fuel as [|fuel IH]; intros pos n s s' out Hr Hx; [done|]. cbn [session_loop] in Hx.
  destruct (fgets f pos MAX_LINE) as [[raw pos']|]; [|by injection Hx as <- _].
  apply bind_inv_Ret in Hx as ([[go s1] l] & Hs & Hx). assert (reachable s1) by (by eapply reachable_serve).
  cbn zeta in Hx. destruct go; [|by injection Hx as <- _].
  apply bind_inv_Ret in Hx as ([s2 out'] & Hx & [= <- _]). by eapply IH.
Qed.

(** The loop ends: only the functions that serve a line can run out of fuel. *)
Lemma session_loop_ends clock f : ∀ fuel pos n s,
  (length f - pos < fuel)%nat → session_loop fuel clock f pos n s = NoFuel →
  ∃ m raw s', serve m raw s' = NoFuel.
Proof.
  induction fuel as [|fuel IH]; intros pos n s Hf Hx; [lia|]. cbn [session_loop] in Hx.
  destruct (fgets f pos MAX_LINE) as [[raw pos']|] eqn:E; [|done].
  apply fgets_progress in E; [|unfold MAX_LINE; lia].
  destruct (serve (clock n) raw s) as [[[go s1] l]| |] eqn:Es; [|done|by eexists _, _, _].
  cbn [mbind outcome_bind] in Hx. cbn zeta in Hx. destruct go; [|done].
  destruct (session_loop fuel clock f pos' (S n) s1) as [[s2 out]| |] eqn:El; [done|done|].
  eapply IH; [|exact El]. lia.
Qed.

(** ** The theorems *)

(** What is registered is what was sent.  After -register on has succeeded,
    lines that are not directives are answered with nothing and leave the
    session alone but for its spool file, and -register off carries out the
    action with the email address of the first line on a spool file that holds
    these lines in their order, without control characters, white space at
    their ends and empty lines. *)
Theorem registration_spooled m1 argv s s1 l1 ms ls m2 :
  reachable s → register_on m1 argv s = Ret (true, s1, l1) →
  Forall spoolable ls → length ms = length ls →
  ∃ action email rest s2, argv = action :: email :: rest ∧
    serve_lines (zip ms ((λ l, l ++ [NL]) <$> ls)) s1 = Ret (s2, []) ∧ db s2 = db s ∧
    register_off m2 s2 =
      ('(status, d, l) ← process_registration areas is_class is_attr max_hits_ceiling crypt (salt m2) check_record
                           (secure_mode s1) (get_request_auth_struct (request s1)) run_env_program (tmp_fname m2)
                           (tmp_ok m2) email (stamp m2) (pid m2) (updated m2) (updated' m2)
                           (db s) (translate_action_str action) (Some (spooled ls));
       Ret (status, with_db d (with_spool QUERY_STATE (Some (spooled ls)) false (spool_dir_exists s1) s1), l)).
Proof.
  intros Hr Hon Hls Hlen.
  destruct (register_on_spools _ _ _ _ _ (reachable_consistent _ Hr) Hon)
    as (H1 & H2 & H3 & H4 & -> & action & email & rest & -> & H5 & H6 & _).
  exists action, email, rest. eexists. split_and!; [done|by apply (serve_lines_spooled _ _ _ [])|done|].
  unfold register_off. rewrite decide_True by done. cbn. rewrite H4, H5, H6. done.
Qed.

(** C7: a session is a state machine.  In every session that lines can lead to,
    the spool file is open exactly while a registration is spooled, and is there
    then; the secure mode is on exactly when complete credentials are stored;
    the hit limit is the initial one or within the ceiling; and every further
    line does to the session one of the steps of the machine [transition], or
    nothing. *)
Theorem session_refines s m raw go s' l :
  reachable s → serve m raw s = Ret (go, s', l) → consistent s ∧ transition m s s' ∧ consistent s'.
Proof.
  intros Hr Hx. pose proof (reachable_consistent _ Hr) as Hs. split; [done|].
  assert (transition m s s') by (by eapply serve_transition). split; [done|by eapply transition_consistent].
Qed.

(** C6: only registrations change the database.  When a line of a session
    changes the database, a registration was being spooled, which the line
    ends, and the change is that of a registration that is permitted: what it
    deletes or modifies was found by its ID, and the guardians of the first
    record found accept the credentials that this session has stored. *)
Theorem session_database_safe s m raw go s' l :
  reachable s → serve m raw s = Ret (go, s', l) → db s' ≠ db s →
  state s = SPOOL_STATE ∧ state s' = QUERY_STATE ∧
  ∃ r status l', session_permitted s r ∧ session_commit m s r = Ret (status, db s', l').
Proof.
  intros Hr Hx Hd. pose proof (serve_transition _ _ _ _ _ _ (reachable_consistent _ Hr) Hx) as Ht.
  destruct Ht as [| | | | | |t d Hs _ [->|(r & st & l' & Hp & Hc)]]; try done.
  split_and!; [done|done|by eexists _, _, _].
Qed.

(** The secure mode cannot be left.  Once a session has credentials, their
    mode has been freed, so that -security off frees it a second time. *)
Theorem security_off_frees_twice s :
  reachable s → secure_mode s = true → run_security_directive ($"off") s = Fault.
Proof.
  intros Hr Hm. pose proof (secured _ (reachable_consistent _ Hr)) as Hs.
  destruct (request s) as [|a freed|] eqn:E; [by rewrite Hs in Hm| |done]. destruct Hs as (_ & -> & _).
  unfold run_security_directive.
  change (security_parse_args ($"off")) with (Ret (Accepted (SecurityArgs ($"off") None None []), [] : list message)).
  cbn [mbind outcome_bind]. by rewrite E.
Qed.
End Server.

(** ** Sessions on a database in memory *)

Section Demo.
#[local] Existing Instance memory.
Definition demo_moment : moment :=
  Moment (replicate 512 NUL) false true true [] [] true ($"20260202") 7 ($"20260202") ($"20260203").
Definition demo_directives : directive_list :=
  match default_directive_list with
  | Ret (_, l) => match init_directive_functions l with Ret l => l | _ => [] end
  | _ => []
  end.
(** a function or a lemma of the server, for the configuration of the demo *)
#[local] Notation at_demo f := (f [reg_area] (λ _, false) reg_attr 20 true true true demo_directives (Some $"spool") false
  ($"rwhois.a.com") ($"1.5.9") ($"root") (λ _ _, None) (λ _, true) no_parser (λ _ _, (1, [])) (λ _, true)
  no_check (λ _ _, Ret (false, [])) (λ _, 4) (λ _ _ _, Ret (true, []))) (only parsing).
Definition demo_session : Type := session (list record_struct).
Definition demo_serve (m : moment) (raw : cstr) (s : demo_session) : outcome (bool * demo_session * list message) :=
  at_demo serve m raw s.
Definition demo_reachable : demo_session → Prop :=
  at_demo reachable.
(** the session after some lines *)
Definition demo_after (lines : list string) : demo_session :=
  foldl (λ s l, match demo_serve demo_moment (lit l ++ [NL]) s with Ret (_, s', _) => s' | _ => s end)
        (new_session reg_disk true) lines.

Lemma demo_after_reachable lines : demo_reachable (demo_after lines).
Proof.
  induction lines as [|l lines IH] using rev_ind; [apply reachable_new|].
  unfold demo_after. rewrite foldl_snoc. fold (demo_after lines).
  destruct (demo_serve demo_moment (lit l ++ [NL]) (demo_after lines)) as [[[go s'] ms]| |] eqn:E; [|done..].
  eapply reachable_serve; [exact IH|exact E].
Qed.

(** a client with the password of its guardian deletes its record *)
Definition deletion : list string :=
  ["-security on request pw sesame"; "-register on del me@a.com"; "  ID: h1"; ""; "Updated: 20260101"]%string.
Definition off_line : cstr := $"-register off" ++ [NL].

#[local] Opaque demo_after.
Lemma deletion_runs :
  ∃ s', demo_serve demo_moment off_line (demo_after deletion) = Ret (true, s', [print_ok])
        ∧ db s' = [victim; guardian1; guardian2].
Proof. eexists. split; vm_compute; reflexivity. Qed.

Lemma session_refines_witness :
  ∃ s', demo_serve demo_moment off_line (demo_after deletion) = Ret (true, s', [print_ok]) ∧
        consistent 20 (demo_after deletion) ∧ consistent 20 s'.
Proof.
  destruct deletion_runs as (s' & E & _). exists s'. split; [exact E|].
  destruct (at_demo session_refines _ _ _ _ _ _
              (demo_after_reachable deletion) E) as (H1 & _ & H2).
  split; [exact H1|exact H2].
Defined.

Lemma session_database_safe_witness :
  state (demo_after deletion) = SPOOL_STATE ∧
  ∃ s' r, db s' = [victim; guardian1; guardian2] ∧
    session_permitted (H := memory) (λ _, false) reg_attr 20 (λ _ _, None) no_check (demo_after deletion) r.
Proof.
  destruct deletion_runs as (s' & E & Hd).
  destruct (at_demo session_database_safe _ _ _ _ _ _
              (demo_after_reachable deletion) E) as (H1 & _ & r & st & l & H2 & _).
  - rewrite Hd. vm_compute. discriminate.
  - split; [exact H1|]. exists s', r. split; [exact Hd|exact H2].
Defined.

Lemma security_off_frees_twice_witness :
  run_security_directive ($"off") (demo_after ["-security on request pw sesame"]%string) = Fault.
Proof.
  apply (at_demo security_off_frees_twice).
  - apply demo_after_reachable.
  - vm_compute. reflexivity.
Defined.

(** quoted arguments overflow the vector of split_arg_list from any session *)
Theorem quoted_arguments_overflow :
  demo_serve demo_moment ($"-limit " ++ replicate 6 (chr 34) ++ [NL]) (demo_after []) = Fault.
Proof. vm_compute. reflexivity. Qed.

(** With two blanks in front of a directive, trimming the line leaves a byte of
    it behind its end, which becomes the argument of the directive. *)
Theorem indented_directive_gets_argument :
  (∃ l, demo_serve demo_moment ($"-status" ++ [NL]) (demo_after []) = Ret (true, demo_after [], l ++ [print_ok])) ∧
  demo_serve demo_moment ($"  -status" ++ [NL]) (demo_after [])
  = Ret (true, demo_after [], [print_error INVALID_DIRECTIVE_PARAM []]).
Proof. split; [eexists [_; _; _; _; _; _]|]; vm_compute; reflexivity. Qed.

(** A last line without a newline gets the rest of the line before it. *)
Theorem last_line_gets_stale_argument :
  let m := Moment ($"-limit 7" ++ replicate 504 NUL) false true true [] [] true [] 7 [] [] in
  ∃ s, demo_serve m ($"-limit") (demo_after []) = Ret (true, s, [print_ok]) ∧ hit_limit s = 7.
Proof. eexists. split; vm_compute; reflexivity. Qed.

(** -security on without a password frees its arguments twice, too *)
Theorem security_without_password_frees_twice :
  run_security_directive ($"on request pw") (demo_after []) = Fault ∧
  run_security_directive ($"on response pw secret") (demo_after []) = Fault.
Proof. split; vm_compute; reflexivity. Qed.

(** an unknown name for -directive follows a null pointer *)
Theorem unknown_directive_faults :
  demo_serve demo_moment ($"-directive nosuch" ++ [NL]) (demo_after []) = Fault.
Proof. vm_compute. reflexivity. Qed.

(** the directory that register_on has just made is taken for a failure *)
Theorem made_spool_directory_fails m :
  mkdir_ok m = true →
  ∃ s, register_on (Some $"spool") false (λ _, true) m [$"add"; $"me@a.com"] (new_session reg_disk false)
       = Ret (false, s, [print_error UNIDENT_ERROR []]) ∧ spool_dir_exists s = true.
Proof. intros Hm. eexists. unfold register_on. cbn. rewrite Hm. cbn. split; reflexivity. Qed.

Lemma registration_spooled_witness :
  ∃ action s2,
    at_demo serve_lines
      (zip [demo_moment; demo_moment] ((λ l, l ++ [NL]) <$> [$" ID: h1"; $""])) (demo_after ["-register on del me@a.com"]%string)
    = Ret (s2, []) ∧ action = $"del".
Proof.
  destruct (at_demo registration_spooled
    demo_moment [$"del"; $"me@a.com"] (demo_after []) (demo_after ["-register on del me@a.com"]%string) []
    [demo_moment; demo_moment] [$" ID: h1"; $""] demo_moment) as (action & email & rest & s2 & H1 & H2 & _).
  - apply demo_after_reachable.
  - vm_compute. reflexivity.
  - repeat constructor; try (apply (bool_decide_unpack _); vm_compute; exact I); vm_compute; try lia; reflexivity.
  - reflexivity.
  - exists action, s2. split; [exact H2|congruence].
Defined.
End Demo.
