(* ===== verification/System.v ===== *)
(** * From data files to answers

    The components together: index_data_file (mkdb/index.c) indexes the
    records of a data file, sort_index_files sorts the index files, and
    search_exact_index_file (mkdb/search.c) answers queries from them.  The
    theorems say that the answers are those records of the data file that the
    query describes. *)

From S2P Require Import Prelude CLib CString Misc DlList IpNetwork Types Stdio FilePath IndexLine.
From S2P Require Import BinSearch Records SearchPrim Index FileInfo Search IndexSort DataFile Delete.
From stdpp Require Import sorting.
Local Open Scope Z_scope.

(** ** Indexing all of its records *)

Section Indexing.
Context (regexec : cstr → cstr → bool) (metaphone : cstr → cstr) (ni0 : netinfo).
Context (fopen_ok : cstr → bool) (check : record_check).

Abbreviation entries rec := (record_entries regexec metaphone ni0 rec (av_pair_list rec)).

(** a record whose attributes have their index files and whose entries fit *)
Definition indexable (files : list index_fp_struct) (rec : record_struct)
    (es : list (attr_index_type * index_struct)) : Prop :=
  Forall (λ av, covered files (types_of (attr_index (av_attr av)))) (av_pair_list rec) ∧
  entries rec = Ret es ∧ Forall line_fits es.

Lemma indexable_grown files es0 files' rec es :
  grown files es0 files' → indexable files rec es → indexable files' rec es.
Proof.
  intros G (H & ? & ?). split_and!; [|done..]. eapply Forall_impl; [exact H|].
  intros av. by apply (covered_grown _ _ _ _ G).
Qed.

Abbreviation data_loop := (index_data_loop regexec metaphone ni0 fopen_ok check).

Lemma data_loop_dead c aa no flag fuel pre e es recs lines files :
  st_live e = false → Forall (good_entry c) (e :: es) →
  Forall (λ rec, flag = 0 ∨ check rec flag = (true, rec)) (live_records (placed c aa no (length pre) (e :: es))) →
  data_loop fuel c aa no flag (pre ++ data_text (e :: es)) (length pre) recs lines files
  = data_loop fuel c aa no flag ((pre ++ stored_text e) ++ data_text es) (length (pre ++ stored_text e))
              recs lines files.
Proof.
  intros Hd Hf Hc. destruct fuel as [|fuel]; [done|]. cbn [index_data_loop].
  rewrite (mkdb_read_next_entry check c aa no flag (e :: es) pre Hf Hc).
  apply Forall_cons in Hf as [_ Hf]. rewrite (mkdb_read_next_entry check c aa no flag es).
  - cbn [next_entry]. by rewrite Hd, length_app, data_text_cons, app_assoc.
  - done.
  - rewrite live_placed_cons in Hc. by apply Forall_app in Hc as [_ Hc].
Qed.

Lemma index_data_loop_records c aa no flag es :
  aa_schema aa ≠ None → Forall (good_entry c) es →
  ∀ fuel pre recs lines files ess,
  (length es < fuel)%nat → ready fopen_ok files →
  let live := live_records (placed c aa no (length pre) es) in
  Forall (λ rec, flag = 0 ∨ check rec flag = (true, rec)) live →
  Forall2 (indexable files) live ess →
  ∃ files', data_loop fuel c aa no flag (pre ++ data_text es) (length pre) recs lines files
            = Ret (recs + Z.of_nat (length live), lines + Z.of_nat (length (concat ess)), true, files') ∧
            grown files (concat ess) files'.
Proof.
  intros Hs Hf. induction Hf as [|e es He Hf IH]; intros fuel pre recs lines files ess Hfuel Hr live Hc Hi.
  - inversion Hi; subst. destruct fuel as [|fuel]; [lia|]. cbn [index_data_loop].
    rewrite mkdb_read_next_entry by done. cbn [next_entry fst mbind outcome_bind]. exists files.
    cbn. rewrite !Z.add_0_r. split; [done|apply grown_refl].
  - destruct (st_live e) eqn:El.
    + pose proof Hc as Hc'. subst live. rewrite live_placed_cons, El in Hc, Hi |- *. cbn [app] in *.
      apply Forall_cons in Hc as [_ Hc].
      inversion Hi as [|? es1 ? ess' (Hcov & Hent & Hfit) Hi']; subst.
      destruct fuel as [|fuel]; [cbn in Hfuel; lia|]. cbn [index_data_loop].
      rewrite mkdb_read_next_entry by (done || by constructor).
      cbn [next_entry]. rewrite El. cbn [fst mbind outcome_bind].
      destruct (index_record_grown _ _ _ _ _ aa files es1 Hs Hr Hcov Hent Hfit) as (f1 & -> & G1).
      cbn [mbind outcome_bind negb]. rewrite data_text_cons, (app_assoc pre), <-length_app.
      destruct (IH fuel (pre ++ stored_text e) (recs + 1) (lines + Z.of_nat (length es1)) f1 ess')
        as (f2 & -> & G2).
      * cbn in Hfuel. lia.
      * by eapply grown_ready.
      * done.
      * eapply Forall2_impl; [exact Hi'|]. intros. by eapply indexable_grown.
      * exists f2. split; [|by eapply grown_trans]. cbn [concat length]. rewrite (length_app es1).
        do 3 f_equal. f_equal; lia.
    + rewrite data_loop_dead by (done || by constructor). subst live.
      rewrite live_placed_cons, El in Hc, Hi |- *. apply IH; [cbn in Hfuel; lia|done..].
Qed.
End Indexing.

(** ** The items of an index file *)

Definition items_of (t : mkdb_file_type) (es : list (attr_index_type * index_struct)) :
    list index_struct := (filter (λ e, convert_file_type e.1 = t) es).*2.

(** an item whose line the search reads back and the sort program orders *)
Record fine (st : sort_style) (it : index_struct) : Prop := {
  fine_ok : item_ok it;
  fine_line : is_line (item_line it);
  fine_clean : clean (item_line it) = item_line it;
  fine_length : (length (item_line it) ≤ 255)%nat;
  fine_sort : sortable st it }.

Lemma items_of_app t es es' : items_of t (es ++ es') = items_of t es ++ items_of t es'.
Proof. unfold items_of. by rewrite filter_app, fmap_app. Qed.

Lemma items_of_Forall (P : index_struct → Prop) t es :
  Forall (λ e, P e.2) es → Forall P (items_of t es).
Proof.
  rewrite !Forall_forall. unfold items_of. intros H it Hit.
  apply list_elem_of_fmap in Hit as (e & -> & [_ He]%list_elem_of_filter). by apply H.
Qed.

Lemma item_line_eq it s : index_line it = Ret s → item_line it = s.
Proof. unfold item_line. by intros ->. Qed.

Lemma fine_write st it : fine st it → write_index_line it = Ret (item_line it ++ [NL]).
Proof.
  intros [Hok _ _ Hlen _]. destruct (write_index_line_spec it Hok) as (s & Hs & _ & ->).
  apply item_line_eq in Hs. subst s. rewrite decide_True; [done|]. unfold MAX_LINE. lia.
Qed.

Lemma file_text_items st t es :
  Forall (λ e, fine st e.2) es → file_text t es = text (item_line <$> items_of t es).
Proof.
  induction 1 as [|e es He _ IH]; [done|]. cbn [file_text]. unfold entry_text.
  rewrite (fine_write _ _ He), IH. unfold items_of. rewrite filter_cons.
  case_bool_decide; case_decide; try done.
Qed.

Lemma fine_fits st es : Forall (λ e, fine st e.2) es → Forall line_fits es.
Proof. intros H. eapply Forall_impl; [exact H|]. intros e He. eexists. by apply fine_write in He. Qed.

Lemma fine_index_file st its : Forall (fine st) its → index_file (item_line <$> its) its.
Proof.
  intros H. split.
  - rewrite Forall_fmap. eapply Forall_impl; [exact H|]. by intros it [].
  - rewrite Forall_fmap. eapply Forall_impl; [exact H|]. intros it [Hok _ _ Hl _]. cbn. split; [|done].
    destruct (index_line_ok it Hok) as (v & _ & _ & _ & s & Hs & _ & E).
    apply item_line_eq in Hs. rewrite Hs, E. destruct (print_Z_cons (offset it)) as (x & u & ->).
    destruct (print_Z_cons (data_file_no it)) as (y & w & ->). cbn. rewrite length_app. cbn. lia.
  - apply Forall2_fmap_l, Forall_Forall2_diag. eapply Forall_impl; [exact H|].
    intros it [Hok _ Hc _ _] it0. rewrite Hc.
    destruct (index_line_ok it Hok) as (v & _ & _ & _ & s & Hs & _ & _).
    rewrite (item_line_eq _ _ Hs). by apply decode_line.
Qed.

(** ** Which items the exact index file gets *)

Definition exact_key (v : cstr) : cstr := trim_s (strip_control_s (strupr_s v)).

(** the pair gives the record an exact key *)
Definition has_key (rec : record_struct) (av : av_pair_struct) (key : cstr) : Prop :=
  av ∈ av_pair_list rec ∧ INDEX_EXACTLY ∈ types_of (attr_index (av_attr av)) ∧
  (∃ v, av_value av = Some v ∧ key = exact_key v) ∧ key ≠ [].

Section ExactItems.
Context (regexec : cstr → cstr → bool) (metaphone : cstr → cstr) (ni0 : netinfo).
Implicit Types rec : record_struct.

Lemma convert_exact i : convert_file_type i = MKDB_EXACT_INDEX_FILE ↔ i = INDEX_EXACTLY.
Proof. by destruct i. Qed.

Lemma entries_for_no_exact rec attr b is_ : ∀ v es,
  INDEX_EXACTLY ∉ is_ → entries_for regexec metaphone ni0 rec attr b is_ v = Ret es →
  items_of MKDB_EXACT_INDEX_FILE es = [].
Proof.
  induction is_ as [|i is_ IH]; intros v es Hn He; [by injection He as <-|].
  apply not_elem_of_cons in Hn as [Hi Hn]. apply entries_for_cons in He.
  destruct (b && _ && _); [by eapply IH|]. destruct He as (key & v' & es' & _ & He & ->).
  rewrite items_of_app, (IH _ _ Hn He), app_nil_r.
  destruct key as [[|x k]|]; [done| |done]. unfold items_of. rewrite filter_cons_False; [done|].
  cbn. by rewrite convert_exact.
Qed.

Lemma pair_exact_items rec av es it :
  pair_entries regexec metaphone ni0 rec av = Ret es →
  it ∈ items_of MKDB_EXACT_INDEX_FILE es ↔
  INDEX_EXACTLY ∈ types_of (attr_index (av_attr av)) ∧
  ∃ v, av_value av = Some v ∧ exact_key v ≠ [] ∧ it = key_item rec (av_attr av) (exact_key v).
Proof.
  unfold pair_entries. destruct (av_value av) as [v|].
  2:{ intros [= <-]. split; [by intros ?%elem_of_nil|naive_solver]. }
  intros He. destruct (decide (INDEX_EXACTLY ∈ types_of (attr_index (av_attr av)))) as [Hx|Hx].
  2:{ rewrite (entries_for_no_exact _ _ _ _ _ _ Hx He), elem_of_nil. naive_solver. }
  assert (∃ is_, types_of (attr_index (av_attr av)) = INDEX_EXACTLY :: is_ ∧ INDEX_EXACTLY ∉ is_) as (is_ & Et & Hn).
  { destruct (attr_index (av_attr av)); cbn in Hx |- *;
      repeat match goal with H : _ ∈ _ :: _ |- _ => apply elem_of_cons in H as [H|H]; try done
             | H : _ ∈ [] |- _ => by apply elem_of_nil in H end;
      eexists; (split; [done|]); rewrite ?not_elem_of_cons; split_and?; (done || apply not_elem_of_nil). }
  rewrite Et in He. apply entries_for_cons in He. rewrite andb_false_r in He.
  destruct He as (key & v' & es' & Hk & He & ->). cbn in Hk. injection Hk as <- <-.
  rewrite items_of_app, (entries_for_no_exact _ _ _ _ _ _ Hn He), app_nil_r.
  fold (exact_key v). split.
  - destruct (exact_key v) as [|x k] eqn:E; [by intros ?%elem_of_nil|].
    unfold items_of. rewrite filter_cons_True by done. intros ->%list_elem_of_singleton.
    split; [done|]. exists v. by rewrite E.
  - intros (_ & v1 & [= <-] & Hne & ->). destruct (exact_key v) as [|x k] eqn:E; [done|].
    unfold items_of. rewrite filter_cons_True by done. left.
Qed.

Lemma record_exact_items rec es it :
  record_entries regexec metaphone ni0 rec (av_pair_list rec) = Ret es →
  it ∈ items_of MKDB_EXACT_INDEX_FILE es ↔
  ∃ av key, has_key rec av key ∧ it = key_item rec (av_attr av) key.
Proof.
  unfold has_key. generalize (av_pair_list rec) as avs. intros avs. revert es.
  induction avs as [|av avs IH]; intros es; cbn [record_entries].
  { intros [= <-]. cbn. rewrite elem_of_nil. split; [done|]. intros (? & ? & [[]%elem_of_nil _] & _). }
  destruct (pair_entries _ _ _ rec av) as [l| |] eqn:El; [|done..]. cbn [mbind outcome_bind].
  destruct (record_entries _ _ _ rec avs) as [es'| |]; [|done..]. intros [= <-].
  rewrite items_of_app, elem_of_app, (pair_exact_items _ _ _ _ El), (IH es' eq_refl). split.
  - intros [(Hx & v & Hv & Hne & ->)|(av' & key & (Hin & ?) & ->)].
    + exists av, (exact_key v). split; [|done]. split; [left|]. split; [done|]. split; [|done]. by exists v.
    + exists av', key. split; [|done]. split; [by right|done].
  - intros (av' & key & ([->|Hin]%elem_of_cons & Hx & (v & Hv & ->) & Hne) & ->).
    + left. split; [done|]. by exists v.
    + right. exists av', (exact_key v). split; [|done]. split_and!; try done. by exists v.
Qed.
End ExactItems.

(** ** Searching what was indexed *)

(** the items that stand for the keys of records *)
Definition item_of (recs : list record_struct) (it : index_struct) : Prop :=
  ∃ rec av key, rec ∈ recs ∧ has_key rec av key ∧ it = key_item rec (av_attr av) key.

Section Answers.
Context (fs : filesystem) (check : record_check) (c : class_struct) (aa : auth_area_struct).
Context (dfl : list file_struct) (q : query_term).

(** The record [rec] of a data file answers the query by its pair [av], and is
    shown as [ans], which the AND terms may have changed to upper case. *)
Definition answers (rec ans : record_struct) : Prop :=
  (∃ av key, has_key rec av key ∧ sign q key = 0 ∧
     skipped q (key_item rec (av_attr av) key) = false ∧
     validate_search_cond c q (key_item rec (av_attr av) key) = true) ∧
  match and_list q with None => ans = rec | Some a => validate_and_list rec a = Ret (true, ans) end.

(** The data file holds the records [pl], some of which may be deleted; the
    index was made from the records [indexed] among them. *)
Context (data_file : file_struct) (f : cstr) (pl : list (record_struct * bool)).
Context (indexed : list record_struct).
Context (Hdata : fs (filename data_file) = Some f) (Hclosed : fp data_file = None).
Context (Hfind : find_file_by_id dfl (file_no data_file) MKDB_DATA_FILE = Some data_file).
Context (Hq : ordered_compare q).
Context (Hread : ∀ rec (live : bool), (rec, live) ∈ pl →
  rec_class rec = c ∧ rec_auth_area rec = aa ∧ rec_data_file_no rec = file_no data_file ∧
  0 ≤ rec_offset rec ∧
  ∃ pos', mkdb_read_record check c aa (file_no data_file) 0 f (Z.to_nat (rec_offset rec))
          = Ret (if live then Some rec else None, if live then REC_OK else REC_NULL, pos')).
Context (Hinj : ∀ x y, x ∈ pl → y ∈ pl → rec_offset x.1 = rec_offset y.1 → x = y).
Context (Hsub : ∀ rec, rec ∈ indexed → ∃ live, (rec, live) ∈ pl).

(** the records of the index that are not deleted *)
Definition survivors : list record_struct := filter (λ rec, (rec, true) ∈ pl) indexed.

Lemma fill_record rec (live : bool) it :
  (rec, live) ∈ pl → data_file_no it = file_no data_file → offset it = rec_offset rec →
  fill_out_record fs check c aa dfl it
  = Ret (if live then Some rec else None, Some (if live then REC_OK else REC_NULL)).
Proof.
  intros Hrec Hno Ho. destruct (Hread rec live Hrec) as (_ & _ & _ & Hpos & p & Hr).
  unfold fill_out_record. rewrite Hno, Hfind. unfold open_fp. rewrite Hclosed, Hdata.
  rewrite (proj2 (Z.ltb_ge _ _)) by lia. unfold contents. cbn [filename with_fp]. rewrite Hdata.
  simpl default. by rewrite Ho, Hr.
Qed.

Lemma item_of_resolvable it : item_of indexed it → resolvable fs dfl q it.
Proof.
  intros (rec & av & key & (live & Hrec)%Hsub & _ & ->).
  destruct (Hread rec live Hrec) as (_ & _ & Hno & Hpos & _).
  split; [done|]. split.
  - eexists. by apply search_compare_sign.
  - exists data_file. cbn. rewrite Hno. split_and!; [done..|by eexists].
Qed.

Lemma selected_answers it ans :
  item_of indexed it → selected fs check c aa dfl q it ans →
  ∃ rec, rec ∈ survivors ∧ answers rec ans ∧ data_file_no it = file_no data_file ∧ offset it = rec_offset rec.
Proof.
  intros (rec & av & key & Hi & Hkey & ->) (Hhit & Hsk & Hv & rec0 & Hfill & Hand).
  destruct (Hsub rec Hi) as (live & Hrec). destruct (Hread rec live Hrec) as (_ & _ & Hno & _). exists rec.
  rewrite (fill_record rec live) in Hfill by done. destruct live; [|done]. injection Hfill as <-.
  split; [by apply list_elem_of_filter|]. split; [|done]. split; [|done]. exists av, key. split_and!; try done.
  unfold hit in Hhit. cbn in Hhit. rewrite search_compare_sign in Hhit by done. congruence.
Qed.

Lemma answers_selected rec ans :
  rec ∈ survivors → answers rec ans →
  ∃ it, item_of indexed it ∧ selected fs check c aa dfl q it ans ∧
        data_file_no it = file_no data_file ∧ offset it = rec_offset rec.
Proof.
  intros [Hrec Hi]%list_elem_of_filter ((av & key & Hkey & Hs & Hsk & Hv) & Hand).
  destruct (Hread rec true Hrec) as (_ & _ & Hno & _).
  exists (key_item rec (av_attr av) key). split; [by exists rec, av, key|]. split; [|done].
  split; [|split; [done|]; split; [done|]].
  - unfold hit. cbn. rewrite search_compare_sign by done. by rewrite Hs.
  - exists rec. split; [by apply (fill_record rec true)|done].
Qed.

(** the answers have the class, area and place of their records *)
Lemma answers_place rec ans :
  rec ∈ survivors → answers rec ans →
  same_kind c aa ans ∧ rec_data_file_no ans = file_no data_file ∧ rec_offset ans = rec_offset rec.
Proof.
  intros [Hrec _]%list_elem_of_filter (_ & Hand). destruct (Hread rec true Hrec) as (Hc & Ha & Hno & _).
  assert (same_place rec ans) as (E1 & E2 & E3 & E4).
  { destruct (and_list q) as [a|]; [|by subst].
    destruct (validate_and_list_total (and_terms a) a rec) as (b & r' & E & Hp); [done|].
    rewrite E in Hand. by injection Hand as _ <-. }
  unfold same_kind. rewrite E1, E2, E3, E4, Hc, Ha. by rewrite !STR_EQ_refl.
Qed.

Lemma survivors_inj rec rec' :
  rec ∈ survivors → rec' ∈ survivors → rec_offset rec = rec_offset rec' → rec = rec'.
Proof.
  intros [H _]%list_elem_of_filter [H' _]%list_elem_of_filter E. pose proof (Hinj _ _ H H' E). congruence.
Qed.

Lemma answers_fun rec ans ans' : answers rec ans → answers rec ans' → ans = ans'.
Proof. intros [_ H] [_ H']. destruct (and_list q); congruence. Qed.

(** The hits [l] and the code [r] of a search that starts without hits: each
    record is listed once, only answers are listed, and all of them unless the
    code says that the limit was reached. *)
Definition search_answers (recs : list record_struct) (xno max_hits : Z) (r : ret_code_type)
    (l : list record_struct) : Prop :=
  NoDup ((λ x, (rec_data_file_no x, rec_offset x)) <$> l) ∧
  (∀ x, x ∈ l → ∃ rec ans, rec ∈ recs ∧ answers rec ans ∧ x = with_index_file xno ans) ∧
  ((r = SEARCH_SUCCESSFUL ∧
    ∀ rec ans, rec ∈ recs → answers rec ans → with_index_file xno ans ∈ l) ∨
   (r = HIT_LIMIT_EXCEEDED ∧ max_hits ≠ 0 ∧ max_hits ≤ Z.of_nat (length l))).

(** The search of a sorted index file that holds exactly the items of the
    records [indexed]. *)
Lemma search_items xfile its max_hits :
  search_type q = MKDB_BINARY_SEARCH →
  on_disk fs xfile (item_line <$> its) → index_file (item_line <$> its) its → sorted_items its →
  (∀ it, it ∈ its ↔ item_of indexed it) →
  ∃ r l,
    search_exact_index_file fs check c aa dfl max_hits xfile q ([], 0) = Ret (r, (l, Z.of_nat (length l))) ∧
    search_answers survivors (file_no xfile) max_hits r l.
Proof.
  intros Ht Hd Hif Hso Hits.
  rewrite (exact_linear fs check c aa dfl max_hits xfile _ its Hd Hif Hso q ([], 0) Hq Ht).
  destruct (full_scan_finds fs check c aa xfile dfl q [] 0 max_hits _ its Hd Hif)
    as (r & l & n & new & -> & -> & -> & Hnew & Hnd & _ & Hret).
  { apply Forall_forall. intros it Hit%Hits. by apply item_of_resolvable. }
  cbn [app] in *. rewrite Z.add_0_l. exists r, new. split; [done|].
  assert (∀ x, x ∈ new → ∃ rec ans, rec ∈ survivors ∧
            answers rec ans ∧ x = with_index_file (file_no xfile) ans) as Hsound.
  { intros x Hx. rewrite Forall_forall in Hnew. destruct (Hnew x Hx) as (it & ans & Hit%Hits & Hs & ->).
    destruct (selected_answers it ans Hit Hs) as (rec & ? & ? & _). by exists rec, ans. }
  assert (keys c aa new = (λ x, (rec_data_file_no x, rec_offset x)) <$> new) as Hkeys.
  { unfold keys. f_equal. apply filter_all. apply Forall_forall. intros x Hx.
    destruct (Hsound x Hx) as (rec & ans & Hrec & Hans & ->).
    by destruct (answers_place rec ans Hrec Hans) as (Hk & _). }
  split; [rewrite <-Hkeys; apply Hnd; constructor|]. split; [done|].
  destruct Hret as [[-> Hall]|]; [left; split; [done|]|by right].
  intros rec ans Hrec Hans.
  destruct (answers_selected rec ans Hrec Hans) as (it & Hit & Hs & _ & Ho).
  specialize (Hall it ans (proj2 (Hits it) Hit) Hs). rewrite Hkeys in Hall.
  apply list_elem_of_fmap in Hall as (x & E & Hx). injection E as E1 E2.
  destruct (Hsound x Hx) as (rec' & ans' & Hrec' & Hans' & ->). cbn in E2.
  destruct (answers_place rec' ans' Hrec' Hans') as (_ & _ & Hp).
  assert (rec' = rec) as -> by (apply survivors_inj; [done..|congruence]).
  by rewrite (answers_fun rec ans ans').
Qed.
End Answers.

(** the entry of a file in the master list, as stat describes the file *)
Definition stat_file (fs : filesystem) (t : mkdb_file_type) (name : cstr) (no : Z) : file_struct :=
  File t name no (Z.of_nat (length (default [] (fs name)))) 0 false None.

(** index files that are about to be written *)
Definition fresh_index (fs : filesystem) (f : index_fp_struct) : Prop :=
  ifp_open f = false ∧ ifp_text f = [] ∧ fs (tmp_filename f) = None.

(** after indexing, each index file holds the items of its type *)
Lemma grown_holds st fs files es files' :
  Forall (fresh_index fs) files → Forall (λ e, fine st e.2) es → grown files es files' →
  Forall2 (holds_items st fs) files' ((λ f, items_of (ifp_type f) es) <$> files') ∧
  Forall2 (λ f f', ifp_type f' = ifp_type f ∧ index_names f' = index_names f ∧
                   (items_of (ifp_type f) es ≠ [] → ifp_open f' = true)) files files'.
Proof.
  intros Hfr He G. split; induction G as [|f f' l l' (E1 & E2 & E3 & E4) _ IH]; try constructor;
    apply Forall_cons in Hfr as [(F1 & F2 & F3) Hfr]; try (by apply IH).
  - unfold holds_items. destruct (ifp_open f').
    + rewrite E4, F2, E1. cbn [app]. rewrite (file_text_items st) by done.
      assert (Forall (fine st) (items_of (ifp_type f) es)) as Hi.
      { by apply items_of_Forall. }
      split; [done|]. split; [rewrite Forall_fmap|]; (eapply Forall_impl; [exact Hi|]); by intros it [].
    + injection E2 as _ E2. by rewrite E2.
  - split; [done|]. split; [done|]. intros Hne. apply E3. right. rewrite (file_text_items st) by done.
    destruct (items_of _ es); [done|]. rewrite fmap_cons, text_cons. by destruct (item_line _).
Qed.

Lemma names_eq files files' :
  Forall2 (λ f f', index_names f' = index_names f) files files' →
  files' ≫= index_names = files ≫= index_names.
Proof. induction 1 as [|f f' l l' E _ IH]; [done|]. by rewrite !bind_cons, E, IH. Qed.

(** the items of the whole data file, as the index has them *)
Lemma concat_items regexec metaphone ni0 recs ess it :
  Forall2 (λ rec es, record_entries regexec metaphone ni0 rec (av_pair_list rec) = Ret es) recs ess →
  it ∈ items_of MKDB_EXACT_INDEX_FILE (concat ess) ↔ item_of recs it.
Proof.
  unfold item_of. intros H. induction H as [|rec es recs ess He _ IH]; cbn [concat].
  { split; [by intros ?%elem_of_nil|]. intros (? & ? & ? & []%elem_of_nil & _). }
  rewrite items_of_app, elem_of_app, IH, (record_exact_items _ _ _ _ _ _ He). split.
  - intros [(av & key & Hk & ->)|(rec' & av & key & Hr & Hk & ->)].
    + exists rec, av, key. split; [left|done].
    + exists rec', av, key. split; [by right|done].
  - intros (rec' & av & key & [->|Hr]%elem_of_cons & Hk & ->).
    + left. by exists av, key.
    + right. by exists rec', av, key.
Qed.

(** ** The whole way *)

Section Served.
Context (st : sort_style) (run_sort : list cstr → option (list cstr)).
Context (regexec : cstr → cstr → bool) (metaphone : cstr → cstr) (ni0 : netinfo).
Context (fopen_ok : cstr → bool) (check : record_check).
Context (c : class_struct) (aa : auth_area_struct) (flag : Z) (data_file : file_struct).
Context (fs : filesystem) (files : list index_fp_struct) (ix : index_fp_struct).
Context (es : list stored) (ess : list (list (attr_index_type * index_struct))).

Abbreviation records es := (live_records (placed c aa (file_no data_file) 0 es)).

(** The sort program keeps its contract and does not fail; a data file of good
    records, the live ones valid; fresh index files of all types needed, the
    exact one among them; entries whose lines are short enough for the search
    and, for the new form of the sort command, hold no colon in their value. *)
Record indexable_world : Prop := {
  iw_sort : SortProgram st run_sort;
  iw_sort_runs : ∀ ls, is_Some (run_sort ls);
  iw_schema : aa_schema aa ≠ None;
  iw_good : Forall (good_entry c) es;
  iw_text : fs (filename data_file) = Some (data_text es);
  iw_type : file_type data_file = MKDB_DATA_FILE;
  iw_ready : ready fopen_ok files;
  iw_fresh : Forall (fresh_index fs) files;
  iw_names : NoDup (filename data_file :: (files ≫= index_names));
  iw_valid : Forall (λ rec, flag = 0 ∨ check rec flag = (true, rec)) (records es);
  iw_covered : Forall (λ rec, Forall (λ av, covered files (types_of (attr_index (av_attr av))))
                                     (av_pair_list rec)) (records es);
  iw_entries : Forall2 (λ rec l, record_entries regexec metaphone ni0 rec (av_pair_list rec) = Ret l)
                       (records es) ess;
  iw_fine : Forall (λ e, fine st e.2) (concat ess);
  iw_exact : ix ∈ files ∧ ifp_type ix = MKDB_EXACT_INDEX_FILE;
  iw_some : items_of MKDB_EXACT_INDEX_FILE (concat ess) ≠ [] }.

Context (W : indexable_world).

(** indexing and sorting succeed, and leave the exact index file behind *)
Lemma index_and_sort :
  ∃ data' files1 fs' files2 its,
    index_data_file regexec metaphone ni0 fopen_ok check fs c aa data_file files flag
      = Ret (Z.of_nat (length (concat ess)), true, data', files1) ∧
    sort_index_files run_sort fs files1 = Ret (true, fs', files2) ∧
    filename data' = filename data_file ∧ file_no data' = file_no data_file ∧
    file_type data' = MKDB_DATA_FILE ∧ fp data' = None ∧
    fs' (filename data_file) = Some (data_text es) ∧
    fs' (real_filename ix) = Some (text (item_line <$> its)) ∧
    Forall (fine st) its ∧ sorted_items its ∧ (∀ it, it ∈ its ↔ item_of (records es) it).
Proof.
  destruct W as [Hsort Hok Hs Hgood Hdata Hty Hr Hfr Hnd Hc Hcov He Hfine [Hix Hixt] Hne].
  assert (Forall2 (indexable regexec metaphone ni0 files) (records es) ess) as Hind.
  { assert (Forall (Forall line_fits) ess) as Hfit by (apply Forall_concat; by eapply fine_fits).
    clear -Hcov He Hfit. revert Hfit Hcov. induction He as [|rec l recs ls He _ IH]; intros Hfit Hcov; constructor;
      apply Forall_cons in Hfit as [? ?], Hcov as [? ?]; [by split_and!|by apply IH]. }
  destruct (index_data_loop_records regexec metaphone ni0 fopen_ok check c aa (file_no data_file) flag es
              Hs Hgood (S (length (data_text es))) [] 0 0 files ess) as (files1 & Hloop & G);
    [pose proof (data_text_length es); lia|done..|].
  cbn [app length] in Hloop. rewrite !Z.add_0_l in Hloop.
  destruct (grown_holds st fs files _ files1 Hfr Hfine G) as [Hholds Hsame].
  assert (files1 ≫= index_names = files ≫= index_names) as Hnames.
  { apply names_eq. eapply Forall2_impl; [exact Hsame|]. by intros ?? (_ & ? & _). }
  apply NoDup_cons in Hnd as [Hdn Hnd].
  destruct (sort_index_files_spec st run_sort fs files1 _ Hsort Hok ltac:(by rewrite Hnames) Hholds)
    as (fs' & Hss & Hsorted & Hother).
  apply list_elem_of_lookup in Hix as [i Hi].
  destruct (Forall2_lookup_l _ _ _ _ _ Hsame Hi) as (ix' & Hi' & Ht' & Hn' & Ho').
  rewrite Hixt in *. injection Hn' as Hn' _.
  destruct (Forall2_lookup_l _ _ _ i ix' Hsorted Hi') as (its0 & Hits & Hsf).
  rewrite list_lookup_fmap, Hi' in Hits. injection Hits as <-. rewrite Ht', Hn' in Hsf.
  destruct (Hsf (Ho' Hne)) as [(its & Hp & Hso & Hfs') _].
  do 5 eexists. split; [unfold index_data_file; rewrite Hdata, Hloop; done|].
  split; [exact Hss|]. split; [done|]. split; [done|]. split; [done|]. split; [done|].
  split; [rewrite Hother; [done|by rewrite Hnames]|]. split; [exact Hfs'|].
  split; [rewrite Hp; by apply items_of_Forall|]. split; [done|].
  intros it. rewrite Hp. by apply (concat_items regexec metaphone ni0).
Qed.

(** Whatever records are deleted from the data file later, a search of the
    index lists the others that answer the query. *)
Lemma search_aged fs2 data' es2 its q max_hits xno :
  filename data' = filename data_file → file_no data' = file_no data_file →
  file_type data' = MKDB_DATA_FILE → fp data' = None →
  fs2 (filename data_file) = Some (data_text es2) → aged es es2 →
  fs2 (real_filename ix) = Some (text (item_line <$> its)) →
  Forall (fine st) its → sorted_items its → (∀ it, it ∈ its ↔ item_of (records es) it) →
  ordered_compare q → search_type q = MKDB_BINARY_SEARCH →
  ∃ r l,
    search_exact_index_file fs2 check c aa [data'] max_hits
      (stat_file fs2 MKDB_EXACT_INDEX_FILE (real_filename ix) xno) q ([], 0)
      = Ret (r, (l, Z.of_nat (length l))) ∧
    search_answers c q (records es2) xno max_hits r l.
Proof.
  intros En Eno Et Ef Hd Hage Hx Hfine Hso Hits Hq Hqt.
  pose proof (iw_good W) as Hgood. pose proof (aged_good c es es2 Hage Hgood) as Hgood2.
  set (pl := placed c aa (file_no data_file) 0 es2).
  pose proof (aged_placed c aa (file_no data_file) es es2 0 Hgood Hage) as Hpl.
  destruct (search_items fs2 check c aa [data'] q data' (data_text es2) pl (records es)) with
    (xfile := stat_file fs2 MKDB_EXACT_INDEX_FILE (real_filename ix) xno) (its := its) (max_hits := max_hits)
    as (r & l & Hsearch & Hans); try done.
  - by rewrite En.
  - cbn. unfold find_first. rewrite Et, Z.eqb_refl. done.
  - intros rec live Hin. rewrite Eno.
    destruct (read_placed check c aa (file_no data_file) es2 [] [] rec live Hgood2 Hin)
      as (? & ? & ? & ? & p & Hp). rewrite app_nil_r in Hp. split_and!; [done..|]. by exists p.
  - intros x y. apply placed_inj.
  - intros rec Hrec. unfold live_records in Hrec. apply list_elem_of_fmap in Hrec as (x & -> & [_ Hin]%list_elem_of_filter).
    apply list_elem_of_lookup in Hin as [k Hk].
    destruct (Forall2_lookup_l _ _ _ _ _ Hpl Hk) as ([rec live] & Hk2 & E & _). cbn in E. subst rec.
    exists live. by eapply list_elem_of_lookup_2.
  - unfold on_disk, stat_file. cbn. by rewrite Hx.
  - by eapply fine_index_file.
  - exists r, l. split; [done|].
    assert (∀ rec, rec ∈ survivors pl (records es) ↔ rec ∈ records es2) as Hsame.
    { intros rec. unfold survivors, live_records. fold pl. rewrite list_elem_of_filter, !list_elem_of_fmap. split.
      - intros [Hin _]. exists (rec, true). split; [done|]. by apply list_elem_of_filter.
      - intros ([rec' live] & -> & [Hl Hin]%list_elem_of_filter). cbn in Hl. subst live. split; [done|].
        apply list_elem_of_lookup in Hin as [k Hk].
        destruct (Forall2_lookup_r _ _ _ _ _ Hpl Hk) as (x & Hk2 & E & L). exists x. split; [done|].
        apply list_elem_of_filter. split; [by apply L|]. by eapply list_elem_of_lookup_2. }
    destruct Hans as (H1 & H2 & H3). split; [done|]. split.
    + intros x Hin. destruct (H2 x Hin) as (rec & ans & Hr%Hsame & ?). by exists rec, ans.
    + destruct H3 as [[-> H3]|]; [left; split; [done|]|by right]. intros rec ans Hr%Hsame. by apply H3.
Qed.

(** C1: what is indexed is found, and nothing else is.  In an indexable world,
    a data file is indexed, the index files are sorted, and the exact index
    file is searched for a value or a prefix, with any AND terms.  All three
    steps succeed; the search lists each record once, lists only records of
    the file that have the key asked for (in the attribute asked for) and pass
    the AND terms, and lists all of them unless it reports that the limit was
    reached.  Records that the file marks as deleted are not listed. *)
Theorem indexed_records_found q max_hits xno :
  ordered_compare q → search_type q = MKDB_BINARY_SEARCH →
  ∃ data' files1 fs' files2 r l,
    index_data_file regexec metaphone ni0 fopen_ok check fs c aa data_file files flag
      = Ret (Z.of_nat (length (concat ess)), true, data', files1) ∧
    sort_index_files run_sort fs files1 = Ret (true, fs', files2) ∧
    search_exact_index_file fs' check c aa [data'] max_hits
      (stat_file fs' MKDB_EXACT_INDEX_FILE (real_filename ix) xno) q ([], 0)
      = Ret (r, (l, Z.of_nat (length l))) ∧
    search_answers c q (records es) xno max_hits r l.
Proof.
  intros Hq Hqt. destruct index_and_sort as (data' & files1 & fs' & files2 & its & Hi & Hs & E1 & E2 & E3 & E4 & Hd & Hx & Hf & Hso & Hits).
  destruct (search_aged fs' data' es its q max_hits xno) as (r & l & ? & ?); try done.
  by exists data', files1, fs', files2, r, l.
Qed.

(** C2: a deleted record is gone, and only it.  After indexing and sorting, the
    live record at place [i] is deleted from the data file; the index is not
    touched.  Every search of the exact index then finds the records that
    answer it as before, the deleted one excepted. *)
Theorem deleted_record_gone i e q max_hits xno fi_list fi hit changed :
  ordered_compare q → search_type q = MKDB_BINARY_SEARCH →
  find_file_by_id fi_list (rec_data_file_no hit) MKDB_DATA_FILE = Some fi →
  filename fi = filename data_file → real_filename ix ≠ filename data_file →
  es !! i = Some e → st_live e = true →
  hit = Record_ c aa (file_no data_file) 0 (Z.of_nat (length (data_text (take i es)))) (st_pairs e) →
  ∃ data' files1 fs' files2 fs2 r l,
    index_data_file regexec metaphone ni0 fopen_ok check fs c aa data_file files flag
      = Ret (Z.of_nat (length (concat ess)), true, data', files1) ∧
    sort_index_files run_sort fs files1 = Ret (true, fs', files2) ∧
    mkdb_delete_record fs' fi_list hit changed = Ret (true, fs2, changed ++ [count_down fi]) ∧
    search_exact_index_file fs2 check c aa [data'] max_hits
      (stat_file fs2 MKDB_EXACT_INDEX_FILE (real_filename ix) xno) q ([], 0)
      = Ret (r, (l, Z.of_nat (length l))) ∧
    search_answers c q (records (kill_at i es)) xno max_hits r l ∧
    (∀ rec, rec ∈ records (kill_at i es) ↔ rec ∈ records es ∧ rec ≠ hit).
Proof.
  intros Hq Hqt Hfi Hfn Hne Hi Hl ->.
  destruct index_and_sort as (data' & files1 & fs' & files2 & its & Hix & Hs & E1 & E2 & E3 & E4 & Hd & Hx & Hf & Hso & Hits).
  pose proof (iw_good W) as Hgood.
  destruct (delete_entry c es i e fs' fi_list fi
    (Record_ c aa (file_no data_file) 0 (Z.of_nat (length (data_text (take i es)))) (st_pairs e)) changed)
    as [Hdel _]; [done|by rewrite Hfn|done..|]. rewrite Hfn in Hdel.
  set (fs2 := upd fs' (filename data_file) (Some (data_text (kill_at i es)))) in *.
  destruct (search_aged fs2 data' (kill_at i es) its q max_hits xno) as (r & l & Hsearch & Hans); try done.
  - unfold fs2, upd. by rewrite bool_decide_true.
  - apply kill_at_aged.
  - unfold fs2, upd. by rewrite bool_decide_false.
  - exists data', files1, fs', files2, fs2, r, l. split_and!; try done.
    intros rec. by apply (live_records_kill c aa (file_no data_file) es i e).
Qed.
End Served.

Definition demo_source : file_struct := File MKDB_DATA_FILE ($"d.txt") 1 0 0 false None.
Definition demo_disk : filesystem := λ n,
  if bool_decide (n = $"d.txt") then Some (data_text demo_records) else None.
Definition demo_index_fp : index_fp_struct :=
  IndexFp MKDB_EXACT_INDEX_FILE false ($"x.ndx") ($"x.ndx.tmp") ($"x") [].
Definition demo_schema_area : auth_area_struct := AuthArea ($"a.com") (Some (Schema [] [])) AUTH_AREA_PRIMARY None no_soa None None None None 0 None None.
Abbreviation demo_live := (live_records (placed demo_class demo_schema_area 1 0 demo_records)).
Definition demo_entries : list (list (attr_index_type * index_struct)) :=
  (λ rec, match record_entries (λ _ _, true) (λ w, w) demo_ni rec (av_pair_list rec) with
          | Ret es => es | _ => [] end) <$> demo_live.

(** [fine] as a test *)
Definition fine_check (st : sort_style) (it : index_struct) : bool :=
  match value it with
  | None => false
  | Some v =>
      bool_decide (int64 (offset it)) && bool_decide (int32 (data_file_no it))
      && bool_decide (int32 (deleted_flag it)) && bool_decide (int32 (attribute_id it))
      && bool_decide (v ≠ []) && bool_decide (NUL ∉ v) && bool_decide (is_line (item_line it))
      && bool_decide (clean (item_line it) = item_line it)
      && bool_decide (length (item_line it) ≤ 255)%nat
      && match st with OLD_STYLE_SORT => true | _ => bool_decide (COLON ∉ v) end
  end.
Lemma fine_check_fine st it : fine_check st it = true → fine st it.
Proof.
  unfold fine_check. destruct (value it) as [v|] eqn:Ev; [|done].
  rewrite !andb_true_iff, !bool_decide_eq_true. intros (((((((((? & ?) & ?) & ?) & ?) & ?) & ?) & ?) & ?) & Hst).
  split; try done.
  - split; try done. by exists v.
  - exists v. split; [done|]. destruct st; [by left|right]. by apply bool_decide_eq_true in Hst.
Qed.

Lemma demo_indexable :
  indexable_world OLD_STYLE_SORT (sort_lines OLD_STYLE_SORT) (λ _ _, true) (λ w, w) demo_ni
    (λ _, true) no_check demo_class demo_schema_area 0 demo_source demo_disk [demo_index_fp]
    demo_index_fp demo_records demo_entries.
Proof.
  split.
  - apply _.
  - intros ls. by eexists.
  - discriminate.
  - apply demo_full_records.
  - reflexivity.
  - reflexivity.
  - split; [apply NoDup_singleton|by repeat constructor; right].
  - by repeat constructor.
  - apply (bool_decide_unpack _). vm_compute. exact I.
  - apply Forall_forall. by left.
  - apply (bool_decide_unpack _). vm_compute. exact I.
  - apply Forall2_fmap_r, Forall_Forall2_diag. repeat (constructor; [vm_compute; reflexivity|]). constructor.
  - repeat (constructor; [apply fine_check_fine; vm_compute; reflexivity|]). constructor.
  - split; [left|done].
  - vm_compute. discriminate.
Qed.

Lemma indexed_records_found_witness :
  let q := demo_query ($"WWW: THE HOST") in
  ∃ data' files1 fs' files2 r l,
    index_data_file (λ _ _, true) (λ w, w) demo_ni (λ _, true) no_check demo_disk demo_class
      demo_schema_area demo_source [demo_index_fp] 0 = Ret (6, true, data', files1) ∧
    sort_index_files (sort_lines OLD_STYLE_SORT) demo_disk files1 = Ret (true, fs', files2) ∧
    search_exact_index_file fs' no_check demo_class demo_schema_area [data'] 0
      (stat_file fs' MKDB_EXACT_INDEX_FILE ($"x.ndx") 2) q ([], 0) = Ret (r, (l, Z.of_nat (length l))) ∧
    search_answers demo_class q demo_live 2 0 r l.
Proof.
  intros q. apply (indexed_records_found _ _ _ _ _ _ _ _ _ _ _ _ _ _ _ _ demo_indexable q 0 2).
  - by left.
  - reflexivity.
Defined.

Lemma deleted_record_gone_witness :
  let q := demo_query ($"WWW: THE HOST") in
  let gone := live_records (placed demo_class demo_schema_area 1 0 (kill_at 0 demo_records)) in
  let hit := Record_ demo_class demo_schema_area 1 0 0 demo_pairs in
  ∃ data' files1 fs' files2 fs2 r l,
    index_data_file (λ _ _, true) (λ w, w) demo_ni (λ _, true) no_check demo_disk demo_class
      demo_schema_area demo_source [demo_index_fp] 0 = Ret (6, true, data', files1) ∧
    sort_index_files (sort_lines OLD_STYLE_SORT) demo_disk files1 = Ret (true, fs', files2) ∧
    mkdb_delete_record fs' [demo_source] hit [] = Ret (true, fs2, [count_down demo_source]) ∧
    search_exact_index_file fs2 no_check demo_class demo_schema_area [data'] 0
      (stat_file fs2 MKDB_EXACT_INDEX_FILE ($"x.ndx") 2) q ([], 0) = Ret (r, (l, Z.of_nat (length l))) ∧
    search_answers demo_class q gone 2 0 r l ∧
    (∀ rec, rec ∈ gone ↔ rec ∈ demo_live ∧ rec ≠ hit).
Proof.
  intros q gone hit.
  apply (deleted_record_gone _ _ _ _ _ _ _ _ _ _ _ _ _ _ _ _ demo_indexable 0 (Stored demo_pairs true)
           q 0 2 [demo_source] demo_source hit []); try reflexivity; [by left|discriminate].
Defined.

(** ** The new form of the sort command *)

Definition ipv6_key (s : cstr) : cstr :=
  match get_network_prefix_and_len (Some s) demo_ni with
  | Some ni => match write_network (Some (replicate 512 NUL)) ni with
               | Ret (_, Some b) => cstring b | _ => [] end
  | None => []
  end.
Definition ipv6_items : list index_struct :=
  [IndexItem 0 1 0 2 (Some (ipv6_key ($"2001:db8:2::/48")));
   IndexItem 300 1 0 2 (Some (ipv6_key ($"2001:db8:1::/48")))].

(** The new form of the sort command takes the text after the value's first
    colon for another field, so it does not order the values.  Whatever program
    keeps its contract, it puts these two networks into an order in which the
    binary search does not find the first one. *)
Theorem new_style_sort_misses run_sort ls :
  SortProgram NEW_STYLE_BIN_SORT run_sort →
  run_sort (item_line <$> ipv6_items) = Some ls →
  let fs : filesystem := λ _, Some (text ls) in
  let file := stat_file fs MKDB_CIDR_INDEX_FILE ($"x.ndx") 7 in
  binary_search fs file (demo_query (ipv6_key ($"2001:db8:2::/48"))) = Ret (-1, file).
Proof.
  intros Hs Hr. assert (ls = item_line <$> ipv6_items) as ->.
  { pose proof (sort_permutes _ _ Hr) as Hp. pose proof (sort_orders _ _ Hr) as Ho.
    symmetry in Hp. destruct (Permutation_length_2_inv Hp) as [->|E]; [done|].
    rewrite E in Ho. apply StronglySorted_cons in Ho as [Ho _]. apply Forall_cons in Ho as [Ho _].
    exfalso. revert Ho. unfold in_order. vm_compute. by intros []. }
  vm_compute. reflexivity.
Qed.

Lemma new_style_sort_misses_witness :
  let fs : filesystem := λ _, Some (text (item_line <$> ipv6_items)) in
  let file := stat_file fs MKDB_CIDR_INDEX_FILE ($"x.ndx") 7 in
  binary_search fs file (demo_query (ipv6_key ($"2001:db8:2::/48"))) = Ret (-1, file).
Proof.
  apply (new_style_sort_misses (sort_lines NEW_STYLE_BIN_SORT)); [apply _|]. vm_compute. reflexivity.
Defined.
