(* ===== verification/Soa.v ===== *)
(** * The zone of areas: -soa (server/soa.c)

    The directive reads the zone files of the areas again, as a registration
    may have changed them, and prints what they hold: of the areas that it
    names, or of all. *)

From S2P Require Import Prelude CLib CString Misc DlList IpNetwork Types ClientMsgs Checks Stdio ConfigFile AuthArea Answers.
Local Open Scope Z_scope.

Section Soa.
Context (regexec : cstr → cstr → bool) (fs : filesystem).

(** an area is its place in the list of the areas, which the directive changes *)
Definition area_index (areas : list auth_area_struct) (name : cstr) : option nat :=
  match name with [] => None | _ => fst <$> list_find (λ a, STR_EQ (aa_name a) name = true) areas end.
Fixpoint soa_areas (areas : list auth_area_struct) (names : list cstr) (z : DL.cursor nat) : check (list nat) :=
  match names with
  | [] => pass (DL.elems z)
  | name :: names =>
      match area_index areas name with
      | None => reject [print_error INVALID_AUTH_AREA []]
      | Some i => soa_areas areas names (DL.z_insert i z)
      end
  end.
Definition soa_parse_args (areas : list auth_area_struct) (str : cstr) : check (list nat) :=
  argv ← arguments str;
  match argv with
  | [] => reject invalid_param
  | _ => soa_areas areas argv None
  end.

Definition soa_display_auth_area (aa : auth_area_struct) : list message :=
  let soa := aa_soa aa in
  match serial_no soa with
  | [] => []
  | serial =>
      let line (tag : string) (v : cstr) := print_response RESP_SOA (lit tag ++ v) in
      [line "authority:" (aa_name aa); line "ttl:" (print_Z (time_to_live soa)); line "serial:" serial;
       line "refresh:" (print_Z (refresh_interval soa)); line "increment:" (print_Z (increment_interval soa));
       line "retry:" (print_Z (retry_interval soa)); line "hostmaster:" (SAFE_STR_NONE (hostmaster soa));
       line "primary:" (SAFE_STR_NONE (primary_server soa)); print_response RESP_SOA []]
  end.
Definition soa_display_auth_areas (areas : list auth_area_struct) (l : list nat) : list message :=
  l ≫= λ i, match areas !! i with Some aa => soa_display_auth_area aa | None => [] end.

(** a file that is not there leaves the area without its zone *)
Definition update_soa_auth_area (aa : auth_area_struct) : outcome (bool * auth_area_struct) :=
  read_soa_file regexec fs (with_soa (destroy_soa (aa_soa aa)) aa).
Fixpoint update_soa_auth_area_list (areas : list auth_area_struct) (l : list nat) : outcome (list auth_area_struct) :=
  match l with
  | [] => Ret areas
  | i :: l =>
      match areas !! i with
      | Some aa => '(_, aa) ← update_soa_auth_area aa; update_soa_auth_area_list (<[i := aa]> areas) l
      | None => update_soa_auth_area_list areas l
      end
  end.

(** the answer with the areas behind it *)
Definition soa_directive (areas : list auth_area_struct) (str : cstr) : check (list auth_area_struct) :=
  l ← match str with [] => pass (seq 0 (length areas)) | _ => soa_parse_args areas str end;
  areas ← lift (update_soa_auth_area_list areas l);
  _ ← tell (soa_display_auth_areas areas l);
  pass areas.
End Soa.

(** ** The zone of an area is what its file holds *)

Lemma area_index_found areas name i : area_index areas name = Some i →
  ∃ aa, areas !! i = Some aa ∧ find_auth_area_by_name areas (Some name) = Some aa.
Proof.
  unfold area_index, find_auth_area_by_name. destruct name as [|c name]; [done|]. cbn [STR_EXISTS].
  destruct (list_find _ areas) as [[j aa]|] eqn:E; [|done]. intros [= <-]. apply list_find_Some in E as (Hj & Hp & Hn).
  exists aa. split; [done|]. revert j Hj Hn. induction areas as [|a areas IH]; intros j Hj Hn; [done|]. cbn [find_first].
  destruct (STR_EQ (aa_name a) (c :: name)) eqn:Ea.
  - destruct j as [|j]; [cbn in Hj; congruence|]. destruct (Hn 0%nat a); [done|lia|done].
  - destruct j as [|j]; [cbn in Hj; injection Hj as ->; congruence|]. apply (IH j); [done|]. intros k b Hk Hlt. apply (Hn (S k) b); [done|lia].
Qed.

(** -soa answers for an area what its zone file holds now, and no other area
    changes *)
Lemma soa_directive_one regexec fs areas str name aa i ok aa' :
  split_args (Some str) = Ret (Some [name]) → area_index areas name = Some i → areas !! i = Some aa →
  update_soa_auth_area regexec fs aa = Ret (ok, aa') →
  soa_directive regexec fs areas str = Ret (Accepted (<[i := aa']> areas), soa_display_auth_area aa').
Proof.
  intros Hs Hi Ha Hu. unfold soa_directive. destruct str as [|c str]; [by vm_compute in Hs|].
  unfold soa_parse_args, arguments. rewrite Hs. cbn [lift mbind check_bind pass mret check_ret default]. unfold id.
  cbn [soa_areas]. rewrite Hi. cbn [soa_areas pass mret check_ret DL.z_insert DL.elems app update_soa_auth_area_list lift].
  unfold mbind, check_bind. cbn [update_soa_auth_area_list]. rewrite Ha, Hu. cbn [mbind outcome_bind lift tell app].
  unfold soa_display_auth_areas. cbn [mbind list_bind]. rewrite list_lookup_insert_eq by (by eapply lookup_lt_Some).
  cbn [pass mret check_ret]. by rewrite !app_nil_r.
Qed.
