(* ===== verification/Slave.v ===== *)
(** * The slave of a master server (server/sresponse.c, ssoa.c, sschema.c, sxfer.c)

    A secondary area is copied from its master: the slave connects to it, sends
    -soa, -schema and -xfer, and makes the zone file, the schema with its
    attribute files, and the data files of the area from the answers.  What the
    master sends is the argument [stream], the text that is read from the
    connection. *)

From S2P Require Import Prelude CLib CString Misc IpNetwork Types ClientMsgs Checks Stdio FileInfo ConfigFile Attributes AuthArea Answers Soa.
Local Open Scope Z_scope.

(** ** Responses (sresponse.c) *)

Fixpoint strstr (s d : cstr) : bool := bool_decide (d `prefix_of` s) || match s with [] => false | _ :: s => strstr s d end.

(** what is added to the response, and whether it goes on *)
Definition processline (line delimiter : cstr) : option cstr * bool :=
  if strstr line delimiter then
    match strchr line SP with Some p => (Some (drop (S p) line), true) | None => (None, false) end
  else (None, negb (strstr line ($"%ok") || strstr line ($"%error"))).

Fixpoint recv_loop (fuel : nat) (stream : cstr) (pos : nat) (delimiter : cstr) (response : list cstr) : outcome (list cstr * nat) :=
  match fuel with
  | O => NoFuel
  | S fuel =>
      match readline stream pos MAX_LINE with
      | None => Ret (response, pos)
      | Some (line, pos) =>
          let '(str, not_done) := processline line delimiter in
          let response := response ++ option_list str in
          if not_done : bool then recv_loop fuel stream pos delimiter response else Ret (response, pos)
      end
  end.
Definition recv_response (stream : cstr) (pos : nat) (delimiter : cstr) : outcome (list cstr * nat) :=
  recv_loop (S (length stream)) stream pos delimiter [].

(** the responses up to the first empty one, each given to [record] *)
Fixpoint responses {A} (fuel : nat) (stream : cstr) (pos : nat) (delimiter : cstr) (record : list cstr → A → outcome (bool * A)) (rval : bool) (a : A) :
    outcome (bool * A) :=
  match fuel with
  | O => NoFuel
  | S fuel =>
      '(response, pos) ← recv_response stream pos delimiter;
      match response with
      | [] => Ret (rval, a)
      | _ => '(ok, a) ← record response a; responses fuel stream pos delimiter record (rval || ok) a
      end
  end.

(** sprintf to the array of MAX_LINE bytes: the line that is sent *)
Definition directive_line (s : cstr) : outcome cstr :=
  if decide (length s + 2 < MAX_LINE)%nat then Ret (s ++ [chr 13; NL]) else Fault.

(** ** The zone file (ssoa.c) *)

(** the line that is written for a line of the answer *)
Definition soa_line (tag value : cstr) : list cstr :=
  let named t := STR_EQ tag (lit t) in
  let line (t : string) := [field (lit t) 1 value] in
  if named "ttl"%string then line "Time-To-Live"%string
  else if named "serial"%string then line "Serial-Number"%string
  else if named "refresh"%string then line "Refresh-Interval"%string
  else if named "increment"%string then line "Increment-Interval"%string
  else if named "retry"%string then line "Retry-Interval"%string
  else if named "hostmaster"%string then line "Hostmaster"%string
  else if named "primary"%string then line "Primary-Server"%string
  else [].
(** [fp]: the lines in the file *)
Fixpoint create_soa_loop (response : list cstr) (fp : list cstr) : bool * list cstr :=
  match response with
  | [] => (true, fp)
  | str :: response =>
      match parse_line (Some str) with
      | None => (false, fp)
      | Some (tag, value) => create_soa_loop response (fp ++ soa_line tag value)
      end
  end.
Definition create_soa_file_record (response fp : list cstr) : outcome (bool * list cstr) :=
  Ret match response with [] => (false, fp) | _ => create_soa_loop response fp end.

(** [lock_ok]: the file could be locked and opened *)
Definition create_soa_file (stream : cstr) (lock_ok : bool) (fs : filesystem) (aa : auth_area_struct) : outcome (bool * filesystem) :=
  _ ← directive_line ($"-soa " ++ aa_name aa);
  file ← of_option (soa_file aa);
  if negb lock_ok then Ret (false, fs)
  else
    '(rval, fp) ← responses (S (length stream)) stream 0 ($"%soa") create_soa_file_record false [];
    Ret (rval, upd fs file (Some (text fp))).

(** ** The answer of a master *)

(** the line of a response *)
Definition wire (delimiter t : cstr) : cstr := delimiter ++ match t with [] => [] | _ => SP :: t end.
(** the lines of a response, which an empty one ends *)
Definition response_lines (d : cstr) (r : list cstr) : list cstr := ((λ b, d ++ SP :: b) <$> r) ++ [d].
(** a line that readline gives as it is *)
Definition wired (l : cstr) : Prop := is_line l ∧ clean l = l ∧ (length l + 1 < MAX_LINE)%nat.
#[export] Instance wired_dec l : Decision (wired l).
Proof. unfold wired, is_line. apply _. Defined.
(** a line that belongs to no response and ends none *)
Definition passed_over (delimiter l : cstr) : Prop :=
  strstr l delimiter = false ∧ strstr l ($"%ok") = false ∧ strstr l ($"%error") = false.
#[export] Instance passed_over_dec delimiter l : Decision (passed_over delimiter l).
Proof. unfold passed_over. apply _. Defined.

Lemma strstr_prefix s d : d `prefix_of` s → strstr s d = true.
Proof. intros H. destruct s; cbn [strstr]; by rewrite bool_decide_true. Qed.
Lemma processline_item d b : SP ∉ d → processline (d ++ SP :: b) d = (Some b, true).
Proof.
  intros Hd. unfold processline. rewrite strstr_prefix by by eexists. rewrite strchr_app by done.
  do 2 f_equal. change (d ++ SP :: b) with (d ++ [SP] ++ b). rewrite (app_assoc d).
  replace (S (length d)) with (length (d ++ [SP])) by (rewrite length_app; cbn; lia). apply drop_app_length.
Qed.
Lemma processline_end d : SP ∉ d → processline d d = (None, false).
Proof. intros Hd. unfold processline. rewrite strstr_prefix by done. by rewrite (proj2 (strchr_None _ _) Hd). Qed.
Lemma processline_passed d l : passed_over d l → processline l d = (None, true).
Proof. intros (H1 & H2 & H3). unfold processline. by rewrite H1, H2, H3. Qed.

Section Received.
Context (d : cstr) (d_plain : SP ∉ d).

Lemma recv_line fuel pre l rest acc : wired l →
  recv_loop (S fuel) (pre ++ l ++ NL :: rest) (length pre) d acc =
    (let '(str, not_done) := processline l d in
     if not_done then recv_loop fuel ((pre ++ l ++ [NL]) ++ rest) (length (pre ++ l ++ [NL])) d (acc ++ option_list str)
     else Ret (acc ++ option_list str, length (pre ++ l ++ [NL]))).
Proof.
  intros (Hl & Hc & Hlen). cbn [recv_loop]. rewrite readline_at by done. rewrite Hc.
  assert (length (pre ++ l ++ [NL]) = length pre + length l + 1)%nat as -> by (rewrite !length_app; cbn; lia).
  rewrite <-!app_assoc. cbn [app]. by destruct (processline l d) as [str []].
Qed.
Lemma recv_passed ls : ∀ fuel pre rest acc, Forall wired ls → Forall (passed_over d) ls → (length ls ≤ fuel)%nat →
  recv_loop fuel (pre ++ text ls ++ rest) (length pre) d acc =
  recv_loop (fuel - length ls) ((pre ++ text ls) ++ rest) (length (pre ++ text ls)) d acc.
Proof.
  induction ls as [|l ls IH]; intros fuel pre rest acc Hw Hp Hf.
  { change (text []) with (@nil ascii). by rewrite app_nil_r, Nat.sub_0_r. }
  destruct fuel as [|fuel]; [cbn in Hf; lia|]. apply Forall_cons in Hw as [Hw Hws], Hp as [Hp Hps].
  rewrite text_cons, <-!app_assoc. cbn [app]. rewrite recv_line, processline_passed by done. cbn [option_list from_option].
  rewrite app_nil_r. rewrite IH by (done || (cbn in Hf; lia)). cbn [length Nat.sub]. by rewrite <-!app_assoc.
Qed.
Lemma recv_items bs : ∀ fuel pre rest acc, wired d → Forall (λ b, wired (d ++ SP :: b)) bs → (length bs < fuel)%nat →
  recv_loop fuel (pre ++ text (response_lines d bs) ++ rest) (length pre) d acc = Ret (acc ++ bs, length (pre ++ text (response_lines d bs))).
Proof.
  unfold response_lines.
  induction bs as [|b bs IH]; intros fuel pre rest acc Hd Hw Hf; (destruct fuel as [|fuel]; [cbn in Hf; lia|]).
  - cbn [fmap list_fmap app]. rewrite !text_cons. change (text []) with (@nil ascii). rewrite <-!app_assoc. cbn [app].
    rewrite recv_line, processline_end by done. cbn [option_list from_option]. done.
  - apply Forall_cons in Hw as [Hw Hws]. rewrite fmap_cons. cbn [app]. rewrite text_cons, <-!app_assoc. cbn [app].
    change (d ++ SP :: b ++ NL :: ?x) with (d ++ (SP :: b) ++ NL :: x). rewrite (app_assoc d).
    rewrite recv_line, processline_item by done. cbn [option_list from_option].
    rewrite IH by (done || (cbn in Hf; lia)). rewrite <-!app_assoc. done.
Qed.
End Received.

Lemma text_size ls : (length ls ≤ length (text ls))%nat.
Proof. induction ls as [|l ls IH]; [done|]. rewrite text_cons, length_app. cbn. lia. Qed.

Lemma responses_length d rs : (length rs ≤ length (rs ≫= response_lines d))%nat.
Proof.
  induction rs as [|r rs IH]; [cbn; lia|]. rewrite bind_cons, length_app. unfold response_lines at 1. rewrite length_app. cbn [length]. lia.
Qed.

(** what the records of the answers are given to, one after another *)
Fixpoint feed {A} (record : list cstr → A → outcome (bool * A)) (rs : list (list cstr)) (rval : bool) (a : A) : outcome (bool * A) :=
  match rs with
  | [] => Ret (rval, a)
  | r :: rs => '(ok, a) ← record r a; feed record rs (rval || ok) a
  end.

Section Answers.
Context {A : Type} (record : list cstr → A → outcome (bool * A)) (d : cstr).
Context (d_plain : SP ∉ d) (d_wired : wired d).

Lemma responses_fed last_line rest rs : wired last_line → strstr last_line d = false →
  strstr last_line ($"%ok") || strstr last_line ($"%error") = true →
  Forall (λ r, r ≠ [] ∧ Forall (λ b, wired (d ++ SP :: b)) r) rs → ∀ fuel pre rval a, (length rs < fuel)%nat →
  responses fuel (pre ++ text (rs ≫= response_lines d) ++ last_line ++ NL :: rest) (length pre) d record rval a = feed record rs rval a.
Proof.
  intros Hw Hd Hend H. induction H as [|r rs [Hne Hr] _ IH]; intros fuel pre rval a Hf; (destruct fuel as [|fuel]; [cbn in Hf; lia|]);
    cbn [responses feed mbind list_bind]; unfold recv_response.
  - change (text []) with (@nil ascii). cbn [app]. rewrite recv_line by done.
    unfold processline. rewrite Hd, Hend. done.
  - rewrite text_app. rewrite <-(app_assoc (text _)). rewrite recv_items; [|done..|].
    + cbn [app mbind outcome_bind]. destruct r as [|b r]; [done|]. destruct (record (b :: r) a) as [[ok a']| |]; [|done..].
      cbn [mbind outcome_bind]. rewrite (app_assoc pre). apply IH. cbn in Hf. lia.
    + pose proof (text_size (response_lines d r)) as Hs. unfold response_lines at 1 in Hs. rewrite length_app, length_fmap in Hs. cbn [length] in Hs.
      rewrite !length_app in *. lia.
Qed.

(** lines that the master sends before its answer do not count *)
Lemma answers_fed before last_line rest rs fuel rval a :
  Forall wired before → Forall (passed_over d) before → wired last_line → strstr last_line d = false →
  strstr last_line ($"%ok") || strstr last_line ($"%error") = true →
  Forall (λ r, r ≠ [] ∧ Forall (λ b, wired (d ++ SP :: b)) r) rs → (length rs < fuel)%nat →
  responses fuel (text before ++ text (rs ≫= response_lines d) ++ last_line ++ NL :: rest) 0 d record rval a = feed record rs rval a.
Proof.
  intros Hb Hp Hw Hd Hend H Hf. destruct fuel as [|fuel]; [lia|]. cbn [responses]. unfold recv_response.
  set (f := text before ++ _). pose proof (text_size before) as Hs.
  assert (length (text before) + length (text (rs ≫= response_lines d)) + length last_line < length f)%nat as Hlen.
  { unfold f. rewrite !length_app. cbn [length]. lia. }
  pose proof (recv_passed d before (S (length f)) [] (text (rs ≫= response_lines d) ++ last_line ++ NL :: rest) [] Hb Hp ltac:(lia)) as E.
  cbn [app length] in E. fold f in E. rewrite E. clear E.
  destruct H as [|r rs [Hne Hr] H]; cbn [feed mbind list_bind].
  - destruct (S (length f) - length before)%nat as [|n] eqn:En; [lia|]. unfold f. cbn [mbind list_bind].
    change (text []) with (@nil ascii). cbn [app]. rewrite recv_line by done. unfold processline. rewrite Hd, Hend. done.
  - remember (S (length f) - length before)%nat as n eqn:En. cbn [mbind list_bind] in Hlen. rewrite text_app in Hlen. unfold f.
    cbn [mbind list_bind]. rewrite text_app. rewrite <-(app_assoc (text _)). rewrite recv_items; [|done..|].
    + cbn [app mbind outcome_bind]. destruct r as [|b r]; [done|]. destruct (record (b :: r) a) as [[ok a']| |]; [|done..].
      cbn [mbind outcome_bind]. rewrite (app_assoc (text before)). apply responses_fed; try done. cbn in Hf. lia.
    + pose proof (text_size (response_lines d r)) as Hs2. unfold response_lines at 1 in Hs2. rewrite length_app, length_fmap in Hs2.
      cbn [length] in Hs2. rewrite length_app in Hlen. lia.
Qed.
End Answers.

(** what print_response prints *)
Lemma print_responses resp flag ts more : response_msg resp ≠ ""%string →
  print_messages flag ((print_response resp <$> ts) ++ more) = text (wire (lit (response_msg resp)) <$> ts) ++ print_messages flag more.
Proof.
  intros Hr. induction ts as [|t ts IH]; [done|]. rewrite !fmap_cons. cbn [app print_messages print_message].
  rewrite IH, text_cons. rewrite (bool_decide_true _ Hr). unfold wire. destruct t as [|c t]; cbn [bool_decide andb].
  - by rewrite !app_nil_r, <-!app_assoc.
  - rewrite (bool_decide_true (c :: t ≠ [])) by done. rewrite <-!app_assoc. cbn [app]. by rewrite <-?app_assoc.
Qed.
Lemma print_record resp flag r more : response_msg resp ≠ ""%string → Forall (λ b, b ≠ []) r →
  print_messages flag ((print_response resp <$> r) ++ print_response resp [] :: more) =
  text (response_lines (lit (response_msg resp)) r) ++ print_messages flag more.
Proof.
  intros Hr Hb. change (print_response resp [] :: more) with ((print_response resp <$> [[]]) ++ more).
  rewrite app_assoc, <-fmap_app, print_responses by done. f_equal. f_equal. unfold response_lines. rewrite fmap_app. f_equal.
  - induction Hb as [|b r Hb _ IH]; [done|]. rewrite !fmap_cons, IH. unfold wire. by destruct b.
  - unfold wire. cbn. by rewrite app_nil_r.
Qed.

(** what can be sent in a line of an answer *)
Definition sendable (d t : cstr) : Prop :=
  t ≠ [] ∧ Forall (λ c, iscntrl c = false) t ∧ rtrim_s t = t ∧ (length d + length t + 2 < MAX_LINE)%nat.
#[export] Instance sendable_dec d t : Decision (sendable d t).
Proof. unfold sendable. apply _. Defined.
Definition good_delimiter (d : cstr) : Prop := Forall (λ c, iscntrl c = false) d ∧ trim_s d = d ∧ head d = Some (chr 37) ∧ SP ∉ d ∧ (length d < 20)%nat.
#[export] Instance good_delimiter_dec d : Decision (good_delimiter d).
Proof. unfold good_delimiter. apply _. Defined.
Lemma delimiter_wired d : good_delimiter d → wired d.
Proof.
  intros (Hc & Ht & _ & _ & Hl). split_and!; [by apply cntrl_NUL_NL| |unfold MAX_LINE; lia].
  unfold clean. by rewrite strip_control_clean.
Qed.
Lemma sendable_wired d t : good_delimiter d → sendable d t → wired (d ++ SP :: t).
Proof.
  intros (Hc & _ & Hh & _ & Hl) (Hne & Ht & Hr & Hlen).
  assert (Forall (λ c, iscntrl c = false) (d ++ SP :: t)) as Hall by (apply Forall_app; split; [done|by constructor]).
  split_and!.
  - by apply cntrl_NUL_NL.
  - unfold clean. rewrite strip_control_clean by done. unfold trim_s. change (d ++ SP :: t) with (d ++ [SP] ++ t).
    rewrite (app_assoc d), rtrim_app by done. destruct d as [|c d]; [done|]. injection Hh as ->. done.
  - rewrite length_app. cbn [length]. lia.
Qed.

(** a line of two tags and a value *)
Definition tuple_text (class tag v : cstr) : cstr := field class 0 (field tag 0 v).
Lemma field_parsed tag v : good_tag tag = true → ltrim_s v = v → parse_line (Some (field tag 0 v)) = Some (tag, v).
Proof.
  intros Hg Hv. destruct (good_tag_chars _ Hg) as (c & tag' & E & Ha & Hch & Hr).
  assert (chr 58 ∉ tag) as Hc by (intros Hin; rewrite Forall_forall in Hch; by destruct (Hch _ Hin)).
  destruct (parse_line_spec tag [] [] v Hc Hr Hv ltac:(constructor) ltac:(constructor)) as [P _]. cbn [app] in P.
  unfold field. cbn [replicate app]. rewrite P. rewrite bool_decide_false; [done|]. subst tag.
  destruct (head_not_space_alpha c Ha) as (Hsp & _). unfold ltrim_s. cbn [dropwhile]. rewrite Hsp. intros [= ->]. done.
Qed.
Lemma tuple_parsed class tag v : good_tag class = true → good_tag tag = true → ltrim_s v = v →
  get_tuple (Some (tuple_text class tag v)) = Some (class, tag, v).
Proof.
  intros Hc Ht Hv. unfold get_tuple, tuple_text. rewrite field_parsed; [|done|].
  - by rewrite field_parsed.
  - destruct (good_tag_chars _ Ht) as (c & tag' & -> & Ha & _). destruct (head_not_space_alpha c Ha) as (Hsp & _).
    unfold ltrim_s, field. cbn [app dropwhile]. by rewrite Hsp.
Qed.
Lemma tuple_sendable d class tag v : good_delimiter d → good_tag class = true → good_tag tag = true →
  Forall (λ c, iscntrl c = false) v → v ≠ [] → rtrim_s v = v → (length d + length class + length tag + length v + 4 < MAX_LINE)%nat →
  sendable d (tuple_text class tag v).
Proof.
  intros Hd Hc Ht Hv Hne Hr Hlen. destruct (good_tag_chars _ Hc) as (c & class' & Ec & _ & Hcc & _).
  destruct (good_tag_chars _ Ht) as (c' & tag' & Et & _ & Htc & _). unfold tuple_text, field. cbn [replicate app]. split_and!.
  - by rewrite Ec.
  - apply Forall_app. split; [eapply Forall_impl; [exact Hcc|by intros ? []]|]. constructor; [done|].
    apply Forall_app. split; [eapply Forall_impl; [exact Htc|by intros ? []]|]. by constructor.
  - change (class ++ chr 58 :: tag ++ chr 58 :: v) with (class ++ [chr 58] ++ tag ++ [chr 58] ++ v).
    rewrite !app_assoc. by apply rtrim_app.
  - rewrite length_app. cbn [length]. rewrite length_app. cbn [length]. lia.
Qed.

(** ** A zone is copied *)

Definition soa_items (aa : auth_area_struct) : list (cstr * cstr) :=
  let soa := aa_soa aa in
  [($"authority", aa_name aa); ($"ttl", print_Z (time_to_live soa)); ($"serial", serial_no soa); ($"refresh", print_Z (refresh_interval soa));
   ($"increment", print_Z (increment_interval soa)); ($"retry", print_Z (retry_interval soa)); ($"hostmaster", default [] (hostmaster soa));
   ($"primary", default [] (primary_server soa))].
Definition item_text (td : cstr * cstr) : cstr := field td.1 0 td.2.
(** the lines in the file of the slave *)
Definition copied_fields (soa : soa_struct) : list (cstr * cstr) :=
  [($"Time-To-Live", print_Z (time_to_live soa)); ($"Serial-Number", serial_no soa); ($"Refresh-Interval", print_Z (refresh_interval soa));
   ($"Increment-Interval", print_Z (increment_interval soa)); ($"Retry-Interval", print_Z (retry_interval soa));
   ($"Hostmaster", default [] (hostmaster soa)); ($"Primary-Server", default [] (primary_server soa))].

Lemma item_sendable d td : good_delimiter d → good_field td → sendable d (item_text td).
Proof.
  intros (_ & _ & _ & _ & Hl) (Hg & Ht & (Hne & Hc & Hlt & Hr) & Hd). unfold item_text.
  destruct (good_tag_chars _ Hg) as (c & tag' & Etag & _ & Hch & _). split_and!.
  - rewrite Etag. done.
  - apply Forall_app. split; [eapply Forall_impl; [exact Hch|by intros ? []]|]. by constructor.
  - unfold field. change (td.1 ++ chr 58 :: replicate 0 SP ++ td.2) with (td.1 ++ [chr 58] ++ td.2). rewrite app_assoc. by apply rtrim_app.
  - unfold field. rewrite length_app. cbn [length replicate app]. unfold MAX_TEMPLATE_DESC in Hd. unfold MAX_LINE. lia.
Qed.
Lemma item_parsed td : good_field td → parse_line (Some (item_text td)) = Some td.
Proof.
  intros (Hg & Ht & Hd & Hl). destruct (field_read td.1 0 td.2 Hg Hd) as (_ & _ & E); [unfold MAX_TEMPLATE_DESC; lia|done|].
  unfold config_line in E. unfold item_text. destruct (parse_line (Some (field td.1 0 td.2))) as [[t v]|]; [|done].
  destruct (decide _); [|done]. destruct td as [tag d]. cbn [fst snd] in *. by injection E as -> ->.
Qed.
Lemma soa_items_good aa : writable_soa (aa_soa aa) → short_datum (aa_name aa) → Forall good_field (soa_items aa).
Proof.
  intros (Hp & Hm & Hs & Hz) Hn. repeat apply Forall_cons in Hz as [?%short_numeral Hz].
  unfold soa_items. destruct (primary_server _) as [p|]; [|done]. destruct (hostmaster _) as [m|]; [|done].
  repeat (apply Forall_cons_2; [split_and!; [done|cbn; lia|done]|]). constructor.
Qed.
Lemma copied_fields_good soa : writable_soa soa → Forall good_field (copied_fields soa).
Proof.
  intros (Hp & Hm & Hs & Hz). repeat apply Forall_cons in Hz as [?%short_numeral Hz].
  unfold copied_fields. destruct (primary_server _) as [p|]; [|done]. destruct (hostmaster _) as [m|]; [|done].
  repeat (apply Forall_cons_2; [split_and!; [done|cbn; lia|done]|]). constructor.
Qed.
Lemma copied_fields_tags soa : forallb (λ td, is_soa_tag td.1) (copied_fields soa) = true.
Proof. unfold copied_fields. by destruct (primary_server soa), (hostmaster soa). Qed.
Lemma copied_fields_read soa soa0 : writable_soa soa → foldl (λ soa td, read_soa_field td.1 td.2 soa) soa0 (copied_fields soa) = soa.
Proof.
  intros (Hp & Hm & _ & Hz). repeat apply Forall_cons in Hz as [? Hz].
  destruct soa as [[p|] [m|] serial r i t l]; try done. destruct soa0 as [p0 m0 s0 r0 i0 t0 l0].
  unfold copied_fields. cbn [foldl fst snd]. unfold read_soa_field. cbn -[print_Z atoll]. by rewrite !atoll_print by done.
Qed.
Lemma create_soa_items l : ∀ fp, Forall good_field l →
  create_soa_loop (item_text <$> l) fp = (true, fp ++ (l ≫= λ td, soa_line td.1 td.2)).
Proof.
  induction l as [|td l IH]; intros fp H; [by rewrite app_nil_r|]. apply Forall_cons in H as [Htd H].
  rewrite fmap_cons. cbn [create_soa_loop mbind list_bind]. rewrite item_parsed by done. destruct td as [t v]. cbn [fst snd].
  rewrite IH by done. by rewrite <-app_assoc.
Qed.
Lemma soa_displayed aa : writable_soa (aa_soa aa) →
  soa_display_auth_area aa = (print_response RESP_SOA <$> (item_text <$> soa_items aa)) ++ [print_response RESP_SOA []].
Proof.
  intros (Hp & Hm & [[Hs _] _] & _). unfold soa_display_auth_area, soa_items. destruct (serial_no (aa_soa aa)) as [|c s]; [done|].
  destruct (primary_server _) as [p|]; [|done]. destruct (hostmaster _) as [m|]; [|done]. reflexivity.
Qed.

(** C18: a zone is copied whole: what the master answers to -soa, behind whatever
    it says first, makes a zone file on the slave that gives the slave the
    values of the master, every one, with the verdict of the same check. *)
Theorem soa_replicated regexec before fs master slave f :
  writable_soa (aa_soa master) → short_datum (aa_name master) → Forall wired before → Forall (passed_over ($"%soa")) before →
  soa_file slave = Some f → (length (aa_name slave) < 500)%nat →
  let stream := text before ++ print_messages false (soa_display_auth_area master ++ [print_ok]) in
  ∃ fs', create_soa_file stream true fs slave = Ret (true, fs') ∧ (∀ n, n ≠ f → fs' n = fs n) ∧
    read_soa_file regexec fs' slave =
      (ok ← check_soa regexec (with_soa (aa_soa master) slave); Ret (ok, with_soa (aa_soa master) slave)).
Proof.
  intros Hw Hn Hb Hp Hf Hl stream. assert (good_delimiter ($"%soa")) as Hd by (apply (bool_decide_unpack _); vm_compute; exact I).
  set (items := item_text <$> soa_items master). pose proof (soa_items_good _ Hw Hn) as Hg.
  assert (Forall (sendable ($"%soa")) items) as Hs by (apply Forall_fmap; eapply Forall_impl; [exact Hg|intros td; by apply item_sendable]).
  assert (stream = text before ++ text ([items] ≫= response_lines ($"%soa")) ++ $"%ok" ++ NL :: []) as Es.
  { unfold stream. rewrite soa_displayed by done. fold items. rewrite <-app_assoc. cbn [app]. rewrite print_record; [|done|].
    - cbn [mbind list_bind]. by rewrite app_nil_r.
    - eapply Forall_impl; [exact Hs|by intros t []]. }
  eexists. unfold create_soa_file, directive_line. rewrite decide_True by (rewrite length_app; cbn [length]; unfold MAX_LINE; cbn; lia).
  cbn [mbind outcome_bind]. rewrite Hf. cbn [of_option mbind outcome_bind negb]. rewrite Es.
  rewrite (answers_fed create_soa_file_record ($"%soa")); try done.
  - cbn [feed]. unfold create_soa_file_record. destruct items as [|x l] eqn:Ei; [done|]. rewrite <-Ei. unfold items.
    rewrite create_soa_items by done. cbn [mbind outcome_bind orb]. split; [reflexivity|]. split.
    + intros n Hne. unfold upd. by rewrite bool_decide_false.
    + cbn [app]. assert ((soa_items master ≫= λ td, soa_line td.1 td.2) = (λ td, field td.1 1 td.2) <$> copied_fields (aa_soa master)) as ->.
      { reflexivity. }
      unfold read_soa_file. rewrite Hf. cbn [of_option mbind outcome_bind]. unfold upd. rewrite bool_decide_true by done.
      rewrite lines_of_text by (by apply good_field_lines, copied_fields_good). cbn [mbind outcome_bind].
      rewrite read_soa_lines_fields by (by apply copied_fields_good || apply copied_fields_tags). by rewrite copied_fields_read.
  - apply Hd.
  - by apply delimiter_wired.
  - apply (bool_decide_unpack _). vm_compute. exact I.
  - constructor; [|constructor]. split; [done|]. eapply Forall_impl; [exact Hs|]. intros t. by apply sendable_wired.
  - cbn [length]. rewrite !length_app. cbn [length]. lia.
Qed.

Definition demo_banner : list cstr := [$"%rwhois V-1.5:003fff:00 master.a.com (by Network Solutions, Inc. V-1.5.9.6)"].
Definition demo_slave : auth_area_struct := with_soa no_soa demo_zone_area.
Lemma soa_replicated_witness :
  let stream := text demo_banner ++ print_messages false (soa_display_auth_area demo_zone_area ++ [print_ok]) in
  ∃ fs', create_soa_file stream true (λ _, None) demo_slave = Ret (true, fs') ∧
    read_soa_file (λ _ _, true) fs' demo_slave = Ret (true, demo_zone_area).
Proof.
  intros stream. destruct (soa_replicated (λ _ _, true) demo_banner (λ _, None) demo_zone_area demo_slave ($"soa")) as (fs' & E & _ & R).
  - apply (bool_decide_unpack _). vm_compute. exact I.
  - apply (bool_decide_unpack _). vm_compute. exact I.
  - apply (bool_decide_unpack _). vm_compute. exact I.
  - apply (bool_decide_unpack _). vm_compute. exact I.
  - reflexivity.
  - apply (bool_decide_unpack _). vm_compute. exact I.
  - exists fs'. split; [exact E|]. rewrite R. vm_compute. reflexivity.
Defined.
