(* ===== verification/SlaveSchema.v ===== *)
(** * The schema of a slave (server/sschema.c)

    The answer to -schema has a response for each attribute of each class of the
    area.  The slave makes a schema file with an entry for each class, and for
    each class a file of its attributes but those of the base schema. *)

From S2P Require Import Prelude CLib CString Misc IpNetwork Types ClientMsgs Stdio FilePath FileInfo ConfigFile Attributes AuthArea Answers Slave.
Local Open Scope Z_scope.

(** ** Lines *)

(** the line of the attribute file for a line of the answer *)
Definition attr_file_line (tag value : cstr) : list cstr :=
  let named t := STR_EQ tag (lit t) in
  let line (t : string) (v : cstr) := [field (lit t) 1 v] in
  let flag (t : string) := if STR_EQ value ($"ON") then line t ($"TRUE") else if STR_EQ value ($"OFF") then line t ($"FALSE") else [] in
  match tag, value with
  | [], _ | _, [] => []
  | _, _ =>
      if named "attribute"%string then line "attribute"%string value
      else if named "description"%string then line "description"%string value
      else if named "primary"%string then flag "is-primary-key"%string
      else if named "required"%string then flag "is-required"%string
      else if named "repeatable"%string then flag "is-repeatable"%string
      else if named "multi-line"%string then flag "is-multi-line"%string
      else if named "hierarchical"%string then flag "is-hierarchical"%string
      else if named "indexed"%string then
        if STR_EQ value ($"None") then line "index"%string ($"NONE")
        else if STR_EQ value ($"All Methods") then line "index"%string ($"ALL")
        else if STR_EQ value ($"Entire Value") then line "index"%string ($"EXACT")
        else if STR_EQ value ($"CIDR") then line "index"%string ($"CIDR")
        else if STR_EQ value ($"Soundex") then line "index"%string ($"SOUNDEX")
        else []
      else if named "type"%string then
        if STR_EQ value ($"TEXT") then line "type"%string ($"TEXT")
        else if STR_EQ value ($"ID") then line "type"%string ($"ID")
        else if STR_EQ value ($"See-Also") then line "type"%string ($"SEE-ALSO")
        else []
      else []
  end.
Definition base_attr (tag value : cstr) : bool :=
  STR_EQ tag ($"attribute")
  && existsb (λ s, STR_EQ value (lit s)) ["Class-Name"; "ID"; "Auth-Area"; "Updated"; "Guardian"; "TTL"; "Private"]%string.

(** ** Files *)

(** the static variables, the lines of the schema file, the files and
    directories; [so_open]: attr_fp is open *)
Record schema_out := SchemaOut {
  so_class : option cstr; so_first : bool; so_attr_file : cstr; so_open : bool; so_fp : list cstr; so_fs : filesystem; so_dirs : list cstr }.

Section Files.
(** can a directory be made, can a file be locked and opened *)
Context (mkdir_ok open_ok : list cstr → cstr → bool) (aa : auth_area_struct).

Definition add_dir (dirs : list cstr) (d : cstr) : list cstr :=
  if bool_decide (d ∈ dirs) then dirs else if mkdir_ok dirs d then dirs ++ [d] else dirs.
(** sprintf to an array of MAX_LINE bytes *)
Definition line_array (s : cstr) : outcome cstr := if decide (length s < MAX_LINE)%nat then Ret s else Fault.

(** fprintf to the attribute file, which has to be open *)
Definition put_attr (ls : list cstr) (s : schema_out) : outcome schema_out :=
  match ls with
  | [] => Ret s
  | _ =>
      if so_open s then
        Ret (SchemaOut (so_class s) (so_first s) (so_attr_file s) (so_open s) (so_fp s)
               (upd (so_fs s) (so_attr_file s) (Some (default [] (so_fs s (so_attr_file s)) ++ text ls))) (so_dirs s))
      else Fault
  end.

(** a class begins: its entry in the schema file and its attribute file *)
Definition begin_class (class : cstr) (s : schema_out) : outcome (bool * schema_out) :=
  let sep := match so_class s with Some _ => [$"---"] | None => [] end in
  let first := match so_class s with Some _ => false | None => so_first s end in
  aa_dir ← get_aa_schema_directory aa;
  data ← of_option (data_dir aa);
  let under := match aa_dir with Some dir => dir ++ [SLASH] | None => [] end in
  let fp := so_fp s ++ sep ++ [field ($"name") 1 class; field ($"attributedef") 1 (under ++ $"attribute_defs/" ++ class ++ $".tmpl");
                               field ($"dbdir") 1 (data ++ SLASH :: class)] in
  attr_dir ← line_array (under ++ $"attribute_defs");
  attr_file ← line_array (attr_dir ++ SLASH :: class ++ $".tmpl");
  let dirs := match aa_dir with Some dir => add_dir (so_dirs s) dir | None => so_dirs s end in
  let dirs := add_dir dirs attr_dir in
  if open_ok dirs attr_file
  then Ret (true, SchemaOut (Some class) first attr_file true fp (upd (so_fs s) attr_file (Some [])) dirs)
  else Ret (false, SchemaOut (Some class) first attr_file false fp (so_fs s) dirs).

(** [first_str]: the first line of the response.  The lines of an attribute of
    the base schema are left out as long as no other one came before. *)
Fixpoint create_schema_loop (response : list cstr) (first_str : bool) (s : schema_out) : outcome (bool * schema_out) :=
  match response with
  | [] => Ret (true, s)
  | str :: response =>
      match get_tuple (Some str) with
      | None => Ret (false, s)
      | Some (class, tag, value) =>
          if first_str then
            '(ok, s) ← (if match so_class s with Some old => STR_EQ class old | None => false end then Ret (true, s) else begin_class class s);
            if negb ok then Ret (false, s)
            else if negb (so_first s) then
              if base_attr tag value then Ret (true, s)
              else
                let s := SchemaOut (so_class s) true (so_attr_file s) (so_open s) (so_fp s) (so_fs s) (so_dirs s) in
                s ← (if so_open s then put_attr (attr_file_line tag value) s else Ret s);
                create_schema_loop response false s
            else
              s ← put_attr [$"---"] s;
              s ← (if so_open s then put_attr (attr_file_line tag value) s else Ret s);
              create_schema_loop response false s
          else
            s ← (if so_open s then put_attr (attr_file_line tag value) s else Ret s);
            create_schema_loop response false s
      end
  end.
Definition create_schema_file_record (response : list cstr) (s : schema_out) : outcome (bool * schema_out) :=
  match response with [] => Ret (false, s) | _ => create_schema_loop response true s end.

(** the status, the files and directories *)
Definition create_schema_file (stream : cstr) (lock_ok : bool) (fs : filesystem) (dirs : list cstr) : outcome (bool * filesystem * list cstr) :=
  _ ← directive_line ($"-schema " ++ aa_name aa);
  file ← of_option (schema_file aa);
  if negb lock_ok then Ret (false, fs, dirs)
  else
    '(rval, s) ← responses (S (length stream)) stream 0 ($"%schema") create_schema_file_record false
                   (SchemaOut None false [] false [] (upd fs file (Some [])) dirs);
    Ret (rval, upd (so_fs s) file (Some (text (so_fp s))), so_dirs s).
End Files.

(** ** What is copied of an attribute *)

(** the pairs of tags and values that the master sends *)
Definition type_text (type : attr_type) : cstr := match type with TYPE_TEXT => $"Text" | TYPE_ID => $"ID" | TYPE_SEE_ALSO => $"See-Also" end.
Definition sent_fields (a : attribute_struct) : list (cstr * cstr) :=
  [($"attribute", attr_name a); ($"format", SAFE_STR_NONE (attr_format a)); ($"description", SAFE_STR_NONE (attr_description a));
   ($"indexed", if decide (attr_index a = INDEX_NONE) then $"OFF" else $"ON"); ($"required", on_off (is_required a));
   ($"multi-line", on_off (is_multi_line a)); ($"repeatable", on_off (is_repeatable a)); ($"hierarchical", on_off (is_hierarchical a));
   ($"private", on_off (is_private a)); ($"type", type_text (attr_kind a)); ($"primary", on_off (is_primary_key a))].
Definition sent_items (c : class_struct) (a : attribute_struct) : list cstr := (λ td, tuple_text (class_name c) td.1 td.2) <$> sent_fields a.
(** the pairs that the slave writes *)
Definition copied_attr_fields (a : attribute_struct) : list (cstr * cstr) :=
  [($"attribute", attr_name a); ($"description", SAFE_STR_NONE (attr_description a)); ($"is-required", true_false_str (is_required a));
   ($"is-multi-line", true_false_str (is_multi_line a)); ($"is-repeatable", true_false_str (is_repeatable a));
   ($"is-hierarchical", true_false_str (is_hierarchical a)); ($"type", show_attribute_type (attr_kind a));
   ($"is-primary-key", true_false_str (is_primary_key a))].
(** the attribute as the slave reads it: no aliases, no format, not private and
    not indexed *)
Definition copied_attr (a : attribute_struct) : attribute_struct :=
  Attribute (attr_global_id a) (attr_local_id a) (is_required a) (is_primary_key a) (is_repeatable a) (is_multi_line a) (is_hierarchical a) false
    [] (attr_name a) None INDEX_NONE (attr_kind a) (Some (SAFE_STR_NONE (attr_description a))).
Definition attr_lines (l : list (cstr * cstr)) : list cstr := (λ td, field td.1 1 td.2) <$> l.
Definition more_copied (own : list attribute_struct) : list cstr := own ≫= λ a, $"---" :: attr_lines (copied_attr_fields a).
Definition copied_list (own : list attribute_struct) : list cstr :=
  match own with [] => [] | a :: own => attr_lines (copied_attr_fields a) ++ more_copied own end.

Lemma displayed_attribute c a :
  schema_display_attribute (class_name c) a = (print_response RESP_SCHEMA <$> sent_items c a) ++ [print_response RESP_SCHEMA []].
Proof. destruct a as [? ? ? ? ? ? ? ? ? ? ? ? [] ?]; reflexivity. Qed.

(** an attribute that can be sent: its texts fit and are kept by the lines *)
Definition sendable_attr (a : attribute_struct) : Prop :=
  short_datum (attr_name a) ∧ short_datum (SAFE_STR_NONE (attr_description a)) ∧ short_datum (SAFE_STR_NONE (attr_format a)).
#[export] Instance sendable_attr_dec a : Decision (sendable_attr a).
Proof. unfold sendable_attr. apply _. Defined.
Definition sendable_class (c : class_struct) : Prop := good_tag (class_name c) = true ∧ (length (class_name c) < 200)%nat.
#[export] Instance sendable_class_dec c : Decision (sendable_class c).
Proof. unfold sendable_class. apply _. Defined.

Lemma sent_fields_good a : sendable_attr a → Forall (λ td, good_tag td.1 = true ∧ (length td.1 < 20)%nat ∧ short_datum td.2) (sent_fields a).
Proof.
  intros (Hn & Hd & Hf). unfold sent_fields.
  assert (∀ b, short_datum (on_off b)) as Hb by (intros []; apply (bool_decide_unpack _); vm_compute; exact I).
  repeat (apply Forall_cons_2; [split_and!; [done|cbn; lia|cbn [snd]; try done; try apply Hb]|]); [| |constructor].
  - case_decide; apply (bool_decide_unpack _); vm_compute; exact I.
  - destruct (attr_kind a); apply (bool_decide_unpack _); vm_compute; exact I.
Qed.
Lemma schema_delimiter : good_delimiter ($"%schema").
Proof. apply (bool_decide_unpack _). vm_compute. exact I. Qed.
Lemma sent_items_sendable c a : sendable_class c → sendable_attr a → Forall (sendable ($"%schema")) (sent_items c a).
Proof.
  intros [Hc Hl] Ha. apply Forall_fmap. eapply Forall_impl; [by apply sent_fields_good|]. intros [t v] (Ht & Hlt & ((Hne & Hv & _ & Hr) & Hlv)).
  cbn [compose fst snd] in *. apply tuple_sendable; try done; [apply schema_delimiter|]. unfold MAX_TEMPLATE_DESC in Hlv. unfold MAX_LINE.
  change (length ($"%schema")) with 7%nat. lia.
Qed.

(** the lines that the slave writes of them *)
Lemma flag_line b :
  attr_file_line ($"required") (on_off b) = attr_lines [($"is-required", true_false_str b)] ∧
  attr_file_line ($"multi-line") (on_off b) = attr_lines [($"is-multi-line", true_false_str b)] ∧
  attr_file_line ($"repeatable") (on_off b) = attr_lines [($"is-repeatable", true_false_str b)] ∧
  attr_file_line ($"hierarchical") (on_off b) = attr_lines [($"is-hierarchical", true_false_str b)] ∧
  attr_file_line ($"primary") (on_off b) = attr_lines [($"is-primary-key", true_false_str b)] ∧
  attr_file_line ($"private") (on_off b) = [].
Proof. by destruct b. Qed.
Lemma text_line v : v ≠ [] →
  attr_file_line ($"attribute") v = attr_lines [($"attribute", v)] ∧ attr_file_line ($"description") v = attr_lines [($"description", v)] ∧
  attr_file_line ($"format") v = [].
Proof. by destruct v. Qed.
Lemma type_line k : attr_file_line ($"type") (type_text k) = attr_lines [($"type", show_attribute_type k)].
Proof. by destruct k. Qed.
Lemma copied_fields_lines a : sendable_attr a →
  (sent_fields a ≫= λ td, attr_file_line td.1 td.2) = attr_lines (copied_attr_fields a).
Proof.
  intros (((Hn & _) & _) & ((Hd & _) & _) & ((Hf & _) & _)). unfold sent_fields.
  assert (attr_file_line ($"indexed") (if decide (attr_index a = INDEX_NONE) then $"OFF" else $"ON") = []) as Ei by by case_decide.
  cbn [mbind list_bind fst snd]. rewrite Ei, type_line.
  rewrite (proj1 (text_line _ Hn)), (proj1 (proj2 (text_line _ Hd))), (proj2 (proj2 (text_line _ Hf))).
  destruct (flag_line (is_required a)) as (-> & _), (flag_line (is_multi_line a)) as (_ & -> & _),
    (flag_line (is_repeatable a)) as (_ & _ & -> & _), (flag_line (is_hierarchical a)) as (_ & _ & _ & -> & _),
    (flag_line (is_primary_key a)) as (_ & _ & _ & _ & -> & _), (flag_line (is_private a)) as (_ & _ & _ & _ & _ & ->).
  reflexivity.
Qed.

(** ** The attribute file of a class *)

Definition header (s : schema_out) := (so_class s, so_first s, so_attr_file s, so_open s, so_fp s, so_dirs s).
(** the text [x] is put at the end of the attribute file *)
Definition appended (x : cstr) (s s' : schema_out) : Prop :=
  header s' = header s ∧ (∀ n, n ≠ so_attr_file s → so_fs s' n = so_fs s n) ∧
  ∀ t, so_fs s (so_attr_file s) = Some t → so_fs s' (so_attr_file s) = Some (t ++ x).
Lemma appended_refl s : appended [] s s.
Proof. split_and!; [done..|]. intros t. by rewrite app_nil_r. Qed.
Lemma appended_trans x y s1 s2 s3 : appended x s1 s2 → appended y s2 s3 → appended (x ++ y) s1 s3.
Proof.
  intros (H1 & F1 & A1) (H2 & F2 & A2). assert (so_attr_file s2 = so_attr_file s1) as E by (unfold header in H1; congruence). rewrite E in *.
  split_and!; [congruence| |].
  - intros n Hn. by rewrite F2, F1.
  - intros t Ht. by rewrite app_assoc, (A2 (t ++ x)) by auto.
Qed.
Lemma put_attr_appended ls s : so_open s = true → ∃ s', put_attr ls s = Ret s' ∧ appended (text ls) s s'.
Proof.
  intros Ho. unfold put_attr. rewrite Ho. destruct ls as [|l ls]; [exists s; split; [done|apply appended_refl]|].
  eexists. split; [reflexivity|]. split_and!; [by unfold header; rewrite <-Ho| |]; cbn [so_fs]; unfold upd.
  - intros n Hn. by rewrite bool_decide_false.
  - intros t Ht. by rewrite bool_decide_true, Ht.
Qed.

(** lines that get_tuple takes apart *)
Definition parsed (class : cstr) (td : cstr * cstr) : Prop :=
  get_tuple (Some (tuple_text class td.1 td.2)) = Some (class, td.1, td.2).
Lemma sent_fields_parsed c a : sendable_class c → sendable_attr a → Forall (parsed (class_name c)) (sent_fields a).
Proof.
  intros [Hc _] Ha. eapply Forall_impl; [by apply sent_fields_good|]. intros [t v] (Ht & _ & ((_ & _ & Hl & _) & _)). by apply tuple_parsed.
Qed.

Section Fed.
Context (mkdir_ok open_ok : list cstr → cstr → bool) (aa : auth_area_struct).
Local Notation loop := (create_schema_loop mkdir_ok open_ok aa).
Local Notation record := (create_schema_file_record mkdir_ok open_ok aa).

Lemma fields_appended class l : ∀ s, so_open s = true → Forall (parsed class) l →
  ∃ s', loop ((λ td, tuple_text class td.1 td.2) <$> l) false s = Ret (true, s') ∧
    appended (text (l ≫= λ td, attr_file_line td.1 td.2)) s s'.
Proof.
  induction l as [|td l IH]; intros s Ho H; [exists s; split; [done|apply appended_refl]|]. apply Forall_cons in H as [Htd H].
  destruct (put_attr_appended (attr_file_line td.1 td.2) s Ho) as (s1 & E1 & A1).
  assert (so_open s1 = true) as Ho1 by (destruct A1 as (Hh & _); unfold header in Hh; congruence).
  destruct (IH s1 Ho1 H) as (s2 & E2 & A2). exists s2. split.
  - rewrite fmap_cons. cbn [create_schema_loop]. rewrite Htd, Ho, E1. exact E2.
  - cbn [mbind list_bind]. rewrite text_app. by eapply appended_trans.
Qed.

(** a response of the class that the file is open for *)
Definition current (c : class_struct) (s : schema_out) : Prop := so_class s = Some (class_name c) ∧ so_open s = true.
Definition went_first (s : schema_out) : schema_out :=
  SchemaOut (so_class s) true (so_attr_file s) (so_open s) (so_fp s) (so_fs s) (so_dirs s).

Lemma base_record c a s : sendable_class c → sendable_attr a → current c s → so_first s = false →
  base_attr ($"attribute") (attr_name a) = true → record (sent_items c a) s = Ret (true, s).
Proof.
  intros Hc Ha [Hs _] Hf Hb. pose proof (sent_fields_parsed c a Hc Ha) as H. unfold sent_items, sent_fields in *.
  apply Forall_cons in H as [H _]. unfold create_schema_file_record. rewrite fmap_cons. cbn [create_schema_loop].
  unfold parsed in H. cbn [fst snd] in *. rewrite H, Hs, STR_EQ_refl. cbn [mbind outcome_bind negb]. by rewrite Hf, Hb.
Qed.
Lemma own_record c a s : sendable_class c → sendable_attr a → current c s → so_first s = true ∨ base_attr ($"attribute") (attr_name a) = false →
  ∃ s', record (sent_items c a) s = Ret (true, s') ∧
    appended (text ((if so_first s then [$"---"] else []) ++ attr_lines (copied_attr_fields a))) (went_first s) s'.
Proof.
  intros Hc Ha [Hs Ho] Hf. pose proof (sent_fields_parsed c a Hc Ha) as H. rewrite <-copied_fields_lines by done.
  set (s0 := went_first s).
  assert (∃ s1, (if so_first s then put_attr [$"---"] s else Ret s0) = Ret s1 ∧ appended (text (if so_first s then [$"---"] else [])) s0 s1) as (s1 & E1 & A1).
  { destruct (so_first s) eqn:Ef; [|exists s0; split; [done|apply appended_refl]].
    assert (s0 = s) as -> by (unfold s0, went_first; destruct s; cbn in Ef; by subst). by apply put_attr_appended. }
  assert (so_open s1 = true) as Ho1 by (destruct A1 as (Hh & _); unfold header in Hh; cbn in Hh; congruence).
  destruct (fields_appended (class_name c) (sent_fields a) s1 Ho1 H) as (s2 & E2 & A2). exists s2.
  split; [|rewrite text_app; by eapply appended_trans].
  unfold sent_items. destruct (sent_fields a) as [|td l] eqn:El; [done|]. apply Forall_cons in H as [H _].
  rewrite fmap_cons in *. cbn [create_schema_loop] in E2.
  unfold create_schema_file_record. cbn [create_schema_loop]. rewrite H in *. rewrite Ho1 in E2.
  rewrite Hs, STR_EQ_refl. cbn [mbind outcome_bind negb] in *. destruct (so_first s) eqn:Ef; cbn [negb].
  - rewrite E1. cbn [mbind outcome_bind]. by rewrite Ho1.
  - injection E1 as E1. destruct Hf as [Hf|Hb]; [done|].
    assert (td = ($"attribute", attr_name a)) as -> by (unfold sent_fields in El; congruence). cbn [fst snd] in *. rewrite Hb.
    fold (went_first s). fold s0. rewrite E1, Ho1. exact E2.
Qed.

Lemma feed_app {A} (r : list cstr → A → outcome (bool * A)) l k : ∀ rval a,
  feed r (l ++ k) rval a = ('(rval, a) ← feed r l rval a; feed r k rval a).
Proof.
  induction l as [|x l IH]; intros rval a; [done|]. cbn [app feed]. destruct (r x a) as [[ok a']| |]; [apply IH|done..].
Qed.

Lemma current_appended c x s s' : current c s → appended x s s' → current c s'.
Proof. intros [Hs Ho] (Hh & _). unfold header in Hh. split; congruence. Qed.
Lemma base_records c pre s rval : sendable_class c → current c s → so_first s = false →
  Forall (λ a, sendable_attr a ∧ base_attr ($"attribute") (attr_name a) = true) pre →
  feed record (sent_items c <$> pre) rval s = Ret (rval || match pre with [] => false | _ => true end, s).
Proof.
  intros Hc Hs Hf H. revert rval. induction H as [|a pre [Ha Hb] _ IH]; intros rval; [by rewrite orb_false_r|].
  rewrite fmap_cons. cbn [feed]. rewrite base_record by done. cbn [mbind outcome_bind]. rewrite IH. by rewrite !orb_true_r.
Qed.
Lemma more_records c own : sendable_class c → Forall sendable_attr own → ∀ s, current c s → so_first s = true →
  ∃ s', feed record (sent_items c <$> own) true s = Ret (true, s') ∧ appended (text (more_copied own)) s s'.
Proof.
  intros Hc. induction 1 as [|a own Ha _ IH]; intros s Hs Hf; [exists s; split; [done|apply appended_refl]|].
  destruct (own_record c a s Hc Ha Hs (or_introl Hf)) as (s1 & E1 & A1). rewrite Hf in A1.
  assert (went_first s = s) as E0 by (unfold went_first; destruct s; cbn in Hf; by subst). rewrite E0 in A1.
  destruct (IH s1) as (s2 & E2 & A2); [by eapply current_appended|destruct A1 as (Hh & _); unfold header in Hh; congruence|].
  exists s2. rewrite fmap_cons. cbn [feed]. rewrite E1. cbn [mbind outcome_bind orb]. split; [exact E2|].
  unfold more_copied. cbn [mbind list_bind]. fold (more_copied own). rewrite text_app. by eapply appended_trans.
Qed.
Lemma own_records c own s : sendable_class c → Forall (λ a, sendable_attr a ∧ base_attr ($"attribute") (attr_name a) = false) own →
  current c s → so_first s = false →
  ∃ s' b, feed record (sent_items c <$> own) true s = Ret (true, s') ∧
    appended (text (copied_list own)) (SchemaOut (so_class s) b (so_attr_file s) (so_open s) (so_fp s) (so_fs s) (so_dirs s)) s'.
Proof.
  intros Hc H Hs Hf. destruct H as [|a own [Ha Hb] Hown].
  { exists s, false. split; [done|]. destruct s. cbn in Hf. subst. apply appended_refl. }
  destruct (own_record c a s Hc Ha Hs (or_intror Hb)) as (s1 & E1 & A1). rewrite Hf in A1.
  destruct (more_records c own Hc) with s1 as (s2 & E2 & A2); [eapply Forall_impl; [exact Hown|by intros ? []]| | |].
  - eapply current_appended; [|exact A1]. exact Hs.
  - destruct A1 as (Hh & _); unfold header in Hh; cbn in Hh; congruence.
  - exists s2, true. rewrite fmap_cons. cbn [feed]. rewrite E1. cbn [mbind outcome_bind orb]. split; [exact E2|].
    cbn [copied_list]. rewrite text_app. by eapply appended_trans.
Qed.
End Fed.

(** ** The schema *)

Definition own_attributes (c : class_struct) : list attribute_struct := drop (length base_attributes) (attribute_list c).
(** a class that can be sent: the base schema and attributes of its own *)
Definition replicable (c : class_struct) : Prop :=
  sendable_class c ∧ alike (take (length base_attributes) (attribute_list c)) base_attributes ∧
  Forall sendable_attr (attribute_list c) ∧ Forall (λ a, is_base_attr a = false) (own_attributes c).
(** what stands before the names of files in the directory of the schema *)
Definition under (dir : option cstr) : cstr := match dir with Some dir => dir ++ [SLASH] | None => [] end.
Definition attr_path (dir : option cstr) (c : class_struct) : cstr := under dir ++ $"attribute_defs/" ++ class_name c ++ $".tmpl".
Definition schema_entry (dir : option cstr) (data : cstr) (c : class_struct) : list cstr :=
  [field ($"name") 1 (class_name c); field ($"attributedef") 1 (attr_path dir c); field ($"dbdir") 1 (data ++ SLASH :: class_name c)].
Definition more_entries (dir : option cstr) (data : cstr) (cs : list class_struct) : list cstr := cs ≫= λ c, $"---" :: schema_entry dir data c.
Definition schema_entries (dir : option cstr) (data : cstr) (cs : list class_struct) : list cstr :=
  match cs with [] => [] | c :: cs => schema_entry dir data c ++ more_entries dir data cs end.

Lemma base_attr_base a : is_base_attr a = false → base_attr ($"attribute") (attr_name a) = false.
Proof.
  unfold is_base_attr, base_attr. intros H. apply andb_false_intro2. cbn [existsb] in *.
  rewrite !orb_false_iff in H. rewrite !orb_false_iff. tauto.
Qed.
Lemma base_attr_alike pre : alike pre base_attributes → Forall (λ a, base_attr ($"attribute") (attr_name a) = true) pre.
Proof.
  intros H. apply Forall_lookup. intros i a Ha. unfold alike in H. symmetry in H.
  destruct (alike_lookup _ _ _ _ H Ha) as (b & Hb & E).
  assert (Forall (λ a, base_attr ($"attribute") (attr_name a) = true) base_attributes) as Hall by (apply (bool_decide_unpack _); vm_compute; exact I).
  rewrite Forall_lookup in Hall. apply (f_equal attr_name) in E. cbn [attr_name up_to_global with_ids] in E. rewrite <-E. exact (Hall _ _ Hb).
Qed.
Lemma attr_path_inj dir c c' : attr_path dir c = attr_path dir c' → class_name c = class_name c'.
Proof. intros H%(inj (app _))%(inj (app _)). by apply app_inv_tail in H. Qed.

Section Schema.
Context (mkdir_ok open_ok : list cstr → cstr → bool) (aa : auth_area_struct) (dir : option cstr) (data : cstr).
Context (open_all : ∀ dirs f, open_ok dirs f = true) (aa_dir : get_aa_schema_directory aa = Ret dir) (aa_data : data_dir aa = Some data).
Context (dir_short : (length (under dir) < 200)%nat).
Local Notation record := (create_schema_file_record mkdir_ok open_ok aa).
Local Notation path := (attr_path dir).

Lemma class_begun c s : sendable_class c → (so_class s = None → so_first s = false) →
  ∃ s', begin_class mkdir_ok open_ok aa (class_name c) s = Ret (true, s') ∧ current c s' ∧ so_first s' = false ∧ so_attr_file s' = path c ∧
    so_fp s' = so_fp s ++ (match so_class s with Some _ => [$"---"] | None => [] end) ++ schema_entry dir data c ∧
    so_fs s' = upd (so_fs s) (path c) (Some []).
Proof.
  intros [_ Hl] Hf. unfold begin_class. rewrite aa_dir, aa_data. cbn [of_option mbind outcome_bind]. fold (under dir).
  unfold line_array. rewrite decide_True by (rewrite length_app; unfold MAX_LINE; cbn; lia). cbn [mbind outcome_bind].
  assert ((under dir ++ $"attribute_defs") ++ SLASH :: class_name c ++ $".tmpl" = path c) as -> by (by rewrite <-app_assoc).
  rewrite decide_True by (unfold attr_path; rewrite !length_app; unfold MAX_LINE; cbn; lia). cbn [mbind outcome_bind].
  rewrite open_all. eexists. split; [reflexivity|]. split; [done|]. split; [|done]. cbn [so_first]. destruct (so_class s); [done|by apply Hf].
Qed.
Lemma record_begun c a s s1 : sendable_class c → sendable_attr a → (∀ old, so_class s = Some old → STR_EQ (class_name c) old = false) →
  begin_class mkdir_ok open_ok aa (class_name c) s = Ret (true, s1) → current c s1 →
  record (sent_items c a) s = record (sent_items c a) s1.
Proof.
  intros Hc Ha Hold Hb [Hs1 _]. pose proof (sent_fields_parsed c a Hc Ha) as H. unfold sent_items, sent_fields in *.
  apply Forall_cons in H as [H _]. unfold create_schema_file_record. rewrite fmap_cons. cbn [create_schema_loop].
  unfold parsed in H. cbn [fst snd] in *. rewrite H, Hs1, STR_EQ_refl. cbn [mbind outcome_bind].
  assert (match so_class s with Some old => STR_EQ (class_name c) old | None => false end = false) as -> by (destruct (so_class s); [by apply Hold|done]).
  rewrite Hb. reflexivity.
Qed.

Lemma class_fed c s rval : replicable c → (so_class s = None → so_first s = false) →
  (∀ old, so_class s = Some old → STR_EQ (class_name c) old = false) →
  ∃ s', feed record (sent_items c <$> attribute_list c) rval s = Ret (true, s') ∧ so_class s' = Some (class_name c) ∧
    so_fp s' = so_fp s ++ (match so_class s with Some _ => [$"---"] | None => [] end) ++ schema_entry dir data c ∧
    so_fs s' (path c) = Some (text (copied_list (own_attributes c))) ∧ ∀ n, n ≠ path c → so_fs s' n = so_fs s n.
Proof.
  intros (Hc & Hpre & Hall & Hown) Hf Hold. destruct (class_begun c s Hc Hf) as (s1 & Eb & Hcur & Hf1 & Ep & Efp & Efs).
  unfold own_attributes in *. pose proof (take_drop (length base_attributes) (attribute_list c)) as El.
  generalize dependent (take (length base_attributes) (attribute_list c)). generalize dependent (drop (length base_attributes) (attribute_list c)).
  intros own Hown pre Hpre El. rewrite <-El in *. apply Forall_app in Hall as [Hspre Hsown].
  assert (feed record (sent_items c <$> pre) rval s = Ret (true, s1)) as E1.
  { assert (pre ≠ []) as Hne by (intros E; rewrite E in Hpre; discriminate Hpre).
    assert (feed record (sent_items c <$> pre) rval s = feed record (sent_items c <$> pre) rval s1) as ->.
    { destruct pre as [|a pre']; [done|]. apply Forall_cons in Hspre as [Ha _]. rewrite fmap_cons. cbn [feed]. by rewrite (record_begun c a s s1). }
    rewrite base_records; [|done..|apply Forall_and; split; [done|by apply base_attr_alike]].
    destruct pre; [done|]. by rewrite orb_true_r. }
  destruct (own_records mkdir_ok open_ok aa c own s1 Hc) as (s2 & b & E2 & Hh & Hfs & Happ); [|done..|].
  { apply Forall_and. split; [done|]. eapply Forall_impl; [exact Hown|]. intros a. apply base_attr_base. }
  exists s2. rewrite fmap_app, feed_app, E1. cbn [mbind outcome_bind]. unfold header in Hh. cbn in Hh, Hfs, Happ.
  rewrite Ep, Efs in *. destruct Hcur as [Hcur _]. split_and!; [done|congruence|congruence| |].
  - apply (Happ []). unfold upd. by rewrite bool_decide_true.
  - intros n Hn. rewrite Hfs by done. unfold upd. by rewrite bool_decide_false.
Qed.

Lemma schema_fed cs : Forall replicable cs → NoDup (lower ∘ class_name <$> cs) → ∀ s rval,
  (so_class s = None → so_first s = false) → (∀ old, so_class s = Some old → lower old ∉ lower ∘ class_name <$> cs) →
  ∃ s', feed record (cs ≫= λ c, sent_items c <$> attribute_list c) rval s = Ret (rval || match cs with [] => false | _ => true end, s') ∧
    so_fp s' = so_fp s ++ (match so_class s with Some _ => more_entries | None => schema_entries end) dir data cs ∧
    (∀ c, c ∈ cs → so_fs s' (path c) = Some (text (copied_list (own_attributes c)))) ∧
    ∀ n, n ∉ path <$> cs → so_fs s' n = so_fs s n.
Proof.
  induction 1 as [|c cs Hc _ IH]; intros Hnd s rval Hf Hold.
  { exists s. rewrite orb_false_r. split_and!; [done| |by intros c Hc%not_elem_of_nil|done]. destruct (so_class s); by rewrite app_nil_r. }
  rewrite fmap_cons in *. apply NoDup_cons in Hnd as [Hnin Hnd].
  destruct (class_fed c s rval Hc Hf) as (s1 & E1 & Hc1 & Hfp1 & Hfs1 & Hk1).
  { intros old Ho. apply not_true_iff_false. intros E%STR_EQ_iff. apply (Hold old Ho). unfold lower, compose. rewrite <-E. by left. }
  destruct (IH Hnd s1 true) as (s2 & E2 & Hfp2 & Hfs2 & Hk2); [congruence|intros old Ho; rewrite Hc1 in Ho; by injection Ho as <-|].
  exists s2. cbn [mbind list_bind]. rewrite feed_app, E1. cbn [mbind outcome_bind]. split_and!.
  - rewrite E2. by rewrite orb_true_r.
  - rewrite Hfp2, Hc1, Hfp1, <-!app_assoc. f_equal. by destruct (so_class s).
  - intros x [->|Hx]%elem_of_cons; [|by apply Hfs2]. rewrite Hk2; [done|]. intros (y & Hy & Hin)%list_elem_of_fmap.
    apply Hnin. apply attr_path_inj in Hy. unfold compose. rewrite Hy. by apply (list_elem_of_fmap_2 (lower ∘ class_name)).
  - intros n [Hn Hns]%not_elem_of_cons. by rewrite Hk2, Hk1.
Qed.
End Schema.

(** ** What the slave reads *)

Definition copied_class (c : class_struct) : class_struct :=
  with_attributes (take (length base_attributes) (attribute_list c) ++ (copied_attr <$> own_attributes c)) c.
Lemma copied_lookup c i b : attribute_list (copied_class c) !! i = Some b →
  ∃ a, attribute_list c !! i = Some a ∧ (b = a ∨ b = copied_attr a).
Proof.
  unfold copied_class, own_attributes. cbn [attribute_list with_attributes]. intros H.
  rewrite <-(take_drop (length base_attributes) (attribute_list c)), lookup_app. rewrite lookup_app in H.
  destruct (take _ _ !! i) as [a|]; [exists a; split; [done|left; congruence]|].
  rewrite list_lookup_fmap in H. apply fmap_Some in H as (a & Ha & ->). exists a. auto.
Qed.
Lemma copied_class_ok c : class_ok c → class_ok (copied_class c).
Proof.
  intros [H1 H2 H3].
  assert (∀ a b s, b = a ∨ b = copied_attr a → s ∈ labels b → s ∈ labels a) as Hl.
  { intros a b s [->| ->]; [done|]. intros [->|[]%not_elem_of_nil]%elem_of_cons. by left. }
  split.
  - intros i b (a & Ha & E)%copied_lookup. rewrite <-(H1 i a Ha). by destruct E as [->| ->].
  - intros i j b b' s t (a & Ha & E)%copied_lookup (a' & Ha' & E')%copied_lookup Hij Hs Ht. eapply (H2 i j); eauto.
  - rewrite Forall_lookup in *. intros i b (a & Ha & E)%copied_lookup. specialize (H3 i a Ha). by destruct E as [->| ->].
Qed.

Lemma copied_attr_good a : sendable_attr a → Forall good_field (copied_attr_fields a).
Proof.
  intros (Hn & Hd & _). assert (∀ b, short_datum (true_false_str b)) as Hb by (intros []; apply (bool_decide_unpack _); vm_compute; exact I).
  repeat (apply Forall_cons_2; [split_and!; [done|cbn; lia|cbn [snd]; try done; try apply Hb]|]); [|constructor].
  destruct (attr_kind a); apply (bool_decide_unpack _); vm_compute; exact I.
Qed.
Lemma copied_attr_read a : read_fields (copied_attr_fields a) (None, blank_attr) = (Some (attr_name a), with_name [] (with_ids 0 0 (copied_attr a))).
Proof. destruct a as [g i [] [] [] [] [] p al n f ix [] d]; reflexivity. Qed.

Lemma read_copied own : ∀ pre c a c1 refs, class_ok c → attribute_list c = pre ++ (copied_attr <$> a :: own) →
  alike (attribute_list c1) pre → Forall sendable_attr (a :: own) →
  ∃ c2 refs2, read_attr_lines (clean <$> copied_list (a :: own)) (None, blank_attr) false c1 refs = Ret (c2, refs2) ∧
    alike (attribute_list c2) (attribute_list c) ∧ with_attributes [] c2 = with_attributes [] c1.
Proof.
  induction own as [|b own IH]; intros pre c a c1 refs Hok Hl H1 Hs; pose proof Hs as [Ha Hown]%Forall_cons; rewrite fmap_cons in Hl;
    destruct (add_attribute_accepts c pre (copied_attr a) _ (with_name [] (with_ids 0 0 (copied_attr a))) c1 refs Hok Hl H1 eq_refl eq_refl)
      as (c2 & refs2 & E & H2 & Hw); cbn [attr_name copied_attr] in E;
    cbn [copied_list]; unfold attr_lines; rewrite fmap_app, read_attr_lines_fields, copied_attr_read by (by apply copied_attr_good);
    assert (match copied_attr_fields a with [] => false | _ => true end = true) as -> by done.
  - cbn [more_copied mbind list_bind fmap list_fmap read_attr_lines fst snd]. rewrite E. exists c2, refs2. by rewrite Hl.
  - assert (∀ ls s x, read_attr_lines (clean <$> ($"---" :: ls)) s x c1 refs =
              let '(_, c, refs) := add_attribute s.1 s.2 c1 refs in read_attr_lines (clean <$> ls) (None, blank_attr) false c refs) as Hsep by done.
    unfold more_copied. cbn [mbind list_bind app]. rewrite Hsep. cbn [fst snd]. rewrite E.
    destruct (IH (pre ++ [copied_attr a]) c b c2 refs2 Hok) as (c3 & refs3 & E3 & H3 & Hw3); [by rewrite Hl, <-app_assoc|done..|].
    exists c3, refs3. split_and!; [exact E3|done|congruence].
Qed.
Lemma copied_list_lines own : Forall sendable_attr own → Forall (λ l, is_line l ∧ (length l + 1 < MAX_LINE)%nat) (copied_list own).
Proof.
  assert (∀ a, sendable_attr a → Forall (λ l, is_line l ∧ (length l + 1 < MAX_LINE)%nat) (attr_lines (copied_attr_fields a))) as Ha
    by (intros a Ha; by apply good_field_lines, copied_attr_good).
  destruct 1 as [|a own H Hown]; [constructor|]. cbn [copied_list]. apply Forall_app. split; [by apply Ha|].
  induction Hown as [|b own Hb _ IH]; [constructor|]. unfold more_copied. cbn [mbind list_bind app]. constructor.
  - apply (bool_decide_unpack _). vm_compute. exact I.
  - apply Forall_app. split; [by apply Ha|exact IH].
Qed.
Lemma read_attributes_copied fs c c1 refs file : class_ok c → replicable c → fs file = Some (text (copied_list (own_attributes c))) →
  attr_file c1 = Some file → alike (attribute_list c1) base_attributes →
  ∃ c2 refs2, read_attributes fs c1 refs = Ret (true, c2, refs2) ∧
    alike (attribute_list c2) (attribute_list (copied_class c)) ∧ with_attributes [] c2 = with_attributes [] c1.
Proof.
  intros Hok (_ & Hpre & Hall & _) Hfs Hf H1. apply copied_class_ok in Hok.
  assert (Forall sendable_attr (own_attributes c)) as Hs by (by apply Forall_drop).
  unfold read_attributes. rewrite Hf, Hfs, lines_of_text by (by apply copied_list_lines). cbn [mbind outcome_bind].
  assert (attribute_list (copied_class c) = take (length base_attributes) (attribute_list c) ++ (copied_attr <$> own_attributes c)) as El by done.
  destruct (own_attributes c) as [|a own].
  - exists c1, refs. split; [done|]. split; [|done]. rewrite El, app_nil_r. unfold alike in *. congruence.
  - destruct (read_copied own _ _ a c1 refs Hok El) as (c2 & refs2 & -> & H2); [unfold alike in *; congruence|done|]. by exists c2, refs2.
Qed.

(** ** A schema is copied *)

Definition class_records (c : class_struct) : list (list cstr) := sent_items c <$> attribute_list c.
Lemma replicable_displayed c : replicable c →
  schema_display_class c = class_records c ≫= λ r, (print_response RESP_SCHEMA <$> r) ++ [print_response RESP_SCHEMA []].
Proof.
  intros (_ & Hpre & _). unfold schema_display_class, class_records. destruct (attribute_list c) as [|a l] eqn:El; [discriminate Hpre|].
  generalize (a :: l). induction l0 as [|x k IH]; [done|]. cbn [mbind list_bind]. rewrite fmap_cons. cbn [mbind list_bind].
  by rewrite displayed_attribute, IH.
Qed.
Lemma print_records resp flag rs more : response_msg resp ≠ ""%string → Forall (Forall (λ b, b ≠ [])) rs →
  print_messages flag ((rs ≫= λ r, (print_response resp <$> r) ++ [print_response resp []]) ++ more) =
  text (rs ≫= response_lines (lit (response_msg resp))) ++ print_messages flag more.
Proof.
  intros Hr. induction 1 as [|r rs H _ IH]; [done|]. cbn [mbind list_bind]. rewrite <-!app_assoc. cbn [app].
  rewrite print_record by done. rewrite text_app, <-app_assoc. f_equal. exact IH.
Qed.
Lemma schema_displayed before cs : Forall replicable cs →
  text before ++ print_messages false ((cs ≫= schema_display_class) ++ [print_ok]) =
  text before ++ text ((cs ≫= class_records) ≫= response_lines ($"%schema")) ++ $"%ok" ++ NL :: [].
Proof.
  intros H. f_equal. assert ((cs ≫= schema_display_class) = (cs ≫= class_records) ≫= λ r, (print_response RESP_SCHEMA <$> r) ++ [print_response RESP_SCHEMA []]) as ->.
  { induction H as [|c cs Hc _ IH]; [done|]. cbn [mbind list_bind]. by rewrite bind_app, replicable_displayed, IH. }
  rewrite print_records; [done|done|]. clear before. induction H as [|c cs (Hc & _ & Hs & _) _ IH]; [constructor|]. cbn [mbind list_bind]. apply Forall_app. split; [|done].
  apply Forall_fmap. eapply Forall_impl; [exact Hs|]. intros a Ha. eapply Forall_impl; [by apply sent_items_sendable|]. by intros t [].
Qed.
Lemma records_wired cs : Forall replicable cs →
  Forall (λ r, r ≠ [] ∧ Forall (λ b, wired ($"%schema" ++ SP :: b)) r) (cs ≫= class_records).
Proof.
  induction 1 as [|c cs (Hc & _ & Hs & _) _ IH]; [constructor|]. cbn [mbind list_bind]. apply Forall_app. split; [|done].
  apply Forall_fmap. eapply Forall_impl; [exact Hs|]. intros a Ha. split; [done|].
  eapply Forall_impl; [by apply sent_items_sendable|]. intros t. apply sendable_wired, schema_delimiter.
Qed.

(** C16: a schema is copied, but not all of it: what the master answers to
    -schema for classes makes an entry for each class in the schema file, and
    for each an attribute file that gives the slave the attributes of the class
    in their order and with their local ids, flags, types and descriptions;
    that an attribute is private, how it is indexed, its format and its aliases
    do not get there.  No other file changes. *)
Theorem schema_replicated mkdir_ok before cs fs dirs slave dir data f :
  Forall replicable cs → NoDup (lower ∘ class_name <$> cs) → cs ≠ [] →
  Forall wired before → Forall (passed_over ($"%schema")) before →
  schema_file slave = Some f → f ∉ attr_path dir <$> cs → get_aa_schema_directory slave = Ret dir → data_dir slave = Some data →
  (length (aa_name slave) < 500)%nat → (length (under dir) < 200)%nat →
  let stream := text before ++ print_messages false ((cs ≫= schema_display_class) ++ [print_ok]) in
  ∃ fs' dirs', create_schema_file mkdir_ok (λ _ _, true) slave stream true fs dirs = Ret (true, fs', dirs') ∧
    fs' f = Some (text (schema_entries dir data cs)) ∧ (∀ n, n ∉ f :: (attr_path dir <$> cs) → fs' n = fs n) ∧
    ∀ c c1 refs, c ∈ cs → class_ok c → attr_file c1 = Some (attr_path dir c) → alike (attribute_list c1) base_attributes →
      ∃ c2 refs2, read_attributes fs' c1 refs = Ret (true, c2, refs2) ∧
        alike (attribute_list c2) (attribute_list (copied_class c)) ∧ with_attributes [] c2 = with_attributes [] c1.
Proof.
  intros Hcs Hnd Hne Hb Hp Hf Hnf Hdir Hdata Hl Hu stream. unfold stream. rewrite schema_displayed by done. clear stream.
  destruct (schema_fed mkdir_ok (λ _ _, true) slave dir data ltac:(done) Hdir Hdata Hu cs Hcs Hnd
    (SchemaOut None false [] false [] (upd fs f (Some [])) dirs) false ltac:(done) ltac:(done)) as (s & E & Hfp & Hfs & Hk).
  exists (upd (so_fs s) f (Some (text (so_fp s)))), (so_dirs s).
  unfold create_schema_file, directive_line. rewrite decide_True by (rewrite length_app; cbn [length]; unfold MAX_LINE; cbn; lia).
  cbn [mbind outcome_bind]. rewrite Hf. cbn [of_option mbind outcome_bind negb].
  pose proof (delimiter_wired _ schema_delimiter) as Hw. assert (SP ∉ $"%schema") as Hsp by (apply (bool_decide_unpack _); vm_compute; exact I).
  rewrite (answers_fed _ ($"%schema")); try done; [|apply (bool_decide_unpack _); vm_compute; exact I|by apply records_wired|].
  - assert (feed (create_schema_file_record mkdir_ok (λ _ _, true) slave) (cs ≫= class_records) false
              (SchemaOut None false [] false [] (upd fs f (Some [])) dirs) = Ret (true, s)) as -> by (etrans; [exact E|by destruct cs]).
    cbn [mbind outcome_bind]. split; [done|]. split; [|split].
    + rewrite Hfp. unfold upd. by rewrite bool_decide_true.
    + intros n [Hn1 Hn2]%not_elem_of_cons. unfold upd. rewrite bool_decide_false by done. rewrite Hk by done. cbn [so_fs]. unfold upd.
      by rewrite bool_decide_false.
    + intros c c1 refs Hc Hok Hfile Hbase. apply (read_attributes_copied _ c c1 refs (attr_path dir c)); try done.
      * by eapply Forall_forall in Hcs.
      * unfold upd. rewrite bool_decide_false; [by apply Hfs|]. intros E0. apply Hnf. rewrite <-E0. by apply (list_elem_of_fmap_2 (attr_path dir)).
  - rewrite !length_app. pose proof (text_size ((cs ≫= class_records) ≫= response_lines ($"%schema"))) as Ht.
    assert (length (cs ≫= class_records) ≤ length ((cs ≫= class_records) ≫= response_lines ($"%schema")))%nat; [apply responses_length|cbn [length]; lia].
Qed.

Definition demo_schema_slave : auth_area_struct := with_area_files (Some $"dir/schema") (Some $"soa") (Some $"data") None demo_slave.
Definition demo_copy : class_struct :=
  Class_ 0 ($"host") [] ($"data/host") None base_attributes None (Some $"dir/attribute_defs/host.tmpl") None.
Lemma schema_replicated_witness :
  let stream := text demo_banner ++ print_messages false (([demo_host_class] ≫= schema_display_class) ++ [print_ok]) in
  ∃ fs' dirs' c2 refs2, create_schema_file (λ _ _, true) (λ _ _, true) demo_schema_slave stream true (λ _, None) [] = Ret (true, fs', dirs') ∧
    read_attributes fs' demo_copy (Some []) = Ret (true, c2, refs2) ∧
    alike (attribute_list c2) (attribute_list (copied_class demo_host_class)).
Proof.
  intros stream.
  destruct (schema_replicated (λ _ _, true) demo_banner [demo_host_class] (λ _, None) [] demo_schema_slave (Some $"dir") ($"data") ($"dir/schema"))
    as (fs' & dirs' & E & _ & _ & R).
  - constructor; [|constructor]. split; [apply (bool_decide_unpack _); vm_compute; exact I|].
    split; [vm_compute; reflexivity|]. split; apply (bool_decide_unpack _); vm_compute; exact I.
  - apply NoDup_singleton.
  - discriminate.
  - apply (bool_decide_unpack _). vm_compute. exact I.
  - apply (bool_decide_unpack _). vm_compute. exact I.
  - reflexivity.
  - apply (bool_decide_unpack _). vm_compute. exact I.
  - vm_compute. reflexivity.
  - reflexivity.
  - apply (bool_decide_unpack _). vm_compute. exact I.
  - apply (bool_decide_unpack _). vm_compute. exact I.
  - destruct (R demo_host_class demo_copy (Some [])) as (c2 & refs2 & E2 & H2 & _);
      [by left|by apply demo_host_ok|vm_compute; reflexivity|reflexivity|].
    exists fs', dirs', c2, refs2. split; [exact E|]. split; [exact E2|exact H2].
Defined.
