(* ===== verification/SlaveXfer.v ===== *)
(** * The data of a slave (server/sxfer.c)

    The answer to -xfer has a response for each record.  The slave makes a data
    file for each class, which takes the place of the files that the class had:
    it is indexed and listed, and the old ones are taken off the list and
    removed. *)

From S2P Require Import Prelude CLib CString Misc DlList IpNetwork Types ClientMsgs Checks Stdio ValidateRec FilePath IndexLine Records Index FileInfo IndexSort.
From S2P Require Import IndexFiles DataFile ConfigFile Attributes AuthArea Answers Xfer Slave SlaveSchema.
Local Open Scope Z_scope.

(** ** The arguments of a partial transfer *)

Record slave_xfer_arg := SlaveXferArg { sx_serial_no : option cstr; sx_classes : list xfer_class_struct }.

(** [cur]: the class that was named last, behind [classes] *)
Fixpoint slave_args_loop (aa : auth_area_struct) (argv : list cstr) (serial : option cstr) (classes : list xfer_class_struct)
    (cur : option xfer_class_struct) : outcome (option slave_xfer_arg) :=
  match argv with
  | [] => Ret (Some (SlaveXferArg serial (classes ++ option_list cur)))
  | arg :: argv =>
      '(attr, value) ← xfer_split_av arg;
      match attr with
      | [] => slave_args_loop aa argv (Some value) classes cur
      | _ =>
          if STR_EQ attr ($"class") then
            match find_class_by_name (aa_schema aa) value with
            | None => Ret None
            | Some c => slave_args_loop aa argv serial (classes ++ option_list cur) (Some (XferClass c []))
            end
          else if STR_EQ attr ($"attr") then
            match cur with
            | None => Ret None
            | Some xc =>
                match find_attribute_by_name (xc_class xc) value with
                | None => Ret None
                | Some a => slave_args_loop aa argv serial classes (Some (XferClass (xc_class xc) (xc_attrs xc ++ [a])))
                end
            end
          else slave_args_loop aa argv serial classes cur
      end
  end.
Definition slave_parse_args (str : cstr) (aa : auth_area_struct) : outcome (option slave_xfer_arg) :=
  argv ← split_args (Some str);
  match default [] argv with [] => Ret None | argv => slave_args_loop aa argv None [] None end.
Definition class_in_xfer_arg (c : class_struct) (xs : slave_xfer_arg) : bool :=
  existsb (λ xc, STR_EQ (class_name (xc_class xc)) (class_name c)) (sx_classes xs).

(** ** Data files *)

(** the static variables; [do_text]: what was written to data_fp, which is null
    at first; it is in the file when the file is closed *)
Record data_out := DataOut {
  do_class : option cstr; do_first : bool; do_file : cstr; do_text : option cstr; do_fs : filesystem; do_dirs : list cstr }.
Definition closed (s : data_out) : filesystem :=
  match do_text s with Some t => upd (do_fs s) (do_file s) (Some t) | None => do_fs s end.
(** fprintf to data_fp *)
Definition put_data (ls : list cstr) (s : data_out) : outcome data_out :=
  t ← of_option (do_text s);
  Ret (DataOut (do_class s) (do_first s) (do_file s) (Some (t ++ text ls)) (do_fs s) (do_dirs s)).
Definition create_data_file_line (tag value : cstr) (s : data_out) : outcome data_out :=
  if STR_EQ tag ($"Class-Name") then Ret s else put_data [field tag 0 value] s.

Section Files.
(** can a directory be made, a file be opened; make_timestamp, when it is called
    for a directory, and mktemp *)
Context (mkdir_ok open_ok : list cstr → cstr → bool) (stamp mktemp : cstr → cstr) (aa : auth_area_struct).

(** the directory of a class and its new data file *)
Definition data_names (class : cstr) : outcome (cstr * cstr) :=
  data ← of_option (data_dir aa);
  dir ← line_array (data ++ SLASH :: class);
  file ← line_array (dir ++ SLASH :: stamp dir ++ $".XXXXXX");
  file ← line_array (mktemp file ++ $".txt");
  Ret (dir, file).
(** the data file of the class that was open is closed and one for another made *)
Definition begin_data (class : cstr) (s : data_out) : outcome (bool * data_out) :=
  let fs := match do_class s with Some _ => closed s | None => do_fs s end in
  let first := match do_class s with Some _ => false | None => do_first s end in
  '(dir, file) ← data_names class;
  let dirs := add_dir mkdir_ok (do_dirs s) dir in
  if open_ok dirs file
  then Ret (true, DataOut (Some class) first file (Some []) (upd fs file (Some [])) dirs)
  else Ret (false, DataOut (Some class) first file None fs dirs).

(** [first_str]: the first line of the response *)
Fixpoint create_data_loop (response : list cstr) (first_str : bool) (s : data_out) : outcome (bool * data_out) :=
  match response with
  | [] => Ret (true, s)
  | str :: response =>
      match get_tuple (Some str) with
      | None => Ret (false, s)
      | Some (class, tag, value) =>
          '(ok, s) ←
            (if first_str : bool then
               '(ok, s) ← (if match do_class s with Some old => STR_EQ class old | None => false end then Ret (true, s) else begin_data class s);
               if negb ok then Ret (false, s)
               else if negb (do_first s)
               then Ret (true, DataOut (do_class s) true (do_file s) (do_text s) (do_fs s) (do_dirs s))
               else s ← put_data [$"---"] s; Ret (true, s)
             else Ret (true, s));
          if negb ok then Ret (false, s)
          else s ← create_data_file_line tag value s; create_data_loop response false s
      end
  end.
Definition create_data_file_record (response : list cstr) (s : data_out) : outcome (bool * data_out) :=
  match response with [] => Ret (false, s) | _ => create_data_loop response true s end.

(** ** Indexing *)

Section Index.
Context (regexec : cstr → cstr → bool) (metaphone : cstr → cstr) (ni0 : netinfo) (fopen_ok : cstr → bool) (check_record : record_check)
        (run_sort : list cstr → option (list cstr)) (root_dir : option cstr) (file_path : buf) (lock_first lock_second lock_third : bool)
        (read_dir : cstr → option (list cstr)).

(** the new files take the place of those that were listed *)
Definition replace_class_files (fs : filesystem) (c : class_struct) (full data : list file_struct) (index : list index_fp_struct) :
    outcome (bool * filesystem) :=
  '(ok, fs, data) ← index_files_run regexec metaphone ni0 fopen_ok check_record run_sort root_dir file_path lock_first lock_second
                      fs c aa index data 0 true;
  if negb ok then Ret (false, fs)
  else
    '(_, fs, _) ← modify_file_list root_dir file_path lock_third fs c None (Some full) None (Some data) None;
    Ret (true, unlink_file_list fs full).

(** [made]: the list of index files has been set up, which the end of the
    function destroys *)
Fixpoint index_classes (xs : option slave_xfer_arg) (suffix : cstr) (dirs : list cstr) (cs : list class_struct) (made : bool) (fs : filesystem) :
    outcome (bool * filesystem) :=
  match cs with
  | [] => if made then Ret (true, fs) else Fault
  | c :: cs =>
      if match xs with Some xs => negb (class_in_xfer_arg c xs) | None => false end then index_classes xs suffix dirs cs made fs
      else if negb (bool_decide (db_dir c ∈ dirs)) then index_classes xs suffix dirs cs made fs
      else
        '(_, full) ← get_file_list fs c [];
        '(ok, data) ← build_file_list_by_suffix fs read_dir (replicate (Z.to_nat MAX_FILE + 1) NUL) MKDB_DATA_FILE (db_dir c) suffix;
        if negb ok then (if made then Ret (false, fs) else Fault)
        else
          let '(ok, index) := build_index_list mktemp c None [] in
          if negb ok then Ret (false, fs)
          else
            '(ok, fs) ← replace_class_files fs c full data index;
            if negb ok then Ret (false, fs) else index_classes xs suffix dirs cs true fs
  end.
Definition index_data_files_by_suffix (suffix : cstr) (dirs : list cstr) (fs : filesystem) : outcome (bool * filesystem) :=
  match aa_schema aa with
  | None => Ret (false, fs)
  | Some s =>
      match class_list s with
      | [] => Ret (false, fs)
      | cs =>
          xs ← match xfer_arg aa with Some arg => slave_parse_args arg aa | None => Ret None end;
          match xfer_arg aa, xs with
          | Some _, None => Ret (false, fs)
          | _, _ => index_classes xs suffix dirs cs false fs
          end
      end
  end.

(** the part of a name behind the first dot of its last component; a name
    without a slash gives strchr a null string *)
Definition name_suffix (name : cstr) : outcome (option cstr) :=
  i ← of_option (strrchr name SLASH);
  Ret match strchr (drop i name) DOT with Some j => Some (drop (S j) (drop i name)) | None => None end.

(** [locked]: the dot lock of the area is there.  The status, whether the lock
    is there afterwards, the files and directories. *)
Definition create_data_files (stream : cstr) (initial locked lock_ok : bool) (s : data_out) : outcome (bool * bool * filesystem * list cstr) :=
  _ ← (aa_dir ← get_aa_schema_directory aa; match aa_dir with Some d => Ret d | None => get_default_aa_directory ni0 aa end);
  if negb initial && locked then Ret (false, locked, do_fs s, do_dirs s)
  else
    let locked := lock_ok in
    xs ← match xfer_arg aa with
         | Some arg => xs ← slave_parse_args arg aa; Ret (bool_decide (xs ≠ None))
         | None => Ret true
         end;
    if negb xs then Ret (false, locked, do_fs s, do_dirs s)
    else
      _ ← directive_line ($"-xfer " ++ aa_name aa ++ match xfer_arg aa with Some arg => SP :: arg | None => [] end);
      data ← of_option (data_dir aa);
      '(rval, s) ← responses (S (length stream)) stream 0 ($"%xfer") create_data_file_record false
                     (DataOut (do_class s) (do_first s) (do_file s) (do_text s) (do_fs s) (add_dir mkdir_ok (do_dirs s) data));
      suffix ← name_suffix (do_file s);
      '(_, fs) ← match suffix with Some p => index_data_files_by_suffix p (do_dirs s) (closed s) | None => Ret (false, closed s) end;
      Ret (rval, false, fs, do_dirs s).
End Index.
End Files.

(** ** What is written *)

Definition kept (avs : list av_pair_struct) : list av_pair_struct :=
  filter (λ av, STR_EQ (attr_name (av_attr av)) ($"Class-Name") = false) avs.
Definition pair_items (class : cstr) (avs : list av_pair_struct) : list cstr :=
  (λ av, tuple_text class (attr_name (av_attr av)) (default [] (av_value av))) <$> avs.
Definition copied_text (l : list (list av_pair_struct)) : cstr :=
  match l with [] => [] | avs :: l => record_text (kept avs) ++ (l ≫= λ avs, separator ++ record_text (kept avs)) end.
(** a pair that can be sent for a class: its line is not cut *)
Definition sendable_pair (class : cstr) (av : av_pair_struct) : Prop :=
  good_tag (attr_name (av_attr av)) = true ∧ clean_datum (default [] (av_value av)) ∧
  (length class + length (attr_name (av_attr av)) + length (default [] (av_value av)) + 9 < MAX_LINE)%nat.
#[export] Instance sendable_pair_dec class av : Decision (sendable_pair class av).
Proof. unfold sendable_pair. apply _. Defined.

Lemma pair_parsed class av : good_tag class = true → sendable_pair class av →
  get_tuple (Some (tuple_text class (attr_name (av_attr av)) (default [] (av_value av)))) =
  Some (class, attr_name (av_attr av), default [] (av_value av)).
Proof. intros Hc (Ht & (_ & _ & Hl & _) & _). by apply tuple_parsed. Qed.
Lemma xfer_delimiter : good_delimiter ($"%xfer").
Proof. apply (bool_decide_unpack _). vm_compute. exact I. Qed.
Lemma pair_items_sendable class avs : good_tag class = true → Forall (sendable_pair class) avs →
  Forall (sendable ($"%xfer")) (pair_items class avs).
Proof.
  intros Hc H. apply Forall_fmap. eapply Forall_impl; [exact H|]. intros av (Ht & (Hne & Hv & _ & Hr) & Hl).
  apply tuple_sendable; try done; [apply xfer_delimiter|]. change (length ($"%xfer")) with 5%nat. lia.
Qed.
Lemma record_displayed c rec : rec_class rec = c → av_pair_list rec ≠ [] →
  record_lines None rec = (print_response RESP_XFER <$> pair_items (class_name c) (av_pair_list rec)) ++ [print_response RESP_XFER []].
Proof.
  intros <- Hne. unfold record_lines. assert (filter (λ av, asked None av = true) (av_pair_list rec) = av_pair_list rec) as ->.
  { generalize (av_pair_list rec). intros l. induction l as [|av l IH]; [done|]. rewrite filter_cons, decide_True by done. by rewrite IH. }
  destruct (av_pair_list rec) as [|av l]; [done|]. f_equal. unfold pair_items. rewrite <-list_fmap_compose. reflexivity.
Qed.

Definition with_text (t : cstr) (s : data_out) : data_out := DataOut (do_class s) (do_first s) (do_file s) (Some t) (do_fs s) (do_dirs s).

Section Fed.
Context (mkdir_ok open_ok : list cstr → cstr → bool) (stamp mktemp : cstr → cstr) (aa : auth_area_struct).
Local Notation loop := (create_data_loop mkdir_ok open_ok stamp mktemp aa).
Local Notation record := (create_data_file_record mkdir_ok open_ok stamp mktemp aa).
Context (class : cstr) (class_good : good_tag class = true).

Lemma pairs_written avs : Forall (sendable_pair class) avs → ∀ s t, do_text s = Some t →
  loop (pair_items class avs) false s = Ret (true, with_text (t ++ record_text (kept avs)) s).
Proof.
  induction 1 as [|av avs Hav _ IH]; intros s t Ht.
  { cbn. rewrite app_nil_r. unfold with_text. rewrite <-Ht. by destruct s. }
  unfold pair_items. rewrite fmap_cons. cbn [create_data_loop]. rewrite pair_parsed by done. cbn [mbind outcome_bind negb].
  unfold create_data_file_line, kept. rewrite filter_cons. case_decide as Hk.
  2: { apply not_false_iff_true in Hk. rewrite Hk. cbn [mbind outcome_bind]. by apply IH. }
  - rewrite Hk. unfold put_data. rewrite Ht. cbn [of_option mbind outcome_bind].
    fold (pair_items class avs). rewrite (IH _ (t ++ text [field (attr_name (av_attr av)) 0 (default [] (av_value av))])) by done.
    unfold record_text. rewrite fmap_cons, !text_cons. change (text []) with (@nil ascii). rewrite <-!app_assoc. reflexivity.
Qed.
Lemma record_written avs s t : avs ≠ [] → Forall (sendable_pair class) avs → do_class s = Some class → do_text s = Some t →
  record (pair_items class avs) s =
    Ret (true, DataOut (do_class s) true (do_file s) (Some (t ++ (if do_first s then separator else []) ++ record_text (kept avs))) (do_fs s) (do_dirs s)).
Proof.
  intros Hne H Hc Ht. destruct H as [|av avs Hav H]; [done|].
  assert (∀ s0 t0, do_text s0 = Some t0 → loop (pair_items class (av :: avs)) false s0 = Ret (true, with_text (t0 ++ record_text (kept (av :: avs))) s0)) as E
    by (intros s0 t0 Ht0; apply pairs_written; [by constructor|done]).
  unfold create_data_file_record. unfold pair_items in *. rewrite fmap_cons in *. cbn [create_data_loop] in *. rewrite pair_parsed in * by done.
  rewrite Hc, STR_EQ_refl. cbn [mbind outcome_bind negb] in *. destruct (do_first s) eqn:Ef; cbn [negb].
  - unfold put_data at 1. rewrite Ht. cbn [of_option mbind outcome_bind negb]. rewrite (E _ (t ++ text [$"---"])) by done.
    rewrite <-app_assoc. unfold with_text. cbn [do_class do_first do_file do_text do_fs do_dirs]. by rewrite Hc, Ef.
  - cbn [mbind outcome_bind negb]. rewrite (E _ t) by done. unfold with_text. cbn [do_class do_first do_file do_text do_fs do_dirs]. by rewrite Hc.
Qed.
Lemma record_begins avs s s1 : avs ≠ [] → Forall (sendable_pair class) avs → do_class s = None →
  begin_data mkdir_ok open_ok stamp mktemp aa class s = Ret (true, s1) → do_class s1 = Some class →
  record (pair_items class avs) s = record (pair_items class avs) s1.
Proof.
  intros Hne H Hc Hb Hc1. destruct H as [|av avs Hav H]; [done|].
  unfold create_data_file_record. unfold pair_items. rewrite fmap_cons. cbn [create_data_loop]. rewrite pair_parsed by done.
  rewrite Hc, Hc1, STR_EQ_refl, Hb. reflexivity.
Qed.
Lemma more_written l : Forall (λ avs, avs ≠ [] ∧ Forall (sendable_pair class) avs) l → ∀ s t, do_class s = Some class → do_first s = true → do_text s = Some t →
  feed record (pair_items class <$> l) true s = Ret (true, with_text (t ++ (l ≫= λ avs, separator ++ record_text (kept avs))) s).
Proof.
  induction 1 as [|avs l [Hne H] _ IH]; intros s t Hc Hf Ht.
  { cbn. rewrite app_nil_r. unfold with_text. rewrite <-Ht. by destruct s. }
  rewrite fmap_cons. cbn [feed]. rewrite (record_written avs s t) by done. rewrite Hf. cbn [mbind outcome_bind orb].
  rewrite (IH _ (t ++ separator ++ record_text (kept avs))) by done. rewrite bind_cons, <-!app_assoc. unfold with_text.
  cbn [do_class do_first do_file do_text do_fs do_dirs]. by rewrite Hf.
Qed.
(** the records of one class make its data file *)
Lemma data_written l fs dirs dir file : l ≠ [] → Forall (λ avs, avs ≠ [] ∧ Forall (sendable_pair class) avs) l →
  data_names stamp mktemp aa class = Ret (dir, file) → open_ok (add_dir mkdir_ok dirs dir) file = true →
  feed record (pair_items class <$> l) false (DataOut None false [] None fs dirs) =
    Ret (true, DataOut (Some class) true file (Some (copied_text l)) (upd fs file (Some [])) (add_dir mkdir_ok dirs dir)).
Proof.
  intros Hne H Hn Ho. destruct H as [|avs l [Hna Ha] H]; [done|]. rewrite fmap_cons. cbn [feed].
  erewrite record_begins; [|done..|unfold begin_data; cbn [do_class]; rewrite Hn; cbn [mbind outcome_bind]; cbn zeta; cbn [do_dirs]; rewrite Ho; reflexivity|reflexivity].
  rewrite (record_written avs _ []) by done. cbn [mbind outcome_bind orb do_first]. rewrite (more_written l H _ (record_text (kept avs))) by done.
  reflexivity.
Qed.
End Fed.

(** ** What is read *)

Section Read.
Context (check_record : record_check) (c : class_struct) (aa : auth_area_struct) (no : Z).

(** the records that a file gives from [pos] on, and nothing behind them *)
Fixpoint reads (f : cstr) (pos : nat) (l : list (list av_pair_struct)) : Prop :=
  match l with
  | [] => mkdb_read_next_record check_record c aa no 0 f pos = Ret (None, REC_EOF, pos)
  | avs :: l => ∃ pos', mkdb_read_next_record check_record c aa no 0 f pos = Ret (Some (Record_ c aa no 0 (Z.of_nat pos) avs), REC_OK, pos') ∧
                        reads f pos' l
  end.

(** a record that names its area but not its class gets the pair of its class *)
Definition unclassed (avs : list av_pair_struct) : Prop :=
  avs ≠ [] ∧ Forall (plain_pair c) avs ∧ names_in auth_area_names avs ∧
  Forall (λ av, existsb (λ n, STR_EQ (attr_name (av_attr av)) n) class_names = false) avs.
Definition classed (cn : attribute_struct) (avs : list av_pair_struct) : list av_pair_struct := AvPair cn (Some (class_name c)) :: avs.

Lemma translate_unclassed cn off avs : unclassed avs → find_attribute_by_name c ($"Class-Name") = Some cn →
  mkdb_translate_anon_record (AnonRecord no off (anon_of <$> avs)) c aa 0 = Record_ c aa no 0 off (classed cn avs).
Proof.
  intros (_ & Hav & Haa & Hcl) Hcn. unfold mkdb_translate_anon_record.
  destruct (find_anon_auth_area_in_rec _) eqn:E1; [|by destruct (find_anon_names auth_area_names avs no off Haa)].
  assert (find_anon_class_in_rec (AnonRecord no off (anon_of <$> avs)) = None) as ->.
  { unfold find_anon_class_in_rec, find_anon_by_names. apply find_first_None. intros x Hx. cbn [anon_av_pair_list] in Hx.
    apply list_elem_of_fmap in Hx as (av & -> & Hin). rewrite Forall_forall in Hcl. cbn [anon_attr_name anon_of].
    apply andb_false_intro2. by apply Hcl. }
  unfold append_attribute_to_record. rewrite Hcn. cbn [snd].
  unfold with_av_pairs. cbn [rec_class rec_auth_area rec_data_file_no rec_index_file_no rec_offset av_pair_list anon_av_pair_list app].
  by rewrite translate_plain.
Qed.
(** what stands behind a record: a separator, or the end of the file *)
Definition ended (post : cstr) : Prop := post = [] ∨ ∃ p, post = separator ++ p.
Definition skipped (post : cstr) : nat := match post with [] => 0 | _ => 4 end.
Lemma read_anon_plain pre avs post : avs ≠ [] → Forall (plain_pair c) avs → ended post →
  mkdb_read_anon_record no (pre ++ record_text avs ++ post) (length pre) =
    Ret (Some (AnonRecord no (Z.of_nat (length pre)) (anon_of <$> avs)), REC_OK, (length (pre ++ record_text avs) + skipped post)%nat).
Proof.
  intros Hne Hav Hpost. unfold mkdb_read_anon_record. set (f := pre ++ record_text avs ++ post).
  assert (length avs ≤ length (record_text avs))%nat as Hlen by (unfold record_text; rewrite <-(length_fmap av_line avs) at 1; apply text_length).
  assert (length avs ≤ length f)%nat as Hf by (unfold f; rewrite !length_app; lia).
  pose proof (read_record_loop c avs (S (length f)) pre post [] Hav ltac:(lia)) as E. fold f in E. rewrite E, app_nil_r. clear E.
  destruct (S (length f) - length avs)%nat as [|fuel] eqn:Ef; [lia|]. cbn [read_anon_loop].
  assert (∃ a l, reverse (anon_of <$> avs) = a :: l) as (a & l & El).
  { destruct (reverse (anon_of <$> avs)) as [|a l] eqn:El; [|by exists a, l].
    apply (f_equal length) in El. rewrite length_reverse, length_fmap in El. by destruct avs. }
  assert (reverse (a :: l) = anon_of <$> avs) as Er by (by rewrite <-El, reverse_involutive). rewrite El.
  destruct Hpost as [->|(p & ->)].
  - assert (readline f (length (pre ++ record_text avs)) MAX_LINE = None) as -> by (unfold readline, fgets, f; by rewrite app_nil_r, drop_all).
    cbn [mbind outcome_bind skipped]. by rewrite Er, Nat.add_0_r.
  - unfold f, separator. rewrite app_assoc, <-(app_assoc ($"---")). cbn [app].
    rewrite readline_at; [|split; apply (bool_decide_unpack _); vm_compute; exact I|vm_compute; lia].
    change (new_record (Some (clean ($"---")))) with (true, Some ($"---")). cbn [mbind outcome_bind].
    rewrite Er. do 2 f_equal. change (length ($"---")) with 3%nat. change (skipped (($"---") ++ NL :: p)) with 4%nat. lia.
Qed.
Lemma read_unclassed cn pre avs post : unclassed avs → find_attribute_by_name c ($"Class-Name") = Some cn → ended post →
  mkdb_read_next_record check_record c aa no 0 (pre ++ record_text avs ++ post) (length pre) =
    Ret (Some (Record_ c aa no 0 (Z.of_nat (length pre)) (classed cn avs)), REC_OK, (length (pre ++ record_text avs) + skipped post)%nat).
Proof.
  intros Hu Hcn Hpost. pose proof Hu as (Hne & Hav & _). unfold mkdb_read_next_record. cbn [read_next_loop]. unfold mkdb_read_record.
  rewrite read_anon_plain by done. cbn [mbind outcome_bind]. by rewrite (translate_unclassed cn).
Qed.
Lemma read_end f : mkdb_read_next_record check_record c aa no 0 f (length f) = Ret (None, REC_EOF, length f).
Proof.
  unfold mkdb_read_next_record. cbn [read_next_loop]. unfold mkdb_read_record, mkdb_read_anon_record. cbn [read_anon_loop].
  assert (readline f (length f) MAX_LINE = None) as -> by (unfold readline, fgets; by rewrite drop_all). done.
Qed.

Definition records_text (l : list (list av_pair_struct)) : cstr :=
  match l with [] => [] | avs :: l => record_text avs ++ (l ≫= λ avs, separator ++ record_text avs) end.
Lemma records_text_cons avs l : records_text (avs :: l) = record_text avs ++ match l with [] => [] | _ => separator ++ records_text l end.
Proof. destruct l; [done|]. cbn [records_text]. by rewrite bind_cons, <-!app_assoc. Qed.
Lemma reads_records cn l : find_attribute_by_name c ($"Class-Name") = Some cn → Forall unclassed l → ∀ pre,
  reads (pre ++ records_text l) (length pre) (classed cn <$> l).
Proof.
  intros Hcn. induction 1 as [|avs l Hu _ IH]; intros pre.
  - cbn [records_text fmap list_fmap reads]. rewrite app_nil_r. apply read_end.
  - rewrite records_text_cons, fmap_cons. cbn [reads]. set (post := match l with [] => [] | _ => _ end).
    assert (ended post) as Hp by (unfold post, ended; destruct l; eauto). rewrite (read_unclassed cn) by done. eexists. split; [reflexivity|].
    destruct l as [|avs' l].
    + cbn [fmap list_fmap reads skipped post]. rewrite Nat.add_0_r, app_nil_r. apply read_end.
    + specialize (IH (pre ++ record_text avs ++ separator)). rewrite <-!app_assoc in IH.
      replace (length (pre ++ record_text avs) + skipped post)%nat with (length (pre ++ record_text avs ++ separator)); [exact IH|].
      rewrite app_assoc, (length_app (pre ++ record_text avs)). change (length separator) with 4%nat. reflexivity.
Qed.
End Read.

(** ** The records of a class are copied *)

Lemma xfer_displayed before c recs : Forall (λ rec, rec_class rec = c ∧ av_pair_list rec ≠ [] ∧ Forall (sendable_pair (class_name c)) (av_pair_list rec)) recs →
  good_tag (class_name c) = true →
  text before ++ print_messages false ((recs ≫= record_lines None) ++ [print_ok]) =
  text before ++ text ((pair_items (class_name c) ∘ av_pair_list <$> recs) ≫= response_lines ($"%xfer")) ++ $"%ok" ++ NL :: [].
Proof.
  intros H Hc. f_equal.
  assert ((recs ≫= record_lines None) = (pair_items (class_name c) ∘ av_pair_list <$> recs) ≫= λ r, (print_response RESP_XFER <$> r) ++ [print_response RESP_XFER []]) as ->.
  { induction H as [|rec recs (Hr & Hne & _) _ IH]; [done|]. rewrite bind_cons, fmap_cons, bind_cons, (record_displayed c) by done. by rewrite IH. }
  rewrite print_records; [done|done|]. apply Forall_fmap. eapply Forall_impl; [exact H|]. intros rec (_ & _ & Hs).
  eapply Forall_impl; [by apply pair_items_sendable|]. by intros t [].
Qed.

(** C15: the records of a class are copied: what the master answers to -xfer for
    the records of a class makes a data file on the slave in which its reader
    finds those records, in their order and no other, with the same pairs but
    that of their class, which the reader adds. *)
Theorem records_replicated mkdir_ok open_ok stamp mktemp slave before cm recs c aa no check_record cn avss fs dirs dir file :
  good_tag (class_name cm) = true → recs ≠ [] →
  Forall (λ rec, rec_class rec = cm ∧ av_pair_list rec ≠ [] ∧ Forall (sendable_pair (class_name cm)) (av_pair_list rec)) recs →
  Forall2 (λ rec avs, record_text (kept (av_pair_list rec)) = record_text avs) recs avss → Forall (unclassed c) avss →
  find_attribute_by_name c ($"Class-Name") = Some cn →
  Forall wired before → Forall (passed_over ($"%xfer")) before →
  data_names stamp mktemp slave (class_name cm) = Ret (dir, file) → open_ok (add_dir mkdir_ok dirs dir) file = true →
  let stream := text before ++ print_messages false ((recs ≫= record_lines None) ++ [print_ok]) in
  ∃ s txt, responses (S (length stream)) stream 0 ($"%xfer") (create_data_file_record mkdir_ok open_ok stamp mktemp slave) false
             (DataOut None false [] None fs dirs) = Ret (true, s) ∧
    do_file s = file ∧ closed s file = Some txt ∧ (∀ n, n ≠ file → closed s n = fs n) ∧
    reads check_record c aa no txt 0 (classed c cn <$> avss).
Proof.
  intros Hcm Hne Hrecs Htexts Hun Hcn Hb Hp Hn Ho stream. unfold stream. rewrite (xfer_displayed before cm) by done. clear stream.
  pose proof (delimiter_wired _ xfer_delimiter) as Hw. assert (SP ∉ $"%xfer") as Hsp by (apply (bool_decide_unpack _); vm_compute; exact I).
  set (items := pair_items (class_name cm) ∘ av_pair_list <$> recs).
  assert (items = pair_items (class_name cm) <$> (av_pair_list <$> recs)) as Ei by (by rewrite <-list_fmap_compose).
  rewrite (answers_fed _ ($"%xfer")); try done; [|apply (bool_decide_unpack _); vm_compute; exact I| |].
  - rewrite Ei, (data_written _ _ _ _ _ _ Hcm _ fs dirs dir file); [|by destruct recs| |done|done].
    2: { apply Forall_fmap. eapply Forall_impl; [exact Hrecs|]. intros rec (_ & H1 & H2). done. }
    eexists _, _. split; [reflexivity|]. split; [done|]. unfold closed. cbn [do_text do_fs do_file].
    split; [unfold upd; rewrite bool_decide_true by done; reflexivity|]. split.
    { intros n Hnf. unfold upd. by rewrite !bool_decide_false. }
    assert (copied_text (av_pair_list <$> recs) = records_text avss) as ->; [|by apply (reads_records check_record c aa no cn avss Hcn Hun [])].
    clear -Htexts. destruct Htexts as [|rec avs recs avss E H]; [done|]. rewrite fmap_cons. cbn [copied_text records_text]. rewrite E. f_equal.
    induction H as [|rec' avs' recs' avss' E' _ IH]; [done|]. rewrite fmap_cons, !bind_cons, E'. by f_equal.
  - apply Forall_fmap. eapply Forall_impl; [exact Hrecs|]. intros rec (_ & H1 & H2). cbn [compose]. split; [by destruct (av_pair_list rec)|].
    eapply Forall_impl; [by apply pair_items_sendable|]. intros t. apply sendable_wired, xfer_delimiter.
  - rewrite !length_app. pose proof (text_size (items ≫= response_lines ($"%xfer"))) as Ht.
    assert (length items ≤ length (items ≫= response_lines ($"%xfer")))%nat; [apply responses_length|cbn [length]; lia].
Qed.

Definition demo_sent : list record_struct :=
  [Record_ demo_class demo_area 1 0 0 demo_pairs; Record_ demo_class demo_area 1 0 44 demo_pairs].
Definition demo_unclassed : list av_pair_struct := kept demo_pairs.
Definition demo_data_slave : auth_area_struct := with_area_files None None (Some $"data") None demo_slave.
Lemma demo_unclassed_ok : unclassed demo_class demo_unclassed.
Proof.
  split; [discriminate|]. split.
  - apply Forall_forall. intros av [_ Hin]%list_elem_of_filter. pose proof demo_plain as H. rewrite Forall_forall in H. by apply H.
  - split; apply (bool_decide_unpack _); vm_compute; exact I.
Qed.
Lemma records_replicated_witness :
  let stream := text demo_banner ++ print_messages false ((demo_sent ≫= record_lines None) ++ [print_ok]) in
  ∃ s txt, responses (S (length stream)) stream 0 ($"%xfer")
             (create_data_file_record (λ _ _, true) (λ _ _, true) (λ _, $"20260101") (λ n, n) demo_data_slave) false
             (DataOut None false [] None (λ _, None) []) = Ret (true, s) ∧
    closed s ($"data/host/20260101.XXXXXX.txt") = Some txt ∧
    reads (λ r _, (true, r)) demo_class demo_slave 1 txt 0 (classed demo_class (demo_attr 0 ($"Class-Name")) <$> [demo_unclassed; demo_unclassed]).
Proof.
  intros stream.
  destruct (records_replicated (λ _ _, true) (λ _ _, true) (λ _, $"20260101") (λ n, n) demo_data_slave demo_banner demo_class demo_sent
    demo_class demo_slave 1 (λ r _, (true, r)) (demo_attr 0 ($"Class-Name")) [demo_unclassed; demo_unclassed] (λ _, None) []
    ($"data/host") ($"data/host/20260101.XXXXXX.txt")) as (s & txt & E & _ & Ht & _ & R).
  - vm_compute. reflexivity.
  - discriminate.
  - repeat (constructor; [split; [reflexivity|split; [discriminate|apply (bool_decide_unpack _); vm_compute; exact I]]|]). constructor.
  - repeat (constructor; [reflexivity|]). constructor.
  - repeat (constructor; [apply demo_unclassed_ok|]). constructor.
  - reflexivity.
  - apply (bool_decide_unpack _). vm_compute. exact I.
  - apply (bool_decide_unpack _). vm_compute. exact I.
  - vm_compute. reflexivity.
  - reflexivity.
  - exists s, txt. split; [exact E|]. split; [exact Ht|exact R].
Defined.

(** ** A class whose file has another suffix *)

Lemma delete_all l : delete_file_list l l = [].
Proof.
  unfold delete_file_list. induction l as [|f l IH]; [done|]. cbn [foldl delete_file_no]. by rewrite Z.eqb_refl.
Qed.

Section Dropped.
Context (stamp mktemp : cstr → cstr) (aa : auth_area_struct).
Context (regexec : cstr → cstr → bool) (metaphone : cstr → cstr) (ni0 : netinfo) (fopen_ok : cstr → bool) (check_record : record_check)
        (run_sort : list cstr → option (list cstr)) (root_dir : option cstr) (file_path : buf) (lock_second : bool)
        (read_dir : cstr → option (list cstr)).

Lemma suffix_files_none fs path t base_dir suffix names :
  Forall (λ name, strncmp (reverse suffix) (reverse name) (length suffix) ≠ 0) names → suffix_files fs path t base_dir suffix names = Ret [].
Proof. induction 1 as [|name names Hn _ IH]; [done|]. cbn [suffix_files]. by rewrite bool_decide_false. Qed.

(** A class whose new data file has another suffix loses its data.  All
    classes are indexed by the suffix of the file that was written last, which
    mktemp made; a class in whose directory no name ends with it gets no new
    file, but its list of files is emptied and every file on it removed. *)
Theorem transfer_drops_class xs suffix dirs c cs made fs full names index :
  dir_ok c → get_file_list fs c [] = Ret (true, full) → Forall file_ok full →
  Forall (λ f, ∀ t, filename f ≠ db_dir c ++ SLASH :: master_name t) full →
  match xs with Some xs => class_in_xfer_arg c xs = true | None => True end → db_dir c ∈ dirs → db_dir c ≠ [] →
  suffix ≠ [] → Z.of_nat (length suffix) < MAX_FILE → read_dir (db_dir c) = Some names →
  Forall (λ name, strncmp (reverse suffix) (reverse name) (length suffix) ≠ 0) names →
  build_index_list mktemp c None [] = (true, index) →
  ∃ fs', index_classes mktemp aa regexec metaphone ni0 fopen_ok check_record run_sort root_dir file_path true lock_second true read_dir
           xs suffix dirs (c :: cs) made fs =
         index_classes mktemp aa regexec metaphone ni0 fopen_ok check_record run_sort root_dir file_path true lock_second true read_dir
           xs suffix dirs cs true fs' ∧
    get_file_list fs' c [] = Ret (true, []) ∧ Forall (λ f, fs' (filename f) = None) full.
Proof.
  intros Hd Hg Hok Hmaster Hxs Hin Hdir Hs Hsl Hr Hn Hix.
  assert (∀ fs, get_file_list fs c [] = Ret (true, full) → ∃ fs', modify_file_list root_dir file_path true fs c None None None None None = Ret (true, fs', []) ∧
            get_file_list fs' c [] = Ret (true, full)) as Hsame.
  { intros fs0 Hg0. destruct (modify_installs root_dir file_path fs0 c None None None None None full fs0 [] full full true) as (fs' & E & Hg' & _); eauto. }
  destruct (Hsame fs Hg) as (fs1 & E1 & Hg1).
  destruct (modify_installs root_dir file_path fs1 c None (Some full) None (Some []) None full fs1 [] full [] true) as (fs2 & E2 & Hg2 & _);
    [done|done|done|cbn [default]; by rewrite delete_all|constructor|].
  exists (unlink_file_list fs2 full). split; [|split].
  - cbn [index_classes].
    assert (match xs with Some xs => negb (class_in_xfer_arg c xs) | None => false end = false) as -> by (destruct xs; [by rewrite Hxs|done]).
    rewrite (bool_decide_true (db_dir c ∈ dirs)) by done. cbn [negb]. rewrite Hg. cbn [mbind outcome_bind]. unfold build_file_list_by_suffix.
    destruct (db_dir c) as [|x d] eqn:Ed; [done|]. destruct suffix as [|y sfx]; [done|]. rewrite decide_True by done. rewrite Hr.
    rewrite suffix_files_none by done. cbn [mbind outcome_bind negb]. rewrite Hix. cbn [negb]. unfold replace_class_files, index_files_run.
    rewrite bool_decide_true by done. cbn [orb]. rewrite E1. cbn [mbind outcome_bind negb]. rewrite E2. reflexivity.
  - etrans; [|exact Hg2]. apply get_file_list_ext; [done|]. intros t. rewrite unlinked. rewrite bool_decide_false; [done|].
    intros (f & E & Hf)%list_elem_of_fmap. rewrite Forall_forall in Hmaster. by apply (Hmaster f Hf t).
  - apply Forall_forall. intros f Hf. rewrite unlinked. rewrite bool_decide_true; [done|]. by apply list_elem_of_fmap_2.
Qed.
End Dropped.

Definition demo_before : filesystem := λ n,
  if bool_decide (n = $"db/local.db") then Some (list_text listed) else if bool_decide (n = $"db/d.txt") then Some ($"a:b") else None.
Lemma transfer_drops_class_witness :
  ∃ fs', index_classes (λ s, s) demo_area (λ _ _, true) (λ s, s) demo_ni (λ _, true) no_check Some None path_array true true true
           (λ _, Some [$"20250101.aaaaaa.txt"]) None ($"bbbbbb.txt") [$"db"] [demo_hosts] false demo_before = Ret (true, fs') ∧
    get_file_list fs' demo_hosts [] = Ret (true, []) ∧ Forall (λ f, fs' (filename f) = None) listed.
Proof.
  destruct (transfer_drops_class (λ s, s) demo_area (λ _ _, true) (λ s, s) demo_ni (λ _, true) no_check Some None path_array true
    (λ _, Some [$"20250101.aaaaaa.txt"]) None ($"bbbbbb.txt") [$"db"] demo_hosts [] false demo_before listed [$"20250101.aaaaaa.txt"] fresh_index)
    as (fs' & E & R).
  - vm_compute. discriminate.
  - vm_compute. reflexivity.
  - apply listed_ok.
  - repeat constructor; intros []; vm_compute; discriminate.
  - exact I.
  - by left.
  - discriminate.
  - discriminate.
  - reflexivity.
  - reflexivity.
  - apply (bool_decide_unpack _). vm_compute. exact I.
  - vm_compute. reflexivity.
  - exists fs'. split; [exact E|exact R].
Defined.
