(* ===== verification/SlaveAreas.v ===== *)
(** * The areas of a slave (server/sstate.c, sslave.c)

    The server forks a child for each secondary area that is to be copied, and
    waits for the children of one action before it reads the files that they
    made.  What is outside are arguments: the process ids that fork gives, what
    each pause ends with, a child that has exited or the alarm, the files when
    they are read, the dot locks and the time. *)

From S2P Require Import Prelude CLib CString IpNetwork Types Stdio FileInfo Attributes Schema AuthArea.
Local Open Scope Z_scope.

(** ** The states of the areas (sstate.c) *)

Inductive action_type := ACTION_NULL | ACTION_SOA | ACTION_SCHEMA | ACTION_XFER.
Inductive status_type := STATUS_NULL | STATUS_WAIT | STATUS_ERROR | STATUS_OK.
#[export] Instance action_type_eq : EqDecision action_type.
Proof. solve_decision. Defined.
#[export] Instance status_type_eq : EqDecision status_type.
Proof. solve_decision. Defined.
Record slave_state_struct := SlaveState { ss_name : cstr; ss_pid : Z; ss_action : action_type; ss_status : status_type }.

Definition with_status (status : status_type) (s : slave_state_struct) : slave_state_struct :=
  SlaveState (ss_name s) (ss_pid s) (ss_action s) status.
Fixpoint set_slave_state (name : cstr) (pid : Z) (action : action_type) (status : status_type) (l : list slave_state_struct) :
    bool * list slave_state_struct :=
  match l with
  | [] => (false, [])
  | s :: l =>
      if STR_EQ (ss_name s) name then (true, SlaveState (ss_name s) pid action status :: l)
      else let '(found, l) := set_slave_state name pid action status l in (found, s :: l)
  end.
Definition get_slave_state (name : cstr) (l : list slave_state_struct) : option slave_state_struct :=
  find_first (λ s, STR_EQ (ss_name s) name) l.
(** an empty list of areas leaves the states as they are *)
Definition init_slave_state_list (areas : list auth_area_struct) (l : list slave_state_struct) : list slave_state_struct :=
  match areas with [] => l | _ => (λ aa, SlaveState (aa_name aa) 0 ACTION_NULL STATUS_NULL) <$> areas end.

(** the static variables childpid and childstatus *)
Record child := Child { childpid : Z; childstatus : Z }.
(** what a pause ends with: the id and the status of a child, or the alarm *)
Definition sigchld_handler (exited : option (Z * Z)) (c : child) : child :=
  match exited with Some (pid, status) => Child pid status | None => c end.
(** the exit status, which takes the place of the status *)
Definition exit_status (status : Z) : Z := Z.land (Z.shiftr status 8) 255.
Definition record_exit (c : child) (s : slave_state_struct) : slave_state_struct :=
  if ss_pid s =? childpid c then with_status (if childstatus c =? 0 then STATUS_OK else STATUS_ERROR) s else s.
(** one pause: whatever ended it, the status of the last child counts *)
Definition wait_for_child (exited : option (Z * Z)) (x : child * list slave_state_struct) : child * list slave_state_struct :=
  let c := sigchld_handler exited x.1 in
  if 0 <? childpid c then
    let c := Child (childpid c) (exit_status (childstatus c)) in (c, record_exit c <$> x.2)
  else (c, x.2).
Definition time_out (action : action_type) (s : slave_state_struct) : slave_state_struct :=
  if decide (ss_action s = action ∧ ss_status s = STATUS_WAIT) then with_status STATUS_ERROR s else s.
(** [pauses]: what the pauses, one for each child, end with *)
Definition wait_for_child_processes (pauses : list (option (Z * Z))) (action : action_type) (x : child * list slave_state_struct) :
    child * list slave_state_struct :=
  let '(c, l) := foldl (λ x exited, wait_for_child exited x) x pauses in (c, time_out action <$> l).

(** ** The children (sslave.c) *)

(** [sl_pids]: what fork is going to give; [sl_started]: the children so far *)
Record slaves := Slaves {
  sl_cfg : config; sl_states : list slave_state_struct; sl_child : child; sl_pids : list Z; sl_started : list (cstr * action_type) }.
Definition with_cfg (cfg : config) (s : slaves) : slaves := Slaves cfg (sl_states s) (sl_child s) (sl_pids s) (sl_started s).
(** an area changes, also for the classes that refer to it *)
Definition replace_area (i : nat) (aa aa' : auth_area_struct) (s : slaves) : slaves :=
  let cfg := sl_cfg s in
  with_cfg (Config (Some (<[i := aa']> (area_list cfg))) (settle_area aa aa' <$> class_refs cfg) (stale cfg) (dangling_areas cfg)) s.
Definition waited (pauses : list (option (Z * Z))) (action : action_type) (s : slaves) : slaves :=
  let '(c, l) := wait_for_child_processes pauses action (sl_child s, sl_states s) in Slaves (sl_cfg s) l c (sl_pids s) (sl_started s).

(** [None]: fork has failed, and the server ends *)
Definition start_child (aa : auth_area_struct) (action : action_type) (s : slaves) : option slaves :=
  match sl_pids s with
  | [] => None
  | pid :: pids =>
      if pid <? 0 then None
      else Some (Slaves (sl_cfg s) (set_slave_state (aa_name aa) pid action STATUS_WAIT (sl_states s)).2 (sl_child s) pids
                   (sl_started s ++ [(aa_name aa, action)]))
  end.
(** the areas at the places [l], one after another; [step] may end the server
    ([None]) or the function ([false]) *)
Fixpoint each_area (step : nat → auth_area_struct → slaves → outcome (option (bool * slaves))) (l : list nat) (s : slaves) :
    outcome (option (bool * slaves)) :=
  match l with
  | [] => Ret (Some (true, s))
  | i :: l =>
      aa ← of_option (area_list (sl_cfg s) !! i);
      r ← step i aa s;
      match r with
      | Some (true, s) => each_area step l s
      | r => Ret r
      end
  end.
Definition and_then (r : outcome (option (bool * slaves))) (k : slaves → outcome (option (bool * slaves))) : outcome (option (bool * slaves)) :=
  x ← r; match x with Some (true, s) => k s | r => Ret r end.
Definition state_of (aa : auth_area_struct) (s : slaves) : outcome slave_state_struct := of_option (get_slave_state (aa_name aa) (sl_states s)).
Definition with_time (t : Z) (a : auth_area_struct) : auth_area_struct :=
  AuthArea (aa_name a) (aa_schema a) (aa_type a) (guardian_list a) (aa_soa a) (schema_file a) (soa_file a) (data_dir a)
    (xfer_arg a) t (aa_master a) (aa_slave a).

Section Slaves.
Context (regexec : cstr → cstr → bool) (directory_exists : cstr → bool).
(** the time, when it is asked for an area *)
Context (time_elapsed : nat → Z).

Definition start (action : action_type) (i : nat) (aa : auth_area_struct) (s : slaves) : outcome (option (bool * slaves)) :=
  Ret (pair true <$> start_child aa action s).
(** what is done for the areas whose child was well *)
Definition if_ok (step : nat → auth_area_struct → slaves → outcome (option (bool * slaves))) (i : nat) (aa : auth_area_struct) (s : slaves) :
    outcome (option (bool * slaves)) :=
  st ← state_of aa s;
  if decide (ss_status st = STATUS_OK) then step i aa s else Ret (Some (true, s)).
Definition read_soa (fs : filesystem) (i : nat) (aa : auth_area_struct) (s : slaves) : outcome (option (bool * slaves)) :=
  '(ok, aa') ← read_soa_file regexec fs aa; Ret (Some (ok, replace_area i aa aa' s)).
Definition read_new_schema (fs : filesystem) (i : nat) (aa : auth_area_struct) (s : slaves) : outcome (option (bool * slaves)) :=
  let cfg := sl_cfg s in
  let aa0 := with_schema (Some (Schema [] [])) aa in
  '(ok, st) ← read_schema fs directory_exists aa0 (stale cfg) (settle_area aa aa0 <$> class_refs cfg);
  st ← of_option st;
  let aa' := with_schema (Some (l_schema st)) aa0 in
  Ret (Some (ok, with_cfg (Config (Some (<[i := aa']> (area_list cfg))) (settle_area aa0 aa' <$> l_refs st) (stale cfg)
                             (dangling_areas cfg ++ if dangling st then [i] else [])) s)).
(** when the area is asked for next *)
Definition set_xfer_time (i : nat) (aa : auth_area_struct) (s : slaves) : outcome (option (bool * slaves)) :=
  st ← state_of aa s;
  let soa := aa_soa aa in
  let interval := if decide (ss_status st = STATUS_ERROR) then retry_interval soa else refresh_interval soa in
  Ret (Some (true, replace_area i aa (with_time (time_elapsed i + interval) aa) s)).

Definition slave_places (p : auth_area_struct → bool) (areas : list auth_area_struct) : list nat :=
  fst <$> filter (λ x, bool_decide (aa_type x.2 = AUTH_AREA_SECONDARY) && p x.2 = true) (imap pair areas).

(** one child for each area: the forks of a pass, and the pauses after it *)
Definition init_slave_auth_areas (pauses_soa pauses_schema : list (option (Z * Z))) (fs_soa fs_schema : filesystem) (s : slaves) :
    outcome (option (bool * slaves)) :=
  match area_list (sl_cfg s) with
  | [] => Ret (Some (false, s))
  | areas =>
      let l := slave_places (λ _, true) areas in
      match l with
      | [] => Ret (Some (true, s))
      | _ =>
          let s := Slaves (sl_cfg s) (init_slave_state_list (omap (λ i, areas !! i) l) (sl_states s)) (sl_child s) (sl_pids s) (sl_started s) in
          and_then (each_area (start ACTION_SOA) l s) (λ s,
          let s := waited (take (length l) pauses_soa) ACTION_SOA s in
          and_then (each_area (if_ok (read_soa fs_soa)) l s) (λ s,
          let before := length (sl_started s) in
          and_then (each_area (if_ok (start ACTION_SCHEMA)) l s) (λ s,
          let s := waited (take (length (sl_started s) - before) pauses_schema) ACTION_SCHEMA s in
          and_then (each_area (if_ok (read_new_schema fs_schema)) l s) (λ s,
          and_then (each_area (if_ok (start ACTION_XFER)) l s) (λ s,
          each_area set_xfer_time l s)))))
      end
  end.

(** a transfer that goes on is not disturbed; [locked]: the dot lock of a name *)
Definition unless_xfer (locked : cstr → bool) (step : nat → auth_area_struct → slaves → outcome (option (bool * slaves)))
    (i : nat) (aa : auth_area_struct) (s : slaves) : outcome (option (bool * slaves)) :=
  st ← state_of aa s;
  if bool_decide (ss_action st = ACTION_XFER) && locked (aa_name aa) then Ret (Some (true, s)) else step i aa s.
(** the zone, and the data if the serial number has grown *)
Definition read_and_xfer (fs : filesystem) (i : nat) (aa : auth_area_struct) (s : slaves) : outcome (option (bool * slaves)) :=
  let old := serial_no (aa_soa aa) in
  '(ok, aa') ← read_soa_file regexec fs aa;
  let s := replace_area i aa aa' s in
  if negb ok then Ret (Some (false, s))
  else if 0 <? strcmp (serial_no (aa_soa aa')) old then start ACTION_XFER i aa' s
  else Ret (Some (true, s)).
Definition update_slave_auth_areas (now : Z) (locked_before locked_after : cstr → bool) (pauses : list (option (Z * Z))) (fs : filesystem) (s : slaves) :
    outcome (option (bool * slaves)) :=
  match area_list (sl_cfg s) with
  | [] => Ret (Some (false, s))
  | areas =>
      let l := slave_places (λ aa, xfer_time aa <=? now) areas in
      let before := length (sl_started s) in
      and_then (each_area (unless_xfer locked_before (start ACTION_SOA)) l s) (λ s,
      let s := match l with [] => s | _ => waited (take (length (sl_started s) - before) pauses) ACTION_SOA s end in
      and_then (each_area (unless_xfer locked_after (if_ok (read_and_xfer fs))) l s) (λ s,
      each_area set_xfer_time l s))
  end.
End Slaves.

(** ** Waiting *)

Definition verdict (status : Z) : status_type := if exit_status status =? 0 then STATUS_OK else STATUS_ERROR.
Definition exited (kids : list (Z * Z)) (s : slave_state_struct) : slave_state_struct :=
  match find_first (λ k, k.1 =? ss_pid s) kids with Some k => with_status (verdict k.2) s | None => s end.

Lemma exited_snoc kids k (l : list slave_state_struct) : k.1 ∉ kids.*1 → record_exit (Child k.1 (exit_status k.2)) <$> (exited kids <$> l) = exited (kids ++ [k]) <$> l.
Proof.
  intros Hk. rewrite <-list_fmap_compose. apply list_fmap_ext. intros i s _. cbn [compose]. unfold exited, record_exit. cbn [childpid childstatus].
  rewrite find_first_app. destruct (find_first _ kids) as [k'|] eqn:E.
  - apply find_first_Some in E as [Hin E%Z.eqb_eq]. cbn [ss_pid with_status]. rewrite (proj2 (Z.eqb_neq (ss_pid s) k.1)); [done|].
    intros E'. apply Hk. rewrite <-E', <-E. by apply list_elem_of_fmap_2.
  - cbn [find_first]. rewrite Z.eqb_sym. by destruct (k.1 =? ss_pid s).
Qed.
Lemma wait_exits kids : ∀ c l, Forall (λ k, 0 < k.1) kids → NoDup kids.*1 →
  (foldl (λ x e, wait_for_child e x) (c, l) (Some <$> kids)).2 = exited kids <$> l.
Proof.
  induction kids as [|k kids IH] using rev_ind; intros c l Hp Hnd.
  { cbn [fmap list_fmap foldl snd]. clear. induction l as [|s l IH]; [done|]. rewrite fmap_cons, <-IH. done. }
  apply Forall_app in Hp as [Hp [Hk _]%Forall_cons]. rewrite fmap_app in Hnd. apply NoDup_app in Hnd as (Hnd & Hk' & _).
  rewrite fmap_app, foldl_app. cbn [fmap list_fmap foldl]. destruct (foldl _ _ _) as [c1 l1] eqn:E. specialize (IH c l Hp Hnd). rewrite E in IH.
  cbn [snd] in IH. subst l1. destruct k as [p w]. unfold wait_for_child. cbn [fst snd sigchld_handler childpid childstatus] in *.
  rewrite (proj2 (Z.ltb_lt 0 p)) by done. cbn [snd]. apply (exited_snoc kids (p, w)). intros Hin. apply (Hk' p Hin). by left.
Qed.
Lemma exited_perm kids kids' s : kids ≡ₚ kids' → NoDup kids.*1 → exited kids s = exited kids' s.
Proof.
  intros Hp Hnd. unfold exited.
  assert (NoDup kids'.*1) as Hnd' by (by rewrite <-Hp).
  assert (∀ l k, NoDup l.*1 → k ∈ l → k.1 = ss_pid s → find_first (λ k : Z * Z, k.1 =? ss_pid s) l = Some k) as Hfound.
  { intros l k Hl Hin E. induction Hin as [l|x y l Hin IH]; cbn [find_first]; [by rewrite (proj2 (Z.eqb_eq _ _))|].
    rewrite fmap_cons in Hl. apply NoDup_cons in Hl as [Hx Hl]. destruct (Z.eqb_spec y.1 (ss_pid s)) as [E'|]; [|by apply IH].
    destruct Hx. rewrite E', <-E. by apply list_elem_of_fmap_2. }
  destruct (find_first _ kids) as [k|] eqn:E.
  - apply find_first_Some in E as [Hin E%Z.eqb_eq]. rewrite Hp in Hin. by rewrite (Hfound kids' k).
  - destruct (find_first _ kids') as [k|] eqn:E'; [|done]. apply find_first_Some in E' as [Hin E'%Z.eqb_eq]. rewrite <-Hp in Hin.
    by rewrite (Hfound kids k) in E.
Qed.

(** C21: when the pauses end with the exits of the children, each of them once and
    in any order, the state of every area is what its child said, well if it
    exited with 0 and an error otherwise; an area whose child is not among them
    and is still waited for is an error. *)
Theorem children_waited kids pauses action c l :
  Forall (λ k, 0 < k.1) kids → NoDup kids.*1 → pauses ≡ₚ Some <$> kids →
  (wait_for_child_processes pauses action (c, l)).2 = (λ s, time_out action (exited kids s)) <$> l.
Proof.
  intros Hpos Hnd (kids' & -> & Hp)%Permutation_map_inv. unfold wait_for_child_processes.
  destruct (foldl _ _ _) as [c1 l1] eqn:E. cbn [snd].
  assert (l1 = exited kids' <$> l) as ->.
  { pose proof (wait_exits kids' c l) as H. change (map Some kids') with (Some <$> kids') in E. rewrite E in H. apply H; by rewrite <-Hp. }
  rewrite <-list_fmap_compose. apply list_fmap_ext. intros i s _. cbn [compose]. by rewrite (exited_perm kids kids').
Qed.
Definition demo_states : list slave_state_struct :=
  [SlaveState ($"a.com") 101 ACTION_SOA STATUS_WAIT; SlaveState ($"b.com") 102 ACTION_SOA STATUS_WAIT].
Lemma children_waited_witness :
  (wait_for_child_processes [Some (102, 256); Some (101, 0)] ACTION_SOA (Child 0 0, demo_states)).2 =
    [SlaveState ($"a.com") 101 ACTION_SOA STATUS_OK; SlaveState ($"b.com") 102 ACTION_SOA STATUS_ERROR].
Proof.
  etrans; [apply (children_waited [(101, 0); (102, 256)])|].
  - repeat constructor.
  - apply (bool_decide_unpack _). vm_compute. exact I.
  - apply perm_swap.
  - reflexivity.
Defined.

(** An alarm behind the exit of a child that failed takes the failure back:
    the handler was not called, so the exit status, which has taken the place
    of the status, is taken for the status of that child again, and that is 0. *)
Theorem alarm_forgets_failure pauses p w action c l s :
  0 < p → s ∈ (wait_for_child_processes (pauses ++ [Some (p, w); None]) action (c, l)).2 → ss_pid s = p → ss_status s = STATUS_OK.
Proof.
  intros Hp. unfold wait_for_child_processes. rewrite foldl_app. cbn [foldl]. set (x := foldl _ (c, l) pauses).
  assert (exit_status (exit_status w) = 0) as Hz.
  { unfold exit_status. apply Z.bits_inj'. intros n Hn. rewrite Z.land_spec, Z.shiftr_spec, Z.bits_0 by done. rewrite Z.land_spec.
    change 255 with (Z.ones 8). rewrite (Z.ones_spec_high 8 (n + 8)) by lia. by rewrite andb_false_r. }
  unfold wait_for_child at 1 2. cbn [sigchld_handler fst snd childpid childstatus]. rewrite (proj2 (Z.ltb_lt 0 p)) by done.
  cbn [fst snd childpid childstatus]. rewrite (proj2 (Z.ltb_lt 0 p)) by done. rewrite Hz. cbn [snd].
  intros (s1 & -> & (s2 & -> & _)%list_elem_of_fmap)%list_elem_of_fmap. unfold record_exit. cbn [childpid childstatus]. change (0 =? 0) with true.
  destruct (Z.eqb_spec (ss_pid s2) p) as [E|E].
  - unfold time_out. rewrite decide_False; [done|]. by intros [_ ?].
  - unfold time_out. case_decide; cbn [ss_pid with_status]; done.
Qed.
Lemma alarm_forgets_failure_witness :
  ∃ s, s ∈ (wait_for_child_processes [Some (101, 256); None] ACTION_SOA (Child 0 0, demo_states)).2 ∧ ss_pid s = 101 ∧ ss_status s = STATUS_OK.
Proof.
  exists (SlaveState ($"a.com") 101 ACTION_SOA STATUS_OK).
  assert (SlaveState ($"a.com") 101 ACTION_SOA STATUS_OK ∈ (wait_for_child_processes [Some (101, 256); None] ACTION_SOA (Child 0 0, demo_states)).2) as E.
  { apply (list_elem_of_lookup_2 _ 0). vm_compute. reflexivity. }
  split; [exact E|]. split; [reflexivity|].
  apply (alarm_forgets_failure [] 101 256 ACTION_SOA (Child 0 0) demo_states); [reflexivity|exact E|reflexivity].
Defined.

(** ** Transfers *)

Definition transfers (s : slaves) : list (cstr * action_type) := filter (λ x, x.2 = ACTION_XFER) (sl_started s).

(** what holds at the beginning and is kept by every step holds in the end *)
Lemma each_area_inv (P : list nat → slaves → Prop) step l : ∀ s r,
  (∀ i l s aa b s', P (i :: l) s → area_list (sl_cfg s) !! i = Some aa → step i aa s = Ret (Some (b, s')) → P l s') →
  P l s → each_area step l s = Ret (Some r) → ∃ l', P l' r.2.
Proof.
  induction l as [|i l IH]; intros s r Hstep Hs H; cbn [each_area] in H; [injection H as <-; by exists []|].
  apply bind_inv_Ret in H as (aa & Ha & H). assert (area_list (sl_cfg s) !! i = Some aa) as Ha'.
  { destruct (area_list (sl_cfg s) !! i) as [a|]; [|done]. cbn in Ha. congruence. }
  apply bind_inv_Ret in H as ([[b s1]|] & H1 & H); [|done]. pose proof (Hstep i l s aa b s1 Hs Ha' H1) as Hs1.
  destruct b; [by apply (IH s1)|]. injection H as <-. by exists l.
Qed.

Lemma places_nodup p areas : NoDup (slave_places p areas).
Proof.
  unfold slave_places. assert (∀ k, fst <$> imap (λ i (a : auth_area_struct), (k + i, a)%nat) areas = seq k (length areas)) as E.
  { induction areas as [|a l IH]; intros k; [done|]. cbn [imap length seq fmap list_fmap fst]. rewrite Nat.add_0_r. f_equal.
    rewrite <-(IH (S k)). f_equal. apply imap_ext. intros i x _. cbn. f_equal. lia. }
  eapply sublist_NoDup; [|apply fmap_sublist, sublist_filter]. pose proof (NoDup_seq 0 (length areas)) as Hn.
  rewrite <-(E 0%nat) in Hn. exact Hn.
Qed.

Section Transfers.
Context (regexec : cstr → cstr → bool) (time_elapsed : nat → Z) (fs : filesystem) (areas0 : list auth_area_struct).

(** the areas whose turn is still to come are as they were *)
Definition untouched (xs : list (cstr * action_type)) (l : list nat) (s : slaves) : Prop :=
  NoDup l ∧ transfers s = xs ∧ ∀ i, i ∈ l → area_list (sl_cfg s) !! i = areas0 !! i.
Lemma untouched_tail xs i l s : untouched xs (i :: l) s → untouched xs l s.
Proof. intros (Hnd & Ht & Ha). apply NoDup_cons in Hnd as [_ Hnd]. split_and!; [done..|]. intros j Hj. apply Ha. by right. Qed.
Lemma untouched_replace xs i l s aa aa' : untouched xs (i :: l) s → untouched xs l (replace_area i aa aa' s).
Proof.
  intros (Hnd & Ht & Ha). apply NoDup_cons in Hnd as [Hi Hnd]. split_and!; [done..|]. intros j Hj. cbn.
  rewrite list_lookup_insert_ne by (intros ->; done). apply Ha. by right.
Qed.

Lemma soa_child_started before i aa s b s' : unless_xfer before (start ACTION_SOA) i aa s = Ret (Some (b, s')) →
  sl_cfg s' = sl_cfg s ∧ transfers s' = transfers s.
Proof.
  unfold unless_xfer. intros H. apply bind_inv_Ret in H as (st & _ & H). destruct (_ && _); [by injection H as _ <-|].
  unfold start, start_child in H. destruct (sl_pids s) as [|pid pids]; [done|]. destruct (pid <? 0); [done|]. injection H as _ <-.
  split; [done|]. unfold transfers. cbn [sl_started]. rewrite filter_app, filter_cons_False by done. by rewrite app_nil_r.
Qed.
Definition not_grown : Prop := ∀ i aa ok aa', areas0 !! i = Some aa → read_soa_file regexec fs aa = Ret (ok, aa') →
  strcmp (serial_no (aa_soa aa')) (serial_no (aa_soa aa)) ≤ 0.
Lemma no_growth_step after xs i l s aa b s' : not_grown → untouched xs (i :: l) s → area_list (sl_cfg s) !! i = Some aa →
  unless_xfer after (if_ok (read_and_xfer regexec fs)) i aa s = Ret (Some (b, s')) → untouched xs l s'.
Proof.
  intros Hs Hu Haa H. unfold unless_xfer in H. apply bind_inv_Ret in H as (st & _ & H).
  destruct (_ && _); [injection H as _ <-; by apply untouched_tail in Hu|]. unfold if_ok in H. apply bind_inv_Ret in H as (st' & _ & H).
  case_decide; [|injection H as _ <-; by apply untouched_tail in Hu]. unfold read_and_xfer in H. apply bind_inv_Ret in H as ([ok aa'] & Hr & H).
  assert (areas0 !! i = Some aa) as Ha0 by (destruct Hu as (_ & _ & Hu); rewrite <-Hu by left; done).
  pose proof (Hs i aa ok aa' Ha0 Hr) as Hle. apply (untouched_replace _ _ _ _ aa aa') in Hu.
  destruct ok; cbn [negb] in H; [|by injection H as _ <-]. rewrite (proj2 (Z.ltb_ge _ _)) in H by done. by injection H as _ <-.
Qed.

(** C22: a transfer is started only for a serial number that has grown: when the
    zone files give no secondary area a serial number behind the one it has, a
    poll starts no transfer, whatever has become of the transfers before. *)
Theorem no_growth_no_transfer now before after pauses s r :
  area_list (sl_cfg s) = areas0 →
  not_grown →
  update_slave_auth_areas regexec time_elapsed now before after pauses fs s = Ret (Some r) → transfers r.2 = transfers s.
Proof.
  intros Ha Hs H. unfold update_slave_auth_areas in H. rewrite Ha in H. destruct areas0 as [|a0 as0] eqn:E0; [by injection H as <-|].
  rewrite <-E0 in *. clear a0 as0 E0. set (l := slave_places _ areas0) in H.
  apply bind_inv_Ret in H as (r1 & H1 & H). destruct r1 as [[b1 s1]|]; [|done].
  destruct (each_area_inv (λ _ s', area_list (sl_cfg s') = areas0 ∧ transfers s' = transfers s) (unless_xfer before (start ACTION_SOA)) l s (b1, s1)) with (3 := H1) as (_ & Ha1 & Ht1).
  { intros i l' s0 aa b s' [Hc0 Ht0] _ Hstep. apply soa_child_started in Hstep as [Hc Ht]. rewrite Hc, Ht. done. }
  { done. }
  cbn [snd] in *. destruct b1; [|injection H as <-; done].
  apply bind_inv_Ret in H as (r2 & H2 & H). destruct r2 as [[b2 s2]|]; [|done].
  set (s1' := match l with [] => s1 | _ => _ end) in H2.
  assert (area_list (sl_cfg s1') = areas0 ∧ transfers s1' = transfers s) as [Ha1' Ht1'].
  { unfold s1', waited. destruct l; [done|]. by destruct (wait_for_child_processes _ _ _). }
  destruct (each_area_inv (untouched (transfers s)) (unless_xfer after (if_ok (read_and_xfer regexec fs))) l s1' (b2, s2)) with (3 := H2) as (_ & _ & Ht2 & _).
  { intros i l' s0 aa b s' Hu Haa Hstep. eapply no_growth_step; [exact Hs|exact Hu|exact Haa|exact Hstep]. }
  { split; [apply places_nodup|]. split; [done|]. intros i _. by rewrite Ha1'. }
  cbn [snd] in *. destruct b2; [|injection H as <-; done].
  destruct (each_area_inv (λ _ s', transfers s' = transfers s) (set_xfer_time time_elapsed) l s2 r) with (3 := H) as (_ & Ht3); [|done|exact Ht3].
  intros i l' s0 aa b s' Ht0 _ Hstep. unfold set_xfer_time in Hstep. apply bind_inv_Ret in Hstep as (st & _ & Hstep).
  injection Hstep as _ <-. exact Ht0.
Qed.
End Transfers.

Definition demo_polled : auth_area_struct := with_type AUTH_AREA_SECONDARY demo_zone_area.
Definition demo_zone_files : filesystem := λ _, Some (text (soa_lines demo_soa)).
Definition demo_slaves : slaves :=
  Slaves (Config (Some [demo_polled]) [] [] []) [SlaveState (aa_name demo_polled) 7 ACTION_XFER STATUS_WAIT] (Child 0 0) [8] [].
Lemma no_growth_no_transfer_witness :
  ∃ r, update_slave_auth_areas (λ _ _, true) (λ _, 7200) 3600 (λ _, false) (λ _, false) [Some (8, 0)] demo_zone_files demo_slaves = Ret (Some r) ∧
    transfers r.2 = [] ∧ sl_started r.2 = [(aa_name demo_polled, ACTION_SOA)].
Proof.
  eexists. split; [vm_compute; reflexivity|]. split; [|reflexivity].
  apply (no_growth_no_transfer (λ _ _, true) (λ _, 7200) demo_zone_files [demo_polled] 3600 (λ _, false) (λ _, false) [Some (8, 0)] demo_slaves).
  - reflexivity.
  - intros [|i] aa ok aa' Ha Hr; [|done]. injection Ha as <-. vm_compute in Hr. injection Hr as _ <-. vm_compute. discriminate.
  - vm_compute. reflexivity.
Defined.
