(* ===== verification/Tools.v ===== *)
(** * The command line tools (tools/)

    rwhois_indexer indexes data files of the classes, by their names or by a
    suffix; rwhois_deleter deletes the records that a query finds;
    rwhois_repack puts the index files of a class together.  What getopt finds
    is in the arguments. *)

From S2P Require Import Prelude CLib CString Misc DlList IpNetwork Types Stdio ValidateRec FilePath IndexLine Records Index FileInfo IndexSort.
From S2P Require Import Attributes IndexFiles Delete Search Query QueryText Slave.
Local Open Scope Z_scope.

Section Tools.
(** the configuration, the system and the arrays that are not initialised *)
Context (regexec : cstr → cstr → bool) (metaphone : cstr → cstr) (ni0 : netinfo) (fopen_ok : cstr → bool) (check_record : record_check)
        (run_sort : list cstr → option (list cstr)) (root_dir : option cstr) (file_path buf0 : buf) (lock_first lock_second : bool)
        (mktemp : cstr → cstr) (read_dir : cstr → option (list cstr)).
Context (areas : list auth_area_struct) (class_refs : list class_ref_struct).

(** ** rwhois_indexer *)

Definition delete_index_files (fs : filesystem) (c : class_struct) : outcome (bool * filesystem) :=
  '(ok, master) ← get_file_list fs c [];
  if negb ok then Ret (false, fs)
  else
    match filter_file_list MKDB_ALL_INDEX_FILES master with
    | [] => Ret (true, fs)
    | index => '(_, fs) ← unlink_master_file_list (unlink_file_list fs index) c; Ret (true, fs)
    end.
Definition run_file_index (fs : filesystem) (class auth_area : option cstr) (validate_flag : Z) (init_flag : bool) (base_dir : option cstr)
    (argv : list (option cstr)) : outcome (bool * filesystem) :=
  match argv, find_auth_area_by_name areas auth_area, class with
  | [], _, _ | _, None, _ => Ret (false, fs)
  | _, Some aa, class =>
      match aa_schema aa, class ≫= find_class_by_name (aa_schema aa) with
      | None, _ | _, None => Ret (false, fs)
      | Some _, Some c =>
          '(ok, fs) ← (if init_flag then delete_index_files fs c else Ret (true, fs));
          if negb ok then Ret (false, fs)
          else index_files_by_name regexec metaphone ni0 fopen_ok check_record run_sort root_dir file_path lock_first lock_second
                 mktemp areas fs (Some (class_name c)) (Some (aa_name aa)) base_dir argv validate_flag
      end
  end.

(** a class that is not there is a null pointer *)
Definition run_suffix_index_class (fs : filesystem) (c : option class_struct) (aa : auth_area_struct) (validate_flag : Z) (init_flag : bool)
    (suffix : cstr) : outcome (bool * filesystem) :=
  match c with
  | None => if init_flag then Ret (false, fs) else Fault
  | Some c =>
      '(ok, fs) ← (if init_flag then delete_index_files fs c else Ret (true, fs));
      if negb ok then Ret (false, fs)
      else index_files_by_suffix regexec metaphone ni0 fopen_ok check_record run_sort root_dir file_path lock_first lock_second
             mktemp areas fs read_dir (class_name c) (Some (aa_name aa)) suffix validate_flag
  end.
(** one after another until one fails *)
Fixpoint run_each {A} (run : filesystem → A → outcome (bool * filesystem)) (fs : filesystem) (l : list A) : outcome (bool * filesystem) :=
  match l with
  | [] => Ret (true, fs)
  | x :: l => '(ok, fs) ← run fs x; if ok : bool then run_each run fs l else Ret (false, fs)
  end.
Definition run_suffix_index_auth_area (fs : filesystem) (aa : auth_area_struct) (class : option cstr) (validate_flag : Z) (init_flag : bool)
    (suffix : cstr) : outcome (bool * filesystem) :=
  match aa_schema aa, class with
  | None, _ => Ret (false, fs)
  | Some s, Some ((_ :: _) as name) => run_suffix_index_class fs (find_class_by_name (Some s) name) aa validate_flag init_flag suffix
  | Some s, _ => run_each (λ fs c, run_suffix_index_class fs (Some c) aa validate_flag init_flag suffix) fs (class_list s)
  end.
(** the areas that are meant: one, those of a class, or all *)
Definition chosen_areas (class auth_area : option cstr) : option (list auth_area_struct) :=
  match auth_area, class with
  | Some (_ :: _), _ => (λ aa, [aa]) <$> find_auth_area_by_name areas auth_area
  | _, Some ((_ :: _) as name) => cr_auth_area_list <$> find_global_class_by_name class_refs name
  | _, _ => Some areas
  end.
Definition run_suffix_index (fs : filesystem) (class auth_area : option cstr) (validate_flag : Z) (init_flag : bool) (suffix : cstr) :
    outcome (bool * filesystem) :=
  match chosen_areas class auth_area with
  | None => Ret (false, fs)
  | Some l => run_each (λ fs aa, run_suffix_index_auth_area fs aa class validate_flag init_flag suffix) fs l
  end.

(** ** rwhois_deleter *)

(** [buf], of MAX_LINE bytes, and its length *)
Definition add_word (s : cstr * nat) (p : option cstr) : outcome (cstr * nat) :=
  match p with
  | Some ((_ :: _) as p) =>
      if decide (s.2 + length p + 1 < MAX_LINE)%nat then
        let buf := s.1 ++ p ++ [SP] in
        if decide (length buf < MAX_LINE)%nat then Ret (buf, (s.2 + (length p + 1))%nat) else Fault
      else Ret s
  | _ => Ret s
  end.
Fixpoint add_words (s : cstr * nat) (argv : list (option cstr)) : outcome (cstr * nat) :=
  match argv with [] => Ret s | p :: argv => s ← add_word s p; add_words s argv end.
Definition assemble_query_string (argv : list (option cstr)) : outcome (option cstr) :=
  s ← add_words ([], 0%nat) argv; Ret match s.1 with [] => None | buf => Some (trim_s buf) end.

(** the records and their number; the lexer knows the names of classes and
    attributes *)
Context (is_class is_attr : cstr → bool).
Definition query_for_records (fs : filesystem) (query_string : cstr) (limit : Z) : outcome (option (list record_struct) * Z) :=
  query ← parse_line_query is_class is_attr query_string;
  match query with
  | None => Ret (None, 0)
  | Some q =>
      '(num_recs, _, l) ← search fs check_record regexec metaphone ni0 buf0 (Some areas) class_refs (Some q) (Some []) limit;
      Ret (if num_recs =? 0 then (None, 0) else (l, num_recs))
  end.
(** records without an ID leave the list; [total]: main does not pass it *)
Definition show_result_list (record_list : option (list record_struct)) (total : Z) : outcome (option (list record_struct)) :=
  match record_list with
  | None => Ret None
  | Some l =>
      if total =? 0 then Ret (Some l)
      else Ret (Some (List.filter (λ rec, bool_decide (is_Some (find_first (λ av, STR_EQ (attr_name (av_attr av)) ($"ID")) (av_pair_list rec)))) l))
  end.
(** What main does with its words.  [answer]: the character that is read behind
    the question; the status and the files. *)
Definition delete_found (fs : filesystem) (query : cstr) (limit junk : Z) (quiet fake : bool) (answer : option ascii) :
    outcome (bool * filesystem) :=
  '(l, total) ← query_for_records fs query limit;
  l ← (if negb quiet || fake then show_result_list l junk else Ret l);
  let fake := if negb fake && negb quiet && (0 <? total)
              then match answer with Some c => negb ((c =c chr 121) || (c =c chr 89)) | None => true end else fake in
  if negb fake && (0 <? total) then l ← of_option l; mkdb_delete_record_list root_dir file_path lock_first fs l
  else Ret (true, fs).

(** ** rwhois_repack *)

Record repack_options_struct := RepackOptions {
  size_threshold : Z; dry_run_flag : bool; delete_flag : bool; opt_aa_name : option cstr; opt_class_name : option cstr; substring : option cstr }.
(** cat source >> destination: the result and the files *)
Context (cat : filesystem → cstr → cstr → bool * filesystem).

(** a result that is not 0 is only printed *)
Definition append_files (fs : filesystem) (file_list : list file_struct) (dest : cstr) (options : repack_options_struct) : filesystem :=
  match dest with
  | [] => fs
  | _ => foldl (λ fs f, if file_exists fs (filename f) && negb (dry_run_flag options) then (cat fs (filename f) dest).2 else fs) fs file_list
  end.
Definition delete_files_in_list (fs : filesystem) (file_list : list file_struct) (options : repack_options_struct) : filesystem :=
  if dry_run_flag options then fs else unlink_file_list fs file_list.

(** the loop that takes files off a list: after a deletion the file at the
    cursor is looked at, again if it was the last one *)
Fixpoint filter_loop (fuel : nat) (keep : file_struct → bool) (z : DL.cursor file_struct) : outcome (DL.cursor file_struct) :=
  match fuel with
  | O => NoFuel
  | S fuel =>
      match z with
      | None => Ret None
      | Some (_, f, r) =>
          if negb (keep f) then filter_loop fuel keep (DL.z_delete z)
          else match r with [] => Ret z | _ => filter_loop fuel keep (DL.z_next z) end
      end
  end.
Definition filter_files (keep : file_struct → bool) (l : list file_struct) : outcome (list file_struct) :=
  z ← filter_loop (S (2 * length l)) keep (cursor_of l); Ret (DL.elems z).
Definition filter_file_list_by_size (l : list file_struct) (max_size : Z) : outcome (list file_struct) :=
  if max_size <=? 0 then Ret l else filter_files (λ f, Types.num_recs f <=? max_size) l.
Definition filter_file_list_by_substring (l : list file_struct) (substring : cstr) : outcome (list file_struct) :=
  filter_files (λ f, strstr (filename f) substring) l.

(** for each type of which there are two files they are put together; the new
    files, with the sums of the numbers of their records *)
Fixpoint repack_types (ts : list mkdb_file_type) (fs : filesystem) (base : list index_fp_struct) (index_file_list : list file_struct)
    (options : repack_options_struct) (new : list (index_fp_struct * Z)) : outcome (filesystem * list (index_fp_struct * Z)) :=
  match ts with
  | [] => Ret (fs, new)
  | t :: ts =>
      let sub := filter_file_list t index_file_list in
      if (length sub <? 2)%nat then repack_types ts fs base index_file_list options new
      else
        fp ← find_index_file_by_type base t;
        match fp with
        | None => repack_types ts fs base index_file_list options new
        | Some fp =>
            repack_types ts (append_files fs sub (tmp_filename fp) options) base index_file_list options
              (new ++ [(fp, foldr Z.add 0 (Types.num_recs <$> sub))])
        end
  end.
(** dl_list_destroy of two lists: what is in both is freed twice *)
Definition destroy_both {A} (base new : list index_fp_struct) (r : A) : outcome A :=
  if existsb (λ f, bool_decide (f ∈ base)) new then Fault else Ret r.
Definition add_repacked (fs : filesystem) (c : class_struct) (new : list (index_fp_struct * Z)) : outcome (list new_file) :=
  foldr (λ f l, l ← l; nf ← of_option (build_tmp_base_file_struct fs (real_filename f.1) None (ifp_type f.1) f.2);
                Ret (NewFile (nf_file nf) (nf_tmp nf) (generate_index_file_basename (ifp_type f.1) (db_dir c) (Some (ifp_prefix f.1))) :: l))
    (Ret []) new.
(** the files that are unlocked are those that are added, with the numbers that
    they get *)
Definition repack_index_files (fs : filesystem) (c : class_struct) (index_file_list : list file_struct) (options : repack_options_struct) :
    outcome (bool * filesystem) :=
  match index_file_list with
  | [] => Ret (true, fs)
  | _ =>
      let '(ok, base) := build_index_list mktemp c (Some $"addind") [] in
      if negb ok then Ret (false, fs)
      else
        '(fs, new) ← repack_types [MKDB_EXACT_INDEX_FILE; MKDB_SOUNDEX_INDEX_FILE; MKDB_CIDR_INDEX_FILE] fs base index_file_list options [];
        match new with
        | [] => Ret (true, fs)
        | _ =>
            if dry_run_flag options then destroy_both base new.*1 (true, delete_files_in_list fs index_file_list options)
            else
              '(ok, fs, fps) ← sort_index_files run_sort fs new.*1;
              if negb ok then destroy_both base new.*1 (false, unlink_index_tmp_files fs fps)
              else
                added ← add_repacked fs c new;
                let modify unlock := modify_file_list root_dir file_path lock_first fs c (Some added) (Some index_file_list) None (Some unlock) None in
                '(_, _, numbered) ← modify (nf_file <$> added);
                '(_, fs, _) ← modify numbered;
                destroy_both base new.*1 (true, if delete_flag options then delete_files_in_list fs index_file_list options else fs)
        end
  end.

(** the name of a class that is not there is read before the test *)
Definition run_repack_class_aa (fs : filesystem) (c : option class_struct) (aa : auth_area_struct) (options : repack_options_struct) :
    outcome (bool * filesystem) :=
  c ← of_option c;
  match aa_schema aa with
  | None => Ret (false, fs)
  | Some _ =>
      '(ok, all) ← get_file_list fs c [];
      if negb ok then Ret (false, fs)
      else
        let index := filter_file_list MKDB_ALL_INDEX_FILES all in
        index ← match substring options with Some ((_ :: _) as s) => filter_file_list_by_substring index s | _ => Ret index end;
        index ← filter_file_list_by_size index (size_threshold options);
        repack_index_files fs c index options
  end.
Definition run_repack_auth_area (fs : filesystem) (aa : auth_area_struct) (options : repack_options_struct) : outcome (bool * filesystem) :=
  match aa_schema aa, opt_class_name options with
  | None, _ => Ret (false, fs)
  | Some s, Some ((_ :: _) as name) => run_repack_class_aa fs (find_class_by_name (Some s) name) aa options
  | Some s, _ => run_each (λ fs c, run_repack_class_aa fs (Some c) aa options) fs (class_list s)
  end.
Definition run_repack (fs : filesystem) (options : repack_options_struct) : outcome (bool * filesystem) :=
  match chosen_areas (opt_class_name options) (opt_aa_name options) with
  | None => Ret (false, fs)
  | Some l => run_each (λ fs aa, run_repack_auth_area fs aa options) fs l
  end.
End Tools.

(** ** Taking files off a list *)

Lemma filter_loop_kept keep l e r : ∀ fuel, Forall (λ f, keep f = true) l → (length l + 2 * length (e :: r) ≤ fuel)%nat →
  ∃ z, filter_loop fuel keep (Some (l, e, r)) = Ret z ∧ DL.elems z = l ++ List.filter keep (e :: r).
Proof.
  revert l e. induction r as [|x r IH]; intros l e fuel Hl Hf; (destruct fuel as [|fuel]; [cbn in Hf; lia|]); cbn [filter_loop List.filter].
  - destruct (keep e) eqn:Ek; cbn [negb]; [eexists; by split|]. cbn [DL.z_delete].
    destruct (reverse l) as [|y l'] eqn:El.
    + destruct fuel; [cbn in Hf; lia|]. exists None. split; [done|]. apply (f_equal reverse) in El. rewrite reverse_involutive in El. by rewrite El.
    + apply (f_equal reverse) in El. rewrite reverse_involutive, reverse_cons in El. subst l. rewrite app_nil_r.
      apply Forall_app in Hl as [_ [Hy _]%Forall_cons]. destruct fuel; [rewrite length_app in Hf; cbn in Hf; lia|]. cbn [filter_loop]. rewrite Hy.
      eexists. split; [done|]. done.
  - destruct (keep e) eqn:Ek; cbn [negb]; cbn [DL.z_next DL.z_delete].
    + destruct (IH (l ++ [e]) x fuel) as (z & E & Hz); [apply Forall_app; by repeat constructor|rewrite length_app; cbn in *; lia|].
      exists z. split; [done|]. rewrite Hz, <-app_assoc. done.
    + destruct (IH l x fuel) as (z & E & Hz); [done|cbn in *; lia|]. exists z. split; [done|]. by rewrite Hz.
Qed.
(** the loop keeps exactly the files that are to be kept, in their order *)
Lemma filter_files_correct keep l : filter_files keep l = Ret (List.filter keep l).
Proof.
  unfold filter_files. destruct l as [|e r]; [done|]. cbn [cursor_of].
  destruct (filter_loop_kept keep [] e r (S (2 * length (e :: r)))) as (z & -> & Hz); [constructor|cbn; lia|]. cbn [mbind outcome_bind]. by rewrite Hz.
Qed.

(** ** Putting index files together *)

Section Repack.
Context (cat : filesystem → cstr → cstr → bool * filesystem) (base : list index_fp_struct) (files : list file_struct) (options : repack_options_struct).
Context (base_some : base ≠ []).

(** there are two files of the type, which the class has an index of *)
Definition merged (t : mkdb_file_type) : bool :=
  negb (length (filter_file_list t files) <? 2)%nat && existsb (λ f, bool_decide (ifp_type f = t)) base.
Lemma repack_types_merged ts : ∀ fs new, ∃ fs' extra, repack_types cat ts fs base files options new = Ret (fs', new ++ extra) ∧
  Forall (λ f, f.1 ∈ base) extra ∧ (if existsb merged ts then extra ≠ [] else extra = [] ∧ fs' = fs).
Proof.
  induction ts as [|t ts IH]; intros fs new; [exists fs, []; by rewrite app_nil_r|]. cbn [repack_types existsb]. unfold merged at 1.
  destruct (length (filter_file_list t files) <? 2)%nat; cbn [negb andb orb]; [apply IH|].
  assert (find_index_file_by_type base t = Ret (find_first (λ f, bool_decide (ifp_type f = t)) base)) as -> by (by destruct base).
  cbn [mbind outcome_bind]. destruct (find_first _ base) as [fp|] eqn:Ef.
  - apply find_first_Some in Ef as [Hin Ht]. destruct (IH (append_files cat fs (filter_file_list t files) (tmp_filename fp) options)
      (new ++ [(fp, foldr Z.add 0 (Types.num_recs <$> filter_file_list t files))])) as (fs' & extra & E & Hb & _).
    eexists fs', (_ :: extra). rewrite E, <-app_assoc. split; [done|]. split; [by constructor|].
    assert (existsb (λ f, bool_decide (ifp_type f = t)) base = true) as -> by (apply existsb_elem; by exists fp). done.
  - rewrite find_first_None in Ef. assert (existsb (λ f, bool_decide (ifp_type f = t)) base = false) as ->; [|apply IH].
    apply not_true_iff_false. intros (f & Hin & Hf)%existsb_elem. by rewrite Ef in Hf.
Qed.
Lemma destroy_both_faults {A} new (r : A) : new ≠ [] → Forall (λ f : index_fp_struct * Z, f.1 ∈ base) new → destroy_both base new.*1 r = Fault.
Proof.
  intros Hne H. destruct H as [|f new Hf _]; [done|]. unfold destroy_both. rewrite fmap_cons. cbn [existsb]. by rewrite bool_decide_true.
Qed.
End Repack.

(** rwhois_repack never puts files together: where a type has two index files it
    runs into undefined behaviour, as the new index file has no stream to close
    or, at the latest, as its lists have files in common when they are
    destroyed; where no type has it changes nothing. *)
Theorem repack_index_files_outcome run_sort root_dir file_path lock mktemp cat fs c files options base :
  build_index_list mktemp c (Some $"addind") [] = (true, base) →
  let repack := repack_index_files run_sort root_dir file_path lock mktemp cat fs c files options in
  if existsb (merged base files) [MKDB_EXACT_INDEX_FILE; MKDB_SOUNDEX_INDEX_FILE; MKDB_CIDR_INDEX_FILE]
  then ∀ r, repack ≠ Ret r else repack = Ret (true, fs).
Proof.
  intros Hb repack. assert (base ≠ []) as Hne by (unfold build_index_list in Hb; injection Hb as Hn Hl; intros ->; by rewrite Hl in Hn).
  unfold repack, repack_index_files. destruct (repack_types_merged cat base files options Hne
    [MKDB_EXACT_INDEX_FILE; MKDB_SOUNDEX_INDEX_FILE; MKDB_CIDR_INDEX_FILE] fs []) as (fs' & new & E & Hnew & Hm). cbn [app] in E.
  destruct files as [|f files']; [done|]. rewrite Hb. cbn [negb]. rewrite E. cbn [mbind outcome_bind].
  destruct (existsb _ _); [|by destruct Hm as [-> ->]]. intros r Hr. destruct new as [|n new]; [done|].
  destruct (dry_run_flag options); [by rewrite (destroy_both_faults base) in Hr|].
  apply bind_inv_Ret in Hr as ([[ok fs1] fps] & _ & Hr). destruct ok; cbn [negb] in Hr; [|by rewrite (destroy_both_faults base) in Hr].
  apply bind_inv_Ret in Hr as (added & _ & Hr). apply bind_inv_Ret in Hr as ([[b1 fs2] numbered] & _ & Hr).
  apply bind_inv_Ret in Hr as ([[b2 fs3] a2] & _ & Hr). by rewrite (destroy_both_faults base) in Hr.
Qed.

(** ** Starting anew *)

(** With -i the class is not indexed any more: its index files are gone and so
    is its list of files, and no other file has changed. *)
Theorem delete_index_files_anew fs c master :
  let index := filter_file_list MKDB_ALL_INDEX_FILES master in
  dir_ok c → get_file_list fs c [] = Ret (true, master) → is_Some (fs (db_dir c ++ SLASH :: master_name MFL_READ)) → index ≠ [] →
  Forall (λ f, ∀ t, filename f ≠ db_dir c ++ SLASH :: master_name t) index →
  ∃ fs', delete_index_files fs c = Ret (true, fs') ∧ get_file_list fs' c [] = Ret (true, []) ∧ Forall (λ f, fs' (filename f) = None) index ∧
    ∀ n, n ∉ filename <$> index → (∀ t, n ≠ db_dir c ++ SLASH :: master_name t) → fs' n = fs n.
Proof.
  intros index Hd Hg Hr Hne Hm. unfold delete_index_files. rewrite Hg. cbn [mbind outcome_bind negb]. fold index.
  clearbody index. destruct index as [|f0 index0]; [done|]. set (index := f0 :: index0) in *.
  assert (∀ t, get_master_index_file MAX_FILE c t = Ret (db_dir c ++ SLASH :: master_name t)) as Hname.
  { intros t. unfold get_master_index_file. rewrite decide_True; [done|]. unfold dir_ok in Hd. rewrite length_app. destruct t; cbn; lia. }
  set (fs1 := unlink_file_list fs index).
  assert (∀ t, fs1 (db_dir c ++ SLASH :: master_name t) = fs (db_dir c ++ SLASH :: master_name t)) as H1.
  { intros t. unfold fs1. rewrite unlinked, bool_decide_false; [done|]. intros (f & E & Hf)%list_elem_of_fmap. rewrite Forall_forall in Hm. by apply (Hm f Hf t). }
  assert (∃ fs', unlink_master_file_list fs1 c = Ret (true, fs') ∧
            (∀ t, fs' (db_dir c ++ SLASH :: master_name t) = None) ∧ ∀ n, (∀ t, n ≠ db_dir c ++ SLASH :: master_name t) → fs' n = fs1 n)
    as (fs' & Eu & Hnone & Hfs').
  { unfold unlink_master_file_list. rewrite !Hname. cbn [mbind outcome_bind].
    assert (unlink fs1 (db_dir c ++ SLASH :: master_name MFL_READ) = Some (upd fs1 (db_dir c ++ SLASH :: master_name MFL_READ) None)) as ->.
    { unfold unlink, file_exists. by rewrite bool_decide_true by by rewrite H1. }
    cbn [mbind outcome_bind]. eexists. split; [reflexivity|].
    set (fs2 := upd fs1 _ None).
    assert (∀ (g : filesystem) m n, (default g (unlink g m)) n = if bool_decide (n = m) then None else g n) as Hu.
    { intros g m n. unfold unlink. destruct (file_exists g m) eqn:E; cbn [default from_option]; [done|].
      destruct (bool_decide_reflect (n = m)) as [->|]; [|done]. apply bool_decide_eq_false in E. by apply eq_None_not_Some. }
    split.
    - intros t. rewrite !Hu. unfold fs2, upd. destruct t; repeat case_bool_decide; done.
    - intros n Hn. rewrite !Hu. unfold fs2, upd. by rewrite !bool_decide_false. }
  exists fs'. rewrite Eu. cbn [mbind outcome_bind]. split; [done|]. split; [|split].
  - unfold get_file_list, is_area_indexed, file_exists. rewrite !master_index_file by done. cbn [mbind outcome_bind].
    by rewrite !Hnone.
  - apply Forall_forall. intros f Hf. rewrite Hfs' by (intros t; rewrite Forall_forall in Hm; by apply Hm). unfold fs1. rewrite unlinked, bool_decide_true; [done|].
    by apply list_elem_of_fmap_2.
  - intros n Hn Ht. rewrite Hfs' by done. unfold fs1. by rewrite unlinked, bool_decide_false.
Qed.

(** ** The words of a query *)

Definition words_text (ws : list cstr) : cstr := ws ≫= λ w, w ++ [SP].
Definition given_words (argv : list (option cstr)) : list cstr := omap (λ p, match p with Some (c :: w) => Some (c :: w) | _ => None end) argv.
Lemma add_words_kept argv : ∀ buf, (length buf < MAX_LINE)%nat → ∃ ws, add_words (buf, length buf) argv = Ret (buf ++ words_text ws, length (buf ++ words_text ws)) ∧
  ws `sublist_of` given_words argv ∧ ((length buf + length (words_text (given_words argv)) < MAX_LINE)%nat → ws = given_words argv).
Proof.
  induction argv as [|p argv IH]; intros buf Hb.
  { exists []. cbn. rewrite app_nil_r. by split_and!. }
  cbn [add_words]. assert (p = None ∨ p = Some [] ∨ ∃ c w, p = Some (c :: w)) as [->|[->|(c & w & ->)]] by (destruct p as [[|c w]|]; eauto).
  - apply IH. done.
  - apply IH. done.
  - unfold add_word. cbn [snd fst given_words omap list_omap]. fold (given_words argv). set (v := c :: w).
    case_decide as Hf.
    + rewrite decide_True by (rewrite !length_app; cbn [length]; lia). cbn [mbind outcome_bind].
      destruct (IH (buf ++ v ++ [SP])) as (ws & E & Hs & Hall); [rewrite !length_app; cbn [length]; lia|].
      replace (length buf + (length v + 1))%nat with (length (buf ++ v ++ [SP])) by (rewrite !length_app; done).
      exists (v :: ws). rewrite E. unfold words_text. rewrite !bind_cons, <-!app_assoc. split; [done|]. split; [by constructor|].
      intros Hl. f_equal. apply Hall. rewrite !length_app in *. cbn [length] in *. unfold words_text. lia.
    + cbn [mbind outcome_bind]. destruct (IH buf Hb) as (ws & E & Hs & Hall). exists ws. split; [done|]. split; [by constructor|].
      intros Hl. exfalso. apply Hf. unfold words_text in Hl. rewrite bind_cons, !length_app in Hl. cbn [length] in Hl. lia.
Qed.
(** The words of the command line become one query, with blanks between them;
    its array does not overflow: words that do not fit are left out. *)
Theorem assemble_query_string_words argv : ∃ ws, assemble_query_string argv = Ret (match ws with [] => None | _ => Some (trim_s (words_text ws)) end) ∧
  ws `sublist_of` given_words argv ∧ ((length (words_text (given_words argv)) < MAX_LINE)%nat → ws = given_words argv).
Proof.
  destruct (add_words_kept argv []) as (ws & E & Hs & Hall); [unfold MAX_LINE; cbn; lia|]. exists ws. split; [|done].
  unfold assemble_query_string. cbn [length] in E. rewrite E. cbn [mbind outcome_bind fst app]. destruct ws as [|v ws]; [done|].
  unfold words_text. rewrite bind_cons. by destruct v.
Qed.
